(* ===== verification/_CoqProject ===== *)
-Q . S2P
Prelude.v
NfpQueue.v
NfpQueueProofs.v
NfpTailqProofs.v
NfpHeaders.v
Getopt.v
CliArgParse.v
CliArgParseProofs.v
Strtok.v
ArgHeap.v
ArgOptions.v
Errno.v
Netwrap.v
NetwrapIo.v
NetwrapProofs.v
NetwrapIoProofs.v
NetwrapTheorems.v
App.v
AppProofs.v
AppHeap.v
Resources.v
Httpd.v
HttpdProofs.v
HttpdServer.v
HttpdTheorems.v
Httpd2.v
Httpd2Proofs.v
TcpPerf.v
TcpPerfMain.v
TcpPerfProofs.v
TcpPerfThreads.v
TcpPerfMainProofs.v
TcpPerfTheorems.v
TcpPerfOptions.v
TcpPerfStart.v
FpmDirect.v
FpmDirectProofs.v
FpmDirectStart.v
UdpFwd.v
UdpFwdProofs.v
UdpFwdStart.v
FpmPower.v
FpmPowerProofs.v
FpmPowerStart.v
DefaultApp.v
DefaultAppProofs.v
DefaultAppStart.v
Web2App.v
Web2AppStart.v
UdpTerm.v
UdpTermProofs.v
UdpTermStart.v
NetwrapProc.v
NetwrapProcProofs.v
NetwrapProcStart.v
NameArgs.v
NameArgsProofs.v
NameArgsStart.v
Multicast.v
MulticastProofs.v
IoctlTest.v
IoctlTestProofs.v
Multiproc.v
MultiprocProofs.v
MultiprocStart.v
Classifier.v
ClassifierProofs.v
ClassifierObjects.v
ClassifierStart.v
