(* ===== verification/Prelude.v ===== *)
(** * Verification of the NFP sources: headers, wrapper library, example programs

    NFP is a user-space network stack.  The repository ships the stack itself
    as a binary; its sources are the public headers (include/api) and the
    programs and libraries built on them (example).  This development models
    the parts with logic of their own and proves what makes them correct.

    ** Parts and files

    - [Prelude]: machine integers ([wrap], [swrap], [u32] ...), the monad [M] of
      stateful computations with outcomes (return, exit, stuck, out of fuel),
      loops, total-correctness postconditions ([wp]; [ends] for a computation
      that may also exit, [may] for one that may get stuck), frames [keeps] and
      the shared automation.  A [stuck] outcome stands for undefined behaviour: a
      NULL dereference, an access out of range, a division by zero.
    - [NfpQueue], [NfpQueueProofs], [NfpTailqProofs]: the SLIST, STAILQ, LIST
      and TAILQ macros of include/api/nfp_queue.h over a store of link fields
      ([mem]); pointers to links ([linkref]) are values, as the macros use them.
    - [NfpHeaders]: address classes (nfp_in.h, Module [In]), IPv6 predicates
      (nfp_in6.h, [In6]), ioctl requests (nfp_ioctl.h, [Ioctl]), VLAN tags
      (nfp_if_vlan.h, [Vlan]), ancillary data (nfp_socket.h, [Cmsg]).
    - [CliArgParse], [CliArgParseProofs]: example/common/cli_arg_parse.c over an
      explicit heap whose allocator may fail.  [ArgHeap]: what a program that
      copies options and parses interfaces holds on that heap ([holds]), and
      what is left after its cleanup ([spare]).  [Strtok]: the tokenizer of the
      C library on that heap, and the words it finds.  [ArgOptions]: the loop over the
      options, for any record of arguments.  [Getopt]: [getopt_long], for the
      one program that makes up its own [argv]; for the others the options it
      finds are an argument of [main].
    - [Errno], [Netwrap], [NetwrapIo] and their [..Proofs] and
      [NetwrapTheorems]: the preloaded socket library example/netwrap_crt.  The
      class [Env] stands for the stack, the C library and the dynamic linker.
    - [App], [AppProofs]: the interface of the example programs to the stack,
      ODP and POSIX.  [acall] lists the calls, the class [App] answers them in
      a world of any type, and the record of calls and answers ([trace]) is
      what the theorems read.  [SocketLaws] states what the programs rely on:
      fresh descriptors, received data that fit the buffer, a bound on how
      often the outside keeps a loop going ([budget]).  [AppHeap] puts the heap
      of [CliArgParse] in the globals of a program (class [HasHeap]);
      [Resources] reads from a trace which of ODP, shared memory, stack and
      threads are held ([held]), innermost first.
    - [Httpd], [HttpdProofs], [HttpdServer], [HttpdTheorems]:
      example/webserver/httpd.c, with the connection table as state.
    - [Httpd2], [Httpd2Proofs]: example/webserver2/httpd2.c.
    - [TcpPerf], [TcpPerfMain]: example/tcpperf/app_main.c; [args_t] is
      [gbl_args] with [exit_threads].  [TcpPerfProofs] has packet reception,
      [TcpPerfThreads] the worker threads, [TcpPerfMainProofs] sockets and
      statistics, [TcpPerfTheorems] the theorems on these, [TcpPerfOptions] the
      command line on the heap of [CliArgParse], [TcpPerfStart] [main].  The
      class [PacketLaws] states that ODP fills its tables as it says.
    - [FpmDirect], [FpmDirectProofs], [FpmDirectStart]: example/fpm_direct and
      example/common/linux_sigaction.c: the two dispatchers, the choice of
      cores (class [CpuLaws]: their number is a small integer), the arguments
      of the workers, and [main].
    - [UdpFwd], [UdpFwdProofs], [UdpFwdStart]: example/udp_fwd_socket: sockets,
      notification function and packet hooks (udp_fwd_socket.c), and the
      program (app_main.c), which reuses the functions that fpm_direct has as
      well.
    - [FpmPower], [FpmPowerProofs], [FpmPowerStart]: example/fpm_power: the
      workers of fpm_direct that wait for interrupts when idle, the dispatcher
      of events, and [main].
    - [DefaultApp], [DefaultAppProofs], [DefaultAppStart]: the programs that
      leave the dispatching to the library, with what they share (interface
      names and addresses, workers, example/common/linux_resources.c) and a
      Module each: example/fpm ([Fpm]), example/udpecho ([UdpEcho]) and the
      start-up of example/webserver ([Webserver], over [Httpd]).
    - [Web2App], [Web2AppStart]: the start-up of example/webserver2, with its
      three modes of execution.
    - [UdpTerm], [UdpTermProofs], [UdpTermStart]: example/udp_term_socket: the
      callback and the threads that count (udp_term_socket.c), and the program
      (app_main.c).
    - [NetwrapProc], [NetwrapProcProofs], [NetwrapProcStart]:
      example/netwrap_proc: the constructor that reads its options from the
      environment and the destructor; [netwrap_state] is a field of [proc_t].
    - [NameArgs], [NameArgsProofs], [NameArgsStart]: the parser of a list of
      interface names and the start-up that example/multicast and
      example/ioctl_test have in common (app_main.c); [appl_args_t] points into
      the copy of the argument.
    - [Multicast], [MulticastProofs]: the thread of example/multicast (mcast.c)
      and its [main].
    - [IoctlTest], [IoctlTestProofs]: the thread of example/ioctl_test
      (ioctl_test.c), over the sizes of the argument types, and its [main].
    - [Multiproc], [MultiprocProofs], [MultiprocStart]: example/multiprocess:
      fork and wait, the two tests, and [main] (multiprocess_main.c).
    - [Classifier], [ClassifierProofs], [ClassifierObjects],
      [ClassifierStart]: example/classifier: the objects of ODP (classifier.c),
      the counting threads (classifier_term.c, over [UdpTerm]), dispatchers and
      [main] (classifier_main.c).  [ClassifierObjects] reads from the record
      which groups, queues, classes and rules are alive (class [CosLaws]: ODP
      creates fresh ones).

    ** What is shown

    - Queues: any run of TAILQ operations refines the same operations on a
      sequence; STAILQ and TAILQ are FIFO; traversals visit each element once.
    - Headers: the address macros describe the ranges they name; request codes,
      tags and ancillary messages round-trip.
    - Command line: the interface parser equals a reference parser on text,
      round-trips with printing, and leaks nothing.
    - Wrapper library: every call is routed to exactly one side by its
      descriptor, with arguments and errors translated as tables of the numbers
      of the two systems say; the fast path takes every byte of a vector, once
      and in order, and whole blocks of a file; polling ends within its period,
      on the first answer that is not 0.
    - Web servers: they terminate, use only descriptors they hold (but that the
      epoll loop takes a connection out of the epoll instance after closing
      it), close all of them but on two early exits, and answer requests with
      the file asked for.
    - tcpperf: every packet is accounted for, the workers end and meter their
      traffic, the statistics are right, and [main] releases ODP, memory, stack
      and threads in order on every path.
    - fpm_direct: the input queues are shared out among the workers, each once;
      a worker deals with every packet and event it gets, once; [main] joins
      the threads, terminates the stack and frees the interfaces on every path
      but one.
    - udp_fwd_socket: sockets are opened on consecutive ports and all closed
      again with the memory given back; datagrams for these ports are sent on
      with exactly the destination and the checksums changed; [main] as above,
      the sockets included.
    - fpm_power: saving power loses no packet; a monitor of the calls shows that
      a worker polls only with interrupts off, switches them on only after the
      idle timeout, and waits only with all of them on; [main] as above.
    - fpm, udpecho, webserver: the stack is started with the interfaces of the
      command line and their addresses are set in order; an echo carries the
      payload of the datagram behind its prefix, back to the sender; [main] as
      above, on every path.
    - webserver2, udp_term_socket: [main] as above; every packet and byte that
      reaches the counting threads is counted once and freed, and the callback
      cuts a packet down to the payload of its datagram.
    - netwrap_proc: the words of the variable are those a reference splitter
      finds; the destructor gives back what the constructor started, unless a
      step of the constructor failed after ODP was started.
    - multicast, ioctl_test: the parser equals a reference parser on texts, and
      the start-up gives back the threads and the stack on every path; every
      datagram of the group is answered once and the group is left again; the
      requests carry arguments of the types they encode but for two, and it is
      stated exactly when the test leaves its memory.
    - multiprocess: the children are waited for before the stack is terminated,
      and the tests receive the datagrams asked for, or at least the bytes,
      unless receiving fails or the connection ends before.
    - classifier: every event is dealt with once and according to its type, and
      packets are freed exactly when vector or channel refuse them; what goes
      over the channel are payloads; packets are lost only when the channel
      fails with a code below -1; [main] destroys groups, queues and classes,
      or gets stuck after one of four mishaps it does not guard against.

    The theorems about [main] ask that no option is given twice and that memory
    does not run out while options are read ([ready]): a repeated option leaves
    the copy of its first argument, and the interface parser crashes when the
    allocation of its array fails ([parse_interfaces_calloc_failure]); with any
    other failed allocation it reports an error ([parse_interfaces_correct]).

    Where the sources do something else than they mean to, a theorem states
    what they do: [parse_interfaces_calloc_failure],
    [in6_v4mapped_unsatisfiable], [select_offset_out_of_range],
    [default_document_unreachable], [setup_webserver_outcomes],
    [setup_socket_outcomes]; the exceptions in [main_releases_resources],
    [fpm_main_releases_resources], [udp_fwd_main_releases_resources],
    [power_main_releases_resources], [udpecho_main_releases_resources],
    [udp_term_main_releases_resources], [netwrap_proc_lifetime],
    [ioctl_arguments_typed], [multiprocess_main_releases_resources],
    [multiprocess_receives], [classifier_main_releases_resources],
    [classifier_workers_pass_everything], [channel_input_sends_payloads] and
    [webserver_releases_descriptors].

    ** Bounds and fuel

    Loops of the sources are [loop]s on fuel.  Theorems about programs ask for
    more fuel than 2048 plus the [budget] of the world: 2048 covers every
    buffer and table walked (at most 1024 bytes or entries), and each further
    turn is preceded by an answer of the outside that spends budget, so such
    fuel gives the result, never [NoFuel].  The parsers ask for more fuel than
    characters of their argument, the multicast thread for more than the turns
    its interface takes to get an address, the ioctl test for more than the 22
    entries its buffer has room for, the tests of multiprocess for more than
    they are to receive.  Counters keep their widths (32 and 64 bits).

    ** Not modelled

    The stack (a binary) and ODP are parameters.  Logging and usage texts are
    left out.  Each thread is modelled against a world that may change between
    its calls; what another thread writes to shared fields is read through the
    call [A_load].  Of the examples, the socket API tests (scripted calls whose
    results are printed) and the IPsec and VNF demonstrations (configuration
    files) are not modelled. *)

From stdpp Require Export base list gmap numbers strings.
From Stdlib Require Export ZArith Lia.

#[global] Open Scope Z_scope.

(** ** Machine integers

    Unsigned C integers of width [w] are values of [Z] kept in [0, 2^w) by
    [wrap]; a signed [int] conversion is [swrap 32] (the two's complement
    conversion every supported compiler performs). *)

Definition wrap (w z : Z) : Z := z mod 2 ^ w.

Definition swrap (w z : Z) : Z :=
  let r := z mod 2 ^ w in if r <? 2 ^ (w - 1) then r else r - 2 ^ w.

Abbreviation u8 := (wrap 8).
Abbreviation u16 := (wrap 16).
Abbreviation u32 := (wrap 32).
Abbreviation u64 := (wrap 64).
Abbreviation s32 := (swrap 32).

Definition in_uint (w z : Z) : Prop := 0 ≤ z < 2 ^ w.
Definition in_int (w z : Z) : Prop := - 2 ^ (w - 1) ≤ z < 2 ^ (w - 1).

Lemma wrap_range w z : 0 ≤ w → in_uint w (wrap w z).
Proof. intros Hw. apply Z.mod_pos_bound. by apply Z.pow_pos_nonneg. Qed.

Lemma wrap_small w z : in_uint w z → wrap w z = z.
Proof. apply Z.mod_small. Qed.

Lemma wrap_wrap w z : wrap w (wrap w z) = wrap w z.
Proof. unfold wrap. by rewrite Zmod_mod. Qed.

Lemma swrap_small w z : 0 < w → in_int w z → swrap w z = z.
Proof.
  unfold swrap, in_int. intros Hw [Hl Hu].
  assert (H2 : 2 ^ w = 2 * 2 ^ (w - 1)).
  { rewrite <- Z.pow_succ_r by lia. f_equal. lia. }
  destruct (decide (0 ≤ z)).
  - rewrite Z.mod_small by lia. destruct (Z.ltb_spec z (2 ^ (w - 1))); lia.
  - replace (z mod 2 ^ w) with (z + 2 ^ w).
    + destruct (Z.ltb_spec (z + 2 ^ w) (2 ^ (w - 1))); lia.
    + apply (Zmod_unique _ _ (-1)); lia.
Qed.

Lemma swrap_range w z : 0 < w → in_int w (swrap w z).
Proof.
  unfold swrap, in_int. intros Hw.
  assert (H2 : 2 ^ w = 2 * 2 ^ (w - 1)).
  { rewrite <- Z.pow_succ_r by lia. f_equal. lia. }
  assert (0 < 2 ^ (w - 1)) by (apply Z.pow_pos_nonneg; lia).
  pose proof (Z.mod_pos_bound z (2 ^ w) ltac:(lia)).
  destruct (Z.ltb_spec (z mod 2 ^ w) (2 ^ (w - 1))); lia.
Qed.

(** ** Computations

    C code with side effects is a state transformer.  Besides returning, a
    computation can call [exit], get stuck (undefined behaviour: a NULL or
    dangling dereference, an access out of bounds, a double free) or run out
    of the fuel given to an unbounded loop. *)

Inductive outcome (A : Type) : Type :=
| Ret (a : A)
| Exit (code : Z)
| Stuck
| NoFuel.
Arguments Ret {A} _.
Arguments Exit {A} _.
Arguments Stuck {A}.
Arguments NoFuel {A}.

Definition M (S A : Type) : Type := S → outcome A * S.

#[global] Instance M_ret S : MRet (M S) := λ A a s, (Ret a, s).
#[global] Instance M_bind S : MBind (M S) := λ A B f m s,
  match m s with
  | (Ret a, s') => f a s'
  | (Exit c, s') => (Exit c, s')
  | (Stuck, s') => (Stuck, s')
  | (NoFuel, s') => (NoFuel, s')
  end.

Definition get {S} : M S S := λ s, (Ret s, s).
Definition gets {S A} (f : S → A) : M S A := λ s, (Ret (f s), s).
Definition put {S} (s : S) : M S unit := λ _, (Ret (), s).
Definition modify {S} (f : S → S) : M S unit := λ s, (Ret (), f s).
Definition stuck {S A} : M S A := λ s, (Stuck, s).
Definition exit {S A} (code : Z) : M S A := λ s, (Exit code, s).
Definition no_fuel {S A} : M S A := λ s, (NoFuel, s).

(** [of_option] is a dereference: undefined behaviour when there is nothing. *)
Definition of_option {S A} (o : option A) : M S A :=
  match o with Some a => mret a | None => stuck end.

(** [when b m] is [if (b) m;]. *)
Definition when {S} (b : bool) (m : M S unit) : M S unit :=
  if b then m else mret ().

(** A loop whose body either continues with a new loop state ([inl]) or
    leaves with a result ([inr]). *)
Fixpoint loop {S A B} (fuel : nat) (body : A → M S (A + B)) (a : A) : M S B :=
  match fuel with
  | O => no_fuel
  | Datatypes.S n =>
      r ← body a;
      match r with inl a' => loop n body a' | inr b => mret b end
  end.

(** [for (i = lo; i < lo + n; i++) body(i)] *)
Fixpoint for_from {S} (i : Z) (n : nat) (body : Z → M S unit) : M S unit :=
  match n with
  | O => mret ()
  | Datatypes.S n' => body i;; for_from (i + 1) n' body
  end.

(** The same loop with an accumulator. *)
Fixpoint for_acc {S A} (i : Z) (n : nat) (body : Z → A → M S A) (a : A) : M S A :=
  match n with
  | O => mret a
  | Datatypes.S n' => a' ← body i a; for_acc (i + 1) n' body a'
  end.

(** The same with an early return ([inr]). *)
Fixpoint for_ret {S A B} (i : Z) (n : nat) (body : Z → A → M S (A + B)) (a : A) : M S (A + B) :=
  match n with
  | O => mret (inl a)
  | Datatypes.S n' =>
      r ← body i a;
      match r with inl a' => for_ret (i + 1) n' body a' | inr b => mret (inr b) end
  end.

Lemma bind_Ret {S A B} (m : M S A) (f : A → M S B) s a s' :
  m s = (Ret a, s') → (m ≫= f) s = f a s'.
Proof. unfold mbind, M_bind. by intros ->. Qed.

Lemma bind_gets {S A B} (g : S → A) (f : A → M S B) s :
  (gets g ≫= f) s = f (g s) s.
Proof. done. Qed.

Lemma bind_modify {S B} (g : S → S) (f : unit → M S B) s :
  (modify g ≫= f) s = f () (g s).
Proof. done. Qed.

Lemma bind_ret {S A B} (a : A) (f : A → M S B) s : ((mret a : M S A) ≫= f) s = f a s.
Proof. done. Qed.

Lemma bind_of_option {S A B} (o : option A) (a : A) (f : A → M S B) s :
  o = Some a → (of_option o ≫= f) s = f a s.
Proof. by intros ->. Qed.

Lemma bind_assoc {S A B C} (m : M S A) (f : A → M S B) (g : B → M S C) s :
  ((m ≫= f) ≫= g) s = (m ≫= (λ a, f a ≫= g)) s.
Proof. unfold mbind, M_bind. by destruct (m s) as [[] ?]. Qed.

Lemma bind_cong {S A B} (m : M S A) (f g : A → M S B) s :
  (∀ a s', f a s' = g a s') → (m ≫= f) s = (m ≫= g) s.
Proof. intros H. unfold mbind, M_bind. by destruct (m s) as [[] ?]. Qed.

Lemma bind_unit {S} (m : M S unit) s : (m;; mret ()) s = m s.
Proof. unfold mbind, M_bind. by destruct (m s) as [[[]| | |] ?]. Qed.

(** A computation that returned did so step by step. *)
Lemma bind_inv_Ret {S A B} (m : M S A) (f : A → M S B) s b s'' :
  (m ≫= f) s = (Ret b, s'') → ∃ a s', m s = (Ret a, s') ∧ f a s' = (Ret b, s'').
Proof. unfold mbind, M_bind. destruct (m s) as [[] ?]; naive_solver. Qed.

(** More fuel does not change a result. *)
Lemma loop_mono {S A B} (body : A → M S (A + B)) n m a s o s' :
  (n ≤ m)%nat → loop n body a s = (o, s') → o ≠ NoFuel → loop m body a s = (o, s').
Proof.
  revert m a s. induction n as [|n IH]; intros m a s Hle Hl Ho.
  { simpl in Hl. unfold no_fuel in Hl. congruence. }
  destruct m as [|m]; [lia|]. simpl in *. unfold mbind, M_bind in *.
  destruct (body a s) as [[[a'|b]| | |] s1]; try done.
  apply IH; [lia|done|done].
Qed.

(** Total-correctness postcondition: the computation returns, with a result
    and a state that satisfy [Q]. *)
Definition wp {S A} (m : M S A) (Q : A → S → Prop) (s : S) : Prop :=
  ∃ a s', m s = (Ret a, s') ∧ Q a s'.

Lemma wp_ret {S A} (a : A) (Q : A → S → Prop) s : Q a s → wp (mret a) Q s.
Proof. intros. by exists a, s. Qed.

Lemma wp_bind {S A B} (m : M S A) (f : A → M S B) Q s :
  wp m (λ a, wp (f a) Q) s → wp (m ≫= f) Q s.
Proof.
  intros (a & s' & Hm & b & s'' & Hf & HQ).
  exists b, s''. by rewrite (bind_Ret _ _ _ _ _ Hm).
Qed.

Lemma wp_assoc {S A B C} (m : M S A) (f : A → M S B) (g : B → M S C) Q s :
  wp ((m ≫= f) ≫= g) Q s → wp (m ≫= λ a, f a ≫= g) Q s.
Proof. unfold wp. by rewrite bind_assoc. Qed.

Lemma wp_gets {S A} (g : S → A) (Q : A → S → Prop) s : Q (g s) s → wp (gets g) Q s.
Proof. intros. by exists (g s), s. Qed.

Lemma wp_modify {S} (g : S → S) (Q : unit → S → Prop) s :
  Q () (g s) → wp (modify g) Q s.
Proof. intros. by exists (), (g s). Qed.

Lemma wp_of_option {S A} (o : option A) a (Q : A → S → Prop) s :
  o = Some a → Q a s → wp (of_option o) Q s.
Proof. intros -> ?. by exists a, s. Qed.

Lemma wp_mono {S A} (m : M S A) (Q Q' : A → S → Prop) s :
  (∀ a s', Q a s' → Q' a s') → wp m Q s → wp m Q' s.
Proof. intros H (a & s' & ? & ?). exists a, s'. auto. Qed.

Lemma wp_conj {S A} (m : M S A) (Q Q' : A → S → Prop) s :
  wp m Q s → wp m Q' s → wp m (λ a s', Q a s' ∧ Q' a s') s.
Proof.
  intros (a & s' & H1 & ?) (a' & s'' & H2 & ?). rewrite H1 in H2. simplify_eq.
  by exists a', s''.
Qed.

(** The same for a computation that may also call [exit], with [X]. *)
Definition ends {S A} (m : M S A) (Q : A → S → Prop) (X : Z → S → Prop) (s : S) : Prop :=
  ∃ o s', m s = (o, s') ∧ match o with Ret a => Q a s' | Exit c => X c s' | _ => False end.

Lemma ends_wp {S A} (m : M S A) Q X s : wp m Q s → ends m Q X s.
Proof. intros (a & s' & Hm & HQ). by exists (Ret a), s'. Qed.

Lemma wp_ends {S A} (m : M S A) Q s : ends m Q (λ _ _, False) s → wp m Q s.
Proof. intros (o & s' & Hm & Ho). destruct o as [a| | |]; [by exists a, s'|done..]. Qed.

Lemma ends_bind {S A B} (m : M S A) (f : A → M S B) Q X s :
  ends m (λ a, ends (f a) Q X) X s → ends (m ≫= f) Q X s.
Proof.
  intros (o & s' & Hm & Ho). destruct o as [a|c| |]; try done.
  - destruct Ho as (o & s'' & Hf & HQ). exists o, s''. by rewrite (bind_Ret _ _ _ _ _ Hm).
  - exists (Exit c), s'. unfold mbind, M_bind. by rewrite Hm.
Qed.

Lemma ends_exit {S A} c (Q : A → S → Prop) (X : Z → S → Prop) s : X c s → ends (exit c) Q X s.
Proof. intros. by exists (Exit c), s. Qed.

Lemma ends_mono {S A} (m : M S A) (Q Q' : A → S → Prop) (X X' : Z → S → Prop) s :
  (∀ a s', Q a s' → Q' a s') → (∀ c s', X c s' → X' c s') → ends m Q X s → ends m Q' X' s.
Proof. intros HQ HX (o & s' & Hm & Ho). exists o, s'. split; [done|]. destruct o; auto. Qed.

(** A [loop] terminates with [Q] when its body keeps the invariant [I] and
    decreases the measure [μ]; any fuel above the measure is enough. *)
Lemma wp_loop {S A B} (body : A → M S (A + B)) (I : A → S → Prop) (μ : A → S → nat)
    (Q : B → S → Prop) :
  (∀ a s, I a s →
     wp (body a) (λ r s', match r with
                          | inl a' => I a' s' ∧ (μ a' s' < μ a s)%nat
                          | inr b => Q b s'
                          end) s) →
  ∀ fuel a s, I a s → (μ a s < fuel)%nat → wp (loop fuel body a) Q s.
Proof.
  intros Hbody fuel. induction fuel as [|n IH]; intros a s HI Hfuel; [lia|].
  simpl. apply wp_bind. eapply wp_mono; [|by apply Hbody].
  intros [a'|b] s'; [|by intros; apply wp_ret].
  intros [HI' Hlt]. apply IH; [done|lia].
Qed.

(** A counted loop keeps an invariant indexed by the counter. *)
Lemma wp_for_from {S} (body : Z → M S unit) (I : Z → S → Prop) n lo s :
  I lo s →
  (∀ i s, lo ≤ i < lo + Z.of_nat n → I i s → wp (body i) (λ _ s', I (i + 1) s') s) →
  wp (for_from lo n body) (λ _ s', I (lo + Z.of_nat n) s') s.
Proof.
  revert lo s. induction n as [|n IH]; intros lo s HI Hb; simpl.
  - apply wp_ret. by replace (lo + Z.of_nat 0) with lo by lia.
  - apply wp_bind. eapply wp_mono; [|apply Hb; [lia|done]].
    intros [] s1 HI1. simpl in HI1.
    replace (lo + Z.of_nat (Datatypes.S n)) with (lo + 1 + Z.of_nat n) by lia.
    apply IH; [done|]. intros i s2 Hi. apply Hb. lia.
Qed.

Lemma wp_for_acc {S A} (body : Z → A → M S A) (I : Z → A → S → Prop) n lo a s :
  I lo a s →
  (∀ i a s, lo ≤ i < lo + Z.of_nat n → I i a s → wp (body i a) (λ a' s', I (i + 1) a' s') s) →
  wp (for_acc lo n body a) (λ a' s', I (lo + Z.of_nat n) a' s') s.
Proof.
  revert lo a s. induction n as [|n IH]; intros lo a s HI Hb; simpl.
  - apply wp_ret. by replace (lo + Z.of_nat 0) with lo by lia.
  - apply wp_bind. eapply wp_mono; [|apply Hb; [lia|done]].
    intros a1 s1 HI1. simpl in HI1.
    replace (lo + Z.of_nat (Datatypes.S n)) with (lo + 1 + Z.of_nat n) by lia.
    apply IH; [done|]. intros i a2 s2 Hi. apply Hb. lia.
Qed.

Lemma ends_for_ret {S A B} (body : Z → A → M S (A + B)) (I : Z → A → S → Prop)
    (R : B → S → Prop) (X : Z → S → Prop) n lo a s :
  I lo a s →
  (∀ i a s, lo ≤ i < lo + Z.of_nat n → I i a s →
     ends (body i a) (λ r s', match r with inl a' => I (i + 1) a' s' | inr b => R b s' end) X s) →
  ends (for_ret lo n body a) (λ r s', match r with
                                      | inl a' => I (lo + Z.of_nat n) a' s'
                                      | inr b => R b s'
                                      end) X s.
Proof.
  revert lo a s. induction n as [|n IH]; intros lo a s HI Hb; simpl.
  - apply ends_wp, wp_ret. by replace (lo + Z.of_nat 0) with lo by lia.
  - apply ends_bind. eapply ends_mono; [|done|apply Hb; [lia|done]].
    intros [a1|b] s1 HI1; [|by apply ends_wp, wp_ret].
    replace (lo + Z.of_nat (Datatypes.S n)) with (lo + 1 + Z.of_nat n) by lia.
    apply IH; [done|]. intros i a2 s2 Hi. apply Hb. lia.
Qed.

Lemma ends_for_acc {S A} (body : Z → A → M S A) (I : Z → A → S → Prop) (X : Z → S → Prop) n lo a s :
  I lo a s →
  (∀ i a s, lo ≤ i < lo + Z.of_nat n → I i a s → ends (body i a) (λ a' s', I (i + 1) a' s') X s) →
  ends (for_acc lo n body a) (λ a' s', I (lo + Z.of_nat n) a' s') X s.
Proof.
  revert lo a s. induction n as [|n IH]; intros lo a s HI Hb; simpl.
  - apply ends_wp, wp_ret. by replace (lo + Z.of_nat 0) with lo by lia.
  - apply ends_bind. eapply ends_mono; [|intros ? ? Hx; exact Hx|apply Hb; [lia|done]].
    intros a1 s1 HI1. simpl in HI1.
    replace (lo + Z.of_nat (Datatypes.S n)) with (lo + 1 + Z.of_nat n) by lia.
    apply IH; [done|]. intros i a2 s2 Hi. apply Hb. lia.
Qed.

Lemma wp_for_ret {S A B} (body : Z → A → M S (A + B)) (I : Z → A → S → Prop)
    (R : B → S → Prop) n lo a s :
  I lo a s →
  (∀ i a s, lo ≤ i < lo + Z.of_nat n → I i a s →
     wp (body i a) (λ r s', match r with inl a' => I (i + 1) a' s' | inr b => R b s' end) s) →
  wp (for_ret lo n body a) (λ r s', match r with
                                    | inl a' => I (lo + Z.of_nat n) a' s'
                                    | inr b => R b s'
                                    end) s.
Proof. intros HI Hb. apply wp_ends, ends_for_ret; [done|]. intros. by apply ends_wp, Hb. Qed.

(** ** Computations that may get stuck *)

(** The computation returns with [Q], or gets stuck with [U]. *)
Definition may {S A} (m : M S A) (Q : A → S → Prop) (U : S → Prop) (s : S) : Prop :=
  ∃ o s', m s = (o, s') ∧ match o with Ret a => Q a s' | Stuck => U s' | _ => False end.

Lemma may_wp {S A} (m : M S A) Q U s : wp m Q s → may m Q U s.
Proof. intros (a & s' & Hm & HQ). by exists (Ret a), s'. Qed.

Lemma may_bind {S A B} (m : M S A) (f : A → M S B) Q U s :
  may m (λ a, may (f a) Q U) U s → may (m ≫= f) Q U s.
Proof.
  intros (o & s' & Hm & Ho). destruct o as [a| | |]; try done.
  - destruct Ho as (o & s'' & Hf & HQ). exists o, s''. by rewrite (bind_Ret _ _ _ _ _ Hm).
  - exists Stuck, s'. unfold mbind, M_bind. by rewrite Hm.
Qed.

Lemma may_stuck {S A} (Q : A → S → Prop) (U : S → Prop) s : U s → may stuck Q U s.
Proof. intros. by exists Stuck, s. Qed.

Lemma may_mono {S A} (m : M S A) (Q Q' : A → S → Prop) U s :
  (∀ a s', Q a s' → Q' a s') → may m Q U s → may m Q' U s.
Proof. intros HQ (o & s' & Hm & Ho). exists o, s'. split; [done|]. destruct o; auto. Qed.

Lemma may_for_ret {S A B} (body : Z → A → M S (A + B)) (I : Z → A → S → Prop) (R : B → S → Prop) (U : S → Prop) n lo a s :
  I lo a s →
  (∀ i a s, lo ≤ i < lo + Z.of_nat n → I i a s →
     may (body i a) (λ r s', match r with inl a' => I (i + 1) a' s' | inr b => R b s' end) U s) →
  may (for_ret lo n body a)
    (λ r s', match r with inl a' => I (lo + Z.of_nat n) a' s' | inr b => R b s' end) U s.
Proof.
  revert lo a s. induction n as [|n IH]; intros lo a s HI Hb; simpl.
  - apply may_wp, wp_ret. by replace (lo + Z.of_nat 0) with lo by lia.
  - apply may_bind. eapply may_mono; [|apply Hb; [lia|done]].
    intros [a1|b] s1 HI1; [|by apply may_wp, wp_ret].
    replace (lo + Z.of_nat (Datatypes.S n)) with (lo + 1 + Z.of_nat n) by lia.
    apply IH; [done|]. intros i a2 s2 Hi. apply Hb. lia.
Qed.

Lemma may_for_acc {S A} (body : Z → A → M S A) (I : Z → A → S → Prop) (U : S → Prop) n lo a s :
  I lo a s →
  (∀ i a s, lo ≤ i < lo + Z.of_nat n → I i a s → may (body i a) (λ a' s', I (i + 1) a' s') U s) →
  may (for_acc lo n body a) (λ a' s', I (lo + Z.of_nat n) a' s') U s.
Proof.
  revert lo a s. induction n as [|n IH]; intros lo a s HI Hb; simpl.
  - apply may_wp, wp_ret. by replace (lo + Z.of_nat 0) with lo by lia.
  - apply may_bind. eapply may_mono; [|apply Hb; [lia|done]].
    intros a1 s1 HI1. simpl in HI1.
    replace (lo + Z.of_nat (Datatypes.S n)) with (lo + 1 + Z.of_nat n) by lia.
    apply IH; [done|]. intros i a2 s2 Hi. apply Hb. lia.
Qed.

Lemma may_for_from {S} (body : Z → M S unit) (I : Z → S → Prop) (U : S → Prop) n lo s :
  I lo s →
  (∀ i s, lo ≤ i < lo + Z.of_nat n → I i s → may (body i) (λ _ s', I (i + 1) s') U s) →
  may (for_from lo n body) (λ _ s', I (lo + Z.of_nat n) s') U s.
Proof.
  revert lo s. induction n as [|n IH]; intros lo s HI Hb; simpl.
  - apply may_wp, wp_ret. by replace (lo + Z.of_nat 0) with lo by lia.
  - apply may_bind. eapply may_mono; [|apply Hb; [lia|done]].
    intros [] s1 HI1. simpl in HI1.
    replace (lo + Z.of_nat (Datatypes.S n)) with (lo + 1 + Z.of_nat n) by lia.
    apply IH; [done|]. intros i s2 Hi. apply Hb. lia.
Qed.

Lemma may_loop {S A B} (body : A → M S (A + B)) (I : A → S → Prop) (μ : A → S → nat)
    (Q : B → S → Prop) (U : S → Prop) :
  (∀ a s, I a s →
     may (body a) (λ r s', match r with
                           | inl a' => I a' s' ∧ (μ a' s' < μ a s)%nat
                           | inr b => Q b s'
                           end) U s) →
  ∀ fuel a s, I a s → (μ a s < fuel)%nat → may (loop fuel body a) Q U s.
Proof.
  intros Hbody fuel. induction fuel as [|n IH]; intros a s HI Hfuel; [lia|].
  simpl. apply may_bind. eapply may_mono; [|by apply Hbody].
  intros [a'|b] s'; [|by intros; apply may_wp, wp_ret].
  intros [HI' Hlt]. apply IH; [done|lia].
Qed.

(** ** Frames

    [keeps R m]: when [m] returns, the states before and after are related by
    [R].  For a preorder this holds of a computation when it holds of its
    parts; [wp_keeps] adds it to what is known of a computation that returns. *)

Definition keeps {S A} (R : S → S → Prop) (m : M S A) : Prop :=
  ∀ s a s', m s = (Ret a, s') → R s s'.

Section Keeps.
Context {S : Type} (R : S → S → Prop) `{!PreOrder R}.

Lemma keeps_ret {A} (a : A) : keeps R (mret a).
Proof. intros s b s' [= <- <-]. reflexivity. Qed.

Lemma keeps_bind {A B} (m : M S A) (f : A → M S B) :
  keeps R m → (∀ a, keeps R (f a)) → keeps R (m ≫= f).
Proof.
  intros Hm Hf s b s'' H. apply bind_inv_Ret in H as (a & s' & H1 & H2).
  etrans; [by eapply Hm|by eapply Hf].
Qed.

Lemma keeps_gets {A} (g : S → A) : keeps R (gets g).
Proof. intros s b s' [= <- <-]. reflexivity. Qed.

Lemma keeps_stuck {A} : keeps R (stuck : M S A).
Proof. by intros s b s'. Qed.

Lemma keeps_of_option {A} (o : option A) : keeps R (of_option o).
Proof. destruct o; [apply keeps_ret|apply keeps_stuck]. Qed.

Lemma keeps_when (b : bool) (m : M S unit) : keeps R m → keeps R (when b m).
Proof. intros. destruct b; [done|apply keeps_ret]. Qed.

Lemma keeps_if {A} (b : bool) (m1 m2 : M S A) :
  keeps R m1 → keeps R m2 → keeps R (if b then m1 else m2).
Proof. by destruct b. Qed.

Lemma keeps_loop {A B} fuel (body : A → M S (A + B)) a :
  (∀ a, keeps R (body a)) → keeps R (loop fuel body a).
Proof.
  intros Hb. revert a. induction fuel as [|n IH]; intros a; simpl; [by intros s b s'|].
  apply keeps_bind; [done|]. intros [a'|b]; [apply IH|apply keeps_ret].
Qed.

Lemma keeps_for_from i n (body : Z → M S unit) :
  (∀ i, keeps R (body i)) → keeps R (for_from i n body).
Proof.
  intros Hb. revert i. induction n as [|n IH]; intros i; simpl; [apply keeps_ret|].
  apply keeps_bind; [done|]. intros _. apply IH.
Qed.

Lemma keeps_for_acc {A} i n (body : Z → A → M S A) a :
  (∀ i a, keeps R (body i a)) → keeps R (for_acc i n body a).
Proof.
  intros Hb. revert i a. induction n as [|n IH]; intros i a; simpl; [apply keeps_ret|].
  apply keeps_bind; [done|]. intros a'. apply IH.
Qed.

Lemma keeps_for_ret {A B} i n (body : Z → A → M S (A + B)) a :
  (∀ i a, keeps R (body i a)) → keeps R (for_ret i n body a).
Proof.
  intros Hb. revert i a. induction n as [|n IH]; intros i a; simpl; [apply keeps_ret|].
  apply keeps_bind; [done|]. intros [a'|b]; [apply IH|apply keeps_ret].
Qed.

Lemma keeps_exit {A} code : keeps R (exit code : M S A).
Proof. by intros s b s'. Qed.
End Keeps.

Lemma wp_keeps {S A} (R : S → S → Prop) (m : M S A) Q s :
  keeps R m → wp m Q s → wp m (λ a s', Q a s' ∧ R s s') s.
Proof. intros Hk (a & s' & Hm & HQ). exists a, s'. eauto. Qed.

(** Prove a frame by going through the computation; the database has the frames
    of its parts. *)
Create HintDb keeps.
Ltac frame :=
  repeat first
    [ progress intros
    | match goal with
      | |- PreOrder _ => apply _
      | |- keeps _ (mbind _ _) => apply keeps_bind
      | |- keeps _ (mret _) => apply keeps_ret
      | |- keeps _ (gets _) => apply keeps_gets
      | |- keeps _ stuck => apply keeps_stuck
      | |- keeps _ (of_option _) => apply keeps_of_option
      | |- keeps _ (when _ _) => apply keeps_when
      | |- keeps _ (loop _ _ _) => apply keeps_loop
      | |- keeps _ (for_from _ _ _) => apply keeps_for_from
      | |- keeps _ (for_acc _ _ _ _) => apply keeps_for_acc
      | |- keeps _ (for_ret _ _ _ _) => apply keeps_for_ret
      | |- keeps _ (exit _) => apply keeps_exit
      | |- keeps _ (match ?x with _ => _ end) => destruct x
      | |- keeps _ _ => solve [eauto 2 with keeps]
      end ].

(** ** Automation *)

Create HintDb nfp.
Create Rewrite HintDb nfp.
#[export] Hint Resolve wp_ret wp_gets wp_modify : nfp.
#[export] Hint Rewrite @bind_gets @bind_modify @bind_ret : nfp.

(** Run the head of a computation in the goal. *)
Ltac mstep :=
  repeat first
    [ progress autorewrite with nfp
    | erewrite bind_of_option by (first [eassumption | reflexivity])
    | erewrite bind_Ret by eassumption
    | progress simpl ].

(** Decide every conditional of the goal. *)
Ltac case_ifs :=
  repeat match goal with
  | |- context [if decide ?P then _ else _] => destruct (decide P)
  | |- context [if ?b then _ else _] => let E := fresh "E" in destruct b eqn:E
  end.

(** ** Lists *)

Lemma Forall_snoc_iff {A} (P : A → Prop) l x : Forall P (l ++ [x]) ↔ Forall P l ∧ P x.
Proof. rewrite Forall_app, Forall_singleton. done. Qed.

Lemma take_S_lookup {A} (l : list A) n x :
  l !! n = Some x → take (S n) l = take n l ++ [x].
Proof. apply take_S_r. Qed.

(** Bytes are integers in [0, 256). *)
Abbreviation bytes := (list Z).

(** The characters of a string literal. *)
Definition text (s : string) : bytes :=
  (λ a, Z.of_N (Ascii.N_of_ascii a)) <$> String.list_ascii_of_string s.
