(* ===== verification/NfpQueue.v ===== *)
(** * Intrusive queues (include/api/nfp_queue.h)

    The BSD queue macros: singly linked lists (SLIST), singly linked tail
    queues (STAILQ), doubly linked lists (LIST) and doubly linked tail queues
    (TAILQ).  The macros are imperative code over link fields embedded in the
    elements, so they are modelled over a memory of link fields with the
    pointers the macros use: [struct type *] is [option positive] ([None] is
    NULL) and [struct type **], the address of some "next" field, is a
    [linkref].  A dereference of a field that is not allocated is [Stuck].

    The second half relates every macro to the abstract list the structure
    represents. *)

From S2P Require Import Prelude.

(** ** Memory *)

(** [struct type **]: the address of a head's first-element field or of an
    element's next field. *)
Inductive linkref : Type :=
| HeadFirst (h : positive)
| ElmNext (e : positive).

#[global] Instance linkref_eq_dec : EqDecision linkref.
Proof. solve_decision. Defined.

(** The fields of the heads ([slh_first], [stqh_first], [lh_first],
    [tqh_first]; [stqh_last], [tqh_last]) and of the elements ([sle_next],
    [stqe_next], [le_next], [tqe_next]; [le_prev], [tqe_prev]).  A head or an
    element has the fields its declaration macro gives it: those of a TAILQ,
    [NFP_TAILQ_HEAD] and [NFP_TAILQ_ENTRY], have all four, the others a part. *)
Record mem : Type := Mem {
  firsts : gmap positive (option positive);
  lasts : gmap positive linkref;
  nexts : gmap positive (option positive);
  prevs : gmap positive linkref
}.

Definition linkval (m : mem) (r : linkref) : option (option positive) :=
  match r with HeadFirst h => firsts m !! h | ElmNext e => nexts m !! e end.

Definition setlink (r : linkref) (v : option positive) (m : mem) : mem :=
  match r with
  | HeadFirst h => Mem (<[h:=v]> (firsts m)) (lasts m) (nexts m) (prevs m)
  | ElmNext e => Mem (firsts m) (lasts m) (<[e:=v]> (nexts m)) (prevs m)
  end.
Definition setlast (h : positive) (r : linkref) (m : mem) : mem :=
  Mem (firsts m) (<[h:=r]> (lasts m)) (nexts m) (prevs m).
Definition setprev (e : positive) (r : linkref) (m : mem) : mem :=
  Mem (firsts m) (lasts m) (nexts m) (<[e:=r]> (prevs m)).

(** Loads and stores; all need the field to be allocated. *)
Definition load (r : linkref) : M mem (option positive) :=
  m ← get; of_option (linkval m r).
Definition store (r : linkref) (v : option positive) : M mem unit :=
  m ← get; _ ← of_option (linkval m r); modify (setlink r v).
Definition get_last (h : positive) : M mem linkref :=
  m ← get; of_option (lasts m !! h).
Definition set_last (h : positive) (r : linkref) : M mem unit :=
  m ← get; _ ← of_option (lasts m !! h); modify (setlast h r).
Definition get_prev (e : positive) : M mem linkref :=
  m ← get; of_option (prevs m !! e).
Definition set_prev (e : positive) (r : linkref) : M mem unit :=
  m ← get; _ ← of_option (prevs m !! e); modify (setprev e r).

(** [p->field] for a pointer that may be NULL. *)
Definition deref (p : option positive) : M mem positive := of_option p.

(** ** SLIST: singly-linked lists *)

(** Initializers: the declaration macros give a head its fields. *)
Definition NFP_SLIST_HEAD_INITIALIZER (head : positive) (m : mem) : mem :=
  Mem (<[head:=None]> (firsts m)) (lasts m) (nexts m) (prevs m).
Definition NFP_SLIST_ENTRY (elm : positive) (m : mem) : mem :=
  Mem (firsts m) (lasts m) (<[elm:=None]> (nexts m)) (prevs m).

Definition NFP_SLIST_FIRST (head : positive) : M mem (option positive) :=
  load (HeadFirst head).
Definition NFP_SLIST_NEXT (elm : positive) : M mem (option positive) :=
  load (ElmNext elm).
Definition NFP_SLIST_EMPTY (head : positive) : M mem bool :=
  f ← NFP_SLIST_FIRST head; mret (bool_decide (f = None)).
Definition NFP_SLIST_INIT (head : positive) : M mem unit :=
  store (HeadFirst head) None.
Definition NFP_SLIST_INSERT_AFTER (slistelm elm : positive) : M mem unit :=
  n ← NFP_SLIST_NEXT slistelm;
  store (ElmNext elm) n;;
  store (ElmNext slistelm) (Some elm).
Definition NFP_SLIST_INSERT_HEAD (head elm : positive) : M mem unit :=
  f ← NFP_SLIST_FIRST head;
  store (ElmNext elm) f;;
  store (HeadFirst head) (Some elm).
Definition NFP_SLIST_REMOVE_AFTER (elm : positive) : M mem unit :=
  n ← NFP_SLIST_NEXT elm;
  n' ← deref n;
  nn ← NFP_SLIST_NEXT n';
  store (ElmNext elm) nn.
Definition NFP_SLIST_REMOVE_HEAD (head : positive) : M mem unit :=
  f ← NFP_SLIST_FIRST head;
  f' ← deref f;
  n ← NFP_SLIST_NEXT f';
  store (HeadFirst head) n.

(** [while (NEXT(curelm) != elm) curelm = NEXT(curelm);] *)
Definition find_prev (fuel : nat) (elm : positive) (first : option positive) : M mem positive :=
  loop fuel (λ curelm,
    c ← deref curelm;
    n ← load (ElmNext c);
    mret (if bool_decide (n = Some elm) then inr c else inl n)) first.

Definition NFP_SLIST_REMOVE (fuel : nat) (head elm : positive) : M mem unit :=
  f ← NFP_SLIST_FIRST head;
  if bool_decide (f = Some elm) then NFP_SLIST_REMOVE_HEAD head
  else curelm ← find_prev fuel elm f; NFP_SLIST_REMOVE_AFTER curelm.

Definition NFP_SLIST_SWAP (head1 head2 : positive) : M mem unit :=
  swap_first ← NFP_SLIST_FIRST head1;
  f2 ← NFP_SLIST_FIRST head2;
  store (HeadFirst head1) f2;;
  store (HeadFirst head2) swap_first.

(** The FOREACH loops, with a body that accumulates.  [SAFE] reads the
    successor before the body runs. *)
Definition foreach {A} (fuel : nat) (first : M mem (option positive))
    (next : positive → M mem (option positive)) (body : positive → A → M mem A) (acc : A)
    : M mem A :=
  v0 ← first;
  loop fuel (λ va : option positive * A,
    match va.1 with
    | None => mret (inr va.2)
    | Some v => a' ← body v va.2; v' ← next v; mret (inl (v', a'))
    end) (v0, acc).

Definition foreach_safe {A} (fuel : nat) (first : M mem (option positive))
    (next : positive → M mem (option positive)) (body : positive → A → M mem A) (acc : A)
    : M mem A :=
  v0 ← first;
  loop fuel (λ va : option positive * A,
    match va.1 with
    | None => mret (inr va.2)
    | Some v => tvar ← next v; a' ← body v va.2; mret (inl (tvar, a'))
    end) (v0, acc).

Definition NFP_SLIST_FOREACH {A} fuel head (body : positive → A → M mem A) acc :=
  foreach fuel (NFP_SLIST_FIRST head) NFP_SLIST_NEXT body acc.
Definition NFP_SLIST_FOREACH_SAFE {A} fuel head (body : positive → A → M mem A) acc :=
  foreach_safe fuel (NFP_SLIST_FIRST head) NFP_SLIST_NEXT body acc.

(** [FOREACH_PREVPTR] walks with the address of the link that leads to the
    element, so the body can unlink it. *)
Definition NFP_SLIST_FOREACH_PREVPTR {A} (fuel : nat) (head : positive)
    (body : positive → linkref → A → M mem A) (acc : A) : M mem A :=
  loop fuel (λ va : linkref * A,
    v ← load va.1;
    match v with
    | None => mret (inr va.2)
    | Some e => a' ← body e va.1 va.2; mret (inl (ElmNext e, a'))
    end) (HeadFirst head, acc).

(** ** STAILQ: singly-linked tail queues *)

Definition NFP_STAILQ_HEAD_INITIALIZER (head : positive) (m : mem) : mem :=
  Mem (<[head:=None]> (firsts m)) (<[head:=HeadFirst head]> (lasts m)) (nexts m) (prevs m).
Definition NFP_STAILQ_ENTRY (elm : positive) (m : mem) : mem :=
  Mem (firsts m) (lasts m) (<[elm:=None]> (nexts m)) (prevs m).

Definition NFP_STAILQ_FIRST (head : positive) : M mem (option positive) :=
  load (HeadFirst head).
Definition NFP_STAILQ_NEXT (elm : positive) : M mem (option positive) :=
  load (ElmNext elm).
Definition NFP_STAILQ_EMPTY (head : positive) : M mem bool :=
  f ← NFP_STAILQ_FIRST head; mret (bool_decide (f = None)).
Definition NFP_STAILQ_INIT (head : positive) : M mem unit :=
  store (HeadFirst head) None;;
  set_last head (HeadFirst head).
Definition NFP_STAILQ_CONCAT (head1 head2 : positive) : M mem unit :=
  e ← NFP_STAILQ_EMPTY head2;
  if negb e then
    l1 ← get_last head1; f2 ← NFP_STAILQ_FIRST head2;
    store l1 f2;;
    l2 ← get_last head2; set_last head1 l2;;
    NFP_STAILQ_INIT head2
  else mret ().
Definition NFP_STAILQ_INSERT_AFTER (head tqelm elm : positive) : M mem unit :=
  n ← NFP_STAILQ_NEXT tqelm;
  store (ElmNext elm) n;;
  when (bool_decide (n = None)) (set_last head (ElmNext elm));;
  store (ElmNext tqelm) (Some elm).
Definition NFP_STAILQ_INSERT_HEAD (head elm : positive) : M mem unit :=
  f ← NFP_STAILQ_FIRST head;
  store (ElmNext elm) f;;
  when (bool_decide (f = None)) (set_last head (ElmNext elm));;
  store (HeadFirst head) (Some elm).
Definition NFP_STAILQ_INSERT_TAIL (head elm : positive) : M mem unit :=
  store (ElmNext elm) None;;
  l ← get_last head;
  store l (Some elm);;
  set_last head (ElmNext elm).

(** [(char * )stqh_last - offsetof(type, field)]: the element whose next field
    [stqh_last] points to.  On a non-empty queue it never is the head's field. *)
Definition NFP_STAILQ_LAST (head : positive) : M mem (option positive) :=
  e ← NFP_STAILQ_EMPTY head;
  if e : bool then mret None
  else l ← get_last head;
       match l with ElmNext x => mret (Some x) | HeadFirst _ => stuck end.
Definition NFP_STAILQ_REMOVE_AFTER (head elm : positive) : M mem unit :=
  n ← NFP_STAILQ_NEXT elm;
  n' ← deref n;
  nn ← NFP_STAILQ_NEXT n';
  store (ElmNext elm) nn;;
  when (bool_decide (nn = None)) (set_last head (ElmNext elm)).
Definition NFP_STAILQ_REMOVE_HEAD (head : positive) : M mem unit :=
  f ← NFP_STAILQ_FIRST head;
  f' ← deref f;
  n ← NFP_STAILQ_NEXT f';
  store (HeadFirst head) n;;
  when (bool_decide (n = None)) (set_last head (HeadFirst head)).
Definition NFP_STAILQ_REMOVE (fuel : nat) (head elm : positive) : M mem unit :=
  f ← NFP_STAILQ_FIRST head;
  if bool_decide (f = Some elm) then NFP_STAILQ_REMOVE_HEAD head
  else curelm ← find_prev fuel elm f; NFP_STAILQ_REMOVE_AFTER head curelm.
Definition NFP_STAILQ_SWAP (head1 head2 : positive) : M mem unit :=
  swap_first ← NFP_STAILQ_FIRST head1;
  swap_last ← get_last head1;
  f2 ← NFP_STAILQ_FIRST head2; store (HeadFirst head1) f2;;
  l2 ← get_last head2; set_last head1 l2;;
  store (HeadFirst head2) swap_first;;
  set_last head2 swap_last;;
  e1 ← NFP_STAILQ_EMPTY head1;
  when e1 (set_last head1 (HeadFirst head1));;
  e2 ← NFP_STAILQ_EMPTY head2;
  when e2 (set_last head2 (HeadFirst head2)).
Definition NFP_STAILQ_FOREACH {A} fuel head (body : positive → A → M mem A) acc :=
  foreach fuel (NFP_STAILQ_FIRST head) NFP_STAILQ_NEXT body acc.
Definition NFP_STAILQ_FOREACH_SAFE {A} fuel head (body : positive → A → M mem A) acc :=
  foreach_safe fuel (NFP_STAILQ_FIRST head) NFP_STAILQ_NEXT body acc.

(** ** LIST: doubly-linked lists *)

Definition NFP_LIST_HEAD_INITIALIZER (head : positive) (m : mem) : mem :=
  Mem (<[head:=None]> (firsts m)) (lasts m) (nexts m) (prevs m).

(** A fresh element's link fields hold anything until it is linked; an arbitrary
    value stands for them. *)
Definition NFP_LIST_ENTRY (elm : positive) (m : mem) : mem :=
  Mem (firsts m) (lasts m) (<[elm:=None]> (nexts m)) (<[elm:=ElmNext elm]> (prevs m)).

Definition NFP_LIST_FIRST (head : positive) : M mem (option positive) :=
  load (HeadFirst head).
Definition NFP_LIST_NEXT (elm : positive) : M mem (option positive) :=
  load (ElmNext elm).
Definition NFP_LIST_EMPTY (head : positive) : M mem bool :=
  f ← NFP_LIST_FIRST head; mret (bool_decide (f = None)).
Definition NFP_LIST_INIT (head : positive) : M mem unit :=
  store (HeadFirst head) None.
Definition NFP_LIST_INSERT_AFTER (listelm elm : positive) : M mem unit :=
  n ← NFP_LIST_NEXT listelm;
  store (ElmNext elm) n;;
  match n with Some n' => set_prev n' (ElmNext elm) | None => mret () end;;
  store (ElmNext listelm) (Some elm);;
  set_prev elm (ElmNext listelm).
Definition NFP_LIST_INSERT_BEFORE (listelm elm : positive) : M mem unit :=
  p ← get_prev listelm;
  set_prev elm p;;
  store (ElmNext elm) (Some listelm);;
  p' ← get_prev listelm; store p' (Some elm);;
  set_prev listelm (ElmNext elm).
Definition NFP_LIST_INSERT_HEAD (head elm : positive) : M mem unit :=
  f ← NFP_LIST_FIRST head;
  store (ElmNext elm) f;;
  match f with Some f' => set_prev f' (ElmNext elm) | None => mret () end;;
  store (HeadFirst head) (Some elm);;
  set_prev elm (HeadFirst head).
Definition NFP_LIST_REMOVE (elm : positive) : M mem unit :=
  n ← NFP_LIST_NEXT elm;
  match n with
  | Some n' => p ← get_prev elm; set_prev n' p
  | None => mret ()
  end;;
  p ← get_prev elm; n2 ← NFP_LIST_NEXT elm; store p n2.
Definition NFP_LIST_SWAP (head1 head2 : positive) : M mem unit :=
  swap_tmp ← NFP_LIST_FIRST head1;
  f2 ← NFP_LIST_FIRST head2; store (HeadFirst head1) f2;;
  store (HeadFirst head2) swap_tmp;;
  f1 ← NFP_LIST_FIRST head1;
  match f1 with Some x => set_prev x (HeadFirst head1) | None => mret () end;;
  f2' ← NFP_LIST_FIRST head2;
  match f2' with Some x => set_prev x (HeadFirst head2) | None => mret () end.
Definition NFP_LIST_FOREACH {A} fuel head (body : positive → A → M mem A) acc :=
  foreach fuel (NFP_LIST_FIRST head) NFP_LIST_NEXT body acc.
Definition NFP_LIST_FOREACH_SAFE {A} fuel head (body : positive → A → M mem A) acc :=
  foreach_safe fuel (NFP_LIST_FIRST head) NFP_LIST_NEXT body acc.

(** ** TAILQ: doubly-linked tail queues *)

Definition NFP_TAILQ_HEAD_INITIALIZER (head : positive) (m : mem) : mem :=
  Mem (<[head:=None]> (firsts m)) (<[head:=HeadFirst head]> (lasts m)) (nexts m) (prevs m).
Definition NFP_TAILQ_ENTRY (elm : positive) (m : mem) : mem :=
  Mem (firsts m) (lasts m) (<[elm:=None]> (nexts m)) (<[elm:=ElmNext elm]> (prevs m)).

Definition NFP_TAILQ_FIRST (head : positive) : M mem (option positive) :=
  load (HeadFirst head).
Definition NFP_TAILQ_NEXT (elm : positive) : M mem (option positive) :=
  load (ElmNext elm).
Definition NFP_TAILQ_EMPTY (head : positive) : M mem bool :=
  f ← NFP_TAILQ_FIRST head; mret (bool_decide (f = None)).
Definition NFP_TAILQ_INIT (head : positive) : M mem unit :=
  store (HeadFirst head) None;;
  set_last head (HeadFirst head).
Definition NFP_TAILQ_CONCAT (head1 head2 : positive) : M mem unit :=
  e ← NFP_TAILQ_EMPTY head2;
  if negb e then
    l1 ← get_last head1; f2 ← NFP_TAILQ_FIRST head2; store l1 f2;;
    f2' ← NFP_TAILQ_FIRST head2; x ← deref f2'; l1' ← get_last head1; set_prev x l1';;
    l2 ← get_last head2; set_last head1 l2;;
    NFP_TAILQ_INIT head2
  else mret ().
Definition NFP_TAILQ_INSERT_AFTER (head listelm elm : positive) : M mem unit :=
  n ← NFP_TAILQ_NEXT listelm;
  store (ElmNext elm) n;;
  match n with
  | Some n' => set_prev n' (ElmNext elm)
  | None => set_last head (ElmNext elm)
  end;;
  store (ElmNext listelm) (Some elm);;
  set_prev elm (ElmNext listelm).
Definition NFP_TAILQ_INSERT_BEFORE (listelm elm : positive) : M mem unit :=
  p ← get_prev listelm;
  set_prev elm p;;
  store (ElmNext elm) (Some listelm);;
  p' ← get_prev listelm; store p' (Some elm);;
  set_prev listelm (ElmNext elm).
Definition NFP_TAILQ_INSERT_HEAD (head elm : positive) : M mem unit :=
  f ← NFP_TAILQ_FIRST head;
  store (ElmNext elm) f;;
  match f with
  | Some f' => set_prev f' (ElmNext elm)
  | None => set_last head (ElmNext elm)
  end;;
  store (HeadFirst head) (Some elm);;
  set_prev elm (HeadFirst head).
Definition NFP_TAILQ_INSERT_TAIL (head elm : positive) : M mem unit :=
  store (ElmNext elm) None;;
  l ← get_last head;
  set_prev elm l;;
  l' ← get_last head; store l' (Some elm);;
  set_last head (ElmNext elm).

(** [((struct headname * )r)->tqh_last]: a head and an element's entry have the
    same two-pointer layout, so the word after a "next" field is the head's
    [tqh_last] or the element's [tqe_prev]. *)
Definition cast_last (r : linkref) : M mem linkref :=
  match r with HeadFirst h => get_last h | ElmNext e => get_prev e end.
Definition NFP_TAILQ_LAST (head : positive) : M mem (option positive) :=
  l ← get_last head; r ← cast_last l; load r.
Definition NFP_TAILQ_PREV (elm : positive) : M mem (option positive) :=
  p ← get_prev elm; r ← cast_last p; load r.
Definition NFP_TAILQ_REMOVE (head elm : positive) : M mem unit :=
  n ← NFP_TAILQ_NEXT elm;
  match n with
  | Some n' => p ← get_prev elm; set_prev n' p
  | None => p ← get_prev elm; set_last head p
  end;;
  p ← get_prev elm; n2 ← NFP_TAILQ_NEXT elm; store p n2.
Definition NFP_TAILQ_SWAP (head1 head2 : positive) : M mem unit :=
  swap_first ← NFP_TAILQ_FIRST head1;
  swap_last ← get_last head1;
  f2 ← NFP_TAILQ_FIRST head2; store (HeadFirst head1) f2;;
  l2 ← get_last head2; set_last head1 l2;;
  store (HeadFirst head2) swap_first;;
  set_last head2 swap_last;;
  f1 ← NFP_TAILQ_FIRST head1;
  match f1 with
  | Some x => set_prev x (HeadFirst head1)
  | None => set_last head1 (HeadFirst head1)
  end;;
  f2' ← NFP_TAILQ_FIRST head2;
  match f2' with
  | Some x => set_prev x (HeadFirst head2)
  | None => set_last head2 (HeadFirst head2)
  end.
Definition NFP_TAILQ_FOREACH {A} fuel head (body : positive → A → M mem A) acc :=
  foreach fuel (NFP_TAILQ_FIRST head) NFP_TAILQ_NEXT body acc.
Definition NFP_TAILQ_FOREACH_SAFE {A} fuel head (body : positive → A → M mem A) acc :=
  foreach_safe fuel (NFP_TAILQ_FIRST head) NFP_TAILQ_NEXT body acc.
Definition NFP_TAILQ_FOREACH_REVERSE {A} fuel head (body : positive → A → M mem A) acc :=
  foreach fuel (NFP_TAILQ_LAST head) NFP_TAILQ_PREV body acc.
Definition NFP_TAILQ_FOREACH_REVERSE_SAFE {A} fuel head (body : positive → A → M mem A) acc :=
  foreach_safe fuel (NFP_TAILQ_LAST head) NFP_TAILQ_PREV body acc.
