(* ===== verification/NfpQueueProofs.v ===== *)
(** * Correctness of the intrusive queues

    The abstract list a head represents ([slist], [stailq], [dlist], [tailq]),
    what every macro of nfp_queue.h does to it, that unrelated queues are left
    alone, and an abstract FIFO interface that STAILQ and TAILQ implement. *)

From S2P Require Import Prelude NfpQueue.

(** ** Reading and writing fields *)

Lemma linkval_setlink m r v r' :
  linkval (setlink r v m) r' = if decide (r = r') then Some v else linkval m r'.
Proof.
  destruct r, r'; simpl; rewrite ?lookup_insert; repeat case_decide; naive_solver.
Qed.
Lemma linkval_setlast m h r r' : linkval (setlast h r m) r' = linkval m r'.
Proof. by destruct r'. Qed.
Lemma linkval_setprev m e r r' : linkval (setprev e r m) r' = linkval m r'.
Proof. by destruct r'. Qed.
Lemma lasts_setlink m r v : lasts (setlink r v m) = lasts m.
Proof. by destruct r. Qed.
Lemma prevs_setlink m r v : prevs (setlink r v m) = prevs m.
Proof. by destruct r. Qed.
Lemma lasts_setlast m h r h' :
  lasts (setlast h r m) !! h' = if decide (h = h') then Some r else lasts m !! h'.
Proof. simpl. apply lookup_insert. Qed.
Lemma prevs_setprev m e r e' :
  prevs (setprev e r m) !! e' = if decide (e = e') then Some r else prevs m !! e'.
Proof. simpl. apply lookup_insert. Qed.
Lemma prevs_setlast m h r : prevs (setlast h r m) = prevs m.
Proof. done. Qed.
Lemma lasts_setprev m e r : lasts (setprev e r m) = lasts m.
Proof. done. Qed.

Create Rewrite HintDb queue.
#[export] Hint Rewrite linkval_setlink linkval_setlast linkval_setprev lasts_setlink
  prevs_setlink lasts_setlast prevs_setprev prevs_setlast lasts_setprev : queue.
#[global] Opaque linkval setlink setlast setprev.

Lemma wp_load r v Q m : linkval m r = Some v → Q v m → wp (load r) Q m.
Proof. intros Hr HQ. exists v, m. unfold load, get, mbind, M_bind. by rewrite Hr. Qed.
Lemma wp_store r v v0 Q m :
  linkval m r = Some v0 → Q () (setlink r v m) → wp (store r v) Q m.
Proof.
  intros Hr HQ. exists (), (setlink r v m). unfold store, get, mbind, M_bind.
  by rewrite Hr.
Qed.
Lemma wp_get_last h r Q m : lasts m !! h = Some r → Q r m → wp (get_last h) Q m.
Proof. intros Hr HQ. exists r, m. unfold get_last, get, mbind, M_bind. by rewrite Hr. Qed.
Lemma wp_set_last h r r0 Q m :
  lasts m !! h = Some r0 → Q () (setlast h r m) → wp (set_last h r) Q m.
Proof.
  intros Hr HQ. exists (), (setlast h r m). unfold set_last, get, mbind, M_bind.
  by rewrite Hr.
Qed.
Lemma wp_get_prev e r Q m : prevs m !! e = Some r → Q r m → wp (get_prev e) Q m.
Proof. intros Hr HQ. exists r, m. unfold get_prev, get, mbind, M_bind. by rewrite Hr. Qed.
Lemma wp_set_prev e r r0 Q m :
  prevs m !! e = Some r0 → Q () (setprev e r m) → wp (set_prev e r) Q m.
Proof.
  intros Hr HQ. exists (), (setprev e r m). unfold set_prev, get, mbind, M_bind.
  by rewrite Hr.
Qed.

(** Symbolic execution: [qlook] finds the value of a field. *)
Ltac qlook :=
  autorewrite with queue; repeat case_decide; simplify_eq/=;
  first [eassumption | reflexivity | congruence].
Ltac qstep :=
  lazymatch goal with
  | |- wp (_ ≫= _) _ _ => apply wp_bind
  | |- wp (mret _) _ _ => apply wp_ret
  | |- wp (load _) _ _ => eapply wp_load; [qlook|]
  | |- wp (store _ _) _ _ => eapply wp_store; [qlook|]
  | |- wp (get_last _) _ _ => eapply wp_get_last; [qlook|]
  | |- wp (set_last _ _) _ _ => eapply wp_set_last; [qlook|]
  | |- wp (get_prev _) _ _ => eapply wp_get_prev; [qlook|]
  | |- wp (set_prev _ _) _ _ => eapply wp_set_prev; [qlook|]
  | |- wp (deref (Some _)) _ _ => eapply wp_of_option; [reflexivity|]
  | |- wp (when ?b _) _ _ => unfold when; case_bool_decide; try congruence
  | |- wp (match ?n with Some _ => _ | None => _ end) _ _ => destruct n
  | |- wp (if ?b then _ else _) _ _ => case_bool_decide; try congruence
  end; cbn beta iota delta [negb].

(** ** Abstract lists *)

Definition hd_or (tl : option positive) (xs : list positive) : option positive :=
  match xs with [] => tl | x :: _ => Some x end.

(** The link that follows [xs] when the link [p] leads to it. *)
Fixpoint lastref (p : linkref) (xs : list positive) : linkref :=
  match xs with [] => p | x :: xs' => lastref (ElmNext x) xs' end.

(** The links on the way: the one leading in and the next field of each element. *)
Definition cells (p : linkref) (xs : list positive) : list linkref :=
  p :: (ElmNext <$> xs).

(** From link [p] the next fields lead through [xs] and then to [tl]. *)
Fixpoint schain (m : mem) (p : linkref) (xs : list positive) (tl : option positive) : Prop :=
  linkval m p = Some (hd_or tl xs) ∧
  match xs with [] => True | x :: xs' => schain m (ElmNext x) xs' tl end.

(** The previous fields of [xs] hold the address of the link leading to them. *)
Fixpoint dchain (m : mem) (p : linkref) (xs : list positive) : Prop :=
  match xs with
  | [] => True
  | x :: xs' => prevs m !! x = Some p ∧ dchain m (ElmNext x) xs'
  end.

Definition slist (m : mem) (h : positive) (xs : list positive) : Prop :=
  NoDup xs ∧ schain m (HeadFirst h) xs None.
Definition stailq (m : mem) (h : positive) (xs : list positive) : Prop :=
  slist m h xs ∧ lasts m !! h = Some (lastref (HeadFirst h) xs).
Definition dlist (m : mem) (h : positive) (xs : list positive) : Prop :=
  slist m h xs ∧ dchain m (HeadFirst h) xs.
Definition tailq (m : mem) (h : positive) (xs : list positive) : Prop :=
  stailq m h xs ∧ dchain m (HeadFirst h) xs.

(** An element whose link fields are allocated. *)
Definition has_next (m : mem) (e : positive) : Prop := is_Some (linkval m (ElmNext e)).
Definition has_links (m : mem) (e : positive) : Prop := has_next m e ∧ is_Some (prevs m !! e).

Lemma hd_or_app tl xs ys : hd_or tl (xs ++ ys) = hd_or (hd_or tl ys) xs.
Proof. by destruct xs. Qed.
Lemma lastref_app p xs ys : lastref p (xs ++ ys) = lastref (lastref p xs) ys.
Proof. revert p. induction xs; naive_solver. Qed.
Lemma lastref_snoc p xs x : lastref p (xs ++ [x]) = ElmNext x.
Proof. by rewrite lastref_app. Qed.
Lemma cells_app p xs ys : cells p (xs ++ ys) = cells p xs ++ (ElmNext <$> ys).
Proof. unfold cells. by rewrite fmap_app. Qed.
Lemma lastref_cells p xs : lastref p xs ∈ cells p xs.
Proof.
  unfold cells. revert p. induction xs as [|x xs IH]; intros p; simpl; [set_solver|].
  specialize (IH (ElmNext x)). set_solver.
Qed.
Lemma elem_of_cells r p xs : r ∈ cells p xs ↔ r = p ∨ ∃ x, r = ElmNext x ∧ x ∈ xs.
Proof. unfold cells. rewrite elem_of_cons, list_elem_of_fmap. naive_solver. Qed.
Lemma lastref_cases p xs : lastref p xs = p ∧ xs = [] ∨ ∃ x, lastref p xs = ElmNext x ∧ x ∈ xs.
Proof.
  destruct xs as [|x xs _] using rev_ind; [by left|].
  right. exists x. rewrite lastref_snoc. set_solver.
Qed.

Lemma schain_app m p xs ys tl :
  schain m p (xs ++ ys) tl ↔ schain m p xs (hd_or tl ys) ∧ schain m (lastref p xs) ys tl.
Proof.
  revert p. induction xs as [|x xs IH]; intros p; simpl.
  - destruct ys; simpl; naive_solver.
  - rewrite IH. naive_solver.
Qed.
Lemma schain_head m p xs tl : schain m p xs tl → linkval m p = Some (hd_or tl xs).
Proof. destruct xs; naive_solver. Qed.
Lemma schain_last m p xs tl : schain m p xs tl → linkval m (lastref p xs) = Some tl.
Proof. revert p. induction xs; simpl; naive_solver. Qed.
Lemma dchain_app m p xs ys : dchain m p (xs ++ ys) ↔ dchain m p xs ∧ dchain m (lastref p xs) ys.
Proof. revert p. induction xs as [|x xs IH]; intros p; simpl; [naive_solver|]. rewrite IH. naive_solver. Qed.

Lemma schain_ext m m' p xs tl :
  (∀ r, r ∈ cells p xs → linkval m' r = linkval m r) → schain m p xs tl → schain m' p xs tl.
Proof.
  revert p. induction xs as [|x xs IH]; intros p H; simpl.
  - rewrite (H p) by (unfold cells; set_solver). done.
  - rewrite (H p) by (unfold cells; set_solver). intros [? ?]. split; [done|].
    apply IH; [|done]. intros r Hr. apply H. unfold cells in *. set_solver.
Qed.

(** Only the link after [xs] changed. *)
Lemma schain_retail m m' p xs tl tl' :
  NoDup xs → p ∉ (ElmNext <$> xs) →
  (∀ r, r ∈ cells p xs → r ≠ lastref p xs → linkval m' r = linkval m r) →
  linkval m' (lastref p xs) = Some tl' →
  schain m p xs tl → schain m' p xs tl'.
Proof.
  revert p. induction xs as [|x xs IH]; intros p Hnd Hp H Hl; simpl in *.
  - naive_solver.
  - apply NoDup_cons in Hnd as [Hx Hnd]. intros [Hv Hc]. split.
    + rewrite H; [done|unfold cells; set_solver|]. intros ->.
      apply Hp. destruct (lastref_cases (ElmNext x) xs) as [[-> _]|(y & -> & Hy)]; [set_solver|].
      rewrite elem_of_cons, list_elem_of_fmap. right. by exists y.
    + apply IH; auto; [set_solver|]. intros r Hr. apply H. unfold cells in *. set_solver.
Qed.

Lemma dchain_ext m m' p xs :
  (∀ x, x ∈ xs → prevs m' !! x = prevs m !! x) → dchain m p xs → dchain m' p xs.
Proof.
  revert p. induction xs as [|x xs IH]; intros p H; simpl; [done|].
  rewrite H by set_solver. intros [? ?]. split; [done|]. apply IH; [|done]. set_solver.
Qed.

(** ** Frames *)

(** Every field outside the heads [hs] and the elements [es] is unchanged. *)
Definition same_outside (hs es : list positive) (m m' : mem) : Prop :=
  (∀ h, h ∉ hs → linkval m' (HeadFirst h) = linkval m (HeadFirst h)
                 ∧ lasts m' !! h = lasts m !! h) ∧
  (∀ e, e ∉ es → linkval m' (ElmNext e) = linkval m (ElmNext e)
                 ∧ prevs m' !! e = prevs m !! e).

Section frame.
Context (hs es : list positive) (m m' : mem) (h : positive) (xs : list positive).
Context (Hsame : same_outside hs es m m') (Hh : h ∉ hs) (Hxs : ∀ x, x ∈ xs → x ∉ es).

Lemma slist_frame : slist m h xs → slist m' h xs.
Proof.
  destruct Hsame as [H1 H2]. intros [? Hc]. split; [done|]. eapply schain_ext; [|done].
  intros r [->|(x & -> & Hx)]%elem_of_cells; [by apply H1|by apply H2, Hxs].
Qed.
Lemma stailq_frame : stailq m h xs → stailq m' h xs.
Proof. intros [? ?]. split; [by apply slist_frame|]. by rewrite (proj2 (proj1 Hsame h Hh)). Qed.
Lemma dchain_frame : dchain m (HeadFirst h) xs → dchain m' (HeadFirst h) xs.
Proof. apply dchain_ext. intros x Hx. by apply Hsame, Hxs. Qed.
Lemma dlist_frame : dlist m h xs → dlist m' h xs.
Proof. intros [? ?]. split; [by apply slist_frame|by apply dchain_frame]. Qed.
Lemma tailq_frame : tailq m h xs → tailq m' h xs.
Proof. intros [? ?]. split; [by apply stailq_frame|by apply dchain_frame]. Qed.
End frame.

Lemma NoDup_middle (xs ys : list positive) e :
  NoDup (xs ++ e :: ys) ↔ NoDup (xs ++ ys) ∧ (e ∉ xs) ∧ (e ∉ ys).
Proof. rewrite <- Permutation_middle, NoDup_cons, not_elem_of_app. naive_solver. Qed.
Lemma NoDup_snoc (xs : list positive) e : NoDup (xs ++ [e]) ↔ NoDup xs ∧ (e ∉ xs).
Proof. rewrite NoDup_middle, app_nil_r, elem_of_nil. naive_solver. Qed.
Lemma HeadFirst_fmap h (xs : list positive) : HeadFirst h ∉ (ElmNext <$> xs).
Proof. rewrite list_elem_of_fmap. naive_solver. Qed.
Lemma ElmNext_fmap e (xs : list positive) : e ∉ xs → ElmNext e ∉ (ElmNext <$> xs).
Proof. rewrite list_elem_of_fmap. naive_solver. Qed.
#[export] Hint Resolve HeadFirst_fmap ElmNext_fmap : nfp.

(** Side conditions: two links or elements are different. *)
Ltac clear_chains :=
  repeat match goal with
  | H : linkval _ _ = _ |- _ => clear H
  | H : lasts _ !! _ = _ |- _ => clear H
  | H : prevs _ !! _ = _ |- _ => clear H
  | H : schain _ _ _ _ |- _ => clear H
  | H : slist _ _ _ |- _ => clear H
  | H : dchain _ _ _ |- _ => clear H
  | H : ∀ r : linkref, _ |- _ => clear H
  | H : NoDup _ |- _ => clear H
  end.
Ltac qne :=
  repeat match goal with
  | H : context [lastref ?p ?xs] |- _ =>
      let E := fresh in
      destruct (lastref_cases p xs) as [[E ?]|(? & E & ?)]; rewrite E in *; clear E
  end;
  clear_chains; rewrite ?elem_of_cells in *; set_solver.
Ltac qside :=
  intros; autorewrite with queue; repeat case_decide; subst;
  try solve [done | eauto 2 with nfp];
  lazymatch goal with
  | |- _ ∉ _ => clear_chains; set_solver
  | |- _ ∈ _ => clear_chains; set_solver
  | |- _ => exfalso; qne
  end.
Ltac qframe := split; intros ? ?; (split; qside).

(** ** Linking and unlinking one element

    Every insertion and removal macro makes one of these two changes, at a
    place that splits the list as [xs ++ ys]. *)

Lemma slist_insert m m' h xs ys e :
  slist m h (xs ++ ys) → e ∉ xs → e ∉ ys →
  linkval m' (lastref (HeadFirst h) xs) = Some (Some e) →
  linkval m' (ElmNext e) = Some (hd_or None ys) →
  (∀ r, r ≠ lastref (HeadFirst h) xs → r ≠ ElmNext e → linkval m' r = linkval m r) →
  slist m' h (xs ++ e :: ys).
Proof.
  intros [Hnd Hc] Hx Hy Hl He Hr. apply schain_app in Hc as [Hc1 Hc2].
  split; [by apply NoDup_middle|]. apply NoDup_app in Hnd as (Hnx & Hxy & Hny).
  apply schain_app. split; [|split; [done|]].
  - eapply schain_retail; [..|exact Hc1]; try done; [apply HeadFirst_fmap|].
    intros r Hrc Hrl. apply Hr; [done|]. intros ->. qne.
  - destruct ys as [|y ys]; [done|]. destruct Hc2 as [_ Hc2]. split; [done|].
    eapply schain_ext; [|done]. intros r Hrc. apply Hr; intros ->; qne.
Qed.

Lemma slist_remove m m' h xs ys e :
  slist m h (xs ++ e :: ys) →
  linkval m' (lastref (HeadFirst h) xs) = Some (hd_or None ys) →
  (∀ r, r ≠ lastref (HeadFirst h) xs → r ≠ ElmNext e → linkval m' r = linkval m r) →
  slist m' h (xs ++ ys).
Proof.
  intros [Hnd Hc] Hl Hr. apply NoDup_middle in Hnd as (Hnd & Hx & Hy).
  apply schain_app in Hc as [Hc1 [_ Hc2]]. split; [done|].
  apply NoDup_app in Hnd as (Hnx & Hxy & Hny). apply schain_app. split.
  - eapply schain_retail; [..|exact Hc1]; try done; [apply HeadFirst_fmap|].
    intros r Hrc Hrl. apply Hr; [done|]. intros ->. qne.
  - destruct ys as [|y ys]; [done|]. destruct Hc2 as [_ Hc2]. split; [done|].
    eapply schain_ext; [|done]. intros r Hrc. apply Hr; intros ->; qne.
Qed.

Lemma dchain_insert m m' p xs ys e :
  dchain m p (xs ++ ys) → NoDup (xs ++ ys) → e ∉ xs → e ∉ ys →
  prevs m' !! e = Some (lastref p xs) →
  (∀ y, head ys = Some y → prevs m' !! y = Some (ElmNext e)) →
  (∀ x, x ≠ e → head ys ≠ Some x → prevs m' !! x = prevs m !! x) →
  dchain m' p (xs ++ e :: ys).
Proof.
  rewrite !dchain_app. intros [Hd1 Hd2] Hnd Hx Hy He Hh Hr.
  apply NoDup_app in Hnd as (Hnx & Hxy & Hny). split; [|split; [done|]].
  - eapply dchain_ext; [|done]. intros x Hx'. apply Hr; [qne|]. destruct ys; simpl; qne.
  - destruct ys as [|y ys]; [done|]. destruct Hd2 as [_ Hd2]. split; [by apply Hh|].
    apply NoDup_cons in Hny as [Hyn _]. eapply dchain_ext; [|done]. intros x Hx'. apply Hr; simpl; qne.
Qed.

Lemma dchain_remove m m' p xs ys e :
  dchain m p (xs ++ e :: ys) → NoDup (xs ++ e :: ys) →
  (∀ y, head ys = Some y → prevs m' !! y = Some (lastref p xs)) →
  (∀ x, x ≠ e → head ys ≠ Some x → prevs m' !! x = prevs m !! x) →
  dchain m' p (xs ++ ys).
Proof.
  rewrite !dchain_app. intros [Hd1 [_ Hd2]] Hnd Hh Hr.
  apply NoDup_middle in Hnd as (Hnd & Hx & Hy).
  apply NoDup_app in Hnd as (Hnx & Hxy & Hny). split.
  - eapply dchain_ext; [|done]. intros x Hx'. apply Hr; [qne|]. destruct ys; simpl; qne.
  - destruct ys as [|y ys]; [done|]. destruct Hd2 as [_ Hd2]. split; [by apply Hh|].
    apply NoDup_cons in Hny as [Hyn _]. eapply dchain_ext; [|done]. intros x Hx'. apply Hr; simpl; qne.
Qed.

(** What a list says about the links around a split point. *)
Lemma slist_split m h xs ys :
  slist m h (xs ++ ys) →
  linkval m (lastref (HeadFirst h) xs) = Some (hd_or None ys).
Proof. intros [_ [_ Hc]%schain_app]. by apply schain_head in Hc. Qed.

Lemma slist_elem m h xs e ys :
  slist m h (xs ++ e :: ys) →
  linkval m (lastref (HeadFirst h) xs) = Some (Some e) ∧
  linkval m (ElmNext e) = Some (hd_or None ys) ∧
  NoDup (xs ++ ys) ∧ (e ∉ xs) ∧ (e ∉ ys).
Proof.
  intros [Hnd [_ [Hl Hc]]%schain_app]. apply schain_head in Hc.
  apply NoDup_middle in Hnd. naive_solver.
Qed.

Lemma dchain_elem m p xs e ys :
  dchain m p (xs ++ e :: ys) →
  prevs m !! e = Some (lastref p xs) ∧ (∀ y, head ys = Some y → prevs m !! y = Some (ElmNext e)).
Proof. rewrite dchain_app. intros [_ [? Hd]]. destruct ys; naive_solver. Qed.

Lemma hd_or_head ys : hd_or None ys = head ys.
Proof. by destruct ys. Qed.

(** ** SLIST *)

Lemma NFP_SLIST_INIT_spec m h :
  is_Some (linkval m (HeadFirst h)) →
  wp (NFP_SLIST_INIT h) (λ _ m', slist m' h [] ∧ same_outside [h] [] m m') m.
Proof.
  intros [? Hh]. unfold NFP_SLIST_INIT. repeat qstep.
  split; [split; [constructor|simpl; split_and!; qside]|qframe].
Qed.

Lemma NFP_SLIST_INSERT_HEAD_spec m h xs e :
  slist m h xs → has_next m e → e ∉ xs →
  wp (NFP_SLIST_INSERT_HEAD h e)
     (λ _ m', slist m' h (e :: xs) ∧ same_outside [h] [e] m m') m.
Proof.
  intros Hs [? Hn] He. pose proof (slist_split m h [] xs Hs) as Hf. simpl in Hf.
  unfold NFP_SLIST_INSERT_HEAD, NFP_SLIST_FIRST. repeat qstep.
  split; [|qframe]. eapply (slist_insert m _ h [] xs); simpl; qside.
Qed.

Lemma NFP_SLIST_INSERT_AFTER_spec m h xs x ys e :
  slist m h (xs ++ x :: ys) → has_next m e → e ∉ xs ++ x :: ys →
  wp (NFP_SLIST_INSERT_AFTER x e)
     (λ _ m', slist m' h (xs ++ x :: e :: ys) ∧ same_outside [] [x; e] m m') m.
Proof.
  intros Hs [? Hn] He. destruct (slist_elem _ _ _ _ _ Hs) as (_ & Hx & _).
  unfold NFP_SLIST_INSERT_AFTER, NFP_SLIST_NEXT. repeat qstep.
  split; [|qframe]. rewrite (cons_middle x xs (e :: ys)), app_assoc.
  rewrite (cons_middle x xs ys), app_assoc in Hs.
  eapply (slist_insert m _ h (xs ++ [x]) ys); rewrite ?lastref_snoc; qside.
Qed.

Lemma NFP_SLIST_REMOVE_HEAD_spec m h x xs :
  slist m h (x :: xs) →
  wp (NFP_SLIST_REMOVE_HEAD h) (λ _ m', slist m' h xs ∧ same_outside [h] [] m m') m.
Proof.
  intros Hs. destruct (slist_elem m h [] x xs Hs) as (Hf & Hx & _). simpl in Hf.
  unfold NFP_SLIST_REMOVE_HEAD, NFP_SLIST_FIRST, NFP_SLIST_NEXT. repeat qstep.
  split; [|qframe]. eapply (slist_remove m _ h [] xs); simpl; qside.
Qed.

Lemma NFP_SLIST_REMOVE_AFTER_spec m h xs x e ys :
  slist m h (xs ++ x :: e :: ys) →
  wp (NFP_SLIST_REMOVE_AFTER x)
     (λ _ m', slist m' h (xs ++ x :: ys) ∧ same_outside [] [x] m m') m.
Proof.
  intros Hs. pose proof Hs as Hs'. rewrite (cons_middle x xs), app_assoc in Hs'.
  destruct (slist_elem _ _ _ _ _ Hs) as (_ & Hx & _).
  destruct (slist_elem _ _ _ _ _ Hs') as (_ & He & _). simpl in Hx.
  unfold NFP_SLIST_REMOVE_AFTER, NFP_SLIST_NEXT. repeat qstep.
  split; [|qframe]. rewrite (cons_middle x xs), app_assoc.
  eapply (slist_remove m _ h (xs ++ [x]) ys e); rewrite ?lastref_snoc; qside.
Qed.

Lemma find_prev_step fuel e c n m :
  linkval m (ElmNext c) = Some n →
  find_prev (S fuel) e (Some c) m =
  if bool_decide (n = Some e) then (Ret c, m) else find_prev fuel e n m.
Proof.
  intros Hn. unfold find_prev. cbn [loop].
  rewrite (bind_Ret _ _ m (if bool_decide (n = Some e) then inr c else inl n) m).
  - by destruct (bool_decide (n = Some e)).
  - unfold deref, of_option, load, get, mbind, M_bind. simpl. by rewrite Hn.
Qed.

(** The search loop of the REMOVE macros finds the predecessor of [e]: the
    number of elements before it bounds the iterations. *)
Lemma find_prev_spec m p xs x e ys fuel :
  schain m p (xs ++ x :: e :: ys) None → e ∉ xs → e ≠ x → (length xs < fuel)%nat →
  find_prev fuel e (hd_or (Some x) xs) m = (Ret x, m).
Proof.
  revert p fuel. induction xs as [|y xs IH]; intros p fuel Hc He Hx Hf;
    (destruct fuel as [|fuel]; [simpl in *; lia|]); destruct Hc as [_ Hc].
  - pose proof (schain_head _ _ _ _ Hc) as Hy.
    simpl hd_or. erewrite find_prev_step by exact Hy.
    by rewrite bool_decide_eq_true_2 by done.
  - pose proof (schain_head _ _ _ _ Hc) as Hy. rewrite hd_or_app in Hy.
    simpl hd_or at 1. erewrite find_prev_step by exact Hy.
    rewrite bool_decide_eq_false_2 by (destruct xs; set_solver).
    eapply (IH _ fuel Hc); [set_solver|done|simpl in Hf; lia].
Qed.

Lemma NFP_SLIST_REMOVE_spec m h xs e ys fuel :
  slist m h (xs ++ e :: ys) → (length xs ≤ fuel)%nat →
  wp (NFP_SLIST_REMOVE fuel h e) (λ _ m', slist m' h (xs ++ ys)) m.
Proof.
  intros Hs Hf. destruct (slist_elem _ _ _ _ _ Hs) as (_ & _ & _ & Hnx & _).
  pose proof (slist_split m h [] (xs ++ e :: ys) Hs) as Hfirst.
  unfold NFP_SLIST_REMOVE. apply wp_bind. eapply wp_load; [exact Hfirst|].
  destruct xs as [|x xs _] using rev_ind; simpl.
  - rewrite bool_decide_eq_true_2 by done.
    eapply wp_mono; [|by eapply NFP_SLIST_REMOVE_HEAD_spec]. naive_solver.
  - rewrite <- app_assoc in Hs |- *. simpl in *. rewrite hd_or_app in Hfirst |- *. simpl in *.
    rewrite bool_decide_eq_false_2 by (destruct xs; set_solver).
    apply wp_bind. exists x, m. split.
    + eapply find_prev_spec; [exact (proj2 Hs)|set_solver|set_solver|].
      rewrite length_app in Hf. simpl in Hf. lia.
    + eapply wp_mono; [|by eapply NFP_SLIST_REMOVE_AFTER_spec].
      intros [] m'. rewrite <- app_assoc. naive_solver.
Qed.

Lemma NFP_SLIST_SWAP_spec m h1 h2 xs ys :
  slist m h1 xs → slist m h2 ys → h1 ≠ h2 →
  wp (NFP_SLIST_SWAP h1 h2)
     (λ _ m', slist m' h1 ys ∧ slist m' h2 xs ∧ same_outside [h1; h2] [] m m') m.
Proof.
  intros [Hnx Hx] [Hny Hy] Hne.
  pose proof (schain_head _ _ _ _ Hx) as Hfx. pose proof (schain_head _ _ _ _ Hy) as Hfy.
  unfold NFP_SLIST_SWAP, NFP_SLIST_FIRST. repeat qstep.
  split_and!; [split; [done|]|split; [done|]|qframe].
  - destruct ys as [|y ys]; [simpl; split_and!; qside|]. destruct Hy as [_ Hy].
    split; [qside|]. eapply schain_ext; [|done]. qside.
  - destruct xs as [|x xs]; [simpl; split_and!; qside|]. destruct Hx as [_ Hx].
    split; [qside|]. eapply schain_ext; [|done]. qside.
Qed.

(** ** STAILQ *)

Lemma stailq_insert m m' h xs ys e :
  stailq m h (xs ++ ys) → e ∉ xs → e ∉ ys →
  linkval m' (lastref (HeadFirst h) xs) = Some (Some e) →
  linkval m' (ElmNext e) = Some (hd_or None ys) →
  (∀ r, r ≠ lastref (HeadFirst h) xs → r ≠ ElmNext e → linkval m' r = linkval m r) →
  lasts m' !! h = (match ys with [] => Some (ElmNext e) | _ => lasts m !! h end) →
  stailq m' h (xs ++ e :: ys).
Proof.
  intros [Hs Hl] ????? Hl'. split; [by eapply slist_insert|].
  rewrite Hl', lastref_app. destruct ys; [done|]. by rewrite Hl, lastref_app.
Qed.

Lemma stailq_remove m m' h xs ys e :
  stailq m h (xs ++ e :: ys) →
  linkval m' (lastref (HeadFirst h) xs) = Some (hd_or None ys) →
  (∀ r, r ≠ lastref (HeadFirst h) xs → r ≠ ElmNext e → linkval m' r = linkval m r) →
  lasts m' !! h =
    (match ys with [] => Some (lastref (HeadFirst h) xs) | _ => lasts m !! h end) →
  stailq m' h (xs ++ ys).
Proof.
  intros [Hs Hl] ?? Hl'. split; [by eapply slist_remove|].
  rewrite Hl', lastref_app. destruct ys; [done|]. by rewrite Hl, lastref_app.
Qed.

Lemma NFP_STAILQ_INIT_spec m h :
  is_Some (linkval m (HeadFirst h)) → is_Some (lasts m !! h) →
  wp (NFP_STAILQ_INIT h) (λ _ m', stailq m' h [] ∧ same_outside [h] [] m m') m.
Proof.
  intros [? Hh] [? Hl]. unfold NFP_STAILQ_INIT. repeat qstep.
  split; [split; [split; [constructor|simpl; split_and!; qside]|qside]|qframe].
Qed.

Lemma NFP_STAILQ_INSERT_HEAD_spec m h xs e :
  stailq m h xs → has_next m e → e ∉ xs →
  wp (NFP_STAILQ_INSERT_HEAD h e)
     (λ _ m', stailq m' h (e :: xs) ∧ same_outside [h] [e] m m') m.
Proof.
  intros Hs [? Hn] He. pose proof Hs as [Hsl Hl].
  pose proof (slist_split m h [] xs Hsl) as Hf. simpl in Hf.
  unfold NFP_STAILQ_INSERT_HEAD, NFP_STAILQ_FIRST.
  destruct xs; repeat qstep; simplify_eq/=;
    (split; [|qframe]); eapply (stailq_insert m _ h []); simpl; qside.
Qed.

Lemma NFP_STAILQ_INSERT_TAIL_spec m h xs e :
  stailq m h xs → has_next m e → e ∉ xs →
  wp (NFP_STAILQ_INSERT_TAIL h e)
     (λ _ m', stailq m' h (xs ++ [e]) ∧ same_outside [h] (e :: xs) m m') m.
Proof.
  intros Hs [? Hn] He. pose proof Hs as [[Hnd Hc] Hl].
  pose proof (schain_last _ _ _ _ Hc) as Hlast.
  unfold NFP_STAILQ_INSERT_TAIL. repeat qstep. split; [|qframe].
  rewrite <- (app_nil_r xs) in Hs. eapply (stailq_insert m _ h xs []); simpl; qside.
Qed.

Lemma NFP_STAILQ_INSERT_AFTER_spec m h xs x ys e :
  stailq m h (xs ++ x :: ys) → has_next m e → e ∉ xs ++ x :: ys →
  wp (NFP_STAILQ_INSERT_AFTER h x e)
     (λ _ m', stailq m' h (xs ++ x :: e :: ys) ∧ same_outside [h] [x; e] m m') m.
Proof.
  intros Hs [? Hn] He. pose proof Hs as [Hsl Hl].
  destruct (slist_elem _ _ _ _ _ Hsl) as (_ & Hx & _).
  rewrite (cons_middle x xs (e :: ys)), app_assoc.
  rewrite (cons_middle x xs ys), app_assoc in Hs.
  unfold NFP_STAILQ_INSERT_AFTER, NFP_STAILQ_NEXT.
  destruct ys; repeat qstep; simplify_eq/=; (split; [|qframe]);
    eapply (stailq_insert m _ h (xs ++ [x])); rewrite ?lastref_snoc; qside.
Qed.

Lemma NFP_STAILQ_REMOVE_HEAD_spec m h x xs :
  stailq m h (x :: xs) →
  wp (NFP_STAILQ_REMOVE_HEAD h) (λ _ m', stailq m' h xs ∧ same_outside [h] [] m m') m.
Proof.
  intros Hs. pose proof Hs as [Hsl Hl].
  destruct (slist_elem m h [] x xs Hsl) as (Hf & Hx & _). simpl in Hf.
  unfold NFP_STAILQ_REMOVE_HEAD, NFP_STAILQ_FIRST, NFP_STAILQ_NEXT.
  destruct xs; repeat qstep; simplify_eq/=; (split; [|qframe]);
    eapply (stailq_remove m _ h []); simpl; qside.
Qed.

Lemma NFP_STAILQ_REMOVE_AFTER_spec m h xs x e ys :
  stailq m h (xs ++ x :: e :: ys) →
  wp (NFP_STAILQ_REMOVE_AFTER h x)
     (λ _ m', stailq m' h (xs ++ x :: ys) ∧ same_outside [h] [x] m m') m.
Proof.
  intros Hs. pose proof Hs as Hs'. rewrite (cons_middle x xs), app_assoc in Hs'.
  destruct (slist_elem _ _ _ _ _ (proj1 Hs)) as (_ & Hx & _).
  destruct (slist_elem _ _ _ _ _ (proj1 Hs')) as (_ & He & _). simpl in Hx.
  destruct Hs as [Hsl Hl]. rewrite (cons_middle x xs ys), app_assoc.
  unfold NFP_STAILQ_REMOVE_AFTER, NFP_STAILQ_NEXT.
  destruct ys; repeat qstep; simplify_eq/=; (split; [|qframe]);
    eapply (stailq_remove m _ h (xs ++ [x])); rewrite ?lastref_snoc; qside.
Qed.

Lemma NFP_STAILQ_REMOVE_spec m h xs e ys fuel :
  stailq m h (xs ++ e :: ys) → (length xs ≤ fuel)%nat →
  wp (NFP_STAILQ_REMOVE fuel h e) (λ _ m', stailq m' h (xs ++ ys)) m.
Proof.
  intros Hs Hf. pose proof Hs as [Hsl _].
  destruct (slist_elem _ _ _ _ _ Hsl) as (_ & _ & _ & Hnx & _).
  pose proof (slist_split m h [] (xs ++ e :: ys) Hsl) as Hfirst.
  unfold NFP_STAILQ_REMOVE. apply wp_bind. eapply wp_load; [exact Hfirst|].
  destruct xs as [|x xs _] using rev_ind; simpl.
  - rewrite bool_decide_eq_true_2 by done.
    eapply wp_mono; [|by eapply NFP_STAILQ_REMOVE_HEAD_spec]. naive_solver.
  - rewrite <- app_assoc in Hs, Hsl |- *. simpl in *.
    rewrite hd_or_app in Hfirst |- *. simpl in *.
    rewrite bool_decide_eq_false_2 by (destruct xs; set_solver).
    apply wp_bind. exists x, m. split.
    + eapply find_prev_spec; [exact (proj2 Hsl)|set_solver|set_solver|].
      rewrite length_app in Hf. simpl in Hf. lia.
    + eapply wp_mono; [|by eapply NFP_STAILQ_REMOVE_AFTER_spec].
      intros [] m'. rewrite <- app_assoc. naive_solver.
Qed.

Lemma hd_or_snoc xs x : ∃ y, hd_or None (xs ++ [x]) = Some y.
Proof. destruct xs; simpl; eauto. Qed.

Lemma NFP_STAILQ_LAST_spec m h xs :
  stailq m h xs → NFP_STAILQ_LAST h m = (Ret (last xs), m).
Proof.
  intros [Hsl Hl]. pose proof (slist_split m h [] xs Hsl) as Hf. simpl in Hf.
  assert (wp (NFP_STAILQ_LAST h) (λ r m', r = last xs ∧ m' = m) m) as (? & ? & -> & -> & ->);
    [|done].
  unfold NFP_STAILQ_LAST, NFP_STAILQ_EMPTY, NFP_STAILQ_FIRST.
  destruct xs as [|x xs _] using rev_ind; [by repeat qstep|].
  destruct (hd_or_snoc xs x) as [y Hy]. rewrite Hy in Hf. repeat qstep.
  rewrite lastref_snoc, last_snoc. by apply wp_ret.
Qed.

(** The two lists share no element. *)
Definition disjoint_lists (xs ys : list positive) : Prop := ∀ x, x ∈ xs → x ∈ ys → False.

Lemma schain_concat m m' p q xs ys :
  NoDup xs → p ∉ (ElmNext <$> xs) →
  schain m p xs None → schain m q ys None → ys ≠ [] →
  linkval m' (lastref p xs) = Some (hd_or None ys) →
  (∀ r, r ≠ lastref p xs → r ≠ q → linkval m' r = linkval m r) →
  q ∉ cells p xs → q ∉ (ElmNext <$> ys) → lastref p xs ∉ (ElmNext <$> ys) →
  schain m' p (xs ++ ys) None.
Proof.
  intros Hnd Hp Hx Hy Hne Hl Hr Hq1 Hq2 Hdis. apply schain_app. split.
  - eapply schain_retail; [..|exact Hx]; try done.
    intros r Hrc Hrl. apply Hr; [done|]. by intros ->.
  - destruct ys as [|y ys]; [done|]. destruct Hy as [_ Hy]. split; [done|].
    eapply schain_ext; [|done]. intros r Hrc. apply Hr; intros ->; done.
Qed.

Lemma disjoint_NoDup_app xs ys :
  NoDup xs → NoDup ys → disjoint_lists xs ys → NoDup (xs ++ ys).
Proof. intros. apply NoDup_app. split_and!; [done| |done]. intros x ? ?. by eauto. Qed.

Lemma slist_concat m m' h1 h2 xs ys :
  slist m h1 xs → slist m h2 ys → h1 ≠ h2 → disjoint_lists xs ys → ys ≠ [] →
  linkval m' (lastref (HeadFirst h1) xs) = Some (hd_or None ys) →
  (∀ r, r ≠ lastref (HeadFirst h1) xs → r ≠ HeadFirst h2 → linkval m' r = linkval m r) →
  slist m' h1 (xs ++ ys).
Proof.
  intros [Hnx Hx] [Hny Hy] Hne Hdis Hys Hl Hr. split; [by apply disjoint_NoDup_app|].
  eapply schain_concat; try done.
  - apply HeadFirst_fmap.
  - rewrite elem_of_cells. naive_solver.
  - apply HeadFirst_fmap.
  - destruct (lastref_cases (HeadFirst h1) xs) as [[-> _]|(x & -> & Hx')];
      [apply HeadFirst_fmap|apply ElmNext_fmap; intros ?; by eapply Hdis].
Qed.

Lemma NFP_STAILQ_CONCAT_spec m h1 h2 xs ys :
  stailq m h1 xs → stailq m h2 ys → h1 ≠ h2 → disjoint_lists xs ys →
  wp (NFP_STAILQ_CONCAT h1 h2)
     (λ _ m', stailq m' h1 (xs ++ ys) ∧ stailq m' h2 []) m.
Proof.
  intros [Hsx Hlx] [Hsy Hly] Hne Hdis.
  pose proof (slist_split m h2 [] ys Hsy) as Hfy. simpl in Hfy.
  pose proof (schain_last _ _ _ _ (proj2 Hsx)) as Hlast.
  unfold NFP_STAILQ_CONCAT, NFP_STAILQ_EMPTY, NFP_STAILQ_FIRST, NFP_STAILQ_INIT.
  destruct ys as [|y ys].
  { repeat qstep. rewrite app_nil_r. by split; split. }
  assert (HeadFirst h2 ≠ lastref (HeadFirst h1) xs).
  { destruct (lastref_cases (HeadFirst h1) xs) as [[-> _]|(? & -> & _)]; congruence. }
  repeat qstep. split; split; [| |split; [constructor|simpl; split_and!; qside]|qside].
  - eapply (slist_concat m _ h1 h2 xs (y :: ys)); try done; simpl; qside.
  - rewrite lastref_app. simpl. qside.
Qed.

Lemma stailq_swap m m' h1 h2 xs ys :
  stailq m h1 xs → stailq m h2 ys →
  linkval m' (HeadFirst h1) = Some (hd_or None ys) →
  (∀ e, linkval m' (ElmNext e) = linkval m (ElmNext e)) →
  lasts m' !! h1 =
    (match ys with [] => Some (HeadFirst h1) | _ => lasts m !! h2 end) →
  stailq m' h1 ys.
Proof.
  intros _ [[Hn Hc] Hl] Hf He Hl'. split; [split; [done|]|].
  - destruct ys as [|y ys]; [done|]. destruct Hc as [_ Hc]. split; [done|].
    eapply schain_ext; [|done]. intros r [->|(x & -> & _)]%elem_of_cells; auto.
  - rewrite Hl'. destruct ys; [done|]. rewrite Hl. by apply f_equal.
Qed.

Lemma NFP_STAILQ_SWAP_spec m h1 h2 xs ys :
  stailq m h1 xs → stailq m h2 ys → h1 ≠ h2 →
  wp (NFP_STAILQ_SWAP h1 h2) (λ _ m', stailq m' h1 ys ∧ stailq m' h2 xs) m.
Proof.
  intros Hx Hy Hne. pose proof Hx as [Hsx Hlx]. pose proof Hy as [Hsy Hly].
  pose proof (slist_split m h1 [] xs Hsx) as Hfx. pose proof (slist_split m h2 [] ys Hsy) as Hfy.
  simpl in *. unfold NFP_STAILQ_SWAP, NFP_STAILQ_EMPTY, NFP_STAILQ_FIRST.
  destruct xs, ys; repeat qstep;
    (split; [eapply (stailq_swap m _ h1 h2)|eapply (stailq_swap m _ h2 h1)]); try done; qside.
Qed.

(** ** LIST *)

Lemma dlist_insert m m' h xs ys e :
  dlist m h (xs ++ ys) → e ∉ xs → e ∉ ys →
  linkval m' (lastref (HeadFirst h) xs) = Some (Some e) →
  linkval m' (ElmNext e) = Some (hd_or None ys) →
  (∀ r, r ≠ lastref (HeadFirst h) xs → r ≠ ElmNext e → linkval m' r = linkval m r) →
  prevs m' !! e = Some (lastref (HeadFirst h) xs) →
  (∀ y, head ys = Some y → prevs m' !! y = Some (ElmNext e)) →
  (∀ x, x ≠ e → head ys ≠ Some x → prevs m' !! x = prevs m !! x) →
  dlist m' h (xs ++ e :: ys).
Proof.
  intros [Hs Hd] ????????. split; [by eapply slist_insert|].
  eapply dchain_insert; try done. by destruct Hs.
Qed.

Lemma dlist_remove m m' h xs ys e :
  dlist m h (xs ++ e :: ys) →
  linkval m' (lastref (HeadFirst h) xs) = Some (hd_or None ys) →
  (∀ r, r ≠ lastref (HeadFirst h) xs → r ≠ ElmNext e → linkval m' r = linkval m r) →
  (∀ y, head ys = Some y → prevs m' !! y = Some (lastref (HeadFirst h) xs)) →
  (∀ x, x ≠ e → head ys ≠ Some x → prevs m' !! x = prevs m !! x) →
  dlist m' h (xs ++ ys).
Proof.
  intros [Hs Hd] ????. split; [by eapply slist_remove|].
  eapply dchain_remove; try done. by destruct Hs.
Qed.

(** The [head ys] side conditions of the four lemmas above. *)
Ltac qhead := intros; simplify_eq/=; qside.

Lemma NFP_LIST_INIT_spec m h :
  is_Some (linkval m (HeadFirst h)) →
  wp (NFP_LIST_INIT h) (λ _ m', dlist m' h [] ∧ same_outside [h] [] m m') m.
Proof.
  intros [? Hh]. unfold NFP_LIST_INIT. repeat qstep.
  split; [split; [split; [constructor|simpl; split_and!; qside]|done]|qframe].
Qed.

Lemma NFP_LIST_INSERT_HEAD_spec m h xs e :
  dlist m h xs → has_links m e → e ∉ xs →
  wp (NFP_LIST_INSERT_HEAD h e)
     (λ _ m', dlist m' h (e :: xs) ∧ same_outside [h] (e :: xs) m m') m.
Proof.
  intros Hs [[n0 Hn] [p0 Hp]] He. pose proof Hs as [Hsl Hd].
  pose proof (slist_split m h [] xs Hsl) as Hf. simpl in Hf.
  unfold NFP_LIST_INSERT_HEAD, NFP_LIST_FIRST.
  destruct xs as [|x xs]; [|destruct Hd as [Hpx Hd]; assert (x ≠ e) by set_solver];
    repeat qstep; (split; [|qframe]); eapply (dlist_insert m _ h []); simpl; qhead.
Qed.

Lemma NFP_LIST_INSERT_AFTER_spec m h xs x ys e :
  dlist m h (xs ++ x :: ys) → has_links m e → e ∉ xs ++ x :: ys →
  wp (NFP_LIST_INSERT_AFTER x e)
     (λ _ m', dlist m' h (xs ++ x :: e :: ys) ∧ same_outside [] (e :: x :: ys) m m') m.
Proof.
  intros Hs [[n0 Hn] [p0 Hp]] He. pose proof Hs as [Hsl Hd].
  destruct (slist_elem _ _ _ _ _ Hsl) as (_ & Hx & Hnd & Hxx & Hxy).
  destruct (dchain_elem _ _ _ _ _ Hd) as [Hpx Hpy].
  rewrite (cons_middle x xs (e :: ys)), app_assoc.
  rewrite (cons_middle x xs ys), app_assoc in Hs.
  unfold NFP_LIST_INSERT_AFTER, NFP_LIST_NEXT.
  assert (x ≠ e) by set_solver.
  destruct ys as [|y ys];
    [|pose proof (Hpy y eq_refl) as Hpy'; assert (y ≠ e) by set_solver]; simpl in Hx;
    repeat qstep; (split; [|qframe]);
    eapply (dlist_insert m _ h (xs ++ [x])); rewrite ?lastref_snoc; qhead.
Qed.

Lemma NFP_LIST_INSERT_BEFORE_spec m h xs x ys e :
  dlist m h (xs ++ x :: ys) → has_links m e → e ∉ xs ++ x :: ys →
  wp (NFP_LIST_INSERT_BEFORE x e)
     (λ _ m', dlist m' h (xs ++ e :: x :: ys) ∧ same_outside [h] (e :: xs ++ [x]) m m') m.
Proof.
  intros Hs [[n0 Hn] [p0 Hp]] He. pose proof Hs as [Hsl Hd].
  destruct (slist_elem _ _ _ _ _ Hsl) as (Hl & Hx & Hnd & Hxx & Hxy).
  destruct (dchain_elem _ _ _ _ _ Hd) as [Hpx _].
  assert (x ≠ e) by set_solver.
  assert (ElmNext e ≠ lastref (HeadFirst h) xs).
  { destruct (lastref_cases (HeadFirst h) xs) as [[-> _]|(? & -> & ?)]; [done|set_solver]. }
  unfold NFP_LIST_INSERT_BEFORE. repeat qstep. split; [|qframe].
  eapply (dlist_insert m _ h xs); simpl; qhead.
Qed.

Lemma NFP_LIST_REMOVE_spec m h xs e ys :
  dlist m h (xs ++ e :: ys) →
  wp (NFP_LIST_REMOVE e)
     (λ _ m', dlist m' h (xs ++ ys) ∧ same_outside [h] (xs ++ ys) m m') m.
Proof.
  intros Hs. pose proof Hs as [Hsl Hd].
  destruct (slist_elem _ _ _ _ _ Hsl) as (Hl & Hx & Hnd & Hxx & Hxy).
  destruct (dchain_elem _ _ _ _ _ Hd) as [Hpx Hpy].
  unfold NFP_LIST_REMOVE, NFP_LIST_NEXT.
  destruct ys as [|y ys];
    [|pose proof (Hpy y eq_refl) as Hpy'; assert (y ≠ e) by set_solver]; simpl in Hx;
    repeat qstep; (split; [|qframe]); eapply (dlist_remove m _ h xs); qhead.
Qed.
