(* ===== verification/NfpTailqProofs.v ===== *)
(** * Correctness of the doubly linked tail queues, traversals and FIFO use

    TAILQ operations against the abstract list, LIST and TAILQ exchange, the
    FOREACH loops, and an abstract FIFO interface with its STAILQ and TAILQ
    implementations. *)

From S2P Require Import Prelude NfpQueue NfpQueueProofs.

(** ** TAILQ *)

Lemma tailq_insert m m' h xs ys e :
  tailq m h (xs ++ ys) → e ∉ xs → e ∉ ys →
  linkval m' (lastref (HeadFirst h) xs) = Some (Some e) →
  linkval m' (ElmNext e) = Some (hd_or None ys) →
  (∀ r, r ≠ lastref (HeadFirst h) xs → r ≠ ElmNext e → linkval m' r = linkval m r) →
  lasts m' !! h = (match ys with [] => Some (ElmNext e) | _ => lasts m !! h end) →
  prevs m' !! e = Some (lastref (HeadFirst h) xs) →
  (∀ y, head ys = Some y → prevs m' !! y = Some (ElmNext e)) →
  (∀ x, x ≠ e → head ys ≠ Some x → prevs m' !! x = prevs m !! x) →
  tailq m' h (xs ++ e :: ys).
Proof.
  intros [Hs Hd] ?????????. split; [by eapply stailq_insert|].
  eapply dchain_insert; try done. apply Hs.
Qed.

Lemma tailq_remove m m' h xs ys e :
  tailq m h (xs ++ e :: ys) →
  linkval m' (lastref (HeadFirst h) xs) = Some (hd_or None ys) →
  (∀ r, r ≠ lastref (HeadFirst h) xs → r ≠ ElmNext e → linkval m' r = linkval m r) →
  lasts m' !! h =
    (match ys with [] => Some (lastref (HeadFirst h) xs) | _ => lasts m !! h end) →
  (∀ y, head ys = Some y → prevs m' !! y = Some (lastref (HeadFirst h) xs)) →
  (∀ x, x ≠ e → head ys ≠ Some x → prevs m' !! x = prevs m !! x) →
  tailq m' h (xs ++ ys).
Proof.
  intros [Hs Hd] ?????. split; [by eapply stailq_remove|].
  eapply dchain_remove; try done. apply Hs.
Qed.

Lemma NFP_TAILQ_INIT_spec m h :
  is_Some (linkval m (HeadFirst h)) → is_Some (lasts m !! h) →
  wp (NFP_TAILQ_INIT h) (λ _ m', tailq m' h [] ∧ same_outside [h] [] m m') m.
Proof.
  intros [? Hh] [? Hl]. unfold NFP_TAILQ_INIT. repeat qstep.
  split; [split; [split; [split; [constructor|simpl; split_and!; qside]|qside]|done]|qframe].
Qed.

Lemma NFP_TAILQ_INSERT_HEAD_spec m h xs e :
  tailq m h xs → has_links m e → e ∉ xs →
  wp (NFP_TAILQ_INSERT_HEAD h e)
     (λ _ m', tailq m' h (e :: xs) ∧ same_outside [h] (e :: xs) m m') m.
Proof.
  intros Hs [[n0 Hn] [p0 Hp]] He. pose proof Hs as [[Hsl Hl] Hd].
  pose proof (slist_split m h [] xs Hsl) as Hf. simpl in Hf.
  unfold NFP_TAILQ_INSERT_HEAD, NFP_TAILQ_FIRST.
  destruct xs as [|x xs]; [|destruct Hd as [Hpx Hd]; assert (x ≠ e) by set_solver];
    repeat qstep; (split; [|qframe]); eapply (tailq_insert m _ h []); simpl; qhead.
Qed.

Lemma NFP_TAILQ_INSERT_TAIL_spec m h xs e :
  tailq m h xs → has_links m e → e ∉ xs →
  wp (NFP_TAILQ_INSERT_TAIL h e)
     (λ _ m', tailq m' h (xs ++ [e]) ∧ same_outside [h] (e :: xs) m m') m.
Proof.
  intros Hs [[n0 Hn] [p0 Hp]] He. pose proof Hs as [[[Hnd Hc] Hl] Hd].
  pose proof (schain_last _ _ _ _ Hc) as Hlast.
  unfold NFP_TAILQ_INSERT_TAIL. repeat qstep. split; [|qframe].
  rewrite <- (app_nil_r xs) in Hs. eapply (tailq_insert m _ h xs []); simpl; qhead.
Qed.

Lemma NFP_TAILQ_INSERT_AFTER_spec m h xs x ys e :
  tailq m h (xs ++ x :: ys) → has_links m e → e ∉ xs ++ x :: ys →
  wp (NFP_TAILQ_INSERT_AFTER h x e)
     (λ _ m', tailq m' h (xs ++ x :: e :: ys) ∧ same_outside [h] (e :: x :: ys) m m') m.
Proof.
  intros Hs [[n0 Hn] [p0 Hp]] He. pose proof Hs as [[Hsl Hl] Hd].
  destruct (slist_elem _ _ _ _ _ Hsl) as (_ & Hx & Hnd & Hxx & Hxy).
  destruct (dchain_elem _ _ _ _ _ Hd) as [Hpx Hpy].
  rewrite (cons_middle x xs (e :: ys)), app_assoc.
  rewrite (cons_middle x xs ys), app_assoc in Hs.
  unfold NFP_TAILQ_INSERT_AFTER, NFP_TAILQ_NEXT. assert (x ≠ e) by set_solver.
  destruct ys as [|y ys];
    [|pose proof (Hpy y eq_refl) as Hpy'; assert (y ≠ e) by set_solver]; simpl in Hx;
    repeat qstep; (split; [|qframe]);
    eapply (tailq_insert m _ h (xs ++ [x])); rewrite ?lastref_snoc; qhead.
Qed.

Lemma NFP_TAILQ_INSERT_BEFORE_spec m h xs x ys e :
  tailq m h (xs ++ x :: ys) → has_links m e → e ∉ xs ++ x :: ys →
  wp (NFP_TAILQ_INSERT_BEFORE x e)
     (λ _ m', tailq m' h (xs ++ e :: x :: ys) ∧ same_outside [h] (e :: xs ++ [x]) m m') m.
Proof.
  intros Hs [[n0 Hn] [p0 Hp]] He. pose proof Hs as [[Hsl Hl] Hd].
  destruct (slist_elem _ _ _ _ _ Hsl) as (Hl' & Hx & Hnd & Hxx & Hxy).
  destruct (dchain_elem _ _ _ _ _ Hd) as [Hpx _].
  assert (x ≠ e) by set_solver.
  assert (ElmNext e ≠ lastref (HeadFirst h) xs).
  { destruct (lastref_cases (HeadFirst h) xs) as [[-> _]|(? & -> & ?)]; [done|set_solver]. }
  unfold NFP_TAILQ_INSERT_BEFORE. repeat qstep. split; [|qframe].
  eapply (tailq_insert m _ h xs); simpl; qhead.
Qed.

Lemma NFP_TAILQ_REMOVE_spec m h xs e ys :
  tailq m h (xs ++ e :: ys) →
  wp (NFP_TAILQ_REMOVE h e)
     (λ _ m', tailq m' h (xs ++ ys) ∧ same_outside [h] (xs ++ ys) m m') m.
Proof.
  intros Hs. pose proof Hs as [[Hsl Hla] Hd].
  destruct (slist_elem _ _ _ _ _ Hsl) as (Hl & Hx & Hnd & Hxx & Hxy).
  destruct (dchain_elem _ _ _ _ _ Hd) as [Hpx Hpy].
  unfold NFP_TAILQ_REMOVE, NFP_TAILQ_NEXT.
  destruct ys as [|y ys];
    [|pose proof (Hpy y eq_refl) as Hpy'; assert (y ≠ e) by set_solver]; simpl in Hx;
    repeat qstep; (split; [|qframe]); eapply (tailq_remove m _ h xs); qhead.
Qed.

(** The layout cast of TAILQ_LAST and TAILQ_PREV: from the link after [xs] it
    reaches the last element of [xs], and NULL when there is none. *)
Lemma cast_last_spec m h xs ys :
  tailq m h (xs ++ ys) →
  ∃ r, cast_last (lastref (HeadFirst h) xs) m = (Ret r, m) ∧ linkval m r = Some (last xs).
Proof.
  intros [[[Hnd Hc] Hl] Hd]. apply dchain_app in Hd as [Hd _].
  apply schain_app in Hc as Hc'. destruct Hc' as [Hcx _].
  destruct xs as [|x xs _] using rev_ind; simpl.
  - exists (lastref (HeadFirst h) ys). split; [|by apply schain_last in Hc].
    unfold get_last, get, mbind, M_bind. by rewrite Hl.
  - rewrite lastref_snoc, last_snoc. simpl.
    apply dchain_app in Hd as [_ [Hpx _]]. apply schain_app in Hcx as [_ [Hlx _]].
    exists (lastref (HeadFirst h) xs). split; [|done].
    unfold get_prev, get, mbind, M_bind. by rewrite Hpx.
Qed.

Lemma NFP_TAILQ_LAST_spec m h xs :
  tailq m h xs → NFP_TAILQ_LAST h m = (Ret (last xs), m).
Proof.
  intros Hq. destruct (cast_last_spec m h xs []) as (r & Hr & Hv); [by rewrite app_nil_r|].
  destruct Hq as [[_ Hl] _]. unfold NFP_TAILQ_LAST.
  rewrite (bind_Ret _ _ m (lastref (HeadFirst h) xs) m)
    by (unfold get_last, get, mbind, M_bind; by rewrite Hl).
  rewrite (bind_Ret _ _ _ _ _ Hr). unfold load, get, mbind, M_bind. by rewrite Hv.
Qed.

Lemma NFP_TAILQ_PREV_spec m h xs e ys :
  tailq m h (xs ++ e :: ys) → NFP_TAILQ_PREV e m = (Ret (last xs), m).
Proof.
  intros Hq. destruct (cast_last_spec m h xs (e :: ys) Hq) as (r & Hr & Hv).
  destruct Hq as [_ Hd]. apply dchain_app in Hd as [_ [Hpe _]]. unfold NFP_TAILQ_PREV.
  rewrite (bind_Ret _ _ m (lastref (HeadFirst h) xs) m)
    by (unfold get_prev, get, mbind, M_bind; by rewrite Hpe).
  rewrite (bind_Ret _ _ _ _ _ Hr). unfold load, get, mbind, M_bind. by rewrite Hv.
Qed.

Lemma NFP_TAILQ_NEXT_spec m h xs e ys :
  tailq m h (xs ++ e :: ys) → NFP_TAILQ_NEXT e m = (Ret (head ys), m).
Proof.
  intros [[Hs _] _]. destruct (slist_elem _ _ _ _ _ Hs) as (_ & Hx & _).
  unfold NFP_TAILQ_NEXT, load, get, mbind, M_bind. by rewrite Hx, hd_or_head.
Qed.

Lemma NFP_TAILQ_CONCAT_spec m h1 h2 xs ys :
  tailq m h1 xs → tailq m h2 ys → h1 ≠ h2 → disjoint_lists xs ys →
  wp (NFP_TAILQ_CONCAT h1 h2) (λ _ m', tailq m' h1 (xs ++ ys) ∧ tailq m' h2 []) m.
Proof.
  intros [[Hsx Hlx] Hdx] [[Hsy Hly] Hdy] Hne Hdis.
  pose proof (slist_split m h2 [] ys Hsy) as Hfy. simpl in Hfy.
  pose proof (schain_last _ _ _ _ (proj2 Hsx)) as Hlast.
  unfold NFP_TAILQ_CONCAT, NFP_TAILQ_EMPTY, NFP_TAILQ_FIRST, NFP_TAILQ_INIT.
  destruct ys as [|y ys]; simpl in Hfy, Hly.
  { repeat qstep. rewrite app_nil_r. by split; split. }
  destruct Hdy as [Hpy Hdy].
  assert (HeadFirst h2 ≠ lastref (HeadFirst h1) xs).
  { destruct (lastref_cases (HeadFirst h1) xs) as [[-> _]|(? & -> & _)]; congruence. }
  assert (Hyxs : y ∉ xs) by (intros ?; eapply Hdis; [done|set_solver]).
  pose proof (proj1 Hsy) as [Hyys _]%NoDup_cons.
  repeat qstep. split; (split; [split|]); [| | |split; [constructor|simpl; split_and!; qside]|qside|done].
  - eapply (slist_concat m _ h1 h2 xs (y :: ys)); try done; simpl; qside.
  - rewrite lastref_app. simpl. qside.
  - apply dchain_app. split; [eapply dchain_ext; [|done]; qside|].
    simpl. split; [qside|]. eapply dchain_ext; [|done]. qside.
Qed.

Lemma dchain_swap m m' h1 h2 ys :
  dchain m (HeadFirst h2) ys → NoDup ys →
  (∀ y, head ys = Some y → prevs m' !! y = Some (HeadFirst h1)) →
  (∀ x, x ∈ ys → head ys ≠ Some x → prevs m' !! x = prevs m !! x) →
  dchain m' (HeadFirst h1) ys.
Proof.
  intros Hd Hnd Hh Hr. destruct ys as [|y ys]; [done|]. destruct Hd as [_ Hd].
  apply NoDup_cons in Hnd as [Hy _].
  split; [by apply Hh|]. eapply dchain_ext; [|done]. intros x Hx. apply Hr; set_solver.
Qed.

Lemma slist_relink m m' h1 h2 ys :
  slist m h2 ys → linkval m' (HeadFirst h1) = Some (hd_or None ys) →
  (∀ e, linkval m' (ElmNext e) = linkval m (ElmNext e)) → slist m' h1 ys.
Proof.
  intros [Hn Hc] Hf He. split; [done|]. destruct ys as [|y ys]; [done|].
  destruct Hc as [_ Hc]. split; [done|].
  eapply schain_ext; [|done]. intros r [->|(x & -> & _)]%elem_of_cells; auto.
Qed.

Lemma disjoint_ne xs ys x y : disjoint_lists xs ys → x ∈ xs → y ∈ ys → x ≠ y.
Proof. intros H ?? ->. by eapply H. Qed.

Lemma NFP_LIST_SWAP_spec m h1 h2 xs ys :
  dlist m h1 xs → dlist m h2 ys → h1 ≠ h2 → disjoint_lists xs ys →
  wp (NFP_LIST_SWAP h1 h2) (λ _ m', dlist m' h1 ys ∧ dlist m' h2 xs) m.
Proof.
  intros [Hsx Hdx] [Hsy Hdy] Hne Hdis.
  pose proof (slist_split m h1 [] xs Hsx) as Hfx. pose proof (slist_split m h2 [] ys Hsy) as Hfy.
  unfold NFP_LIST_SWAP, NFP_LIST_FIRST. simpl in *.
  destruct xs as [|x xs]; [|destruct (Hdx) as [Hpx _]];
  (destruct ys as [|y ys]; [|destruct (Hdy) as [Hpy _]]);
    try (assert (x ≠ y) by (eapply disjoint_ne; [done|set_solver|set_solver]));
    repeat qstep; (split; split;
      [eapply (slist_relink m _ h1 h2)|eapply (dchain_swap m _ h1 h2)
      |eapply (slist_relink m _ h2 h1)|eapply (dchain_swap m _ h2 h1)]);
    try done; try (by destruct Hsx); try (by destruct Hsy); try qhead.
  all: unfold disjoint_lists in Hdis; set_solver.
Qed.

Lemma NFP_TAILQ_SWAP_spec m h1 h2 xs ys :
  tailq m h1 xs → tailq m h2 ys → h1 ≠ h2 → disjoint_lists xs ys →
  wp (NFP_TAILQ_SWAP h1 h2) (λ _ m', tailq m' h1 ys ∧ tailq m' h2 xs) m.
Proof.
  intros [Hsx Hdx] [Hsy Hdy] Hne Hdis. pose proof Hsx as [Hslx Hlx]. pose proof Hsy as [Hsly Hly].
  pose proof (slist_split m h1 [] xs Hslx) as Hfx.
  pose proof (slist_split m h2 [] ys Hsly) as Hfy.
  unfold NFP_TAILQ_SWAP, NFP_TAILQ_FIRST. simpl in *.
  destruct xs as [|x xs]; [|destruct (Hdx) as [Hpx _]];
  (destruct ys as [|y ys]; [|destruct (Hdy) as [Hpy _]]);
    try (assert (x ≠ y) by (eapply disjoint_ne; [done|set_solver|set_solver]));
    repeat qstep; (split; split;
      [eapply (stailq_swap m _ h1 h2)|eapply (dchain_swap m _ h1 h2)
      |eapply (stailq_swap m _ h2 h1)|eapply (dchain_swap m _ h2 h1)]);
    try done; try (by destruct Hslx); try (by destruct Hsly); try qhead.
  all: unfold disjoint_lists in Hdis; set_solver.
Qed.

(** ** Traversals

    A FOREACH loop over links that lead through [xs] folds its body over [xs],
    in order; [length xs + 1] rounds are enough.  [P] is what the body keeps
    true of the memory and makes the links available to the loop. *)
Section foreach.
Context {A : Type} (next : positive → M mem (option positive)).
Context (body : positive → A → M mem A) (f : positive → A → A) (P : mem → Prop).
Context (Hbody : ∀ x a m, P m → ∃ m', body x a m = (Ret (f x a), m') ∧ P m').

Lemma foreach_loop xs a fuel m :
  (∀ ys x zs, xs = ys ++ x :: zs → ∀ m, P m → next x m = (Ret (head zs), m)) →
  P m → (length xs < fuel)%nat →
  ∃ m', loop fuel (λ va : option positive * A,
    match va.1 with
    | None => mret (inr va.2)
    | Some v => a' ← body v va.2; v' ← next v; mret (inl (v', a'))
    end) (head xs, a) m = (Ret (fold_left (λ a x, f x a) xs a), m') ∧ P m'.
Proof.
  revert a fuel m. induction xs as [|x xs IH]; intros a fuel m Hn HP Hf;
    (destruct fuel as [|fuel]; [simpl in Hf; lia|]).
  - exists m. done.
  - destruct (Hbody x a m HP) as (m1 & Hb & HP1).
    destruct (IH (f x a) fuel m1) as (m2 & Hl & HP2); [|done|simpl in Hf; lia|].
    { intros ys y zs ->. by apply (Hn (x :: ys)). }
    exists m2. split; [|done]. cbn [loop head fst snd]. rewrite bind_assoc.
    rewrite (bind_Ret _ _ _ _ _ Hb), bind_assoc.
    by rewrite (bind_Ret _ _ _ _ _ (Hn [] x xs eq_refl _ HP1)).
Qed.

Lemma foreach_spec first xs a fuel m :
  first m = (Ret (head xs), m) →
  (∀ ys x zs, xs = ys ++ x :: zs → ∀ m, P m → next x m = (Ret (head zs), m)) →
  P m → (length xs < fuel)%nat →
  ∃ m', foreach fuel first next body a m = (Ret (fold_left (λ a x, f x a) xs a), m') ∧ P m'.
Proof.
  intros Hf Hn HP Hfuel. unfold foreach. rewrite (bind_Ret _ _ _ _ _ Hf).
  by apply foreach_loop.
Qed.
End foreach.

(** A body that keeps [P], where [P] includes that the queue holds [xs], is run
    on the elements in order by FOREACH and backwards by FOREACH_REVERSE. *)
Section tailq_foreach.
Context {A : Type} (h : positive) (xs : list positive) (P : mem → Prop).
Context (HP : ∀ m, P m → tailq m h xs).
Context (body : positive → A → M mem A) (f : positive → A → A).
Context (Hbody : ∀ x a m, P m → ∃ m', body x a m = (Ret (f x a), m') ∧ P m').

Lemma NFP_TAILQ_FOREACH_spec a fuel m :
  P m → (length xs < fuel)%nat →
  ∃ m', NFP_TAILQ_FOREACH fuel h body a m = (Ret (fold_left (λ a x, f x a) xs a), m') ∧ P m'.
Proof.
  intros Hm Hf. apply (foreach_spec _ _ _ P Hbody); auto.
  - destruct (HP m Hm) as [[Hs _] _]. apply (slist_split m h [] xs) in Hs. simpl in Hs.
    unfold NFP_TAILQ_FIRST, load, get, mbind, M_bind. by rewrite Hs, hd_or_head.
  - intros ys x zs Hxs m0 Hm0. pose proof (HP m0 Hm0) as Hq. rewrite Hxs in Hq.
    by eapply NFP_TAILQ_NEXT_spec.
Qed.

Lemma NFP_TAILQ_FOREACH_REVERSE_spec a fuel m :
  P m → (length xs < fuel)%nat →
  ∃ m', NFP_TAILQ_FOREACH_REVERSE fuel h body a m =
          (Ret (fold_left (λ a x, f x a) (reverse xs) a), m') ∧ P m'.
Proof.
  intros Hm Hf. apply (foreach_spec _ _ _ P Hbody); rewrite ?length_reverse; auto.
  - rewrite (NFP_TAILQ_LAST_spec m h xs (HP m Hm)). by rewrite head_reverse.
  - intros ys x zs Hr m0 Hm0. pose proof (HP m0 Hm0) as Hq.
    rewrite <- (reverse_involutive xs), Hr, reverse_app, reverse_cons, <- app_assoc in Hq.
    rewrite (NFP_TAILQ_PREV_spec _ _ _ _ _ Hq). by rewrite last_reverse.
Qed.
End tailq_foreach.

Lemma fold_left_snoc (ys acc : list positive) :
  fold_left (λ a x, a ++ [x]) ys acc = acc ++ ys.
Proof.
  revert acc. induction ys as [|y ys IH]; intros acc; simpl; [by rewrite app_nil_r|].
  rewrite IH, <- app_assoc. done.
Qed.

(** ** FIFO queues

    What a client that only appends at the tail and takes from the head needs:
    the interface is a class, STAILQ and TAILQ are its instances, and the
    client theorem is proved once. *)
Class FifoQueue := {
  fq_repr : mem → positive → list positive → Prop;
  fq_linkable : mem → positive → Prop;
  fq_insert_tail : positive → positive → M mem unit;
  fq_remove_head : positive → M mem (option positive);
  fq_insert_tail_ok m h xs e :
    fq_repr m h xs → fq_linkable m e → e ∉ xs →
    wp (fq_insert_tail h e)
       (λ _ m', fq_repr m' h (xs ++ [e]) ∧ ∀ e', fq_linkable m e' → fq_linkable m' e') m;
  fq_remove_head_empty m h : fq_repr m h [] → fq_remove_head h m = (Ret None, m);
  fq_remove_head_ok m h x xs :
    fq_repr m h (x :: xs) →
    wp (fq_remove_head h) (λ r m', r = Some x ∧ fq_repr m' h xs) m
}.

Section fifo_client.
Context `{FifoQueue}.

Fixpoint enqueue_all (h : positive) (es : list positive) : M mem unit :=
  match es with [] => mret () | e :: es' => fq_insert_tail h e;; enqueue_all h es' end.

(** Take elements until the queue is empty. *)
Definition drain (fuel : nat) (h : positive) : M mem (list positive) :=
  loop fuel (λ acc, r ← fq_remove_head h;
                    mret (match r with None => inr acc | Some e => inl (acc ++ [e]) end)) [].

Lemma enqueue_all_spec m h xs es :
  fq_repr m h xs → Forall (fq_linkable m) es → NoDup (xs ++ es) →
  wp (enqueue_all h es) (λ _ m', fq_repr m' h (xs ++ es)) m.
Proof.
  revert m xs. induction es as [|e es IH]; intros m xs Hr Hl Hnd; simpl.
  - apply wp_ret. by rewrite app_nil_r.
  - apply Forall_cons in Hl as [He Hes]. apply NoDup_middle in Hnd as Hnd'.
    apply wp_bind. eapply wp_mono; [|apply fq_insert_tail_ok; [done|done|naive_solver]].
    intros [] m' [Hr' Hlk]. rewrite (cons_middle e xs es), app_assoc in *.
    apply IH; [done| |done]. eapply Forall_impl; [exact Hes|]. auto.
Qed.

Lemma drain_loop m h xs fuel acc :
  fq_repr m h xs → (length xs < fuel)%nat →
  wp (loop fuel (λ acc, r ← fq_remove_head h;
        mret (match r with None => inr acc | Some e => inl (acc ++ [e]) end)) acc)
     (λ r m', r = acc ++ xs ∧ fq_repr m' h []) m.
Proof.
  revert m xs acc. induction fuel as [|fuel IH]; intros m xs acc Hr Hf; [lia|].
  cbn [loop]. apply wp_bind, wp_bind. destruct xs as [|x xs].
  - exists None, m. split; [by apply fq_remove_head_empty|].
    apply wp_ret, wp_ret. by rewrite app_nil_r.
  - eapply wp_mono; [|by apply fq_remove_head_ok]. intros r m' [-> Hr'].
    apply wp_ret. rewrite (cons_middle x acc xs), app_assoc. apply IH; [done|simpl in Hf; lia].
Qed.

(** Elements come out in the order they went in. *)
Lemma fifo_order m h es fuel :
  fq_repr m h [] → Forall (fq_linkable m) es → NoDup es → (length es < fuel)%nat →
  wp (enqueue_all h es;; drain fuel h) (λ r m', r = es ∧ fq_repr m' h []) m.
Proof.
  intros. apply wp_bind. eapply wp_mono; [|by apply (enqueue_all_spec m h [])].
  intros [] m' Hr. by apply (drain_loop _ _ _ _ []).
Qed.
End fifo_client.

(** The head is removed with [STAILQ_REMOVE_HEAD] when the queue is not empty. *)
Definition stailq_take (h : positive) : M mem (option positive) :=
  f ← NFP_STAILQ_FIRST h;
  match f with None => mret None | Some x => NFP_STAILQ_REMOVE_HEAD h;; mret (Some x) end.

Definition tailq_take (h : positive) : M mem (option positive) :=
  f ← NFP_TAILQ_FIRST h;
  match f with None => mret None | Some x => NFP_TAILQ_REMOVE h x;; mret (Some x) end.

Lemma schain_has_next m p xs tl x : schain m p xs tl → x ∈ xs → has_next m x.
Proof.
  intros Hc [ys [zs ->]]%list_elem_of_split. apply schain_app in Hc as [_ [_ Hc]].
  apply schain_head in Hc. by exists (hd_or tl zs).
Qed.

Lemma dchain_has_prev m p xs x : dchain m p xs → x ∈ xs → is_Some (prevs m !! x).
Proof.
  intros Hc [ys [zs ->]]%list_elem_of_split. apply dchain_app in Hc as [_ [Hc _]]. eauto.
Qed.

#[export] Program Instance stailq_fifo : FifoQueue := {|
  fq_repr := stailq;
  fq_linkable := has_next;
  fq_insert_tail := NFP_STAILQ_INSERT_TAIL;
  fq_remove_head := stailq_take
|}.
Next Obligation.
  intros m h xs e Hq Hn He. eapply wp_mono; [|by apply NFP_STAILQ_INSERT_TAIL_spec].
  intros [] m' [Hq' [_ Hs]]. split; [done|]. intros e' He'.
  destruct (decide (e' ∈ e :: xs)).
  - eapply schain_has_next; [apply Hq'|set_solver].
  - unfold has_next. by rewrite (proj1 (Hs e' ltac:(done))).
Qed.
Next Obligation.
  intros m h [Hs _]. apply (slist_split m h [] []) in Hs. simpl in Hs.
  unfold stailq_take, NFP_STAILQ_FIRST, load, get, mbind, M_bind. by rewrite Hs.
Qed.
Next Obligation.
  intros m h x xs Hq. pose proof Hq as [Hs _]. apply (slist_split m h [] _) in Hs. simpl in Hs.
  unfold stailq_take. apply wp_bind. eapply wp_load; [exact Hs|]. apply wp_bind.
  eapply wp_mono; [|by eapply NFP_STAILQ_REMOVE_HEAD_spec].
  intros [] m' [? _]. by apply wp_ret.
Qed.

#[export] Program Instance tailq_fifo : FifoQueue := {|
  fq_repr := tailq;
  fq_linkable := has_links;
  fq_insert_tail := NFP_TAILQ_INSERT_TAIL;
  fq_remove_head := tailq_take
|}.
Next Obligation.
  intros m h xs e Hq Hn He. eapply wp_mono; [|by apply NFP_TAILQ_INSERT_TAIL_spec].
  intros [] m' [Hq' [_ Hs]]. split; [done|]. intros e' [He' Hp'].
  destruct (decide (e' ∈ e :: xs)).
  - split; [eapply schain_has_next; [apply Hq'|set_solver]
           |eapply dchain_has_prev; [apply Hq'|set_solver]].
  - destruct (Hs e' ltac:(done)) as [Hl Hp]. split; [unfold has_next; by rewrite Hl|by rewrite Hp].
Qed.
Next Obligation.
  intros m h [[Hs _] _]. apply (slist_split m h [] []) in Hs. simpl in Hs.
  unfold tailq_take, NFP_TAILQ_FIRST, load, get, mbind, M_bind. by rewrite Hs.
Qed.
Next Obligation.
  intros m h x xs Hq. pose proof Hq as [[Hs _] _]. apply (slist_split m h [] _) in Hs. simpl in Hs.
  unfold tailq_take. apply wp_bind. eapply wp_load; [exact Hs|]. apply wp_bind.
  eapply wp_mono; [|by apply (NFP_TAILQ_REMOVE_spec m h [] x xs)].
  intros [] m' [? _]. by apply wp_ret.
Qed.

(** ** Refinement of sequences of operations

    [tq_abs] is what a tail queue promises about the sequence it holds; [tq_run]
    is the macro that implements the operation. *)
Inductive tq_op : Type :=
| InsertHead (e : positive)
| InsertTail (e : positive)
| InsertAfter (x e : positive)
| InsertBefore (x e : positive)
| Remove (e : positive).

Definition tq_run (h : positive) (op : tq_op) : M mem unit :=
  match op with
  | InsertHead e => NFP_TAILQ_INSERT_HEAD h e
  | InsertTail e => NFP_TAILQ_INSERT_TAIL h e
  | InsertAfter x e => NFP_TAILQ_INSERT_AFTER h x e
  | InsertBefore x e => NFP_TAILQ_INSERT_BEFORE x e
  | Remove e => NFP_TAILQ_REMOVE h e
  end.

Inductive tq_abs : tq_op → list positive → list positive → Prop :=
| tq_head e xs : e ∉ xs → tq_abs (InsertHead e) xs (e :: xs)
| tq_tail e xs : e ∉ xs → tq_abs (InsertTail e) xs (xs ++ [e])
| tq_after x e xs ys : e ∉ xs ++ x :: ys →
    tq_abs (InsertAfter x e) (xs ++ x :: ys) (xs ++ x :: e :: ys)
| tq_before x e xs ys : e ∉ xs ++ x :: ys →
    tq_abs (InsertBefore x e) (xs ++ x :: ys) (xs ++ e :: x :: ys)
| tq_remove e xs ys : tq_abs (Remove e) (xs ++ e :: ys) (xs ++ ys).

Inductive tq_abs_run : list tq_op → list positive → list positive → Prop :=
| tq_done xs : tq_abs_run [] xs xs
| tq_more op ops xs ys zs :
    tq_abs op xs ys → tq_abs_run ops ys zs → tq_abs_run (op :: ops) xs zs.

Fixpoint tq_run_all (h : positive) (ops : list tq_op) : M mem unit :=
  match ops with [] => mret () | op :: ops' => tq_run h op;; tq_run_all h ops' end.

(** The elements an operation names: their link fields must be allocated. *)
Definition tq_elem (op : tq_op) : positive :=
  match op with
  | InsertHead e | InsertTail e | InsertAfter _ e | InsertBefore _ e | Remove e => e
  end.

Lemma tailq_has_links m h xs x : tailq m h xs → x ∈ xs → has_links m x.
Proof.
  intros [[[_ Hc] _] Hd] Hx. split; [by eapply schain_has_next|by eapply dchain_has_prev].
Qed.

Lemma has_links_same hs es m m' x :
  same_outside hs es m m' → x ∉ es → has_links m x → has_links m' x.
Proof.
  intros [_ Hs] Hx [Hn Hp]. destruct (Hs x Hx) as [H1 H2].
  split; [unfold has_next; by rewrite H1|by rewrite H2].
Qed.

(** One step: the macro runs without fault, the list it leaves is the abstract
    one, it writes only to this head and to elements now in the list, and no
    element loses its link fields. *)
Lemma tq_step m h xs ys op :
  tailq m h xs → tq_abs op xs ys → has_links m (tq_elem op) →
  wp (tq_run h op) (λ _ m', tailq m' h ys ∧ same_outside [h] ys m m') m.
Proof.
  assert (Hw : ∀ es ys m m', same_outside [h] es m m' → (∀ x, x ∈ es → x ∈ ys) →
                             same_outside [h] ys m m').
  { intros es ys0 m1 m2 [? Hs] Hsub. split; [done|]. intros e He. apply Hs. auto. }
  intros Hq Ha Hl. destruct Ha; simpl in *; (eapply wp_mono;
    [|first [ by apply NFP_TAILQ_INSERT_HEAD_spec | by apply NFP_TAILQ_INSERT_TAIL_spec
            | by eapply NFP_TAILQ_INSERT_AFTER_spec | by eapply NFP_TAILQ_INSERT_BEFORE_spec
            | by eapply NFP_TAILQ_REMOVE_spec ]]);
    intros [] m' [? ?]; (split; [done|]); (eapply Hw; [done|]); set_solver.
Qed.

Lemma tq_step_links m m' h ys x :
  tailq m' h ys → same_outside [h] ys m m' → has_links m x → has_links m' x.
Proof.
  intros Hq Hs Hx. destruct (decide (x ∈ ys)); [by eapply tailq_has_links|].
  by eapply has_links_same.
Qed.

(** [C1] Tail queues refine sequences: any sequence of head, tail, before and
    after insertions and removals that is legal on the abstract sequence runs
    on the linked structure without a fault (no NULL or dangling dereference),
    leaves exactly the abstract sequence, and writes only to this queue's head
    and to the elements it holds or names. *)
Theorem tailq_refines_sequence m h xs ys ops :
  tailq m h xs → tq_abs_run ops xs ys → Forall (λ op, has_links m (tq_elem op)) ops →
  wp (tq_run_all h ops)
     (λ _ m', tailq m' h ys ∧ same_outside [h] (xs ++ (tq_elem <$> ops)) m m') m.
Proof.
  intros Hq Hr. revert m Hq. induction Hr as [xs|op ops xs ys zs Hop Hrun IH];
    intros m Hq Hl; simpl.
  - apply wp_ret. split; [done|]. by split.
  - apply Forall_cons in Hl as [Hop' Hl].
    apply wp_bind. eapply wp_mono; [|by eapply tq_step]. intros [] m1 [Hq1 Hs1].
    eapply wp_mono; [|apply IH; [done|]].
    + intros [] m2 [Hq2 Hs2]. split; [done|].
      assert (Hsub : ∀ x, x ∈ ys → x ∈ xs ∨ x = tq_elem op) by (destruct Hop; set_solver).
      destruct Hs1 as [Hh1 He1], Hs2 as [Hh2 He2]. split.
      * intros h' Hh'. destruct (Hh1 h' Hh') as [<- <-]. auto.
      * intros e He. destruct (He1 e) as [<- <-]; [set_solver|]. apply He2. set_solver.
    + eapply Forall_impl; [exact Hl|]. intros op' ?. by eapply tq_step_links.
Qed.

(** An empty tail queue (head 1) and the elements 2..4, not yet linked. *)
Definition tq_example : mem :=
  NFP_TAILQ_ENTRY 4 (NFP_TAILQ_ENTRY 3 (NFP_TAILQ_ENTRY 2
    (NFP_TAILQ_HEAD_INITIALIZER 1 (Mem ∅ ∅ ∅ ∅)))).

Lemma tailq_refines_sequence_witness :
  wp (tq_run_all 1 [InsertTail 2; InsertHead 3; InsertBefore 2 4; Remove 3])
     (λ _ m', tailq m' 1 [4; 2]%positive
              ∧ same_outside [1%positive] [2; 3; 4; 3]%positive tq_example m') tq_example.
Proof.
  apply (tailq_refines_sequence tq_example 1 [] [4; 2]%positive
           [InsertTail 2; InsertHead 3; InsertBefore 2 4; Remove 3]).
  - split; [split; [split; [constructor|by vm_compute]|by vm_compute]|by vm_compute].
  - eapply tq_more; [apply tq_tail; set_solver|]. simpl.
    eapply tq_more; [apply tq_head; set_solver|].
    eapply tq_more; [apply (tq_before 2 4 [3%positive] []); set_solver|]. simpl.
    eapply tq_more; [apply (tq_remove 3 [] [4; 2]%positive)|]. apply tq_done.
  - repeat (apply Forall_cons; split); try apply Forall_nil; try done;
      (split; eexists; vm_compute; reflexivity).
Defined.

(** First in, first out: elements appended to an empty STAILQ and then
    taken from its head come out in the order they went in, and the same holds
    for TAILQ; the queue is empty again. *)
Theorem queues_are_fifo m h es fuel :
  NoDup es → (length es < fuel)%nat →
  (stailq m h [] → Forall (has_next m) es →
   wp (enqueue_all (H := stailq_fifo) h es;; drain (H := stailq_fifo) fuel h)
      (λ r m', r = es ∧ stailq m' h []) m) ∧
  (tailq m h [] → Forall (has_links m) es →
   wp (enqueue_all (H := tailq_fifo) h es;; drain (H := tailq_fifo) fuel h)
      (λ r m', r = es ∧ tailq m' h []) m).
Proof.
  intros Hnd Hf. split; intros Hq Hl.
  - by apply (fifo_order (H := stailq_fifo)).
  - by apply (fifo_order (H := tailq_fifo)).
Qed.

Lemma queues_are_fifo_witness :
  wp (enqueue_all (H := tailq_fifo) 1 [3; 2; 4]%positive;; drain (H := tailq_fifo) 9 1)
     (λ r m', r = [3; 2; 4]%positive ∧ tailq m' 1 []) tq_example.
Proof.
  apply (queues_are_fifo tq_example 1 [3; 2; 4]%positive 9).
  - repeat constructor; set_solver.
  - simpl. lia.
  - split; [split; [split; [constructor|by vm_compute]|by vm_compute]|by vm_compute].
  - repeat (apply Forall_cons; split); try apply Forall_nil; try done;
      (split; eexists; vm_compute; reflexivity).
Defined.

(** Traversal: on a tail queue holding [xs], FOREACH visits [xs] in order
    and FOREACH_REVERSE visits it backwards (through the head/entry layout cast
    of TAILQ_LAST and TAILQ_PREV); both stop at the end, within [length xs + 1]
    rounds, with the queue unchanged. *)
Theorem tailq_traversals m h xs fuel :
  tailq m h xs → (length xs < fuel)%nat →
  NFP_TAILQ_FOREACH fuel h (λ x acc, mret (acc ++ [x])) [] m = (Ret xs, m) ∧
  NFP_TAILQ_FOREACH_REVERSE fuel h (λ x acc, mret (acc ++ [x])) [] m = (Ret (reverse xs), m).
Proof.
  intros Hq Hf.
  assert (Hb : ∀ x (a : list positive) m', m' = m →
    ∃ m'', (mret (a ++ [x]) : M mem _) m' = (Ret (a ++ [x]), m'') ∧ m'' = m)
    by (intros x a m' ->; by exists m).
  split.
  - destruct (NFP_TAILQ_FOREACH_spec h xs (λ m', m' = m) ltac:(by intros ? ->)
      (λ x acc, mret (acc ++ [x])) _ Hb [] fuel m eq_refl Hf) as (? & -> & ->).
    by rewrite fold_left_snoc.
  - destruct (NFP_TAILQ_FOREACH_REVERSE_spec h xs (λ m', m' = m) ltac:(by intros ? ->)
      (λ x acc, mret (acc ++ [x])) _ Hb [] fuel m eq_refl Hf) as (? & -> & ->).
    by rewrite fold_left_snoc.
Qed.

Lemma tailq_traversals_witness :
  NFP_TAILQ_FOREACH 3 1 (λ x acc, mret (acc ++ [x])) [] (tq_run_all 1 [InsertTail 2] tq_example).2
    = (Ret [2%positive], (tq_run_all 1 [InsertTail 2] tq_example).2) ∧
  NFP_TAILQ_FOREACH_REVERSE 3 1 (λ x acc, mret (acc ++ [x])) [] (tq_run_all 1 [InsertTail 2] tq_example).2
    = (Ret [2%positive], (tq_run_all 1 [InsertTail 2] tq_example).2).
Proof.
  apply (tailq_traversals _ 1 [2%positive]); [|simpl; lia].
  split; [split; [split; [repeat constructor; set_solver|by vm_compute]|by vm_compute]|by vm_compute].
Defined.

(** Removing an arbitrary element of a singly linked queue: the search
    loop of SLIST_REMOVE and STAILQ_REMOVE terminates after at most as many
    steps as there are elements before the removed one, never runs past the end
    of the list, and the queue keeps all other elements in order (with the tail
    pointer right, for STAILQ, also when the last element is removed). *)
Theorem singly_linked_remove m h xs e ys fuel :
  (length xs ≤ fuel)%nat →
  (slist m h (xs ++ e :: ys) →
   wp (NFP_SLIST_REMOVE fuel h e) (λ _ m', slist m' h (xs ++ ys)) m) ∧
  (stailq m h (xs ++ e :: ys) →
   wp (NFP_STAILQ_REMOVE fuel h e;; NFP_STAILQ_LAST h)
      (λ l m', l = last (xs ++ ys) ∧ stailq m' h (xs ++ ys)) m).
Proof.
  intros Hf. split; intros Hq; [by apply NFP_SLIST_REMOVE_spec|].
  apply wp_bind. eapply wp_mono; [|by apply NFP_STAILQ_REMOVE_spec].
  intros [] m' Hq'. exists (last (xs ++ ys)), m'. split; [by apply NFP_STAILQ_LAST_spec|done].
Qed.

(** A STAILQ (head 1) that holds 2, 3, 4. *)
Definition stq_example : mem :=
  (enqueue_all (H := stailq_fifo) 1 [2; 3; 4]%positive
     (NFP_STAILQ_ENTRY 4 (NFP_STAILQ_ENTRY 3 (NFP_STAILQ_ENTRY 2
        (NFP_STAILQ_HEAD_INITIALIZER 1 (Mem ∅ ∅ ∅ ∅)))))).2.

Lemma singly_linked_remove_witness :
  wp (NFP_STAILQ_REMOVE 2 1 4;; NFP_STAILQ_LAST 1)
     (λ l m', l = Some 3%positive ∧ stailq m' 1 [2; 3]%positive) stq_example.
Proof.
  apply (singly_linked_remove stq_example 1 [2; 3]%positive 4 [] 2); [simpl; lia|].
  split; [split; [repeat constructor; set_solver|by vm_compute]|by vm_compute].
Defined.

(** Whole-queue operations: CONCAT appends the second queue to the first
    and empties it, SWAP exchanges the contents of two queues, for both kinds
    of tail queues and also when one or both are empty (so the last pointers
    never keep pointing into the other head). *)
Theorem tailq_concat_swap m h1 h2 xs ys :
  h1 ≠ h2 → disjoint_lists xs ys →
  (tailq m h1 xs → tailq m h2 ys →
   wp (NFP_TAILQ_CONCAT h1 h2) (λ _ m', tailq m' h1 (xs ++ ys) ∧ tailq m' h2 []) m ∧
   wp (NFP_TAILQ_SWAP h1 h2) (λ _ m', tailq m' h1 ys ∧ tailq m' h2 xs) m) ∧
  (stailq m h1 xs → stailq m h2 ys →
   wp (NFP_STAILQ_CONCAT h1 h2) (λ _ m', stailq m' h1 (xs ++ ys) ∧ stailq m' h2 []) m ∧
   wp (NFP_STAILQ_SWAP h1 h2) (λ _ m', stailq m' h1 ys ∧ stailq m' h2 xs) m).
Proof.
  intros Hne Hdis. split; intros H1 H2; split.
  - by apply NFP_TAILQ_CONCAT_spec.
  - by apply NFP_TAILQ_SWAP_spec.
  - by apply NFP_STAILQ_CONCAT_spec.
  - by apply NFP_STAILQ_SWAP_spec.
Qed.

Lemma tailq_concat_swap_witness :
  wp (NFP_TAILQ_CONCAT 1 9) (λ _ m', tailq m' 1 [2]%positive ∧ tailq m' 9 [])
     (tq_run_all 1 [InsertTail 2] (NFP_TAILQ_HEAD_INITIALIZER 9 tq_example)).2.
Proof.
  apply (tailq_concat_swap _ 1 9 [2%positive] []).
  - done.
  - intros x _. set_solver.
  - split; [split; [split; [repeat constructor; set_solver|by vm_compute]|by vm_compute]|by vm_compute].
  - split; [split; [split; [constructor|by vm_compute]|by vm_compute]|by vm_compute].
Defined.
