(* ===== verification/NfpHeaders.v ===== *)
(** * The macros of the public headers

    [In]     IPv4 address predicates of include/api/nfp_in.h;
    [In6]    IPv6 address predicates of include/api/nfp_in6.h;
    [Ioctl]  the request encoding of include/api/nfp_ioctl.h;
    [Vlan]   the 802.1Q tag of include/api/nfp_if_vlan.h;
    [Cmsg]   alignment and walking of ancillary data, include/api/nfp_socket.h.

    Each predicate is characterised by what it is for: address ranges, byte
    patterns, fields that are read back as they were written. *)

From S2P Require Import Prelude.

(** ** Masks *)

(** Masking with the [w - k] high bits. *)
Lemma land_himask w k x :
  0 ≤ k ≤ w → in_uint w x → Z.land x (2 ^ w - 2 ^ k) = 2 ^ k * (x / 2 ^ k).
Proof.
  intros Hk Hx.
  assert (Hm : 2 ^ w - 2 ^ k = Z.ldiff (Z.ones w) (Z.ones k)).
  { rewrite Z.ldiff_ones_r by lia. rewrite Z.shiftr_div_pow2, Z.shiftl_mul_pow2 by lia.
    rewrite Z.ones_div_pow2, Z.ones_equiv by lia.
    replace w with ((w - k) + k) at 1 by lia. rewrite Z.pow_add_r by lia.
    unfold Z.pred. lia. }
  rewrite Hm.
  assert (Hl : Z.land x (Z.ldiff (Z.ones w) (Z.ones k)) = Z.ldiff (Z.land x (Z.ones w)) (Z.ones k)).
  { apply Z.bits_inj'. intros n Hn. rewrite ?Z.land_spec, ?Z.ldiff_spec, ?Z.land_spec.
    by rewrite andb_assoc. }
  rewrite Hl, Z.land_ones, Z.mod_small by (try lia; exact Hx).
  rewrite Z.ldiff_ones_r, Z.shiftr_div_pow2, Z.shiftl_mul_pow2 by lia. lia.
Qed.

(** A masked comparison is a range test. *)
Lemma mask_range k c m v x :
  0 ≤ k ≤ 32 → in_uint 32 x → m = 2 ^ 32 - 2 ^ k → v = c * 2 ^ k →
  (Z.land x m =? v) = true ↔ v ≤ x < v + 2 ^ k.
Proof.
  intros Hk Hx -> ->. rewrite land_himask by done. rewrite Z.eqb_eq.
  assert (0 < 2 ^ k) by (apply Z.pow_pos_nonneg; lia).
  rewrite (Z.mul_comm c). split.
  - intros Heq. apply Z.mul_reg_l in Heq; [|lia]. subst c.
    pose proof (Z.mul_div_le x (2 ^ k) ltac:(lia)).
    pose proof (Z.mul_succ_div_gt x (2 ^ k) ltac:(lia)). lia.
  - intros Hr. f_equal. symmetry. apply (Z.div_unique x (2 ^ k) c (x - 2 ^ k * c)); lia.
Qed.

(** Or-ing bits below [k] into a multiple of [2^k] adds them. *)
Lemma lor_low k a y : 0 ≤ k → 0 ≤ y < 2 ^ k → Z.lor (a * 2 ^ k) y = a * 2 ^ k + y.
Proof.
  intros Hk Hy. rewrite <- Z.add_lor_land.
  assert (Hl : Z.land (a * 2 ^ k) y = 0); [|lia].
  rewrite <- Z.shiftl_mul_pow2 by done. apply Z.bits_inj'. intros n Hn.
  rewrite Z.land_spec, Z.bits_0. destruct (Z.lt_ge_cases n k).
  - by rewrite Z.shiftl_spec_low.
  - rewrite <- (Z.mod_small y (2 ^ k)), Z.mod_pow2_bits_high, andb_false_r by lia. done.
Qed.

Lemma land_low k x : 0 ≤ k → Z.land x (2 ^ k - 1) = x mod 2 ^ k.
Proof. intros. rewrite <- Z.land_ones by done. by rewrite Z.ones_equiv. Qed.

(** Clearing the bits of [m] subtracts the ones that were set. *)
Lemma land_lnot_sub x m : Z.land x (Z.lnot m) = x - Z.land x m.
Proof.
  assert (Hs : Z.lor (Z.land x (Z.lnot m)) (Z.land x m) = x ∧
               Z.land (Z.land x (Z.lnot m)) (Z.land x m) = 0).
  { split; apply Z.bits_inj'; intros n Hn;
      rewrite ?Z.lor_spec, ?Z.land_spec, ?Z.lnot_spec, ?Z.bits_0 by lia;
      by destruct (Z.testbit x n), (Z.testbit m n). }
  pose proof (Z.add_lor_land (Z.land x (Z.lnot m)) (Z.land x m)). lia.
Qed.

(** ** IPv4 *)
Module In.

Definition NFP_INADDR_ANY : Z := 0.
Definition NFP_INADDR_BROADCAST : Z := 0xffffffff.
Definition NFP_INADDR_ALLHOSTS_GROUP : Z := 0xe0000001.
Definition NFP_INADDR_MAX_LOCAL_GROUP : Z := 0xe00000ff.

Definition NFP_IN_CLASSA (i : Z) : bool := Z.land (u32 i) 0x80000000 =? 0.
Definition NFP_IN_CLASSB (i : Z) : bool := Z.land (u32 i) 0xc0000000 =? 0x80000000.
Definition NFP_IN_CLASSC (i : Z) : bool := Z.land (u32 i) 0xe0000000 =? 0xc0000000.
Definition NFP_IN_CLASSD (i : Z) : bool := Z.land (u32 i) 0xf0000000 =? 0xe0000000.
Definition NFP_IN_MULTICAST (i : Z) : bool := NFP_IN_CLASSD i.
Definition NFP_IN_EXPERIMENTAL (i : Z) : bool := Z.land (u32 i) 0xf0000000 =? 0xf0000000.
Definition NFP_IN_BADCLASS (i : Z) : bool := Z.land (u32 i) 0xf0000000 =? 0xf0000000.
Definition NFP_IN_LINKLOCAL (i : Z) : bool := Z.land (u32 i) 0xffff0000 =? 0xa9fe0000.
Definition NFP_IN_LOOPBACK (i : Z) : bool := Z.land (u32 i) 0xff000000 =? 0x7f000000.
Definition NFP_IN_ZERONET (i : Z) : bool := Z.land (u32 i) 0xff000000 =? 0.
Definition NFP_IN_PRIVATE (i : Z) : bool :=
  (Z.land (u32 i) 0xff000000 =? 0x0a000000) ||
  (Z.land (u32 i) 0xfff00000 =? 0xac100000) ||
  (Z.land (u32 i) 0xffff0000 =? 0xc0a80000).
Definition NFP_IN_LOCAL_GROUP (i : Z) : bool := Z.land (u32 i) 0xffffff00 =? 0xe0000000.
Definition NFP_IN_LBROADCAST (i : Z) : bool := u32 i =? NFP_INADDR_BROADCAST.

(** [nfp_in_hosteq] and [nfp_in_nullhost] on the [s_addr] fields. *)
Definition nfp_in_hosteq (s t : Z) : bool := s =? t.
Definition nfp_in_nullhost (x : Z) : bool := x =? NFP_INADDR_ANY.

(** The address a.b.c.d as the host-order integer the macros take. *)
Definition dotted (a b c d : Z) : Z := ((a * 256 + b) * 256 + c) * 256 + d.

Section Ranges.
Context (i : Z) (Hi : in_uint 32 i).

Ltac range k c :=
  rewrite wrap_small by done; rewrite (mask_range k c) by (done || reflexivity || lia);
  reflexivity || (unfold in_uint in *; lia).

Lemma classa_range : NFP_IN_CLASSA i = true ↔ 0 ≤ i < 0x80000000.
Proof using Hi. unfold NFP_IN_CLASSA. range 31 0. Qed.
Lemma classb_range : NFP_IN_CLASSB i = true ↔ 0x80000000 ≤ i < 0xc0000000.
Proof using Hi. unfold NFP_IN_CLASSB. range 30 2. Qed.
Lemma classc_range : NFP_IN_CLASSC i = true ↔ 0xc0000000 ≤ i < 0xe0000000.
Proof using Hi. unfold NFP_IN_CLASSC. range 29 6. Qed.
Lemma classd_range : NFP_IN_CLASSD i = true ↔ 0xe0000000 ≤ i < 0xf0000000.
Proof using Hi. unfold NFP_IN_CLASSD. range 28 14. Qed.
Lemma experimental_range : NFP_IN_EXPERIMENTAL i = true ↔ 0xf0000000 ≤ i.
Proof using Hi. unfold NFP_IN_EXPERIMENTAL. range 28 15. Qed.
Lemma linklocal_range : NFP_IN_LINKLOCAL i = true ↔ 0xa9fe0000 ≤ i < 0xa9ff0000.
Proof using Hi. unfold NFP_IN_LINKLOCAL. range 16 0xa9fe. Qed.
Lemma loopback_range : NFP_IN_LOOPBACK i = true ↔ 0x7f000000 ≤ i < 0x80000000.
Proof using Hi. unfold NFP_IN_LOOPBACK. range 24 0x7f. Qed.
Lemma zeronet_range : NFP_IN_ZERONET i = true ↔ 0 ≤ i < 0x01000000.
Proof using Hi. unfold NFP_IN_ZERONET. range 24 0. Qed.
Lemma local_group_range : NFP_IN_LOCAL_GROUP i = true ↔ 0xe0000000 ≤ i < 0xe0000100.
Proof using Hi. unfold NFP_IN_LOCAL_GROUP. range 8 0xe00000. Qed.
Lemma private_range :
  NFP_IN_PRIVATE i = true ↔
    0x0a000000 ≤ i < 0x0b000000 ∨ 0xac100000 ≤ i < 0xac200000 ∨ 0xc0a80000 ≤ i < 0xc0a90000.
Proof using Hi.
  unfold NFP_IN_PRIVATE. rewrite wrap_small, !orb_true_iff by done.
  rewrite (mask_range 24 0x0a), (mask_range 20 0xac1), (mask_range 16 0xc0a8)
    by (done || reflexivity || lia).
  change (2 ^ 24) with 16777216. change (2 ^ 20) with 1048576. change (2 ^ 16) with 65536. lia.
Qed.
End Ranges.

Definition b2z (b : bool) : Z := if b then 1 else 0.

Lemma b2z_iff b (P : Prop) : (b = true ↔ P) → (P ∧ b2z b = 1) ∨ (¬ P ∧ b2z b = 0).
Proof. intros HP. destruct b; [left|right]; split; try done; try (by apply HP).
  intros ?%HP. done. Qed.

(** The IPv4 class macros split the 32-bit address space: every address is
    in exactly one of the classes A, B, C, D and experimental; the special
    ranges (0/8, 127/8, 169.254/16, the three private blocks, 224.0.0/24 and
    255.255.255.255) are the documented intervals, pairwise disjoint, and each
    lies in the class it should. *)
Theorem in4_address_classes i :
  in_uint 32 i →
  b2z (NFP_IN_CLASSA i) + b2z (NFP_IN_CLASSB i) + b2z (NFP_IN_CLASSC i) +
    b2z (NFP_IN_CLASSD i) + b2z (NFP_IN_EXPERIMENTAL i) = 1 ∧
  b2z (NFP_IN_ZERONET i) + b2z (NFP_IN_LOOPBACK i) + b2z (NFP_IN_LINKLOCAL i) +
    b2z (NFP_IN_PRIVATE i) + b2z (NFP_IN_LOCAL_GROUP i) + b2z (NFP_IN_LBROADCAST i) ≤ 1 ∧
  (NFP_IN_LOOPBACK i = true ↔ dotted 127 0 0 0 ≤ i ≤ dotted 127 255 255 255) ∧
  (NFP_IN_LINKLOCAL i = true ↔ dotted 169 254 0 0 ≤ i ≤ dotted 169 254 255 255) ∧
  (NFP_IN_PRIVATE i = true ↔
     dotted 10 0 0 0 ≤ i ≤ dotted 10 255 255 255 ∨
     dotted 172 16 0 0 ≤ i ≤ dotted 172 31 255 255 ∨
     dotted 192 168 0 0 ≤ i ≤ dotted 192 168 255 255) ∧
  (NFP_IN_MULTICAST i = true ↔ dotted 224 0 0 0 ≤ i ≤ dotted 239 255 255 255) ∧
  (NFP_IN_LOCAL_GROUP i = true → NFP_IN_MULTICAST i = true ∧ i ≤ NFP_INADDR_MAX_LOCAL_GROUP) ∧
  (NFP_IN_LBROADCAST i = true → NFP_IN_BADCLASS i = true).
Proof.
  intros Hi. unfold NFP_IN_MULTICAST. change NFP_IN_BADCLASS with NFP_IN_EXPERIMENTAL.
  assert (Hb : NFP_IN_LBROADCAST i = true ↔ i = 0xffffffff).
  { unfold NFP_IN_LBROADCAST. rewrite wrap_small, Z.eqb_eq by done. done. }
  pose proof (classa_range i Hi) as HA. pose proof (classb_range i Hi) as HB.
  pose proof (classc_range i Hi) as HC. pose proof (classd_range i Hi) as HD.
  pose proof (experimental_range i Hi) as HE. pose proof (linklocal_range i Hi) as HL.
  pose proof (loopback_range i Hi) as HO. pose proof (zeronet_range i Hi) as HZ.
  pose proof (local_group_range i Hi) as HG. pose proof (private_range i Hi) as HP.
  assert (0 ≤ i < 4294967296) as Hi' by exact Hi.
  change (dotted 127 0 0 0) with 0x7f000000. change (dotted 127 255 255 255) with 0x7fffffff.
  change (dotted 169 254 0 0) with 0xa9fe0000. change (dotted 169 254 255 255) with 0xa9feffff.
  change (dotted 10 0 0 0) with 0x0a000000. change (dotted 10 255 255 255) with 0x0affffff.
  change (dotted 172 16 0 0) with 0xac100000. change (dotted 172 31 255 255) with 0xac1fffff.
  change (dotted 192 168 0 0) with 0xc0a80000. change (dotted 192 168 255 255) with 0xc0a8ffff.
  change (dotted 224 0 0 0) with 0xe0000000. change (dotted 239 255 255 255) with 0xefffffff.
  change NFP_INADDR_MAX_LOCAL_GROUP with 0xe00000ff.
  split_and!; try (rewrite ?HA, ?HB, ?HC, ?HD, ?HE, ?HL, ?HO, ?HZ, ?HG, ?HP, ?Hb; lia).
  - destruct (b2z_iff _ _ HA), (b2z_iff _ _ HB), (b2z_iff _ _ HC),
      (b2z_iff _ _ HD), (b2z_iff _ _ HE); lia.
  - destruct (b2z_iff _ _ HZ), (b2z_iff _ _ HO), (b2z_iff _ _ HL),
      (b2z_iff _ _ HP), (b2z_iff _ _ HG), (b2z_iff _ _ Hb); lia.
Qed.

Lemma in4_address_classes_witness :
  in_uint 32 (dotted 192 168 1 1) ∧ NFP_IN_PRIVATE (dotted 192 168 1 1) = true.
Proof.
  assert (Hi : in_uint 32 (dotted 192 168 1 1)) by (vm_compute; split; congruence).
  split; [exact Hi|]. apply (in4_address_classes _ Hi). vm_compute. right; right. split; congruence.
Defined.

End In.

(** ** IPv6

    An address is its 16 bytes in network order; a 32-bit view of it depends
    on the byte order of the machine. *)
Module In6.

(** How a machine of the given byte order reads four bytes as an integer. *)
Definition word32 (big_endian : bool) (a b c d : Z) : Z :=
  if big_endian then In.dotted a b c d else In.dotted d c b a.

(** The byte-order service of ODP.  [odp_be_to_cpu_32] converts a big-endian
    32-bit value to the machine's order: as the bytes of a big-endian value
    read on this machine. *)
Class OdpByteorder := {
  big_endian : bool;
  odp_be_to_cpu_32 : Z → Z;
  odp_be_to_cpu_32_bytes a b c d :
    in_uint 8 a → in_uint 8 b → in_uint 8 c → in_uint 8 d →
    odp_be_to_cpu_32 (In.dotted a b c d) = word32 big_endian a b c d;
}.

Lemma word32_inj e a b c d a' b' c' d' :
  in_uint 8 a → in_uint 8 b → in_uint 8 c → in_uint 8 d →
  in_uint 8 a' → in_uint 8 b' → in_uint 8 c' → in_uint 8 d' →
  word32 e a b c d = word32 e a' b' c' d' → a = a' ∧ b = b' ∧ c = c' ∧ d = d'.
Proof. unfold word32, In.dotted, in_uint. destruct e; lia. Qed.

Lemma word32_zero e : word32 e 0 0 0 0 = 0.
Proof. by destruct e. Qed.

Section Predicates.
Context `{OdpByteorder}.

(** [a->nfp_s6_addr[i]] and [a->nfp_s6_addr32[i]] *)
Definition nfp_s6_addr (a : bytes) (i : nat) : Z := a !!! i.
Definition nfp_s6_addr32 (a : bytes) (i : nat) : Z :=
  word32 big_endian (a !!! (4 * i)%nat) (a !!! (4 * i + 1)%nat)
         (a !!! (4 * i + 2)%nat) (a !!! (4 * i + 3)%nat).

Definition NFP_IN6_ARE_ADDR_EQUAL (a b : bytes) : bool := bool_decide (a = b).
Definition NFP_IN6_IS_ADDR_UNSPECIFIED (a : bytes) : bool :=
  (nfp_s6_addr32 a 0 =? 0) && (nfp_s6_addr32 a 1 =? 0) &&
  (nfp_s6_addr32 a 2 =? 0) && (nfp_s6_addr32 a 3 =? 0).
Definition NFP_IN6_IS_ADDR_LOOPBACK (a : bytes) : bool :=
  (nfp_s6_addr32 a 0 =? 0) && (nfp_s6_addr32 a 1 =? 0) &&
  (nfp_s6_addr32 a 2 =? 0) && (nfp_s6_addr32 a 3 =? odp_be_to_cpu_32 1).
Definition NFP_IN6_IS_ADDR_V4COMPAT (a : bytes) : bool :=
  (nfp_s6_addr32 a 0 =? 0) && (nfp_s6_addr32 a 1 =? 0) &&
  (nfp_s6_addr32 a 2 =? 0) && negb (nfp_s6_addr32 a 3 =? 0) &&
  negb (nfp_s6_addr32 a 3 =? odp_be_to_cpu_32 1).
Definition NFP_IN6_IS_ADDR_V4MAPPED (a : bytes) : bool :=
  (nfp_s6_addr a 0 =? 0) && (nfp_s6_addr a 4 =? 0) &&
  (nfp_s6_addr a 8 =? odp_be_to_cpu_32 0x0000ffff).

Definition NFP_IPV6_ADDR_SCOPE_NODELOCAL : Z := 0x01.
Definition NFP_IPV6_ADDR_SCOPE_INTFACELOCAL : Z := 0x01.
Definition NFP_IPV6_ADDR_SCOPE_LINKLOCAL : Z := 0x02.
Definition NFP_IPV6_ADDR_SCOPE_SITELOCAL : Z := 0x05.
Definition NFP_IPV6_ADDR_SCOPE_ORGLOCAL : Z := 0x08.

Definition NFP_IN6_IS_ADDR_LINKLOCAL (a : bytes) : bool :=
  (nfp_s6_addr a 0 =? 0xfe) && (Z.land (nfp_s6_addr a 1) 0xc0 =? 0x80).
Definition NFP_IN6_IS_ADDR_SITELOCAL (a : bytes) : bool :=
  (nfp_s6_addr a 0 =? 0xfe) && (Z.land (nfp_s6_addr a 1) 0xc0 =? 0xc0).
Definition NFP_IN6_IS_ADDR_MULTICAST (a : bytes) : bool := nfp_s6_addr a 0 =? 0xff.
Definition NFP_IPV6_ADDR_MC_SCOPE (a : bytes) : Z := Z.land (nfp_s6_addr a 1) 0x0f.
Definition NFP_IN6_IS_ADDR_MC_NODELOCAL (a : bytes) : bool :=
  NFP_IN6_IS_ADDR_MULTICAST a && (NFP_IPV6_ADDR_MC_SCOPE a =? NFP_IPV6_ADDR_SCOPE_NODELOCAL).
Definition NFP_IN6_IS_ADDR_MC_LINKLOCAL (a : bytes) : bool :=
  NFP_IN6_IS_ADDR_MULTICAST a && (NFP_IPV6_ADDR_MC_SCOPE a =? NFP_IPV6_ADDR_SCOPE_LINKLOCAL).
Definition NFP_IN6_IS_ADDR_MC_INTFACELOCAL (a : bytes) : bool :=
  NFP_IN6_IS_ADDR_MULTICAST a && (NFP_IPV6_ADDR_MC_SCOPE a =? NFP_IPV6_ADDR_SCOPE_INTFACELOCAL).
Definition NFP_IN6_IS_ADDR_MC_SITELOCAL (a : bytes) : bool :=
  NFP_IN6_IS_ADDR_MULTICAST a && (NFP_IPV6_ADDR_MC_SCOPE a =? NFP_IPV6_ADDR_SCOPE_SITELOCAL).
Definition NFP_IN6_IS_ADDR_MC_ORGLOCAL (a : bytes) : bool :=
  NFP_IN6_IS_ADDR_MULTICAST a && (NFP_IPV6_ADDR_MC_SCOPE a =? NFP_IPV6_ADDR_SCOPE_ORGLOCAL).
Definition NFP_IN6_IS_SCOPE_LINKLOCAL (a : bytes) : bool :=
  NFP_IN6_IS_ADDR_LINKLOCAL a || NFP_IN6_IS_ADDR_MC_LINKLOCAL a.

(** A well-formed address: sixteen bytes. *)
Definition addr_ok (a : bytes) : Prop := length a = 16%nat ∧ Forall (in_uint 8) a.

Lemma addr_byte a i : addr_ok a → (i < 16)%nat → in_uint 8 (a !!! i).
Proof using Type.
  intros [Hlen Hall] Hi. apply (Forall_lookup_total_1 _ _ _ Hall). lia.
Qed.

(** A 32-bit word is zero exactly when its four bytes are. *)
Lemma addr32_zero a i : addr_ok a → (i < 4)%nat →
  (nfp_s6_addr32 a i =? 0) = true ↔ ∀ j, (4 * i ≤ j < 4 * i + 4)%nat → a !!! j = 0.
Proof using Type.
  intros Ha Hi. unfold nfp_s6_addr32. rewrite Z.eqb_eq. split.
  - rewrite <- (word32_zero big_endian) at 1. intros Hw j Hj.
    apply word32_inj in Hw; try (by apply addr_byte; [|lia]); try (unfold in_uint; lia).
    destruct Hw as (? & ? & ? & ?).
    assert (j = 4 * i ∨ j = 4 * i + 1 ∨ j = 4 * i + 2 ∨ j = 4 * i + 3)%nat as Hjs by lia.
    by destruct Hjs as [->|[->|[->| ->]]].
  - intros Hz. rewrite !Hz by lia. apply word32_zero.
Qed.

Lemma addr32_one a : addr_ok a →
  (nfp_s6_addr32 a 3 =? odp_be_to_cpu_32 1) = true ↔
  a !!! 12%nat = 0 ∧ a !!! 13%nat = 0 ∧ a !!! 14%nat = 0 ∧ a !!! 15%nat = 1.
Proof using Type.
  intros Ha. unfold nfp_s6_addr32. rewrite Z.eqb_eq. change 1 with (In.dotted 0 0 0 1) at 1.
  rewrite odp_be_to_cpu_32_bytes by (unfold in_uint; lia). simpl. split.
  - intros Hw. apply word32_inj in Hw; try (by apply addr_byte; [|lia]); unfold in_uint; lia.
  - by intros (-> & -> & -> & ->).
Qed.

(** The two high bits of a byte. *)
Lemma byte_hi2 b c : in_uint 8 b → 0 ≤ c < 4 →
  (Z.land b 0xc0 =? c * 64) = true ↔ c * 64 ≤ b < c * 64 + 64.
Proof using Type.
  intros Hb Hc. rewrite Z.eqb_eq.
  assert (Hl : Z.land b 0xc0 = 64 * (b / 64)).
  { change 0xc0 with (Z.land 0xff (2 ^ 32 - 2 ^ 6)). rewrite Z.land_assoc.
    change 0xff with (Z.ones 8). rewrite Z.land_ones, Z.mod_small by (lia || exact Hb).
    apply (land_himask 32); [lia|]. unfold in_uint in *. lia. }
  rewrite Hl. unfold in_uint in Hb. pose proof (Z.div_mod b 64 ltac:(lia)).
  pose proof (Z.mod_pos_bound b 64 ltac:(lia)). lia.
Qed.
End Predicates.

(** The two byte orders of the machines ODP supports. *)
Definition swap32 (x : Z) : Z :=
  In.dotted (x mod 256) (x / 256 mod 256) (x / 65536 mod 256) (x / 16777216 mod 256).

Lemma swap32_dotted a b c d :
  in_uint 8 a → in_uint 8 b → in_uint 8 c → in_uint 8 d →
  swap32 (In.dotted a b c d) = In.dotted d c b a.
Proof.
  unfold swap32, In.dotted, in_uint. intros.
  replace ((((a * 256 + b) * 256 + c) * 256 + d) / 256) with ((a * 256 + b) * 256 + c)
    by (apply Z.div_unique with d; lia).
  replace ((((a * 256 + b) * 256 + c) * 256 + d) / 65536) with (a * 256 + b)
    by (apply Z.div_unique with (c * 256 + d); lia).
  replace ((((a * 256 + b) * 256 + c) * 256 + d) / 16777216) with a
    by (apply Z.div_unique with ((b * 256 + c) * 256 + d); lia).
  rewrite (Z.mod_small a) by lia.
  replace ((a * 256 + b) mod 256) with b by (apply (Zmod_unique _ _ a); lia).
  replace (((a * 256 + b) * 256 + c) mod 256) with c by (apply (Zmod_unique _ _ (a * 256 + b)); lia).
  replace ((((a * 256 + b) * 256 + c) * 256 + d) mod 256) with d
    by (apply (Zmod_unique _ _ ((a * 256 + b) * 256 + c)); lia).
  done.
Qed.

Definition odp_little : OdpByteorder :=
  {| big_endian := false; odp_be_to_cpu_32 := swap32;
     odp_be_to_cpu_32_bytes := swap32_dotted |}.

Definition odp_big : OdpByteorder :=
  {| big_endian := true; odp_be_to_cpu_32 := λ x, x;
     odp_be_to_cpu_32_bytes a b c d _ _ _ _ := eq_refl |}.

Lemma take_zeros n (l : list Z) : (n ≤ length l)%nat →
  take n l = replicate n 0 ↔ ∀ i, (i < n)%nat → l !!! i = 0.
Proof.
  revert l. induction n as [|n IH]; intros l Hl; [split; [lia|done]|].
  destruct l as [|x l]; simpl in *; [lia|]. split.
  - intros Heq [|i] Hi; injection Heq as -> Heq; [done|].
    apply (proj1 (IH l ltac:(lia)) Heq i). lia.
  - intros Hz. f_equal; [apply (Hz 0%nat); lia|].
    apply (proj2 (IH l ltac:(lia))). intros i Hi. apply (Hz (S i)). lia.
Qed.

Section Special.
Context `{OdpByteorder} (a : bytes) (Ha : addr_ok a).

Lemma addr_ext (b : bytes) :
  length b = 16%nat → (∀ i, (i < 16)%nat → a !!! i = b !!! i) → a = b.
Proof using Ha.
  intros Hb Heq. destruct Ha as [Hlen _]. apply list_eq_same_length with 16%nat; try done.
  intros i x y Hi Hx Hy. apply list_lookup_total_correct in Hx, Hy.
  rewrite <- Hx, <- Hy. by apply Heq.
Qed.

Lemma prefix_zero :
  (nfp_s6_addr32 a 0 =? 0) && (nfp_s6_addr32 a 1 =? 0) && (nfp_s6_addr32 a 2 =? 0) = true ↔
  ∀ i, (i < 12)%nat → a !!! i = 0.
Proof using Ha.
  rewrite !andb_true_iff, !addr32_zero by (done || lia). split.
  - intros [[H0 H1] H2] i Hi. destruct (decide (i < 4)%nat); [apply H0; lia|].
    destruct (decide (i < 8)%nat); [apply H1; lia|apply H2; lia].
  - intros Hz. split_and!; intros; apply Hz; lia.
Qed.

Lemma unspecified_iff : NFP_IN6_IS_ADDR_UNSPECIFIED a = true ↔ a = replicate 16 0.
Proof using Ha.
  unfold NFP_IN6_IS_ADDR_UNSPECIFIED. rewrite andb_true_iff, prefix_zero, addr32_zero by (done || lia).
  split.
  - intros [H1 H2]. apply addr_ext; [done|]. intros i Hi.
    rewrite lookup_total_replicate_2 by done.
    destruct (decide (i < 12)%nat); [by apply H1|apply H2; lia].
  - intros ->. split; intros; by apply lookup_total_replicate_2; lia.
Qed.

Lemma loopback_iff : NFP_IN6_IS_ADDR_LOOPBACK a = true ↔ a = replicate 15 0 ++ [1].
Proof using Ha.
  unfold NFP_IN6_IS_ADDR_LOOPBACK. rewrite andb_true_iff, prefix_zero, addr32_one by (done || lia).
  split.
  - intros (H1 & H12 & H13 & H14 & H15). apply addr_ext; [done|].
    intros i Hi. do 12 (destruct i as [|i]; [rewrite H1 by lia; done|]).
    by do 4 (destruct i as [|i]; [done|]); lia.
  - intros ->. split; [|done]. intros i Hi. by do 12 (destruct i as [|i]; [done|]); lia.
Qed.

Lemma v4compat_iff :
  NFP_IN6_IS_ADDR_V4COMPAT a = true ↔
  take 12 a = replicate 12 0 ∧ a ≠ replicate 16 0 ∧ a ≠ replicate 15 0 ++ [1].
Proof using Ha.
  unfold NFP_IN6_IS_ADDR_V4COMPAT. rewrite !(andb_true_iff _ (negb _)), !negb_true_iff.
  rewrite <- unspecified_iff, <- loopback_iff.
  unfold NFP_IN6_IS_ADDR_UNSPECIFIED, NFP_IN6_IS_ADDR_LOOPBACK.
  rewrite !(andb_true_iff _ (nfp_s6_addr32 a 3 =? _)), <- !not_true_iff_false.
  assert (Ht : take 12 a = replicate 12 0 ↔
    (nfp_s6_addr32 a 0 =? 0) && (nfp_s6_addr32 a 1 =? 0) && (nfp_s6_addr32 a 2 =? 0) = true).
  { rewrite prefix_zero. apply take_zeros. destruct Ha. lia. }
  rewrite Ht. tauto.
Qed.

Lemma v4mapped_never : NFP_IN6_IS_ADDR_V4MAPPED a = false.
Proof using Ha.
  unfold NFP_IN6_IS_ADDR_V4MAPPED, nfp_s6_addr.
  change 0x0000ffff with (In.dotted 0 0 255 255).
  rewrite odp_be_to_cpu_32_bytes by (unfold in_uint; lia).
  pose proof (addr_byte a 8 Ha ltac:(lia)) as Hb. unfold in_uint in Hb.
  destruct (Z.eqb_spec (a !!! 8%nat) (word32 big_endian 0 0 255 255)) as [Heq|];
    [|by rewrite andb_false_r].
  unfold word32, In.dotted in Heq. destruct big_endian; lia.
Qed.
End Special.

(** On either byte order the IPv6 predicates recognise the addresses they
    name: [::] and [::1] exactly, the IPv4-compatible block without those two,
    fe80::/10 and fec0::/10, ff00::/8 with its scope nibble; an address is at
    most one of unspecified, loopback, IPv4-compatible, link-local, site-local
    and multicast. *)
Theorem in6_special_addresses `{OdpByteorder} a :
  addr_ok a →
  (NFP_IN6_IS_ADDR_UNSPECIFIED a = true ↔ a = replicate 16 0) ∧
  (NFP_IN6_IS_ADDR_LOOPBACK a = true ↔ a = replicate 15 0 ++ [1]) ∧
  (NFP_IN6_IS_ADDR_V4COMPAT a = true ↔
     take 12 a = replicate 12 0 ∧ a ≠ replicate 16 0 ∧ a ≠ replicate 15 0 ++ [1]) ∧
  (NFP_IN6_IS_ADDR_LINKLOCAL a = true ↔ a !!! 0%nat = 0xfe ∧ 0x80 ≤ a !!! 1%nat < 0xc0) ∧
  (NFP_IN6_IS_ADDR_SITELOCAL a = true ↔ a !!! 0%nat = 0xfe ∧ 0xc0 ≤ a !!! 1%nat) ∧
  (NFP_IN6_IS_ADDR_MC_LINKLOCAL a = true ↔ a !!! 0%nat = 0xff ∧ a !!! 1%nat mod 16 = 2) ∧
  In.b2z (NFP_IN6_IS_ADDR_UNSPECIFIED a) + In.b2z (NFP_IN6_IS_ADDR_LOOPBACK a) +
    In.b2z (NFP_IN6_IS_ADDR_V4COMPAT a) + In.b2z (NFP_IN6_IS_ADDR_LINKLOCAL a) +
    In.b2z (NFP_IN6_IS_ADDR_SITELOCAL a) + In.b2z (NFP_IN6_IS_ADDR_MULTICAST a) ≤ 1.
Proof.
  intros Ha. pose proof (unspecified_iff a Ha) as HU. pose proof (loopback_iff a Ha) as HO.
  pose proof (v4compat_iff a Ha) as HV.
  pose proof (addr_byte a 1 Ha ltac:(lia)) as Hb1. unfold in_uint in Hb1.
  assert (HL : NFP_IN6_IS_ADDR_LINKLOCAL a = true ↔ a !!! 0%nat = 0xfe ∧ 0x80 ≤ a !!! 1%nat < 0xc0).
  { unfold NFP_IN6_IS_ADDR_LINKLOCAL, nfp_s6_addr. rewrite andb_true_iff, Z.eqb_eq.
    change 0x80 with (2 * 64) at 1. rewrite byte_hi2 by (unfold in_uint; lia). lia. }
  assert (HS : NFP_IN6_IS_ADDR_SITELOCAL a = true ↔ a !!! 0%nat = 0xfe ∧ 0xc0 ≤ a !!! 1%nat).
  { unfold NFP_IN6_IS_ADDR_SITELOCAL, nfp_s6_addr. rewrite andb_true_iff, Z.eqb_eq.
    change 0xc0 with (3 * 64) at 2. rewrite byte_hi2 by (unfold in_uint; lia). lia. }
  assert (HM : NFP_IN6_IS_ADDR_MULTICAST a = true ↔ a !!! 0%nat = 0xff).
  { unfold NFP_IN6_IS_ADDR_MULTICAST, nfp_s6_addr. by rewrite Z.eqb_eq. }
  assert (Hz : take 12 a = replicate 12 0 → a !!! 0%nat = 0).
  { intros Ht. apply (take_zeros 12); [destruct Ha; lia|done|lia]. }
  split_and!; try done.
  - unfold NFP_IN6_IS_ADDR_MC_LINKLOCAL, NFP_IPV6_ADDR_MC_SCOPE, nfp_s6_addr.
    rewrite andb_true_iff, HM, Z.eqb_eq. change 0x0f with (2 ^ 4 - 1).
    by rewrite land_low by lia.
  - assert (HU' : a = replicate 16 0 → a !!! 0%nat = 0 ∧ a ≠ replicate 15 0 ++ [1]) by (intros ->; done).
    assert (HO' : a = replicate 15 0 ++ [1] → a !!! 0%nat = 0) by (by intros ->).
    destruct (In.b2z_iff _ _ HU) as [[]|[]], (In.b2z_iff _ _ HO) as [[]|[]],
      (In.b2z_iff _ _ HV) as [[? ?]|[]], (In.b2z_iff _ _ HL) as [[]|[]],
      (In.b2z_iff _ _ HS) as [[]|[]], (In.b2z_iff _ _ HM) as [[]|[]]; lia || (exfalso; intuition lia).
Qed.

Lemma in6_special_addresses_witness :
  @NFP_IN6_IS_ADDR_LOOPBACK odp_little (replicate 15 0 ++ [1]) = true ∧
  @NFP_IN6_IS_ADDR_LOOPBACK odp_big (replicate 15 0 ++ [1]) = true.
Proof.
  assert (Ha : addr_ok (replicate 15 0 ++ [1])).
  { split; [done|]. apply Forall_app. split; [apply Forall_replicate|apply Forall_singleton];
      vm_compute; split; congruence. }
  split; [apply (@in6_special_addresses odp_little _ Ha)|apply (@in6_special_addresses odp_big _ Ha)]; done.
Defined.

(** [NFP_IN6_IS_ADDR_V4MAPPED] compares the single byte 8 of the address
    with a converted 32-bit constant, on neither byte order a byte: it holds of
    no address, the mapped ones ::ffff:a.b.c.d included. *)
Theorem in6_v4mapped_unsatisfiable `{OdpByteorder} a :
  addr_ok a → NFP_IN6_IS_ADDR_V4MAPPED a = false.
Proof. apply v4mapped_never. Qed.

Lemma in6_v4mapped_unsatisfiable_witness :
  let mapped := replicate 10 0 ++ [255; 255; 192; 168; 0; 1] in
  addr_ok mapped ∧ @NFP_IN6_IS_ADDR_V4MAPPED odp_little mapped = false.
Proof.
  assert (Ha : addr_ok (replicate 10 0 ++ [255; 255; 192; 168; 0; 1])).
  { split; [done|]. apply (bool_decide_unpack _). by vm_compute. }
  split; [exact Ha|]. apply (@in6_v4mapped_unsatisfiable odp_little _ Ha).
Defined.

End In6.

(** ** ioctl requests *)
Module Ioctl.

Definition NFP_IOCPARM_SHIFT : Z := 13.
Definition NFP_IOCPARM_MASK : Z := Z.shiftl 1 NFP_IOCPARM_SHIFT - 1.
Definition NFP_IOCPARM_LEN (x : Z) : Z := Z.land (Z.shiftr x 16) NFP_IOCPARM_MASK.
Definition NFP_IOCBASECMD (x : Z) : Z := Z.land x (Z.lnot (Z.shiftl NFP_IOCPARM_MASK 16)).
Definition NFP_IOCGROUP (x : Z) : Z := Z.land (Z.shiftr x 8) 0xff.
Definition NFP_IOCPARM_MAX : Z := Z.shiftl 1 NFP_IOCPARM_SHIFT.

Definition NFP_IOC_VOID : Z := 0x20000000.
Definition NFP_IOC_OUT : Z := 0x40000000.
Definition NFP_IOC_IN : Z := 0x80000000.
Definition NFP_IOC_INOUT : Z := Z.lor NFP_IOC_IN NFP_IOC_OUT.
Definition NFP_IOC_DIRMASK : Z := Z.lor (Z.lor NFP_IOC_VOID NFP_IOC_OUT) NFP_IOC_IN.

Definition _NFP_IOC (inout group num len : Z) : Z :=
  u64 (Z.lor (Z.lor (Z.lor inout (Z.shiftl (Z.land len NFP_IOCPARM_MASK) 16))
                    (Z.shiftl group 8)) num).

(** The parameter types whose size a request carries. *)
Inductive ioc_type :=
| Tint | Trtentry | Tifreq | Tifconf | Tifaliasreq | Tif_laddrreq
| Tif_clonereq | Tifgroupreq | Tin_tunreq.

Section Requests.
(** [sizeof] is the compiler's. *)
Context (sizeof : ioc_type → Z).

Definition _NFP_IO (g n : Z) : Z := _NFP_IOC NFP_IOC_VOID g n 0.
Definition _NFP_IOWINT (g n : Z) : Z := _NFP_IOC NFP_IOC_VOID g n (sizeof Tint).
Definition _NFP_IOR (g n : Z) (t : ioc_type) : Z := _NFP_IOC NFP_IOC_OUT g n (sizeof t).
Definition _NFP_IOW (g n : Z) (t : ioc_type) : Z := _NFP_IOC NFP_IOC_IN g n (sizeof t).
Definition _NFP_IOWR (g n : Z) (t : ioc_type) : Z := _NFP_IOC NFP_IOC_INOUT g n (sizeof t).

(** 'f', 's', 'r' and 'i' *)
Definition grp_f : Z := 102.
Definition grp_s : Z := 115.
Definition grp_r : Z := 114.
Definition grp_i : Z := 105.

Definition NFP_FIONREAD := _NFP_IOR grp_f 127 Tint.
Definition NFP_FIONBIO := _NFP_IOW grp_f 126 Tint.
Definition NFP_FIOASYNC := _NFP_IOW grp_f 125 Tint.
Definition NFP_FIONWRITE := _NFP_IOR grp_f 119 Tint.
Definition NFP_FIONSPACE := _NFP_IOR grp_f 118 Tint.
Definition NFP_SIOCATMARK := _NFP_IOR grp_s 7 Tint.
Definition NFP_SIOCADDRT := _NFP_IOW grp_r 10 Trtentry.
Definition NFP_SIOCDELRT := _NFP_IOW grp_r 11 Trtentry.
Definition NFP_SIOCSIFADDR := _NFP_IOW grp_i 12 Tifreq.
Definition NFP_SIOCGIFADDR := _NFP_IOWR grp_i 33 Tifreq.
Definition NFP_SIOCSIFDSTADDR := _NFP_IOW grp_i 14 Tifreq.
Definition NFP_SIOCGIFDSTADDR := _NFP_IOWR grp_i 34 Tifreq.
Definition NFP_OSIOCGIFBRDADDR := _NFP_IOWR grp_i 18 Tifreq.
Definition NFP_SIOCGIFBRDADDR := _NFP_IOWR grp_i 35 Tifreq.
Definition NFP_SIOCSIFBRDADDR := _NFP_IOW grp_i 19 Tifreq.
Definition NFP_OSIOCGIFCONF := _NFP_IOWR grp_i 20 Tifconf.
Definition NFP_SIOCGIFCONF := _NFP_IOWR grp_i 36 Tifconf.
Definition NFP_SIOCGIFNETMASK := _NFP_IOWR grp_i 37 Tifreq.
Definition NFP_SIOCSIFNETMASK := _NFP_IOW grp_i 22 Tifreq.
Definition NFP_SIOCDIFADDR := _NFP_IOW grp_i 25 Tifreq.
Definition NFP_SIOCAIFADDR := _NFP_IOW grp_i 26 Tifaliasreq.
Definition NFP_SIOCALIFADDR := _NFP_IOW grp_i 27 Tif_laddrreq.
Definition NFP_SIOCGLIFADDR := _NFP_IOWR grp_i 28 Tif_laddrreq.
Definition NFP_SIOCDLIFADDR := _NFP_IOW grp_i 29 Tif_laddrreq.
Definition NFP_SIOCGIFFIB := _NFP_IOWR grp_i 92 Tifreq.
Definition NFP_SIOCSIFFIB := _NFP_IOW grp_i 93 Tifreq.
Definition NFP_SIOCGIFVRF := NFP_SIOCGIFFIB.
Definition NFP_SIOCSIFVRF := NFP_SIOCSIFFIB.
Definition NFP_SIOCIFCREATE := _NFP_IOWR grp_i 122 Tifreq.
Definition NFP_SIOCIFCREATE2 := _NFP_IOWR grp_i 124 Tifreq.
Definition NFP_SIOCIFDESTROY := _NFP_IOW grp_i 121 Tifreq.
Definition NFP_SIOCIFGCLONERS := _NFP_IOWR grp_i 120 Tif_clonereq.
Definition NFP_SIOCGIFGMEMB := _NFP_IOWR grp_i 138 Tifgroupreq.
Definition NFP_SIOCSIFTUN := _NFP_IOW grp_i 139 Tin_tunreq.
Definition NFP_SIOCGIFTUN := _NFP_IOWR grp_i 140 Tin_tunreq.

(** Every request of the header but the two aliases. *)
Definition requests : list Z :=
  [NFP_FIONREAD; NFP_FIONBIO; NFP_FIOASYNC; NFP_FIONWRITE; NFP_FIONSPACE; NFP_SIOCATMARK;
   NFP_SIOCADDRT; NFP_SIOCDELRT; NFP_SIOCSIFADDR; NFP_SIOCGIFADDR; NFP_SIOCSIFDSTADDR;
   NFP_SIOCGIFDSTADDR; NFP_OSIOCGIFBRDADDR; NFP_SIOCGIFBRDADDR; NFP_SIOCSIFBRDADDR;
   NFP_OSIOCGIFCONF; NFP_SIOCGIFCONF; NFP_SIOCGIFNETMASK; NFP_SIOCSIFNETMASK; NFP_SIOCDIFADDR;
   NFP_SIOCAIFADDR; NFP_SIOCALIFADDR; NFP_SIOCGLIFADDR; NFP_SIOCDLIFADDR; NFP_SIOCGIFFIB;
   NFP_SIOCSIFFIB; NFP_SIOCIFCREATE; NFP_SIOCIFCREATE2; NFP_SIOCIFDESTROY; NFP_SIOCIFGCLONERS;
   NFP_SIOCGIFGMEMB; NFP_SIOCSIFTUN; NFP_SIOCGIFTUN].
End Requests.

(** The four directions a request can have. *)
Definition dir_ok (d : Z) : Prop :=
  d = NFP_IOC_VOID ∨ d = NFP_IOC_OUT ∨ d = NFP_IOC_IN ∨ d = NFP_IOC_INOUT.

(** The four fields sit side by side. *)
Lemma ioc_sum d g n l :
  dir_ok d → in_uint 8 g → in_uint 8 n → 0 ≤ l < NFP_IOCPARM_MAX →
  _NFP_IOC d g n l = ((d / 2 ^ 29 * 2 ^ 13 + l) * 2 ^ 8 + g) * 2 ^ 8 + n
  ∧ d = d / 2 ^ 29 * 2 ^ 29 ∧ 0 < d / 2 ^ 29 < 8.
Proof.
  intros Hd Hg Hn Hl. change NFP_IOCPARM_MAX with 8192 in Hl. unfold in_uint in *.
  assert (Hd' : d = d / 2 ^ 29 * 2 ^ 29 ∧ 0 < d / 2 ^ 29 < 8).
  { destruct Hd as [->|[->|[->| ->]]]; vm_compute; auto. }
  split; [|done]. destruct Hd' as [Hd1 Hd2]. set (q := d / 2 ^ 29) in *. clearbody q. subst d.
  unfold _NFP_IOC. change NFP_IOCPARM_MASK with (2 ^ 13 - 1).
  rewrite land_low, (Z.mod_small l) by lia. rewrite !Z.shiftl_mul_pow2 by lia.
  rewrite (lor_low 29 q) by lia.
  replace (q * 2 ^ 29 + l * 2 ^ 16) with ((q * 2 ^ 13 + l) * 2 ^ 16) by lia.
  rewrite (lor_low 16) by lia.
  replace ((q * 2 ^ 13 + l) * 2 ^ 16 + g * 2 ^ 8) with (((q * 2 ^ 13 + l) * 2 ^ 8 + g) * 2 ^ 8) by lia.
  rewrite (lor_low 8) by lia. apply wrap_small. unfold in_uint. lia.
Qed.

(** What the decoding macros read back. *)
Lemma ioc_decode d g n l :
  dir_ok d → in_uint 8 g → in_uint 8 n → 0 ≤ l < NFP_IOCPARM_MAX →
  let x := _NFP_IOC d g n l in
  NFP_IOCPARM_LEN x = l ∧ NFP_IOCGROUP x = g ∧ Z.land x 0xff = n ∧
  Z.land x NFP_IOC_DIRMASK = d ∧ Z.land x 0xffff = g * 256 + n ∧
  NFP_IOCBASECMD x = _NFP_IOC d g n 0 ∧ in_uint 32 x.
Proof.
  intros Hd Hg Hn Hl x. subst x. destruct (ioc_sum d g n l) as (-> & Hd1 & Hd2); try done.
  destruct (ioc_sum d g n 0) as (-> & _ & _); try done.
  set (q := d / 2 ^ 29) in *. clearbody q. subst d. change NFP_IOCPARM_MAX with 8192 in Hl.
  unfold in_uint, NFP_IOCPARM_LEN, NFP_IOCGROUP, NFP_IOCBASECMD in *.
  set (x := ((q * 2 ^ 13 + l) * 2 ^ 8 + g) * 2 ^ 8 + n).
  assert (Hx : 0 ≤ x < 2 ^ 32) by lia.
  rewrite !Z.shiftr_div_pow2 by lia. change NFP_IOCPARM_MASK with (2 ^ 13 - 1).
  change 0xff with (2 ^ 8 - 1) at 1 2. change 0xffff with (2 ^ 16 - 1) at 1. rewrite !land_low by lia.
  assert (Hq16 : x / 2 ^ 16 = q * 2 ^ 13 + l)
    by (symmetry; apply Z.div_unique with (g * 2 ^ 8 + n); lia).
  assert (Hq8 : x / 2 ^ 8 = (q * 2 ^ 13 + l) * 2 ^ 8 + g)
    by (symmetry; apply Z.div_unique with n; lia).
  rewrite Hq16, Hq8. split_and!; try lia.
  - symmetry. apply Zmod_unique with q; lia.
  - symmetry. apply Zmod_unique with (q * 2 ^ 13 + l); lia.
  - symmetry. apply Zmod_unique with ((q * 2 ^ 13 + l) * 2 ^ 8 + g); lia.
  - change NFP_IOC_DIRMASK with (2 ^ 32 - 2 ^ 29). rewrite land_himask by (done || lia).
    replace (x / 2 ^ 29) with q
      by (apply Z.div_unique with ((l * 2 ^ 8 + g) * 2 ^ 8 + n); lia). lia.
  - symmetry. apply Zmod_unique with (q * 2 ^ 13 + l); lia.
  - rewrite land_lnot_sub.
    replace (Z.land x (Z.shiftl (2 ^ 13 - 1) 16)) with (Z.shiftl (Z.land (Z.shiftr x 16) (2 ^ 13 - 1)) 16).
    + rewrite land_low, Z.shiftr_div_pow2, Hq16, Z.shiftl_mul_pow2 by lia.
      replace ((q * 2 ^ 13 + l) mod 2 ^ 13) with l by (apply Zmod_unique with q; lia). lia.
    + apply Z.bits_inj'. intros i Hi. rewrite Z.land_spec. destruct (Z.lt_ge_cases i 16).
      * by rewrite !Z.shiftl_spec_low, andb_false_r.
      * rewrite !Z.shiftl_spec, Z.land_spec, Z.shiftr_spec by lia. do 2 f_equal. lia.
Qed.

(** [C40] Encoding an ioctl request and decoding it give back the direction,
    group, number and parameter length, whatever the parameter's size below
    [NFP_IOCPARM_MAX]; clearing the length field leaves the same request with
    no parameter; so no two requests of the header share a code. *)
Theorem ioctl_requests_decode (sizeof : ioc_type → Z) :
  (∀ t, 0 ≤ sizeof t < NFP_IOCPARM_MAX) →
  (∀ d g n t, dir_ok d → in_uint 8 g → in_uint 8 n →
     let x := _NFP_IOC d g n (sizeof t) in
     NFP_IOCPARM_LEN x = sizeof t ∧ NFP_IOCGROUP x = g ∧ Z.land x 0xff = n ∧
     Z.land x NFP_IOC_DIRMASK = d ∧ NFP_IOCBASECMD x = _NFP_IOC d g n 0 ∧ in_uint 32 x)
  ∧ NoDup (requests sizeof).
Proof.
  intros Hs. split.
  { intros d g n t Hd Hg Hn. pose proof (ioc_decode d g n _ Hd Hg Hn (Hs t)). naive_solver. }
  apply (NoDup_fmap_1 (λ x, Z.land x 0xffff)).
  assert (Hc : ∀ d g n t, dir_ok d → in_uint 8 g → in_uint 8 n →
                 Z.land (_NFP_IOC d g n (sizeof t)) 0xffff = g * 256 + n).
  { intros d g n t Hd Hg Hn. pose proof (ioc_decode d g n _ Hd Hg Hn (Hs t)). naive_solver. }
  cbv [requests _NFP_IOR _NFP_IOW _NFP_IOWR NFP_FIONREAD NFP_FIONBIO NFP_FIOASYNC
    NFP_FIONWRITE NFP_FIONSPACE NFP_SIOCATMARK NFP_SIOCADDRT NFP_SIOCDELRT NFP_SIOCSIFADDR
    NFP_SIOCGIFADDR NFP_SIOCSIFDSTADDR NFP_SIOCGIFDSTADDR NFP_OSIOCGIFBRDADDR
    NFP_SIOCGIFBRDADDR NFP_SIOCSIFBRDADDR NFP_OSIOCGIFCONF NFP_SIOCGIFCONF
    NFP_SIOCGIFNETMASK NFP_SIOCSIFNETMASK NFP_SIOCDIFADDR NFP_SIOCAIFADDR NFP_SIOCALIFADDR
    NFP_SIOCGLIFADDR NFP_SIOCDLIFADDR NFP_SIOCGIFFIB NFP_SIOCSIFFIB NFP_SIOCIFCREATE
    NFP_SIOCIFCREATE2 NFP_SIOCIFDESTROY NFP_SIOCIFGCLONERS NFP_SIOCGIFGMEMB NFP_SIOCSIFTUN
    NFP_SIOCGIFTUN].
  cbn [fmap list_fmap].
  assert (Hio : dir_ok NFP_IOC_OUT ∧ dir_ok NFP_IOC_IN ∧ dir_ok NFP_IOC_INOUT)
    by (unfold dir_ok; auto 10).
  destruct Hio as (? & ? & ?).
  repeat (rewrite Hc; [|assumption|by vm_compute|by vm_compute]).
  apply (bool_decide_unpack _). by vm_compute.
Qed.

Lemma ioctl_requests_decode_witness :
  NoDup (requests (λ t, match t with Tint => 4 | Tifconf => 16 | _ => 64 end)).
Proof. apply (ioctl_requests_decode (λ t, match t with Tint => 4 | Tifconf => 16 | _ => 64 end)).
  intros []; vm_compute; split; congruence. Defined.

End Ioctl.

(** ** VLAN tags *)
Module Vlan.

Definition NFP_EVL_VLID_MASK : Z := 0x0FFF.
Definition NFP_EVL_VLANOFTAG (tag : Z) : Z := Z.land tag NFP_EVL_VLID_MASK.
Definition NFP_EVL_PRIOFTAG (tag : Z) : Z := Z.land (Z.shiftr tag 13) 7.
Definition NFP_EVL_CFIOFTAG (tag : Z) : Z := Z.land (Z.shiftr tag 12) 1.
Definition NFP_EVL_MAKETAG (vlid pri cfi : Z) : Z :=
  Z.lor (Z.shiftl (Z.lor (Z.shiftl (Z.land pri 7) 1) (Z.land cfi 1)) 12)
        (Z.land vlid NFP_EVL_VLID_MASK).

Lemma maketag_sum vlid pri cfi :
  NFP_EVL_MAKETAG vlid pri cfi =
    (pri mod 8 * 2 + cfi mod 2) * 4096 + vlid mod 4096.
Proof.
  unfold NFP_EVL_MAKETAG. change NFP_EVL_VLID_MASK with (2 ^ 12 - 1).
  pose proof (land_low 3 pri ltac:(lia)) as Hp. pose proof (land_low 1 cfi ltac:(lia)) as Hc.
  pose proof (land_low 12 vlid ltac:(lia)) as Hv. change (2 ^ 3 - 1) with 7 in Hp.
  change (2 ^ 1 - 1) with 1 in Hc. rewrite Hp, Hc, Hv.
  rewrite !Z.shiftl_mul_pow2 by lia.
  rewrite (lor_low 1), (lor_low 12) by (lia || (apply Z.mod_pos_bound; lia)). done.
Qed.

(** A VLAN tag built from an identifier, a priority and a CFI bit in range
    fits 16 bits and gives them back; and every 16-bit tag is rebuilt from its
    fields. *)
Theorem vlan_tag_roundtrip :
  (∀ vlid pri cfi, in_uint 12 vlid → in_uint 3 pri → in_uint 1 cfi →
     let tag := NFP_EVL_MAKETAG vlid pri cfi in
     in_uint 16 tag ∧ NFP_EVL_VLANOFTAG tag = vlid ∧
     NFP_EVL_PRIOFTAG tag = pri ∧ NFP_EVL_CFIOFTAG tag = cfi) ∧
  (∀ tag, in_uint 16 tag →
     NFP_EVL_MAKETAG (NFP_EVL_VLANOFTAG tag) (NFP_EVL_PRIOFTAG tag) (NFP_EVL_CFIOFTAG tag) = tag).
Proof.
  assert (Hv : ∀ t, NFP_EVL_VLANOFTAG t = t mod 4096) by (intros; apply (land_low 12); lia).
  assert (Hp : ∀ t, NFP_EVL_PRIOFTAG t = t / 8192 mod 8).
  { intros. unfold NFP_EVL_PRIOFTAG. rewrite Z.shiftr_div_pow2 by lia. apply (land_low 3). lia. }
  assert (Hc : ∀ t, NFP_EVL_CFIOFTAG t = t / 4096 mod 2).
  { intros. unfold NFP_EVL_CFIOFTAG. rewrite Z.shiftr_div_pow2 by lia. apply (land_low 1). lia. }
  unfold in_uint. change (2 ^ 12) with 4096. change (2 ^ 3) with 8. change (2 ^ 1) with 2.
  change (2 ^ 16) with 65536. split.
  - intros v p c Hv1 Hp1 Hc1. rewrite Hv, Hp, Hc, maketag_sum.
    rewrite (Z.mod_small p), (Z.mod_small c), (Z.mod_small v) by lia.
    Z.to_euclidean_division_equations. lia.
  - intros tag Ht. rewrite maketag_sum, Hv, Hp, Hc.
    Z.to_euclidean_division_equations. lia.
Qed.

End Vlan.

(** ** Ancillary data *)
Module Cmsg.

(** On the 64-bit targets [register_t] has 8 bytes and [uintptr_t] 64 bits; a
    [struct nfp_cmsghdr] is three 32-bit fields. *)
Definition sizeof_register_t : Z := 8.
Definition sizeof_cmsghdr : Z := 12.

Definition _ALIGNBYTES : Z := sizeof_register_t - 1.
Definition _ALIGN (p : Z) : Z := Z.land (u64 (u64 p + _ALIGNBYTES)) (u64 (Z.lnot _ALIGNBYTES)).

(** The two fields the macros read; [msg_controllen] is a [nfp_socklen_t], that is
    a [uint32_t]. *)
Record msghdr := Msghdr { msg_control : Z; msg_controllen : Z }.

(** Pointers are 64-bit addresses, NULL is 0. *)
Definition NFP_CMSG_DATA (cmsg : Z) : Z := u64 (cmsg + _ALIGN sizeof_cmsghdr).
Definition NFP_CMSG_SPACE (l : Z) : Z := u64 (_ALIGN sizeof_cmsghdr + _ALIGN l).
Definition NFP_CMSG_LEN (l : Z) : Z := u64 (_ALIGN sizeof_cmsghdr + l).
Definition NFP_CMSG_FIRSTHDR (mhdr : msghdr) : Z :=
  if sizeof_cmsghdr <=? msg_controllen mhdr then msg_control mhdr else 0.

(** [lens] holds the [cmsg_len] field of the headers in memory, a [uint32_t]
    each; reading one that is not there is undefined. *)
Definition NFP_CMSG_NXTHDR (lens : gmap Z Z) (mhdr : msghdr) (cmsg : Z) : option Z :=
  if cmsg =? 0 then Some (NFP_CMSG_FIRSTHDR mhdr)
  else
    cmsg_len ← lens !! cmsg;
    Some (if u64 (msg_control mhdr + msg_controllen mhdr) <?
             u64 (u64 (cmsg + _ALIGN cmsg_len) + _ALIGN sizeof_cmsghdr)
          then 0 else u64 (cmsg + _ALIGN cmsg_len)).

(** [for (c = NFP_CMSG_FIRSTHDR(&m); c != NULL; c = NFP_CMSG_NXTHDR(&m, c))] *)
Fixpoint walk (fuel : nat) (lens : gmap Z Z) (mhdr : msghdr) (c : Z) : option (list Z) :=
  if c =? 0 then Some []
  else match fuel with
       | O => None
       | S n => nx ← NFP_CMSG_NXTHDR lens mhdr c;
                rest ← walk n lens mhdr nx;
                Some (c :: rest)
       end.

(** Messages with data lengths [ls] laid out one after the other, as a sender
    does it: each takes [NFP_CMSG_SPACE], and [NFP_CMSG_LEN] is stored in its
    32-bit [cmsg_len]. *)
Fixpoint place (at_ : Z) (ls : list Z) : list (Z * Z) :=
  match ls with
  | [] => []
  | l :: r => (at_, u32 (NFP_CMSG_LEN l)) :: place (at_ + NFP_CMSG_SPACE l) r
  end.

Fixpoint space (ls : list Z) : Z :=
  match ls with [] => 0 | l :: r => NFP_CMSG_SPACE l + space r end.

(** The total is stored in the 32-bit [msg_controllen]. *)
Definition message (base : Z) (ls : list Z) : msghdr := Msghdr base (u32 (space ls)).

Lemma align_spec p : 0 ≤ p ≤ 2 ^ 64 - 8 → _ALIGN p = 8 * ((p + 7) / 8).
Proof.
  intros Hp. unfold _ALIGN. change (u64 (Z.lnot _ALIGNBYTES)) with (2 ^ 64 - 2 ^ 3).
  change _ALIGNBYTES with 7. rewrite (wrap_small 64 p), wrap_small by (unfold in_uint; lia).
  apply land_himask; unfold in_uint; lia.
Qed.

Lemma align_bounds p : 0 ≤ p ≤ 2 ^ 64 - 8 → p ≤ _ALIGN p < p + 8 ∧ _ALIGN p mod 8 = 0.
Proof. intros Hp. rewrite align_spec by done. Z.to_euclidean_division_equations. lia. Qed.

Lemma space_value l : 0 ≤ l < 2 ^ 32 → NFP_CMSG_SPACE l = 16 + _ALIGN l ∧ l ≤ _ALIGN l < l + 8.
Proof.
  intros Hl. destruct (align_bounds l ltac:(lia)) as [Hb _]. split; [|done]. unfold NFP_CMSG_SPACE.
  change (_ALIGN sizeof_cmsghdr) with 16. apply wrap_small. unfold in_uint. lia.
Qed.

(** The length a header records, rounded up, is the space it takes. *)
Lemma align_len l : 0 ≤ l < 2 ^ 32 - 16 → _ALIGN (u32 (NFP_CMSG_LEN l)) = NFP_CMSG_SPACE l.
Proof.
  intros Hl. destruct (space_value l ltac:(lia)) as [-> _]. unfold NFP_CMSG_LEN. change (_ALIGN sizeof_cmsghdr) with 16.
  rewrite (wrap_small 64), (wrap_small 32) by (unfold in_uint; lia).
  rewrite !align_spec by lia. Z.to_euclidean_division_equations. lia.
Qed.

Lemma space_pos l : 0 ≤ l < 2 ^ 32 → 16 + l ≤ NFP_CMSG_SPACE l.
Proof. intros Hl. destruct (space_value l Hl). lia. Qed.

Lemma space_nonneg ls : Forall (λ l, 0 ≤ l < 2 ^ 32) ls → 0 ≤ space ls.
Proof. induction 1 as [|l ls Hl _ IH]; simpl; [lia|]. pose proof (space_pos l Hl). lia. Qed.

Lemma place_above at_ ls c n : Forall (λ l, 0 ≤ l < 2 ^ 32) ls → (c, n) ∈ place at_ ls → at_ ≤ c.
Proof.
  intros Hls. revert at_. induction Hls as [|l ls Hl _ IH]; intros at_; simpl.
  - by intros ?%not_elem_of_nil.
  - rewrite elem_of_cons. intros [Heq|Hin%IH]; [naive_solver lia|].
    pose proof (space_pos l Hl). lia.
Qed.

Lemma place_NoDup at_ ls : Forall (λ l, 0 ≤ l < 2 ^ 32) ls → NoDup (place at_ ls).*1.
Proof.
  intros Hls. revert at_. induction Hls as [|l ls Hl Hls IH]; intros at_; simpl; [constructor|].
  constructor; [|apply IH]. rewrite list_elem_of_fmap. intros ([c n] & -> & Hin).
  apply place_above in Hin; [|done]. pose proof (space_pos l Hl). simpl in Hin. lia.
Qed.

Lemma walk_place lens mhdr ls at_ :
  Forall (λ l, 0 ≤ l < 2 ^ 32) ls → ls ≠ [] → 0 < at_ → space ls < 2 ^ 32 →
  at_ + space ls = msg_control mhdr + msg_controllen mhdr → at_ + space ls + 16 < 2 ^ 64 →
  (∀ c n, (c, n) ∈ place at_ ls → lens !! c = Some n) →
  walk (length ls) lens mhdr at_ = Some (place at_ ls).*1.
Proof.
  intros Hls. revert at_. induction Hls as [|l ls Hl Hls IH]; intros at_ Hne Hat Hsmall Hend Htop Hlens; [done|].
  simpl in *. destruct (Z.eqb_spec at_ 0); [lia|].
  unfold NFP_CMSG_NXTHDR. destruct (Z.eqb_spec at_ 0); [lia|].
  rewrite (Hlens at_ (u32 (NFP_CMSG_LEN l))) by (apply elem_of_cons; auto). simpl.
  pose proof (space_pos l Hl) as Hsp. pose proof (space_nonneg ls Hls) as Hnn. rewrite align_len by lia.
  change (_ALIGN sizeof_cmsghdr) with 16.
  rewrite (wrap_small 64 (at_ + _)), (wrap_small 64 (at_ + _ + 16)), (wrap_small 64 (msg_control mhdr + _)) by (unfold in_uint; lia).
  destruct ls as [|l' ls].
  - simpl in *. destruct (Z.ltb_spec (msg_control mhdr + msg_controllen mhdr)
      (at_ + NFP_CMSG_SPACE l + 16)); [|lia]. done.
  - assert (Hsp' : 16 ≤ space (l' :: ls)).
    { apply Forall_cons in Hls as [Hl' Hls']. pose proof (space_pos l' Hl').
      pose proof (space_nonneg ls Hls'). simpl. lia. }
    destruct (Z.ltb_spec (msg_control mhdr + msg_controllen mhdr)
      (at_ + NFP_CMSG_SPACE l + 16)); [lia|].
    rewrite IH; [done|done|lia|simpl in *; lia..|]. intros c k Hin. apply Hlens. apply elem_of_cons. auto.
Qed.

(** The recorded lengths are not cut. *)
Lemma place_lens ls at_ i c l :
  Forall (λ l, 0 ≤ l < 2 ^ 32) ls → space ls < 2 ^ 32 → (place at_ ls).*1 !! i = Some c → ls !! i = Some l →
  (c, NFP_CMSG_LEN l) ∈ place at_ ls.
Proof.
  intros Hls. revert at_ i. induction Hls as [|l0 ls Hl0 Hls IH]; intros at_ i Hsmall Hc Hi; [done|].
  pose proof (space_pos l0 Hl0) as Hsp. pose proof (space_nonneg ls Hls) as Hnn. simpl in *. apply elem_of_cons.
  destruct i as [|i]; simpl in *.
  - simplify_eq. left. f_equal. symmetry. apply wrap_small. unfold in_uint, NFP_CMSG_LEN.
    change (_ALIGN sizeof_cmsghdr) with 16. rewrite (wrap_small 64) by (unfold in_uint; lia). lia.
  - right. apply (IH _ i); [lia|done|done].
Qed.

(** The data of each message lie behind its header and before the next header,
    or the end. *)
Lemma place_data ls at_ i c l :
  Forall (λ l, 0 ≤ l < 2 ^ 32) ls → 0 < at_ → at_ + space ls + 16 < 2 ^ 64 →
  (place at_ ls).*1 !! i = Some c → ls !! i = Some l →
  NFP_CMSG_DATA c = c + 16 ∧ NFP_CMSG_DATA c + l ≤ default (at_ + space ls) ((place at_ ls).*1 !! S i).
Proof.
  intros Hls. revert at_ i. induction Hls as [|l0 ls Hl Hls IH]; intros at_ i Hat Htop Hc Hi; [done|].
  pose proof (space_pos l0 Hl) as Hsp. pose proof (space_nonneg ls Hls) as Hnn. simpl in *. destruct i as [|i]; simpl in *.
  - simplify_eq. unfold NFP_CMSG_DATA. change (_ALIGN sizeof_cmsghdr) with 16.
    rewrite wrap_small by (unfold in_uint; lia). split; [done|]. destruct ls as [|l1 ls]; simpl in *; lia.
  - destruct (IH (at_ + NFP_CMSG_SPACE l0) i) as [Hd Hle]; [lia|lia|done|done|]. split; [done|].
    by rewrite Z.add_assoc.
Qed.

(** [C39] Ancillary messages laid out with [NFP_CMSG_SPACE] and [NFP_CMSG_LEN]
    are found again by [NFP_CMSG_FIRSTHDR] and [NFP_CMSG_NXTHDR], when they take
    less than 2^32 bytes together, so that the 32-bit length fields do not
    wrap: the walk visits every header once, in order, reads no other memory
    and stops at the end of the control buffer; and the data of a message, from
    [NFP_CMSG_DATA] on, end before the next header or the end of the buffer. *)
Theorem cmsg_walk_roundtrip ls base :
  Forall (λ l, 0 ≤ l < 2 ^ 32) ls → 0 < base → space ls < 2 ^ 32 → base + space ls + 16 < 2 ^ 64 →
  let lens := list_to_map (place base ls) : gmap Z Z in
  let cs := (place base ls).*1 in
  walk (length ls) lens (message base ls) (NFP_CMSG_FIRSTHDR (message base ls)) = Some cs ∧
  ∀ i c l, cs !! i = Some c → ls !! i = Some l →
    lens !! c = Some (NFP_CMSG_LEN l) ∧ NFP_CMSG_DATA c = c + 16 ∧
    NFP_CMSG_DATA c + l ≤ default (base + space ls) (cs !! S i).
Proof.
  intros Hls Hbase Hsmall Htop lens cs.
  assert (Hlens : ∀ c n, (c, n) ∈ place base ls → lens !! c = Some n).
  { intros c n Hin. apply elem_of_list_to_map_1; [by apply place_NoDup|done]. }
  pose proof (space_nonneg ls Hls) as Hnn. split.
  - unfold NFP_CMSG_FIRSTHDR, message. simpl. rewrite (wrap_small 32) by (unfold in_uint; lia).
    destruct ls as [|l ls]; [done|].
    assert (Hsp : 16 ≤ space (l :: ls)).
    { apply Forall_cons in Hls as [Hl Hls]. pose proof (space_pos l Hl). pose proof (space_nonneg ls Hls). simpl. lia. }
    destruct (Z.leb_spec sizeof_cmsghdr (space (l :: ls))) as [_|Hlt]; [|change sizeof_cmsghdr with 12 in Hlt; lia].
    by apply walk_place.
  - intros i c l Hc Hl. split; [|by apply (place_data ls base i)]. by eapply Hlens, place_lens.
Qed.

Lemma cmsg_walk_roundtrip_witness :
  walk 3 (list_to_map (place 4096 [4; 0; 21])) (message 4096 [4; 0; 21]) (NFP_CMSG_FIRSTHDR (message 4096 [4; 0; 21]))
    = Some [4096; 4120; 4136].
Proof.
  apply (cmsg_walk_roundtrip [4; 0; 21] 4096); [|lia|by vm_compute|by vm_compute].
  apply (bool_decide_unpack _). by vm_compute.
Defined.

End Cmsg.
