(* ===== verification/Getopt.v ===== *)
(** * getopt_long

    The part of the C library that splits a command line into options, as the
    programs use it: the option string starts with "+", so the first word that
    is no option ends the search.  An option argument is a place in [argv]: the
    number of the word and the offset in it. *)

From S2P Require Import Prelude.

Module Getopt.

Definition ch_dash : Z := 45.
Definition ch_equals : Z := 61.
Definition ch_question : Z := 63.

(** The short options with whether they take an argument, and [longopts]. *)
Record optdef := OptDef {
  shortopts : list (Z * bool);
  longopts : list (bytes * bool * Z);
}.

Abbreviation option_at := (Z * option (nat * nat))%type.

Section Getopt.
Context (d : optdef).

Fixpoint short_lookup (l : list (Z * bool)) (c : Z) : option bool :=
  match l with
  | [] => None
  | (x, b) :: l' => if x =? c then Some b else short_lookup l' c
  end.

(** How the letters of a word end: with an option that takes the rest of the
    word, or the next word. *)
Inductive ending := Done | Rest (c : Z) (k : nat) | Next (c : Z).

(** The letters of a word, from offset [k] on. *)
Fixpoint letters (k : nat) (cs : bytes) : list Z * ending :=
  match cs with
  | [] => ([], Done)
  | c :: cs' =>
      match short_lookup (shortopts d) c with
      | Some true => ([], match cs' with [] => Next c | _ => Rest c (S k) end)
      | Some false => let r := letters (S k) cs' in (c :: r.1, r.2)
      | None => let r := letters (S k) cs' in (ch_question :: r.1, r.2)
      end
  end.

(** The name before "=", and whether there is one. *)
Fixpoint long_name (cs : bytes) : bytes * bool :=
  match cs with
  | [] => ([], false)
  | c :: cs' => if c =? ch_equals then ([], true) else let r := long_name cs' in (c :: r.1, r.2)
  end.

(** The option with that name, or the only one of which it is an
    abbreviation. *)
Definition long_lookup (name : bytes) : option (bytes * bool * Z) :=
  match filter (λ o : bytes * bool * Z, o.1.1 = name) (longopts d) with
  | o :: _ => Some o
  | [] => match filter (λ o : bytes * bool * Z, take (length name) o.1.1 = name) (longopts d) with
          | [o] => Some o
          | _ => None
          end
  end.

(** The options from word [i] on. *)
Fixpoint options (i : nat) (words : list bytes) : list option_at :=
  match words with
  | (c1 :: c2 :: cs) :: rest =>
      if negb (c1 =? ch_dash) then []
      else if c2 =? ch_dash then
        match cs with
        | [] => []
        | _ =>
            let n := long_name cs in
            match long_lookup n.1 with
            | None => (ch_question, None) :: options (S i) rest
            | Some (_, takes, v) =>
                match takes, n.2 with
                | true, true => (v, Some (i, (3 + length n.1)%nat)) :: options (S i) rest
                | false, true => (ch_question, None) :: options (S i) rest
                | false, false => (v, None) :: options (S i) rest
                | true, false =>
                    match rest with
                    | [] => [(ch_question, None)]
                    | _ :: rest' => (v, Some (S i, 0%nat)) :: options (S (S i)) rest'
                    end
                end
            end
        end
      else
        let r := letters 1 (c2 :: cs) in
        ((λ c, (c, None)) <$> r.1) ++
        match r.2 with
        | Done => options (S i) rest
        | Rest c k => (c, Some (i, k)) :: options (S i) rest
        | Next c =>
            match rest with
            | [] => [(ch_question, None)]
            | _ :: rest' => (c, Some (S i, 0%nat)) :: options (S (S i)) rest'
            end
        end
  | _ => []
  end.

(** All calls of [getopt_long(argc, argv, ...)] up to the one that gives -1. *)
Definition getopt_long (argv : list bytes) : list option_at :=
  match argv with [] => [] | _ :: words => options 1 words end.

(** ** Where the arguments are *)

Lemma letters_rest k cs c j : (letters k cs).2 = Rest c j → (j ≤ k + length cs)%nat.
Proof.
  revert k. induction cs as [|x cs IH]; intros k; simpl; [done|].
  destruct (short_lookup (shortopts d) x) as [[]|]; simpl.
  - destruct cs; [done|]. intros [= _ <-]. simpl. lia.
  - intros H%IH. lia.
  - intros H%IH. lia.
Qed.

Lemma long_name_length cs : (length (long_name cs).1 + (if (long_name cs).2 then 1 else 0) ≤ length cs)%nat.
Proof. induction cs as [|c cs IH]; simpl; [done|]. destruct (c =? ch_equals); simpl; lia. Qed.

Definition place_ok (i : nat) (words : list bytes) (o : option_at) : Prop :=
  match o.2 with
  | None => True
  | Some (j, k) => (i ≤ j)%nat ∧ ∃ w, words !! (j - i)%nat = Some w ∧ (k ≤ length w)%nat
  end.

Lemma place_here i w words c k : (k ≤ length w)%nat → place_ok i (w :: words) (c, Some (i, k)).
Proof. intros Hk. split; [done|]. exists w. by rewrite Nat.sub_diag. Qed.

Lemma place_none i words c : place_ok i words (c, None).
Proof. exact I. Qed.

Lemma place_later i w words o : place_ok (S i) words o → place_ok i (w :: words) o.
Proof.
  unfold place_ok. destruct o.2 as [[j k]|]; [|done]. intros [Hj (u & Hu & Hk)]. split; [lia|]. exists u.
  replace (j - i)%nat with (S (j - S i)) by lia. done.
Qed.

Hint Resolve place_none : core.

Lemma places_ok i words : Forall (place_ok i words) (options i words).
Proof.
  revert i. induction words as [words IH] using (induction_ltof1 _ (@length bytes)); unfold ltof in IH. intros i.
  destruct words as [|w rest]; [done|]. destruct w as [|c1 [|c2 cs]]; [done..|]. cbn [options].
  set (w := c1 :: c2 :: cs). assert (Hlen : length w = S (S (length cs))) by done.
  assert (Hrest : Forall (place_ok i (w :: rest)) (options (S i) rest)).
  { eapply Forall_impl; [apply IH; simpl; lia|]. intros o. apply place_later. }
  assert (Hnext : ∀ c, Forall (place_ok i (w :: rest)) match rest with
    | [] => [(ch_question, None)] | _ :: rest' => (c, Some (S i, 0%nat)) :: options (S (S i)) rest' end).
  { intros c. destruct rest as [|u rest']; [by repeat constructor|]. constructor.
    - apply place_later, place_here. lia.
    - eapply Forall_impl; [apply IH; simpl; lia|]. intros o Ho. by do 2 apply place_later. }
  destruct (negb _); [done|]. destruct (c2 =? ch_dash).
  - destruct cs as [|c3 cs]; [done|]. pose proof (long_name_length (c3 :: cs)) as Hn.
    destruct (long_lookup _) as [[[name []] v]|]; [| |by constructor].
    + destruct (long_name (c3 :: cs)) as [nm []]; cbn [fst snd] in *; [|done]. constructor; [apply place_here; lia|done].
    + destruct (long_name (c3 :: cs)).2; by constructor.
  - apply Forall_app. split; [apply Forall_fmap, Forall_forall; intros; apply place_none|].
    destruct (letters 1 (c2 :: cs)).2 as [|c k|c] eqn:E; [exact Hrest| |apply Hnext].
    apply letters_rest in E. simpl in E. constructor; [apply place_here; lia|done].
Qed.

(** An option without argument is one that takes none, or a wrong one. *)
Definition bare (c : Z) : Prop :=
  c = ch_question ∨ short_lookup (shortopts d) c = Some false ∨ ∃ name, (name, false, c) ∈ longopts d.

Definition kind_ok (o : option_at) : Prop := o.2 = None → bare o.1.

Lemma letters_bare k cs : Forall bare (letters k cs).1.
Proof.
  revert k. induction cs as [|x cs IH]; intros k; simpl; [done|].
  destruct (short_lookup (shortopts d) x) as [[]|] eqn:E; simpl; [done| |]; constructor; try apply IH.
  - right. by left.
  - by left.
Qed.

Lemma long_lookup_in name o : long_lookup name = Some o → o ∈ longopts d.
Proof.
  unfold long_lookup. destruct (filter _ (longopts d)) as [|x l] eqn:E.
  - clear E. destruct (filter _ (longopts d)) as [|x [|y l]] eqn:E; [done| |done]. intros [= <-].
    assert (x ∈ [x]) as Hx by set_solver. rewrite <- E in Hx. by apply list_elem_of_filter in Hx as [_ Hx].
  - intros [= <-]. assert (x ∈ x :: l) as Hx by set_solver. rewrite <- E in Hx. by apply list_elem_of_filter in Hx as [_ Hx].
Qed.

Lemma options_kind i words : Forall kind_ok (options i words).
Proof.
  revert i. induction words as [words IH] using (induction_ltof1 _ (@length bytes)); unfold ltof in IH. intros i.
  destruct words as [|w rest]; [done|]. destruct w as [|c1 [|c2 cs]]; [done..|]. cbn [options].
  assert (Hq : kind_ok (ch_question, None)) by (intros _; by left).
  assert (Hat : ∀ c p, kind_ok (c, Some p)) by done.
  assert (Hrest : Forall kind_ok (options (S i) rest)) by (apply IH; simpl; lia).
  assert (Hnext : ∀ c, Forall kind_ok match rest with
    | [] => [(ch_question, None)] | _ :: rest' => (c, Some (S i, 0%nat)) :: options (S (S i)) rest' end).
  { intros c. destruct rest as [|u rest']; [by repeat constructor|]. constructor; [done|apply IH; simpl; lia]. }
  destruct (negb _); [done|]. destruct (c2 =? ch_dash).
  - destruct cs as [|c3 cs]; [done|].
    destruct (long_lookup _) as [[[name b] v]|] eqn:E; [|by constructor]. apply long_lookup_in in E.
    destruct b, (long_name (c3 :: cs)).2; [by constructor|apply Hnext|by constructor|].
    constructor; [|done]. intros _. right. right. eauto.
  - apply Forall_app. split; [|destruct (letters 1 (c2 :: cs)).2; [done|by constructor|apply Hnext]].
    apply Forall_fmap. eapply Forall_impl; [apply letters_bare|]. by intros c Hc _.
Qed.

(** ** A command line as it is written *)

(** "-c" alone, or "-c" and its argument. *)
Definition written (o : Z * option bytes) : list bytes :=
  [ch_dash; o.1] :: match o.2 with None => [] | Some a => [a] end.

(** The places of the arguments, from word [i] on. *)
Fixpoint places (i : nat) (os : list (Z * option bytes)) : list option_at :=
  match os with
  | [] => []
  | (c, None) :: os' => (c, None) :: places (S i) os'
  | (c, Some _) :: os' => (c, Some (S i, 0%nat)) :: places (S (S i)) os'
  end.

Definition known (o : Z * option bytes) : Prop :=
  o.1 ≠ ch_dash ∧ short_lookup (shortopts d) o.1 = Some (bool_decide (is_Some o.2)).

Lemma options_written i os rest :
  Forall known os → options i ((os ≫= written) ++ rest) = places i os ++ options (i + length (os ≫= written)) rest.
Proof.
  intros Hos. revert i. induction Hos as [|[c o] os [Hc Hk] Hos IH]; intros i.
  - simpl. by rewrite Nat.add_0_r.
  - cbn [fst snd] in *. destruct o as [a|]; cbn [written fst snd].
    + assert (Hw : ((c, Some a) :: os) ≫= written = [ch_dash; c] :: a :: (os ≫= written)) by done.
      rewrite Hw. cbn [app]. cbn [options]. rewrite Z.eqb_refl. cbn [negb]. rewrite (proj2 (Z.eqb_neq _ _) Hc).
      cbn [letters]. rewrite Hk. rewrite bool_decide_true by eauto. cbn [fst snd fmap list_fmap app].
      rewrite IH. cbn [places app length]. do 3 f_equal. lia.
    + assert (Hw : ((c, None) :: os) ≫= written = [ch_dash; c] :: (os ≫= written)) by done.
      rewrite Hw. cbn [app]. cbn [options]. rewrite Z.eqb_refl. cbn [negb]. rewrite (proj2 (Z.eqb_neq _ _) Hc).
      cbn [letters]. rewrite Hk. rewrite bool_decide_false by (by intros [? ?]). cbn [fst snd fmap list_fmap app letters].
      rewrite IH. cbn [places app length]. do 3 f_equal. lia.
Qed.
End Getopt.

End Getopt.
