(* ===== verification/CliArgParse.v ===== *)
(** * The interface list of the command line

    Model of example/common/cli_arg_parse.c: [nfpexpl_parse_interfaces] turns
    "eth1@192.168.100.10/24,eth2" into an array of interface records, cutting a
    copy of the argument in place, and
    [nfpexpl_parse_interfaces_param_cleanup] releases them.

    Memory is modelled block by block: every [calloc] and [strdup] may fail, a
    dereference of NULL or of a freed block, an access past the end of a block
    and a double free are stuck.  The reference parser [parse_list] works on
    the text; the theorem at the end says what the code does for every argument
    and every pattern of allocation failures. *)

From S2P Require Import Prelude.

Module CliArgParse.

(** ** Data *)

(** A pointer into a block of characters. *)
Definition ptr : Type := positive * nat.

(** [struct appl_arg_if] *)
Record appl_arg_if := ApplArgIf {
  if_name : option positive;
  if_address : option positive;
  if_address_masklen : Z;
}.

Inductive block :=
| BStr (b : bytes)                  (* characters, the terminating NUL included *)
| BArr (es : list appl_arg_if)
| BPtrs (ps : list (option ptr)).   (* pointers to characters *)

(** Memory, the allocator's future answers, and the caller's
    [appl_arg_ifs_t]. *)
Record state := State {
  blocks : gmap positive block;
  fresh_ptr : positive;
  oracle : nat → bool;
  allocs : nat;
  if_count : Z;
  if_array : option positive;
}.

Definition set_blocks (f : gmap positive block → gmap positive block) (s : state) : state :=
  State (f (blocks s)) (fresh_ptr s) (oracle s) (allocs s) (if_count s) (if_array s).
Definition set_if_count (n : Z) (s : state) : state :=
  State (blocks s) (fresh_ptr s) (oracle s) (allocs s) n (if_array s).
Definition set_if_array (a : option positive) (s : state) : state :=
  State (blocks s) (fresh_ptr s) (oracle s) (allocs s) (if_count s) a.

(** ** The C library *)

(** [malloc] and [calloc]: NULL when the allocator says so. *)
Definition alloc (b : block) : M state (option positive) := λ s,
  if oracle s (allocs s) then
    (Ret (Some (fresh_ptr s)),
     State (<[fresh_ptr s := b]> (blocks s)) (Pos.succ (fresh_ptr s)) (oracle s)
           (S (allocs s)) (if_count s) (if_array s))
  else
    (Ret None,
     State (blocks s) (fresh_ptr s) (oracle s) (S (allocs s)) (if_count s) (if_array s)).

Definition free (p : option positive) : M state unit :=
  match p with
  | None => mret ()
  | Some p => b ← gets (λ s, blocks s !! p);
              _ ← of_option b;
              modify (set_blocks (delete p))
  end.

(** The characters from a pointer to the end of its block. *)
Definition chars (p : ptr) : M state bytes :=
  b ← gets (λ s, blocks s !! p.1);
  match b with
  | Some (BStr l) => if decide (p.2 < length l)%nat then mret (drop p.2 l) else stuck
  | _ => stuck
  end.

Inductive scan_result := Found (n : nat) | NotFound | Overrun.

Fixpoint scan (l : bytes) (c : Z) : scan_result :=
  match l with
  | [] => Overrun
  | x :: r => if x =? c then Found 0
              else if x =? 0 then NotFound
              else match scan r c with Found n => Found (S n) | o => o end
  end.

Definition strchr (p : ptr) (c : Z) : M state (option ptr) :=
  l ← chars p;
  match scan l c with
  | Found n => mret (Some (p.1, (p.2 + n)%nat))
  | NotFound => mret None
  | Overrun => stuck
  end.

Fixpoint cstring (l : bytes) : option bytes :=
  match l with
  | [] => None
  | x :: r => if x =? 0 then Some [] else (λ t, x :: t) <$> cstring r
  end.

(** The string a pointer points to, without its NUL. *)
Definition read_string (p : ptr) : M state bytes :=
  l ← chars p; of_option (cstring l).

Definition strlen (p : ptr) : M state Z := t ← read_string p; mret (Z.of_nat (length t)).

Definition strdup (p : ptr) : M state (option positive) :=
  t ← read_string p; alloc (BStr (t ++ [0])).

(** [*p = c] *)
Definition store_char (p : ptr) (c : Z) : M state unit :=
  b ← gets (λ s, blocks s !! p.1);
  match b with
  | Some (BStr l) =>
      if decide (p.2 < length l)%nat
      then modify (set_blocks (<[p.1 := BStr (<[p.2 := c]> l)]>)) else stuck
  | _ => stuck
  end.

(** [strtol(s, NULL, 10)]: white space, a sign, digits; the result is clamped
    to a [long].  [atoi] converts it to an [int]. *)
Definition is_space (c : Z) : bool := (c =? 32) || ((9 <=? c) && (c <=? 13)).
Definition is_digit (c : Z) : bool := (48 <=? c) && (c <=? 57).
Fixpoint skip_space (l : bytes) : bytes :=
  match l with x :: r => if is_space x then skip_space r else l | [] => [] end.
Fixpoint digits (acc : Z) (l : bytes) : Z :=
  match l with
  | x :: r => if is_digit x then digits (acc * 10 + (x - 48)) r else acc
  | [] => acc
  end.
Definition strtol_text (l : bytes) : Z :=
  let v := match skip_space l with
           | x :: r => if x =? 45 then - digits 0 r
                       else if x =? 43 then digits 0 r else digits 0 (x :: r)
           | [] => 0
           end in
  Z.max (- 2 ^ 63) (Z.min (2 ^ 63 - 1) v).
Definition atoi_text (l : bytes) : Z := s32 (strtol_text l).
Definition atoi (p : ptr) : M state Z := t ← read_string p; mret (atoi_text t).
Definition atoll (p : ptr) : M state Z := t ← read_string p; mret (strtol_text t).

(** ** The program *)

Definition EXIT_SUCCESS : Z := 0.
Definition EXIT_FAILURE : Z := 1.
Definition ch_comma : Z := 44.
Definition ch_at : Z := 64.
Definition ch_slash : Z := 47.

(** [if_array[i]], read and written. *)
Definition array : M state (positive * list appl_arg_if) :=
  a ← gets if_array;
  a ← of_option a;
  b ← gets (λ s, blocks s !! a);
  match b with Some (BArr es) => mret (a, es) | _ => stuck end.

Definition read_entry (i : nat) : M state appl_arg_if :=
  ae ← array; of_option (ae.2 !! i).

Definition write_entry (i : nat) (f : appl_arg_if → appl_arg_if) : M state unit :=
  ae ← array;
  e ← of_option (ae.2 !! i);
  modify (set_blocks (<[ae.1 := BArr (<[i := f e]> ae.2)]>)).

Definition set_name (p : option positive) (e : appl_arg_if) : appl_arg_if :=
  ApplArgIf p (if_address e) (if_address_masklen e).
Definition set_address (p : option positive) (e : appl_arg_if) : appl_arg_if :=
  ApplArgIf (if_name e) p (if_address_masklen e).
Definition set_masklen (n : Z) (e : appl_arg_if) : appl_arg_if :=
  ApplArgIf (if_name e) (if_address e) n.

(** [tkn_end + 1] *)
Definition ptr_succ (p : ptr) : ptr := (p.1, S p.2).

Definition nfpexpl_parse_interfaces_param_cleanup (itf_param : bool) : M state unit :=
  if negb itf_param then mret () else
  n ← gets if_count;
  if n =? 0 then mret () else
  for_from 0 (Z.to_nat n) (λ i,
    e ← read_entry (Z.to_nat i);
    when (bool_decide (is_Some (if_name e))) (free (if_name e));;
    e ← read_entry (Z.to_nat i);
    when (bool_decide (is_Some (if_address e))) (free (if_address e)));;
  a ← gets if_array;
  free a;;
  modify (set_if_count 0).

(** The body of "Get number of interfaces"; [if_count] is an [int]. *)
Definition count_step (tkn : option ptr) : M state (option ptr + unit) :=
  match tkn with
  | None => mret (inr ())
  | Some p =>
      tkn_end ← strchr p ch_comma;
      n ← gets if_count;
      (if 2 ^ 31 - 1 <=? n then stuck else modify (set_if_count (n + 1)));;
      mret (inl (ptr_succ <$> tkn_end))
  end.

(** The [if (tkn_addr)] part of the loop below: [false] when it breaks out of
    the loop with [EXIT_FAILURE]. *)
Definition token_address (tkn_addr : ptr) (idx : nat) : M state bool :=
  tkn_addr_mask ← strchr tkn_addr ch_slash;
  match tkn_addr_mask with
  | None => mret false
  | Some q =>
      store_char q 0;;
      address ← strdup tkn_addr;
      write_entry idx (set_address address);;
      match address with
      | None => mret false
      | Some _ =>
          n ← atoi (ptr_succ q);
          write_entry idx (set_masklen n);;
          mret true
      end
  end.

(** The body of the loop that cuts [argv_cpy] into records; [inr] is the
    value of [ret] when the loop ends. *)
Definition token_step (a : option ptr * nat) : M state ((option ptr * nat) + Z) :=
  match a with
  | (None, _) => mret (inr EXIT_SUCCESS)
  | (Some tkn, idx) =>
      tkn_end ← strchr tkn ch_comma;
      (match tkn_end with Some q => store_char q 0 | None => mret () end);;
      at_ ← strchr tkn ch_at;
      (match at_ with Some q => store_char q 0 | None => mret () end);;
      let tkn_addr := ptr_succ <$> at_ in
      name ← strdup tkn;
      write_entry idx (set_name name);;
      match name with
      | None => mret (inr EXIT_FAILURE)
      | Some _ =>
          ok ← (match tkn_addr with
                | None => mret true
                | Some addr => token_address addr idx
                end);
          if (ok : bool) then mret (inl (ptr_succ <$> tkn_end, S idx))
          else mret (inr EXIT_FAILURE)
      end
  end.

(** "Get interfaces": the [do { ... } while (0)] block. *)
Definition get_interfaces (fuel : nat) (argv : ptr) : M state (Z * option positive) :=
  n ← gets if_count;
  a ← alloc (BArr (replicate (Z.to_nat n) (ApplArgIf None None 0)));
  modify (set_if_array a);;
  match a with
  | None => mret (EXIT_FAILURE, None)
  | Some _ =>
      argv_cpy ← strdup argv;
      match argv_cpy with
      | None => mret (EXIT_FAILURE, None)
      | Some c => ret ← loop fuel token_step (Some (c, 0%nat), 0%nat);
                  mret (ret, Some c)
      end
  end.

(** [argv] is NULL or a string, [itf_param] says whether the structure is
    there; the fuel bounds the two loops, one turn for each interface. *)
Definition nfpexpl_parse_interfaces (fuel : nat) (argv : option ptr) (itf_param : bool)
    : M state Z :=
  match argv with
  | None => mret EXIT_FAILURE
  | Some argv =>
      len ← strlen argv;
      if (len =? 0) || negb itf_param then mret EXIT_FAILURE else
      modify (set_if_count 0);;
      modify (set_if_array None);;
      loop fuel count_step (Some argv);;
      rc ← get_interfaces fuel argv;
      when (bool_decide (is_Some rc.2)) (free rc.2);;
      if rc.1 =? EXIT_FAILURE then
        nfpexpl_parse_interfaces_param_cleanup itf_param;;
        mret EXIT_FAILURE
      else mret rc.1
  end.

End CliArgParse.
