(* ===== verification/CliArgParseProofs.v ===== *)
(** * Correctness of the interface-list parser

    The reference parser on text, the representation of its result in memory,
    and the specification of [nfpexpl_parse_interfaces] and of its cleanup. *)

From S2P Require Import Prelude CliArgParse.
Import CliArgParse.

Module CliArgParseProofs.

(** ** The reference parser *)

(** The text before the first [c], and the text after it if there is one. *)
Fixpoint split_first (c : Z) (s : bytes) : bytes * option bytes :=
  match s with
  | [] => ([], None)
  | x :: r => if x =? c then ([], Some r)
              else let '(t, o) := split_first c r in (x :: t, o)
  end.

(** The comma-separated items. *)
Fixpoint tokens (s : bytes) : list bytes :=
  match s with
  | [] => [[]]
  | x :: r => if x =? ch_comma then [] :: tokens r
              else match tokens r with t :: ts => (x :: t) :: ts | [] => [[x]] end
  end.

(** A name, with an address and a mask length or without. *)
Definition item : Type := bytes * option (bytes * Z).

Definition parse_token (t : bytes) : option item :=
  match split_first ch_at t with
  | (name, None) => Some (name, None)
  | (name, Some a) =>
      match split_first ch_slash a with
      | (_, None) => None
      | (addr, Some m) => Some (name, Some (addr, atoi_text m))
      end
  end.

Definition parse_list (s : bytes) : option (list item) := mapM parse_token (tokens s).

Lemma split_first_spec c s t o : split_first c s = (t, o) →
  (c ∉ t) ∧ s = match o with None => t | Some u => t ++ c :: u end.
Proof.
  revert t o. induction s as [|x s IH]; simpl; intros t o Heq.
  { simplify_eq. split; [apply not_elem_of_nil|done]. }
  destruct (Z.eqb_spec x c) as [->|Hne]; simplify_eq.
  { split; [apply not_elem_of_nil|done]. }
  destruct (split_first c s) as [t' o'] eqn:E. simplify_eq.
  destruct (IH _ _ eq_refl) as [? ->]. split; [|by destruct o].
  rewrite not_elem_of_cons. auto.
Qed.

Lemma tokens_split s t o : split_first ch_comma s = (t, o) →
  tokens s = t :: match o with None => [] | Some u => tokens u end.
Proof.
  revert t o. induction s as [|x s IH]; simpl; intros t o Heq; [by simplify_eq|].
  destruct (x =? ch_comma); simplify_eq; [done|].
  destruct (split_first ch_comma s) as [t' o'] eqn:E. simplify_eq.
  by rewrite (IH _ _ eq_refl).
Qed.

Lemma tokens_length s : (1 ≤ length (tokens s) ≤ S (length s))%nat.
Proof.
  induction s as [|x s IH]; simpl; [lia|]. destruct (x =? ch_comma); simpl; [lia|].
  destruct (tokens s); simpl in *; lia.
Qed.

(** ** Scanning memory *)

Lemma scan_found t c r : c ∉ t → 0 ∉ t → scan (t ++ c :: r) c = Found (length t).
Proof.
  induction t as [|x t IH]; simpl; [by rewrite Z.eqb_refl|].
  rewrite !not_elem_of_cons. intros [? ?] [? ?].
  destruct (Z.eqb_spec x c); [congruence|]. destruct (Z.eqb_spec x 0); [congruence|].
  by rewrite IH.
Qed.

Lemma scan_not_found t c r : c ∉ t → 0 ∉ t → c ≠ 0 → scan (t ++ 0 :: r) c = NotFound.
Proof.
  intros Hc H0 Hne. induction t as [|x t IH].
  { change (scan ([] ++ 0 :: r) c) with (if 0 =? c then Found 0 else NotFound).
    destruct (Z.eqb_spec 0 c); [congruence|done]. }
  simpl.
  rewrite !not_elem_of_cons in *. destruct Hc, H0.
  destruct (Z.eqb_spec x c); [congruence|]. destruct (Z.eqb_spec x 0); [congruence|].
  by rewrite IH.
Qed.

Lemma cstring_app t r : 0 ∉ t → cstring (t ++ 0 :: r) = Some t.
Proof.
  induction t as [|x t IH]; simpl; [done|]. rewrite !not_elem_of_cons. intros [? ?].
  destruct (Z.eqb_spec x 0); [congruence|]. by rewrite IH.
Qed.

(** At offset [k] of block [b] stands the string [t]; [r] follows its NUL. *)
Definition string_at (m : gmap positive block) (b : positive) (k : nat) (t r : bytes) : Prop :=
  (0 ∉ t) ∧ ∃ l, m !! b = Some (BStr l) ∧ drop k l = t ++ 0 :: r.

Lemma whole_string m b t : m !! b = Some (BStr (t ++ [0])) → (0 ∉ t) → string_at m b 0 t [].
Proof. intros Hb H0. split; [done|]. by exists (t ++ [0]). Qed.

(** A pointer points to one string. *)
Lemma string_at_inj m b k t r t' r' : string_at m b k t r → string_at m b k t' r' → t = t'.
Proof.
  intros (H0 & l & Hl & Hd) (H0' & l' & Hl' & Hd'). simplify_eq. rewrite Hd in Hd'. clear -H0 H0' Hd'.
  revert t' H0' Hd'. induction t as [|x t IH]; intros [|y t'] H0' Hd'; simplify_eq/=; [done|set_solver..|].
  f_equal. apply IH; [set_solver|set_solver|done].
Qed.

Lemma chars_at s b k t r : string_at (blocks s) b k t r → chars (b, k) s = (Ret (t ++ 0 :: r), s).
Proof.
  intros (_ & l & Hl & Hd). unfold chars. rewrite bind_gets. simpl. rewrite Hl.
  destruct (decide (k < length l)%nat) as [|Hge]; [by rewrite Hd|].
  rewrite drop_ge in Hd by lia. by destruct t.
Qed.

Lemma strchr_at s b k t r c : string_at (blocks s) b k t r → c ≠ 0 →
  strchr (b, k) c s =
    (Ret (match split_first c t with
          | (_, None) => None
          | (u, Some _) => Some (b, (k + length u)%nat)
          end), s).
Proof.
  intros Hs Hc. unfold strchr. rewrite (bind_Ret _ _ _ _ _ (chars_at _ _ _ _ _ Hs)).
  destruct Hs as (H0 & _). destruct (split_first c t) as [u o] eqn:E.
  destruct (split_first_spec _ _ _ _ E) as [Hu ->]. destruct o as [v|].
  - rewrite not_elem_of_app in H0. rewrite <- app_assoc. simpl.
    rewrite scan_found by tauto. done.
  - by rewrite scan_not_found.
Qed.

Lemma read_string_at s b k t r :
  string_at (blocks s) b k t r → read_string (b, k) s = (Ret t, s).
Proof.
  intros Hs. unfold read_string. rewrite (bind_Ret _ _ _ _ _ (chars_at _ _ _ _ _ Hs)).
  destruct Hs as (H0 & _). by rewrite cstring_app.
Qed.

(** Writing a NUL over a separator cuts the string in two. *)
Lemma store_cut s b k u c v r : string_at (blocks s) b k (u ++ c :: v) r →
  ∃ l', store_char (b, (k + length u)%nat) 0 s =
          (Ret (), set_blocks (<[b := BStr l']>) s) ∧
  (∀ m, m !! b = Some (BStr l') → string_at m b k u (v ++ 0 :: r)) ∧
  (∀ m, m !! b = Some (BStr l') → string_at m b (S (k + length u)) v r) ∧
  (∀ m k' t' r', m !! b = Some (BStr l') → (k + length u < k')%nat →
     string_at (blocks s) b k' t' r' → string_at m b k' t' r').
Proof.
  intros (H0 & l & Hl & Hd). rewrite not_elem_of_app, not_elem_of_cons in H0.
  assert (Hlen : (k + length u < length l)%nat).
  { apply (f_equal length) in Hd. rewrite length_drop, !length_app in Hd. simpl in Hd. lia. }
  exists (<[(k + length u)%nat := 0]> l).
  assert (Hd1 : drop k (<[(k + length u)%nat := 0]> l) = u ++ 0 :: v ++ 0 :: r).
  { rewrite drop_insert_ge by lia. rewrite Hd. replace (k + length u - k)%nat with (length u + 0)%nat by lia.
    rewrite <- app_assoc. simpl. by rewrite insert_app_r. }
  split_and!.
  - unfold store_char. rewrite bind_gets. simpl. rewrite Hl.
    destruct (decide _); [done|lia].
  - intros m Hm. split; [tauto|]. exists (<[(k + length u)%nat := 0]> l). by rewrite Hd1.
  - intros m Hm. split; [tauto|]. exists (<[(k + length u)%nat := 0]> l). split; [done|].
    replace (S (k + length u)) with (k + S (length u))%nat by lia.
    rewrite <- drop_drop, Hd1. rewrite drop_app_ge by lia.
    by replace (S (length u) - length u)%nat with 1%nat by lia.
  - intros m k' t' r' Hm Hk (Ht' & l2 & Hl2 & Hd2). simplify_eq. split; [done|].
    eexists. split; [done|]. by rewrite drop_insert_lt by lia.
Qed.

(** ** Ownership *)

Definition blank : appl_arg_if := ApplArgIf None None 0.

Definition eptrs (e : appl_arg_if) : list positive :=
  option_list (if_name e) ++ option_list (if_address e).

(** The blocks a parse has allocated: the array, the strings of its records
    and the extra ones [cs]. *)
Definition own (a : positive) (cs : list positive) (es : list appl_arg_if) : list positive :=
  a :: cs ++ (es ≫= eptrs).

(** The memory is the initial one, [b0], plus exactly the owned blocks. *)
Record Inv (b0 : gmap positive block) (a : positive) (cs : list positive)
    (es : list appl_arg_if) (s : state) : Prop := {
  inv_fresh p : is_Some (blocks s !! p) → (p < fresh_ptr s)%positive;
  inv_array : if_array s = Some a;
  inv_count : if_count s = Z.of_nat (length es);
  inv_entries : blocks s !! a = Some (BArr es);
  inv_owned p : p ∈ own a cs es → b0 !! p = None ∧ is_Some (blocks s !! p);
  inv_frame p : p ∉ own a cs es → blocks s !! p = b0 !! p;
  inv_nodup : NoDup (own a cs es);
}.

(** A record represents an item of the reference parser. *)
Definition rep (m : gmap positive block) (e : appl_arg_if) (i : item) : Prop :=
  (∃ p, if_name e = Some p ∧ m !! p = Some (BStr (i.1 ++ [0]))) ∧
  match i.2 with
  | None => if_address e = None ∧ if_address_masklen e = 0
  | Some (addr, n) => if_address_masklen e = n ∧
      ∃ q, if_address e = Some q ∧ m !! q = Some (BStr (addr ++ [0]))
  end.

Lemma rep_ext m m' e i : (∀ p, p ∈ eptrs e → m' !! p = m !! p) → rep m e i → rep m' e i.
Proof.
  unfold eptrs. intros Hext [(p & Hn & Hp) Ha]. rewrite Hn in Hext. split.
  - exists p. rewrite Hext; [done|]. set_solver.
  - destruct i as [? [[addr n]|]]; simpl in *; [|done]. destruct Ha as (? & q & Hq & Hm).
    split; [done|]. exists q. rewrite Hq in Hext. rewrite Hext; [done|]. set_solver.
Qed.

Lemma bind_insert (es : list appl_arg_if) i e e' ps : es !! i = Some e →
  eptrs e' ≡ₚ ps ++ eptrs e → (<[i := e']> es ≫= eptrs) ≡ₚ ps ++ (es ≫= eptrs).
Proof.
  intros Hi Hp. rewrite <- (take_drop_middle es i e Hi) at 2.
  rewrite (insert_take_drop es i e') by (by eapply lookup_lt_Some).
  rewrite !bind_app. simpl. rewrite Hp. solve_Permutation.
Qed.

Lemma own_insert a cs es i e e' ps : es !! i = Some e →
  eptrs e' ≡ₚ ps ++ eptrs e → own a cs (<[i := e']> es) ≡ₚ ps ++ own a cs es.
Proof. intros Hi Hp. unfold own. rewrite (bind_insert _ _ _ _ _ Hi Hp). solve_Permutation. Qed.

Lemma elem_eptrs_own a cs es i e p : es !! i = Some e → p ∈ eptrs e → p ∈ own a cs es.
Proof.
  intros Hi Hp. unfold own. apply elem_of_cons. right. apply elem_of_app. right.
  apply list_elem_of_bind. exists e. split; [done|]. by eapply list_elem_of_lookup_2.
Qed.

(** A pointer of a record is neither the array nor an extra block. *)
Lemma eptrs_ne a cs es i e p : NoDup (own a cs es) → es !! i = Some e → p ∈ eptrs e →
  p ≠ a ∧ (p ∉ cs).
Proof.
  unfold own. rewrite NoDup_cons, NoDup_app. intros (Ha & _ & Hd & _) Hi Hp.
  assert (p ∈ es ≫= eptrs).
  { apply list_elem_of_bind. exists e. split; [done|]. by eapply list_elem_of_lookup_2. }
  split; [|by intros ?%Hd]. intros ->. apply Ha. apply elem_of_app. auto.
Qed.

(** Changing the contents of an extra block. *)
Lemma Inv_store b0 a cs es s c b : Inv b0 a cs es s → c ∈ cs →
  Inv b0 a cs es (set_blocks (<[c := b]>) s).
Proof.
  intros [Hf Ha Hn He Ho Hfr Hnd] Hc.
  assert (Hco : c ∈ own a cs es) by (unfold own; set_solver).
  assert (Hca : c ≠ a).
  { intros ->. unfold own in Hnd. apply NoDup_cons in Hnd as [Hx _]. apply Hx. set_solver. }
  constructor; simpl; try done.
  - intros p Hp. apply Hf. destruct (decide (p = c)) as [->|];
      [by apply Ho|by rewrite lookup_insert_ne in Hp].
  - by rewrite lookup_insert_ne.
  - intros p Hp. split; [by apply Ho|]. destruct (decide (p = c)) as [->|].
    + rewrite lookup_insert_eq. eauto.
    + rewrite lookup_insert_ne by done. by apply Ho.
  - intros p Hp. rewrite lookup_insert_ne by congruence. by apply Hfr.
Qed.

(** Changing a record without giving it a block. *)
Lemma Inv_write b0 a cs es s i e e' : Inv b0 a cs es s → es !! i = Some e → eptrs e' = eptrs e →
  Inv b0 a cs (<[i := e']> es) (set_blocks (<[a := BArr (<[i := e']> es)]>) s).
Proof.
  intros [Hf Ha Hn He Ho Hfr Hnd] Hi Heq.
  assert (Hp : own a cs (<[i := e']> es) ≡ₚ own a cs es).
  { apply (own_insert a cs es i e e' [] Hi). by rewrite Heq. }
  constructor; simpl.
  - intros p Hs. apply Hf. destruct (decide (p = a)) as [->|];
      [by rewrite He|by rewrite lookup_insert_ne in Hs].
  - done.
  - by rewrite length_insert.
  - by rewrite lookup_insert_eq.
  - intros p. rewrite Hp. intros Hin. split; [by apply Ho|].
    destruct (decide (p = a)) as [->|]; [rewrite lookup_insert_eq; eauto|].
    rewrite lookup_insert_ne by done. by apply Ho.
  - intros p. rewrite Hp. intros Hin. rewrite lookup_insert_ne; [by apply Hfr|].
    intros ->. apply Hin. unfold own. set_solver.
  - by rewrite Hp.
Qed.

Definition alloc_state (b : block) (s : state) : state :=
  State (<[fresh_ptr s := b]> (blocks s)) (Pos.succ (fresh_ptr s)) (oracle s)
    (S (allocs s)) (if_count s) (if_array s).
Definition fail_state (s : state) : state :=
  State (blocks s) (fresh_ptr s) (oracle s) (S (allocs s)) (if_count s) (if_array s).

Lemma Inv_fresh b0 a cs es s : Inv b0 a cs es s →
  blocks s !! fresh_ptr s = None ∧ (fresh_ptr s ∉ own a cs es).
Proof.
  intros HI. assert (Hn : blocks s !! fresh_ptr s = None).
  { apply eq_None_not_Some. intros Hs%(inv_fresh _ _ _ _ _ HI). lia. }
  split; [done|]. intros Hin%(inv_owned _ _ _ _ _ HI). rewrite Hn in Hin.
  by destruct Hin as [_ [? ?]].
Qed.

(** Allocating a block and giving it to the record [i]. *)
Lemma Inv_give b0 a cs es s i e e' b : Inv b0 a cs es s → es !! i = Some e →
  eptrs e' ≡ₚ fresh_ptr s :: eptrs e →
  Inv b0 a cs (<[i := e']> es)
    (set_blocks (<[a := BArr (<[i := e']> es)]>) (alloc_state b s)).
Proof.
  intros HI Hi Heq. destruct (Inv_fresh _ _ _ _ _ HI) as [Hnone Hno].
  destruct HI as [Hf Ha Hn He Ho Hfr Hnd].
  assert (Hp : own a cs (<[i := e']> es) ≡ₚ fresh_ptr s :: own a cs es).
  { by apply (own_insert a cs es i e e' [fresh_ptr s] Hi). }
  assert (Hfa : fresh_ptr s ≠ a) by (intros Hx; rewrite Hx in Hnone; congruence).
  constructor; simpl.
  - intros p Hs. destruct (decide (p = fresh_ptr s)) as [->|]; [lia|].
    enough (p < fresh_ptr s)%positive by lia. apply Hf.
    destruct (decide (p = a)) as [->|]; [by rewrite He|by rewrite !lookup_insert_ne in Hs].
  - done.
  - by rewrite length_insert.
  - by rewrite lookup_insert_eq.
  - intros p. rewrite Hp, elem_of_cons. intros Hin.
    destruct (decide (p = a)) as [->|].
    { rewrite lookup_insert_eq. split; [|eauto]. apply Ho. unfold own. set_solver. }
    rewrite lookup_insert_ne by done.
    destruct (decide (p = fresh_ptr s)) as [->|].
    { rewrite lookup_insert_eq. split; [|eauto]. by rewrite <- Hfr. }
    rewrite lookup_insert_ne by done. apply Ho. tauto.
  - intros p. rewrite Hp, not_elem_of_cons. intros [? Hin].
    rewrite !lookup_insert_ne; [by apply Hfr|done|]. intros ->. apply Hin. unfold own. set_solver.
  - rewrite Hp. by constructor.
Qed.

(** ** Steps of the tokenizer *)

(** Only the block [c] may differ. *)
Definition same_but (c : positive) (s s' : state) : Prop :=
  (∀ p, p ≠ c → blocks s' !! p = blocks s !! p) ∧
  fresh_ptr s' = fresh_ptr s ∧ oracle s' = oracle s ∧ allocs s' = allocs s.

(** [o = strchr(p, ch); if (o) *o = 0;] *)
Lemma cut_step b0 a c es s k t r ch :
  Inv b0 a [c] es s → string_at (blocks s) c k t r → ch ≠ 0 →
  let '(u, o) := split_first ch t in
  ∃ s', (∀ B (K : option ptr → M state B),
           (q ← strchr (c, k) ch;
            (match q with Some q => store_char q 0 | None => mret () end);; K q) s =
           K ((λ _, (c, (k + length u)%nat)) <$> o) s') ∧
  Inv b0 a [c] es s' ∧ same_but c s s' ∧
  string_at (blocks s') c k u (match o with None => r | Some v => v ++ 0 :: r end) ∧
  (∀ v, o = Some v → string_at (blocks s') c (S (k + length u)) v r) ∧
  (∀ k' t' r', (k + length t < k')%nat → string_at (blocks s) c k' t' r' →
     string_at (blocks s') c k' t' r').
Proof.
  intros HI Hs Hch. pose proof (strchr_at _ _ _ _ _ ch Hs Hch) as Hq.
  destruct (split_first ch t) as [u o] eqn:E.
  destruct (split_first_spec _ _ _ _ E) as [Hu ->]. destruct o as [v|].
  - destruct (store_cut _ _ _ _ _ _ _ Hs) as (l' & Hst & H1 & H2 & H3).
    exists (set_blocks (<[c := BStr l']>) s). split_and!.
    + intros B K. rewrite (bind_Ret _ _ _ _ _ Hq). by rewrite (bind_Ret _ _ _ _ _ Hst).
    + apply Inv_store; [done|]. set_solver.
    + split_and!; try done. intros p Hp. simpl. by rewrite lookup_insert_ne.
    + apply H1. simpl. by rewrite lookup_insert_eq.
    + intros v' [= <-]. apply H2. simpl. by rewrite lookup_insert_eq.
    + intros k' t' r' Hk. apply H3; [simpl; by rewrite lookup_insert_eq|].
      rewrite length_app in Hk. lia.
  - exists s. split_and!; try done.
    intros B K. by rewrite (bind_Ret _ _ _ _ _ Hq).
Qed.

Lemma array_step b0 a cs es s : Inv b0 a cs es s → array s = (Ret (a, es), s).
Proof.
  intros HI. unfold array. rewrite bind_gets, (inv_array _ _ _ _ _ HI). simpl.
  rewrite bind_ret, bind_gets, (inv_entries _ _ _ _ _ HI). done.
Qed.

Lemma write_step b0 a cs es s i e f : Inv b0 a cs es s → es !! i = Some e →
  write_entry i f s = (Ret (), set_blocks (<[a := BArr (<[i := f e]> es)]>) s).
Proof.
  intros HI He. unfold write_entry. rewrite (bind_Ret _ _ _ _ _ (array_step _ _ _ _ _ HI)). simpl.
  by rewrite He.
Qed.

Lemma fail_Inv b0 a cs es s : Inv b0 a cs es s → Inv b0 a cs es (fail_state s).
Proof. by intros []; constructor. Qed.

Lemma alloc_array b0 a cs es s b : Inv b0 a cs es s →
  array (alloc_state b s) = (Ret (a, es), alloc_state b s).
Proof.
  intros HI. destruct (Inv_fresh _ _ _ _ _ HI) as [Hn _]. unfold array.
  rewrite bind_gets. simpl. rewrite (inv_array _ _ _ _ _ HI). simpl.
  rewrite bind_ret, bind_gets. simpl. rewrite lookup_insert_ne, (inv_entries _ _ _ _ _ HI); [done|].
  intros Hx. rewrite Hx, (inv_entries _ _ _ _ _ HI) in Hn. done.
Qed.

(** [e->f = strdup(p)], for the record [i]. *)
Lemma dup_step b0 a cs es s c k t r i e f :
  Inv b0 a cs es s → string_at (blocks s) c k t r → es !! i = Some e →
  (∀ p, eptrs (f (Some p) e) ≡ₚ p :: eptrs e) → f None e = e →
  let wr o := set_blocks (<[a := BArr (<[i := f o e]> es)]>) in
  let p := fresh_ptr s in
  ((∀ B (K : option positive → M state B),
      (o ← strdup (c, k); write_entry i (f o);; K o) s =
      K (Some p) (wr (Some p) (alloc_state (BStr (t ++ [0])) s))) ∧
   Inv b0 a cs (<[i := f (Some p) e]> es) (wr (Some p) (alloc_state (BStr (t ++ [0])) s)))
  ∨
  (oracle s (allocs s) = false ∧
   (∀ B (K : option positive → M state B),
      (o ← strdup (c, k); write_entry i (f o);; K o) s =
      K None (wr None (fail_state s))) ∧
   Inv b0 a cs es (wr None (fail_state s))).
Proof.
  intros HI Hs He Hf HfN wr p.
  assert (Hdup : ∀ o s1, alloc (BStr (t ++ [0])) s = (Ret o, s1) → strdup (c, k) s = (Ret o, s1)).
  { intros o s1 Ha. unfold strdup. by rewrite (bind_Ret _ _ _ _ _ (read_string_at _ _ _ _ _ Hs)). }
  change (alloc (BStr (t ++ [0])) s) with
    (if oracle s (allocs s) then (@Ret (option positive) (Some p), alloc_state (BStr (t ++ [0])) s)
     else (Ret None, fail_state s)) in Hdup.
  destruct (oracle s (allocs s)); [left|right; split; [done|]]; split.
  - intros B K. rewrite (bind_Ret _ _ _ _ _ (Hdup _ _ eq_refl)).
    erewrite bind_Ret; [done|]. unfold write_entry.
    rewrite (bind_Ret _ _ _ _ _ (alloc_array _ _ _ _ _ _ HI)). simpl. by rewrite He.
  - by apply (Inv_give _ _ _ _ _ _ e).
  - intros B K. rewrite (bind_Ret _ _ _ _ _ (Hdup _ _ eq_refl)).
    erewrite bind_Ret; [done|]. eapply (write_step _ _ _ _ (fail_state s)); [|done].
    by apply fail_Inv.
  - subst wr. simpl. rewrite HfN.
    replace es with (<[i := e]> es) at 1 by (by apply list_insert_id).
    apply (Inv_write _ _ _ es (fail_state s) _ e); [by apply fail_Inv|done|done].
Qed.

Lemma string_at_ext m m' c k t r :
  m' !! c = m !! c → string_at m c k t r → string_at m' c k t r.
Proof. intros Heq (? & l & ? & ?). split; [done|]. exists l. by rewrite Heq. Qed.

(** The records before [idx] keep what they represent when a step changes only
    the array, the copy of the argument and fresh memory. *)
Lemma done_ext b0 a c es s es' s' idx specs :
  Inv b0 a [c] es s → take idx es' = take idx es →
  (∀ p, p ≠ a → p ≠ c → p ≠ fresh_ptr s → blocks s' !! p = blocks s !! p) →
  Forall2 (rep (blocks s)) (take idx es) specs → Forall2 (rep (blocks s')) (take idx es') specs.
Proof.
  intros HI Ht Hext Hd. rewrite Ht. apply Forall2_same_length_lookup in Hd as [Hlen Hd].
  apply Forall2_same_length_lookup. split; [done|]. intros i e it He Hit.
  apply (rep_ext (blocks s)); [|by apply (Hd i)]. intros p Hp.
  assert (Hes : es !! i = Some e) by (apply lookup_take_Some in He; naive_solver).
  destruct (eptrs_ne a [c] es i e p (inv_nodup _ _ _ _ _ HI) Hes Hp) as [Hpa Hpc].
  apply Hext; [done|set_solver|]. intros ->.
  destruct (Inv_fresh _ _ _ _ _ HI) as [_ Hno]. apply Hno. by eapply elem_eptrs_own.
Qed.

(** The invariant of the tokenizer's loop. *)
Record LI (b0 : gmap positive block) (a c : positive) (toks : list bytes)
    (es : list appl_arg_if) (specs : list item) (tkn : option ptr) (idx : nat) (s : state) : Prop := {
  li_inv : Inv b0 a [c] es s;
  li_len : length es = length toks;
  li_parsed : Forall2 (λ t it, parse_token t = Some it) (take idx toks) specs;
  li_done : Forall2 (rep (blocks s)) (take idx es) specs;
  li_blank j : (idx ≤ j < length es)%nat → es !! j = Some blank;
  li_tkn : match tkn with
           | None => idx = length toks
           | Some p => p.1 = c ∧ ∃ rest,
               string_at (blocks s) c p.2 rest [] ∧ tokens rest = drop idx toks
           end;
}.

Lemma LI_next b0 a c toks es specs idx s k t o rest es' s' e' it :
  LI b0 a c toks es specs (Some (c, k)) idx s → tokens rest = drop idx toks →
  split_first ch_comma rest = (t, o) →
  Forall2 (rep (blocks s')) (take idx es) specs →
  Inv b0 a [c] es' s' → es' = <[idx := e']> es → rep (blocks s') e' it →
  parse_token t = Some it →
  (∀ v, o = Some v → string_at (blocks s') c (S (k + length t)) v []) →
  LI b0 a c toks es' (specs ++ [it]) (ptr_succ <$> ((λ _, (c, (k + length t)%nat)) <$> o)) (S idx) s'.
Proof.
  intros [HI Hlen Hp Hd Hb Ht] Htok Hsp Hd' HI' -> Hrep Hpt Hnx.
  rewrite (tokens_split _ _ _ Hsp) in Htok. symmetry in Htok.
  assert (Hti : toks !! idx = Some t).
  { rewrite <- (Nat.add_0_r idx), <- lookup_drop, Htok. done. }
  assert (Hdr : drop (S idx) toks = match o with None => [] | Some u => tokens u end).
  { replace (S idx) with (idx + 1)%nat by lia. by rewrite <- drop_drop, Htok. }
  pose proof (lookup_lt_Some _ _ _ Hti) as Hlt.
  constructor; try done.
  - by rewrite length_insert.
  - rewrite (take_S_lookup _ _ _ Hti). apply Forall2_app; [done|]. by constructor.
  - rewrite (take_S_lookup _ idx e') by (rewrite list_lookup_insert_eq; [done|lia]).
    apply Forall2_app; [|by constructor]. by rewrite take_insert_ge by lia.
  - intros j Hj. rewrite length_insert in Hj. rewrite list_lookup_insert_ne by lia. apply Hb. lia.
  - destruct o as [v|]; simpl.
    + split; [done|]. exists v. split; [by apply Hnx|done].
    + apply (f_equal length) in Hdr. rewrite length_drop in Hdr. simpl in Hdr. lia.
Qed.

(** What the loop leaves: every record filled in, or an error with its cause. *)
Definition parsed (b0 : gmap positive block) (a : positive) (cs : list positive)
    (toks : list bytes) (n0 : nat) (ret : Z) (s : state) : Prop :=
  ∃ es, Inv b0 a cs es s ∧ length es = length toks ∧
  ((ret = EXIT_SUCCESS ∧ ∃ specs, mapM parse_token toks = Some specs ∧
      Forall2 (rep (blocks s)) es specs) ∨
   (ret = EXIT_FAILURE ∧
      (mapM parse_token toks = None ∨
       ∃ i, (n0 ≤ i < allocs s)%nat ∧ oracle s i = false))).

Lemma mapM_bad_token toks idx t :
  toks !! idx = Some t → parse_token t = None → mapM parse_token toks = None.
Proof.
  intros Hti Hpt. apply eq_None_not_Some. intros [specs Hm]. apply mapM_Some in Hm.
  apply (Forall2_lookup_l _ _ _ _ _ Hm) in Hti as (it & _ & Hit). congruence.
Qed.

(** The address half of a record, after the name: [ad] is the text after the
    at sign. *)
Lemma address_step b0 a c es s k ad r idx e :
  Inv b0 a [c] es s → string_at (blocks s) c k ad r → es !! idx = Some e → if_address e = None →
  wp (token_address (c, k) idx)
    (λ res s', oracle s' = oracle s ∧ (allocs s ≤ allocs s')%nat ∧
       (∀ p, p ≠ a → p ≠ c → p ≠ fresh_ptr s → blocks s' !! p = blocks s !! p) ∧
       (∀ k' t' r', (k + length ad < k')%nat → string_at (blocks s) c k' t' r' →
          string_at (blocks s') c k' t' r') ∧
       if res then
         ∃ ip m q, split_first ch_slash ad = (ip, Some m) ∧
           let e' := ApplArgIf (if_name e) (Some q) (atoi_text m) in
           Inv b0 a [c] (<[idx := e']> es) s' ∧ blocks s' !! q = Some (BStr (ip ++ [0])) ∧
           q = fresh_ptr s
       else Inv b0 a [c] es s' ∧
           ((split_first ch_slash ad).2 = None ∨
            (oracle s (allocs s) = false ∧ allocs s < allocs s')%nat)) s.
Proof.
  intros HI Hs He Hna. unfold token_address. apply wp_bind.
  eexists _, s. split; [exact (strchr_at _ _ _ _ _ ch_slash Hs ltac:(done))|].
  destruct (split_first ch_slash ad) as [ip om] eqn:E.
  destruct (split_first_spec _ _ _ _ E) as [_ ->].
  destruct om as [m|]; [|apply wp_ret; split_and!; auto].
  destruct (store_cut _ _ _ _ _ _ _ Hs) as (l' & Hst & H1 & H2 & H3).
  set (s1 := set_blocks (<[c := BStr l']>) s) in *.
  assert (HI1 : Inv b0 a [c] es s1) by (apply Inv_store; [done|set_solver]).
  assert (Hc1 : blocks s1 !! c = Some (BStr l')) by (simpl; by rewrite lookup_insert_eq).
  assert (Hext1 : ∀ p, p ≠ c → blocks s1 !! p = blocks s !! p)
    by (intros; simpl; by rewrite lookup_insert_ne).
  apply wp_bind. exists (), s1. split; [exact Hst|].
  pose proof (Inv_fresh _ _ _ _ _ HI1) as [Hn1 Hno1].
  assert (Hca : c ≠ a ∧ c ≠ fresh_ptr s1).
  { pose proof (inv_nodup _ _ _ _ _ HI1) as Hnd. unfold own in Hnd. apply NoDup_cons in Hnd.
    split; [set_solver|]. intros Heq. rewrite <- Heq in Hn1. congruence. }
  destruct Hca as [Hca Hcf]. pose proof (Hcf : c ≠ fresh_ptr s) as Hcf'.
  assert (Hstr : ∀ s', blocks s' !! c = blocks s1 !! c →
    ∀ k' t' r', (k + length (ip ++ ch_slash :: m) < k')%nat → string_at (blocks s) c k' t' r' →
          string_at (blocks s') c k' t' r').
  { intros s' Hs' k' t' r' Hk. rewrite length_app in Hk. apply H3; [by rewrite Hs'|lia]. }
  assert (Hp1 : ∀ p, eptrs (set_address (Some p) e) ≡ₚ p :: eptrs e).
  { intros p. unfold eptrs. simpl. rewrite Hna, app_nil_r. solve_Permutation. }
  assert (Hp2 : set_address None e = e) by (destruct e; simpl in *; by subst).
  destruct (dup_step b0 a [c] es s1 c k ip _ idx e set_address HI1 (H1 _ Hc1) He Hp1 Hp2)
    as [[Hd HI2]|(Ho & Hd & HI2)].
  - unfold wp. rewrite Hd. clear Hd.
    set (s2 := set_blocks _ (alloc_state _ s1)) in *. set (q := fresh_ptr s1) in *.
    assert (Hc2 : blocks s2 !! c = blocks s1 !! c).
    { simpl. rewrite !lookup_insert_ne by congruence. done. }
    assert (Hm : string_at (blocks s2) c (S (k + length ip)) m r).
    { eapply string_at_ext; [exact Hc2|]. by apply H2. }
    unfold atoi, ptr_succ. simpl. rewrite bind_assoc, (bind_Ret _ _ _ _ _ (read_string_at _ _ _ _ _ Hm)).
    rewrite bind_ret. set (e1 := set_address (Some q) e) in *.
    assert (He2 : <[idx := e1]> es !! idx = Some e1).
    { apply list_lookup_insert_eq. by eapply lookup_lt_Some. }
    rewrite (bind_Ret _ _ _ _ _ (write_step _ _ _ _ _ _ _ (set_masklen (atoi_text m)) HI2 He2)).
    eexists true, _. split; [done|].
    pose proof (Inv_write _ _ _ _ _ _ _ (set_masklen (atoi_text m) e1) HI2 He2 eq_refl) as HI3.
    rewrite list_insert_insert_eq in *. split_and!; try done.
    + simpl. lia.
    + intros p Hpa Hpc Hpf. simpl. rewrite !lookup_insert_ne by done. done.
    + apply Hstr. simpl. rewrite lookup_insert_ne by congruence. exact Hc2.
    + exists ip, m, q. split_and!; try done.
      assert (Hqa : q ≠ a). { intros Hqa. rewrite Hqa, (inv_entries _ _ _ _ _ HI1) in Hn1. done. }
      simpl. rewrite !lookup_insert_ne by done. by rewrite lookup_insert_eq.
  - unfold wp. rewrite Hd. simpl. eexists _, _. split; [done|]. split_and!; try done.
    + simpl. lia.
    + intros p Hpa Hpc Hpf. simpl. rewrite !lookup_insert_ne by done. done.
    + apply Hstr. simpl. by rewrite lookup_insert_ne.
    + right. split; [done|]. simpl. lia.
Qed.

(** One turn of the tokenizer's loop. *)
Definition step_post b0 a c toks idx s (r : (option ptr * nat) + Z) (s' : state) : Prop :=
  oracle s' = oracle s ∧ (allocs s ≤ allocs s')%nat ∧
  match r with
  | inl (tkn', idx') => idx' = S idx ∧ (idx < length toks)%nat ∧
      ∃ es specs, LI b0 a c toks es specs tkn' idx' s'
  | inr ret => parsed b0 a [c] toks (allocs s) ret s'
  end.

Lemma token_step_ok b0 a c toks es specs tkn idx s :
  LI b0 a c toks es specs tkn idx s → wp (token_step (tkn, idx)) (step_post b0 a c toks idx s) s.
Proof.
  intros HL. destruct tkn as [[c' k]|].
  2: { apply wp_ret. destruct HL as [HI Hlen Hp Hd _ ->]. split_and!; try done.
       exists es. split; [done|]. split; [done|]. left. split; [done|]. exists specs.
       rewrite mapM_Some. rewrite !take_ge in * by lia. done. }
  destruct (li_tkn _ _ _ _ _ _ _ _ _ HL) as [Hc' (rest & Hs & Htok)]. simpl in Hc', Hs. subst c'.
  pose proof HL as [HI Hlen Hp Hd Hb _].
  destruct (split_first ch_comma rest) as [t o] eqn:Et.
  pose proof (tokens_split _ _ _ Et) as Htt. rewrite Htok in Htt.
  assert (Hti : toks !! idx = Some t).
  { rewrite <- (Nat.add_0_r idx), <- lookup_drop, Htt. done. }
  pose proof (lookup_lt_Some _ _ _ Hti) as Hlt.
  pose proof (cut_step _ _ _ _ _ _ _ _ ch_comma HI Hs ltac:(done)) as Hcut1. rewrite Et in Hcut1.
  destruct Hcut1 as (s1 & Hrun1 & HI1 & (Hx1 & Hf1 & Ho1 & Hn1) & Hs1 & Hnx1 & _).
  destruct (split_first ch_at t) as [nm oa] eqn:Ea.
  pose proof (cut_step _ _ _ _ _ _ _ _ ch_at HI1 Hs1 ltac:(done)) as Hcut2. rewrite Ea in Hcut2.
  destruct Hcut2 as (s2 & Hrun2 & HI2 & (Hx2 & Hf2 & Ho2 & Hn2) & Hs2 & Had2 & Hkeep2).
  assert (He : es !! idx = Some blank) by (apply Hb; lia).
  assert (Hblank1 : ∀ p, eptrs (set_name (Some p) blank) ≡ₚ p :: eptrs blank) by done.
  unfold wp, token_step. rewrite Hrun1, Hrun2. clear Hrun1 Hrun2.
  destruct (dup_step b0 a [c] es s2 c k nm _ idx blank set_name HI2 Hs2 He Hblank1 eq_refl)
    as [[Hd3 HI3]|(Ho3 & Hd3 & HI3)]; rewrite Hd3; clear Hd3.
  2: { eexists _, _. split; [done|]. split_and!; [by simpl; congruence|by simpl; lia|].
       exists es. split; [done|]. split; [done|]. right. split; [done|]. right. exists (allocs s2).
       simpl. split; [lia|done]. }
  set (s3 := set_blocks _ (alloc_state _ s2)) in *.
  set (e1 := set_name (Some (fresh_ptr s2)) blank) in *.
  destruct (Inv_fresh _ _ _ _ _ HI2) as [Hfn _].
  assert (Hcs : c ≠ a ∧ c ≠ fresh_ptr s2 ∧ fresh_ptr s2 ≠ a).
  { pose proof (inv_nodup _ _ _ _ _ HI2) as Hnd. unfold own in Hnd. apply NoDup_cons in Hnd.
    split; [set_solver|]. destruct Hs2 as (_ & l2 & Hl2 & _).
    split; [congruence|]. intros Hpa. rewrite Hpa, (inv_entries _ _ _ _ _ HI2) in Hfn. done. }
  destruct Hcs as (Hca & Hcp & Hpa).
  assert (Hc3 : blocks s3 !! c = blocks s2 !! c).
  { simpl. rewrite !lookup_insert_ne by congruence. done. }
  assert (Hx3 : ∀ q, q ≠ a → q ≠ c → q ≠ fresh_ptr s → blocks s3 !! q = blocks s !! q).
  { intros q Hqa Hqc Hqf. simpl. rewrite !lookup_insert_ne by congruence. rewrite Hx2, Hx1 by done. done. }
  assert (Hp3 : blocks s3 !! fresh_ptr s2 = Some (BStr (nm ++ [0]))).
  { simpl. rewrite lookup_insert_ne by congruence. by rewrite lookup_insert_eq. }
  assert (Hnx2 : ∀ v, o = Some v → string_at (blocks s2) c (S (k + length t)) v []).
  { intros v Hv. apply Hkeep2; [lia|by apply Hnx1]. }
  assert (Hti' : take idx (<[idx := e1]> es) = take idx es) by (apply take_insert_ge; lia).
  destruct oa as [ad|]; cycle 1.
  { (* no address *)
    eexists _, s3. split; [done|]. split_and!; [by simpl; congruence|by simpl; lia|done|done|].
    exists (<[idx := e1]> es), (specs ++ [(nm, None)]).
    apply (LI_next _ _ _ _ es _ _ s _ t o rest _ _ e1); try done.
    - rewrite <- Hti'. by apply (done_ext b0 a c es s).
    - split; [by exists (fresh_ptr s2)|done].
    - unfold parse_token. by rewrite Ea.
    - intros v Hv. eapply string_at_ext; [exact Hc3|by apply Hnx2]. }
  destruct (split_first_spec _ _ _ _ Ea) as [_ Htl].
  assert (He1 : <[idx := e1]> es !! idx = Some e1) by (apply list_lookup_insert_eq; lia).
  pose proof (string_at_ext _ (blocks s3) _ _ _ _ Hc3 (Had2 _ eq_refl)) as Had3.
  destruct (address_step _ _ _ _ _ _ _ _ _ _ HI3 Had3 He1 eq_refl)
    as (res & s4 & Hrun4 & Ho4 & Hn4 & Hx4 & Hk4 & Hres).
  rewrite (bind_Ret _ _ _ _ _ Hrun4). clear Hrun4.
  destruct res.
  - destruct Hres as (ip & m & q & Hsl & HI4 & Hq4 & Hqf).
    eexists _, s4. split; [done|]. split_and!; [by simpl in *; congruence|by simpl in *; lia|done|done|].
    rewrite list_insert_insert_eq in HI4.
    exists (<[idx := ApplArgIf (if_name e1) (Some q) (atoi_text m)]> es), (specs ++ [(nm, Some (ip, atoi_text m))]).
    eapply (LI_next _ _ _ _ es _ _ s _ t o rest); try done.
    + rewrite <- Hti'. apply (done_ext b0 a c (<[idx := e1]> es) s3); try done.
      by apply (done_ext b0 a c es s).
    + split; [|simpl; eauto]. exists (fresh_ptr s2). split; [done|].
      rewrite Hx4; [exact Hp3|done|congruence|simpl; lia].
    + unfold parse_token. by rewrite Ea, Hsl.
    + intros v Hv. apply Hk4; [|eapply string_at_ext; [exact Hc3|by apply Hnx2]].
      rewrite Htl, length_app. simpl. lia.
  - destruct Hres as [HI4 Hcause]. eexists _, s4. split; [done|].
    split_and!; [by simpl in *; congruence|by simpl in *; lia|].
    exists (<[idx := e1]> es). split; [done|]. rewrite length_insert. split; [done|].
    right. split; [done|].
    destruct Hcause as [Hnone|[Hof Hlt4]].
    + left. apply (mapM_bad_token _ idx t Hti). unfold parse_token. rewrite Ea.
      destruct (split_first ch_slash ad) as [? []]; [done|done].
    + right. exists (allocs s3). rewrite Ho4. simpl in *. split; [lia|done].
Qed.

Lemma token_loop_ok b0 a c toks es s k fuel :
  LI b0 a c toks es [] (Some (c, k)) 0 s → (length toks < fuel)%nat →
  wp (loop fuel token_step (Some (c, k), 0%nat))
     (λ ret s', oracle s' = oracle s ∧ parsed b0 a [c] toks (allocs s) ret s') s.
Proof.
  intros HL Hfuel.
  apply (wp_loop token_step
    (λ st s', oracle s' = oracle s ∧ (allocs s ≤ allocs s')%nat ∧
              ∃ es specs, LI b0 a c toks es specs st.1 st.2 s')
    (λ st _, (length toks - st.2)%nat)); [|split_and!; eauto|simpl; lia].
  intros [tkn idx] s1 (Ho & Hn & es1 & specs & HL1). simpl in HL1.
  eapply wp_mono; [|by eapply token_step_ok]. intros r s2 (Ho2 & Hn2 & Hr).
  destruct r as [[tkn' idx']|ret]; simpl.
  - destruct Hr as (-> & Hlt & es2 & specs2 & HL2). simpl.
    split; [|lia]. split_and!; [congruence|lia|eauto].
  - split; [congruence|]. destruct Hr as (es2 & HI2 & Hl2 & Hr). exists es2. split; [done|]. split; [done|].
    destruct Hr as [?|(? & [?|(i & ? & ?)])]; [by left|right; auto|].
    right. split; [done|]. right. exists i. split; [lia|done].
Qed.

(** Counting leaves the number of items in [if_count]. *)
Lemma count_loop_ok s b k t r fuel :
  string_at (blocks s) b k t r → if_count s = 0 → Z.of_nat (length t) < 2 ^ 31 - 1 →
  (length (tokens t) < fuel)%nat →
  loop fuel count_step (Some (b, k)) s =
    (Ret (), set_if_count (Z.of_nat (length (tokens t))) s).
Proof.
  intros Hs Hc Hlen Hfuel. pose proof (tokens_length t) as Htl.
  enough (Hw : wp (loop fuel count_step (Some (b, k)))
    (λ _ s', s' = set_if_count (Z.of_nat (length (tokens t))) s) s).
  { destruct Hw as ([] & s' & Hrun & ->). done. }
  apply (wp_loop count_step
    (λ tkn s', ∃ n, s' = set_if_count (Z.of_nat n) s ∧
       match tkn with
       | None => n = length (tokens t)
       | Some p => p.1 = b ∧ ∃ rest, string_at (blocks s) b p.2 rest r ∧
           (n + length (tokens rest) = length (tokens t))%nat
       end)
    (λ tkn s', match tkn with None => 0%nat
       | Some _ => (length (tokens t) - Z.to_nat (if_count s'))%nat end)).
  - intros [[b' i]|] s1 (n & -> & Htkn); [|subst n; by apply wp_ret].
    destruct Htkn as (Hb & rest & Hrest & Hn). simpl in Hb, Hrest. subst b'.
    pose proof (tokens_length rest) as Hrl. unfold count_step. apply wp_bind.
    eexists _, _. split; [apply (strchr_at _ _ _ rest r ch_comma); [exact Hrest|done]|].
    apply wp_bind, wp_gets, wp_bind. simpl.
    destruct (Z.leb_spec (2 ^ 31 - 1) (Z.of_nat n)); [lia|].
    apply wp_modify, wp_ret. destruct (split_first ch_comma rest) as [u o] eqn:E.
    rewrite (tokens_split _ _ _ E) in Hn. simpl in Hn.
    destruct (split_first_spec _ _ _ _ E) as [_ Hr].
    split; [|destruct o as [v|]; simpl; [pose proof (tokens_length v)|]; lia].
    exists (S n). split; [unfold set_if_count; simpl; f_equal; lia|].
    destruct o as [v|]; simpl; [|simpl in Hn; lia]. split; [done|]. exists v. split; [|lia].
    destruct Hrest as (H0 & l & Hl & Hd). subst rest. rewrite not_elem_of_app, not_elem_of_cons in H0.
    split; [tauto|]. exists l. split; [done|].
    replace (S (i + length u)) with (i + S (length u))%nat by lia.
    rewrite <- drop_drop, Hd, <- app_assoc. simpl.
    rewrite drop_app_ge by lia. by replace (S (length u) - length u)%nat with 1%nat by lia.
  - exists 0%nat. split; [destruct s; simpl in *; by subst|]. split; [done|]. exists t. split; [done|lia].
  - rewrite Hc. simpl. lia.
Qed.

(** ** Cleanup *)

Lemma free_step p s b : blocks s !! p = Some b →
  free (Some p) s = (Ret (), set_blocks (delete p) s).
Proof. intros Hp. unfold free. rewrite bind_gets, Hp. done. Qed.

(** Releasing the copy of the argument. *)
Lemma Inv_free_copy b0 a c es s : Inv b0 a [c] es s → Inv b0 a [] es (set_blocks (delete c) s).
Proof.
  intros [Hf Ha Hn He Ho Hfr Hnd]. unfold own in *. simpl in *.
  apply NoDup_cons in Hnd as [Hna Hnd]. apply NoDup_cons in Hnd as [Hnc Hnd].
  assert (c ≠ a) by set_solver.
  constructor; simpl; try done.
  - intros p Hp. apply Hf. rewrite lookup_delete_is_Some in Hp. tauto.
  - by rewrite lookup_delete_ne.
  - intros p Hp. unfold own in Hp. simpl in Hp.
    rewrite lookup_delete_ne by set_solver. apply Ho. set_solver.
  - intros p Hp. unfold own in Hp. simpl in Hp. destruct (decide (p = c)) as [->|].
    + rewrite lookup_delete_eq. symmetry. apply Ho. set_solver.
    + rewrite lookup_delete_ne by done. apply Hfr. set_solver.
  - unfold own. simpl. constructor; [set_solver|done].
Qed.

(** The blocks still owned while the cleanup loop is at record [i]. *)
Definition remaining (a : positive) (es : list appl_arg_if) (i : nat) : list positive :=
  a :: (drop i es ≫= eptrs).

Record CI (b0 : gmap positive block) (a : positive) (es : list appl_arg_if)
    (rem : list positive) (s0 s : state) : Prop := {
  ci_array : if_array s = if_array s0;
  ci_same : fresh_ptr s = fresh_ptr s0 ∧ oracle s = oracle s0 ∧ allocs s = allocs s0;
  ci_entries : blocks s !! a = Some (BArr es);
  ci_owned p : p ∈ rem → b0 !! p = None ∧ is_Some (blocks s !! p);
  ci_frame p : p ∉ rem → blocks s !! p = b0 !! p;
  ci_nodup : NoDup rem;
}.

Lemma CI_free b0 a es rem p s0 s : p ≠ a → CI b0 a es (p :: rem) s0 s →
  CI b0 a es rem s0 (set_blocks (delete p) s) ∧
  free (Some p) s = (Ret (), set_blocks (delete p) s).
Proof.
  intros Hpa [Ha Hs He Ho Hf Hnd]. apply NoDup_cons in Hnd as [Hn Hnd].
  destruct (Ho p ltac:(set_solver)) as [Hb0 [b Hb]]. split; [|by eapply free_step].
  constructor; simpl; try done.
  - by rewrite lookup_delete_ne.
  - intros q Hq. rewrite lookup_delete_ne by congruence. apply Ho. set_solver.
  - intros q Hq. destruct (decide (q = p)) as [->|]; [by rewrite lookup_delete_eq|].
    rewrite lookup_delete_ne by done. apply Hf. set_solver.
Qed.

(** [if (p) free(p);] for a pointer the remaining blocks start with. *)
Lemma CI_when_free b0 a es o rem s0 s : (a ∉ option_list o) → CI b0 a es (option_list o ++ rem) s0 s →
  ∃ s', when (bool_decide (is_Some o)) (free o) s = (Ret (), s') ∧ CI b0 a es rem s0 s'.
Proof.
  intros Hne HC. destruct o as [p|]; simpl in *.
  - destruct (CI_free b0 a es rem p s0 s); [set_solver|done|]. eauto.
  - eauto.
Qed.

Lemma CI_perm b0 a es rem rem' s0 s : rem ≡ₚ rem' → CI b0 a es rem s0 s → CI b0 a es rem' s0 s.
Proof.
  intros Hp [Ha Hs He Ho Hf Hnd]. constructor; try done.
  - intros p. rewrite <- Hp. apply Ho.
  - intros p. rewrite <- Hp. apply Hf.
  - by rewrite <- Hp.
Qed.

Lemma read_entry_step b0 a es rem s0 s i e : if_array s0 = Some a → CI b0 a es rem s0 s →
  es !! i = Some e → read_entry i s = (Ret e, s).
Proof.
  intros Ha HC He. unfold read_entry, array. rewrite !bind_assoc, bind_gets, (ci_array _ _ _ _ _ _ HC), Ha.
  simpl. rewrite bind_assoc, bind_ret, bind_assoc, bind_gets, (ci_entries _ _ _ _ _ _ HC). simpl.
  rewrite bind_ret. simpl. by rewrite He.
Qed.

(** One turn of the cleanup loop. *)
Lemma cleanup_step b0 a es s0 s i e : if_array s0 = Some a → es !! i = Some e →
  CI b0 a es (remaining a es i) s0 s →
  wp (e ← read_entry i;
      when (bool_decide (is_Some (if_name e))) (free (if_name e));;
      e ← read_entry i;
      when (bool_decide (is_Some (if_address e))) (free (if_address e)))
     (λ _, CI b0 a es (remaining a es (S i)) s0) s.
Proof.
  intros Ha He HC. unfold remaining in HC. rewrite (drop_S _ _ _ He) in HC. simpl in HC.
  assert (Hna : (a ∉ option_list (if_name e)) ∧ (a ∉ option_list (if_address e))).
  { pose proof (ci_nodup _ _ _ _ _ _ HC) as Hnd. apply NoDup_cons in Hnd as [Hnd _].
    rewrite not_elem_of_app in Hnd. unfold eptrs in Hnd. set_solver. }
  destruct Hna as [Hn1 Hn2].
  assert (HC0 : CI b0 a es (option_list (if_name e) ++ (option_list (if_address e) ++
            remaining a es (S i))) s0 s).
  { eapply CI_perm; [|exact HC]. unfold eptrs, remaining. solve_Permutation. }
  unfold wp. rewrite (bind_Ret _ _ _ _ _ (read_entry_step _ _ _ _ _ _ _ _ Ha HC He)).
  destruct (CI_when_free _ _ _ _ _ _ _ Hn1 HC0) as (s1 & Hr1 & HC1).
  rewrite (bind_Ret _ _ _ _ _ Hr1).
  rewrite (bind_Ret _ _ _ _ _ (read_entry_step _ _ _ _ _ _ _ _ Ha HC1 He)).
  destruct (CI_when_free _ _ _ _ _ _ _ Hn2 HC1) as (s2 & Hr2 & HC2). eauto.
Qed.

(** Cleanup gives the memory back exactly as it was. *)
Lemma cleanup_ok b0 a es s : Inv b0 a [] es s → es ≠ [] →
  wp (nfpexpl_parse_interfaces_param_cleanup true)
     (λ _ s', blocks s' = b0 ∧ if_count s' = 0 ∧ oracle s' = oracle s ∧ allocs s' = allocs s) s.
Proof.
  intros [Hf Ha Hn He Ho Hfr Hnd] Hne. unfold nfpexpl_parse_interfaces_param_cleanup. simpl.
  apply wp_bind, wp_gets. rewrite Hn. destruct (Z.eqb_spec (Z.of_nat (length es)) 0) as [H0|_].
  { destruct es; [done|simpl in H0; lia]. }
  rewrite Nat2Z.id. apply wp_bind.
  eapply wp_mono; [|eapply (wp_for_from _ (λ i s', CI b0 a es (remaining a es (Z.to_nat i)) s s'))].
  - intros [] s1 HC. rewrite Z.add_0_l, Nat2Z.id in HC. unfold remaining in HC.
    rewrite drop_ge in HC by lia. simpl in HC.
    apply wp_bind, wp_gets. rewrite (ci_array _ _ _ _ _ _ HC), Ha. apply wp_bind.
    eexists _, _. split; [eapply free_step, (ci_entries _ _ _ _ _ _ HC)|].
    apply wp_modify. simpl. split_and!; try done; try (by apply (ci_same _ _ _ _ _ _ HC)).
    apply map_eq. intros p. destruct (decide (p = a)) as [->|].
    + rewrite lookup_delete_eq. symmetry. apply (ci_owned _ _ _ _ _ _ HC). set_solver.
    + rewrite lookup_delete_ne by done. apply (ci_frame _ _ _ _ _ _ HC). set_solver.
  - simpl. constructor; try done.
  - intros i s1 Hi HC. simpl in HC. replace (Z.to_nat (i + 1)) with (S (Z.to_nat i)) by lia.
    destruct (lookup_lt_is_Some_2 es (Z.to_nat i)) as [e Hei]; [lia|].
    by eapply cleanup_step.
Qed.

(** ** The parser *)

(** A memory in which the allocator's next block is new. *)
Definition good (s : state) : Prop := ∀ p, is_Some (blocks s !! p) → (p < fresh_ptr s)%positive.

(** The state when the loop of the tokenizer starts. *)
Lemma LI_start b0 s n toks t :
  good s → b0 = blocks s → (0 ∉ t) → toks = tokens t → n = length toks →
  if_count s = Z.of_nat n →
  let a := fresh_ptr s in
  let s1 := set_if_array (Some a) (alloc_state (BArr (replicate n blank)) s) in
  let c := fresh_ptr s1 in
  LI b0 a c toks (replicate n blank) [] (Some (c, 0%nat)) 0 (alloc_state (BStr (t ++ [0])) s1).
Proof.
  intros Hg -> H0 -> -> Hn a s1 c.
  assert (Hfree : ∀ p, (fresh_ptr s ≤ p)%positive → blocks s !! p = None).
  { intros p Hp. apply eq_None_not_Some. intros ?%Hg. lia. }
  assert (Hac : a ≠ c) by (subst a c; simpl; lia).
  assert (Hbl : replicate (length (tokens t)) blank ≫= eptrs = []).
  { generalize (length (tokens t)). intros k. induction k; simpl; [done|exact IHk]. }
  constructor; simpl; try done.
  - constructor; simpl; try done.
    + intros p Hp. destruct (decide (p = c)) as [->|]; [subst c; simpl; lia|].
      rewrite lookup_insert_ne in Hp by (subst c; simpl in *; congruence).
      destruct (decide (p = a)) as [->|]; [subst a; lia|].
      rewrite lookup_insert_ne in Hp by (subst a; congruence). apply Hg in Hp. lia.
    + by rewrite length_replicate.
    + rewrite lookup_insert_ne by (subst a; simpl; lia). by rewrite lookup_insert_eq.
    + unfold own. rewrite Hbl. intros p Hp. simpl in Hp.
      assert (p = a ∨ p = c) as [-> | ->] by set_solver.
      * subst a. split; [apply Hfree; lia|]. rewrite lookup_insert_ne by lia.
        rewrite lookup_insert_eq. eauto.
      * subst c. simpl. split; [apply Hfree; lia|]. rewrite lookup_insert_eq. eauto.
    + unfold own. rewrite Hbl. intros p Hp. simpl in Hp.
      rewrite !lookup_insert_ne; [done| |]; subst a c; simpl in *; set_solver.
    + unfold own. rewrite Hbl. simpl. apply NoDup_cons. split; [set_solver|apply NoDup_singleton].
  - by rewrite length_replicate.
  - intros j Hj. apply lookup_replicate. rewrite length_replicate in Hj. split; [done|lia].
  - split; [done|]. exists t. split; [|done]. split; [done|].
    exists (t ++ [0]). rewrite lookup_insert_eq. done.
Qed.

(** The state after the array is allocated and before the copy is. *)
Lemma Inv_start b0 s n : good s → b0 = blocks s → if_count s = Z.of_nat n →
  Inv b0 (fresh_ptr s) [] (replicate n blank)
    (set_if_array (Some (fresh_ptr s)) (alloc_state (BArr (replicate n blank)) s)).
Proof.
  intros Hg -> Hn.
  assert (Hfree : blocks s !! fresh_ptr s = None).
  { apply eq_None_not_Some. intros ?%Hg. lia. }
  assert (Hown : own (fresh_ptr s) [] (replicate n blank) = [fresh_ptr s]).
  { unfold own. f_equal. clear Hn. induction n; [done|exact IHn]. }
  constructor; rewrite ?Hown; simpl; try done.
  - intros p Hp. destruct (decide (p = fresh_ptr s)) as [->|]; [lia|].
    rewrite lookup_insert_ne in Hp by done. apply Hg in Hp. lia.
  - by rewrite length_replicate.
  - by rewrite lookup_insert_eq.
  - intros p Hp. assert (p = fresh_ptr s) as -> by set_solver. rewrite lookup_insert_eq. eauto.
  - intros p Hp. rewrite lookup_insert_ne; [done|]. set_solver.
  - apply NoDup_singleton.
Qed.

(** The items [specs] are in the caller's structure, and nothing else was
    added to the memory [b0]. *)
Definition represents (b0 : gmap positive block) (specs : list item) (s : state) : Prop :=
  ∃ a es, Inv b0 a [] es s ∧ es ≠ [] ∧ Forall2 (rep (blocks s)) es specs.

Definition outcome_of (b0 : gmap positive block) (t : bytes) (n0 : nat) (ret : Z) (s : state) : Prop :=
  (ret = EXIT_SUCCESS ∧ ∃ specs, parse_list t = Some specs ∧ represents b0 specs s) ∨
  (ret = EXIT_FAILURE ∧ blocks s = b0 ∧ if_count s = 0 ∧
     (parse_list t = None ∨ ∃ i, (n0 ≤ i < allocs s)%nat ∧ oracle s i = false)).

(** From the result of "Get interfaces" to the result of the function. *)
Lemma finish_ok b0 a cs es t n0 ret s :
  Inv b0 a cs es s → es ≠ [] → (cs = [] ∨ ∃ c, cs = [c]) →
  ((ret = EXIT_SUCCESS ∧ ∃ specs, parse_list t = Some specs ∧ Forall2 (rep (blocks s)) es specs) ∨
   (ret = EXIT_FAILURE ∧
      (parse_list t = None ∨ ∃ i, (n0 ≤ i < allocs s)%nat ∧ oracle s i = false))) →
  wp (when (bool_decide (is_Some (head cs))) (free (head cs));;
      if ret =? EXIT_FAILURE then
        nfpexpl_parse_interfaces_param_cleanup true;; mret EXIT_FAILURE
      else mret ret) (λ r s', oracle s' = oracle s ∧ outcome_of b0 t n0 r s') s.
Proof.
  intros HI Hne Hcs Hret.
  assert (Hfree : ∃ s', when (bool_decide (is_Some (head cs))) (free (head cs)) s = (Ret (), s') ∧
    Inv b0 a [] es s' ∧ oracle s' = oracle s ∧ allocs s' = allocs s ∧
    (∀ p, (p ∉ cs) → blocks s' !! p = blocks s !! p)).
  { destruct Hcs as [->|[c ->]]; simpl.
    - exists s. done.
    - destruct (inv_owned _ _ _ _ _ HI c) as [_ [b Hb]]; [unfold own; set_solver|].
      eexists. split; [by eapply free_step|]. split; [by apply Inv_free_copy|].
      split_and!; try done. intros p Hp. simpl. rewrite lookup_delete_ne; [done|set_solver]. }
  destruct Hfree as (s1 & Hrun & HI1 & Ho1 & Hn1 & Hx1).
  unfold wp. rewrite (bind_Ret _ _ _ _ _ Hrun). destruct Hret as [(-> & specs & Hp & Hrep)|(-> & Hcause)].
  - simpl. eexists _, _. split; [done|]. split; [done|]. left. split; [done|]. exists specs. split; [done|].
    exists a, es. split_and!; try done. apply Forall2_same_length_lookup in Hrep as [Hlen Hrep].
    apply Forall2_same_length_lookup. split; [done|]. intros i e it He Hit.
    apply (rep_ext (blocks s)); [|by apply (Hrep i)]. intros p Hpe. apply Hx1.
    by apply (eptrs_ne a cs es i e p (inv_nodup _ _ _ _ _ HI) He Hpe).
  - simpl. destruct (cleanup_ok _ _ _ _ HI1 Hne) as ([] & s2 & Hrun2 & Hb & Hc & Ho2 & Hn2).
    rewrite (bind_Ret _ _ _ _ _ Hrun2). eexists _, _. split; [done|]. split; [congruence|]. right.
    split_and!; try done. destruct Hcause as [?|(i & ? & ?)]; [auto|]. right. exists i.
    rewrite Hn2, Hn1, Ho2, Ho1. done.
Qed.

Section Parse.
Context (s : state) (ap : positive) (k : nat) (t post : bytes) (fuel : nat).
Context (Hgood : good s) (Harg : string_at (blocks s) ap k t post).
Context (Hne : t ≠ []) (Hlen : Z.of_nat (length t) < 2 ^ 31 - 1).
Context (Hfuel : (S (length t) < fuel)%nat).

Let n := length (tokens t).

(** Everything before the array is allocated. *)
Lemma parse_prefix :
  nfpexpl_parse_interfaces fuel (Some (ap, k)) true s =
  (rc ← get_interfaces fuel (ap, k);
   when (bool_decide (is_Some rc.2)) (free rc.2);;
   if rc.1 =? EXIT_FAILURE then
     nfpexpl_parse_interfaces_param_cleanup true;; mret EXIT_FAILURE
   else mret rc.1) (set_if_count (Z.of_nat n) (set_if_array None (set_if_count 0 s))).
Proof using Harg Hne Hlen Hfuel.
  unfold nfpexpl_parse_interfaces, strlen.
  rewrite bind_assoc, (bind_Ret _ _ _ _ _ (read_string_at _ _ _ _ _ Harg)), bind_ret.
  destruct (Z.eqb_spec (Z.of_nat (length t)) 0) as [H0|_]; [by destruct t|]. simpl.
  rewrite bind_modify, bind_modify.
  erewrite bind_Ret; [done|]. eapply count_loop_ok; [exact Harg|done|done|].
  pose proof (tokens_length t). lia.
Qed.

Lemma parse_ok : oracle s (allocs s) = true →
  wp (nfpexpl_parse_interfaces fuel (Some (ap, k)) true)
     (λ ret s', oracle s' = oracle s ∧ outcome_of (blocks s) t (allocs s) ret s') s.
Proof using All.
  intros Hor. unfold wp. rewrite parse_prefix.
  set (s0 := set_if_count (Z.of_nat n) (set_if_array None (set_if_count 0 s))).
  pose proof (tokens_length t) as Htl.
  assert (Hnb : replicate n blank ≠ []).
  { intros Heq%(f_equal length). rewrite length_replicate in Heq. simpl in Heq. subst n. lia. }
  unfold get_interfaces. rewrite bind_assoc, bind_gets. simpl. rewrite Nat2Z.id.
  assert (Hall : alloc (BArr (replicate n blank)) s0 =
    (Ret (Some (fresh_ptr s)), alloc_state (BArr (replicate n blank)) s0)).
  { unfold alloc. simpl. by rewrite Hor. }
  rewrite bind_assoc. fold blank. rewrite (bind_Ret _ _ _ _ _ Hall). clear Hall.
  rewrite bind_assoc, bind_modify.
  set (s1 := set_if_array (Some (fresh_ptr s)) _).
  assert (HI1 : Inv (blocks s) (fresh_ptr s) [] (replicate n blank) s1)
    by (by apply (Inv_start _ s0)).
  assert (Hap1 : string_at (blocks s1) ap k t post).
  { eapply string_at_ext; [|exact Harg]. simpl. apply lookup_insert_ne.
    intros Heq. destruct Harg as (_ & l & Hl & _). assert (is_Some (blocks s !! ap)) as Hs%Hgood by eauto. lia. }
  rewrite bind_assoc. unfold strdup.
  rewrite bind_assoc, (bind_Ret _ _ _ _ _ (read_string_at _ _ _ _ _ Hap1)). unfold alloc.
  unfold mbind at 1, M_bind at 1. destruct (oracle s1 (allocs s1)) eqn:Hor1.
  - change (State _ _ _ _ _ _) with (alloc_state (BStr (t ++ [0])) s1).
    pose proof (LI_start (blocks s) s0 n (tokens t) t Hgood eq_refl
      (proj1 Harg) eq_refl eq_refl eq_refl) as HL. simpl in HL. fold s1 in HL.
    rewrite bind_assoc.
    destruct (token_loop_ok _ _ _ _ _ _ _ fuel HL ltac:(lia)) as (ret & s2 & Hrun & Ho2 & es & HI2 & Hl2 & Hres).
    rewrite (bind_Ret _ _ _ _ _ Hrun), bind_ret.
    eapply wp_mono; [|eapply (finish_ok _ _ [_] es t (allocs s)); [exact HI2| |eauto|]].
    + intros r s' [? ?]. simpl in *. split; [congruence|done].
    + intros ->. simpl in Hl2. lia.
    + destruct Hres as [?|(? & [?|(i & ? & ?)])]; [by left|by right; auto|].
      right. split; [done|]. right. exists i. simpl in *. split; [lia|done].
  - change (State _ _ _ _ _ _) with (fail_state s1). rewrite bind_ret.
    eapply wp_mono; [|eapply (finish_ok _ _ [] _ t (allocs s) EXIT_FAILURE (fail_state s1));
      [by apply fail_Inv|done|by left|]].
    + intros r s' [? ?]. simpl in *. split; [congruence|done].
    + right. split; [done|]. right. exists (allocs s1). simpl in *. split; [lia|done].
Qed.
End Parse.

(** ** Printing *)

(** Decimal digits of a number with at most [fuel] of them, in front of [acc]. *)
Fixpoint dec_aux (fuel : nat) (n : Z) (acc : bytes) : bytes :=
  match fuel with
  | O => acc
  | S f => if n <? 10 then (48 + n) :: acc else dec_aux f (n / 10) ((48 + n mod 10) :: acc)
  end.
(** Ten digits are enough below 2^31. *)
Definition dec (n : Z) : bytes := dec_aux 10 n [].

Definition print_item (i : item) : bytes :=
  match i with
  | (name, None) => name
  | (name, Some (addr, n)) => name ++ ch_at :: addr ++ ch_slash :: dec n
  end.

Fixpoint print_list (l : list item) : bytes :=
  match l with
  | [] => []
  | [i] => print_item i
  | i :: r => print_item i ++ ch_comma :: print_list r
  end.

Definition item_ok (i : item) : Prop :=
  (ch_comma ∉ i.1) ∧ (ch_at ∉ i.1) ∧
  match i.2 with
  | None => True
  | Some (addr, n) => (ch_comma ∉ addr) ∧ (ch_slash ∉ addr) ∧ 0 ≤ n < 2 ^ 31
  end.

Lemma split_first_app c t u : c ∉ t → split_first c (t ++ c :: u) = (t, Some u).
Proof.
  induction t as [|x t IH]; simpl; [by rewrite Z.eqb_refl|].
  rewrite not_elem_of_cons. intros [? ?]. destruct (Z.eqb_spec x c); [congruence|]. by rewrite IH.
Qed.

Lemma split_first_none c t : c ∉ t → split_first c t = (t, None).
Proof.
  induction t as [|x t IH]; simpl; [done|].
  rewrite not_elem_of_cons. intros [? ?]. destruct (Z.eqb_spec x c); [congruence|]. by rewrite IH.
Qed.

Lemma dec_digit f n acc c : c ∈ dec_aux f n acc → 0 ≤ n → (48 ≤ c ≤ 57) ∨ c ∈ acc.
Proof.
  revert n acc. induction f as [|f IH]; intros n acc Hin Hn; simpl in *; [auto|].
  destruct (Z.ltb_spec n 10) as [Hlt|Hge].
  - apply elem_of_cons in Hin as [->|]; [left; lia|auto].
  - apply IH in Hin; [|apply Z.div_pos; lia]. destruct Hin as [|Hin]; [auto|].
    apply elem_of_cons in Hin as [->|]; [|auto]. pose proof (Z.mod_pos_bound n 10). lia.
Qed.

Lemma digits_dec f n acc : 0 ≤ n < 10 ^ Z.of_nat f → (0 < f)%nat →
  digits 0 (dec_aux f n acc) = digits n acc.
Proof.
  revert n acc. induction f as [|f IH]; intros n acc Hn Hf; [lia|]. simpl dec_aux.
  assert (Hd : ∀ m k, 0 ≤ k < 10 → digits m ((48 + k) :: acc) = digits (m * 10 + k) acc).
  { intros m k Hk. cbn [digits]. unfold is_digit.
    destruct (Z.leb_spec 48 (48 + k)); [|lia]. destruct (Z.leb_spec (48 + k) 57); [|lia].
    simpl. f_equal. lia. }
  destruct (Z.ltb_spec n 10); [by rewrite Hd by lia|].
  rewrite Nat2Z.inj_succ, Z.pow_succ_r in Hn by lia.
  destruct f as [|f]; [simpl in Hn; lia|].
  rewrite IH; [|split; [apply Z.div_pos; lia|apply Z.div_lt_upper_bound; lia]|lia].
  rewrite Hd by (apply Z.mod_pos_bound; lia). f_equal.
  pose proof (Z.div_mod n 10). lia.
Qed.

Lemma atoi_dec n : 0 ≤ n < 2 ^ 31 → atoi_text (dec n) = n.
Proof.
  intros Hn.
  assert (Hh : ∃ x r, dec n = x :: r ∧ 48 ≤ x ≤ 57).
  { destruct (dec n) as [|x r] eqn:E.
    - exfalso. unfold dec in E. revert E. generalize 9%nat as f.
      assert (∀ f acc m, acc ≠ [] → dec_aux f m acc ≠ []) as Hne.
      { induction f as [|f IHf]; intros acc m Ha; simpl; [done|]. destruct (m <? 10); [done|]. by apply IHf. }
      intros f. simpl. destruct (n <? 10); [done|]. by apply Hne.
    - exists x, r. split; [done|]. destruct (dec_digit 10 n [] x) as [?|?%not_elem_of_nil]; [|lia|done|done].
      unfold dec in E. rewrite E. set_solver. }
  destruct Hh as (x & r & Hd & Hx). unfold atoi_text, strtol_text. rewrite Hd. simpl.
  unfold is_space. destruct (Z.eqb_spec x 32); [lia|].
  destruct (Z.leb_spec 9 x); [|lia]. destruct (Z.leb_spec x 13); [lia|]. simpl.
  destruct (Z.eqb_spec x 45); [lia|]. destruct (Z.eqb_spec x 43); [lia|].
  change (s32 (Z.max (- 2 ^ 63) (Z.min (2 ^ 63 - 1) (digits 0 (x :: r)))) = n).
  rewrite <- Hd. unfold dec. rewrite digits_dec by (simpl; lia). simpl digits.
  rewrite Z.min_r, Z.max_r by lia. apply swrap_small; [lia|]. unfold in_int. lia.
Qed.

Lemma parse_print_item i : item_ok i → parse_token (print_item i) = Some i ∧ (ch_comma ∉ print_item i).
Proof.
  destruct i as [name [[addr n]|]]; simpl; intros (Hc & Ha & Hr); unfold parse_token; simpl in *.
  - destruct Hr as (Hc' & Hs & Hn). split.
    + rewrite split_first_app by done. rewrite split_first_app by done. by rewrite atoi_dec.
    + rewrite !not_elem_of_app, !not_elem_of_cons, !not_elem_of_app, !not_elem_of_cons.
      split_and!; try done. intros Hin. apply dec_digit in Hin; [|lia].
      destruct Hin as [Hin|?%not_elem_of_nil]; [|done]. unfold ch_comma in Hin. lia.
  - split; [by rewrite split_first_none|done].
Qed.

Lemma parse_print_list l : l ≠ [] → Forall item_ok l → parse_list (print_list l) = Some l.
Proof.
  intros Hne Hl. unfold parse_list. apply mapM_Some.
  induction Hl as [|i l Hi Hl IH]; [done|]. destruct (parse_print_item i Hi) as [Hp Hc].
  destruct l as [|j l].
  - simpl. rewrite (tokens_split _ _ _ (split_first_none _ _ Hc)). by constructor.
  - change (print_list (i :: j :: l)) with (print_item i ++ ch_comma :: print_list (j :: l)).
    rewrite (tokens_split _ _ _ (split_first_app _ _ _ Hc)). constructor; [done|by apply IH].
Qed.

(** ** Theorems *)

(** [C3] For every interface list the text of which is shorter than 2^31 - 1
    characters, and whatever later allocations fail once the array is there,
    [nfpexpl_parse_interfaces] returns without touching memory it does not own.
    Success means that the array holds exactly the items of the reference
    parser; failure means that the text is malformed or an allocation failed,
    and then every block is released and [if_count] is 0. *)
Theorem parse_interfaces_correct s ap t fuel :
  good s → blocks s !! ap = Some (BStr (t ++ [0])) → 0 ∉ t → t ≠ [] →
  Z.of_nat (length t) < 2 ^ 31 - 1 → (S (length t) < fuel)%nat →
  oracle s (allocs s) = true →
  ∃ ret s', nfpexpl_parse_interfaces fuel (Some (ap, 0%nat)) true s = (Ret ret, s') ∧
    outcome_of (blocks s) t (allocs s) ret s'.
Proof.
  intros Hg Ha H0 Hne Hl Hf Ho.
  destruct (parse_ok s ap 0 t [] fuel Hg (whole_string _ _ _ Ha H0) Hne Hl Hf Ho) as (ret & s' & ? & _ & ?). eauto.
Qed.

Definition sample (arg : string) : state :=
  State {[ 1%positive := BStr (text arg ++ [0]) ]} 2 (λ _, true) 0 7 None.

Lemma sample_good arg : good (sample arg).
Proof.
  intros p [b Hp]. simpl in *. apply lookup_singleton_Some in Hp as [<- _]. lia.
Qed.

Lemma parse_interfaces_correct_witness :
  ∃ ret s', nfpexpl_parse_interfaces 40 (Some (1%positive, 0%nat)) true (sample "eth1@10.0.0.1/24,eth2") =
    (Ret ret, s') ∧
  outcome_of (blocks (sample "eth1@10.0.0.1/24,eth2")) (text "eth1@10.0.0.1/24,eth2") 0 ret s'.
Proof.
  apply (parse_interfaces_correct (sample "eth1@10.0.0.1/24,eth2") 1 (text "eth1@10.0.0.1/24,eth2") 40).
  - apply sample_good.
  - done.
  - apply (bool_decide_unpack _). by vm_compute.
  - done.
  - by vm_compute.
  - vm_compute. lia.
  - done.
Defined.

(** With memory to spare, printing a list of interfaces and parsing the
    text stores the same list: names without separators, addresses with their
    mask length. *)
Theorem parse_interfaces_roundtrip s ap l fuel :
  l ≠ [] → Forall item_ok l → (0 ∉ print_list l) → print_list l ≠ [] →
  good s → blocks s !! ap = Some (BStr (print_list l ++ [0])) →
  Z.of_nat (length (print_list l)) < 2 ^ 31 - 1 → (S (length (print_list l)) < fuel)%nat →
  (∀ i, oracle s i = true) →
  ∃ s', nfpexpl_parse_interfaces fuel (Some (ap, 0%nat)) true s = (Ret EXIT_SUCCESS, s') ∧
    represents (blocks s) l s'.
Proof.
  intros Hl Hok H0 Hp Hg Ha Hlen Hf Ho.
  destruct (parse_ok s ap 0 _ [] fuel Hg (whole_string _ _ _ Ha H0) Hp Hlen Hf (Ho _)) as (ret & s' & Hrun & Hos & Hout).
  rewrite Hrun. exists s'. destruct Hout as [(-> & specs & Hs & Hr)|(_ & _ & _ & Hc)].
  - rewrite parse_print_list in Hs by done. by simplify_eq.
  - rewrite parse_print_list in Hc by done. destruct Hc as [?|(i & _ & Hi)]; [done|].
    rewrite Hos, Ho in Hi. done.
Qed.

Definition sample_items : list item :=
  [(text "eth1", Some (text "10.0.0.1", 24)); (text "eth2", None)].

Lemma parse_interfaces_roundtrip_witness :
  ∃ s', nfpexpl_parse_interfaces 40 (Some (1%positive, 0%nat)) true (sample "eth1@10.0.0.1/24,eth2") =
      (Ret EXIT_SUCCESS, s') ∧
    represents (blocks (sample "eth1@10.0.0.1/24,eth2")) sample_items s'.
Proof.
  apply (parse_interfaces_roundtrip (sample "eth1@10.0.0.1/24,eth2") 1 sample_items 40).
  - done.
  - unfold sample_items. rewrite !Forall_cons. split_and!; try done;
      unfold item_ok; simpl; split_and!; try lia; apply (bool_decide_unpack _); by vm_compute.
  - apply (bool_decide_unpack _). by vm_compute.
  - done.
  - apply sample_good.
  - by vm_compute.
  - by vm_compute.
  - vm_compute. lia.
  - done.
Defined.

(** Parsing and then cleaning up after a success gives the memory back as
    it was, whatever the text and whatever allocations fail after the first:
    no block leaks and none is freed twice. *)
Theorem parse_interfaces_no_leak s ap t fuel :
  good s → blocks s !! ap = Some (BStr (t ++ [0])) → 0 ∉ t → t ≠ [] →
  Z.of_nat (length t) < 2 ^ 31 - 1 → (S (length t) < fuel)%nat →
  oracle s (allocs s) = true →
  ∃ s', (ret ← nfpexpl_parse_interfaces fuel (Some (ap, 0%nat)) true;
         when (ret =? EXIT_SUCCESS) (nfpexpl_parse_interfaces_param_cleanup true)) s = (Ret (), s') ∧
    blocks s' = blocks s ∧ if_count s' = 0.
Proof.
  intros Hg Ha H0 Hne Hl Hf Ho.
  destruct (parse_ok s ap 0 t [] fuel Hg (whole_string _ _ _ Ha H0) Hne Hl Hf Ho) as (ret & s1 & Hrun & _ & Hout).
  rewrite (bind_Ret _ _ _ _ _ Hrun).
  destruct Hout as [(-> & specs & _ & a & es & HI & Hes & _)|(-> & Hb & Hc & _)]; simpl; [|eauto].
  destruct (cleanup_ok _ _ _ _ HI Hes) as ([] & s2 & Hrun2 & Hb & Hc & _). eauto.
Qed.

Lemma parse_interfaces_no_leak_witness :
  ∃ s', (ret ← nfpexpl_parse_interfaces 40 (Some (1%positive, 0%nat)) true;
         when (ret =? EXIT_SUCCESS) (nfpexpl_parse_interfaces_param_cleanup true))
          (sample "eth1@10.0.0.1,eth2") = (Ret (), s') ∧
    blocks s' = blocks (sample "eth1@10.0.0.1,eth2") ∧ if_count s' = 0.
Proof.
  apply (parse_interfaces_no_leak (sample "eth1@10.0.0.1,eth2") 1 (text "eth1@10.0.0.1,eth2") 40).
  - apply sample_good.
  - done.
  - apply (bool_decide_unpack _). by vm_compute.
  - done.
  - by vm_compute.
  - vm_compute. lia.
  - done.
Defined.

(** When the allocation of the array fails, the error path calls the
    cleanup with [if_count] already set and [if_array] NULL, and the cleanup
    dereferences the array: the call does not return [EXIT_FAILURE]. *)
Theorem parse_interfaces_calloc_failure s ap t fuel :
  good s → blocks s !! ap = Some (BStr (t ++ [0])) → 0 ∉ t → t ≠ [] →
  Z.of_nat (length t) < 2 ^ 31 - 1 → (S (length t) < fuel)%nat →
  oracle s (allocs s) = false →
  (nfpexpl_parse_interfaces fuel (Some (ap, 0%nat)) true s).1 = Stuck.
Proof.
  intros Hg Ha H0 Hne Hl Hf Ho. rewrite (parse_prefix s ap 0 t [] fuel) by (done || by apply whole_string).
  unfold get_interfaces. rewrite bind_assoc, bind_gets, bind_assoc.
  unfold alloc. unfold mbind at 1, M_bind at 1. simpl. rewrite Ho.
  rewrite bind_assoc, bind_modify, bind_ret. simpl.
  unfold nfpexpl_parse_interfaces_param_cleanup. cbn [negb]. rewrite bind_ret, bind_assoc, bind_gets.
  cbn [if_count set_if_array].
  destruct (Z.eqb_spec (Z.of_nat (length (tokens t))) 0) as [Hz|_].
  { pose proof (tokens_length t). lia. }
  rewrite Nat2Z.id. pose proof (tokens_length t). by destruct (length (tokens t)); [lia|].
Qed.

Lemma parse_interfaces_calloc_failure_witness :
  (nfpexpl_parse_interfaces 10 (Some (1%positive, 0%nat)) true
     (State {[ 1%positive := BStr (text "eth1" ++ [0]) ]} 2 (λ _, false) 0 0 None)).1 = Stuck.
Proof.
  apply (parse_interfaces_calloc_failure _ 1 (text "eth1") 10).
  - intros p [b Hp]. simpl in *. apply lookup_singleton_Some in Hp as [<- _]. lia.
  - done.
  - apply (bool_decide_unpack _). by vm_compute.
  - done.
  - by vm_compute.
  - vm_compute. lia.
  - done.
Defined.

End CliArgParseProofs.
