(* ===== verification/Strtok.v ===== *)
(** * Tokens of a string

    [strtok] with a single delimiter, over the heap of [CliArgParse], and the
    reference function [words] it agrees with. *)

From S2P Require Import Prelude CliArgParse CliArgParseProofs.
Import CliArgParse.
Import CliArgParseProofs(string_at, string_at_inj, chars_at, read_string_at, scan_found, scan_not_found, split_first, split_first_spec).

Module Strtok.

(** ** Cutting the copy *)

(** [p] points to the string [u]. *)
Definition str_at (h : state) (p : ptr) (u : bytes) : Prop := ∃ r, string_at (blocks h) p.1 p.2 u r.

(** [h'] is [h] with other characters in block [c]. *)
Definition recut (c : positive) (h h' : state) : Prop :=
  ∃ l, h' = set_blocks (<[c := BStr l]>) h ∧ ∀ l0, blocks h !! c = Some (BStr l0) → length l = length l0.

Lemma recut_refl c h l : blocks h !! c = Some (BStr l) → recut c h h.
Proof.
  intros Hc. exists l. split; [|congruence]. destruct h. unfold set_blocks. simpl in *. by rewrite insert_id.
Qed.

Lemma recut_trans c h1 h2 h3 : recut c h1 h2 → recut c h2 h3 → recut c h1 h3.
Proof.
  intros (l & -> & Hl) (l' & -> & Hl'). exists l'. split; [unfold set_blocks; simpl; by rewrite insert_insert_eq|].
  intros l0 Hl0. rewrite <- (Hl _ Hl0). apply Hl'. apply lookup_insert_eq.
Qed.

(** A string before the place that is written stays. *)
Lemma store_keeps h c k l q u :
  blocks h !! c = Some (BStr l) → str_at h q u → (q.1 ≠ c ∨ q.2 + length u < k)%nat →
  str_at (set_blocks (<[c := BStr (<[k := 0]> l)]>) h) q u.
Proof.
  intros Hc (r & H0 & l0 & Hl & Hd) Hq. destruct (decide (q.1 = c)) as [Heq|Hne].
  - destruct Hq as [?|Hq]; [done|]. rewrite Heq in Hl. simplify_eq.
    exists (<[(k - q.2 - S (length u))%nat := 0]> r). split; [done|]. eexists. split; [simpl; by rewrite lookup_insert_eq|].
    rewrite drop_insert_ge by lia. rewrite Hd.
    assert (Hk : (k - q.2 = length u + S (k - q.2 - S (length u)))%nat) by lia. rewrite Hk at 1. by rewrite insert_app_r.
  - exists r. split; [done|]. exists l0. split; [|done]. simpl. by rewrite lookup_insert_ne.
Qed.

Lemma string_drop m c k a t r : string_at m c k (a ++ t) r → string_at m c (k + length a) t r.
Proof.
  intros (H0 & l & Hl & Hd). split; [set_solver|]. exists l. split; [done|].
  by rewrite <- drop_drop, Hd, <- app_assoc, drop_app_length.
Qed.

(** ** Tokens *)

Section Tokens.
Context (delim : Z).

Fixpoint skip_delim (l : bytes) : nat :=
  match l with
  | x :: r => if x =? delim then S (skip_delim r) else 0%nat
  | [] => 0%nat
  end.

(** [strtok], or [strtok_r], with one delimiter, from [s] on: the token, and
    where the next call goes on. *)
Definition strtok (s : ptr) : M state (option ptr * ptr) :=
  l ← chars s;
  let k := skip_delim l in
  let token := (s.1, (s.2 + k)%nat) in
  c ← of_option (l !! k);
  if c =? 0 then mret (None, token)
  else
    match scan (drop k l) delim with
    | Found n =>
        store_char (s.1, (s.2 + k + n)%nat) 0;;
        mret (Some token, (s.1, S (s.2 + k + n)))
    | NotFound =>
        len ← strlen token;
        mret (Some token, (s.1, (s.2 + k + Z.to_nat len)%nat))
    | Overrun => stuck
    end.

(** ** Words *)

Definition flush (cur : bytes) : list bytes := match cur with [] => [] | _ => [cur] end.
Fixpoint words_from (cur t : bytes) : list bytes :=
  match t with
  | [] => flush cur
  | c :: t' => if c =? delim then flush cur ++ words_from [] t' else words_from (cur ++ [c]) t'
  end.
(** The words of a text, separated by delimiters. *)
Definition words (t : bytes) : list bytes := words_from [] t.

Lemma words_delims n t : words (replicate n delim ++ t) = words t.
Proof. induction n as [|n IH]; [done|]. unfold words. simpl. rewrite Z.eqb_refl. exact IH. Qed.

Lemma words_from_app cur w t : (delim ∉ w) → words_from cur (w ++ t) = words_from (cur ++ w) t.
Proof.
  revert cur. induction w as [|x w IH]; intros cur Hw; simpl; [by rewrite app_nil_r|].
  rewrite not_elem_of_cons in Hw. destruct Hw as [Hx Hw]. destruct (Z.eqb_spec x delim); [congruence|].
  rewrite IH by done. by rewrite <- app_assoc.
Qed.

Lemma flush_some w : w ≠ [] → flush w = [w].
Proof. by destruct w. Qed.

Lemma words_last w : w ≠ [] → (delim ∉ w) → words w = [w].
Proof.
  intros Hne Hw. unfold words. rewrite <- (app_nil_r w) at 1. rewrite words_from_app by done. simpl. by apply flush_some.
Qed.

Lemma words_cons w t : w ≠ [] → (delim ∉ w) → words (w ++ delim :: t) = w :: words t.
Proof. intros Hne Hw. unfold words. rewrite words_from_app by done. simpl. by rewrite Z.eqb_refl, flush_some. Qed.

Lemma words_from_length cur t w : w ∈ words_from cur t → (length w ≤ length cur + length t)%nat.
Proof.
  revert cur. induction t as [|c t IH]; intros cur; simpl.
  - destruct cur; simpl; set_solver by lia.
  - destruct (c =? delim).
    + rewrite elem_of_app. intros [Hw|Hw%IH]; [|simpl in Hw; lia]. destruct cur; simpl in *; set_solver by lia.
    + intros Hw%IH. rewrite length_app in Hw. simpl in Hw. lia.
Qed.

Lemma words_length t w : w ∈ words t → (length w ≤ length t)%nat.
Proof. apply (words_from_length []). Qed.

Lemma words_from_count cur t : (length (words_from cur t) ≤ length (flush cur) + length t)%nat.
Proof.
  revert cur. induction t as [|c t IH]; intros cur; simpl; [lia|]. destruct (c =? delim).
  - rewrite length_app. pose proof (IH []) as H. simpl in H. lia.
  - pose proof (IH (cur ++ [c])) as H. assert (length (flush (cur ++ [c])) ≤ 1)%nat by (destruct (cur ++ [c]); simpl; lia). lia.
Qed.

(** There are no more words than characters. *)
Lemma words_count t : (length (words t) ≤ length t)%nat.
Proof. apply (words_from_count []). Qed.

Context (Hdelim : delim ≠ 0).

(** A text starts with delimiters, and then there is nothing or a word. *)
Lemma skip_spec t r :
  skip_delim (t ++ 0 :: r) = skip_delim t ∧ (skip_delim t ≤ length t)%nat ∧
  t = replicate (skip_delim t) delim ++ drop (skip_delim t) t ∧ head (drop (skip_delim t) t) ≠ Some delim.
Proof using Hdelim.
  induction t as [|x t (IH1 & IH2 & IH3 & IH4)]; cbn -[Z.eqb].
  { rewrite (proj2 (Z.eqb_neq 0 delim)) by lia. by split_and!. }
  destruct (Z.eqb_spec x delim) as [->|Hx]; simpl.
  - split_and!; [by rewrite IH1|lia|by rewrite <- IH3|done].
  - split_and!; [done|lia|done|congruence].
Qed.

(** What a call of [strtok] leaves: the word it found, and the rest. *)
Definition strtok_result (c : positive) (k : nat) (t : bytes) (h : state)
    (x : option ptr * ptr) (h' : state) : Prop :=
  recut c h h' ∧
  (∀ q u, str_at h q u → (q.1 ≠ c ∨ q.2 + length u < k ∨ t = [])%nat → str_at h' q u) ∧
  ∃ k' rest, x.2 = (c, k') ∧ string_at (blocks h') c k' rest [] ∧ (k ≤ k')%nat ∧ (t = [] → rest = []) ∧
    match x.1 with
    | None => words t = []
    | Some p => ∃ w, p.1 = c ∧ str_at h' p w ∧ words t = w :: words rest ∧
                     (p.2 + length w < k' ∨ rest = [])%nat
    end.

Lemma strtok_ok c k t h :
  string_at (blocks h) c k t [] → wp (strtok (c, k)) (strtok_result c k t h) h.
Proof using Hdelim.
  intros Hs. pose proof Hs as (H0 & l & Hl & Hd). destruct (skip_spec t []) as (Hskip & Hle & Ht & Hhd).
  apply wp_bind. eexists _, _. split; [exact (chars_at _ _ _ _ _ Hs)|]. cbn [fst snd]. cbv zeta. rewrite Hskip.
  set (n := skip_delim t) in *. set (v := drop n t) in *.
  assert (Hv : string_at (blocks h) c (k + n) v []).
  { rewrite Ht in Hs. apply string_drop in Hs. by rewrite length_replicate in Hs. }
  assert (Hvl : drop n (t ++ [0]) = v ++ [0]) by (unfold v; by rewrite drop_app_le by done).
  assert (Hc : (t ++ [0]) !! n = head (v ++ [0])) by (rewrite <- Hvl; by rewrite head_lookup, lookup_drop, Nat.add_0_r).
  assert (Hw : words t = words v) by (rewrite Ht; apply words_delims).
  apply wp_bind. destruct v as [|x v'] eqn:Ev; cbn [app head] in Hc.
  { eapply wp_of_option; [exact Hc|]. apply wp_ret. split; [by eapply recut_refl|]. split; [done|].
    exists (k + n)%nat, []. cbn [fst snd]. rewrite Hw. split_and!; [done|done|lia|done|done]. }
  eapply wp_of_option; [exact Hc|]. destruct (Z.eqb_spec x 0) as [->|Hx]; [destruct Hv; set_solver|].
  rewrite Hvl. destruct (split_first delim (x :: v')) as [w o] eqn:E.
  destruct (split_first_spec _ _ _ _ E) as [Hns Hvw].
  assert (Hwne : w ≠ []).
  { intros ->. destruct o; [|done]. simpl in Hvw. injection Hvw as -> _. by apply Hhd. }
  rewrite Hvw in *. destruct o as [rest|].
  - assert (H0w : (0 ∉ w)) by (destruct Hv as [Hv _]; set_solver).
    rewrite <- app_assoc. cbn [app]. rewrite scan_found by done. apply wp_bind.
    assert (Hlen : (k + n + length w < length l)%nat).
    { destruct Hv as (_ & l' & Hl' & Hd'). simplify_eq. apply (f_equal length) in Hd'.
      rewrite length_drop, !length_app in Hd'. simpl in Hd'. lia. }
    set (l' := <[(k + n + length w)%nat := 0]> l).
    assert (Hstore : store_char (c, (k + n + length w)%nat) 0 h = (Ret (), set_blocks (<[c := BStr l']>) h)).
    { unfold store_char. rewrite bind_gets. simpl. rewrite Hl. by destruct (decide _). }
    eexists _, _. split; [exact Hstore|]. apply wp_ret. split.
    { exists l'. split; [done|]. intros l0 Hl0. simplify_eq. apply length_insert. }
    split.
    + intros q u Hq Hlt. apply store_keeps; [done|done|]. cbn [fst snd] in *. destruct Hlt as [?|[?| ->]]; [by left|right; lia|].
      destruct w; [done|]. simpl in Ht. by destruct n.
    + destruct (CliArgParseProofs.store_cut h c (k + n) w delim rest [] Hv) as (l2 & Hst & H1 & H2 & _).
      rewrite Hstore in Hst. injection Hst as Hst.
      assert (Hl2 : (<[c := BStr l']> (blocks h)) !! c = Some (BStr l2)).
      { apply (f_equal (λ m, m !! c)) in Hst. rewrite !lookup_insert_eq in Hst. by rewrite lookup_insert_eq. }
      exists (S (k + n + length w)), rest. cbn [fst snd]. split_and!; [done|by apply H2|lia| |].
      { intros ->. destruct w; [done|]. by destruct n. }
      exists w. split_and!; [done|eexists; by apply H1| |simpl; lia]. rewrite Hw. by apply words_cons.
  - rewrite scan_not_found by (done || by destruct Hv). apply wp_bind.
    eapply wp_bind. eexists _, _. split; [exact (read_string_at _ _ _ _ _ Hv)|]. apply wp_ret, wp_ret.
    split; [by eapply recut_refl|]. split; [done|]. rewrite Nat2Z.id.
    exists (k + n + length w)%nat, []. cbn [fst snd]. split_and!; [done| |lia|done|].
    + apply string_drop. by rewrite app_nil_r.
    + exists w. split_and!; [done|by eexists| |by right]. rewrite Hw. by apply words_last.
Qed.
End Tokens.

End Strtok.
