(* ===== verification/ArgHeap.v ===== *)
(** * Memory of a parsed command line

    The programs keep, besides the interface list of [CliArgParse], copies of
    some option arguments.  [holds b0 ps h]: the memory of [h] is [b0] plus the
    strings at [ps] plus the interface list, if there is one. *)

From S2P Require Import Prelude CliArgParse CliArgParseProofs.
Import CliArgParse CliArgParseProofs.

Module ArgHeap.

Abbreviation memory := (gmap positive block).

(** The interface part of memory: none yet, or the parsed list on top of [b1]. *)
Definition itf_part (b1 : memory) (h : state) : Prop :=
  (if_count h = 0 ∧ blocks h = b1) ∨ ∃ specs, represents b1 specs h.

(** [b1] is [b0] with the strings. *)
Record with_copies (b0 b1 : memory) (ps : list positive) : Prop := {
  wc_base p : (p ∉ ps) → b1 !! p = b0 !! p;
  wc_copy p : p ∈ ps → b0 !! p = None ∧ ∃ t, b1 !! p = Some (BStr (t ++ [0]));
  wc_nodup : NoDup (ps);
}.

Definition holds (b0 : memory) (ps : list positive) (h : state) : Prop :=
  ∃ b1, with_copies b0 b1 ps ∧ itf_part b1 h ∧ good h ∧ (∀ i, oracle h i = true).

(** What was there is still there. *)
Lemma holds_base b0 ps h p b : holds b0 ps h → b0 !! p = Some b → blocks h !! p = Some b.
Proof.
  intros (b1 & Hw & Hi & _) Hp.
  assert (Hb1 : b1 !! p = Some b).
  { rewrite (wc_base _ _ _ Hw); [done|]. intros [Hn _]%(wc_copy _ _ _ Hw). congruence. }
  destruct Hi as [[_ ->]|(specs & arr & es & HI & _)]; [done|].
  rewrite (inv_frame _ _ _ _ _ HI); [done|]. intros [Hn _]%(inv_owned _ _ _ _ _ HI). congruence.
Qed.

(** A block below the interfaces is in memory. *)
Lemma itf_below b1 h p b : itf_part b1 h → b1 !! p = Some b → blocks h !! p = Some b.
Proof.
  intros [[_ ->]|(specs & arr & es & HI & _)] Hp; [done|].
  rewrite (inv_frame _ _ _ _ _ HI); [done|]. intros [Hn _]%(inv_owned _ _ _ _ _ HI). congruence.
Qed.

(** The interfaces are not disturbed by an allocation. *)
Lemma Inv_extend b1 arr es h b :
  Inv b1 arr [] es h →
  Inv (<[fresh_ptr h := b]> b1) arr [] es (alloc_state b h).
Proof.
  intros HI. destruct (Inv_fresh _ _ _ _ _ HI) as [Hnone Hno].
  destruct HI as [Hf Ha Hn He Ho Hfr Hnd].
  assert (Hfa : fresh_ptr h ≠ arr) by (intros Hx; rewrite Hx in Hnone; congruence).
  constructor; simpl; try done.
  - intros p Hp. destruct (decide (p = fresh_ptr h)) as [->|]; [lia|].
    rewrite lookup_insert_ne in Hp by done. apply Hf in Hp. lia.
  - by rewrite lookup_insert_ne.
  - intros p Hp. assert (fresh_ptr h ≠ p) by (intros <-; done).
    rewrite !lookup_insert_ne by done. by apply Ho.
  - intros p Hp. destruct (decide (p = fresh_ptr h)) as [->|]; [by rewrite !lookup_insert_eq|].
    rewrite !lookup_insert_ne by done. by apply Hfr.
Qed.

Lemma itf_extend b1 h b :
  good h → itf_part b1 h → itf_part (<[fresh_ptr h := b]> b1) (alloc_state b h).
Proof.
  intros Hg [[Hc <-]|(specs & arr & es & HI & Hne & Hrep)]; [by left|]. right.
  exists specs, arr, es. split_and!; [by apply Inv_extend|done|].
  eapply Forall2_impl; [exact Hrep|]. intros e it He. apply (rep_ext (blocks h)); [|done].
  intros p Hp. simpl. apply lookup_insert_ne. intros <-.
  assert (is_Some (blocks h !! fresh_ptr h)) as Hs%Hg; [|lia].
  destruct He as [(q & Hq & Hb) Ha]. unfold eptrs in Hp. rewrite Hq in Hp.
  apply elem_of_app in Hp as [Hp|Hp]; [apply list_elem_of_singleton in Hp as ->; eauto|].
  destruct it as [? [[addr n]|]]; simpl in Ha.
  - destruct Ha as (_ & q' & Hq' & Hb'). rewrite Hq' in Hp.
    apply list_elem_of_singleton in Hp as ->. eauto.
  - destruct Ha as [Hn _]. rewrite Hn in Hp. by apply elem_of_nil in Hp.
Qed.

Lemma good_alloc h b : good h → good (alloc_state b h).
Proof.
  intros Hg p Hp. simpl in *. destruct (decide (p = fresh_ptr h)) as [->|]; [lia|].
  rewrite lookup_insert_ne in Hp by done. apply Hg in Hp. lia.
Qed.

(** One more string. *)
Lemma holds_copy b0 ps h t :
  holds b0 ps h → holds b0 (fresh_ptr h :: ps) (alloc_state (BStr (t ++ [0])) h).
Proof.
  intros Hh. pose proof (λ p b, holds_base _ _ _ p b Hh) as Hbase.
  destruct Hh as (b1 & Hw & Hi & Hg & Ho).
  assert (Hnone : blocks h !! fresh_ptr h = None).
  { apply eq_None_not_Some. intros ?%Hg. lia. }
  assert (Hnb0 : b0 !! fresh_ptr h = None).
  { destruct (b0 !! fresh_ptr h) eqn:E; [|done]. apply Hbase in E. congruence. }
  assert (Hno : fresh_ptr h ∉ ps).
  { intros (_ & t' & Ht')%(wc_copy _ _ _ Hw). apply (itf_below _ _ _ _ Hi) in Ht'. congruence. }
  exists (<[fresh_ptr h := BStr (t ++ [0])]> b1).
  split_and!; [|by apply itf_extend|by apply good_alloc|done].
  constructor.
  - intros p. rewrite not_elem_of_cons. intros [? ?].
    rewrite lookup_insert_ne by done. by apply (wc_base _ _ _ Hw).
  - intros p. rewrite elem_of_cons. intros [->|Hin].
    + split; [done|]. exists t. apply lookup_insert_eq.
    + rewrite lookup_insert_ne by congruence. by apply (wc_copy _ _ _ Hw).
  - apply NoDup_cons. split; [done|apply (wc_nodup _ _ _ Hw)].
Qed.

(** The order of the strings does not matter. *)
Lemma holds_perm b0 ps ps' h : ps' ≡ₚ ps → holds b0 ps h → holds b0 ps' h.
Proof.
  intros Hp (b1 & [H1 H2 H3] & ?). exists b1. split; [|done]. constructor.
  - intros p. rewrite Hp. apply H1.
  - intros p. rewrite Hp. apply H2.
  - by rewrite Hp.
Qed.

Lemma holds_count b0 ps h : holds b0 ps h → 0 ≤ if_count h.
Proof.
  intros (b1 & _ & [[-> _]|(specs & arr & es & HI & _)] & _); [done|].
  rewrite (inv_count _ _ _ _ _ HI). lia.
Qed.

(** Before any option: the caller's strings only. *)
Definition ready (b0 : memory) (h : state) : Prop :=
  blocks h = b0 ∧ good h ∧ ∀ i, oracle h i = true.

Lemma ready_holds b0 h :
  ready b0 h → holds b0 [] (set_if_array None (set_if_count 0 h)).
Proof.
  intros (Hb & Hg & Ho). exists b0. split_and!; [|by left|done|done]. constructor; [done| |constructor].
  intros p Hp. by apply elem_of_nil in Hp.
Qed.

(** ** Option arguments *)

(** The argument is a string of [b0] and short enough for the fuel. *)
Definition arg_ok (b0 : memory) (fuel : nat) (arg : ptr) : Prop :=
  ∃ t r, string_at b0 arg.1 arg.2 t r ∧
    Z.of_nat (length t) < 2 ^ 31 - 1 ∧ (S (length t) < fuel)%nat.

Lemma whole_arg b0 fuel p t :
  b0 !! p = Some (BStr (t ++ [0])) → (0 ∉ t) → Z.of_nat (length t) < 2 ^ 31 - 1 → (S (length t) < fuel)%nat →
  arg_ok b0 fuel (p, 0%nat).
Proof. intros Hp H0 Hl Hf. exists t, []. split_and!; [by apply whole_string|done|done]. Qed.

Lemma holds_string b0 ps h b k t r : holds b0 ps h → string_at b0 b k t r → string_at (blocks h) b k t r.
Proof. intros Hh (H0 & l & Hl & Hd). split; [done|]. exists l. split; [by eapply holds_base|done]. Qed.

Lemma arg_chars b0 fuel arg ps h :
  holds b0 ps h → arg_ok b0 fuel arg →
  ∃ t r, string_at (blocks h) arg.1 arg.2 t r ∧
    Z.of_nat (length t) < 2 ^ 31 - 1 ∧ (S (length t) < fuel)%nat.
Proof. intros Hh (t & r & Hs & Hl & Hf). exists t, r. split_and!; [by eapply holds_string|done|done]. Qed.

Lemma read_arg_ok b0 fuel arg ps h (Q : bytes → state → Prop) :
  holds b0 ps h → arg_ok b0 fuel arg →
  (∀ t, (∃ r, string_at b0 arg.1 arg.2 t r) → Q t h) → wp (read_string arg) Q h.
Proof.
  intros Hh (t & r & Hs & _) HQ. destruct arg as [bp off].
  exists t, h. split; [by eapply read_string_at, holds_string|]. apply HQ. by exists r.
Qed.

Lemma atoi_ok b0 fuel arg ps h (Q : Z → state → Prop) :
  holds b0 ps h → arg_ok b0 fuel arg →
  (∀ t, (∃ r, string_at b0 arg.1 arg.2 t r) → Q (atoi_text t) h) → wp (atoi arg) Q h.
Proof.
  intros Hh Hok HQ. apply wp_bind. eapply read_arg_ok; [done..|]. intros t Ht. by apply wp_ret, HQ.
Qed.

(** [strlen(optarg)], and its copy when there is memory. *)
Lemma strlen_ok b0 fuel arg ps h (Q : Z → state → Prop) :
  holds b0 ps h → arg_ok b0 fuel arg → (∀ n, Q n h) → wp (strlen arg) Q h.
Proof.
  intros Hh Hok HQ. destruct arg as [bp off].
  destruct (arg_chars _ _ _ _ _ Hh Hok) as (t & r & Hs & _). simpl in *.
  apply wp_bind. exists t, h. split; [by apply (read_string_at _ _ _ _ _ Hs)|]. by apply wp_ret.
Qed.

Lemma alloc_string_ok b0 ps h t (Q : option positive → state → Prop) :
  holds b0 ps h →
  (∀ p h', holds b0 (p :: ps) h' → if_count h' = if_count h → Q (Some p) h') →
  wp (alloc (BStr (t ++ [0]))) Q h.
Proof.
  intros Hh HQ. pose proof Hh as (_ & _ & _ & _ & Hor).
  exists (Some (fresh_ptr h)), (alloc_state (BStr (t ++ [0])) h).
  split; [unfold alloc; by rewrite Hor|]. apply HQ; [by apply holds_copy|done].
Qed.

Lemma copy_string_ok b0 fuel arg ps h (Q : option positive → state → Prop) :
  holds b0 ps h → arg_ok b0 fuel arg →
  (∀ p h', holds b0 (p :: ps) h' → if_count h' = if_count h → Q (Some p) h') →
  wp (t ← read_string arg; alloc (BStr (t ++ [0]))) Q h.
Proof.
  intros Hh Hok HQ. destruct arg as [bp off].
  destruct (arg_chars _ _ _ _ _ Hh Hok) as (t & r & Hs & _). simpl in *.
  apply wp_bind. exists t, h. split; [by apply (read_string_at _ _ _ _ _ Hs)|].
  by eapply alloc_string_ok.
Qed.

(** Memory handed out is not handed out again. *)
Definition ahead (h h' : state) : Prop := (fresh_ptr h ≤ fresh_ptr h')%positive.

#[local] Instance ahead_preorder : PreOrder ahead.
Proof. unfold ahead. split; [intros h; lia|intros h1 h2 h3; lia]. Qed.

Lemma ahead_alloc b : keeps ahead (alloc b).
Proof.
  intros h r h' H. unfold alloc in H. unfold ahead. destruct (oracle h (allocs h)); simplify_eq; simpl; lia.
Qed.

Lemma ahead_modify f : (∀ h, fresh_ptr (f h) = fresh_ptr h) → keeps ahead (modify f).
Proof. intros Hf h r h' [= <- <-]. unfold ahead. rewrite Hf. lia. Qed.

Hint Resolve ahead_alloc : keeps.
Hint Extern 1 (keeps _ (modify _)) => apply ahead_modify; done : keeps.

Lemma ahead_free q : keeps ahead (free q).
Proof. unfold free. frame. Qed.
Hint Resolve ahead_free : keeps.

Lemma ahead_cleanup b : keeps ahead (nfpexpl_parse_interfaces_param_cleanup b).
Proof. unfold nfpexpl_parse_interfaces_param_cleanup, read_entry, array. frame. Qed.
Hint Resolve ahead_cleanup : keeps.

Lemma ahead_parse fuel argv b : keeps ahead (nfpexpl_parse_interfaces fuel argv b).
Proof.
  unfold nfpexpl_parse_interfaces, get_interfaces, token_step, token_address, count_step, write_entry,
    array, store_char, strdup, strlen, atoi, read_string, strchr, chars. frame.
Qed.

Lemma interfaces_ok b0 fuel arg ps h :
  holds b0 ps h → arg_ok b0 fuel arg → if_count h = 0 →
  wp (nfpexpl_parse_interfaces fuel (Some arg) true) (λ ret h',
    (ret = EXIT_FAILURE ∨ ret = EXIT_SUCCESS) ∧ holds b0 ps h') h.
Proof.
  intros Hh Hok Hn. destruct arg as [bp off].
  destruct (arg_chars _ _ _ _ _ Hh Hok) as (t & r & Hs & Hl & Hf). simpl in *.
  destruct Hh as (b1 & Hw & Hi & Hg & Hor).
  assert (Hb1 : blocks h = b1).
  { destruct Hi as [[_ ?]|(specs & arr & es & HI & Hne & _)]; [done|].
    rewrite (inv_count _ _ _ _ _ HI) in Hn. destruct es; [done|simpl in Hn; lia]. }
  destruct (decide (t = [])) as [->|Hne].
  { exists EXIT_FAILURE, h. split; [|split; [by left|]; by exists b1].
    unfold nfpexpl_parse_interfaces, strlen.
    by rewrite bind_assoc, (bind_Ret _ _ _ _ _ (read_string_at _ _ _ _ _ Hs)). }
  eapply wp_mono; [|apply wp_keeps; [apply (ahead_parse fuel (Some (bp, off)) true)|by apply (parse_ok h bp off t r fuel)]].
  intros ret h' [[Ho' Hout] Hahead]. rewrite Hb1 in Hout.
  destruct Hout as [(-> & specs & _ & Hrep)|(-> & Hbl & Hn' & _)].
  - split; [by right|]. exists b1. split_and!; [done|by right; exists specs| |by rewrite Ho'].
    destruct Hrep as (arr & es & HI & _). exact (inv_fresh _ _ _ _ _ HI).
  - split; [by left|]. exists b1. split_and!; [done|by left| |by rewrite Ho'].
    intros p Hp. rewrite Hbl, <- Hb1 in Hp. apply Hg in Hp. unfold ahead in Hahead. lia.
Qed.

(** ** Cleanup *)

(** The strings of the arguments can be read. *)
Lemma cstring_total t : ∃ u, cstring (t ++ [0]) = Some u.
Proof.
  induction t as [|x t [u IH]]; simpl; [by exists []|]. destruct (x =? 0); [by exists []|].
  exists (x :: u). by rewrite IH.
Qed.

Lemma read_copy h p t : blocks h !! p = Some (BStr (t ++ [0])) →
  ∃ u, read_string (p, 0%nat) h = (Ret u, h).
Proof.
  intros Hp. destruct (cstring_total t) as [u Hu]. exists u. unfold read_string, chars.
  rewrite bind_assoc, bind_gets. simpl. rewrite Hp.
  destruct (decide _) as [|Hn]; [by rewrite bind_ret, drop_0, Hu|]. rewrite length_app in Hn. simpl in Hn. lia.
Qed.

(** Freeing the strings, from a memory that has no interfaces any more. *)
Definition free_list (ps : list (option positive)) : M state unit :=
  foldr (λ p k, free p;; k) (mret ()) ps.

Lemma free_list_ok b0 ps : ∀ h,
  NoDup (ps ≫= option_list) →
  (∀ p, (p ∉ ps ≫= option_list) → blocks h !! p = b0 !! p) →
  (∀ p, p ∈ ps ≫= option_list → b0 !! p = None ∧ is_Some (blocks h !! p)) →
  wp (free_list ps) (λ _ h', blocks h' = b0) h.
Proof.
  induction ps as [|[p|] ps IH]; intros h Hnd Hbase Hown; simpl in *.
  - apply wp_ret, map_eq. intros p. apply Hbase, not_elem_of_nil.
  - apply NoDup_cons in Hnd as [Hno Hnd]. destruct (Hown p) as [Hb0 [b Hb]]; [set_solver|].
    apply wp_bind. eexists _, _. split; [by eapply free_step|]. apply IH; [done|..]; simpl.
    + intros q Hq. destruct (decide (q = p)) as [->|]; [by rewrite lookup_delete_eq|].
      rewrite lookup_delete_ne by done. apply Hbase. set_solver.
    + intros q Hq. rewrite lookup_delete_ne by (intros ->; done). apply Hown. set_solver.
  - by apply wp_bind, wp_ret, IH.
Qed.

(** The strings stay when the interfaces go. *)
Lemma cleanup_itf_ok b0 ps h :
  holds b0 ps h →
  wp (nfpexpl_parse_interfaces_param_cleanup true) (λ _ h', ∃ b1,
    with_copies b0 b1 ps ∧ blocks h' = b1 ∧ if_count h' = 0) h.
Proof.
  intros (b1 & Hw & Hi & _). destruct Hi as [[Hn Hbl]|(specs & arr & es & HI & Hne & _)].
  - unfold nfpexpl_parse_interfaces_param_cleanup. simpl. apply wp_bind, wp_gets.
    rewrite Hn. apply wp_ret. eauto.
  - eapply wp_mono; [|by eapply cleanup_ok]. intros ? h' (? & ? & _). eauto.
Qed.

(** Only the strings are left. *)
Definition cleaned (b0 : memory) (ps : list positive) (h : state) : Prop :=
  with_copies b0 (blocks h) ps ∧ if_count h = 0.

Lemma cleanup_cleaned b0 ps h :
  holds b0 ps h → wp (nfpexpl_parse_interfaces_param_cleanup true) (λ _ h', cleaned b0 ps h') h.
Proof.
  intros Hh. eapply wp_mono; [|by apply cleanup_itf_ok]. by intros ? h' (b1 & Hw & <- & ?).
Qed.

(** Memory is as it was, but for [k] strings at most; the same with interfaces. *)
Definition spare (k : nat) (b0 : memory) (h : state) : Prop :=
  ∃ ps, (length ps ≤ k)%nat ∧ with_copies b0 (blocks h) ps.
Definition kept (k : nat) (b0 : memory) (h : state) : Prop :=
  ∃ ps, (length ps ≤ k)%nat ∧ holds b0 ps h.

Lemma cleanup_kept k b0 h :
  kept k b0 h → wp (nfpexpl_parse_interfaces_param_cleanup true) (λ _ h', spare k b0 h') h.
Proof.
  intros (ps & Hlen & Hh). eapply wp_mono; [|by apply cleanup_cleaned]. intros ? h' [? _]. by exists ps.
Qed.

Lemma ready_spare k b0 h : ready b0 h → spare k b0 h.
Proof.
  intros (Hb & _). exists []. split; [simpl; lia|]. rewrite Hb. constructor; [done| |constructor].
  intros p Hp. by apply elem_of_nil in Hp.
Qed.

Lemma cleanup_args_ok b0 ps qs h :
  holds b0 ps h → qs ≫= option_list = ps →
  wp (nfpexpl_parse_interfaces_param_cleanup true;; free_list qs) (λ _ h', blocks h' = b0) h.
Proof.
  intros Hh Hq. apply wp_bind. eapply wp_mono; [|by apply cleanup_itf_ok].
  intros ? h' (b1 & [Hb Hc Hnd] & Hh' & _). apply free_list_ok; rewrite Hq, ?Hh'; [done..|].
  intros p Hp. destruct (Hc p Hp) as [? [t Ht]]. split; [done|]. rewrite Ht. eauto.
Qed.

(** Memory that has been used in between and given back. *)
Definition alike (h h' : state) : Prop :=
  if_count h' = if_count h ∧ if_array h' = if_array h ∧ oracle h' = oracle h ∧
  (fresh_ptr h ≤ fresh_ptr h')%positive.

#[global] Instance alike_preorder : PreOrder alike.
Proof.
  split; [intros h; by split_and!|].
  intros h1 h2 h3 (? & ? & ? & ?) (? & ? & ? & ?). split_and!; [congruence..|lia].
Qed.

Lemma holds_agree b0 ps h h' : holds b0 ps h → alike h h' → blocks h' = blocks h → holds b0 ps h'.
Proof.
  destruct h as [bs fr orc al cnt arr], h' as [bs' fr' orc' al' cnt' arr'].
  intros (b1 & Hw & Hi & Hg & Ho) (Hc & Ha & Hor & Hf) Hb. simpl in *. subst.
  exists b1. split_and!; [done| |intros p Hp%Hg; simpl in *; lia|done].
  destruct Hi as [Hl|(specs & ar & es & [H1 H2 H3 H4 H5 H6 H7] & Hne & Hrep)]; [by left|right].
  exists specs, ar, es. split_and!; [|done..]. constructor; simpl in *; try done.
  intros p Hp%H1. lia.
Qed.

(** ** What can be read *)

Definition readable (h : state) (p : option positive) : Prop :=
  match p with
  | None => True
  | Some p => ∃ t, blocks h !! p = Some (BStr (t ++ [0]))
  end.

Lemma holds_readable b0 ps h p : holds b0 ps h → p ∈ ps → readable h (Some p).
Proof.
  intros (b1 & Hw & Hi & _) Hp. destruct (wc_copy _ _ _ Hw p Hp) as [_ [t Ht]].
  exists t. by apply (itf_below b1).
Qed.

(** The interfaces that were parsed. *)
Definition listed (h : state) (es : list appl_arg_if) : Prop :=
  if_count h = Z.of_nat (length es) ∧
  (∃ arr, if_array h = Some arr ∧ blocks h !! arr = Some (BArr es)) ∧
  Forall (λ e, is_Some (if_name e) ∧ readable h (if_name e) ∧ readable h (if_address e)) es.

Lemma holds_listed b0 ps h : holds b0 ps h → if_count h ≠ 0 → ∃ es, listed h es.
Proof.
  intros (b1 & _ & Hi & _) Hn. destruct Hi as [[? _]|(specs & arr & es & HI & _ & Hrep)]; [done|].
  exists es. split_and!.
  - exact (inv_count _ _ _ _ _ HI).
  - exists arr. split; [exact (inv_array _ _ _ _ _ HI)|exact (inv_entries _ _ _ _ _ HI)].
  - apply Forall_forall. intros e [i Hi]%list_elem_of_lookup.
    destruct (Forall2_lookup_l _ _ _ _ _ Hrep Hi) as (it & _ & (p & Hp & Hb) & Ha).
    rewrite Hp. split_and!; [eauto|by exists it.1|]. destruct it as [? [[ad k]|]]; simpl in Ha.
    + destruct Ha as (_ & q & -> & Hq). by exists ad.
    + by destruct Ha as [-> _].
Qed.

(** The same with the contents: [items] is the list that was parsed. *)
Definition lists (h : state) (items : list item) : Prop :=
  ∃ arr es, if_count h = Z.of_nat (length es) ∧ if_array h = Some arr ∧
    blocks h !! arr = Some (BArr es) ∧ Forall2 (rep (blocks h)) es items.

Lemma holds_lists b0 ps h : holds b0 ps h → if_count h ≠ 0 → ∃ items, lists h items.
Proof.
  intros (b1 & _ & Hi & _) Hn. destruct Hi as [[? _]|(specs & arr & es & HI & _ & Hrep)]; [done|].
  exists specs, arr, es. split_and!; [exact (inv_count _ _ _ _ _ HI)|exact (inv_array _ _ _ _ _ HI)| |done].
  exact (inv_entries _ _ _ _ _ HI).
Qed.

Lemma lists_count h items : lists h items → if_count h = Z.of_nat (length items).
Proof. intros (arr & es & -> & _ & _ & Hr). by rewrite (Forall2_length _ _ _ Hr). Qed.

Lemma lists_entry h items i it :
  lists h items → items !! i = Some it →
  ∃ e, read_entry i h = (Ret e, h) ∧ rep (blocks h) e it.
Proof.
  intros (arr & es & _ & Harr & Hes & Hr) Hit.
  destruct (Forall2_lookup_r _ _ _ _ _ Hr Hit) as (e & He & Hrep). exists e. split; [|done].
  unfold read_entry, array, of_option, gets, mbind, M_bind. rewrite Harr. simpl. rewrite Hes. simpl.
  by rewrite He.
Qed.

Lemma read_entry_ok h es i e :
  listed h es → es !! i = Some e → read_entry i h = (Ret e, h).
Proof.
  intros (_ & (arr & Harr & Hes) & _) He.
  unfold read_entry, array, of_option, gets, mbind, M_bind. rewrite Harr. simpl. rewrite Hes. simpl.
  by rewrite He.
Qed.

(** ** Reading changes nothing *)

Definition reads {A} (c : M state A) : Prop := ∀ h a h', c h = (Ret a, h') → h' = h.

Lemma reads_bind {A B} (c : M state A) (f : A → M state B) :
  reads c → (∀ a, reads (f a)) → reads (c ≫= f).
Proof.
  intros Hc Hf h b h' H. apply bind_inv_Ret in H as (a & h1 & H1 & H2).
  apply Hc in H1. apply Hf in H2. congruence.
Qed.

Lemma reads_gets {A} (f : state → A) : reads (gets f).
Proof. by intros h a h' [= _ <-]. Qed.
Lemma reads_ret {A} (a : A) : reads (mret a).
Proof. by intros h b h' [= _ <-]. Qed.
Lemma reads_of_option {A} (o : option A) : reads (of_option o).
Proof. destruct o; [apply reads_ret|by intros h b h']. Qed.

Ltac reads :=
  repeat first [ apply reads_bind | apply reads_gets | apply reads_ret | apply reads_of_option
               | progress intros | case_match | done ].

Lemma reads_string p : reads (read_string p).
Proof. unfold read_string, chars. reads. Qed.

Lemma reads_entry i : reads (read_entry i).
Proof. unfold read_entry, array. reads. Qed.

End ArgHeap.
