(* ===== verification/ArgOptions.v ===== *)
(** * Options of a command line

    The programs read options in a loop, each into a record of arguments of
    their own: numbers, flags, and copies of strings.  For such a record, given
    by the copies it may hold ([slots], with the option that sets each), this
    file has the loop, the options all programs have, and what memory holds
    while and after they are read. *)

From S2P Require Import Prelude CliArgParse CliArgParseProofs ArgHeap.
Import CliArgParse CliArgParseProofs ArgHeap.

Module ArgOptions.

Section Loop.
Context {A : Type}.

(** [while (res == 0) { opt = getopt_long(..); ... }], where [opts] is what
    [getopt_long] finds: option characters with [optarg].  The result is [res]
    and the arguments. *)
Fixpoint parse_options (step : Z * ptr → A → M state (Z * A)) (opts : list (Z * ptr)) (a : A)
    : M state (Z * A) :=
  match opts with
  | [] => mret (0, a)
  | o :: opts' =>
      r ← step o a;
      if r.1 =? 0 then parse_options step opts' r.2 else mret r
  end.

(** [case 'i'] *)
Definition interfaces_option (fuel : nat) (optarg : ptr) (a : A) : M state (Z * A) :=
  res ← nfpexpl_parse_interfaces fuel (Some optarg) true;
  mret (if res =? EXIT_FAILURE then -1 else res, a).

(** [len = strlen(optarg); if (len == 0) {..} f = malloc(len + 1); ..;
    strcpy(f, optarg);] with [set] the assignment to the field [f]. *)
Definition copy_option (optarg : ptr) (a : A) (set : option positive → A) : M state (Z * A) :=
  len ← strlen optarg;
  if len =? 0 then mret (-1, a)
  else
    t ← read_string optarg;
    p ← alloc (BStr (t ++ [0]));
    mret (match p with Some _ => 0 | None => -1 end, set p).
End Loop.

Section Options.
Context {A : Type} (slots : A → list (Z * option positive)) (inv : A → Prop).
Context (b0 : memory) (fuel : nat).
Implicit Types (a : A) (h : state).

Definition copies a : list positive := slots a ≫= λ x, option_list x.2.

(** Option [c] has not been given yet. *)
Definition unset a h (c : Z) : Prop :=
  (c = 105 → if_count h = 0) ∧ ∀ p, (c, Some p) ∉ slots a.

(** The arguments so far. *)
Definition parsed a h : Prop := holds b0 (copies a) h ∧ inv a.

Definition result (c : Z) a h (r : Z * A) h' : Prop :=
  (r.1 = 0 ∨ r.1 = -1) ∧ parsed r.2 h' ∧ ∀ c', c' ≠ c → unset a h c' → unset r.2 h' c'.

Lemma options_kept a h : parsed a h → kept (length (slots a)) b0 h.
Proof.
  intros [Hh _]. exists (copies a). split; [|done]. unfold copies. clear Hh.
  induction (slots a) as [|[c [p|]] l IH]; [done|rewrite bind_cons, length_app; simpl in *; lia..].
Qed.

Lemma parsed_readable a h c p : parsed a h → (c, p) ∈ slots a → readable h p.
Proof.
  intros [Hh _] Hin. destruct p as [p|]; [|done]. apply (holds_readable b0 _ _ _ Hh).
  apply list_elem_of_bind. exists (c, Some p). split; [by left|done].
Qed.

(** Numbers and flags. *)
Lemma plain_option c a h a' rc :
  parsed a h → slots a' = slots a → inv a' → rc = 0 ∨ rc = -1 → result c a h (rc, a') h.
Proof.
  intros [Hh _] Hs Hi Hrc. split; [done|]. unfold parsed, copies, unset. simpl. rewrite Hs. by split.
Qed.

Lemma interfaces_option_ok arg a h :
  parsed a h → arg_ok b0 fuel arg → unset a h 105 →
  wp (interfaces_option fuel arg a) (result 105 a h) h.
Proof.
  intros [Hh Hi] Hok [Hn _]. apply wp_bind. eapply wp_mono; [|by apply (interfaces_ok b0 fuel arg _ _ Hh Hok), Hn].
  intros ret h' [Hr Hh']. apply wp_ret. split; [destruct Hr as [-> | ->]; auto|]. split; [by split|].
  intros c' Hne [_ Hs]. by split.
Qed.

(** The copies when slot [c] has been filled. *)
Definition fills (c : Z) a (set : option positive → A) : Prop :=
  ∃ l1 q l2, slots a = l1 ++ (c, q) :: l2 ∧ ∀ p, slots (set p) = l1 ++ (c, p) :: l2.

Lemma fills_copies c a set p h :
  fills c a set → unset a h c → copies (set (Some p)) ≡ₚ p :: copies a.
Proof.
  intros (l1 & q & l2 & Ha & Hs) [_ Hu]. unfold copies. rewrite Ha, Hs, !bind_app. simpl.
  destruct q as [q|]; [exfalso; apply (Hu q); rewrite Ha; set_solver|]. simpl. by rewrite Permutation_middle.
Qed.

Lemma fills_unset c a set p h h' c' :
  fills c a set → c' ≠ c → if_count h' = if_count h → unset a h c' → unset (set p) h' c'.
Proof.
  intros (l1 & q & l2 & Ha & Hs) Hne Hn [Hi Hu]. split; [by rewrite Hn|]. intros x.
  rewrite Hs, elem_of_app, elem_of_cons. specialize (Hu x).
  rewrite Ha, elem_of_app, elem_of_cons in Hu. intros [?|[?|?]]; [tauto|congruence|tauto].
Qed.

(** Slot [c] has been filled. *)
Lemma filled_ok c a h set p h' rc :
  parsed a h → unset a h c → fills c a set → (∀ p, inv (set p)) →
  holds b0 (p :: copies a) h' → if_count h' = if_count h → rc = 0 ∨ rc = -1 →
  result c a h (rc, set (Some p)) h'.
Proof.
  intros [_ Hi] Hun Hf Hinv Hh' Hn Hrc. split; [done|]. split.
  - split; [|apply Hinv]. eapply holds_perm; [|exact Hh']. by eapply fills_copies.
  - intros c' Hne. by eapply fills_unset.
Qed.

(** A string is copied to slot [c]. *)
Lemma copied_ok c arg a h set :
  parsed a h → arg_ok b0 fuel arg → unset a h c → fills c a set → (∀ p, inv (set p)) →
  wp (t ← read_string arg; p ← alloc (BStr (t ++ [0]));
      mret (match p with Some _ => 0 | None => -1 end, set p)) (result c a h) h.
Proof.
  intros Hp Hok Hun Hf Hinv. apply wp_assoc, wp_bind. eapply copy_string_ok; [apply Hp|done|].
  intros p h' Hh' Hn. apply wp_ret, filled_ok; auto.
Qed.

Lemma copy_option_ok c arg a h set :
  parsed a h → arg_ok b0 fuel arg → unset a h c → fills c a set → (∀ p, inv (set p)) →
  wp (copy_option arg a set) (result c a h) h.
Proof.
  intros Hp Hok Hun Hf Hinv. apply wp_bind. eapply strlen_ok; [apply Hp|done|]. intros len.
  destruct (len =? 0); [|by apply copied_ok]. apply wp_ret, plain_option; [done|done|apply Hp|by right].
Qed.

(** ** The loop *)

Context (step : Z * ptr → A → M state (Z * A)) (ok : Z * ptr → Prop) (X : Z → state → Prop).
Context (step_ok : ∀ o a h, parsed a h → ok o → unset a h o.1 → ends (step o a) (result o.1 a h) X h).

Lemma options_ok opts : ∀ a h,
  parsed a h → Forall ok opts → NoDup opts.*1 → (∀ o, o ∈ opts → unset a h o.1) →
  ends (parse_options step opts a) (λ r h', (r.1 = 0 ∨ r.1 = -1) ∧ parsed r.2 h') X h.
Proof using step_ok.
  induction opts as [|o opts IH]; intros a h Hp Hok Hnd Hun; simpl; [by apply ends_wp, wp_ret; auto|].
  apply Forall_cons in Hok as [Ho Hok]. rewrite fmap_cons in Hnd. apply NoDup_cons in Hnd as [Hno Hnd].
  apply ends_bind. eapply ends_mono; [|done|apply step_ok; [done..|apply Hun; set_solver]].
  intros [rc a'] h' (Hr & Hp' & Hu). cbn [fst snd] in *.
  destruct (Z.eqb_spec rc 0); [|by apply ends_wp, wp_ret].
  apply IH; [done..|]. intros o' Ho'. apply Hu; [|apply Hun; set_solver].
  intros Heq. apply Hno. rewrite <- Heq. apply list_elem_of_fmap. eauto.
Qed.

(** From the beginning. *)
Definition blank a : Prop := Forall (λ x, x.2 = None) (slots a).

Lemma blank_copies a : blank a → copies a = [].
Proof. intros Hb. unfold copies, blank in *. induction Hb as [|[c p] l Hp _ IH]; simpl in *; [done|by subst]. Qed.

Lemma read_options_ok {B} opts a h (f : Z * A → M state B) Q :
  ready b0 h → blank a → inv a → Forall ok opts → NoDup opts.*1 →
  (∀ r h', (r.1 = 0 ∨ r.1 = -1) → parsed r.2 h' → ends (f r) Q X h') →
  ends (modify (set_if_count 0);; modify (set_if_array None);; r ← parse_options step opts a; f r) Q X h.
Proof using step_ok.
  intros Hr Hb Hi Hok Hnd Hf. apply ends_bind, ends_wp, wp_modify, ends_bind, ends_wp, wp_modify, ends_bind.
  eapply (ends_mono _ (λ r h', (r.1 = 0 ∨ r.1 = -1) ∧ parsed r.2 h')); [intros r h' [? ?]; by apply Hf|done|]. apply options_ok; [|done..|].
  - split; [|done]. rewrite blank_copies by done. by apply ready_holds.
  - intros o _. split; [done|]. intros p Hin. unfold blank in Hb. rewrite Forall_forall in Hb.
    by apply Hb in Hin.
Qed.
End Options.

End ArgOptions.
