(* ===== verification/Errno.v ===== *)
(** * Error numbers

    Module [Errno]: the error numbers of Linux (asm-generic) and of NFP
    (include/api/nfp_errno.h), and the translation table of
    example/netwrap_crt/netwrap_errno.h. *)

From S2P Require Import Prelude.

Module Errno.

(** Linux *)
Definition EPERM : Z := 1.
Definition ENOENT : Z := 2.
Definition ESRCH : Z := 3.
Definition EINTR : Z := 4.
Definition EIO : Z := 5.
Definition ENXIO : Z := 6.
Definition E2BIG : Z := 7.
Definition ENOEXEC : Z := 8.
Definition EBADF : Z := 9.
Definition ECHILD : Z := 10.
Definition EAGAIN : Z := 11.
Definition ENOMEM : Z := 12.
Definition EACCES : Z := 13.
Definition EFAULT : Z := 14.
Definition ENOTBLK : Z := 15.
Definition EBUSY : Z := 16.
Definition EEXIST : Z := 17.
Definition EXDEV : Z := 18.
Definition ENODEV : Z := 19.
Definition ENOTDIR : Z := 20.
Definition EISDIR : Z := 21.
Definition EINVAL : Z := 22.
Definition ENFILE : Z := 23.
Definition EMFILE : Z := 24.
Definition ENOTTY : Z := 25.
Definition ETXTBSY : Z := 26.
Definition EFBIG : Z := 27.
Definition ENOSPC : Z := 28.
Definition ESPIPE : Z := 29.
Definition EROFS : Z := 30.
Definition EMLINK : Z := 31.
Definition EPIPE : Z := 32.
Definition EDOM : Z := 33.
Definition ERANGE : Z := 34.
Definition EDEADLK : Z := 35.
Definition ENAMETOOLONG : Z := 36.
Definition ENOLCK : Z := 37.
Definition ENOSYS : Z := 38.
Definition ENOTEMPTY : Z := 39.
Definition ELOOP : Z := 40.
Definition ENOMSG : Z := 42.
Definition EIDRM : Z := 43.
Definition EREMOTE : Z := 66.
Definition ENOLINK : Z := 67.
Definition EPROTO : Z := 71.
Definition EMULTIHOP : Z := 72.
Definition EBADMSG : Z := 74.
Definition EOVERFLOW : Z := 75.
Definition EILSEQ : Z := 84.
Definition EUSERS : Z := 87.
Definition ENOTSOCK : Z := 88.
Definition EDESTADDRREQ : Z := 89.
Definition EMSGSIZE : Z := 90.
Definition EPROTOTYPE : Z := 91.
Definition ENOPROTOOPT : Z := 92.
Definition EPROTONOSUPPORT : Z := 93.
Definition ESOCKTNOSUPPORT : Z := 94.
Definition EOPNOTSUPP : Z := 95.
Definition EPFNOSUPPORT : Z := 96.
Definition EAFNOSUPPORT : Z := 97.
Definition EADDRINUSE : Z := 98.
Definition EADDRNOTAVAIL : Z := 99.
Definition ENETDOWN : Z := 100.
Definition ENETUNREACH : Z := 101.
Definition ENETRESET : Z := 102.
Definition ECONNABORTED : Z := 103.
Definition ECONNRESET : Z := 104.
Definition ENOBUFS : Z := 105.
Definition EISCONN : Z := 106.
Definition ENOTCONN : Z := 107.
Definition ESHUTDOWN : Z := 108.
Definition ETOOMANYREFS : Z := 109.
Definition ETIMEDOUT : Z := 110.
Definition ECONNREFUSED : Z := 111.
Definition EHOSTDOWN : Z := 112.
Definition EHOSTUNREACH : Z := 113.
Definition EALREADY : Z := 114.
Definition EINPROGRESS : Z := 115.
Definition ESTALE : Z := 116.
Definition EDQUOT : Z := 122.
Definition ECANCELED : Z := 125.

(** NFP *)
Definition NFP_EPERM : Z := 1.
Definition NFP_ENOENT : Z := 2.
Definition NFP_ESRCH : Z := 3.
Definition NFP_EINTR : Z := 4.
Definition NFP_EIO : Z := 5.
Definition NFP_ENXIO : Z := 6.
Definition NFP_E2BIG : Z := 7.
Definition NFP_ENOEXEC : Z := 8.
Definition NFP_EBADF : Z := 9.
Definition NFP_ECHILD : Z := 10.
Definition NFP_EDEADLK : Z := 11.
Definition NFP_ENOMEM : Z := 12.
Definition NFP_EACCES : Z := 13.
Definition NFP_EFAULT : Z := 14.
Definition NFP_ENOTBLK : Z := 15.
Definition NFP_EBUSY : Z := 16.
Definition NFP_EEXIST : Z := 17.
Definition NFP_EXDEV : Z := 18.
Definition NFP_ENODEV : Z := 19.
Definition NFP_ENOTDIR : Z := 20.
Definition NFP_EISDIR : Z := 21.
Definition NFP_EINVAL : Z := 22.
Definition NFP_ENFILE : Z := 23.
Definition NFP_EMFILE : Z := 24.
Definition NFP_ENOTTY : Z := 25.
Definition NFP_ETXTBSY : Z := 26.
Definition NFP_EFBIG : Z := 27.
Definition NFP_ENOSPC : Z := 28.
Definition NFP_ESPIPE : Z := 29.
Definition NFP_EROFS : Z := 30.
Definition NFP_EMLINK : Z := 31.
Definition NFP_EPIPE : Z := 32.
Definition NFP_EDOM : Z := 33.
Definition NFP_ERANGE : Z := 34.
Definition NFP_EAGAIN : Z := 35.
Definition NFP_EINPROGRESS : Z := 36.
Definition NFP_EALREADY : Z := 37.
Definition NFP_ENOTSOCK : Z := 38.
Definition NFP_EDESTADDRREQ : Z := 39.
Definition NFP_EMSGSIZE : Z := 40.
Definition NFP_EPROTOTYPE : Z := 41.
Definition NFP_ENOPROTOOPT : Z := 42.
Definition NFP_EPROTONOSUPPORT : Z := 43.
Definition NFP_ESOCKTNOSUPPORT : Z := 44.
Definition NFP_EOPNOTSUPP : Z := 45.
Definition NFP_EPFNOSUPPORT : Z := 46.
Definition NFP_EAFNOSUPPORT : Z := 47.
Definition NFP_EADDRINUSE : Z := 48.
Definition NFP_EADDRNOTAVAIL : Z := 49.
Definition NFP_ENETDOWN : Z := 50.
Definition NFP_ENETUNREACH : Z := 51.
Definition NFP_ENETRESET : Z := 52.
Definition NFP_ECONNABORTED : Z := 53.
Definition NFP_ECONNRESET : Z := 54.
Definition NFP_ENOBUFS : Z := 55.
Definition NFP_EISCONN : Z := 56.
Definition NFP_ENOTCONN : Z := 57.
Definition NFP_ESHUTDOWN : Z := 58.
Definition NFP_ETOOMANYREFS : Z := 59.
Definition NFP_ETIMEDOUT : Z := 60.
Definition NFP_ECONNREFUSED : Z := 61.
Definition NFP_ELOOP : Z := 62.
Definition NFP_ENAMETOOLONG : Z := 63.
Definition NFP_EHOSTDOWN : Z := 64.
Definition NFP_EHOSTUNREACH : Z := 65.
Definition NFP_ENOTEMPTY : Z := 66.
Definition NFP_EPROCLIM : Z := 67.
Definition NFP_EUSERS : Z := 68.
Definition NFP_EDQUOT : Z := 69.
Definition NFP_ESTALE : Z := 70.
Definition NFP_EREMOTE : Z := 71.
Definition NFP_EBADRPC : Z := 72.
Definition NFP_ERPCMISMATCH : Z := 73.
Definition NFP_EPROGUNAVAIL : Z := 74.
Definition NFP_EPROGMISMATCH : Z := 75.
Definition NFP_EPROCUNAVAIL : Z := 76.
Definition NFP_ENOLCK : Z := 77.
Definition NFP_ENOSYS : Z := 78.
Definition NFP_EFTYPE : Z := 79.
Definition NFP_EAUTH : Z := 80.
Definition NFP_ENEEDAUTH : Z := 81.
Definition NFP_EIDRM : Z := 82.
Definition NFP_ENOMSG : Z := 83.
Definition NFP_EOVERFLOW : Z := 84.
Definition NFP_ECANCELED : Z := 85.
Definition NFP_EILSEQ : Z := 86.
Definition NFP_ENOATTR : Z := 87.
Definition NFP_EDOOFUS : Z := 88.
Definition NFP_EBADMSG : Z := 89.
Definition NFP_EMULTIHOP : Z := 90.
Definition NFP_ENOLINK : Z := 91.
Definition NFP_EPROTO : Z := 92.
Definition NFP_ENOTCAPABLE : Z := 93.
Definition NFP_ECAPMODE : Z := 94.
Definition NFP_EWOULDBLOCK : Z := NFP_EAGAIN.
Definition NFP_ELAST : Z := 94.

(** The table, in the order of the source. *)
Definition netwrap_errno : list Z :=
  [0; EPERM; ENOENT; ESRCH; EINTR; EIO; ENXIO; E2BIG; ENOEXEC; EBADF; ECHILD; EDEADLK;
   ENOMEM; EACCES; EFAULT; ENOTBLK; EBUSY; EEXIST; EXDEV; ENODEV; ENOTDIR; EISDIR; EINVAL;
   ENFILE; EMFILE; ENOTTY; ETXTBSY; EFBIG; ENOSPC; ESPIPE; EROFS; EMLINK; EPIPE; EDOM;
   ERANGE; EAGAIN; EINPROGRESS; EALREADY; ENOTSOCK; EDESTADDRREQ; EMSGSIZE; EPROTOTYPE;
   ENOPROTOOPT; EPROTONOSUPPORT; ESOCKTNOSUPPORT; EOPNOTSUPP; EPFNOSUPPORT; EAFNOSUPPORT;
   EADDRINUSE; EADDRNOTAVAIL; ENETDOWN; ENETUNREACH; ENETRESET; ECONNABORTED; ECONNRESET;
   ENOBUFS; EISCONN; ENOTCONN; ESHUTDOWN; ETOOMANYREFS; ETIMEDOUT; ECONNREFUSED; ELOOP;
   ENAMETOOLONG; EHOSTDOWN; EHOSTUNREACH; ENOTEMPTY; EINVAL; EUSERS; EDQUOT; ESTALE;
   EREMOTE; EINVAL; EINVAL; EINVAL; EINVAL; EINVAL; ENOLCK; ENOSYS; EINVAL; EINVAL; EINVAL;
   EIDRM; ENOMSG; EOVERFLOW; ECANCELED; EILSEQ; EINVAL; EINVAL; EBADMSG; EMULTIHOP; ENOLINK;
   EPROTO; EINVAL; EINVAL].

Definition NETWRAP_ERRNO (x : Z) : Z :=
  if (0 <=? x) && (x <=? NFP_ELAST) then netwrap_errno !!! Z.to_nat x else x.

(** The error numbers both systems have under the same name. *)
Definition same_name : list (Z * Z) :=
  [(NFP_EPERM, EPERM); (NFP_ENOENT, ENOENT); (NFP_ESRCH, ESRCH); (NFP_EINTR, EINTR);
   (NFP_EIO, EIO); (NFP_ENXIO, ENXIO); (NFP_E2BIG, E2BIG); (NFP_ENOEXEC, ENOEXEC);
   (NFP_EBADF, EBADF); (NFP_ECHILD, ECHILD); (NFP_EDEADLK, EDEADLK); (NFP_ENOMEM, ENOMEM);
   (NFP_EACCES, EACCES); (NFP_EFAULT, EFAULT); (NFP_ENOTBLK, ENOTBLK); (NFP_EBUSY, EBUSY);
   (NFP_EEXIST, EEXIST); (NFP_EXDEV, EXDEV); (NFP_ENODEV, ENODEV); (NFP_ENOTDIR, ENOTDIR);
   (NFP_EISDIR, EISDIR); (NFP_EINVAL, EINVAL); (NFP_ENFILE, ENFILE); (NFP_EMFILE, EMFILE);
   (NFP_ENOTTY, ENOTTY); (NFP_ETXTBSY, ETXTBSY); (NFP_EFBIG, EFBIG); (NFP_ENOSPC, ENOSPC);
   (NFP_ESPIPE, ESPIPE); (NFP_EROFS, EROFS); (NFP_EMLINK, EMLINK); (NFP_EPIPE, EPIPE);
   (NFP_EDOM, EDOM); (NFP_ERANGE, ERANGE); (NFP_EAGAIN, EAGAIN); (NFP_EINPROGRESS,
   EINPROGRESS); (NFP_EALREADY, EALREADY); (NFP_ENOTSOCK, ENOTSOCK); (NFP_EDESTADDRREQ,
   EDESTADDRREQ); (NFP_EMSGSIZE, EMSGSIZE); (NFP_EPROTOTYPE, EPROTOTYPE); (NFP_ENOPROTOOPT,
   ENOPROTOOPT); (NFP_EPROTONOSUPPORT, EPROTONOSUPPORT); (NFP_ESOCKTNOSUPPORT,
   ESOCKTNOSUPPORT); (NFP_EOPNOTSUPP, EOPNOTSUPP); (NFP_EPFNOSUPPORT, EPFNOSUPPORT);
   (NFP_EAFNOSUPPORT, EAFNOSUPPORT); (NFP_EADDRINUSE, EADDRINUSE); (NFP_EADDRNOTAVAIL,
   EADDRNOTAVAIL); (NFP_ENETDOWN, ENETDOWN); (NFP_ENETUNREACH, ENETUNREACH); (NFP_ENETRESET,
   ENETRESET); (NFP_ECONNABORTED, ECONNABORTED); (NFP_ECONNRESET, ECONNRESET); (NFP_ENOBUFS,
   ENOBUFS); (NFP_EISCONN, EISCONN); (NFP_ENOTCONN, ENOTCONN); (NFP_ESHUTDOWN, ESHUTDOWN);
   (NFP_ETOOMANYREFS, ETOOMANYREFS); (NFP_ETIMEDOUT, ETIMEDOUT); (NFP_ECONNREFUSED,
   ECONNREFUSED); (NFP_ELOOP, ELOOP); (NFP_ENAMETOOLONG, ENAMETOOLONG); (NFP_EHOSTDOWN,
   EHOSTDOWN); (NFP_EHOSTUNREACH, EHOSTUNREACH); (NFP_ENOTEMPTY, ENOTEMPTY); (NFP_EUSERS,
   EUSERS); (NFP_EDQUOT, EDQUOT); (NFP_ESTALE, ESTALE); (NFP_EREMOTE, EREMOTE); (NFP_ENOLCK,
   ENOLCK); (NFP_ENOSYS, ENOSYS); (NFP_EIDRM, EIDRM); (NFP_ENOMSG, ENOMSG); (NFP_EOVERFLOW,
   EOVERFLOW); (NFP_ECANCELED, ECANCELED); (NFP_EILSEQ, EILSEQ); (NFP_EBADMSG, EBADMSG);
   (NFP_EMULTIHOP, EMULTIHOP); (NFP_ENOLINK, ENOLINK); (NFP_EPROTO, EPROTO)].

(** The NFP error numbers that Linux has no name for. *)
Definition nfp_only : list Z :=
  [NFP_EPROCLIM; NFP_EBADRPC; NFP_ERPCMISMATCH; NFP_EPROGUNAVAIL; NFP_EPROGMISMATCH;
   NFP_EPROCUNAVAIL; NFP_EFTYPE; NFP_EAUTH; NFP_ENEEDAUTH; NFP_ENOATTR; NFP_EDOOFUS;
   NFP_ENOTCAPABLE; NFP_ECAPMODE].

(** The Linux number of an NFP error, by name: the number Linux has under the
    same name, EINVAL for a name Linux does not have; anything that is not an
    NFP error number is left as it is. *)
Definition error_by_name (n : Z) : Z :=
  match (list_to_map same_name : gmap Z Z) !! n with
  | Some l => l
  | None => if bool_decide (n ∈ nfp_only) then EINVAL else n
  end.

Lemma NETWRAP_ERRNO_by_name n : NETWRAP_ERRNO n = error_by_name n.
Proof.
  destruct (decide (0 ≤ n < 95)) as [Hin|Hout].
  - assert (H : Forall (λ n, NETWRAP_ERRNO n = error_by_name n) (seqZ 0 95))
      by (apply (bool_decide_unpack _); by vm_compute).
    apply (proj1 (Forall_forall _ _) H). apply elem_of_seqZ. lia.
  - assert (Hk : Forall (λ k, 0 ≤ k < 95) (same_name.*1 ++ nfp_only))
      by (apply (bool_decide_unpack _); by vm_compute).
    pose proof (proj1 (Forall_forall _ _) Hk) as Hk'. unfold NETWRAP_ERRNO, error_by_name, NFP_ELAST.
    assert (Hno : n ∉ same_name.*1 ++ nfp_only) by (intros Hn; apply Hout, Hk', Hn).
    apply not_elem_of_app in Hno as [H1 H2]. rewrite (not_elem_of_list_to_map_1 _ _ H1).
    rewrite bool_decide_false by done.
    destruct (Z.leb_spec 0 n), (Z.leb_spec n 94); done || lia.
Qed.

(** Every NFP error number that Linux has under the same name is
    translated to it, the others to EINVAL, 0 to 0; together they are all the
    entries of the table, so an NFP error is never reported as success, two
    errors with Linux names stay different, and the number of the
    would-block error (35 on NFP, 11 on Linux) is the Linux one. *)
Theorem errno_translation :
  NETWRAP_ERRNO 0 = 0 ∧
  (∀ n l, (n, l) ∈ same_name → NETWRAP_ERRNO n = l ∧ l ≠ 0) ∧
  (∀ n, n ∈ nfp_only → NETWRAP_ERRNO n = EINVAL) ∧
  (∀ n, 1 ≤ n ≤ NFP_ELAST → (n ∈ same_name.*1 ∨ n ∈ nfp_only) ∧ NETWRAP_ERRNO n ≠ 0) ∧
  (∀ n n', n ∈ same_name.*1 → n' ∈ same_name.*1 → NETWRAP_ERRNO n = NETWRAP_ERRNO n' → n = n') ∧
  NETWRAP_ERRNO NFP_EWOULDBLOCK = EAGAIN.
Proof.
  assert (Hs : Forall (λ p, NETWRAP_ERRNO p.1 = p.2 ∧ p.2 ≠ 0) same_name)
    by (apply (bool_decide_unpack _); by vm_compute).
  assert (Hi : Forall (λ a, Forall (λ b, NETWRAP_ERRNO a = NETWRAP_ERRNO b → a = b) same_name.*1)
                      same_name.*1)
    by (apply (bool_decide_unpack _); by vm_compute).
  assert (Ho : Forall (λ n, NETWRAP_ERRNO n = EINVAL) nfp_only)
    by (apply (bool_decide_unpack _); by vm_compute).
  assert (Ha : Forall (λ n, (n ∈ same_name.*1 ∨ n ∈ nfp_only) ∧ NETWRAP_ERRNO n ≠ 0) (seqZ 1 94))
    by (apply (bool_decide_unpack _); by vm_compute).
  pose proof (proj1 (Forall_forall _ _) Hs) as Hs'. pose proof (proj1 (Forall_forall _ _) Hi) as Hi'.
  pose proof (proj1 (Forall_forall _ _) Ho) as Ho'. pose proof (proj1 (Forall_forall _ _) Ha) as Ha'.
  split_and!.
  - done.
  - intros n l Hin. exact (Hs' _ Hin).
  - exact Ho'.
  - intros n Hn. apply Ha'. apply elem_of_seqZ. change NFP_ELAST with 94 in Hn. lia.
  - intros n n' Hn Hn'. by apply (proj1 (Forall_forall _ _) (Hi' n Hn)).
  - done.
Qed.

End Errno.
