(* ===== verification/Netwrap.v ===== *)
(** * The socket wrapper library

    Model of example/netwrap_crt: a preloaded library that overrides the socket
    calls of the C library.  A descriptor at or above the configured offset
    belongs to the fast path and the call goes to the matching [nfp_*]
    function with translated arguments; any other goes to the C library
    function found with [dlsym].

    The fast path, the C library and the dynamic linker are not part of the
    sources: they are the operations of the class [Env], over a world of an
    arbitrary type, and every call made to them is recorded in [trace].
    Pointers to buffers are opaque addresses; what is pointed to is a value
    where the wrapper itself looks at it. *)

From S2P Require Import Prelude Errno NfpHeaders.
Import Errno.

Module Netwrap.

(** ** Calls to the outside *)

(** The C library functions the wrappers look up.  The send-file wrapper keeps
    its own pointer to [read]. *)
Inductive lfun :=
| F_socket | F_shutdown | F_close | F_bind | F_accept | F_accept4 | F_listen | F_connect
| F_read | F_write | F_recv | F_send | F_setsockopt | F_getsockopt | F_ioctl | F_select
| F_writev | F_sendfile64 | F_sendfile_read | F_fork | F_vfork
| F_epoll_create | F_epoll_ctl | F_epoll_wait.

#[global] Instance lfun_eq_dec : EqDecision lfun.
Proof. solve_decision. Defined.

(** A socket address of either system.  [sa_len] exists on the NFP side only.
    [sa_word] is the 4 bytes after the port: [sin_addr] in the IPv4 layout,
    [sin6_flowinfo] in the IPv6 one. *)
Record saddr := Saddr {
  sa_len : Z;
  sa_family : Z;
  sa_port : Z;
  sa_word : Z;
  sa_addr6 : bytes;
  sa_scope : Z;
}.

(** A buffer: the caller's, by address, or local data of a wrapper. *)
Inductive buffer := BufPtr (p : Z) | BufData (b : bytes).

Inductive ioarg := ArgPtr (p : Z) | ArgInt (v : Z).

(** Calls to the fast path; [F] is its descriptor set. *)
Inductive nfp_call (F : Type) :=
| N_socket (domain type protocol : Z)
| N_shutdown (fd how : Z)
| N_close (fd : Z)
| N_bind (fd : Z) (addr : saddr) (len : Z)
| N_accept (fd : Z) (len : option Z)
| N_listen (fd backlog : Z)
| N_connect (fd : Z) (addr : saddr) (len : Z)
| N_recv (fd : Z) (buf : buffer) (len flags : Z)
| N_send (fd : Z) (buf : buffer) (len flags : Z)
| N_setsockopt (fd level name val len : Z)
| N_getsockopt (fd level name val len : Z)
| N_ioctl (fd request : Z) (arg : ioarg)
| N_select (nfds : Z) (readfds : F) (sec usec : Z)
| N_epoll_create (size : Z)
| N_epoll_ctl (epfd op fd : Z) (events data : Z)
| N_epoll_wait (epfd maxevents timeout : Z)
| N_init_local_resources.
Arguments N_socket {F} _ _ _.
Arguments N_shutdown {F} _ _.
Arguments N_close {F} _.
Arguments N_bind {F} _ _ _.
Arguments N_accept {F} _ _.
Arguments N_listen {F} _ _.
Arguments N_connect {F} _ _ _.
Arguments N_recv {F} _ _ _ _.
Arguments N_send {F} _ _ _ _.
Arguments N_setsockopt {F} _ _ _ _ _.
Arguments N_getsockopt {F} _ _ _ _ _.
Arguments N_ioctl {F} _ _ _.
Arguments N_select {F} _ _ _ _.
Arguments N_epoll_create {F} _.
Arguments N_epoll_ctl {F} _ _ _ _ _.
Arguments N_epoll_wait {F} _ _ _.
Arguments N_init_local_resources {F}.

(** What a fast-path call gives back: its value, [nfp_errno] after it, and the
    data it stores through its pointers. *)
Record nreply (F : Type) := NReply {
  n_val : Z;
  n_errno : Z;
  n_addr : saddr;
  n_set : F;
  n_timeout : Z * Z;
  n_events : list (Z * Z);
}.
Arguments NReply {F} _ _ _ _ _ _.
Arguments n_val {F} _.
Arguments n_errno {F} _.
Arguments n_addr {F} _.
Arguments n_set {F} _.
Arguments n_timeout {F} _.
Arguments n_events {F} _.

(** Calls to the C library. *)
Inductive libc_call :=
| L_socket (domain type protocol : Z)
| L_shutdown (fd how : Z)
| L_close (fd : Z)
| L_bind (fd addr len : Z)
| L_accept (fd addr len : Z)
| L_accept4 (fd addr len flags : Z)
| L_listen (fd backlog : Z)
| L_connect (fd addr len : Z)
| L_read (fd : Z) (buf : buffer) (len : Z)
| L_write (fd : Z) (buf : buffer) (len : Z)
| L_recv (fd : Z) (buf : buffer) (len flags : Z)
| L_send (fd : Z) (buf : buffer) (len flags : Z)
| L_setsockopt (fd level name val len : Z)
| L_getsockopt (fd level name val len : Z)
| L_ioctl (fd request arg : Z)
| L_select (nfds readfds writefds exceptfds timeout : Z)
| L_writev (fd iov cnt : Z)
| L_sendfile64 (out_fd in_fd offset count : Z)
| L_lseek (fd offset whence : Z)
| L_usleep (usec : Z)
| L_fork
| L_epoll_create (size : Z)
| L_epoll_ctl (epfd op fd event : Z)
| L_epoll_wait (epfd events maxevents timeout : Z).

(** The value, [errno] after the call, and the bytes stored in a local buffer. *)
Record lreply := LReply { l_val : Z; l_errno : Z; l_data : bytes }.

Inductive dl_result := DlOk | DlNull | DlError.

(** The outside: the fast path, the C library (given the current [errno]) and
    the dynamic linker, with the descriptor sets of nfp_select.h. *)
Class Env (W F : Type) := {
  nfp_do : nfp_call F → W → nreply F * W;
  libc_do : libc_call → Z → W → lreply * W;
  dlsym : lfun → dl_result;
  NFP_FD_ZERO : F;
  NFP_FD_SET : Z → F → F;
  NFP_FD_ISSET : Z → F → bool;
}.

Inductive call (F : Type) :=
| CNfp (c : nfp_call F)
| CLibc (c : libc_call)
| CDlsym (f : lfun).
Arguments CNfp {F} _.
Arguments CLibc {F} _.
Arguments CDlsym {F} _.

(** The variables of the library: [errno] and [nfp_errno], the globals of
    netwrap_common.c, the [libc_*] pointers, the statics of netwrap_epoll.c and
    netwrap_fork.c. *)
Record nw (W F : Type) := NW {
  world : W;
  errno : Z;
  nfp_errno : Z;
  netwrap_constructor_called : bool;
  sd_offset : Z;
  libc_ptr : lfun → bool;
  setup_epoll_wrappers_called : bool;
  setup_fork_wrappers_called : bool;
  recursive : bool;
  trace : list (call F);
}.
Arguments NW {W F} _ _ _ _ _ _ _ _ _ _.
Arguments world {W F} _.
Arguments errno {W F} _.
Arguments nfp_errno {W F} _.
Arguments netwrap_constructor_called {W F} _.
Arguments sd_offset {W F} _.
Arguments libc_ptr {W F} _ _.
Arguments setup_epoll_wrappers_called {W F} _.
Arguments setup_fork_wrappers_called {W F} _.
Arguments recursive {W F} _.
Arguments trace {W F} _.

(** ** Constants of Linux and of the NFP headers *)

Definition AF_INET : Z := 2.
Definition AF_INET6 : Z := 10.
Definition NFP_AF_INET : Z := 2.
Definition NFP_AF_INET6 : Z := 3.
Definition SOCK_STREAM : Z := 1.
Definition SOCK_DGRAM : Z := 2.
Definition SOCK_NONBLOCK : Z := 0x800.
Definition NFP_SOCK_STREAM : Z := 1.
Definition NFP_SOCK_DGRAM : Z := 2.
Definition IPPROTO_TCP : Z := 6.
Definition IPPROTO_UDP : Z := 17.
Definition NFP_IPPROTO_TCP : Z := 6.
Definition NFP_IPPROTO_UDP : Z := 17.
Definition SHUT_RD : Z := 0.
Definition SHUT_WR : Z := 1.
Definition SHUT_RDWR : Z := 2.
Definition NFP_SHUT_RD : Z := 0.
Definition NFP_SHUT_WR : Z := 1.
Definition NFP_SHUT_RDWR : Z := 2.
Definition sizeof_sockaddr_in : Z := 16.
Definition sizeof_sockaddr_in6 : Z := 28.
Definition sizeof_nfp_sockaddr_in : Z := 16.
Definition sizeof_nfp_sockaddr_in6 : Z := 28.
(** [union _nfp_sockaddr_storage] *)
Definition sizeof_storage : Z := 28.
Definition MSG_OOB : Z := 0x1.
Definition MSG_PEEK : Z := 0x2.
Definition MSG_DONTROUTE : Z := 0x4.
Definition MSG_TRUNC : Z := 0x20.
Definition MSG_DONTWAIT : Z := 0x40.
Definition MSG_EOR : Z := 0x80.
Definition MSG_WAITALL : Z := 0x100.
Definition MSG_NOSIGNAL : Z := 0x4000.
Definition NFP_MSG_OOB : Z := 0x1.
Definition NFP_MSG_PEEK : Z := 0x2.
Definition NFP_MSG_DONTROUTE : Z := 0x4.
Definition NFP_MSG_EOR : Z := 0x8.
Definition NFP_MSG_TRUNC : Z := 0x10.
Definition NFP_MSG_WAITALL : Z := 0x40.
Definition NFP_MSG_DONTWAIT : Z := 0x80.
Definition NFP_MSG_NOSIGNAL : Z := 0x20000.

(** ** netwrap_common.c and the access to the outside *)

Section Common.
Context {W F : Type} `{!Env W F}.
Local Abbreviation MW := (M (nw W F)).

Definition nfp (c : nfp_call F) : MW (nreply F) := λ s,
  let '(r, w) := nfp_do c (world s) in
  (Ret r, NW w (errno s) (n_errno r) (netwrap_constructor_called s) (sd_offset s) (libc_ptr s)
            (setup_epoll_wrappers_called s) (setup_fork_wrappers_called s) (recursive s)
            (trace s ++ [CNfp c])).

Definition libc_reply (c : libc_call) : MW lreply := λ s,
  let '(r, w) := libc_do c (errno s) (world s) in
  (Ret r, NW w (l_errno r) (nfp_errno s) (netwrap_constructor_called s) (sd_offset s)
            (libc_ptr s) (setup_epoll_wrappers_called s) (setup_fork_wrappers_called s)
            (recursive s) (trace s ++ [CLibc c])).

Definition libc (c : libc_call) : MW Z := r ← libc_reply c; mret (l_val r).

Definition set_errno (e : Z) : MW unit := modify (λ s,
  NW (world s) e (nfp_errno s) (netwrap_constructor_called s) (sd_offset s) (libc_ptr s)
     (setup_epoll_wrappers_called s) (setup_fork_wrappers_called s) (recursive s) (trace s)).

(** [errno = NETWRAP_ERRNO(nfp_errno);] *)
Definition errno_from_nfp : MW unit := e ← gets nfp_errno; set_errno (NETWRAP_ERRNO e).

Definition set_ptr (f : lfun) (b : bool) (s : nw W F) : nw W F :=
  NW (world s) (errno s) (nfp_errno s) (netwrap_constructor_called s) (sd_offset s)
     (λ g, if decide (g = f) then b else libc_ptr s g)
     (setup_epoll_wrappers_called s) (setup_fork_wrappers_called s) (recursive s)
     (trace s ++ [CDlsym f]).

(** [LIBC_FUNCTION(f)] *)
Definition LIBC_FUNCTION (f : lfun) : MW unit :=
  match dlsym f with
  | DlOk => modify (set_ptr f true)
  | DlNull => modify (set_ptr f false)
  | DlError => modify (set_ptr f false);; set_errno EACCES;; exit 1
  end.

Definition IS_NFP_SOCKET (fd : Z) : MW bool :=
  gets (λ s, netwrap_constructor_called s && (s32 (sd_offset s) <=? fd)).

(** [( *libc_f)(...)] *)
Definition call_ptr (f : lfun) (c : libc_call) : MW Z :=
  p ← gets (λ s, libc_ptr s f);
  if (p : bool) then libc c else stuck.

(** The lookup on demand: [LIBC_FUNCTION(f); if (libc_f) ... else EACCES]. *)
Definition lookup_and_call (f : lfun) (c : libc_call) : MW Z :=
  LIBC_FUNCTION f;;
  p ← gets (λ s, libc_ptr s f);
  if (p : bool) then call_ptr f c else set_errno EACCES;; mret (-1).

(** The two branches every wrapper ends with. *)
Definition via_libc (f : lfun) (c : libc_call) : MW Z :=
  p ← gets (λ s, libc_ptr s f);
  if (p : bool) then call_ptr f c else lookup_and_call f c.

(** [setup_common_vars] of netwrap_common.c; [params] is the answer of
    [nfp_get_parameters]: the offset, or a failure. *)
Definition setup_common_vars (params : option Z) : MW Z :=
  match params with
  | None => mret (-1)
  | Some off => modify (λ s,
      NW (world s) (errno s) (nfp_errno s) true off (libc_ptr s)
         (setup_epoll_wrappers_called s) (setup_fork_wrappers_called s) (recursive s) (trace s));;
      mret 0
  end.
End Common.

(** ** netwrap_socket.c *)

Section Socket.
Context {W F : Type} `{!Env W F}.
Local Abbreviation MW := (M (nw W F)).

Definition setup_socket_wrappers : MW unit :=
  LIBC_FUNCTION F_socket;; LIBC_FUNCTION F_shutdown;; LIBC_FUNCTION F_close;;
  LIBC_FUNCTION F_bind;; LIBC_FUNCTION F_accept;; LIBC_FUNCTION F_accept4;;
  LIBC_FUNCTION F_listen;; LIBC_FUNCTION F_connect;; LIBC_FUNCTION F_read;;
  LIBC_FUNCTION F_write;; LIBC_FUNCTION F_recv;; LIBC_FUNCTION F_send.

Definition socket (domain type protocol : Z) : MW Z :=
  called ← gets netwrap_constructor_called;
  if (called : bool) then
    if negb (domain =? AF_INET) then call_ptr F_socket (L_socket domain type protocol)
    else
      let nfp_type :=
        if type =? SOCK_STREAM then NFP_SOCK_STREAM
        else if type =? SOCK_DGRAM then NFP_SOCK_DGRAM else type in
      let nfp_protocol :=
        if protocol =? IPPROTO_UDP then NFP_IPPROTO_UDP
        else if protocol =? IPPROTO_TCP then NFP_IPPROTO_TCP else protocol in
      r ← nfp (N_socket NFP_AF_INET nfp_type nfp_protocol);
      errno_from_nfp;;
      mret (n_val r)
  else lookup_and_call F_socket (L_socket domain type protocol).

Definition shutdown (sockfd how : Z) : MW Z :=
  b ← IS_NFP_SOCKET sockfd;
  if (b : bool) then
    let nfp_how :=
      if how =? SHUT_RD then NFP_SHUT_RD else if how =? SHUT_WR then NFP_SHUT_WR
      else if how =? SHUT_RDWR then NFP_SHUT_RDWR else how in
    r ← nfp (N_shutdown sockfd nfp_how);
    errno_from_nfp;;
    mret (n_val r)
  else via_libc F_shutdown (L_shutdown sockfd how).

Definition close (sockfd : Z) : MW Z :=
  b ← IS_NFP_SOCKET sockfd;
  if (b : bool) then
    r ← nfp (N_close sockfd);
    errno_from_nfp;;
    mret (n_val r)
  else via_libc F_close (L_close sockfd).

(** An address argument: NULL, or its address and what is there. *)
Definition addr_ptr (a : option (Z * saddr)) : Z := match a with Some (p, _) => p | None => 0 end.

Definition bind (sockfd : Z) (addr : option (Z * saddr)) (addrlen : Z) : MW Z :=
  b ← IS_NFP_SOCKET sockfd;
  if (b : bool) then
    match addr with
    | None => set_errno EFAULT;; mret (-1)
    | Some (_, a) =>
        if negb (addrlen =? sizeof_sockaddr_in) then set_errno EINVAL;; mret (-1)
        else
          let nfp_addr :=
            Saddr sizeof_nfp_sockaddr_in NFP_AF_INET (sa_port a) (sa_word a) (replicate 16 0) 0 in
          r ← nfp (N_bind sockfd nfp_addr sizeof_nfp_sockaddr_in);
          errno_from_nfp;;
          mret (n_val r)
    end
  else via_libc F_bind (L_bind sockfd (addr_ptr addr) addrlen).

(** What [accept] stores at [addr]: the fields of a [struct sockaddr_in] or of
    a [struct sockaddr_in6], of which the first [*addrlen] bytes are copied. *)
Inductive out_addr :=
| OutIn (port word : Z)
| OutIn6 (port flowinfo : Z) (addr : bytes) (scope : Z).

(** The conversion of the peer address, shared by the two accept calls: the
    address to copy out and its size; [None] is the [default] case. *)
Definition peer_addr (a : saddr) : option (out_addr * Z) :=
  if sa_family a =? NFP_AF_INET then
    Some (OutIn (sa_port a) (sa_word a), sizeof_sockaddr_in)
  else if sa_family a =? NFP_AF_INET6 then
    Some (OutIn6 (sa_port a) (sa_word a) (sa_addr6 a) (sa_scope a), sizeof_sockaddr_in6)
  else None.

(** The NFP branch of [accept] up to the conversion; [addr] is NULL or not,
    [addrlen] NULL or the length there.  The result is the accepted
    descriptor and the stored address with the new [*addrlen], or an early
    return of -1. *)
Definition accept_nfp (sockfd : Z) (addr : bool) (addrlen : option Z)
    : MW (Z * option (out_addr * Z) + unit) :=
  if addr && negb (bool_decide (is_Some addrlen)) then set_errno EINVAL;; mret (inr ())
  else
    r ← nfp (N_accept sockfd (if addr then Some sizeof_storage else None));
    errno_from_nfp;;
    if negb (n_val r =? -1) && addr then
      match peer_addr (n_addr r), addrlen with
      | Some (o, size), Some len => mret (inl (n_val r, Some (o, if size <? len then size else len)))
      | _, _ => mret (inr ())
      end
    else mret (inl (n_val r, None)).

Definition accept (sockfd addr_p : Z) (len_p : Z) (addrlen : option Z)
    : MW (Z * option (out_addr * Z)) :=
  b ← IS_NFP_SOCKET sockfd;
  if (b : bool) then
    r ← accept_nfp sockfd (negb (addr_p =? 0)) addrlen;
    match r with inl vo => mret vo | inr () => mret (-1, None) end
  else
    v ← via_libc F_accept (L_accept sockfd addr_p len_p);
    mret (v, None).

(** [sizeof(int)] in the ioctl requests. *)
Definition int_size (t : Ioctl.ioc_type) : Z := 4.

Definition accept4 (sockfd addr_p : Z) (len_p : Z) (addrlen : option Z) (flags : Z)
    : MW (Z * option (out_addr * Z)) :=
  b ← IS_NFP_SOCKET sockfd;
  if (b : bool) then
    r ← accept_nfp sockfd (negb (addr_p =? 0)) addrlen;
    match r with
    | inr () => mret (-1, None)
    | inl (v, o) =>
        if negb (v =? -1) && negb (Z.land flags SOCK_NONBLOCK =? 0) then
          i ← nfp (N_ioctl v (s32 (Ioctl.NFP_FIONBIO int_size)) (ArgInt 1));
          if negb (n_val i =? 0) then
            errno_from_nfp;;
            _ ← nfp (N_close v);
            mret (-1, o)
          else mret (v, o)
        else mret (v, o)
    end
  else
    v ← via_libc F_accept4 (L_accept4 sockfd addr_p len_p flags);
    mret (v, None).

Definition listen (sockfd backlog : Z) : MW Z :=
  b ← IS_NFP_SOCKET sockfd;
  if (b : bool) then
    r ← nfp (N_listen sockfd backlog);
    errno_from_nfp;;
    mret (n_val r)
  else via_libc F_listen (L_listen sockfd backlog).

Definition connect (sockfd : Z) (addr : option (Z * saddr)) (addrlen : Z) : MW Z :=
  b ← IS_NFP_SOCKET sockfd;
  if (b : bool) then
    let finish (nfp_addr : saddr) (nfp_addrlen : Z) : MW Z :=
      r ← nfp (N_connect sockfd nfp_addr nfp_addrlen);
      errno_from_nfp;;
      mret (n_val r) in
    match addr with
    | None => set_errno EINVAL;; mret (-1)
    | Some (_, a) =>
        if addrlen <? 2 then set_errno EINVAL;; mret (-1)
        else if sa_family a =? AF_INET then
          if addrlen <? sizeof_sockaddr_in then set_errno EINVAL;; mret (-1)
          else finish (Saddr sizeof_nfp_sockaddr_in NFP_AF_INET (sa_port a) (sa_word a) [] 0)
                      sizeof_nfp_sockaddr_in
        else if sa_family a =? AF_INET6 then
          if addrlen <? sizeof_sockaddr_in6 then set_errno EINVAL;; mret (-1)
          else finish (Saddr sizeof_nfp_sockaddr_in6 NFP_AF_INET6 (sa_port a) (sa_word a)
                             (sa_addr6 a) (sa_scope a)) sizeof_nfp_sockaddr_in6
        else set_errno EAFNOSUPPORT;; mret (-1)
    end
  else via_libc F_connect (L_connect sockfd (addr_ptr addr) addrlen).

(** [size_t] arguments narrow to the 32-bit [nfp_size_t]. *)
Definition read (sockfd buf len : Z) : MW Z :=
  b ← IS_NFP_SOCKET sockfd;
  if (b : bool) then
    r ← nfp (N_recv sockfd (BufPtr buf) (u32 len) 0);
    errno_from_nfp;;
    mret (n_val r)
  else via_libc F_read (L_read sockfd (BufPtr buf) len).

Definition write (sockfd buf len : Z) : MW Z :=
  b ← IS_NFP_SOCKET sockfd;
  if (b : bool) then
    r ← nfp (N_send sockfd (BufPtr buf) (u32 len) 0);
    errno_from_nfp;;
    mret (n_val r)
  else via_libc F_write (L_write sockfd (BufPtr buf) len).

(** [if (flags & f) nfp_flags |= g;] *)
Definition add_flag (flags f g nfp_flags : Z) : Z :=
  if Z.land flags f =? 0 then nfp_flags else Z.lor nfp_flags g.

Definition recv_flags (flags : Z) : Z :=
  if flags =? 0 then 0 else
  add_flag flags MSG_WAITALL NFP_MSG_WAITALL
    (add_flag flags MSG_TRUNC NFP_MSG_TRUNC
      (add_flag flags MSG_PEEK NFP_MSG_PEEK
        (add_flag flags MSG_OOB NFP_MSG_OOB
          (add_flag flags MSG_DONTWAIT NFP_MSG_DONTWAIT 0)))).

Definition recv (sockfd buf len flags : Z) : MW Z :=
  b ← IS_NFP_SOCKET sockfd;
  if (b : bool) then
    r ← nfp (N_recv sockfd (BufPtr buf) (u32 len) (recv_flags flags));
    errno_from_nfp;;
    mret (n_val r)
  else via_libc F_recv (L_recv sockfd (BufPtr buf) len flags).

Definition send_flags (flags : Z) : Z :=
  if flags =? 0 then 0 else
  add_flag flags MSG_OOB NFP_MSG_OOB
    (add_flag flags MSG_NOSIGNAL NFP_MSG_NOSIGNAL
      (add_flag flags MSG_EOR NFP_MSG_EOR
        (add_flag flags MSG_DONTWAIT NFP_MSG_DONTWAIT
          (add_flag flags MSG_DONTWAIT NFP_MSG_DONTWAIT
            (add_flag flags MSG_DONTROUTE NFP_MSG_DONTROUTE 0))))).

Definition send (sockfd buf len flags : Z) : MW Z :=
  b ← IS_NFP_SOCKET sockfd;
  if (b : bool) then
    r ← nfp (N_send sockfd (BufPtr buf) (u32 len) (send_flags flags));
    errno_from_nfp;;
    mret (n_val r)
  else via_libc F_send (L_send sockfd (BufPtr buf) len flags).
End Socket.

End Netwrap.
