(* ===== verification/NetwrapIo.v ===== *)
(** * Socket options, ioctl, multiplexing, vectors, files and fork

    The rest of example/netwrap_crt: netwrap_sockopt.c, netwrap_ioctl.c,
    netwrap_select.c, netwrap_epoll.c, netwrap_uio.c, netwrap_sendfile.c,
    netwrap_fork.c and the constructor of netwrap.c.  Loops that wait for the
    fast path are unbounded in the source and run on fuel here. *)

From S2P Require Import Prelude Errno NfpHeaders Netwrap.
Import Errno Netwrap.

Module NetwrapIo.

Definition SOL_SOCKET : Z := 1.
Definition SO_DEBUG : Z := 1.
Definition SO_REUSEADDR : Z := 2.
Definition SO_TYPE : Z := 3.
Definition SO_ERROR : Z := 4.
Definition SO_DONTROUTE : Z := 5.
Definition SO_BROADCAST : Z := 6.
Definition SO_SNDBUF : Z := 7.
Definition SO_RCVBUF : Z := 8.
Definition SO_KEEPALIVE : Z := 9.
Definition SO_OOBINLINE : Z := 10.
Definition SO_LINGER : Z := 13.
Definition SO_REUSEPORT : Z := 15.
Definition SO_RCVLOWAT : Z := 18.
Definition SO_SNDLOWAT : Z := 19.
Definition SO_RCVTIMEO : Z := 20.
Definition SO_SNDTIMEO : Z := 21.
Definition SO_TIMESTAMP : Z := 29.
Definition SO_ACCEPTCONN : Z := 30.
Definition SO_PROTOCOL : Z := 38.
Definition NFP_SOL_SOCKET : Z := 0xffff.
Definition NFP_SO_DEBUG : Z := 0x1.
Definition NFP_SO_ACCEPTCONN : Z := 0x2.
Definition NFP_SO_REUSEADDR : Z := 0x4.
Definition NFP_SO_KEEPALIVE : Z := 0x8.
Definition NFP_SO_DONTROUTE : Z := 0x10.
Definition NFP_SO_BROADCAST : Z := 0x20.
Definition NFP_SO_LINGER : Z := 0x80.
Definition NFP_SO_OOBINLINE : Z := 0x100.
Definition NFP_SO_REUSEPORT : Z := 0x200.
Definition NFP_SO_TIMESTAMP : Z := 0x400.
Definition NFP_SO_SNDBUF : Z := 0x1001.
Definition NFP_SO_RCVBUF : Z := 0x1002.
Definition NFP_SO_SNDLOWAT : Z := 0x1003.
Definition NFP_SO_RCVLOWAT : Z := 0x1004.
Definition NFP_SO_SNDTIMEO : Z := 0x1005.
Definition NFP_SO_RCVTIMEO : Z := 0x1006.
Definition NFP_SO_ERROR : Z := 0x1007.
Definition NFP_SO_TYPE : Z := 0x1008.
Definition NFP_SO_PROTOCOL : Z := 0x1016.

(** A [switch] over option names. *)
Fixpoint switch (cases : list (Z * Z)) (x : Z) : option Z :=
  match cases with
  | [] => None
  | (k, v) :: r => if x =? k then Some v else switch r x
  end.

(** The cases of [setsockopt] and of [getsockopt], in source order. *)
Definition setsockopt_cases : list (Z * Z) :=
  [(SO_LINGER, NFP_SO_LINGER); (SO_DEBUG, NFP_SO_DEBUG); (SO_KEEPALIVE, NFP_SO_KEEPALIVE);
   (SO_DONTROUTE, NFP_SO_DONTROUTE); (SO_BROADCAST, NFP_SO_BROADCAST);
   (SO_REUSEADDR, NFP_SO_REUSEADDR); (SO_REUSEPORT, NFP_SO_REUSEPORT);
   (SO_OOBINLINE, NFP_SO_OOBINLINE); (SO_TIMESTAMP, NFP_SO_TIMESTAMP);
   (SO_SNDBUF, NFP_SO_SNDBUF); (SO_RCVBUF, NFP_SO_RCVBUF); (SO_SNDLOWAT, NFP_SO_SNDLOWAT);
   (SO_RCVLOWAT, NFP_SO_RCVLOWAT); (SO_SNDTIMEO, NFP_SO_SNDTIMEO);
   (SO_RCVTIMEO, NFP_SO_RCVTIMEO)].

Definition getsockopt_cases : list (Z * Z) :=
  [(SO_LINGER, NFP_SO_LINGER); (SO_DEBUG, NFP_SO_DEBUG); (SO_KEEPALIVE, NFP_SO_KEEPALIVE);
   (SO_DONTROUTE, NFP_SO_DONTROUTE); (SO_BROADCAST, NFP_SO_BROADCAST);
   (SO_REUSEADDR, NFP_SO_REUSEADDR); (SO_REUSEPORT, NFP_SO_REUSEPORT);
   (SO_OOBINLINE, NFP_SO_OOBINLINE); (SO_ACCEPTCONN, NFP_SO_ACCEPTCONN);
   (SO_TIMESTAMP, NFP_SO_TIMESTAMP); (SO_SNDBUF, NFP_SO_SNDBUF); (SO_RCVBUF, NFP_SO_RCVBUF);
   (SO_SNDLOWAT, NFP_SO_SNDLOWAT); (SO_RCVLOWAT, NFP_SO_RCVLOWAT);
   (SO_SNDTIMEO, NFP_SO_SNDTIMEO); (SO_RCVTIMEO, NFP_SO_RCVTIMEO); (SO_TYPE, NFP_SO_TYPE);
   (SO_PROTOCOL, NFP_SO_PROTOCOL); (SO_ERROR, NFP_SO_ERROR)].

Section Io.
Context {W F : Type} `{!Env W F}.
Local Abbreviation MW := (M (nw W F)).

Definition setup_sockopt_wrappers : MW unit :=
  LIBC_FUNCTION F_setsockopt;; LIBC_FUNCTION F_getsockopt.

Definition setsockopt (sockfd level opt_name opt_val opt_len : Z) : MW Z :=
  b ← IS_NFP_SOCKET sockfd;
  if (b : bool) then
    let go (nfp_level nfp_opt_name : Z) : MW Z :=
      r ← nfp (N_setsockopt sockfd nfp_level nfp_opt_name opt_val opt_len);
      errno_from_nfp;;
      mret (n_val r) in
    if level =? SOL_SOCKET then
      match switch setsockopt_cases opt_name with
      | None => set_errno EOPNOTSUPP;; mret (-1)
      | Some o => go NFP_SOL_SOCKET o
      end
    else go level opt_name
  else via_libc F_setsockopt (L_setsockopt sockfd level opt_name opt_val opt_len).

Definition getsockopt (sockfd level opt_name opt_val opt_len : Z) : MW Z :=
  b ← IS_NFP_SOCKET sockfd;
  if (b : bool) then
    let go (nfp_level nfp_opt_name : Z) : MW Z :=
      r ← nfp (N_getsockopt sockfd nfp_level nfp_opt_name opt_val opt_len);
      errno_from_nfp;;
      mret (n_val r) in
    if level =? SOL_SOCKET then
      match switch getsockopt_cases opt_name with
      | None => set_errno EOPNOTSUPP;; mret (-1)
      | Some o => go NFP_SOL_SOCKET o
      end
    else go level opt_name
  else via_libc F_getsockopt (L_getsockopt sockfd level opt_name opt_val opt_len).

Definition FIONREAD : Z := 0x541B.
Definition FIONBIO : Z := 0x5421.
Definition FIOASYNC : Z := 0x5452.

Definition setup_ioctl_wrappers : MW unit := LIBC_FUNCTION F_ioctl.

(** [nfp_request] is an [int]. *)
Definition ioctl (fd request p : Z) : MW Z :=
  b ← IS_NFP_SOCKET fd;
  if (b : bool) then
    let go (nfp_request : Z) : MW Z :=
      r ← nfp (N_ioctl fd (s32 nfp_request) (ArgPtr p));
      errno_from_nfp;;
      mret (n_val r) in
    if request =? FIONREAD then go (Ioctl.NFP_FIONREAD int_size)
    else if request =? FIONBIO then go (Ioctl.NFP_FIONBIO int_size)
    else if request =? FIOASYNC then go (Ioctl.NFP_FIOASYNC int_size)
    else set_errno EINVAL;; mret (-1)
  else via_libc F_ioctl (L_ioctl fd request p).

(** ** netwrap_select.c *)

Definition setup_select_wrappers : MW unit := LIBC_FUNCTION F_select.

(** The Linux [fd_set] has room for [FD_SETSIZE] descriptors; [FD_ISSET] and
    [FD_CLR] of another one read or write outside it. *)
Definition FD_SETSIZE : Z := 1024.
Definition fd_ok (i : Z) : bool := (0 <=? i) && (i <? FD_SETSIZE).
Definition FD_ISSET (i : Z) (set : gset Z) : MW bool :=
  if fd_ok i then mret (bool_decide (i ∈ set)) else stuck.
Definition FD_CLR (i : Z) (set : gset Z) : MW (gset Z) :=
  if fd_ok i then mret (set ∖ {[i]}) else stuck.

(** [for (i = sd_offset; i < nfds; i++)] with an accumulator. *)
Fixpoint fd_loop {A} (i : Z) (n : nat) (body : Z → A → MW A) (a : A) : MW A :=
  match n with
  | O => mret a
  | S n' => a' ← body i a; fd_loop (i + 1) n' body a'
  end.

(** The polling loop: [timeout] says whether a timeout was given; the state
    is [temp_period_usec] and [nfp_timeout_local], which [nfp_select] may
    update. *)
Definition select_step (nfds : Z) (bku : F) (timeout : bool) (period : Z) (st : Z * (Z * Z))
    : MW ((Z * (Z * Z)) + (Z * nreply F)) :=
  r ← nfp (N_select nfds bku st.2.1 st.2.2);
  if negb (n_val r =? 0) then mret (inr (n_val r, r))
  else if negb timeout then mret (inl (st.1, n_timeout r))
  else
    _ ← libc (L_usleep 100);
    let temp' := u32 (st.1 + 100) in
    if period <? temp' then mret (inr (0, r)) else mret (inl (temp', n_timeout r)).

(** [readfds] and [timeout] are NULL or what is stored there; the result has
    what they hold afterwards.  The other arguments are addresses, only
    passed on. *)
Definition select (fuel : nat) (nfds : Z) (readfds_p writefds exceptfds timeout_p : Z)
    (readfds : option (gset Z)) (timeout : option (Z * Z))
    : MW (Z * option (gset Z) * option (Z * Z)) :=
  b ← IS_NFP_SOCKET (nfds - 1);
  if (b : bool) then
    match readfds with
    | None => set_errno EBADF;; mret (-1, None, timeout)
    | Some set =>
        off ← gets (λ s, s32 (sd_offset s));
        bku ← fd_loop off (Z.to_nat (nfds - off))
                (λ i acc, x ← FD_ISSET i set;
                          mret (if (x : bool) then NFP_FD_SET i acc else acc)) NFP_FD_ZERO;
        let period := match timeout with
                      | Some (sec, usec) => u32 (u64 (sec * 1000000) + usec)
                      | None => 0
                      end in
        vr ← loop fuel (select_step nfds bku (bool_decide (is_Some timeout)) period) (0, (0, 0));
        errno_from_nfp;;
        set' ← (if 0 <? vr.1 then
                  fd_loop off (Z.to_nat (nfds - off))
                    (λ i acc, x ← FD_ISSET i acc;
                              if (x : bool) && negb (NFP_FD_ISSET i (n_set vr.2))
                              then FD_CLR i acc else mret acc) set
                else mret (if vr.1 =? 0 then ∅ else set));
        e ← gets nfp_errno;
        let timeout' :=
          match timeout with
          | Some tv => Some (if e =? 0 then n_timeout vr.2 else tv)
          | None => None
          end in
        mret (vr.1, Some set', timeout')
    end
  else
    v ← via_libc F_select (L_select nfds readfds_p writefds exceptfds timeout_p);
    mret (v, readfds, timeout).

(** ** netwrap_epoll.c *)

Definition set_epoll_called (s : nw W F) : nw W F :=
  NW (world s) (errno s) (nfp_errno s) (netwrap_constructor_called s) (sd_offset s) (libc_ptr s)
     true (setup_fork_wrappers_called s) (recursive s) (trace s).

Definition setup_epoll_wrappers : MW unit :=
  LIBC_FUNCTION F_epoll_create;; LIBC_FUNCTION F_epoll_ctl;; LIBC_FUNCTION F_epoll_wait;;
  modify set_epoll_called.

Definition epoll_create (size : Z) : MW Z :=
  called ← gets setup_epoll_wrappers_called;
  if (called : bool) then
    r ← nfp (N_epoll_create size);
    (if n_val r =? -1 then errno_from_nfp else set_errno 0);;
    mret (n_val r)
  else lookup_and_call F_epoll_create (L_epoll_create size).

(** [event] is NULL or its address, events and data. *)
Definition epoll_ctl (epfd op fd : Z) (event : option (Z * (Z * Z))) : MW Z :=
  b ← IS_NFP_SOCKET epfd;
  if (b : bool) then
    ev ← of_option event;
    r ← nfp (N_epoll_ctl epfd op fd ev.2.1 ev.2.2);
    if n_val r =? 0 then mret 0
    else errno_from_nfp;; mret (-1)
  else via_libc F_epoll_ctl
         (L_epoll_ctl epfd op fd (match event with Some (p, _) => p | None => 0 end)).

(** The copy loop: the events stored for the caller. *)
Fixpoint copy_events (n : nat) (src : list (Z * Z)) : MW (list (Z * Z)) :=
  match n with
  | O => mret []
  | S n' => match src with
            | [] => stuck
            | e :: r => rest ← copy_events n' r; mret (e :: rest)
            end
  end.

(** The local array has [maxevents] elements, and an array type needs at
    least one. *)
Definition epoll_wait (epfd events maxevents timeout : Z) : MW (Z * list (Z * Z)) :=
  b ← IS_NFP_SOCKET epfd;
  if (b : bool) then
    if maxevents <=? 0 then stuck else
    r ← nfp (N_epoll_wait epfd maxevents timeout);
    when (n_val r =? -1) errno_from_nfp;;
    evs ← copy_events (Z.to_nat (n_val r)) (take (Z.to_nat maxevents) (n_events r));
    mret (n_val r, evs)
  else
    v ← via_libc F_epoll_wait (L_epoll_wait epfd events maxevents timeout);
    mret (v, []).

(** ** netwrap_uio.c *)

Definition setup_uio_wrappers : MW unit := LIBC_FUNCTION F_writev.

(** The inner loop of [writev]: [iov_snt] bytes of [iov_len] are sent. *)
Definition writev_step (fd base iov_len iov_snt : Z) : MW (Z + bool) :=
  if iov_snt <? iov_len then
    r ← nfp (N_send fd (BufPtr (base + iov_snt)) (u32 (iov_len - iov_snt)) 0);
    if n_val r <=? 0 then
      e ← gets nfp_errno;
      if (n_val r =? 0) || (e =? NFP_EAGAIN) then _ ← libc (L_usleep 100); mret (inl iov_snt)
      else errno_from_nfp;; mret (inr false)
    else mret (inl (u32 (iov_snt + n_val r)))
  else mret (inr true).

(** The outer loop over [iov[i], ..., iov[i + n - 1]]; [None] is [return -1]. *)
Fixpoint writev_loop (fuel : nat) (fd : Z) (iov : list (Z * Z)) (i n : nat) (sum : Z)
    : MW (option Z) :=
  match n with
  | O => mret (Some sum)
  | S n' =>
      v ← of_option (iov !! i);
      let iov_len := u32 v.2 in
      ok ← loop fuel (writev_step fd v.1 iov_len) 0;
      if (ok : bool) then writev_loop fuel fd iov (S i) n' (sum + iov_len)
      else mret None
  end.

Definition writev (fuel : nat) (fd iov_p : Z) (iov : list (Z * Z)) (iovcnt : Z) : MW Z :=
  b ← IS_NFP_SOCKET fd;
  if (b : bool) then
    r ← writev_loop fuel fd iov 0 (Z.to_nat iovcnt) 0;
    match r with Some sum => mret sum | None => mret (-1) end
  else via_libc F_writev (L_writev fd iov_p iovcnt).

(** ** netwrap_sendfile.c *)

Definition setup_sendfile_wrappers : MW unit :=
  LIBC_FUNCTION F_sendfile64;; LIBC_FUNCTION F_sendfile_read.

Definition BUF_SIZE : Z := 1024.
Definition SEEK_SET : Z := 0.
Definition SEEK_CUR : Z := 1.

(** [( *libc_read)(in_fd, buff, BUF_SIZE)] with the data read. *)
Definition read_chunk (in_fd : Z) : MW lreply :=
  p ← gets (λ s, libc_ptr s F_sendfile_read);
  if (p : bool) then libc_reply (L_read in_fd (BufData []) BUF_SIZE) else stuck.

(** The inner loop: [sum] bytes of the chunk are sent; [false] is [return -1]. *)
Definition send_step (out_fd : Z) (buff : bytes) (data_read sum : Z) : MW (Z + bool) :=
  if sum <? data_read then
    r ← nfp (N_send out_fd (BufData (take (Z.to_nat (data_read - sum)) (drop (Z.to_nat sum) buff)))
               (u32 (data_read - sum)) 0);
    if n_val r <? 0 then
      e ← gets nfp_errno;
      if e =? NFP_EWOULDBLOCK then _ ← libc (L_usleep 100); mret (inl sum)
      else errno_from_nfp;; mret (inr false)
    else mret (inl (sum + n_val r))
  else mret (inr true).

(** One turn of the outer loop; the result is [None] for [return -1]. *)
Definition sendfile_step (fuel : nat) (out_fd in_fd count : Z) (processed : Z)
    : MW (Z + option Z) :=
  if processed <? count then
    d ← read_chunk in_fd;
    if l_val d <? 0 then mret (inr None)
    else if l_val d =? 0 then mret (inr (Some processed))
    else
      ok ← loop fuel (send_step out_fd (l_data d) (l_val d)) 0;
      if (ok : bool) then mret (inl (processed + l_val d)) else mret (inr None)
  else mret (inr (Some processed)).

(** [offset] is NULL or the value there; the result has the new value. *)
Definition sendfile64 (fuel : nat) (out_fd in_fd offset_p : Z) (offset : option Z) (count : Z)
    : MW (Z * option Z) :=
  b ← IS_NFP_SOCKET out_fd;
  if (b : bool) then
    pre ← (match offset with
           | None => mret (Some 0)
           | Some o =>
               orig ← libc (L_lseek in_fd 0 SEEK_CUR);
               if orig =? -1 then mret None else
               x ← libc (L_lseek in_fd o SEEK_SET);
               if x =? -1 then mret None else mret (Some orig)
           end);
    match pre with
    | None => mret (-1, offset)
    | Some orig =>
        r ← loop fuel (sendfile_step fuel out_fd in_fd count) 0;
        match r with
        | None => mret (-1, offset)
        | Some processed =>
            match offset with
            | None => mret (processed, None)
            | Some _ =>
                o' ← libc (L_lseek in_fd 0 SEEK_CUR);
                if o' =? -1 then mret (-1, Some o') else
                x ← libc (L_lseek in_fd orig SEEK_SET);
                if x =? -1 then mret (-1, Some o') else mret (processed, Some o')
            end
        end
    end
  else
    v ← via_libc F_sendfile64 (L_sendfile64 out_fd in_fd offset_p count);
    mret (v, offset).

(** ** netwrap_fork.c *)

Definition set_fork_called (s : nw W F) : nw W F :=
  NW (world s) (errno s) (nfp_errno s) (netwrap_constructor_called s) (sd_offset s) (libc_ptr s)
     (setup_epoll_wrappers_called s) true (recursive s) (trace s).
Definition set_recursive (b : bool) (s : nw W F) : nw W F :=
  NW (world s) (errno s) (nfp_errno s) (netwrap_constructor_called s) (sd_offset s) (libc_ptr s)
     (setup_epoll_wrappers_called s) (setup_fork_wrappers_called s) b (trace s).

Definition setup_fork_wrappers : MW unit :=
  LIBC_FUNCTION F_fork;; LIBC_FUNCTION F_vfork;; modify set_fork_called.

(** The wrapper calls itself with [recursive] set; [depth] bounds the calls. *)
Fixpoint fork (depth : nat) : MW Z :=
  match depth with
  | O => no_fuel
  | S depth' =>
      called ← gets setup_fork_wrappers_called;
      if (called : bool) then
        rec ← gets recursive;
        if (rec : bool) then
          p ← gets (λ s, libc_ptr s F_fork);
          if negb (p : bool) then set_errno EACCES;; mret (-1)
          else call_ptr F_fork L_fork
        else
          modify (set_recursive true);;
          pid ← fork depth';
          modify (set_recursive false);;
          if pid <? 0 then mret (-1)
          else if pid =? 0 then
            _ ← nfp N_init_local_resources;
            mret 0
          else mret pid
      else via_libc F_fork L_fork
  end.

(** ** netwrap.c *)

(** The constructor of the library. *)
Definition setup_wrappers (params : option Z) : MW unit :=
  rc ← setup_common_vars params;
  if negb (rc =? 0) then mret () else
  setup_socket_wrappers;;
  setup_sockopt_wrappers;;
  setup_ioctl_wrappers;;
  setup_fork_wrappers;;
  setup_select_wrappers;;
  setup_uio_wrappers;;
  setup_sendfile_wrappers;;
  setup_epoll_wrappers.
End Io.

End NetwrapIo.
