(* ===== verification/NetwrapProofs.v ===== *)
(** * Routing of the wrapped calls

    A small logic for the calls a computation makes to the outside, and with it
    the two routing theorems of the wrapper library: descriptors at or above
    the offset reach the fast path only, the others the C library only. *)

From S2P Require Import Prelude Errno NfpHeaders Netwrap NetwrapIo.
Import Errno Netwrap NetwrapIo.

Module NetwrapProofs.

Section Logic.
Context {W F : Type} `{!Env W F}.
Local Abbreviation MW := (M (nw W F)).
Implicit Types (P : call F → Prop) (s : nw W F).

(** The linker finds every function the wrappers ask for. *)
Definition dl_ok : Prop := ∀ f, dlsym f = DlOk.

(** What no wrapper changes, and pointers that are not lost. *)
Definition frame s s' : Prop :=
  netwrap_constructor_called s' = netwrap_constructor_called s ∧
  sd_offset s' = sd_offset s ∧
  setup_epoll_wrappers_called s' = setup_epoll_wrappers_called s ∧
  setup_fork_wrappers_called s' = setup_fork_wrappers_called s ∧
  (dl_ok → ∀ f, libc_ptr s f = true → libc_ptr s' f = true).

(** All the calls [m] makes from any state satisfy [P]. *)
Definition emitted {A} (P : call F → Prop) s (r : outcome A * nw W F) : Prop :=
  ∃ new, trace r.2 = trace s ++ new ∧ Forall P new ∧ frame s r.2.
Definition emits {A} (P : call F → Prop) (m : MW A) : Prop := ∀ s, emitted P s (m s).

Lemma frame_refl s : frame s s.
Proof using Type. repeat split; auto. Qed.

Lemma frame_trans s1 s2 s3 : frame s1 s2 → frame s2 s3 → frame s1 s3.
Proof using Type.
  intros (H1 & H2 & H3 & H4 & H5) (G1 & G2 & G3 & G4 & G5). unfold frame.
  split_and!; try congruence. eauto.
Qed.

Lemma emits_same {A} P (m : MW A) :
  (∀ s, trace (m s).2 = trace s ∧ frame s (m s).2) → emits P m.
Proof using Type. intros H s. exists []. destruct (H s). rewrite app_nil_r. auto. Qed.

Lemma emits_ret {A} P (a : A) : emits P (mret a).
Proof using Type. apply emits_same. intros s. split; [done|apply frame_refl]. Qed.

Lemma emits_gets {A} P (f : nw W F → A) : emits P (gets f).
Proof using Type. apply emits_same. intros s. split; [done|apply frame_refl]. Qed.

Lemma emits_stuck {A} P : emits P (stuck : MW A).
Proof using Type. apply emits_same. intros s. split; [done|apply frame_refl]. Qed.

Lemma emits_no_fuel {A} P : emits P (no_fuel : MW A).
Proof using Type. apply emits_same. intros s. split; [done|apply frame_refl]. Qed.

Lemma emits_exit {A} P c : emits P (exit c : MW A).
Proof using Type. apply emits_same. intros s. split; [done|apply frame_refl]. Qed.

Lemma emits_of_option {A} P (o : option A) : emits P (of_option o : MW A).
Proof using Type. destruct o; [apply emits_ret|apply emits_stuck]. Qed.

Lemma emits_set_errno P e : emits P (set_errno e).
Proof using Type. apply emits_same. intros s. split; [done|]. by repeat split. Qed.

Lemma emits_bind {A B} P (m : MW A) (f : A → MW B) :
  emits P m → (∀ a, emits P (f a)) → emits P (m ≫= f).
Proof using Type.
  intros Hm Hf s. destruct (Hm s) as (n1 & H1 & HP1 & Hfr1). unfold mbind, M_bind.
  destruct (m s) as [[a|c| |] s1]; simpl in *; try (by exists n1).
  destruct (Hf a s1) as (n2 & H2 & HP2 & Hfr2). exists (n1 ++ n2).
  rewrite H2, H1, app_assoc. split_and!; [done|by apply Forall_app|by eapply frame_trans].
Qed.

Lemma emits_errno_from_nfp P : emits P errno_from_nfp.
Proof using Type. apply emits_bind; [apply emits_gets|intros; apply emits_set_errno]. Qed.

Lemma emits_if {A} P (b : bool) (m1 m2 : MW A) :
  emits P m1 → emits P m2 → emits P (if b then m1 else m2).
Proof using Type. by destruct b. Qed.

Lemma emits_when P b (m : MW unit) : emits P m → emits P (when b m).
Proof using Type. intros. destruct b; [done|apply emits_ret]. Qed.

Lemma emits_nfp P c : P (CNfp c) → emits P (nfp c).
Proof using Type.
  intros Hc s. unfold nfp. destruct (nfp_do c (world s)) as [r w]. simpl.
  exists [CNfp c]. split_and!; [done|by repeat constructor|by repeat split].
Qed.

Lemma emits_libc_reply P c : P (CLibc c) → emits P (libc_reply c).
Proof using Type.
  intros Hc s. unfold libc_reply. destruct (libc_do c (errno s) (world s)) as [r w]. simpl.
  exists [CLibc c]. split_and!; [done|by repeat constructor|by repeat split].
Qed.

Lemma emits_libc P c : P (CLibc c) → emits P (libc c).
Proof using Type.
  intros. apply emits_bind; [by apply emits_libc_reply|intros; apply emits_ret].
Qed.

Lemma emits_LIBC_FUNCTION P f : P (CDlsym f) → emits P (LIBC_FUNCTION f).
Proof using Type.
  intros Hf. unfold LIBC_FUNCTION.
  assert (Hset : ∀ b, (b = false → dlsym f ≠ DlOk) → emits P (modify (set_ptr f b))).
  { intros b Hb s. exists [CDlsym f]. simpl. split_and!; [done|by repeat constructor|].
    repeat split; try done. intros Hdl g Hg. simpl. destruct (decide (g = f)) as [->|]; [|done].
    destruct b; [done|]. by destruct (Hb eq_refl). }
  destruct (dlsym f) eqn:E; [by apply Hset|apply Hset; congruence|].
  apply emits_bind; [apply Hset; congruence|intros _].
  apply emits_bind; [apply emits_set_errno|intros _; apply emits_exit].
Qed.

Lemma emits_call_ptr P f c : P (CLibc c) → emits P (call_ptr f c).
Proof using Type.
  intros. apply emits_bind; [apply emits_gets|]. intros b. apply emits_if; [by apply emits_libc|apply emits_stuck].
Qed.

Lemma emits_lookup_and_call P f c :
  P (CDlsym f) → P (CLibc c) → emits P (lookup_and_call f c).
Proof using Type.
  intros Hf Hc. apply emits_bind; [by apply emits_LIBC_FUNCTION|intros _].
  apply emits_bind; [apply emits_gets|intros b]. apply emits_if; [by apply emits_call_ptr|].
  apply emits_bind; [apply emits_set_errno|intros _; apply emits_ret].
Qed.

Lemma emits_via_libc P f c : P (CDlsym f) → P (CLibc c) → emits P (via_libc f c).
Proof using Type.
  intros Hf Hc. apply emits_bind; [apply emits_gets|intros b].
  apply emits_if; [by apply emits_call_ptr|by apply emits_lookup_and_call].
Qed.

Lemma emits_loop {A B} P (body : A → MW (A + B)) n a :
  (∀ a, emits P (body a)) → emits P (loop n body a).
Proof using Type.
  intros Hb. revert a. induction n as [|n IH]; intros a; simpl; [apply emits_no_fuel|].
  apply emits_bind; [apply Hb|]. intros [a'|b]; [apply IH|apply emits_ret].
Qed.

Lemma emits_fd_loop {A} P (body : Z → A → MW A) n i a :
  (∀ i a, emits P (body i a)) → emits P (fd_loop i n body a).
Proof using Type.
  intros Hb. revert i a. induction n as [|n IH]; intros i a; simpl; [apply emits_ret|].
  apply emits_bind; [apply Hb|intros; apply IH].
Qed.

Lemma emits_copy_events P n l : emits P (copy_events n l).
Proof using Type.
  revert l. induction n as [|n IH]; intros [|e l]; simpl; try apply emits_ret; try apply emits_stuck.
  apply emits_bind; [apply IH|intros; apply emits_ret].
Qed.

(** The test that selects the branch of a wrapper. *)
Definition is_nfp (s : nw W F) (fd : Z) : bool :=
  netwrap_constructor_called s && (s32 (sd_offset s) <=? fd).

Lemma IS_NFP_SOCKET_step {A} fd (K : bool → MW A) s :
  (IS_NFP_SOCKET fd ≫= K) s = K (is_nfp s fd) s.
Proof using Type. done. Qed.
End Logic.

#[export] Hint Resolve emits_ret emits_gets emits_stuck emits_no_fuel emits_exit emits_of_option
  emits_set_errno emits_errno_from_nfp emits_copy_events : nfp.

(** Discharge [emits] goals structurally; the facts about single calls are left. *)
Ltac emits :=
  repeat first
    [ progress cbv zeta
    | apply emits_ret | apply emits_gets | apply emits_stuck | apply emits_no_fuel
    | apply emits_exit | apply emits_of_option | apply emits_set_errno
    | apply emits_errno_from_nfp | apply emits_copy_events
    | apply emits_nfp | apply emits_libc | apply emits_libc_reply | apply emits_call_ptr
    | apply emits_lookup_and_call | apply emits_via_libc | apply emits_LIBC_FUNCTION
    | apply emits_when | apply emits_if
    | apply emits_loop; intros ?
    | apply emits_fd_loop; intros ? ?
    | apply emits_bind; [|intros ?]
    | match goal with
      | |- emits _ (match ?x with _ => _ end) => destruct x
      end ].

(** ** The interface of the library as requests *)

Inductive request :=
| Rq_socket (domain type protocol : Z)
| Rq_shutdown (fd how : Z)
| Rq_close (fd : Z)
| Rq_bind (fd : Z) (addr : option (Z * saddr)) (len : Z)
| Rq_accept (fd addr_p len_p : Z) (addrlen : option Z)
| Rq_accept4 (fd addr_p len_p : Z) (addrlen : option Z) (flags : Z)
| Rq_listen (fd backlog : Z)
| Rq_connect (fd : Z) (addr : option (Z * saddr)) (len : Z)
| Rq_read (fd buf len : Z)
| Rq_write (fd buf len : Z)
| Rq_recv (fd buf len flags : Z)
| Rq_send (fd buf len flags : Z)
| Rq_setsockopt (fd level name val len : Z)
| Rq_getsockopt (fd level name val len : Z)
| Rq_ioctl (fd request p : Z)
| Rq_select (nfds readfds_p writefds exceptfds timeout_p : Z)
    (readfds : option (gset Z)) (timeout : option (Z * Z))
| Rq_writev (fd iov_p : Z) (iov : list (Z * Z)) (iovcnt : Z)
| Rq_sendfile64 (out_fd in_fd offset_p : Z) (offset : option Z) (count : Z)
| Rq_epoll_create (size : Z)
| Rq_epoll_ctl (epfd op fd : Z) (event : option (Z * (Z * Z)))
| Rq_epoll_wait (epfd events maxevents timeout : Z).

(** Unfold the wrapper under test. *)
Ltac wrapper := unfold socket, shutdown, close, bind, accept, accept4, listen, connect, read, write,
  recv, send, setsockopt, getsockopt, ioctl, select, writev, sendfile64, epoll_create, epoll_ctl,
  epoll_wait.

Section Requests.
Context {W F : Type} `{!Env W F}.
Local Abbreviation MW := (M (nw W F)).

(** Run a request and return the value of the wrapper. *)
Definition run (fuel : nat) (q : request) : MW Z :=
  match q with
  | Rq_socket d t p => socket d t p
  | Rq_shutdown fd how => shutdown fd how
  | Rq_close fd => close fd
  | Rq_bind fd a l => bind fd a l
  | Rq_accept fd a lp l => r ← accept fd a lp l; mret r.1
  | Rq_accept4 fd a lp l f => r ← accept4 fd a lp l f; mret r.1
  | Rq_listen fd b => listen fd b
  | Rq_connect fd a l => connect fd a l
  | Rq_read fd b l => read fd b l
  | Rq_write fd b l => write fd b l
  | Rq_recv fd b l f => recv fd b l f
  | Rq_send fd b l f => send fd b l f
  | Rq_setsockopt fd lv n v l => setsockopt fd lv n v l
  | Rq_getsockopt fd lv n v l => getsockopt fd lv n v l
  | Rq_ioctl fd r p => ioctl fd r p
  | Rq_select n rp wp ep tp rs tv => r ← select fuel n rp wp ep tp rs tv; mret r.1.1
  | Rq_writev fd ip iov c => writev fuel fd ip iov c
  | Rq_sendfile64 o i op off c => r ← sendfile64 fuel o i op off c; mret r.1
  | Rq_epoll_create n => epoll_create n
  | Rq_epoll_ctl ep op fd e => epoll_ctl ep op fd e
  | Rq_epoll_wait ep e m t => r ← epoll_wait ep e m t; mret r.1
  end.

(** The descriptor that decides, where one does. *)
Definition rq_fd (q : request) : Z :=
  match q with
  | Rq_socket _ _ _ | Rq_epoll_create _ => 0
  | Rq_shutdown fd _ | Rq_close fd | Rq_bind fd _ _ | Rq_accept fd _ _ _ | Rq_accept4 fd _ _ _ _
  | Rq_listen fd _ | Rq_connect fd _ _ | Rq_read fd _ _ | Rq_write fd _ _ | Rq_recv fd _ _ _
  | Rq_send fd _ _ _ | Rq_setsockopt fd _ _ _ _ | Rq_getsockopt fd _ _ _ _ | Rq_ioctl fd _ _
  | Rq_writev fd _ _ _ | Rq_sendfile64 fd _ _ _ _ | Rq_epoll_ctl fd _ _ _
  | Rq_epoll_wait fd _ _ _ => fd
  | Rq_select nfds _ _ _ _ _ _ => nfds - 1
  end.

(** Does a request belong to the fast path in this state? *)
Definition routed (s : nw W F) (q : request) : bool :=
  match q with
  | Rq_socket d _ _ => netwrap_constructor_called s && (d =? AF_INET)
  | Rq_epoll_create _ => setup_epoll_wrappers_called s
  | _ => is_nfp s (rq_fd q)
  end.

(** The C library call with the same arguments, and its symbol. *)
Definition libc_of (q : request) : libc_call :=
  match q with
  | Rq_socket d t p => L_socket d t p
  | Rq_shutdown fd how => L_shutdown fd how
  | Rq_close fd => L_close fd
  | Rq_bind fd a l => L_bind fd (addr_ptr a) l
  | Rq_accept fd a lp _ => L_accept fd a lp
  | Rq_accept4 fd a lp _ f => L_accept4 fd a lp f
  | Rq_listen fd b => L_listen fd b
  | Rq_connect fd a l => L_connect fd (addr_ptr a) l
  | Rq_read fd b l => L_read fd (BufPtr b) l
  | Rq_write fd b l => L_write fd (BufPtr b) l
  | Rq_recv fd b l f => L_recv fd (BufPtr b) l f
  | Rq_send fd b l f => L_send fd (BufPtr b) l f
  | Rq_setsockopt fd lv n v l => L_setsockopt fd lv n v l
  | Rq_getsockopt fd lv n v l => L_getsockopt fd lv n v l
  | Rq_ioctl fd r p => L_ioctl fd r p
  | Rq_select n rp wp ep tp _ _ => L_select n rp wp ep tp
  | Rq_writev fd ip _ c => L_writev fd ip c
  | Rq_sendfile64 o i op _ c => L_sendfile64 o i op c
  | Rq_epoll_create n => L_epoll_create n
  | Rq_epoll_ctl ep op fd e => L_epoll_ctl ep op fd (match e with Some (p, _) => p | None => 0 end)
  | Rq_epoll_wait ep e m t => L_epoll_wait ep e m t
  end.

Definition symbol_of (q : request) : lfun :=
  match q with
  | Rq_socket _ _ _ => F_socket | Rq_shutdown _ _ => F_shutdown | Rq_close _ => F_close
  | Rq_bind _ _ _ => F_bind | Rq_accept _ _ _ _ => F_accept | Rq_accept4 _ _ _ _ _ => F_accept4
  | Rq_listen _ _ => F_listen | Rq_connect _ _ _ => F_connect | Rq_read _ _ _ => F_read
  | Rq_write _ _ _ => F_write | Rq_recv _ _ _ _ => F_recv | Rq_send _ _ _ _ => F_send
  | Rq_setsockopt _ _ _ _ _ => F_setsockopt | Rq_getsockopt _ _ _ _ _ => F_getsockopt
  | Rq_ioctl _ _ _ => F_ioctl | Rq_select _ _ _ _ _ _ _ => F_select
  | Rq_writev _ _ _ _ => F_writev | Rq_sendfile64 _ _ _ _ _ => F_sendfile64
  | Rq_epoll_create _ => F_epoll_create | Rq_epoll_ctl _ _ _ _ => F_epoll_ctl
  | Rq_epoll_wait _ _ _ _ => F_epoll_wait
  end.

(** The descriptor a fast-path call is about. *)
Definition nfp_fd (c : nfp_call F) : option Z :=
  match c with
  | N_shutdown fd _ | N_close fd | N_bind fd _ _ | N_accept fd _ | N_listen fd _
  | N_connect fd _ _ | N_recv fd _ _ _ | N_send fd _ _ _ | N_setsockopt fd _ _ _ _
  | N_getsockopt fd _ _ _ _ | N_ioctl fd _ _ | N_epoll_ctl fd _ _ _ _ | N_epoll_wait fd _ _ => Some fd
  | N_select nfds _ _ _ => Some (nfds - 1)
  | N_socket _ _ _ | N_epoll_create _ | N_init_local_resources => None
  end.

(** The calls a routed request may make: fast-path calls on its descriptor
    (and, for [accept4], the mode switch and the close of the accepted one),
    a pause while it waits, and, for [sendfile64], reading the file. *)
Definition fast_path (q : request) (c : call F) : Prop :=
  match c with
  | CNfp n =>
      match nfp_fd n, q with
      | None, _ => True
      | Some fd, Rq_accept4 lfd _ _ _ _ =>
          fd = lfd ∨ match n with N_ioctl _ _ _ | N_close _ => True | _ => False end
      | Some fd, _ => fd = rq_fd q
      end
  | CLibc (L_usleep _) => True
  | CLibc (L_read fd _ _) | CLibc (L_lseek fd _ _) =>
      match q with Rq_sendfile64 _ in_fd _ _ _ => fd = in_fd | _ => False end
  | _ => False
  end.

(** The calls an unrouted request may make: its own, and the lookup of it. *)
Definition c_library (q : request) (c : call F) : Prop :=
  c = CLibc (libc_of q) ∨ c = CDlsym (symbol_of q).

(** From the branch taken to the calls it makes. *)
Lemma emits_emitted {A} P (m : MW A) s : emits P m → emitted P s (m s).
Proof using Type. auto. Qed.

Lemma emits_writev_loop P fuel fd iov i n sum :
  (∀ b l f, P (CNfp (N_send fd b l f))) → P (CLibc (L_usleep 100)) →
  emits P (writev_loop fuel fd iov i n sum).
Proof using Type.
  intros Hs Hu. revert i sum. induction n as [|n IH]; intros i sum; simpl; [apply emits_ret|].
  apply emits_bind; [apply emits_of_option|intros v]. apply emits_bind; [|intros []; [apply IH|apply emits_ret]].
  unfold writev_step. emits; auto.
Qed.

Lemma run_routed fuel q s : routed s q = true → emitted (fast_path q) s (run fuel q s).
Proof using Type.
  intros Hr. destruct q; unfold run, routed in *; simpl rq_fd in *; wrapper; rewrite ?bind_assoc.
  1: apply andb_true_iff in Hr as [Hc Hd]; rewrite bind_gets, Hc, Hd; cbn [negb].
  19: rewrite bind_gets, Hr.
  all: rewrite ?IS_NFP_SOCKET_step, ?Hr; apply emits_emitted.
  all: unfold accept_nfp, select_step, sendfile_step, send_step, read_chunk,
         FD_ISSET, FD_CLR.
  all: emits; try apply emits_writev_loop; simpl; auto.
Qed.

Lemma run_unrouted fuel q s : routed s q = false → emitted (c_library q) s (run fuel q s).
Proof using Type.
  intros Hr. destruct q; unfold run, routed in *; simpl rq_fd in *; wrapper; rewrite ?bind_assoc.
  1: { rewrite bind_gets. destruct (netwrap_constructor_called s), (domain =? AF_INET); try done;
         apply emits_emitted; emits; unfold c_library; simpl; auto. }
  18: rewrite bind_gets, Hr.
  all: rewrite ?IS_NFP_SOCKET_step, ?Hr; apply emits_emitted.
  all: emits; unfold c_library; simpl; auto.
Qed.

(** ** Transparency *)

Lemma libc_step c s : let '(r, w) := libc_do c (errno s) (world s) in
  ∃ s', libc c s = (Ret (l_val r), s') ∧ world s' = w ∧ errno s' = l_errno r ∧
    nfp_errno s' = nfp_errno s ∧ libc_ptr s' = libc_ptr s.
Proof using Type.
  unfold libc, libc_reply, mbind, M_bind. destruct (libc_do c (errno s) (world s)) as [r w].
  eexists. split; [done|]. done.
Qed.

(** The caller of the C library cannot tell the wrapper is there. *)
Definition transparent (f : lfun) (c : libc_call) (m : MW Z) (s : nw W F) : Prop :=
  let '(r, w) := libc_do c (errno s) (world s) in
  ∃ s', m s = (Ret (l_val r), s') ∧ world s' = w ∧ errno s' = l_errno r ∧
    nfp_errno s' = nfp_errno s ∧ libc_ptr s' f = true.

Lemma call_ptr_transparent f c s : libc_ptr s f = true → transparent f c (call_ptr f c) s.
Proof using Type.
  intros Hp. unfold transparent, call_ptr. rewrite bind_gets, Hp. pose proof (libc_step c s) as Hl.
  destruct (libc_do c (errno s) (world s)) as [r w].
  destruct Hl as (s' & Hl & ? & ? & ? & Hptr). exists s'. rewrite Hptr. done.
Qed.

Lemma lookup_transparent f c s : dlsym f = DlOk → transparent f c (lookup_and_call f c) s.
Proof using Type.
  intros Hdl. unfold transparent, lookup_and_call, LIBC_FUNCTION. rewrite Hdl, bind_modify, bind_gets.
  simpl. rewrite decide_True by done.
  pose proof (call_ptr_transparent f c (set_ptr f true s)) as Ht. unfold transparent in Ht.
  simpl in Ht. rewrite decide_True in Ht by done. by apply Ht.
Qed.

Lemma via_libc_transparent f c s : dlsym f = DlOk → transparent f c (via_libc f c) s.
Proof using Type.
  intros Hdl. destruct (libc_ptr s f) eqn:Hp.
  - pose proof (call_ptr_transparent f c s Hp) as Ht. unfold transparent in *.
    unfold via_libc. rewrite bind_gets, Hp. exact Ht.
  - pose proof (lookup_transparent f c s Hdl) as Ht. unfold transparent in *.
    unfold via_libc. rewrite bind_gets, Hp. exact Ht.
Qed.

Lemma transparent_pair {A} f c (m : MW Z) s (K : Z → A) (g : A → Z) :
  (∀ z, g (K z) = z) → transparent f c m s →
  transparent f c (r ← (v ← m; mret (K v)); mret (g r)) s.
Proof using Type.
  intros Hg Ht. unfold transparent in *. destruct (libc_do c (errno s) (world s)) as [r w].
  destruct Ht as (s' & Hm & Ht). exists s'. split; [|done].
  rewrite bind_assoc, (bind_Ret _ _ _ _ _ Hm), bind_ret. by rewrite Hg.
Qed.

(** Once the constructor has run, [socket] calls through its pointer without
    a check. *)
Definition wrapper_inv (s : nw W F) : Prop :=
  netwrap_constructor_called s = true → ∀ f, libc_ptr s f = true.

Lemma run_transparent fuel q s :
  routed s q = false → dlsym (symbol_of q) = DlOk → wrapper_inv s →
  transparent (symbol_of q) (libc_of q) (run fuel q) s.
Proof using Type.
  intros Hr Hdl Hinv. destruct q; unfold run, routed in *; simpl rq_fd in *; simpl symbol_of in *;
    simpl libc_of in *; wrapper.
  1: { unfold transparent. rewrite bind_gets.
       destruct (netwrap_constructor_called s) eqn:Hc; [|by apply lookup_transparent].
       simpl in Hr. rewrite Hr. simpl. apply call_ptr_transparent. by apply Hinv. }
  all: try (unfold transparent; rewrite IS_NFP_SOCKET_step, Hr; by apply via_libc_transparent).
  all: try (unfold transparent; rewrite bind_gets, Hr; by apply lookup_transparent).
  all: unfold transparent; rewrite bind_assoc, IS_NFP_SOCKET_step, Hr.
  - by apply (transparent_pair F_accept _ _ s (λ v, (v, None)) fst), via_libc_transparent.
  - by apply (transparent_pair F_accept4 _ _ s (λ v, (v, None)) fst), via_libc_transparent.
  - by apply (transparent_pair F_select _ _ s (λ v, (v, readfds, timeout)) (λ r, r.1.1)), via_libc_transparent.
  - by apply (transparent_pair F_sendfile64 _ _ s (λ v, (v, offset)) fst), via_libc_transparent.
  - by apply (transparent_pair F_epoll_wait _ _ s (λ v, (v, [])) fst), via_libc_transparent.
Qed.

(** ** The constructor *)

Lemma setup_wrappers_ok off s : dl_ok →
  ∃ s', setup_wrappers (Some off) s = (Ret (), s') ∧
    netwrap_constructor_called s' = true ∧ sd_offset s' = off ∧
    setup_epoll_wrappers_called s' = true ∧ setup_fork_wrappers_called s' = true ∧
    (∀ f, libc_ptr s' f = true) ∧ world s' = world s ∧ errno s' = errno s.
Proof using Type.
  intros Hdl. unfold setup_wrappers, setup_socket_wrappers, setup_sockopt_wrappers,
    setup_ioctl_wrappers, setup_fork_wrappers, setup_select_wrappers, setup_uio_wrappers,
    setup_sendfile_wrappers, setup_epoll_wrappers, LIBC_FUNCTION.
  rewrite !Hdl. eexists. split; [reflexivity|]. split_and!; try done. by intros [].
Qed.

(** What can happen to the library: a request, or the run of the
    constructor. *)
Inductive op := OpRun (fuel : nat) (q : request) | OpConstruct (params : option Z).

Definition exec (s : nw W F) (o : op) : nw W F :=
  match o with
  | OpRun fuel q => (run fuel q s).2
  | OpConstruct params => (setup_wrappers params s).2
  end.

(** The library as it is loaded. *)
Definition loaded (w : W) : nw W F :=
  NW w 0 0 false 0 (λ _, false) false false false [].

Lemma run_frame fuel q s : frame s (run fuel q s).2.
Proof using Type.
  destruct (routed s q) eqn:Hr.
  - by destruct (run_routed fuel q s Hr) as (? & _ & _ & ?).
  - by destruct (run_unrouted fuel q s Hr) as (? & _ & _ & ?).
Qed.

Lemma exec_inv s o : dl_ok → wrapper_inv s → wrapper_inv (exec s o).
Proof using Type.
  intros Hdl Hinv. destruct o as [fuel q|[off|]]; simpl.
  - destruct (run_frame fuel q s) as (Hc & _ & _ & _ & Hp). intros Hc' f.
    apply Hp; [done|]. apply Hinv. congruence.
  - destruct (setup_wrappers_ok off s Hdl) as (s' & -> & _ & _ & _ & _ & Hp & _). by intros _.
  - done.
Qed.

Lemma reachable_inv w ops : dl_ok → wrapper_inv (foldl exec (loaded w) ops).
Proof using Type.
  intros Hdl. assert (Hl : wrapper_inv (loaded w)) by done. revert Hl. generalize (loaded w).
  induction ops as [|o ops IH]; intros s Hs; simpl; [done|]. apply IH. by apply exec_inv.
Qed.
End Requests.

(** ** Translation of the arguments *)

(** What the wrappers should ask of the fast path, by the numbers of the two
    systems: Linux's from its own headers, NFP's from nfp_socket.h and
    nfp_ioctl.h.  Nothing here refers to the wrappers. *)

(** Message flags as pairs of bit numbers.  Receiving: OOB, PEEK, TRUNC,
    WAITALL, DONTWAIT.  Sending: OOB, DONTROUTE, DONTWAIT, EOR, NOSIGNAL. *)
Definition recv_bits : list (Z * Z) := [(0, 0); (1, 1); (5, 4); (8, 6); (6, 7)].
Definition send_bits : list (Z * Z) := [(0, 0); (2, 2); (6, 7); (7, 3); (14, 17)].

Definition bits_by (table : list (Z * Z)) (x : Z) : Z :=
  foldr (λ p acc, Z.lor (if Z.testbit x p.1 then 2 ^ p.2 else 0) acc) 0 table.

(** Socket options.  Set and read: DEBUG, REUSEADDR, DONTROUTE, BROADCAST,
    SNDBUF, RCVBUF, KEEPALIVE, OOBINLINE, LINGER, REUSEPORT, RCVLOWAT,
    SNDLOWAT, RCVTIMEO, SNDTIMEO, TIMESTAMP.  Read only: TYPE, ERROR,
    ACCEPTCONN, PROTOCOL. *)
Definition socket_options : gmap Z Z := list_to_map
  [(1, 0x1); (2, 0x4); (5, 0x10); (6, 0x20); (7, 0x1001); (8, 0x1002); (9, 0x8); (10, 0x100);
   (13, 0x80); (15, 0x200); (18, 0x1004); (19, 0x1003); (20, 0x1006); (21, 0x1005); (29, 0x400)].
Definition read_options : gmap Z Z :=
  socket_options ∪ list_to_map [(3, 0x1008); (4, 0x1007); (30, 0x2); (38, 0x1016)].

(** A [switch] that covers a finite range of names is the table it lists. *)
Lemma switch_table cases (table : gmap Z Z) (n : Z) :
  Forall (λ n, switch cases n = table !! n) (seqZ 0 64) →
  Forall (λ p, 0 ≤ p.1 < 64) cases → Forall (λ k, 0 ≤ k < 64) (map_to_list table).*1 →
  switch cases n = table !! n.
Proof.
  intros Hin Hc Ht. destruct (decide (0 ≤ n < 64)) as [Hn|Hn].
  { apply (proj1 (Forall_forall _ _) Hin). apply elem_of_seqZ. lia. }
  transitivity (@None Z).
  - clear Hin Ht. induction Hc as [|[k v] cases Hk _ IH]; simpl in *; [done|].
    by destruct (Z.eqb_spec n k); [lia|].
  - symmetry. destruct (table !! n) as [v|] eqn:E; [|done]. exfalso. apply Hn.
    apply (proj1 (Forall_forall _ _) Ht). apply list_elem_of_fmap. exists (n, v).
    split; [done|]. by apply elem_of_map_to_list.
Qed.

Lemma setsockopt_table n : switch setsockopt_cases n = socket_options !! n.
Proof. apply switch_table; apply (bool_decide_unpack _); by vm_compute. Qed.

Lemma getsockopt_table n : switch getsockopt_cases n = read_options !! n.
Proof. apply switch_table; apply (bool_decide_unpack _); by vm_compute. Qed.

Lemma land_pow2_testbit x b : 0 ≤ b → (Z.land x (2 ^ b) =? 0) = negb (Z.testbit x b).
Proof.
  intros Hb. destruct (Z.testbit x b) eqn:E; simpl.
  - apply Z.eqb_neq. intros H0. apply (f_equal (λ z, Z.testbit z b)) in H0.
    by rewrite Z.land_spec, E, Z.pow2_bits_true, Z.bits_0 in H0 by done.
  - apply Z.eqb_eq, Z.bits_inj_0. intros k. rewrite Z.land_spec, Z.pow2_bits_eqb by done.
    destruct (Z.eqb_spec b k) as [<-|]; [by rewrite E|by rewrite andb_false_r].
Qed.

Lemma add_flag_bit x b g acc :
  0 ≤ b → add_flag x (2 ^ b) g acc = if Z.testbit x b then Z.lor acc g else acc.
Proof. intros Hb. unfold add_flag. rewrite land_pow2_testbit by done. by destruct (Z.testbit x b). Qed.

Lemma recv_flags_bits x : recv_flags x = bits_by recv_bits x.
Proof.
  unfold recv_flags. destruct (Z.eqb_spec x 0) as [->|_]; [done|].
  rewrite (add_flag_bit x 6), (add_flag_bit x 0), (add_flag_bit x 1), (add_flag_bit x 5),
    (add_flag_bit x 8) by done.
  unfold bits_by, recv_bits. cbn [foldr fst snd].
  destruct (Z.testbit x 0), (Z.testbit x 1), (Z.testbit x 5), (Z.testbit x 8), (Z.testbit x 6);
    reflexivity.
Qed.

Lemma send_flags_bits x : send_flags x = bits_by send_bits x.
Proof.
  unfold send_flags. destruct (Z.eqb_spec x 0) as [->|_]; [done|].
  rewrite (add_flag_bit x 2), !(add_flag_bit x 6), (add_flag_bit x 7), (add_flag_bit x 14),
    (add_flag_bit x 0) by done.
  unfold bits_by, send_bits. cbn [foldr fst snd].
  destruct (Z.testbit x 0), (Z.testbit x 2), (Z.testbit x 6), (Z.testbit x 7), (Z.testbit x 14);
    reflexivity.
Qed.

Section Translate.
Context {W F : Type} `{!Env W F}.
Local Abbreviation MW := (M (nw W F)).

(** The fast-path call a request stands for, or the Linux error it is refused
    with: 14 is EFAULT, 22 EINVAL, 95 EOPNOTSUPP, 97 EAFNOSUPPORT.  The
    address families are 2 and 10 on Linux, 2 and 3 on NFP, their addresses
    16 and 28 bytes long, the socket level 1 and 0xffff.  The three ioctl
    requests carry an int.  The requests that wait or convert results are
    treated apart. *)
Definition translate (q : request) : option (nfp_call F + Z) :=
  match q with
  | Rq_socket d t p => Some (inl (N_socket 2 t p))
  | Rq_shutdown fd how => Some (inl (N_shutdown fd how))
  | Rq_close fd => Some (inl (N_close fd))
  | Rq_bind fd None len => Some (inr 14)
  | Rq_bind fd (Some (_, a)) len =>
      Some (if len =? 16 then
              inl (N_bind fd (Saddr 16 2 (sa_port a) (sa_word a) (replicate 16 0) 0) 16)
            else inr 22)
  | Rq_listen fd b => Some (inl (N_listen fd b))
  | Rq_connect fd None len => Some (inr 22)
  | Rq_connect fd (Some (_, a)) len =>
      Some (if len <? 2 then inr 22
            else if sa_family a =? 2 then
              if len <? 16 then inr 22
              else inl (N_connect fd (Saddr 16 2 (sa_port a) (sa_word a) [] 0) 16)
            else if sa_family a =? 10 then
              if len <? 28 then inr 22
              else inl (N_connect fd (Saddr 28 3 (sa_port a) (sa_word a)
                                            (sa_addr6 a) (sa_scope a)) 28)
            else inr 97)
  | Rq_read fd b l => Some (inl (N_recv fd (BufPtr b) (u32 l) 0))
  | Rq_write fd b l => Some (inl (N_send fd (BufPtr b) (u32 l) 0))
  | Rq_recv fd b l f => Some (inl (N_recv fd (BufPtr b) (u32 l) (bits_by recv_bits f)))
  | Rq_send fd b l f => Some (inl (N_send fd (BufPtr b) (u32 l) (bits_by send_bits f)))
  | Rq_setsockopt fd lv n v l =>
      Some (if lv =? 1 then
              match socket_options !! n with
              | Some o => inl (N_setsockopt fd 0xffff o v l)
              | None => inr 95
              end
            else inl (N_setsockopt fd lv n v l))
  | Rq_getsockopt fd lv n v l =>
      Some (if lv =? 1 then
              match read_options !! n with
              | Some o => inl (N_getsockopt fd 0xffff o v l)
              | None => inr 95
              end
            else inl (N_getsockopt fd lv n v l))
  | Rq_ioctl fd r p =>
      Some (if r =? 0x541b then inl (N_ioctl fd 0x4004667f (ArgPtr p))
            else if r =? 0x5421 then inl (N_ioctl fd (0x8004667e - 2 ^ 32) (ArgPtr p))
            else if r =? 0x5452 then inl (N_ioctl fd (0x8004667d - 2 ^ 32) (ArgPtr p))
            else inr 22)
  | _ => None
  end.

Definition translated (s : nw W F) (t : nfp_call F + Z) (m : MW Z) : Prop :=
  match t with
  | inl c => let '(r, w) := nfp_do c (world s) in
      ∃ s', m s = (Ret (n_val r), s') ∧ world s' = w ∧
        nfp_errno s' = n_errno r ∧ errno s' = error_by_name (n_errno r) ∧
        trace s' = trace s ++ [CNfp c]
  | inr e => ∃ s', m s = (Ret (-1), s') ∧ errno s' = e ∧ world s' = world s ∧ trace s' = trace s
  end.

Lemma nfp_translated s c : translated s (inl c) (r ← nfp c; errno_from_nfp;; mret (n_val r)).
Proof using Type.
  unfold translated, nfp, errno_from_nfp, mbind, M_bind.
  destruct (nfp_do c (world s)) as [r w]. simpl. eexists. split; [done|].
  by rewrite <- NETWRAP_ERRNO_by_name.
Qed.

Lemma refused s e : translated s (inr e) (set_errno e;; mret (-1)).
Proof using Type. eexists. split; [done|]. done. Qed.

Lemma translated_ext s t (m m' : MW Z) : m s = m' s → translated s t m' → translated s t m.
Proof using Type. unfold translated. by intros ->. Qed.

Lemma translated_if s (b : bool) t1 t2 (m1 m2 : MW Z) :
  translated s t1 m1 → translated s t2 m2 →
  translated s (if b then t1 else t2) (if b then m1 else m2).
Proof using Type. by destruct b. Qed.

Lemma identity_switch3 (x a b c : Z) :
  (if x =? a then a else if x =? b then b else if x =? c then c else x) = x.
Proof using Type. repeat case_match; lia. Qed.

Lemma identity_switch2 (x a b : Z) : (if x =? a then a else if x =? b then b else x) = x.
Proof using Type. repeat case_match; lia. Qed.

Lemma run_translated fuel q s t :
  routed s q = true → translate q = Some t → translated s t (run fuel q).
Proof using Type.
  intros Hr Ht.
  destruct q; try done; cbn [translate] in Ht; unfold run, routed in *; simpl rq_fd in *.
  1: { apply andb_true_iff in Hr as [Hc Hd]. simplify_eq.
       eapply translated_ext; [|apply nfp_translated]. unfold socket. rewrite bind_gets, Hc, Hd.
       cbn [negb]. cbv zeta. unfold NFP_SOCK_STREAM, NFP_SOCK_DGRAM, NFP_IPPROTO_UDP, NFP_IPPROTO_TCP.
       by rewrite !identity_switch2. }
  all: eapply translated_ext; [wrapper; rewrite IS_NFP_SOCKET_step, Hr; reflexivity|].
  all: try (simplify_eq; apply nfp_translated).
  1: simplify_eq; unfold NFP_SHUT_RD, NFP_SHUT_WR, NFP_SHUT_RDWR; rewrite identity_switch3;
     apply nfp_translated.
  all: repeat match goal with o : option (Z * saddr) |- _ => destruct o as [[? ?]|] end; simplify_eq.
  all: rewrite <- ?recv_flags_bits, <- ?send_flags_bits.
  all: repeat first [ apply refused | apply nfp_translated | apply translated_if ].
  - change sizeof_sockaddr_in with 16. destruct (len =? 16); [apply nfp_translated|apply refused].
  - rewrite <- setsockopt_table. destruct (switch setsockopt_cases name); [apply nfp_translated|apply refused].
  - rewrite <- getsockopt_table. destruct (switch getsockopt_cases name); [apply nfp_translated|apply refused].
Qed.
End Translate.

End NetwrapProofs.
