(* ===== verification/NetwrapIoProofs.v ===== *)
(** * Behaviour of the waiting wrappers

    [writev], [sendfile64], [select] and [fork] of the wrapper library: what
    they do to the data, when they return, and what they ask of the fast
    path. *)

From S2P Require Import Prelude Errno NfpHeaders Netwrap NetwrapIo NetwrapProofs.
Import Errno Netwrap NetwrapIo NetwrapProofs.

Module NetwrapIoProofs.

Section Steps.
Context {W F : Type} `{!Env W F}.
Local Abbreviation MW := (M (nw W F)).
Implicit Types s : nw W F.

(** The state after a call to the fast path, and after one to the C library. *)
Definition after_nfp (c : nfp_call F) s : nw W F := (nfp c s).2.
Definition after_libc (c : libc_call) s : nw W F := (libc c s).2.

Lemma nfp_run c s : nfp c s = (Ret (nfp_do c (world s)).1, after_nfp c s).
Proof using Type. unfold after_nfp, nfp. by destruct (nfp_do c (world s)). Qed.

Lemma after_nfp_spec c s :
  world (after_nfp c s) = (nfp_do c (world s)).2 ∧
  nfp_errno (after_nfp c s) = n_errno (nfp_do c (world s)).1 ∧
  errno (after_nfp c s) = errno s ∧ trace (after_nfp c s) = trace s ++ [CNfp c] ∧
  libc_ptr (after_nfp c s) = libc_ptr s ∧ sd_offset (after_nfp c s) = sd_offset s.
Proof using Type. unfold after_nfp, nfp. by destruct (nfp_do c (world s)). Qed.

Lemma libc_reply_run c s :
  libc_reply c s = (Ret (libc_do c (errno s) (world s)).1, after_libc c s).
Proof using Type.
  unfold after_libc, libc, libc_reply, mbind, M_bind. by destruct (libc_do c (errno s) (world s)).
Qed.

Lemma libc_run c s : libc c s = (Ret (l_val (libc_do c (errno s) (world s)).1), after_libc c s).
Proof using Type.
  unfold after_libc, libc, libc_reply, mbind, M_bind. by destruct (libc_do c (errno s) (world s)).
Qed.

Lemma after_libc_spec c s :
  world (after_libc c s) = (libc_do c (errno s) (world s)).2 ∧
  nfp_errno (after_libc c s) = nfp_errno s ∧ trace (after_libc c s) = trace s ++ [CLibc c] ∧
  libc_ptr (after_libc c s) = libc_ptr s ∧ sd_offset (after_libc c s) = sd_offset s.
Proof using Type.
  unfold after_libc, libc, libc_reply, mbind, M_bind. by destruct (libc_do c (errno s) (world s)).
Qed.

Lemma errno_from_nfp_run s : ∃ s', errno_from_nfp s = (Ret (), s') ∧
  world s' = world s ∧ errno s' = NETWRAP_ERRNO (nfp_errno s) ∧ nfp_errno s' = nfp_errno s ∧
  trace s' = trace s ∧ libc_ptr s' = libc_ptr s ∧ sd_offset s' = sd_offset s.
Proof using Type. eexists. split; [done|]. done. Qed.
End Steps.

(** ** [writev] *)

Section Writev.
Context {W F : Type} `{!Env W F} (fd : Z).
Local Abbreviation MW := (M (nw W F)).

(** The fast path takes at least one byte of what it is offered, or says
    that it would block, and then it is closer to taking some: [pending]
    bounds the refusals.  Pausing does not add any. *)
Context (pending : W → nat).
Definition sends_progress : Prop := ∀ b len f w, 0 < len < 2 ^ 32 →
  let '(r, w') := nfp_do (N_send fd b len f) w in
  (1 ≤ n_val r ≤ len ∧ (pending w' ≤ pending w)%nat) ∨
  ((n_val r = 0 ∨ (n_val r < 0 ∧ n_errno r = NFP_EAGAIN)) ∧ (pending w' < pending w)%nat).
Definition pause_harmless : Prop := ∀ e w,
  (pending (libc_do (L_usleep 100) e w).2 ≤ pending w)%nat.

(** A send of a non-empty tail of one of the elements, or a pause. *)
Definition tail_of (iov : list (Z * Z)) (c : call F) : Prop :=
  c = CLibc (L_usleep 100) ∨
  ∃ base len k, (base, len) ∈ iov ∧ 0 ≤ k < u32 len ∧
    c = CNfp (N_send fd (BufPtr (base + k)) (u32 len - k) 0).

(** From [s] to [s'] the fast path took the bytes at the addresses [taken], in
    this order: each step is a send, of which the fast path takes the first
    bytes, as many as it answers, or one it refuses, followed by a pause. *)
Inductive accepts : nw W F → list Z → nw W F → Prop :=
| accepts_done s : accepts s [] s
| accepts_send s addr len v taken s' :
    let c := N_send fd (BufPtr addr) len 0 in
    v = n_val (nfp_do c (world s)).1 → 0 < v ≤ len →
    accepts (after_nfp c s) taken s' →
    accepts s (seqZ addr v ++ taken) s'
| accepts_refused s addr len taken s' :
    let c := N_send fd (BufPtr addr) len 0 in
    n_val (nfp_do c (world s)).1 ≤ 0 →
    accepts (after_libc (L_usleep 100) (after_nfp c s)) taken s' →
    accepts s taken s'.

Lemma accepts_app s1 l1 s2 l2 s3 : accepts s1 l1 s2 → accepts s2 l2 s3 → accepts s1 (l1 ++ l2) s3.
Proof using Type.
  intros H1 H2. induction H1 as [s|s a n v l s' c Hv Hr _ IH|s a n l s' c Hv _ IH]; [done| |].
  - rewrite <- app_assoc. eapply accepts_send; eauto.
  - eapply accepts_refused; eauto.
Qed.

Definition wrote (iov : list (Z * Z)) (taken : list Z) (s s' : nw W F) : Prop :=
  (∃ new, trace s' = trace s ++ new ∧ Forall (tail_of iov) new) ∧
  accepts s taken s' ∧
  (pending (world s') ≤ pending (world s))%nat.

Lemma wrote_refl iov s : wrote iov [] s s.
Proof using Type. split_and!; [|constructor|lia]. exists []. by rewrite app_nil_r. Qed.

Lemma wrote_trans iov l1 l2 s1 s2 s3 :
  wrote iov l1 s1 s2 → wrote iov l2 s2 s3 → wrote iov (l1 ++ l2) s1 s3.
Proof using Type.
  intros ((n1 & H1 & P1) & A1 & L1) ((n2 & H2 & P2) & A2 & L2). split_and!; [|by eapply accepts_app|lia].
  exists (n1 ++ n2). rewrite H2, H1, app_assoc. split; [done|by apply Forall_app].
Qed.

Lemma u32_range z : 0 ≤ u32 z < 2 ^ 32.
Proof using Type. apply wrap_range. lia. Qed.

(** One element is sent completely. *)
Lemma writev_element iov base len fuel s :
  sends_progress → pause_harmless → (base, len) ∈ iov →
  (Z.to_nat (u32 len) + pending (world s) < fuel)%nat →
  wp (loop fuel (writev_step fd base (u32 len)) 0) 
    (λ ok s', ok = true ∧ wrote iov (seqZ base (u32 len)) s s') s.
Proof using Type.
  intros Hs Hp Hin Hfuel. pose proof (u32_range len) as Hl.
  apply (wp_loop _ (λ k s', 0 ≤ k ≤ u32 len ∧ wrote iov (seqZ base k) s s')
           (λ k s', (Z.to_nat (u32 len - k) + pending (world s'))%nat));
    [|split; [lia|apply wrote_refl]|rewrite Z.sub_0_r; done].
  intros k s1 [Hk Hw]. unfold writev_step. destruct (Z.ltb_spec k (u32 len)) as [Hlt|Hge];
    [|apply wp_ret; by replace (u32 len) with k by lia].
  rewrite (wrap_small 32 (u32 len - k)) by (unfold in_uint; lia).
  set (c := N_send fd (BufPtr (base + k)) (u32 len - k) 0).
  apply wp_bind. eexists _, _. split; [apply nfp_run|].
  destruct (after_nfp_spec c s1) as (Hw1 & He1 & _ & Ht1 & _).
  specialize (Hs (BufPtr (base + k)) (u32 len - k) 0 (world s1) ltac:(lia)). fold c in Hs.
  destruct (nfp_do c (world s1)) as [r w'] eqn:Hdo. simpl in *.
  assert (Htail : tail_of iov (CNfp c)).
  { right. exists base, len, k. split_and!; try done; lia. }
  destruct Hs as [[Hv Hpl]|[Hv Hpl]].
  - destruct (Z.leb_spec (n_val r) 0); [lia|]. apply wp_ret.
    rewrite wrap_small by (unfold in_uint; lia). rewrite Hw1. split; [split; [lia|]|lia].
    rewrite seqZ_app by lia. eapply wrote_trans; [exact Hw|]. split_and!.
    + exists [CNfp c]. split; [done|]. by apply Forall_singleton.
    + rewrite <- (app_nil_r (seqZ _ _)). apply (accepts_send s1 _ (u32 len - k)); [|lia|constructor]. fold c. by rewrite Hdo.
    + by rewrite Hw1.
  - destruct (Z.leb_spec (n_val r) 0); [|lia]. apply wp_bind, wp_gets. rewrite He1.
    assert (Hc : (n_val r =? 0) || (n_errno r =? NFP_EAGAIN) = true).
    { destruct Hv as [-> | [_ ->]]; [done|by rewrite orb_true_r]. }
    rewrite Hc. apply wp_bind. eexists _, _. split; [apply libc_run|]. apply wp_ret.
    destruct (after_libc_spec (L_usleep 100) (after_nfp c s1)) as (Hw2 & _ & Ht2 & _).
    pose proof (Hp (errno (after_nfp c s1)) (world (after_nfp c s1))) as Hpp.
    rewrite <- Hw2, Hw1 in Hpp. split; [|lia]. split; [lia|].
    rewrite <- (app_nil_r (seqZ _ _)). eapply wrote_trans; [exact Hw|]. split_and!; [| |lia].
    + exists [CNfp c; CLibc (L_usleep 100)]. rewrite Ht2, Ht1, <- app_assoc. split; [done|].
      apply Forall_cons. split; [done|]. apply Forall_singleton. by left.
    + apply (accepts_refused s1 (base + k) (u32 len - k)); [|constructor]. fold c. rewrite Hdo. simpl. lia.
Qed.

Fixpoint total (iov : list (Z * Z)) : Z :=
  match iov with [] => 0 | v :: r => u32 v.2 + total r end.

(** The addresses of the bytes of a vector, in order. *)
Definition bytes_of (iov : list (Z * Z)) : list Z := iov ≫= λ v, seqZ v.1 (u32 v.2).

Lemma total_nonneg iov : 0 ≤ total iov.
Proof using Type. induction iov as [|v r IH]; simpl; [lia|]. pose proof (u32_range v.2). lia. Qed.

Lemma writev_loop_ok all iov i n sum fuel s :
  sends_progress → pause_harmless → drop i all = iov → n = length iov →
  (Z.to_nat (total iov) + pending (world s) < fuel)%nat →
  wp (writev_loop fuel fd all i n sum) 
    (λ r s', r = Some (sum + total iov) ∧ wrote all (bytes_of iov) s s') s.
Proof using Type.
  intros Hs Hp. revert i n sum s. induction iov as [|[base len] iov IH]; intros i n sum s Hd -> Hf; simpl.
  { apply wp_ret. split; [by rewrite Z.add_0_r|apply wrote_refl]. }
  assert (Hi : all !! i = Some (base, len)).
  { rewrite <- (Nat.add_0_r i), <- lookup_drop, Hd. done. }
  simpl in Hf. pose proof (total_nonneg iov) as Ht0. pose proof (u32_range len) as Hl.
  apply wp_bind. eexists _, s. split; [by rewrite Hi|]. simpl. apply wp_bind.
  eapply wp_mono; [|apply (writev_element all base len); try done].
  - intros ok s1 [-> Hw]. pose proof Hw as (_ & _ & Hpl). eapply wp_mono; [|apply (IH (S i)); try done].
    + intros r s2 [-> Hw2]. split; [f_equal; lia|by eapply wrote_trans].
    + replace (S i) with (i + 1)%nat by lia. by rewrite <- drop_drop, Hd.
    + lia.
  - by eapply list_elem_of_lookup_2.
  - lia.
Qed.

(** [C33] On a fast-path descriptor, and as long as the fast path does not
    refuse data for ever, [writev] returns the total length of the elements,
    and the fast path has taken every byte of them, once and in order: the
    addresses of the bytes it took, send by send, are those of the elements
    one after the other, and a refused send is followed by a pause and
    repeated.  Everything offered is a tail of an element, so no byte outside
    the vector is ever offered. *)
Theorem writev_sends_all fuel iov_p iov s :
  is_nfp s fd = true → sends_progress → pause_harmless →
  (Z.to_nat (total iov) + pending (world s) < fuel)%nat →
  ∃ s', writev fuel fd iov_p iov (Z.of_nat (length iov)) s = (Ret (total iov), s') ∧
    accepts s (iov ≫= λ v, seqZ v.1 (u32 v.2)) s' ∧
    ∃ new, trace s' = trace s ++ new ∧ Forall (tail_of iov) new.
Proof using Type.
  intros Hn Hs Hp Hf. unfold writev. rewrite IS_NFP_SOCKET_step, Hn, Nat2Z.id.
  destruct (writev_loop_ok iov iov 0 (length iov) 0 fuel s Hs Hp eq_refl eq_refl Hf)
    as (r & s' & Hrun & -> & Ht & Ha & _).
  rewrite (bind_Ret _ _ _ _ _ Hrun). eauto.
Qed.
End Writev.

(** ** [sendfile64] *)

(** A socket [out_fd] and a regular file [in_fd]: the bytes the socket has
    accepted, the bytes of the file that are still to be read, and a bound on
    the refusals of the socket.  A send takes a prefix of the data or refuses
    it for a while; a read gives the next bytes of the file, a full buffer
    except at the end; a pause does neither. *)
Class FileToSocket (W F : Type) `{!Env W F} (out_fd in_fd : Z) := {
  sent : W → bytes;
  unread : W → bytes;
  refusals : W → nat;
  send_spec d len f w : 0 < len < 2 ^ 32 → Z.of_nat (length d) = len →
    let '(r, w') := nfp_do (N_send out_fd (BufData d) len f) w in
    unread w' = unread w ∧
    ((1 ≤ n_val r ≤ len ∧ sent w' = sent w ++ take (Z.to_nat (n_val r)) d ∧
      (refusals w' ≤ refusals w)%nat) ∨
     (n_val r < 0 ∧ n_errno r = NFP_EWOULDBLOCK ∧ sent w' = sent w ∧
      (refusals w' < refusals w)%nat));
  read_spec e w :
    let '(r, w') := libc_do (L_read in_fd (BufData []) BUF_SIZE) e w in
    l_data r = take 1024 (unread w) ∧ l_val r = Z.of_nat (length (take 1024 (unread w))) ∧
    unread w' = drop 1024 (unread w) ∧ sent w' = sent w ∧ (refusals w' ≤ refusals w)%nat;
  pause_spec e w :
    let w' := (libc_do (L_usleep 100) e w).2 in
    unread w' = unread w ∧ sent w' = sent w ∧ (refusals w' ≤ refusals w)%nat;
}.

Section Sendfile.
Context {W F : Type} `{!Env W F} (out_fd in_fd : Z) `{!FileToSocket W F out_fd in_fd}.
Local Abbreviation MW := (M (nw W F)).

(** A chunk goes out whole. *)
Lemma send_chunk buff fuel s :
  (0 < length buff ≤ 1024)%nat → (length buff + refusals (world s) < fuel)%nat →
  wp (loop fuel (send_step out_fd buff (Z.of_nat (length buff))) 0)
     (λ ok s', ok = true ∧ sent (world s') = sent (world s) ++ buff ∧
        unread (world s') = unread (world s) ∧ (refusals (world s') ≤ refusals (world s))%nat ∧
        libc_ptr s' = libc_ptr s) s.
Proof using Type.
  intros Hb Hf. set (n := Z.of_nat (length buff)).
  apply (wp_loop _ (λ k s', 0 ≤ k ≤ n ∧ sent (world s') = sent (world s) ++ take (Z.to_nat k) buff ∧
            unread (world s') = unread (world s) ∧ (refusals (world s') ≤ refusals (world s))%nat ∧
            libc_ptr s' = libc_ptr s)
           (λ k s', (Z.to_nat (n - k) + refusals (world s'))%nat)).
  - intros k s1 (Hk & Hsent & Hun & Hr & Hp). unfold send_step. destruct (Z.ltb_spec k n) as [Hlt|Hge].
    2: { apply wp_ret. split_and!; try done. rewrite Hsent. f_equal. apply take_ge. lia. }
    set (d := take (Z.to_nat (n - k)) (drop (Z.to_nat k) buff)).
    assert (Hd : d = drop (Z.to_nat k) buff).
    { apply take_ge. rewrite length_drop. lia. }
    rewrite (wrap_small 32 (n - k)) by (unfold in_uint; lia).
    apply wp_bind. eexists _, _. split; [apply nfp_run|].
    set (c := N_send out_fd (BufData d) (n - k) 0).
    destruct (after_nfp_spec c s1) as (Hw1 & He1 & _ & _ & Hp1 & _).
    pose proof (send_spec d (n - k) 0 (world s1) ltac:(lia)) as Hs. fold c in Hs.
    destruct (nfp_do c (world s1)) as [r w'] eqn:Hdo. simpl in *.
    destruct Hs as (Hun' & Hs); [rewrite Hd, length_drop; lia|].
    destruct Hs as [(Hv & Hsent' & Hr')|(Hv & He & Hsent' & Hr')].
    + destruct (Z.ltb_spec (n_val r) 0); [lia|]. apply wp_ret. rewrite Hw1. split; [|lia].
      split_and!; try lia; try congruence.
      rewrite Hsent', Hsent, Hd, <- app_assoc, take_take_drop. do 2 f_equal. lia.
    + destruct (Z.ltb_spec (n_val r) 0); [|lia]. apply wp_bind, wp_gets. rewrite He1, He.
      change (NFP_EWOULDBLOCK =? NFP_EWOULDBLOCK) with true. apply wp_bind.
      eexists _, _. split; [apply libc_run|]. apply wp_ret.
      destruct (after_libc_spec (L_usleep 100) (after_nfp c s1)) as (Hw2 & _ & _ & Hp2 & _).
      pose proof (pause_spec (errno (after_nfp c s1)) (world (after_nfp c s1))) as Hps.
      simpl in Hps. rewrite <- Hw2, Hw1 in Hps. destruct Hps as (Hu & Hse & Hre).
      split; [|lia]. split_and!; try lia; congruence.
  - split_and!; try done; try lia. by rewrite app_nil_r.
  - rewrite Z.sub_0_r. unfold n. lia.
Qed.

(** The number of bytes that will be sent: whole buffers until [count] is
    reached or the file ends. *)
Definition transfer (count avail : Z) : Z := Z.min avail (1024 * ((count + 1023) / 1024)).

(** The outer loop has sent the first [p] bytes of the file. *)
Definition moved (s s' : nw W F) (count p : Z) : Prop :=
  let u := unread (world s) in
  (∃ j, 0 ≤ j ∧ p = Z.min (Z.of_nat (length u)) (1024 * j) ∧ (j = 0 ∨ 1024 * (j - 1) < count)) ∧
  sent (world s') = sent (world s) ++ take (Z.to_nat p) u ∧
  unread (world s') = drop (Z.to_nat p) u ∧
  (refusals (world s') ≤ refusals (world s))%nat ∧ libc_ptr s' F_sendfile_read = true.

Lemma moved_end s s' count p : 0 ≤ count → moved s s' count p →
  (count ≤ p ∨ p = Z.of_nat (length (unread (world s)))) →
  p = transfer count (Z.of_nat (length (unread (world s)))).
Proof using Type.
  intros Hc [(j & Hj & -> & Hjc) _] Hend. unfold transfer.
  set (L := Z.of_nat (length (unread (world s)))) in *. assert (0 ≤ L) by lia.
  pose proof (Z.div_mod (count + 1023) 1024 ltac:(lia)).
  pose proof (Z.mod_pos_bound (count + 1023) 1024 ltac:(lia)). lia.
Qed.

Lemma sendfile_step_ok count fuel s s1 p :
  0 ≤ count → moved s s1 count p → (1024 + refusals (world s) < fuel)%nat →
  wp (sendfile_step fuel out_fd in_fd count p)
     (λ r s2, match r with
              | inl p' => moved s s2 count p' ∧ p < p' ∧ p < count
              | inr o => ∃ p', o = Some p' ∧ moved s s2 count p' ∧
                  p' = transfer count (Z.of_nat (length (unread (world s))))
              end) s1.
Proof using Type.
  intros Hc Hm Hf. unfold sendfile_step. destruct (Z.ltb_spec p count) as [Hlt|Hge].
  2: { apply wp_ret. exists p. split_and!; try done. eapply moved_end; eauto. }
  destruct Hm as ((j & Hj & Hp & Hjc) & Hsent & Hun & Hr & Hptr).
  unfold read_chunk. apply wp_bind, wp_bind, wp_gets. rewrite Hptr.
  eexists _, _. split; [apply libc_reply_run|].
  destruct (after_libc_spec (L_read in_fd (BufData []) BUF_SIZE) s1) as (Hw & _ & _ & Hp1 & _).
  pose proof (read_spec (out_fd:=out_fd) (in_fd:=in_fd) (errno s1) (world s1)) as Hread.
  set (s2 := after_libc _ s1) in *.
  destruct (libc_do (L_read in_fd (BufData []) BUF_SIZE) (errno s1) (world s1)) as [d w'].
  simpl in Hw. destruct Hread as (Hdata & Hval & Hun' & Hsent' & Hr'). cbn [fst].
  rewrite Hun in Hdata, Hval, Hun'. set (u := unread (world s)) in *.
  set (ch := take 1024 (drop (Z.to_nat p) u)) in *.
  assert (Hlen : length ch = (1024 `min` (length u - Z.to_nat p))%nat).
  { unfold ch. by rewrite length_take, length_drop. }
  rewrite Hval, Hdata. destruct (Z.ltb_spec (Z.of_nat (length ch)) 0); [lia|].
  assert (HpL : p ≤ Z.of_nat (length u)) by lia.
  destruct (Z.eqb_spec (Z.of_nat (length ch)) 0) as [Hz|Hnz].
  { apply wp_ret. exists p. assert (Hp' : p = Z.of_nat (length u)) by lia.
    assert (Hm2 : moved s s2 count p).
    { unfold moved. fold u. split; [by exists j|]. rewrite Hw. split_and!; try congruence; try lia.
      rewrite Hun', drop_drop, !drop_ge by lia. done. }
    split_and!; try done. eapply moved_end; eauto. }
  apply wp_bind. eapply wp_mono; [|apply (send_chunk ch); rewrite ?Hw; lia].
  intros ok s3 (-> & Hsent3 & Hun3 & Hr3 & Hp3). apply wp_ret. split; [|lia].
  rewrite Hw in Hsent3, Hun3, Hr3.
  unfold moved. fold u. split; [exists (j + 1); split_and!; lia|]. split_and!; try congruence; try lia.
  - assert (Hch : take (Z.to_nat p) u ++ ch = take (Z.to_nat p + 1024) u) by apply take_take_drop.
    rewrite Hsent3, Hsent', Hsent, <- app_assoc, Hch. f_equal.
    replace (Z.to_nat (p + Z.of_nat (length ch))) with (Z.to_nat p + length ch)%nat by lia.
    destruct (decide (length u - Z.to_nat p < 1024)%nat); [rewrite !take_ge by lia; done|].
    do 2 f_equal. lia.
  - rewrite Hun3, Hun', drop_drop.
    destruct (decide (length u - Z.to_nat p < 1024)%nat); [rewrite !drop_ge by lia; done|].
    f_equal. lia.
Qed.

(** [C34] On a fast-path socket, without an offset, [sendfile64] transfers
    exactly the next [transfer count avail] bytes of the file in order, and
    returns their number, as long as the socket does not refuse data for
    ever.  It moves whole buffers of 1024 bytes, so when the file goes on
    and [count] is not a multiple of 1024 it sends, and reports, more than
    [count] bytes. *)
Theorem sendfile_transfers fuel offset_p count s :
  is_nfp s out_fd = true → libc_ptr s F_sendfile_read = true → 0 ≤ count →
  (Z.to_nat count + 1024 + refusals (world s) < fuel)%nat →
  let avail := Z.of_nat (length (unread (world s))) in
  let n := transfer count avail in
  (∃ s', sendfile64 fuel out_fd in_fd offset_p None count s = (Ret (n, None), s') ∧
     sent (world s') = sent (world s) ++ take (Z.to_nat n) (unread (world s))) ∧
  (count mod 1024 ≠ 0 → count < avail → count < n).
Proof using Type.
  intros Hn Hp Hc Hf avail n. split.
  - unfold sendfile64. rewrite IS_NFP_SOCKET_step, Hn, bind_ret.
    assert (Hl : wp (loop fuel (sendfile_step fuel out_fd in_fd count) 0)
      (λ o s', o = Some n ∧ sent (world s') = sent (world s) ++ take (Z.to_nat n) (unread (world s))) s).
    { apply (wp_loop _ (λ p s', 0 ≤ p ∧ moved s s' count p) (λ p _, Z.to_nat (count - p))).
      - intros p s1 [Hp0 Hm]. eapply wp_mono; [|apply (sendfile_step_ok count fuel s s1 p); try done; lia].
        intros [p'|o] s2.
        + intros (Hm' & Hlt & Hlc). split; [split; [lia|done]|lia].
        + intros (p' & -> & (_ & Hs & _) & Hp'). subst p'. done.
      - split; [lia|]. split; [exists 0; split_and!; lia|]. rewrite app_nil_r. done.
      - rewrite Z.sub_0_r. lia. }
    destruct Hl as (o & s' & Hrun & -> & Hsent). rewrite (bind_Ret _ _ _ _ _ Hrun). eauto.
  - intros Hmod Hlt. subst n. unfold transfer.
    pose proof (Z.div_mod (count + 1023) 1024 ltac:(lia)).
    pose proof (Z.mod_pos_bound (count + 1023) 1024 ltac:(lia)).
    enough (count ≠ 1024 * ((count + 1023) / 1024)) by lia. intros Heq. apply Hmod.
    rewrite Heq, Z.mul_comm. apply Z.mod_mul. lia.
Qed.
End Sendfile.

(** ** [select] *)

(** The descriptor sets of nfp_select.h behave as sets. *)
Class FdSetLaws (W F : Type) `{!Env W F} := {
  fd_isset_zero j : NFP_FD_ISSET j NFP_FD_ZERO = false;
  fd_isset_set i j f : NFP_FD_ISSET j (NFP_FD_SET i f) = (j =? i) || NFP_FD_ISSET j f;
}.

Section Select.
Context {W F : Type} `{!Env W F} `{!FdSetLaws W F}.
Local Abbreviation MW := (M (nw W F)).
Implicit Types s : nw W F.

Definition fill_body (set : gset Z) (i : Z) (acc : F) : MW F :=
  x ← FD_ISSET i set; mret (if (x : bool) then NFP_FD_SET i acc else acc).

Definition clear_body (ready : F) (i : Z) (acc : gset Z) : MW (gset Z) :=
  x ← FD_ISSET i acc;
  if (x : bool) && negb (NFP_FD_ISSET i ready) then FD_CLR i acc else mret acc.

Lemma fd_ok_range i : 0 ≤ i < 1024 → fd_ok i = true.
Proof using Type. intros. unfold fd_ok, FD_SETSIZE. apply andb_true_iff. lia. Qed.

Lemma fill_ok set n i acc s : 0 ≤ i → i + Z.of_nat n ≤ 1024 →
  ∃ acc', fd_loop i n (fill_body set) acc s = (Ret acc', s) ∧
    ∀ j, NFP_FD_ISSET j acc' =
         bool_decide (i ≤ j < i + Z.of_nat n ∧ j ∈ set) || NFP_FD_ISSET j acc.
Proof using Type*.
  revert i acc. induction n as [|n IH]; intros i acc Hi Hn; simpl.
  { exists acc. split; [done|]. intros j. rewrite bool_decide_false by lia. done. }
  assert (Hstep : fill_body set i acc s =
            (Ret (if bool_decide (i ∈ set) then NFP_FD_SET i acc else acc), s)).
  { unfold fill_body, FD_ISSET. by rewrite fd_ok_range by lia. }
  rewrite (bind_Ret _ _ _ _ _ Hstep).
  destruct (IH (i + 1) (if bool_decide (i ∈ set) then NFP_FD_SET i acc else acc)) as (acc' & -> & Hacc); [lia|lia|].
  exists acc'. split; [done|]. intros j. rewrite Hacc.
  destruct (decide (j = i)) as [->|Hne].
  - rewrite (bool_decide_false (i + 1 ≤ i < _ ∧ _)) by lia. simpl. case_bool_decide as Hin.
    + rewrite fd_isset_set, Z.eqb_refl, bool_decide_true by (split; [lia|done]). done.
    + rewrite bool_decide_false by tauto. done.
  - assert (Hd : bool_decide (i + 1 ≤ j < i + 1 + Z.of_nat n ∧ j ∈ set) =
                 bool_decide (i ≤ j < i + Z.of_nat (S n) ∧ j ∈ set)).
    { apply bool_decide_ext. split; intros [? ?]; (split; [lia|done]). }
    rewrite Hd. f_equal. destruct (bool_decide (i ∈ set)); [|done]. rewrite fd_isset_set.
    by destruct (Z.eqb_spec j i).
Qed.

Lemma clear_ok ready n i acc s : 0 ≤ i → i + Z.of_nat n ≤ 1024 →
  ∃ acc', fd_loop i n (clear_body ready) acc s = (Ret acc', s) ∧
    ∀ j, j ∈ acc' ↔ j ∈ acc ∧ (i ≤ j < i + Z.of_nat n → NFP_FD_ISSET j ready = true).
Proof using Type.
  revert i acc. induction n as [|n IH]; intros i acc Hi Hn; simpl.
  { exists acc. split; [done|]. intros j. split; [|tauto]. intros. split; [done|lia]. }
  set (acc1 := if bool_decide (i ∈ acc) && negb (NFP_FD_ISSET i ready) then acc ∖ {[i]} else acc).
  assert (Hstep : clear_body ready i acc s = (Ret acc1, s)).
  { unfold clear_body, FD_ISSET, FD_CLR, acc1. rewrite fd_ok_range, bind_ret by lia. by case_match. }
  rewrite (bind_Ret _ _ _ _ _ Hstep).
  destruct (IH (i + 1) acc1) as (acc' & Hrun & Hacc); [lia|lia|].
  exists acc'. split; [done|]. intros j. rewrite Hacc. unfold acc1. clear Hstep Hrun Hacc IH acc1 acc'.
  destruct (NFP_FD_ISSET i ready) eqn:Hr; case_bool_decide as Hin; simpl.
  1,2,4: split; intros [Hj Hx]; (split; [done|]); intros Hrng;
    (destruct (decide (j = i)) as [->|]; [done || (exfalso; tauto)|apply Hx; lia]).
  rewrite elem_of_difference, elem_of_singleton. split.
  - intros [[Hj Hne] Hx]. split; [done|]. intros. apply Hx. lia.
  - intros [Hj Hx]. split; [split; [done|]|intros; apply Hx; lia].
    intros ->. rewrite Hx in Hr; [done|lia].
Qed.

(** A poll with the requested descriptors, or a pause. *)
Definition poll_of (nfds : Z) (bku : F) (c : call F) : Prop :=
  (∃ sec usec, c = CNfp (N_select nfds bku sec usec)) ∨ c = CLibc (L_usleep 100).

(** The polling loop between two states, [temp] microseconds counted and
    [tv] offered to the fast path as its timeout: it ends with the first
    answer that is not 0; a poll answered with 0 is followed by a pause, and
    by another poll with the timeout the fast path left, until the counted
    time exceeds the period. *)
Inductive polls (nfds : Z) (bku : F) (period : Z)
    : Z → Z * Z → nw W F → nreply F → nw W F → Prop :=
| polls_answer temp tv s :
    let c := N_select nfds bku tv.1 tv.2 in
    let r := (nfp_do c (world s)).1 in
    n_val r ≠ 0 → polls nfds bku period temp tv s r (after_nfp c s)
| polls_timeout temp tv s :
    let c := N_select nfds bku tv.1 tv.2 in
    let r := (nfp_do c (world s)).1 in
    n_val r = 0 → period < temp + 100 →
    polls nfds bku period temp tv s r (after_libc (L_usleep 100) (after_nfp c s))
| polls_again temp tv s r' s' :
    let c := N_select nfds bku tv.1 tv.2 in
    let r := (nfp_do c (world s)).1 in
    n_val r = 0 → temp + 100 ≤ period →
    polls nfds bku period (temp + 100) (n_timeout r)
      (after_libc (L_usleep 100) (after_nfp c s)) r' s' →
    polls nfds bku period temp tv s r' s'.

(** The polling loop ends: on the first answer that is not 0, or when the
    counted time exceeds the period. *)
Lemma poll_ok nfds bku period fuel s : 0 ≤ period → period + 100 < 2 ^ 32 →
  (Z.to_nat (period / 100 + 1) < fuel)%nat →
  wp (loop fuel (select_step nfds bku true period) (0, (0, 0)))
     (λ vr s', (∃ new, trace s' = trace s ++ new ∧ Forall (poll_of nfds bku) new) ∧
        vr.1 = n_val vr.2 ∧ polls nfds bku period 0 (0, 0) s vr.2 s') s.
Proof using Type.
  intros Hp0 Hp Hf.
  apply (wp_loop _ (λ st s', 0 ≤ st.1 ≤ period ∧
            (∃ new, trace s' = trace s ++ new ∧ Forall (poll_of nfds bku) new) ∧
            ∀ r s'', polls nfds bku period st.1 st.2 s' r s'' →
              polls nfds bku period 0 (0, 0) s r s'')
           (λ st _, Z.to_nat ((period - st.1) / 100 + 1))).
  - intros [temp tv] s1 (Ht & (new & Htr & Hnew) & Hpolls). unfold select_step. cbn [fst snd] in *.
    set (c := N_select nfds bku tv.1 tv.2). apply wp_bind. eexists _, _. split; [apply nfp_run|].
    destruct (after_nfp_spec c s1) as (_ & _ & _ & Ht1 & _).
    assert (Hc : poll_of nfds bku (CNfp c)) by (left; by exists tv.1, tv.2).
    destruct (Z.eqb_spec (n_val (nfp_do c (world s1)).1) 0) as [Hz|Hnz]; cbn [negb].
    + apply wp_bind. eexists _, _. split; [apply libc_run|].
      destruct (after_libc_spec (L_usleep 100) (after_nfp c s1)) as (_ & _ & Ht2 & _).
      assert (Hnew2 : ∃ new, trace (after_libc (L_usleep 100) (after_nfp c s1)) = trace s ++ new ∧
                 Forall (poll_of nfds bku) new).
      { exists (new ++ [CNfp c; CLibc (L_usleep 100)]). rewrite Ht2, Ht1, Htr, <- !app_assoc.
        split; [done|]. apply Forall_app. split; [done|]. apply Forall_cons. split; [done|].
        apply Forall_singleton. by right. }
      rewrite wrap_small by (unfold in_uint; lia).
      destruct (Z.ltb_spec period (temp + 100)); apply wp_ret.
      * split_and!; [done|done|]. apply Hpolls. by apply polls_timeout.
      * cbn [fst snd]. split_and!; try done; try lia.
        { intros r s'' Hr. apply Hpolls. by eapply polls_again. }
        replace (period - temp) with ((period - (temp + 100)) + 1 * 100) by lia.
        rewrite Z.div_add by lia. pose proof (Z.div_pos (period - (temp + 100)) 100). lia.
    + apply wp_ret. split_and!; [|done|apply Hpolls; by apply polls_answer].
      exists (new ++ [CNfp c]). rewrite Ht1, Htr, app_assoc. split; [done|].
      apply Forall_app. split; [done|]. by apply Forall_singleton.
  - split_and!; simpl; try lia; [|done]. exists []. by rewrite app_nil_r.
  - simpl. by rewrite Z.sub_0_r.
Qed.

Lemma polls_frame nfds bku period temp tv s r s' :
  polls nfds bku period temp tv s r s' → sd_offset s' = sd_offset s ∧ nfp_errno s' = n_errno r.
Proof using Type.
  induction 1 as [temp tv s c r Hr|temp tv s c r Hz Hp|temp tv s r' s' c r Hz Hp _ IH];
    destruct (after_nfp_spec c s) as (_ & He & _ & _ & _ & Ho);
    destruct (after_libc_spec (L_usleep 100) (after_nfp c s)) as (_ & He2 & _ & _ & Ho2).
  - done.
  - split; [congruence|by rewrite He2].
  - destruct IH. split; congruence.
Qed.

(** [C35] With fast-path descriptors inside the range of a Linux [fd_set] and a
    timeout below 2^32 - 100 microseconds, [select] returns what the last
    poll of the fast path answers: it polls with exactly the requested
    fast-path descriptors, stops on the first answer that is not 0, pauses
    100 microseconds after an answer of 0, and returns 0 only when every poll
    was answered with 0 until the counted time exceeded the period.  It leaves
    in the set the requested descriptors the last poll reports as ready (and
    those below the offset), nothing at all on a timeout, and the set as it
    was on an error; [errno] is the Linux error of the last poll. *)
Theorem select_reports_ready fuel nfds rp wp' ep tp set sec usec s :
  let off := s32 (sd_offset s) in
  let period := sec * 1000000 + usec in
  is_nfp s (nfds - 1) = true → 0 ≤ off → nfds ≤ 1024 →
  0 ≤ sec → 0 ≤ usec → period + 100 < 2 ^ 32 → (Z.to_nat (period / 100 + 1) < fuel)%nat →
  ∃ bku r s1 set' s',
    select fuel nfds rp wp' ep tp (Some set) (Some (sec, usec)) s =
      (Ret (n_val r, Some set', Some (if n_errno r =? 0 then n_timeout r else (sec, usec))), s') ∧
    (∀ j, off ≤ j < nfds → NFP_FD_ISSET j bku = bool_decide (j ∈ set)) ∧
    polls nfds bku period 0 (0, 0) s r s1 ∧
    world s' = world s1 ∧ trace s' = trace s1 ∧ errno s' = error_by_name (n_errno r) ∧
    (∃ new, trace s' = trace s ++ new ∧ Forall (poll_of nfds bku) new) ∧
    (0 < n_val r → ∀ j, j ∈ set' ↔ j ∈ set ∧ (off ≤ j < nfds → NFP_FD_ISSET j (n_set r) = true)) ∧
    (n_val r = 0 → set' = ∅) ∧
    (n_val r < 0 → set' = set).
Proof using Type*.
  intros off period Hn Hoff Hnfds Hsec Husec Hper Hf.
  assert (Hon : off < nfds).
  { unfold is_nfp in Hn. apply andb_true_iff in Hn as [_ Hle%Z.leb_le]. fold off in Hle. lia. }
  assert (Hlen : off + Z.of_nat (Z.to_nat (nfds - off)) = nfds) by lia.
  unfold select. rewrite IS_NFP_SOCKET_step, Hn, bind_gets. fold off.
  destruct (fill_ok set (Z.to_nat (nfds - off)) off NFP_FD_ZERO s) as (bku & Hfill & Hbku); [done|lia|].
  rewrite (bind_Ret _ _ _ _ _ Hfill). cbv zeta.
  assert (Hu : u32 (u64 (sec * 1000000) + usec) = period).
  { rewrite (wrap_small 64) by (unfold in_uint; lia). apply wrap_small. unfold in_uint; lia. }
  rewrite Hu. rewrite bool_decide_true by eauto.
  destruct (poll_ok nfds bku period fuel s) as ([v r] & s1 & Hrun & Htr & Hv & Hpolls); [lia|lia|done|].
  simpl in Hv, Hpolls. subst v. destruct (polls_frame _ _ _ _ _ _ _ _ Hpolls) as [_ Hne].
  rewrite (bind_Ret _ _ _ _ _ Hrun).
  destruct (errno_from_nfp_run s1) as (s2 & He & Hw2 & Her & Hne2 & Ht2 & _).
  rewrite (bind_Ret _ _ _ _ _ He). rewrite <- Ht2 in Htr.
  rewrite NETWRAP_ERRNO_by_name, Hne in Her.
  assert (Hb : ∀ j, off ≤ j < nfds → NFP_FD_ISSET j bku = bool_decide (j ∈ set)).
  { intros j Hj. rewrite Hbku, Hlen, fd_isset_zero, orb_false_r.
    apply bool_decide_ext. split; [tauto|]. intros. split; [lia|done]. }
  simpl fst. simpl snd. destruct (Z.ltb_spec 0 (n_val r)) as [Hpos|Hneg].
  - destruct (clear_ok (n_set r) (Z.to_nat (nfds - off)) off set s2) as (set' & Hclr & Hset); [done|lia|].
    rewrite (bind_Ret _ _ _ _ _ Hclr), bind_gets, Hne2, Hne. rewrite Hlen in Hset.
    exists bku, r, s1, set', s2. split_and!; try done; lia.
  - rewrite bind_ret, bind_gets, Hne2, Hne. exists bku, r, s1, (if n_val r =? 0 then ∅ else set), s2.
    split_and!; try done; try lia.
    + by intros ->.
    + intros Hlt. destruct (Z.eqb_spec (n_val r) 0); [lia|done].
Qed.

(** When the offset is 1024 or more, as in the configuration files of the
    wrapper, every [select] on a fast-path descriptor with a read set looks
    past the end of the caller's [fd_set]. *)
Theorem select_offset_out_of_range fuel nfds rp wp' ep tp set tv s :
  is_nfp s (nfds - 1) = true → 1024 ≤ s32 (sd_offset s) →
  (select fuel nfds rp wp' ep tp (Some set) tv s).1 = Stuck.
Proof using Type.
  intros Hn Hoff. unfold select. rewrite IS_NFP_SOCKET_step, Hn, bind_gets.
  unfold is_nfp in Hn. apply andb_true_iff in Hn as [_ Hle%Z.leb_le].
  destruct (Z.to_nat (nfds - s32 (sd_offset s))) as [|n] eqn:Hk; [lia|]. simpl.
  unfold FD_ISSET, fd_ok, FD_SETSIZE.
  destruct (Z.ltb_spec (s32 (sd_offset s)) 1024); [lia|]. by rewrite andb_false_r.
Qed.
End Select.

(** ** [fork], [epoll] and [accept] *)

Section Others.
Context {W F : Type} `{!Env W F}.
Local Abbreviation MW := (M (nw W F)).
Implicit Types s : nw W F.

(** After the setup, the wrapper of [fork] makes exactly one [fork] of the
    C library although it calls itself, gives the caller its result (any
    failure as -1), initialises the fast path in the child and there only,
    and clears its recursion flag. *)
Theorem fork_once depth s :
  setup_fork_wrappers_called s = true → recursive s = false → libc_ptr s F_fork = true →
  (2 ≤ depth)%nat →
  let pid := l_val (libc_do L_fork (errno s) (world s)).1 in
  ∃ s', fork depth s = (Ret (if pid <? 0 then -1 else pid), s') ∧ recursive s' = false ∧
    trace s' = trace s ++ [CLibc L_fork] ++ (if pid =? 0 then [CNfp N_init_local_resources] else []).
Proof using Type.
  intros Hc Hr Hp Hd. destruct depth as [|[|depth]]; [lia|lia|].
  simpl. rewrite bind_gets, Hc, bind_gets, Hr, bind_modify.
  assert (Hin : (fork (S depth)) (set_recursive true s) =
    (libc L_fork) (set_recursive true s)).
  { simpl. rewrite bind_gets. simpl. rewrite Hc, bind_gets. simpl. rewrite bind_gets. simpl.
    rewrite Hp. simpl. unfold call_ptr. rewrite bind_gets. simpl. by rewrite Hp. }
  rewrite (bind_Ret _ _ _ _ _ (eq_trans Hin (libc_run L_fork (set_recursive true s)))).
  rewrite bind_modify. change (errno (set_recursive true s)) with (errno s).
  change (world (set_recursive true s)) with (world s).
  set (pid := l_val (libc_do L_fork (errno s) (world s)).1).
  destruct (after_libc_spec L_fork (set_recursive true s)) as (_ & _ & Ht & _).
  set (s1 := after_libc L_fork (set_recursive true s)) in *. simpl in Ht.
  destruct (Z.ltb_spec pid 0).
  { destruct (Z.eqb_spec pid 0); [lia|]. eexists. split; [done|]. split; [done|exact Ht]. }
  destruct (Z.eqb_spec pid 0) as [->|].
  - rewrite (bind_Ret _ _ _ _ _ (nfp_run _ _)).
    destruct (after_nfp_spec N_init_local_resources (set_recursive false s1)) as (_ & _ & _ & Ht1 & _).
    eexists. split; [done|]. split.
    + unfold after_nfp, nfp. by destruct (nfp_do N_init_local_resources _).
    + rewrite Ht1. simpl. rewrite Ht. by rewrite <- app_assoc.
  - eexists. split; [done|]. split; [done|exact Ht].
Qed.

(** The event bits of the two systems. *)
Definition EPOLLIN : Z := 0x001.
Definition EPOLLPRI : Z := 0x002.
Definition EPOLLOUT : Z := 0x004.
Definition NFP_EPOLLIN : Z := 0x001.
Definition NFP_EPOLLOUT : Z := 0x002.
Definition NFP_EPOLLPRI : Z := 0x004.

(** [epoll_ctl] on a fast-path descriptor.  It reads the event structure
    for every operation, so the removal of a descriptor with the NULL event
    that Linux allows does not return.  The event mask is passed unchanged
    although the bits differ: a program that asks for [EPOLLOUT] makes the
    fast path wait for [NFP_EPOLLPRI], and one that asks for [EPOLLPRI] for
    [NFP_EPOLLOUT]; [EPOLLIN] is the same on both sides. *)
Theorem epoll_ctl_event epfd op fd p data s :
  is_nfp s epfd = true →
  (epoll_ctl epfd op fd None s).1 = Stuck ∧
  let registered events := (epoll_ctl epfd op fd (Some (p, (events, data))) s).2 in
  trace (registered EPOLLOUT) = trace s ++ [CNfp (N_epoll_ctl epfd op fd NFP_EPOLLPRI data)] ∧
  trace (registered EPOLLPRI) = trace s ++ [CNfp (N_epoll_ctl epfd op fd NFP_EPOLLOUT data)] ∧
  trace (registered EPOLLIN) = trace s ++ [CNfp (N_epoll_ctl epfd op fd NFP_EPOLLIN data)].
Proof using Type.
  intros Hn. split; [unfold epoll_ctl; by rewrite IS_NFP_SOCKET_step, Hn|].
  intros registered. subst registered.
  assert (Hall : ∀ ev, trace (epoll_ctl epfd op fd (Some (p, (ev, data))) s).2 =
                       trace s ++ [CNfp (N_epoll_ctl epfd op fd ev data)]).
  { intros ev. unfold epoll_ctl. rewrite IS_NFP_SOCKET_step, Hn. simpl. rewrite bind_ret. simpl.
    rewrite (bind_Ret _ _ _ _ _ (nfp_run _ _)).
    destruct (after_nfp_spec (N_epoll_ctl epfd op fd ev data) s) as (_ & _ & _ & Ht & _).
    destruct (n_val _ =? 0); simpl; rewrite Ht; done. }
  split_and!; apply Hall.
Qed.

Lemma accept_peer sockfd addr_p len_p addrlen s :
  is_nfp s sockfd = true →
  let r := (nfp_do (N_accept sockfd (if addr_p =? 0 then None else Some sizeof_storage)) (world s)).1 in
  (addr_p = 0 → (accept sockfd addr_p len_p addrlen s).1 = Ret (n_val r, None)) ∧
  (addr_p ≠ 0 → addrlen = None →
     ∃ s', accept sockfd addr_p len_p addrlen s = (Ret (-1, None), s') ∧
       errno s' = EINVAL ∧ trace s' = trace s) ∧
  (∀ len, addr_p ≠ 0 → addrlen = Some len → n_val r ≠ -1 →
     (sa_family (n_addr r) = NFP_AF_INET →
        (accept sockfd addr_p len_p addrlen s).1 =
          Ret (n_val r, Some (OutIn (sa_port (n_addr r)) (sa_word (n_addr r)), Z.min 16 len))) ∧
     (sa_family (n_addr r) = NFP_AF_INET6 →
        (accept sockfd addr_p len_p addrlen s).1 =
          Ret (n_val r, Some (OutIn6 (sa_port (n_addr r)) (sa_word (n_addr r))
                                     (sa_addr6 (n_addr r)) (sa_scope (n_addr r)), Z.min 28 len)))).
Proof using Type.
  intros Hn r. unfold accept. rewrite IS_NFP_SOCKET_step, Hn. unfold accept_nfp.
  destruct (Z.eqb_spec addr_p 0) as [->|Hne]; cbn [negb andb].
  - split_and!; [intros _|done|done]. rewrite bind_assoc, (bind_Ret _ _ _ _ _ (nfp_run _ _)).
    rewrite andb_false_r. done.
  - split_and!; [done| |].
    + intros _ ->. simpl. eexists. split; [done|]. done.
    + intros len _ -> Hv. cbn [bool_decide]. rewrite bool_decide_true by eauto. cbn [negb].
      assert (Hmin : ∀ a, (if a <? len then a else len) = Z.min a len)
        by (intros a; destruct (Z.ltb_spec a len); lia).
      split; intros Hfam; rewrite bind_assoc, (bind_Ret _ _ _ _ _ (nfp_run _ _)); fold r;
        destruct (Z.eqb_spec (n_val r) (-1)); try done; cbn [negb andb];
        unfold peer_addr; rewrite Hfam; simpl; by rewrite Hmin.
Qed.

Lemma accept_unknown_family sockfd addr_p len_p len s :
  is_nfp s sockfd = true → addr_p ≠ 0 →
  let c := N_accept sockfd (Some sizeof_storage) in
  let r := (nfp_do c (world s)).1 in
  n_val r ≠ -1 → sa_family (n_addr r) ≠ NFP_AF_INET → sa_family (n_addr r) ≠ NFP_AF_INET6 →
  ∃ s', accept sockfd addr_p len_p (Some len) s = (Ret (-1, None), s') ∧
    trace s' = trace s ++ [CNfp c].
Proof using Type.
  intros Hn Hne c r Hv H4 H6. unfold accept. rewrite IS_NFP_SOCKET_step, Hn. unfold accept_nfp.
  destruct (Z.eqb_spec addr_p 0); [done|]. cbn [negb andb]. rewrite bool_decide_true by eauto.
  cbn [negb]. rewrite bind_assoc, (bind_Ret _ _ _ _ _ (nfp_run _ _)). fold c. fold r.
  destruct (errno_from_nfp_run (after_nfp c s)) as (s2 & He & _ & _ & _ & Ht2 & _).
  rewrite bind_assoc, (bind_Ret _ _ _ _ _ He).
  destruct (Z.eqb_spec (n_val r) (-1)); [done|]. cbn [negb andb]. unfold peer_addr.
  destruct (Z.eqb_spec (sa_family (n_addr r)) NFP_AF_INET); [done|].
  destruct (Z.eqb_spec (sa_family (n_addr r)) NFP_AF_INET6); [done|].
  eexists. split; [done|]. rewrite Ht2. by destruct (after_nfp_spec c s) as (_ & _ & _ & ? & _).
Qed.

(** [accept] on a fast-path listener.  Without an address the descriptor
    of the fast path is returned; with a NULL length the call is refused with
    EINVAL before the fast path is asked; the address of an IPv4 or IPv6 peer
    is handed out with its port, cut to the caller's buffer, and the length
    becomes the smaller of the two.  When the peer address is of neither
    family the result is -1 although a connection was accepted, and the
    descriptor is not closed. *)
Theorem accept_reports_peer sockfd addr_p len_p addrlen s :
  is_nfp s sockfd = true →
  let c := N_accept sockfd (if addr_p =? 0 then None else Some sizeof_storage) in
  let r := (nfp_do c (world s)).1 in
  let a := n_addr r in
  (addr_p = 0 → (accept sockfd addr_p len_p addrlen s).1 = Ret (n_val r, None)) ∧
  (addr_p ≠ 0 → addrlen = None →
     ∃ s', accept sockfd addr_p len_p addrlen s = (Ret (-1, None), s') ∧
       errno s' = EINVAL ∧ trace s' = trace s) ∧
  (∀ len, addr_p ≠ 0 → addrlen = Some len → n_val r ≠ -1 →
     (sa_family a = NFP_AF_INET →
        (accept sockfd addr_p len_p addrlen s).1 =
          Ret (n_val r, Some (OutIn (sa_port a) (sa_word a), Z.min 16 len))) ∧
     (sa_family a = NFP_AF_INET6 →
        (accept sockfd addr_p len_p addrlen s).1 =
          Ret (n_val r, Some (OutIn6 (sa_port a) (sa_word a) (sa_addr6 a) (sa_scope a), Z.min 28 len))) ∧
     (sa_family a ≠ NFP_AF_INET → sa_family a ≠ NFP_AF_INET6 →
        ∃ s', accept sockfd addr_p len_p addrlen s = (Ret (-1, None), s') ∧
          trace s' = trace s ++ [CNfp c])).
Proof using Type.
  intros Hn c r a. pose proof (accept_peer sockfd addr_p len_p addrlen s Hn) as (H1 & H2 & H3).
  split_and!; try done. intros len Hne Hl Hv. destruct (H3 len Hne Hl Hv) as [H4 H6].
  split_and!; try done. intros Hf4 Hf6. subst addrlen c r a. destruct (Z.eqb_spec addr_p 0); [done|].
  by apply accept_unknown_family.
Qed.
End Others.

End NetwrapIoProofs.
