(* ===== verification/NetwrapTheorems.v ===== *)
(** * The wrapper library: main theorems

    Routing, transparency and translation for every wrapper, in every state the
    library can reach, and an executable environment in which the theorems of
    this file and of [NetwrapIoProofs] are exercised. *)

From S2P Require Import Prelude Errno NfpHeaders Netwrap NetwrapIo NetwrapProofs NetwrapIoProofs.
Import Errno Netwrap NetwrapIo NetwrapProofs NetwrapIoProofs.

Module NetwrapTheorems.

(** ** A small environment

    The world is a number of refusals left, the bytes sent and the bytes of a
    file; the fast path takes at most five bytes at a time. *)
Definition demo_world : Type := nat * bytes * bytes.

Definition demo_addr : saddr := Saddr 16 NFP_AF_INET 8080 0x0100007f [] 0.

Definition demo_reply (v e : Z) (set : gset Z) : nreply (gset Z) :=
  NReply v e demo_addr set (0, 0) [].

Definition demo_nfp (c : nfp_call (gset Z)) (w : demo_world) : nreply (gset Z) * demo_world :=
  let '(k, sent, file) := w in
  match c with
  | N_send _ b len _ =>
      match k with
      | S k' => (demo_reply (-1) NFP_EAGAIN ∅, (k', sent, file))
      | O => let n := Z.min len 5 in
             let data := match b with BufData d => take (Z.to_nat n) d | BufPtr _ => [] end in
             (demo_reply n 0 ∅, (O, sent ++ data, file))
      end
  | N_select _ set _ _ => (demo_reply (Z.of_nat (size set)) 0 set, w)
  | N_accept _ _ => (demo_reply 1030 0 ∅, w)
  | _ => (demo_reply 0 0 ∅, w)
  end.

Definition demo_libc (c : libc_call) (e : Z) (w : demo_world) : lreply * demo_world :=
  let '(k, sent, file) := w in
  match c with
  | L_read _ _ len =>
      let d := take (Z.to_nat len) file in
      (LReply (Z.of_nat (length d)) e d, (k, sent, drop (Z.to_nat len) file))
  | _ => (LReply 0 e [], w)
  end.

#[export] Instance demo_env : Env demo_world (gset Z) := {|
  nfp_do := demo_nfp;
  libc_do := demo_libc;
  dlsym _ := DlOk;
  NFP_FD_ZERO := ∅;
  NFP_FD_SET i s := {[i]} ∪ s;
  NFP_FD_ISSET i s := bool_decide (i ∈ s);
|}.

#[export] Instance demo_fd_laws : FdSetLaws demo_world (gset Z).
Proof.
  split; simpl.
  - intros j. apply bool_decide_false. set_solver.
  - intros i j f. destruct (Z.eqb_spec j i) as [->|Hne]; simpl.
    + apply bool_decide_true. set_solver.
    + apply bool_decide_ext. set_solver.
Defined.

#[export] Program Instance demo_file out_fd in_fd : FileToSocket demo_world (gset Z) out_fd in_fd := {|
  sent w := w.1.2;
  unread w := w.2;
  refusals w := w.1.1;
|}.
Next Obligation.
  intros out_fd in_fd d len f [[k sn] fl] Hl Hd. simpl. destruct k as [|k]; simpl.
  - split; [done|]. left. split_and!; try lia. done.
  - split; [done|]. right. split_and!; try done. lia.
Qed.
Next Obligation.
  intros out_fd in_fd e [[k sn] fl]. simpl. change (Z.to_nat BUF_SIZE) with 1024%nat. split_and!; try done.
Qed.
Next Obligation. intros out_fd in_fd e [[k sn] fl]. simpl. done. Qed.

(** A state after the constructor, with the offset [off]. *)
Definition demo_state (off : Z) (w : demo_world) : nw demo_world (gset Z) :=
  (setup_wrappers (Some off) (loaded w)).2.

(** ** Routing *)

Section Main.
Context {W F : Type} `{!Env W F}.

(** [C4] Every wrapped call is routed whole: on a fast-path descriptor (or, for
    [socket], an IPv4 socket once the library is set up; for [epoll_create],
    once it is set up) all the calls it makes are fast-path calls on that
    descriptor, pauses, and for [sendfile64] reads of the file; on any other
    it makes only the C library call of the same name with the same
    arguments, after at most one symbol lookup.  No wrapper changes the
    configuration. *)
Theorem wrappers_route fuel q (s : nw W F) :
  ∃ new, trace (run fuel q s).2 = trace s ++ new ∧
    Forall (if routed s q then fast_path q else c_library q) new ∧ frame s (run fuel q s).2.
Proof using Type.
  destruct (routed s q) eqn:Hr; [by apply run_routed|by apply run_unrouted].
Qed.

(** [C36] In every state the library can reach, by any sequence of wrapped calls
    and runs of its constructor (failed ones included), a call that is not
    for the fast path behaves as the C library's: same value, same [errno],
    same effect on the world; in particular no wrapper calls through a
    pointer that was never resolved. *)
Theorem wrappers_transparent w ops fuel q :
  dl_ok →
  let s := foldl exec (loaded w) ops in
  routed s q = false →
  let '(r, w') := libc_do (libc_of q) (errno s) (world s) in
  ∃ s', run fuel q s = (Ret (l_val r), s') ∧ world s' = w' ∧ errno s' = l_errno r ∧
    nfp_errno s' = nfp_errno s.
Proof using Type.
  intros Hdl s Hr. pose proof (run_transparent fuel q s Hr (Hdl _) (reachable_inv w ops Hdl)) as Ht.
  unfold transparent in Ht. destruct (libc_do (libc_of q) (errno s) (world s)) as [r w'].
  destruct Ht as (s' & ? & ? & ? & ? & _). eauto.
Qed.

(** [C37] The translated calls: a routed [socket], [shutdown], [close], [bind],
    [listen], [connect], [read], [write], [recv], [send], [setsockopt],
    [getsockopt] or [ioctl] is either the one fast-path call with the
    arguments [translate] spells out in the numbers of the two systems (flags
    bit by bit, socket options and address families by tables that do not
    refer to the wrappers), its value returned and [errno] set to the Linux
    error of the same name, or is refused with -1 and the Linux error before
    the fast path is asked. *)
Theorem wrappers_translate fuel q (s : nw W F) t :
  routed s q = true → translate q = Some t →
  match t with
  | inl c => let '(r, w) := nfp_do c (world s) in
      ∃ s', run fuel q s = (Ret (n_val r), s') ∧ world s' = w ∧
        errno s' = error_by_name (n_errno r) ∧ trace s' = trace s ++ [CNfp c]
  | inr e => ∃ s', run fuel q s = (Ret (-1), s') ∧ errno s' = e ∧ world s' = world s ∧
      trace s' = trace s
  end.
Proof using Type.
  intros Hr Ht. pose proof (run_translated fuel q s t Hr Ht) as H. unfold translated in H.
  destruct t as [c|e]; [|done]. destruct (nfp_do c (world s)) as [r w].
  destruct H as (s' & ? & ? & _ & ? & ?). eauto.
Qed.
End Main.

Definition demo0 : demo_world := (0%nat, [], []).
Definition demo_ops : list op := [OpRun 5 (Rq_close 3); OpConstruct (Some 1024)].

Lemma wrappers_transparent_witness :
  let s : nw demo_world (gset Z) := foldl exec (loaded demo0) demo_ops in
  ∃ s', run 5 (Rq_shutdown 7 0) s = (Ret 0, s') ∧ world s' = demo0 ∧ errno s' = 0 ∧
    nfp_errno s' = nfp_errno s.
Proof.
  exact (wrappers_transparent (W := demo_world) (F := gset Z) demo0 demo_ops 5 (Rq_shutdown 7 0)
           (λ _, eq_refl) eq_refl).
Defined.

Lemma wrappers_translate_witness :
  ∃ s', run 5 (Rq_setsockopt 1024 SOL_SOCKET SO_REUSEADDR 0 4) (demo_state 1024 demo0) =
      (Ret 0, s') ∧ world s' = demo0 ∧ errno s' = 0 ∧
    trace s' = trace (demo_state 1024 demo0) ++
                 [CNfp (N_setsockopt 1024 NFP_SOL_SOCKET NFP_SO_REUSEADDR 0 4)].
Proof.
  exact (wrappers_translate (W := demo_world) (F := gset Z) 5
           (Rq_setsockopt 1024 SOL_SOCKET SO_REUSEADDR 0 4) (demo_state 1024 demo0)
           (inl (N_setsockopt 1024 NFP_SOL_SOCKET NFP_SO_REUSEADDR 0 4)) eq_refl eq_refl).
Defined.

(** ** Message flags *)

Definition recv_pairs : list (Z * Z) :=
  [(MSG_DONTWAIT, NFP_MSG_DONTWAIT); (MSG_OOB, NFP_MSG_OOB); (MSG_PEEK, NFP_MSG_PEEK);
   (MSG_TRUNC, NFP_MSG_TRUNC); (MSG_WAITALL, NFP_MSG_WAITALL)].
Definition send_pairs : list (Z * Z) :=
  [(MSG_DONTROUTE, NFP_MSG_DONTROUTE); (MSG_DONTWAIT, NFP_MSG_DONTWAIT); (MSG_EOR, NFP_MSG_EOR);
   (MSG_NOSIGNAL, NFP_MSG_NOSIGNAL); (MSG_OOB, NFP_MSG_OOB)].

Definition flag (x f : Z) : bool := negb (Z.land x f =? 0).

(** The receive and send flags of Linux are mapped bit by bit to those of
    NFP: a flag is set for the fast path exactly when the caller set its Linux
    counterpart, and no other bit is. *)
Theorem message_flags x :
  (∀ f g, (f, g) ∈ recv_pairs → flag (recv_flags x) g = flag x f) ∧
  Z.land (recv_flags x) (Z.lnot (foldr Z.lor 0 recv_pairs.*2)) = 0 ∧
  (∀ f g, (f, g) ∈ send_pairs → flag (send_flags x) g = flag x f) ∧
  Z.land (send_flags x) (Z.lnot (foldr Z.lor 0 send_pairs.*2)) = 0.
Proof.
  assert (Hr : Forall (λ p, flag (recv_flags x) p.2 = flag x p.1) recv_pairs ∧
               Z.land (recv_flags x) (Z.lnot (foldr Z.lor 0 recv_pairs.*2)) = 0).
  { unfold recv_flags, add_flag, recv_pairs. destruct (Z.eqb_spec x 0) as [->|_].
    { split; [apply (bool_decide_unpack _)|]; by vm_compute. }
    rewrite !Forall_cons. unfold flag. simpl fst. simpl snd.
    destruct (Z.land x MSG_DONTWAIT =? 0), (Z.land x MSG_OOB =? 0), (Z.land x MSG_PEEK =? 0),
      (Z.land x MSG_TRUNC =? 0), (Z.land x MSG_WAITALL =? 0); split_and!; done || apply Forall_nil_2 || by vm_compute. }
  assert (Hs : Forall (λ p, flag (send_flags x) p.2 = flag x p.1) send_pairs ∧
               Z.land (send_flags x) (Z.lnot (foldr Z.lor 0 send_pairs.*2)) = 0).
  { unfold send_flags, add_flag, send_pairs. destruct (Z.eqb_spec x 0) as [->|_].
    { split; [apply (bool_decide_unpack _)|]; by vm_compute. }
    rewrite !Forall_cons. unfold flag. simpl fst. simpl snd.
    destruct (Z.land x MSG_DONTROUTE =? 0), (Z.land x MSG_DONTWAIT =? 0), (Z.land x MSG_EOR =? 0),
      (Z.land x MSG_NOSIGNAL =? 0), (Z.land x MSG_OOB =? 0); split_and!; done || apply Forall_nil_2 || by vm_compute. }
  destruct Hr as [Hr Hr'], Hs as [Hs Hs']. split_and!; try done.
  - intros f g Hin. apply (proj1 (Forall_forall _ _) Hr _ Hin).
  - intros f g Hin. apply (proj1 (Forall_forall _ _) Hs _ Hin).
Qed.

(** ** The waiting wrappers on the small environment *)

Lemma writev_sends_all_witness :
  ∃ s', writev 40 1024 0 [(4096, 7); (8192, 4)] 2 (demo_state 1024 (2%nat, [], [])) = (Ret 11, s') ∧
    accepts 1024 (demo_state 1024 (2%nat, [], []))
      [4096; 4097; 4098; 4099; 4100; 4101; 4102; 8192; 8193; 8194; 8195] s' ∧
    ∃ new, trace s' = trace (demo_state 1024 (2%nat, [], [])) ++ new ∧
      Forall (tail_of 1024 [(4096, 7); (8192, 4)]) new.
Proof.
  apply (writev_sends_all 1024 (λ w : demo_world, w.1.1) 40 0 [(4096, 7); (8192, 4)]).
  - by vm_compute.
  - intros b len f [[k sn] fl] Hl. simpl. destruct k; simpl; [left|right; split; [right|]]; lia || done.
  - intros e [[k sn] fl]. simpl. lia.
  - vm_compute. lia.
Defined.

Definition demo_sent (w : demo_world) : bytes := w.1.2.

Lemma sendfile_transfers_witness :
  (∃ s', sendfile64 1100 1024 3 0 None 4 (demo_state 1024 (1%nat, [], [1; 2; 3; 4; 5; 6; 7])) =
      (Ret (7, None), s') ∧ demo_sent (world s') = [] ++ [1; 2; 3; 4; 5; 6; 7]) ∧
  (4 mod 1024 ≠ 0 → 4 < 7 → 4 < 7).
Proof.
  refine (sendfile_transfers 1024 3 1100 0 4 (demo_state 1024 (1%nat, [], [1; 2; 3; 4; 5; 6; 7])) _ _ _ _).
  - by vm_compute.
  - by vm_compute.
  - lia.
  - vm_compute. lia.
Defined.

Lemma select_reports_ready_witness :
  let set : gset Z := {[3; 11]} in
  let s := demo_state 10 demo0 in
  ∃ bku r s1 set' s',
    select 5 13 0 0 0 0 (Some set) (Some (0, 200)) s =
      (Ret (n_val r, Some set', Some (if n_errno r =? 0 then n_timeout r else (0, 200))), s') ∧
    (∀ j, 10 ≤ j < 13 → NFP_FD_ISSET j bku = bool_decide (j ∈ set)) ∧
    polls 13 bku 200 0 (0, 0) s r s1 ∧
    world s' = world s1 ∧ trace s' = trace s1 ∧ errno s' = error_by_name (n_errno r) ∧
    (∃ new, trace s' = trace s ++ new ∧ Forall (poll_of 13 bku) new) ∧
    (0 < n_val r → ∀ j, j ∈ set' ↔ j ∈ set ∧ (10 ≤ j < 13 → NFP_FD_ISSET j (n_set r) = true)) ∧
    (n_val r = 0 → set' = ∅) ∧
    (n_val r < 0 → set' = set).
Proof.
  refine (select_reports_ready 5 13 0 0 0 0 {[3; 11]} 0 200 (demo_state 10 demo0) _ _ _ _ _ _ _).
  - by vm_compute.
  - by vm_compute.
  - lia.
  - lia.
  - lia.
  - lia.
  - vm_compute. lia.
Defined.

Lemma select_offset_out_of_range_witness :
  (select 5 1025 0 0 0 0 (Some {[1024]}) None (demo_state 1024 demo0)).1 = Stuck.
Proof. apply select_offset_out_of_range; by vm_compute. Defined.

Lemma fork_once_witness :
  ∃ s', fork 2 (demo_state 1024 demo0) = (Ret 0, s') ∧ recursive s' = false ∧
    trace s' = trace (demo_state 1024 demo0) ++ [CLibc L_fork] ++ [CNfp N_init_local_resources].
Proof. refine (fork_once 2 (demo_state 1024 demo0) _ _ _ _); [by vm_compute..|lia]. Defined.

Lemma epoll_ctl_event_witness :
  (epoll_ctl 1030 2 1031 None (demo_state 1024 demo0)).1 = Stuck ∧
  trace (epoll_ctl 1030 2 1031 (Some (1, (EPOLLOUT, 9))) (demo_state 1024 demo0)).2 =
    trace (demo_state 1024 demo0) ++ [CNfp (N_epoll_ctl 1030 2 1031 NFP_EPOLLPRI 9)].
Proof.
  pose proof (epoll_ctl_event 1030 2 1031 1 9 (demo_state 1024 demo0) ltac:(by vm_compute)) as [H1 [H2 _]].
  split; [exact H1|exact H2].
Defined.

Lemma accept_reports_peer_witness :
  (accept 1024 64 72 (Some 8) (demo_state 1024 demo0)).1 =
    Ret (1030, Some (OutIn 8080 0x0100007f, 8)).
Proof.
  pose proof (accept_reports_peer 1024 64 72 (Some 8) (demo_state 1024 demo0) ltac:(by vm_compute))
    as (_ & _ & H). exact (proj1 (H 8 ltac:(done) eq_refl ltac:(by vm_compute)) eq_refl).
Defined.

End NetwrapTheorems.
