(* ===== verification/App.v ===== *)
(** * Applications on the fast path

    The example programs are clients of interfaces whose code is not in the
    sources: the NFP socket and packet API (a binary library), ODP, and the
    POSIX calls around them.  [acall] lists the calls the modelled programs
    make, with the data they pass; the class [App] is the other side: what
    each call answers and does to a world of an arbitrary type.  The state of
    a program is that world, [nfp_errno], its own globals and the record of
    the calls made and their answers, in which the theorems read what the
    program did.

    [owned] reads the record for descriptors: which ones the program has
    obtained and not closed.  The class [SocketLaws] says what the programs
    rely on: fresh descriptors, received data that fit the buffer, and a
    bound on how often the outside keeps a loop going. *)

From S2P Require Import Prelude Errno.

Module App.

(** The address part of a [struct nfp_sockaddr_in], with the length passed
    beside it. *)
Record sin := Sin { sin_len : Z; sin_family : Z; sin_port : Z; sin_addr : Z; addrlen : Z }.

(** Numbers stand for handles (packets, queues, files, pools, ...), with 0 the
    invalid handle or NULL; [F] is the type of descriptor sets. *)
Set Implicit Arguments.
Set Contextual Implicit.
Inductive acall (F : Type) : Type :=
(* sockets *)
| A_socket (domain type protocol : Z)
| A_close (fd : Z)
| A_bind (fd : Z) (addr : sin)
| A_listen (fd backlog : Z)
| A_accept (fd : Z)
| A_connect (fd : Z) (addr : sin)
| A_recv (fd len flags : Z)
| A_send (fd : Z) (data : bytes) (flags : Z)
| A_setsockopt (fd level name : Z) (val : list Z)
| A_ioctl (fd request val : Z)
| A_select (nfds : Z) (readfds writefds : option F) (sec usec : Z)
| A_epoll_create (size : Z)
| A_epoll_ctl (epfd op fd : Z) (event : option (Z * Z))
| A_epoll_wait (epfd maxevents timeout : Z)
| A_socket_sigevent (fd : Z)
(* the process *)
| A_get_processing_state
| A_is_running
| A_signal
| A_stop_processing
| A_sleep (sec : Z)
| A_fopen (path : bytes)
| A_fread (file len : Z)
| A_fclose (file : Z)
| A_inet_aton (addr : bytes)
| A_inet_addr (addr : bytes)
| A_sigaction (signum : Z)
| A_load (field : Z)
| A_report (vals : list Z)
(* interfaces *)
| A_ifport_ifnet_get (port subport : Z)
| A_ifnet_ipv4_addr_get (ifnet type : Z)
| A_ifport_net_create (name : bytes) (in_queues out_queues : Z)
| A_ifport_net_ipv4_up (port subport addr masklen : Z)
| A_parse_ip_addr (addr : bytes)
| A_cli_process_file (file : option bytes)
| A_initialize (if_count : Z) (if_names : list bytes)
| A_terminate
| A_thread_create (func core : Z)
| A_thread_join (num : Z)
(* packets *)
| A_packet_has_error (pkt : Z)
| A_packet_len (pkt : Z)
| A_packet_data (pkt : Z)
| A_packet_push_tail (pkt len : Z)
| A_packet_free (pkt : Z)
| A_packet_l3 (pkt : Z)
| A_packet_store (pkt : Z) (data : bytes)
| A_udp_packet_parse (pkt : Z)
| A_udp_packet_sendto (fd pkt : Z) (addr : option sin)
| A_ip_send (pkt : Z)
| A_pktin_recv (queue num : Z)
| A_packet_input (pkt queue : Z)
| A_packet_input_multi (pkts : list Z) (queue : Z)
| A_pkt_vector_add (pkts : list Z) (pkt : Z)
| A_send_pending_pkt
| A_schedule
| A_schedule_multi (num : Z)
| A_event_type (ev : Z)
| A_timer_handle (ev : Z)
| A_event_free (ev : Z)
| A_time_local
(* ODP resources *)
| A_odp_init_global
| A_odp_init_local
| A_odp_term_local
| A_odp_term_global
| A_shm_reserve
| A_shm_addr (shm : Z)
| A_shm_free (shm : Z)
| A_cpu_count
| A_pool_create
| A_pool_destroy (pool : Z)
| A_pktio_open (name : bytes) (pool : Z)
| A_pktio_close (pktio : Z)
| A_pktio_capability (pktio : Z)
| A_pktio_lookup (name : bytes)
| A_pktin_queue (pktio num : Z)
| A_pktout_queue (pktio : Z)
(* power saving *)
| A_pktin_intr_wait_register (queue : Z)
| A_pktin_intr_set (queue : Z) (enable : bool)
| A_pktin_intr_wait (num timeout : Z)
| A_time_local_ns
| A_usleep (usec : Z)
(* default dispatchers and statistics *)
| A_threads_create (func num : Z)
| A_default_worker_cpumask (req_num max_num : Z)
| A_ifnet_get_by_name (name : bytes)
| A_ifnet_port_get (ifnet : Z)
| A_set_stat_flags (flags : Z)
| A_perf_statistics
| A_getrlimit (resource : Z)
| A_setrlimit (resource cur max : Z)
(* packet data and channels *)
| A_packet_push_head (pkt len : Z)
| A_packet_write (pkt : Z) (data : bytes)
| A_packet_l4 (pkt : Z)
| A_packet_pull_head (pkt len : Z)
| A_packet_pull_tail (pkt len : Z)
| A_channel_create
| A_channel_destroy (chn : Z)
| A_channel_send (chn pkt : Z)
| A_channel_recv (chn num : Z)
(* datagrams *)
| A_recvfrom (fd len flags addrlen : Z)
| A_sendto (fd : Z) (data : bytes) (flags : Z) (addr : sin)
(* a request with an argument of [size] bytes: the interface it names and the
   fields set *)
| A_ioctl_ptr (fd request size : Z) (name : bytes) (vals : list Z)
(* processes on the given processors; the fork answers in both *)
| A_cpumask_to_str (cpus : list Z) (len : Z)
| A_process_fork_n (cpus : list Z)
| A_process_wait_n (num : Z)
| A_default_event_dispatcher
(* scheduler groups and the classifier; [ns] is how long to wait for events *)
| A_sched_group_create (name : bytes)
| A_sched_group_destroy (group : Z)
| A_sched_group_join (group : Z)
| A_get_parameters
| A_schedule_wait (ns num : Z)
| A_port_pktio (port : Z)
| A_queue_create (name : bytes) (group : Z)
| A_queue_destroy (queue : Z)
| A_pool_lookup
| A_cos_create (name : bytes) (queue pool : Z)
| A_cos_destroy (cos : Z)
| A_cos_queue (cos : Z)
| A_default_cos_set (pktio cos : Z)
| A_error_cos_set (pktio cos : Z)
| A_pmr_create (val mask src dst : Z)
| A_pmr_destroy (pmr : Z)
| A_channel_send_multi (chn : Z) (pkts : list Z).

(** What a call gives back: its value, [nfp_errno] after it, and what it
    stores through its pointers. *)
Record areply (F : Type) : Type := Reply {
  r_val : Z;
  r_errno : Z;
  r_out : Z;
  r_out2 : Z;
  r_data : bytes;
  r_set : F;
  r_list : list (Z * Z);
}.
Unset Contextual Implicit.
Unset Implicit Arguments.

(** The outside: the answers to the calls, and the descriptor sets of
    nfp_select.h. *)
Class App (W F : Type) := {
  api : acall F → W → areply F * W;
  NFP_FD_ZERO : F;
  NFP_FD_SET : Z → F → F;
  NFP_FD_CLR : Z → F → F;
  NFP_FD_ISSET : Z → F → bool;
}.

Abbreviation event F := (acall F * areply F)%type.

Record app (W F G : Type) : Type := MkApp {
  world : W;
  nfp_errno : Z;
  trace : list (event F);
  glob : G;
}.
Arguments MkApp {W F G} _ _ _ _.
Arguments world {W F G} _.
Arguments nfp_errno {W F G} _.
Arguments trace {W F G} _.
Arguments glob {W F G} _.

(** ** Constants of the NFP headers *)

Definition NFP_AF_INET : Z := 2.
Definition NFP_SOCK_STREAM : Z := 1.
Definition NFP_IPPROTO_TCP : Z := 6.
Definition NFP_SOL_SOCKET : Z := 0xffff.
Definition NFP_SO_SNDTIMEO : Z := 0x1005.
Definition NFP_TCP_NOPUSH : Z := 0x04.
Definition NFP_EPOLLIN : Z := 1.
Definition NFP_EPOLL_CTL_ADD : Z := 1.
Definition NFP_EPOLL_CTL_DEL : Z := 2.
Definition NFP_IFPORT_NET_SUBPORT_ITF : Z := 4096.
Definition NFP_IFNET_IP_TYPE_IP_ADDR : Z := 0.
Definition NFP_INADDR_ANY : Z := 0.
Definition NFP_MSG_NBIO : Z := 0x4000.
(** [sizeof(struct nfp_sockaddr_in)] and [sizeof(struct nfp_sockaddr)] *)
Definition sizeof_sockaddr_in : Z := 16.
Definition sizeof_sockaddr : Z := 16.

(** [odp_cpu_to_be_16] on a little-endian processor. *)
Definition odp_cpu_to_be_16 (x : Z) : Z := x mod 256 * 256 + x / 256.

(** ** Calls *)

Section Calls.
Context {W F G : Type} `{!App W F}.

Definition call (c : acall F) : M (app W F G) (areply F) := λ s,
  let '(r, w) := api c (world s) in
  (Ret r, MkApp w (r_errno r) (trace s ++ [(c, r)]) (glob s)).

(** A call of which only the value is used. *)
Definition callv (c : acall F) : M (app W F G) Z := r ← call c; mret (r_val r).

(** A call for its effect. *)
Definition call_ (c : acall F) : M (app W F G) unit := _ ← call c; mret ().

Definition getg {A} (f : G → A) : M (app W F G) A := gets (λ s, f (glob s)).
Definition setg (f : G → G) : M (app W F G) unit :=
  modify (λ s, MkApp (world s) (nfp_errno s) (trace s) (f (glob s))).
End Calls.

(** ** What a record of calls says *)

(** Descriptors: obtained by [nfp_socket], [nfp_accept] and
    [nfp_epoll_create], given back by [nfp_close] unless it fails; a close
    that reports a reset connection has released the descriptor. *)
Definition close_failed {F} (r : areply F) : bool :=
  (r_val r <? 0) && negb (r_errno r =? Errno.NFP_ECONNRESET).

Definition opens {F} (c : acall F) : bool :=
  match c with
  | A_socket _ _ _ | A_accept _ | A_epoll_create _ => true
  | _ => false
  end.

Definition owned_step {F} (o : gset Z) (e : event F) : gset Z :=
  match e.1 with
  | A_close fd => if close_failed e.2 then o else o ∖ {[fd]}
  | c => if opens c && (0 <=? r_val e.2) then {[r_val e.2]} ∪ o else o
  end.

Definition owned {F} (o : gset Z) (tr : list (event F)) : gset Z := foldl owned_step o tr.

(** The descriptor a call works on; of [nfp_epoll_ctl] this is the epoll
    descriptor, and what is required of the descriptor that is added or removed
    is a condition of the program that uses it ([HttpdServer.http_rule]). *)
Definition uses {F} (c : acall F) : option Z :=
  match c with
  | A_close fd | A_bind fd _ | A_listen fd _ | A_accept fd | A_connect fd _ | A_recv fd _ _
  | A_send fd _ _ | A_setsockopt fd _ _ _ | A_ioctl fd _ _ | A_socket_sigevent fd
  | A_udp_packet_sendto fd _ _ | A_recvfrom fd _ _ _ | A_sendto fd _ _ _ | A_ioctl_ptr fd _ _ _ _ => Some fd
  | A_epoll_ctl epfd _ _ _ | A_epoll_wait epfd _ _ => Some epfd
  | _ => None
  end.

(** Every descriptor is used between being obtained and being closed. *)
Fixpoint disciplined {F} (o : gset Z) (tr : list (event F)) : Prop :=
  match tr with
  | [] => True
  | e :: tr' => (∀ fd, uses e.1 = Some fd → fd ∈ o) ∧ disciplined (owned_step o e) tr'
  end.

(** Descriptors on which a close failed. *)
Definition close_failures {F} (tr : list (event F)) : gset Z :=
  list_to_set (omap (λ e : event F, match e.1 with
                          | A_close fd => if close_failed e.2 then Some fd else None
                          | _ => None
                          end) tr).

(** The bytes accepted for sending on a descriptor. *)
Definition sent_by {F} (fd : Z) (e : event F) : bytes :=
  match e.1 with
  | A_send fd' data _ => if (fd' =? fd) then take (Z.to_nat (r_val e.2)) data else []
  | _ => []
  end.
Definition sent {F} (fd : Z) (tr : list (event F)) : bytes := tr ≫= sent_by fd.

(** The bytes read from a file. *)
Definition read_by {F} (file : Z) (e : event F) : bytes :=
  match e.1 with A_fread f _ => if f =? file then r_data e.2 else [] | _ => [] end.
Definition file_read {F} (file : Z) (tr : list (event F)) : bytes := tr ≫= read_by file.

(** Every [nfp_send] took some of its data. *)
Definition sends_ok {F} (tr : list (event F)) : Prop :=
  Forall (λ e : event F, match e.1 with
               | A_send _ data _ => 0 ≤ r_val e.2 ≤ Z.of_nat (length data)
               | _ => True
               end) tr.

(** Answers that make a waiting loop go round again. *)
Definition again {F} (e : event F) : bool :=
  match e.1 with
  | A_is_running => negb (r_val e.2 =? 0)
  | A_close _ => close_failed e.2
  | A_send _ _ _ => r_val e.2 =? 0
  | A_fread _ _ => 0 <? r_val e.2
  | A_signal => r_val e.2 =? 0
  | A_schedule => negb (r_val e.2 =? 0)
  | _ => false
  end.

(** ** What the programs rely on *)

Class SocketLaws (W F : Type) `{!App W F} := {
  (** the open descriptors of the process *)
  open_fds : W → gset Z;
  open_step c w r w' : api c w = (r, w') → owned_step (open_fds w) (c, r) ⊆ open_fds w';
  open_fresh c w r w' :
    api c w = (r, w') → opens c = true → 0 ≤ r_val r → r_val r ∉ open_fds w;
  (** received data fit the buffer *)
  recv_fits fd len flags w r w' :
    api (A_recv fd len flags) w = (r, w') → 0 ≤ len →
    r_val r ≤ len ∧ (0 ≤ r_val r → r_val r = Z.of_nat (length (r_data r)));
  fread_fits file len w r w' :
    api (A_fread file len) w = (r, w') → 0 ≤ len →
    r_val r ≤ len ∧ r_val r = Z.of_nat (length (r_data r));
  (** how often the outside will still answer "again" *)
  budget : W → nat;
  budget_step c w r w' :
    api c w = (r, w') → (budget w' + (if again (c, r) then 1 else 0) ≤ budget w)%nat;
  (** [nfp_epoll_wait] gives back data registered with [nfp_epoll_ctl] *)
  interest : W → gset Z;
  interest_step c w r w' :
    api c w = (r, w') →
    interest w' ⊆ interest w ∪
      match c with A_epoll_ctl _ _ _ (Some ev) => {[ev.2]} | _ => ∅ end;
  epoll_create_val size w r w' :
    api (A_epoll_create size) w = (r, w') → r_val r = -1 ∨ 0 ≤ r_val r;
  epoll_events epfd maxevents timeout w r w' :
    api (A_epoll_wait epfd maxevents timeout) w = (r, w') →
    r_val r ≤ Z.of_nat (length (r_list r)) ∧ Forall (λ ev, ev.2 ∈ interest w) (r_list r);
}.

(** Descriptor sets behave as sets. *)
Class FdSetLaws (W F : Type) `{!App W F} := {
  FD_ISSET_SET x y set :
    NFP_FD_ISSET x (NFP_FD_SET y set) = bool_decide (x = y) || NFP_FD_ISSET x set;
}.

End App.
