(* ===== verification/AppProofs.v ===== *)
(** * Reasoning about applications

    Descriptor discipline ([tidy]) as an invariant of every call, the fuel
    condition [enough], and readings of the record of calls. *)

From S2P Require Import Prelude Errno App.
Import App.

Module AppProofs.

(** ** The record of calls *)

Section Trace.
Context {F : Type}.
Implicit Types (tr t : list (event F)) (o : gset Z).

Lemma owned_snoc o tr e : owned o (tr ++ [e]) = owned_step (owned o tr) e.
Proof. unfold owned. by rewrite foldl_app. Qed.

Lemma disciplined_snoc o tr e :
  disciplined o tr → (∀ fd, uses e.1 = Some fd → fd ∈ owned o tr) → disciplined o (tr ++ [e]).
Proof.
  revert o. induction tr as [|e' tr IH]; intros o; simpl; [done|].
  intros [? ?] ?. split; [done|]. by apply IH.
Qed.

Lemma close_failures_app tr t :
  close_failures (tr ++ t) = close_failures tr ∪ close_failures t.
Proof. unfold close_failures. by rewrite omap_app, list_to_set_app_L. Qed.

Lemma sent_app fd tr t : sent fd (tr ++ t) = sent fd tr ++ sent fd t.
Proof. apply bind_app. Qed.

Lemma file_read_app f tr t : file_read f (tr ++ t) = file_read f tr ++ file_read f t.
Proof. apply bind_app. Qed.

Lemma sends_ok_app tr t : sends_ok (tr ++ t) ↔ sends_ok tr ∧ sends_ok t.
Proof. apply Forall_app. Qed.

Lemma sends_ok_send fd data flags (r : areply F) :
  sends_ok [(A_send fd data flags, r)] → 0 ≤ r_val r ≤ Z.of_nat (length data).
Proof. intros H. by inversion H. Qed.

Lemma owned_step_mono o o' (e : event F) : o ⊆ o' → owned_step o e ⊆ owned_step o' e.
Proof. unfold owned_step. intros. repeat case_match; set_solver. Qed.
End Trace.

(** A call that neither obtains nor releases a descriptor. *)
Definition plain {F} (c : acall F) : bool :=
  negb (opens c) && match c with A_close _ => false | _ => true end.

Lemma owned_step_plain {F} o (e : event F) : plain e.1 = true → owned_step o e = o.
Proof. destruct e as [[] ?]; done. Qed.

Lemma close_failures_plain {F} (e : event F) : plain e.1 = true → close_failures [e] = ∅.
Proof. destruct e as [[] ?]; done. Qed.

Lemma owned_step_close {F} o fd (r : areply F) :
  owned_step o (A_close fd, r) = if close_failed r then o else o ∖ {[fd]}.
Proof. done. Qed.

Lemma close_failures_close {F} fd (r : areply F) :
  close_failures [(A_close fd, r)] = if close_failed r then {[fd]} else ∅.
Proof. unfold close_failures. simpl. destruct (close_failed r); simpl; set_solver. Qed.

Section Wp.
Context {W F G : Type} `{!App W F}.
Implicit Types (s : app W F G).

Definition after s (c : acall F) (r : areply F) (w : W) : app W F G :=
  MkApp w (r_errno r) (trace s ++ [(c, r)]) (glob s).

Lemma wp_call c Q s :
  (∀ r w, api c (world s) = (r, w) → Q r (after s c r w)) → wp (call c) Q s.
Proof.
  intros H. destruct (api c (world s)) as [r w] eqn:E. exists r. eexists.
  split; [unfold call; rewrite E; done|]. by apply H.
Qed.

Lemma wp_callv c (Q : Z → app W F G → Prop) s :
  (∀ r w, api c (world s) = (r, w) → Q (r_val r) (after s c r w)) → wp (callv c) Q s.
Proof. intros H. apply wp_bind, wp_call. intros. by apply wp_ret, H. Qed.

Lemma wp_call_ c (Q : unit → app W F G → Prop) s :
  (∀ r w, api c (world s) = (r, w) → Q () (after s c r w)) → wp (call_ c) Q s.
Proof. intros H. apply wp_bind, wp_call. intros. by apply wp_ret, H. Qed.

Lemma wp_getg {A} (f : G → A) Q s : Q (f (glob s)) s → wp (getg f) Q s.
Proof. intros H. by exists (f (glob s)), s. Qed.

Lemma wp_setg (f : G → G) (Q : unit → app W F G → Prop) s :
  Q () (MkApp (world s) (nfp_errno s) (trace s) (f (glob s))) → wp (setg f) Q s.
Proof. intros H. by eexists _, _. Qed.
End Wp.

Section Tidy.
Context {W F G : Type} `{!App W F, !SocketLaws W F}.
Implicit Types (s : app W F G) (live : gset Z).

(** Starting with the descriptors [o0], the program has used descriptors
    properly and holds exactly [live], except for descriptors whose close
    failed; what it holds is open. *)
Definition tidy (o0 live : gset Z) s : Prop :=
  disciplined o0 (trace s) ∧
  live ⊆ owned o0 (trace s) ∧
  owned o0 (trace s) ⊆ live ∪ close_failures (trace s) ∧
  owned o0 (trace s) ⊆ open_fds (world s).

(** Any loop of the programs ends within [fuel] turns: no buffer has more
    than 2048 bytes, and the outside answers "again" at most [budget] times. *)
Definition enough (fuel : nat) s : Prop :=
  2048 + Z.of_nat (budget (world s)) < Z.of_nat fuel.

(** Every call made satisfies the program's [rule], given the record before it. *)
Definition obeys (rule : list (event F) → acall F → Prop) (tr : list (event F)) : Prop :=
  ∀ t e t', tr = t ++ e :: t' → rule t e.1.

(** The data registered with [nfp_epoll_ctl]. *)
Definition registered (tr : list (event F)) : gset Z :=
  list_to_set (omap (λ e : event F, match e.1 with
                          | A_epoll_ctl _ _ _ (Some ev) => Some ev.2
                          | _ => None
                          end) tr).

Context (rule : list (event F) → acall F → Prop) (o0 : gset Z).

Definition call_ok live (c : acall F) : Prop :=
  (∀ fd, uses c = Some fd → fd ∈ live) ∧
  ∀ tr, owned o0 tr ⊆ live ∪ close_failures tr → rule tr c.

Definition fine live (fuel : nat) s : Prop :=
  tidy o0 live s ∧ enough fuel s ∧ obeys rule (trace s) ∧
  interest (world s) ⊆ registered (trace s).

Context (fuel : nat).
Local Abbreviation fine' := fine.

Lemma obeys_snoc tr e : obeys rule tr → rule tr e.1 → obeys rule (tr ++ [e]).
Proof.
  intros Ho Hr t e' t' Heq. destruct t' as [|x t' _] using rev_ind.
  - by apply app_inj_tail in Heq as [-> ->].
  - rewrite app_comm_cons, app_assoc in Heq. apply app_inj_tail in Heq as [Heq _].
    by eapply Ho.
Qed.

Lemma registered_event c r d :
  d ∈ (match c with A_epoll_ctl _ _ _ (Some ev) => {[ev.2]} | _ => ∅ end : gset Z) →
  d ∈ registered [(c, r)].
Proof. unfold registered. simpl. repeat case_match; simpl; set_solver. Qed.

Lemma rest_step_at live s c r w :
  fine' live fuel s → rule (trace s) c → api c (world s) = (r, w) →
  enough fuel (after s c r w) ∧ obeys rule (trace (after s c r w)) ∧
  interest w ⊆ registered (trace (after s c r w)).
Proof.
  intros (_ & He & Ho & Hr) Hok E. split_and!.
  - unfold enough in *. simpl. pose proof (budget_step _ _ _ _ E). lia.
  - simpl. by apply obeys_snoc.
  - intros d Hd. simpl. unfold registered. rewrite omap_app, list_to_set_app_L.
    pose proof (interest_step _ _ _ _ E d Hd) as [Hs|Hs]%elem_of_union; apply elem_of_union.
    + left. by apply Hr.
    + right. by apply registered_event.
Qed.

Lemma call_ok_rule live s c : fine' live fuel s → call_ok live c → rule (trace s) c.
Proof. intros ((_ & _ & Hu & _) & _) [_ Hok]. by apply Hok. Qed.

Lemma rest_step live s c r w :
  fine' live fuel s → call_ok live c → api c (world s) = (r, w) →
  enough fuel (after s c r w) ∧ obeys rule (trace (after s c r w)) ∧
  interest w ⊆ registered (trace (after s c r w)).
Proof. intros Hf Hc. eapply rest_step_at; [done|by eapply call_ok_rule]. Qed.

Lemma uses_owned live s c fd :
  tidy o0 live s → call_ok live c → uses c = Some fd → fd ∈ owned o0 (trace s).
Proof. intros (_ & Hl & _) [Hu _] ?. by apply Hl, Hu. Qed.

Lemma open_after live s c r w :
  tidy o0 live s → api c (world s) = (r, w) →
  owned_step (owned o0 (trace s)) (c, r) ⊆ open_fds w.
Proof.
  intros (_ & _ & _ & Ho) E. etrans; [by apply owned_step_mono|]. by eapply open_step.
Qed.

(** A call that neither obtains nor releases a descriptor; the condition on it
    may depend on the calls made so far. *)
Lemma fine_plain_at live s c r w :
  fine' live fuel s → plain c = true → (∀ fd, uses c = Some fd → fd ∈ live) → rule (trace s) c →
  api c (world s) = (r, w) → fine' live fuel (after s c r w).
Proof.
  intros Hf Hp Hc Hr E. split; [|by eapply rest_step_at]. destruct Hf as (Ht & _).
  pose proof (open_after _ _ _ _ _ Ht E) as Ho. rewrite owned_step_plain in Ho by done.
  destruct Ht as (Hd & Hl & Hu & _). unfold tidy. simpl.
  rewrite owned_snoc, owned_step_plain by done.
  rewrite close_failures_app, close_failures_plain by done.
  split_and!; [|done|set_solver|done].
  apply disciplined_snoc; [done|]. intros fd ?. by apply Hl, Hc.
Qed.

Lemma fine_plain live s c r w :
  fine' live fuel s → plain c = true → call_ok live c → api c (world s) = (r, w) →
  fine' live fuel (after s c r w).
Proof. intros Hf Hp Hc. eapply fine_plain_at; [done|done|apply Hc|by eapply call_ok_rule]. Qed.

(** A call that obtains one. *)
Lemma fine_open live s c r w :
  fine' live fuel s → opens c = true → call_ok live c → api c (world s) = (r, w) →
  if 0 <=? r_val r then (r_val r ∉ live) ∧ fine' ({[r_val r]} ∪ live) fuel (after s c r w)
  else fine' live fuel (after s c r w).
Proof.
  intros Hf Hp Hc E. pose proof (rest_step _ _ _ _ _ Hf Hc E) as Hrest.
  destruct Hf as (Ht & _).
  pose proof (open_after _ _ _ _ _ Ht E) as Ho.
  destruct Ht as (Hd & Hl & Hu & Hopen).
  assert (Hdis : disciplined o0 (trace s ++ [(c, r)])).
  { apply disciplined_snoc; [done|]. intros fd ?. apply Hl, Hc. done. }
  assert (Hstep : owned_step (owned o0 (trace s)) (c, r) =
    if 0 <=? r_val r then {[r_val r]} ∪ owned o0 (trace s) else owned o0 (trace s)).
  { by destruct c; try discriminate. }
  assert (Hcf : close_failures [(c, r)] = ∅) by (by destruct c; try discriminate).
  unfold fine, tidy. simpl. rewrite owned_snoc, close_failures_app, Hcf.
  rewrite Hstep in Ho |- *. destruct (Z.leb_spec 0 (r_val r)) as [Hv|Hv].
  - split; [|split; [|done]].
    + pose proof (open_fresh _ _ _ _ E Hp Hv) as Hn. clear -Hn Hl Hopen. set_solver.
    + split_and!; [done| | |done]; [clear -Hl|clear -Hu]; set_solver.
  - split; [|done]. split_and!; [done|done| |done]. clear -Hu. set_solver.
Qed.

(** Calls on which the programs set no condition. *)
Definition ordinary (c : acall F) : bool :=
  match c with A_select _ _ _ _ _ | A_epoll_ctl _ _ _ _ => false | _ => true end.

Definition lenient : Prop := ∀ tr c, ordinary c = true → rule tr c.

Lemma call_ok_none live c :
  lenient → uses c = None → ordinary c = true → call_ok live c.
Proof. intros Hl Hu Hc. split; [by rewrite Hu|]. intros. by apply Hl. Qed.

Lemma call_ok_some live c sd :
  lenient → uses c = Some sd → sd ∈ live → ordinary c = true → call_ok live c.
Proof.
  intros Hl Hu ? Hc. split; [|intros; by apply Hl]. intros fd. rewrite Hu. by intros [= <-].
Qed.

(** A close: the descriptor is given up; when the close failed it may be kept. *)
Lemma fine_close live s fd r w :
  lenient → fine' live fuel s → fd ∈ live → api (A_close fd) (world s) = (r, w) →
  fine' (live ∖ {[fd]}) fuel (after s (A_close fd) r w) ∧
  (close_failed r = true → fine' live fuel (after s (A_close fd) r w)).
Proof.
  intros Hlen Hf Hin E.
  assert (Hc : call_ok live (A_close fd)).
  { split; [by intros ? [= <-]|]. intros. by apply Hlen. }
  pose proof (rest_step _ _ _ _ _ Hf Hc E) as Hrest.
  destruct Hf as (Ht & _).
  pose proof (open_after _ _ _ _ _ Ht E) as Ho.
  destruct Ht as (Hd & Hl & Hu & Hopen).
  assert (Hdis : disciplined o0 (trace s ++ [(A_close fd, r)])).
  { apply disciplined_snoc; [done|]. intros fd' ?. apply Hl, Hc. done. }
  rewrite owned_step_close in Ho. unfold fine, tidy. simpl.
  rewrite owned_snoc, close_failures_app, close_failures_close, owned_step_close.
  generalize dependent (owned o0 (trace s)). generalize (close_failures (trace s)).
  intros cf o Hl Hu Hopen Ho. destruct (close_failed r) eqn:Ecf; simpl in *.
  - split; [|intros _]; (split; [split_and!|done]); try done.
    + clear -Hl. set_solver.
    + clear -Hu. intros x Hx. destruct (decide (x = fd)); set_solver.
    + clear -Hu. set_solver.
  - split; [|done]. split; [split_and!|done]; try done.
    + clear -Hl. set_solver.
    + clear -Hu. set_solver.
Qed.

Lemma budget_le s c r w :
  api c (world s) = (r, w) → (budget w ≤ budget (world s))%nat.
Proof. intros E. pose proof (budget_step _ _ _ _ E). lia. Qed.

Lemma budget_lt s c r w :
  api c (world s) = (r, w) → again (c, r) = true → (budget w < budget (world s))%nat.
Proof. intros E Ha. pose proof (budget_step _ _ _ _ E). rewrite Ha in *. lia. Qed.
End Tidy.

(** ** Programs without conditions on their calls *)

Section Any.
Context {W F G : Type} `{!App W F, !SocketLaws W F}.
Context (o0 : gset Z) (fuel : nat).
Implicit Types (s : app W F G) (live : gset Z).

Definition any (_ : list (event F)) (_ : acall F) : Prop := True.

Lemma any_lenient : lenient any.
Proof. done. Qed.

Lemma plain_call live s c r w :
  fine any o0 live fuel s → api c (world s) = (r, w) → plain c = true →
  (∀ fd, uses c = Some fd → fd ∈ live) → fine any o0 live fuel (after s c r w).
Proof. intros. by eapply fine_plain. Qed.

(** With the descriptors [live], after the calls [t] since [s0]. *)
Definition acts live s0 t s : Prop := fine any o0 live fuel s ∧ trace s = trace s0 ++ t.

Lemma acts_refl live s : fine any o0 live fuel s → acts live s [] s.
Proof. intros Hf. split; [done|by rewrite app_nil_r]. Qed.

Lemma acts_call live s0 t s c r w :
  acts live s0 t s → api c (world s) = (r, w) → plain c = true → (∀ fd, uses c = Some fd → fd ∈ live) →
  acts live s0 (t ++ [(c, r)]) (after s c r w).
Proof. intros [Hf Ht] E Hp Hu. split; [by eapply plain_call|]. simpl. by rewrite Ht, app_assoc. Qed.

Lemma acts_trans live live' s0 t s t' s' : acts live s0 t s → acts live' s t' s' → acts live' s0 (t ++ t') s'.
Proof. intros [_ Ht] [Hf Ht']. split; [done|]. by rewrite Ht', Ht, app_assoc. Qed.

(** Steps that concern no descriptor of the program. *)
Definition idle s s' : Prop := ∀ o0 live fuel, fine any o0 live fuel s → fine any o0 live fuel s'.

#[global] Instance idle_preorder : PreOrder idle.
Proof. split; [by intros s o live f|]. intros s1 s2 s3 H1 H2 o live f Hf. exact (H2 _ _ _ (H1 _ _ _ Hf)). Qed.

Definition idle_call (c : acall F) : bool :=
  plain c && match uses c with None => true | Some _ => false end.

Lemma idle_after s c r w : api c (world s) = (r, w) → idle_call c = true → idle s (after s c r w).
Proof.
  intros E [Hp Hu]%andb_prop o live f Hf. eapply fine_plain; [done..| |done].
  split; [|done]. intros fd. by destruct (uses c).
Qed.

Lemma idle_same s s' : world s' = world s → trace s' = trace s → idle s s'.
Proof. intros Hw Ht o live f. unfold fine, tidy, enough. by rewrite Hw, Ht. Qed.

(** A socket is obtained. *)
Lemma socket_call s d ty p r w :
  fine any o0 o0 fuel s → api (A_socket d ty p) (world s) = (r, w) →
  if r_val r <? 0 then fine any o0 o0 fuel (after s (A_socket d ty p) r w)
  else (r_val r ∉ o0) ∧ fine any o0 ({[r_val r]} ∪ o0) fuel (after s (A_socket d ty p) r w).
Proof.
  intros Hf E. assert (Hok : call_ok any o0 o0 (A_socket d ty p)) by done.
  pose proof (fine_open any o0 fuel _ _ (A_socket d ty p) _ _ Hf eq_refl Hok E) as Hopen.
  destruct (Z.ltb_spec (r_val r) 0), (Z.leb_spec 0 (r_val r)); try lia; done.
Qed.

(** A descriptor is obtained. *)
Lemma acts_open live s0 t s c r w :
  acts live s0 t s → api c (world s) = (r, w) → opens c = true → (∀ fd, uses c = Some fd → fd ∈ live) →
  if 0 <=? r_val r then (r_val r ∉ live) ∧ acts ({[r_val r]} ∪ live) s0 (t ++ [(c, r)]) (after s c r w)
  else acts live s0 (t ++ [(c, r)]) (after s c r w).
Proof.
  intros [Hf Ht] E Hp Hu. assert (Hc : call_ok any o0 live c) by (by split).
  pose proof (fine_open any o0 fuel _ _ _ _ _ Hf Hp Hc E) as Ho.
  assert (Ht' : trace (after s c r w) = trace s0 ++ t ++ [(c, r)]) by (simpl; by rewrite Ht, app_assoc).
  destruct (0 <=? r_val r); [destruct Ho as [? Ho]; split; [done|]|]; by split.
Qed.

(** The last one is closed. *)
Lemma acts_close x live s0 t s r w :
  acts ({[x]} ∪ live) s0 t s → (x ∉ live) → api (A_close x) (world s) = (r, w) →
  acts live s0 (t ++ [(A_close x, r)]) (after s (A_close x) r w).
Proof.
  intros [Hf Ht] Hx E. assert (Hin : x ∈ {[x]} ∪ live) by set_solver.
  destruct (fine_close _ _ _ _ _ _ _ _ any_lenient Hf Hin E) as [Hf1 _]. split; [|simpl; by rewrite Ht, app_assoc].
  replace (({[x]} ∪ live) ∖ {[x]}) with live in Hf1; [done|]. clear -Hx. set_solver.
Qed.

(** It is closed. *)
Lemma close_last s x :
  fine any o0 ({[x]} ∪ o0) fuel s → (x ∉ o0) →
  wp (call_ (A_close x)) (λ _ s', fine any o0 o0 fuel s' ∧ glob s' = glob s ∧
    ∃ r, trace s' = trace s ++ [(A_close x, r)]) s.
Proof.
  intros Hf Hx. apply wp_call_. intros r w E.
  assert (Hin : x ∈ {[x]} ∪ o0) by set_solver.
  destruct (fine_close _ _ _ _ _ _ _ _ any_lenient Hf Hin E) as [Hf1 _].
  split_and!; [|done|by exists r].
  replace (({[x]} ∪ o0) ∖ {[x]}) with o0 in Hf1; [done|]. clear -Hx. set_solver.
Qed.
End Any.

End AppProofs.
