(* ===== verification/AppHeap.v ===== *)
(** * Programs with a command line in memory

    The example programs keep what they parse from the command line in heap
    blocks, the memory of [CliArgParse].  A program whose globals [G] contain
    such a memory runs the computations of [CliArgParse] with [on_heap]. *)

From S2P Require Import Prelude App CliArgParse.
Import App.

Module AppHeap.

Class HasHeap (G : Type) := {
  heap_of : G → CliArgParse.state;
  put_heap : CliArgParse.state → G → G;
  heap_put h g : heap_of (put_heap h g) = h;
  put_same g : put_heap (heap_of g) g = g;
}.

Section AppHeap.
Context {W F G : Type} `{!App W F, !HasHeap G}.
Local Abbreviation MA := (M (app W F G)).

Definition on_heap {A} (c : M CliArgParse.state A) : MA A := λ s,
  let '(o, h) := c (heap_of (glob s)) in
  (o, MkApp (world s) (nfp_errno s) (trace s) (put_heap h (glob s))).

(** A string that may be NULL. *)
Definition arg_string (p : option positive) : MA (option bytes) :=
  match p with
  | None => mret None
  | Some p => t ← on_heap (CliArgParse.read_string (p, 0%nat)); mret (Some t)
  end.
End AppHeap.

(** A part of the globals is those of another component, whose computations
    run on it. *)
Section Zoom.
Context {W F G H : Type} (get : G → H) (put : H → G → G).

Definition zoom {A} (c : M (app W F H) A) : M (app W F G) A := λ s,
  let '(o, s') := c (MkApp (world s) (nfp_errno s) (trace s) (get (glob s))) in
  (o, MkApp (world s') (nfp_errno s') (trace s') (put (glob s') (glob s))).
End Zoom.

End AppHeap.
