(* ===== verification/Resources.v ===== *)
(** * Resources of a program

    The record of the calls of a program, read as a stack of resources: ODP,
    the shared memory, the stack and the threads.  [moves] is what a stretch of
    the program does to that stack, [neutral] says that it does nothing to it
    nor to a part [π] of the globals. *)

From S2P Require Import Prelude App AppProofs CliArgParse ArgHeap AppHeap.
Import App AppProofs ArgHeap AppHeap.

Module Resources.

Inductive resource := R_odp | R_shm | R_nfp | R_thread.

(** A join is for at most [n] threads. *)
Fixpoint join (n : nat) (st : list resource) : list resource :=
  match n, st with
  | S n', R_thread :: st' => join n' st'
  | _, _ => st
  end.

(** The stack of resources after a call; [None] when one is released out of
    order. *)
Definition hold {F} (st : list resource) (e : event F) : option (list resource) :=
  match e.1 with
  | A_odp_init_global => Some (if r_val e.2 =? 0 then R_odp :: st else st)
  | A_shm_addr _ => Some (if r_val e.2 =? 0 then st else R_shm :: st)
  | A_initialize _ _ => Some (if r_val e.2 =? 0 then R_nfp :: st else st)
  | A_thread_create _ _ => Some (if r_val e.2 =? 1 then R_thread :: st else st)
  | A_threads_create _ _ => Some (replicate (Z.to_nat (r_val e.2)) R_thread ++ st)
  | A_thread_join n | A_process_wait_n n => Some (join (Z.to_nat n) st)
  | A_process_fork_n cpus =>
      (* 1 in the parent, -1 when there is no child; a child holds nothing *)
      Some (if 0 <? r_val e.2 then replicate (length cpus) R_thread ++ st
            else if r_val e.2 =? -1 then st else [])
  | A_terminate => match st with R_nfp :: st' => Some st' | _ => None end
  | A_shm_free _ => match st with R_shm :: st' => Some st' | _ => None end
  | A_odp_term_global => match st with R_odp :: st' => Some st' | _ => None end
  | _ => Some st
  end.

Fixpoint held {F} (st : list resource) (t : list (event F)) : option (list resource) :=
  match t with
  | [] => Some st
  | e :: t' => st' ← hold st e; held st' t'
  end.

Lemma held_app {F} st (t t' : list (event F)) :
  held st (t ++ t') = held st t ≫= λ st', held st' t'.
Proof.
  revert st. induction t as [|e t IH]; intros st; simpl; [done|].
  destruct (hold st e); simpl; [apply IH|done].
Qed.

Lemma join_replicate n k st :
  join n (replicate k R_thread ++ R_nfp :: st) = replicate (k - n) R_thread ++ R_nfp :: st.
Proof. revert k. induction n as [|n IH]; intros [|k]; simpl; [done..|]. apply IH. Qed.

Section Resources.
Context {W F G P : Type} `{!App W F, !SocketLaws W F} (π : G → P).
Local Abbreviation st := (app W F G).
Implicit Types (s : st).

(** From [s] to [s'] the resources go from [rs] to [rs']. *)
Definition moves s (rs : list resource) s' (rs' : list resource) : Prop :=
  ∃ t, trace s' = trace s ++ t ∧ held rs t = Some rs'.

Lemma moves_refl s rs : moves s rs s rs.
Proof. exists []. by rewrite app_nil_r. Qed.

Lemma moves_trans s1 rs1 s2 rs2 s3 rs3 :
  moves s1 rs1 s2 rs2 → moves s2 rs2 s3 rs3 → moves s1 rs1 s3 rs3.
Proof.
  intros (t & Ht & Hr) (t' & Ht' & Hr'). exists (t ++ t').
  by rewrite Ht', Ht, app_assoc, held_app, Hr.
Qed.

Lemma moves_after s rs c r w rs' :
  hold rs (c, r) = Some rs' → moves s rs (after s c r w) rs'.
Proof. intros H. exists [(c, r)]. simpl. by rewrite H. Qed.

(** Steps that touch neither resources nor [π]. *)
Definition neutral s s' : Prop :=
  (budget (world s') ≤ budget (world s))%nat ∧ π (glob s') = π (glob s) ∧ ∀ rs, moves s rs s' rs.

#[global] Instance neutral_preorder : PreOrder neutral.
Proof.
  split.
  - intros s. split_and!; [done..|]. intros rs. apply moves_refl.
  - intros s1 s2 s3 (Hb & Hh & Hm) (Hb' & Hh' & Hm').
    split_and!; [lia|congruence|]. intros rs. by eapply moves_trans.
Qed.

Lemma enough_neutral fuel s s' : enough fuel s → neutral s s' → enough fuel s'.
Proof. unfold enough. intros He [Hb _]. lia. Qed.

Definition neutral_call (c : acall F) : bool :=
  match c with
  | A_odp_init_global | A_odp_term_global | A_shm_addr _ | A_shm_free _ | A_initialize _ _
  | A_terminate | A_thread_create _ _ | A_threads_create _ _ | A_thread_join _ | A_process_fork_n _
  | A_process_wait_n _ => false
  | _ => true
  end.

Lemma neutral_after s c r w :
  api c (world s) = (r, w) → neutral_call c = true → neutral s (after s c r w).
Proof.
  intros E Hc. split_and!; [by eapply budget_le|done|]. intros rs. apply moves_after. by destruct c.
Qed.

Lemma neutral_call_keeps c : neutral_call c = true → keeps neutral (call c : M st _).
Proof.
  intros Hc s a s' H. unfold call in H. destruct (api c (world s)) as [r w] eqn:E.
  injection H as <- <-. by apply neutral_after.
Qed.
Lemma neutral_callv c : neutral_call c = true → keeps neutral (callv c : M st Z).
Proof. intros. apply keeps_bind; [apply _|by apply neutral_call_keeps|intros; apply keeps_ret, _]. Qed.
Lemma neutral_call_ c : neutral_call c = true → keeps neutral (call_ c : M st unit).
Proof. intros. apply keeps_bind; [apply _|by apply neutral_call_keeps|intros; apply keeps_ret, _]. Qed.
Lemma neutral_getg {A} (f : G → A) : keeps neutral (getg f : M st A).
Proof. apply keeps_gets, _. Qed.
Lemma neutral_setg f : (∀ g, π (f g) = π g) → keeps neutral (setg f : M st unit).
Proof.
  intros Hf s a s' [= <- <-]. split_and!; [done|apply Hf|]. intros rs.
  exists []. by rewrite app_nil_r.
Qed.

(** A neutral step, then the rest. *)
Lemma wp_neutral {A B} (c : M st A) (f : A → M st B) (R : A → Prop) Q s :
  keeps neutral c → wp c (λ a _, R a) s →
  (∀ a s', R a → neutral s s' → wp (f a) Q s') → wp (c ≫= f) Q s.
Proof.
  intros Hk Hw Hf. apply wp_bind. eapply wp_mono; [|by apply wp_keeps; [exact Hk|exact Hw]].
  intros a s' [? ?]. by apply Hf.
Qed.

Lemma ends_neutral {A B} (c : M st A) (f : A → M st B) (R : A → Prop) Q X s :
  keeps neutral c → wp c (λ a _, R a) s →
  (∀ a s', R a → neutral s s' → ends (f a) Q X s') → ends (c ≫= f) Q X s.
Proof.
  intros Hk Hw Hf. apply ends_bind, ends_wp. eapply wp_mono; [|by apply wp_keeps; [exact Hk|exact Hw]].
  intros a s' [? ?]. by apply Hf.
Qed.

Lemma any_callv c s : wp (callv c : M st Z) (λ _ _, True) s.
Proof. by apply wp_callv. Qed.
Lemma any_call c s : wp (call c : M st _) (λ _ _, True) s.
Proof. by apply wp_call. Qed.
Lemma any_call_ c s : wp (call_ c : M st unit) (λ _ _, True) s.
Proof. by apply wp_call_. Qed.

(** ** Threads *)

(** From [s] to [s'] at most [n] threads have been started. *)
Definition started (n : nat) s rs s' : Prop :=
  ∃ k, (k ≤ n)%nat ∧ moves s (R_nfp :: rs) s' (replicate k R_thread ++ R_nfp :: rs).

Lemma started_0 s rs : started 0 s rs s.
Proof. exists 0%nat. split; [done|apply moves_refl]. Qed.

Lemma started_create n s rs s' f i r w :
  started n s rs s' → started (S n) s rs (after s' (A_thread_create f i) r w).
Proof.
  intros (k & Hk & Hm). exists (if r_val r =? 1 then S k else k). split; [case_match; lia|].
  eapply moves_trans; [exact Hm|]. apply moves_after. unfold hold. cbn [fst snd].
  by destruct (r_val r =? 1).
Qed.

(** [r_val r] threads by one call. *)
Lemma started_create_many n s rs s' f m r w :
  started n s rs s' → started (n + Z.to_nat (r_val r)) s rs (after s' (A_threads_create f m) r w).
Proof.
  intros (k & Hk & Hm). exists (Z.to_nat (r_val r) + k)%nat. split; [lia|].
  eapply moves_trans; [exact Hm|]. apply moves_after. unfold hold. cbn [fst snd].
  by rewrite replicate_add, <- app_assoc.
Qed.

Lemma started_failed n s rs s' f i r w :
  started n s rs s' → r_val r ≠ 1 → started n s rs (after s' (A_thread_create f i) r w).
Proof.
  intros (k & Hk & Hm) Hr. exists k. split; [done|]. eapply moves_trans; [exact Hm|].
  apply moves_after. unfold hold. cbn [fst snd]. by rewrite (proj2 (Z.eqb_neq _ _) Hr).
Qed.

Lemma started_neutral n s rs s' s'' : started n s rs s' → neutral s' s'' → started n s rs s''.
Proof. intros (k & Hk & Hm) (_ & _ & Hm'). exists k. split; [done|]. by eapply moves_trans. Qed.

Lemma started_join n s rs s' m r w :
  started n s rs s' → started (n - Z.to_nat m) s rs (after s' (A_thread_join m) r w).
Proof.
  intros (k & Hk & Hm). exists (k - Z.to_nat m)%nat. split; [lia|]. eapply moves_trans; [exact Hm|].
  apply moves_after. unfold hold. cbn [fst snd]. by rewrite join_replicate.
Qed.

(** Processes count as threads. *)
Lemma started_fork n s rs s' cpus r w :
  started n s rs s' → 0 < r_val r → started (n + length cpus) s rs (after s' (A_process_fork_n cpus) r w).
Proof.
  intros (k & Hk & Hm) Hr. exists (length cpus + k)%nat. split; [lia|]. eapply moves_trans; [exact Hm|].
  apply moves_after. unfold hold. cbn [fst snd]. rewrite (proj2 (Z.ltb_lt _ _) Hr), replicate_add, <- app_assoc. done.
Qed.

Lemma started_no_fork n s rs s' cpus r w :
  started n s rs s' → r_val r = -1 → started n s rs (after s' (A_process_fork_n cpus) r w).
Proof.
  intros (k & Hk & Hm) Hr. exists k. split; [done|]. eapply moves_trans; [exact Hm|].
  apply moves_after. unfold hold. cbn [fst snd]. by rewrite Hr.
Qed.

Lemma started_wait n s rs s' m r w :
  started n s rs s' → started (n - Z.to_nat m) s rs (after s' (A_process_wait_n m) r w).
Proof.
  intros (k & Hk & Hm). exists (k - Z.to_nat m)%nat. split; [lia|]. eapply moves_trans; [exact Hm|].
  apply moves_after. unfold hold. cbn [fst snd]. by rewrite join_replicate.
Qed.

Lemma started_none s rs s' : started 0 s rs s' → moves s (R_nfp :: rs) s' (R_nfp :: rs).
Proof. intros (k & Hk & Hm). by replace k with 0%nat in Hm by lia. Qed.

(** Since [s0] the stack has been started, and then at most [n] threads. *)
Definition with_threads (n : nat) s0 s : Prop :=
  ∃ s1, moves s0 [] s1 [R_nfp] ∧ started n s1 [] s.

Lemma threads_none s0 s : with_threads 0 s0 s ↔ moves s0 [] s [R_nfp].
Proof.
  split; [|intros Hm; exists s; split; [done|apply started_0]].
  intros (s1 & Hm & Hst%started_none). by eapply moves_trans.
Qed.

Lemma threads_neutral n s0 s s' : with_threads n s0 s → neutral s s' → with_threads n s0 s'.
Proof. intros (s1 & Hm & Hst) Hn. exists s1. split; [done|]. by eapply started_neutral. Qed.

Lemma threads_create n s0 s f i r w :
  with_threads n s0 s → with_threads (S n) s0 (after s (A_thread_create f i) r w).
Proof. intros (s1 & Hm & Hst). exists s1. split; [done|]. by apply started_create. Qed.

Lemma threads_failed n s0 s f i r w :
  with_threads n s0 s → r_val r ≠ 1 → with_threads n s0 (after s (A_thread_create f i) r w).
Proof. intros (s1 & Hm & Hst) Hr. exists s1. split; [done|]. by apply started_failed. Qed.

Lemma threads_create_many n s0 s f m r w :
  with_threads n s0 s → with_threads (n + Z.to_nat (r_val r)) s0 (after s (A_threads_create f m) r w).
Proof. intros (s1 & Hm & Hst). exists s1. split; [done|]. by apply started_create_many. Qed.

Lemma threads_join n s0 s m r w :
  with_threads n s0 s → with_threads (n - Z.to_nat m) s0 (after s (A_thread_join m) r w).
Proof. intros (s1 & Hm & Hst). exists s1. split; [done|]. by apply started_join. Qed.

Lemma threads_fork n s0 s cpus r w :
  with_threads n s0 s → 0 < r_val r → with_threads (n + length cpus) s0 (after s (A_process_fork_n cpus) r w).
Proof. intros (s1 & Hm & Hst) Hr. exists s1. split; [done|]. by apply started_fork. Qed.

Lemma threads_no_fork n s0 s cpus r w :
  with_threads n s0 s → r_val r = -1 → with_threads n s0 (after s (A_process_fork_n cpus) r w).
Proof. intros (s1 & Hm & Hst) Hr. exists s1. split; [done|]. by apply started_no_fork. Qed.

Lemma threads_wait n s0 s m r w :
  with_threads n s0 s → with_threads (n - Z.to_nat m) s0 (after s (A_process_wait_n m) r w).
Proof. intros (s1 & Hm & Hst). exists s1. split; [done|]. by apply started_wait. Qed.

(** ** Reading the command line *)

Context `{!HasHeap G}.

Lemma wp_on_heap {A} (c : M CliArgParse.state A) (Q : A → st → Prop) s :
  wp c (λ a h, Q a (MkApp (world s) (nfp_errno s) (trace s) (put_heap h (glob s)))) (heap_of (glob s)) →
  wp (on_heap c) Q s.
Proof. intros (a & h & Hc & HQ). exists a. eexists. split; [|exact HQ]. unfold on_heap. by rewrite Hc. Qed.

Lemma ends_on_heap {A} (c : M CliArgParse.state A) (Q : A → st → Prop) X s :
  ends c (λ a h, Q a (MkApp (world s) (nfp_errno s) (trace s) (put_heap h (glob s))))
    (λ a h, X a (MkApp (world s) (nfp_errno s) (trace s) (put_heap h (glob s)))) (heap_of (glob s)) →
  ends (on_heap c) Q X s.
Proof. intros (o & h & Hc & HQ). exists o. eexists. split; [|exact HQ]. unfold on_heap. by rewrite Hc. Qed.

Lemma neutral_on_heap {A} (c : M CliArgParse.state A) :
  reads c → keeps neutral (on_heap c : M st A).
Proof.
  intros Hc s a s' H. unfold on_heap in H. destruct (c (heap_of (glob s))) as [o h] eqn:E.
  injection H as -> <-. apply Hc in E as ->. split_and!; [done|simpl; by rewrite put_same|].
  intros rs. exists []. by rewrite app_nil_r.
Qed.

(** Any use of memory, when [π] says nothing of it. *)
Lemma neutral_on_heap_any {A} (c : M CliArgParse.state A) :
  (∀ h g, π (put_heap h g) = π g) → keeps neutral (on_heap c : M st A).
Proof.
  intros Hπ s a s' H. unfold on_heap in H. destruct (c (heap_of (glob s))) as [o h].
  injection H as -> <-. split_and!; [done|apply Hπ|]. intros rs. exists []. by rewrite app_nil_r.
Qed.

Lemma neutral_arg_string p : keeps neutral (arg_string p : M st _).
Proof.
  destruct p; simpl; [|apply keeps_ret, _].
  apply keeps_bind; [apply _|apply neutral_on_heap, reads_string|intros; apply keeps_ret, _].
Qed.

Lemma arg_string_ok s p :
  readable (heap_of (glob s)) p →
  wp (arg_string p) (λ o _, is_Some p → is_Some o) s.
Proof.
  destruct p as [p|]; [|by intros _; apply wp_ret]. intros [t Ht]. apply wp_bind, wp_on_heap.
  destruct (read_copy _ _ _ Ht) as [u Hu]. exists u. eexists. split; [exact Hu|]. apply wp_ret. eauto.
Qed.

Lemma same_on_heap {A} (c : M CliArgParse.state A) :
  reads c → keeps eq (on_heap c : M st A).
Proof.
  intros Hc s a s' H. unfold on_heap in H. destruct (c (heap_of (glob s))) as [o h] eqn:E.
  injection H as -> <-. apply Hc in E as ->. rewrite put_same. by destruct s.
Qed.

Lemma same_arg_string p : keeps eq (arg_string p : M st _).
Proof.
  destruct p; simpl; [|apply keeps_ret, _].
  apply keeps_bind; [apply _|apply same_on_heap, reads_string|intros; apply keeps_ret, _].
Qed.

Lemma read_entry_wp s es i e (Q : CliArgParse.appl_arg_if → st → Prop) :
  listed (heap_of (glob s)) es → es !! i = Some e → Q e s → wp (on_heap (CliArgParse.read_entry i)) Q s.
Proof.
  intros Hl He HQ. apply wp_on_heap. exists e. eexists. split; [by eapply read_entry_ok|].
  rewrite put_same. by destruct s.
Qed.

(** ** A program with its command line, the stack and threads *)

(** Memory has [k] strings at most and the interfaces; the stack has been
    started since [s0], then at most [n] threads. *)
Definition working (k : nat) (b0 : memory) (n : nat) s0 s : Prop :=
  kept k b0 (heap_of (glob s)) ∧ with_threads n s0 s.

(** At the end: all given back but the strings. *)
Definition ended (k : nat) (b0 : memory) s0 s : Prop :=
  spare k b0 (heap_of (glob s)) ∧ moves s0 [] s [].

Lemma working_same k b0 n s0 s s' :
  working k b0 n s0 s → glob s' = glob s → with_threads n s0 s' → working k b0 n s0 s'.
Proof. intros [Hk _] Hg Ht. split; [by rewrite Hg|done]. Qed.

Lemma working_join k b0 n s0 s m r w :
  working k b0 n s0 s → working k b0 (n - Z.to_nat m) s0 (after s (A_thread_join m) r w).
Proof. intros [Hk Ht]. split; [done|]. by apply threads_join. Qed.

Lemma release_ok k b0 s :
  kept k b0 (heap_of (glob s)) →
  wp (on_heap (CliArgParse.nfpexpl_parse_interfaces_param_cleanup true)) (λ _ s',
    trace s' = trace s ∧ world s' = world s ∧ spare k b0 (heap_of (glob s'))) s.
Proof.
  intros Hk. apply wp_on_heap. eapply wp_mono; [|by apply cleanup_kept]. intros [] h Hc. simpl.
  by rewrite heap_put.
Qed.

Lemma terminate_ok k b0 s0 s :
  working k b0 0 s0 s →
  wp (call_ A_terminate;; on_heap (CliArgParse.nfpexpl_parse_interfaces_param_cleanup true))
    (λ _ s', ended k b0 s0 s') s.
Proof.
  intros [Hk Hm%threads_none]. apply wp_bind, wp_call_. intros r w E. eapply wp_mono; [|by apply release_ok].
  intros [] s' (Ht & _ & Hc). split; [done|]. eapply moves_trans; [exact Hm|].
  exists [(A_terminate, r)]. by rewrite Ht.
Qed.
End Resources.

(** Run through calls and tests of which nothing need be known. *)
Ltac runs :=
  repeat first
    [ progress cbn beta
    | exact I
    | progress intros
    | match goal with
      | |- wp (mbind _ _) _ _ => apply wp_bind
      | |- wp (mret _) _ _ => apply wp_ret
      | |- wp (call _) _ _ => apply wp_call
      | |- wp (callv _) _ _ => apply wp_callv
      | |- wp (call_ _) _ _ => apply wp_call_
      | |- wp (getg _) _ _ => apply wp_getg
      | |- wp (setg _) _ _ => apply wp_setg
      | |- wp (match ?x with _ => _ end) _ _ => destruct x
      end ].

(** ** Frames for descriptors *)

Section Idle.
Context {W F G : Type} `{!App W F, !SocketLaws W F, !HasHeap G}.
Local Abbreviation st := (app W F G).

Lemma idle_call_keeps c : idle_call c = true → keeps idle (call c : M st _).
Proof.
  intros Hc s a s' H. unfold call in H. destruct (api c (world s)) as [r w] eqn:E.
  injection H as <- <-. by apply idle_after.
Qed.
Lemma idle_callv c : idle_call c = true → keeps idle (callv c : M st Z).
Proof. intros. apply keeps_bind; [apply _|by apply idle_call_keeps|intros; apply keeps_ret, _]. Qed.
Lemma idle_call_ c : idle_call c = true → keeps idle (call_ c : M st unit).
Proof. intros. apply keeps_bind; [apply _|by apply idle_call_keeps|intros; apply keeps_ret, _]. Qed.
Lemma idle_getg {A} (f : G → A) : keeps idle (getg f : M st A).
Proof. apply keeps_gets, _. Qed.
Lemma idle_setg f : keeps idle (setg f : M st unit).
Proof. intros s a s' [= <- <-]. by apply idle_same. Qed.
Lemma idle_on_heap {A} (c : M CliArgParse.state A) : keeps idle (on_heap c : M st A).
Proof.
  intros s a s' H. unfold on_heap in H. destruct (c (heap_of (glob s))) as [o h].
  injection H as -> <-. by apply idle_same.
Qed.
Lemma idle_arg_string p : keeps idle (arg_string p : M st _).
Proof.
  destruct p; simpl; [|apply keeps_ret, _].
  apply keeps_bind; [apply _|apply idle_on_heap|intros; apply keeps_ret, _].
Qed.
End Idle.

Lemma working_neutral {W F G : Type} `{!App W F, !SocketLaws W F, !HasHeap G} k b0 n (s0 s s' : app W F G) :
  working k b0 n s0 s → neutral (λ g, g) s s' → working k b0 n s0 s'.
Proof.
  intros [Hk Ht] Hn. split; [|by eapply threads_neutral]. by destruct Hn as (_ & -> & _).
Qed.

Section Create.
Context {W F G : Type} `{!App W F, !HasHeap G} (k : nat) (b0 : memory).
Implicit Types (s : app W F G).

Lemma working_create n s0 s f i r w :
  working k b0 n s0 s → working k b0 (if r_val r =? 1 then S n else n) s0 (after s (A_thread_create f i) r w).
Proof.
  intros [Hk Ht]. split; [done|].
  destruct (Z.eqb_spec (r_val r) 1); [by apply threads_create|by apply threads_failed].
Qed.

(** The loop that starts the workers, one by one. *)
Lemma create_loop_ok func first num s0 s :
  0 ≤ num → working k b0 0 s0 s →
  wp (for_ret 0 (Z.to_nat num) (λ i _,
        r ← callv (A_thread_create func (first + i));
        if negb (r =? 1) then mret (inr i) else mret (inl ())) ())
    (λ r s', glob s' = glob s ∧
       match r with
       | inl _ => working k b0 (Z.to_nat num) s0 s'
       | inr i => 0 ≤ i ∧ working k b0 (Z.to_nat i) s0 s'
       end) s.
Proof.
  intros Hnum Hw. eapply wp_mono; [|eapply (wp_for_ret _ (λ i _ s', glob s' = glob s ∧ working k b0 (Z.to_nat i) s0 s')
    (λ i s', glob s' = glob s ∧ 0 ≤ i ∧ working k b0 (Z.to_nat i) s0 s'))].
  - intros [[]|i] s' H; [|done]. by rewrite Z.add_0_l, Nat2Z.id in H.
  - done.
  - intros i [] s1 Hi [Hg Hw1]. apply wp_bind, wp_callv. intros r w E.
    pose proof (working_create _ _ _ func (first + i) r w Hw1) as Hw2.
    destruct (r_val r =? 1); apply wp_ret; [|split_and!; [done|lia|done]].
    by replace (Z.to_nat (i + 1)) with (S (Z.to_nat i)) by lia.
Qed.
End Create.

(** What another component does with its part of the globals. *)
Section Zoom.
Context {W F G H P : Type} `{!App W F, !SocketLaws W F} (π : G → P) (get : G → H) (put : H → G → G).

Lemma wp_zoom {A} (c : M (app W F H) A) (Q : A → app W F G → Prop) (s : app W F G) :
  wp c (λ a s', Q a (MkApp (world s') (nfp_errno s') (trace s') (put (glob s') (glob s))))
    (MkApp (world s) (nfp_errno s) (trace s) (get (glob s))) →
  wp (zoom get put c) Q s.
Proof.
  intros (a & s' & Hc & HQ). exists a. eexists. split; [|exact HQ]. unfold zoom. by rewrite Hc.
Qed.

Lemma neutral_zoom {A} (c : M (app W F H) A) :
  (∀ h g, π (put h g) = π g) → keeps (neutral (λ _, ())) c → keeps (neutral π) (zoom get put c).
Proof.
  intros Hπ Hc s a s' Hrun. unfold zoom in Hrun. destruct (c _) as [o s1] eqn:E. injection Hrun as -> <-.
  apply Hc in E as (Hb & _ & Hm). split_and!; [exact Hb|apply Hπ|]. intros rs.
  destruct (Hm rs) as (t & Ht & Hh). by exists t.
Qed.
End Zoom.

(** The frames of calls and of readings of the command line. *)
#[export] Hint Resolve neutral_getg neutral_arg_string idle_getg idle_setg idle_on_heap idle_arg_string : keeps.
#[export] Hint Extern 1 (keeps idle (call _)) => apply idle_call_keeps; reflexivity : keeps.
#[export] Hint Extern 1 (keeps idle (callv _)) => apply idle_callv; reflexivity : keeps.
#[export] Hint Extern 1 (keeps idle (call_ _)) => apply idle_call_; reflexivity : keeps.
#[export] Hint Extern 1 (keeps (neutral _) (call _)) => apply neutral_call_keeps; reflexivity : keeps.
#[export] Hint Extern 1 (keeps (neutral _) (callv _)) => apply neutral_callv; reflexivity : keeps.
#[export] Hint Extern 1 (keeps (neutral _) (call_ _)) => apply neutral_call_; reflexivity : keeps.
#[export] Hint Extern 1 (keeps (neutral _) (setg _)) => apply neutral_setg; reflexivity : keeps.
#[export] Hint Extern 1 (keeps (neutral _) (on_heap _)) =>
  apply neutral_on_heap; first [apply reads_string | apply reads_entry] : keeps.

End Resources.
