(* ===== verification/Httpd.v ===== *)
(** * The web server (example/webserver/httpd.c)

    A single-threaded HTTP server over the fast-path sockets, with a table of
    1024 connections and two main loops, one over [nfp_select] and one over
    [nfp_epoll_wait].  One definition per C function; logging is left out.

    A C string in a buffer is its bytes up to the terminating 0.  A pointer
    [&connections[i]] stored in an epoll event is the index [i]. *)

From S2P Require Import Prelude Errno App.
Import App.

Module Httpd.

(** ** C strings *)

(** The string at the start of a buffer. *)
Fixpoint cstr (b : bytes) : bytes :=
  match b with [] => [] | c :: b' => if c =? 0 then [] else c :: cstr b' end.

(** [strchr]: what is before the first [c]; [None] when there is none. *)
Fixpoint before (c : Z) (s : bytes) : option bytes :=
  match s with
  | [] => None
  | x :: s' => if x =? c then Some [] else (x ::.) <$> before c s'
  end.

(** [strrchr]: what is after the last [c]. *)
Fixpoint after_last (c : Z) (s : bytes) : option bytes :=
  match s with
  | [] => None
  | x :: s' => match after_last c s' with
               | Some r => Some r
               | None => if x =? c then Some s' else None
               end
  end.

(** [while ( *url == ' ') url++;] *)
Fixpoint skip_spaces (s : bytes) : bytes :=
  match s with c :: s' => if c =? 32 then skip_spaces s' else s | [] => [] end.

(** [!strncmp(s, p, strlen(p))] *)
Definition starts_with (p s : bytes) : bool := bool_decide (take (length p) s = p).

Definition crlf : bytes := [13; 10].

(** The comparisons of [get_file], in order. *)
Definition mime_types : list (bytes * bytes) :=
  [(text "html", text "text/html"); (text "htm", text "text/html");
   (text "css", text "text/css"); (text "txt", text "text/plain");
   (text "png", text "image/png"); (text "jpg", text "image/jpg");
   (text "class", text "application/x-java-applet");
   (text "jar", text "application/java-archive");
   (text "pdf", text "application/pdf");
   (text "swf", text "application/x-shockwave-flash");
   (text "ico", text "image/vnd.microsoft.icon");
   (text "js", text "text/javascript")].

Fixpoint mime_lookup (l : list (bytes * bytes)) (ext : bytes) : option bytes :=
  match l with
  | [] => None
  | (e, m) :: l' => if bool_decide (ext = e) then Some m else mime_lookup l' ext
  end.

Definition mime_of (file_name : bytes) : option bytes :=
  match after_last 46 file_name with
  | Some p2 => mime_lookup mime_types p2
  | None => None
  end.

(** ** State *)

Definition NUM_EPOLL_EVT : Z := 10.
Definition NUM_CONNECTIONS : Z := 1024.

Record connection_t := Conn { fd : Z; addr : Z }.

Record webserver_arg_t := WebArg { root_dir : bytes; lport : Z; use_epoll : bool }.

Record httpd := MkHttpd { connections : list connection_t; web_arg : webserver_arg_t }.

Section Httpd.
Context {W F : Type} `{!App W F}.

(** ** Sending *)

Section Send.
Context {G : Type}.
Local Abbreviation MA := (M (app W F G)).

(** One turn of the loop of [mysend]: [p] is the rest of the buffer. *)
Definition mysend_step (s : Z) (st : bytes * Z) : MA (bytes * Z + Z) :=
  let '(p, len) := st in
  if 0 <? len then
    if Z.of_nat (length p) <? len then stuck else
    n ← callv (A_send s (take (Z.to_nat len) p) 0);
    if n <? 0 then mret (inr n) else mret (inl (drop (Z.to_nat n) p, len - n))
  else mret (inr len).

Definition mysend (fuel : nat) (s : Z) (p : bytes) (len : Z) : MA Z :=
  loop fuel (mysend_step s) (p, len).

(** [line] is the formatted text: [vsnprintf] stores at most 1023 bytes of
    it and a 0, and returns its full length. *)
Definition sendf (fuel : nat) (fd : Z) (line : bytes) : MA Z :=
  mysend fuel fd (take 1023 line ++ [0]) (Z.of_nat (length line)).

(** [while ((n = fread(...)) > 0) if ((w = mysend(...)) < 0) break;]; the
    loop state is the contents of [bufo]. *)
Definition copy_step (fuel : nat) (s f : Z) (bufo : bytes) : MA (bytes + unit) :=
  r ← call (A_fread f 512);
  let bufo' := r_data r ++ drop (length (r_data r)) bufo in
  if 0 <? r_val r then
    w ← mysend fuel s bufo' (r_val r);
    if w <? 0 then mret (inr ()) else mret (inl bufo')
  else mret (inr ()).

(** The part of [get_file] after the file name is known. *)
Definition serve_file (fuel : nat) (s : Z) (root file_name : bytes) : MA unit :=
  let mime := mime_of file_name in
  let path := take 511 (root ++ [47] ++ file_name) in
  f ← callv (A_fopen path);
  if f =? 0 then
    _ ← sendf fuel s (text "HTTP/1.0 404 NOK" ++ crlf ++ crlf); mret ()
  else
    call_ (A_setsockopt s NFP_IPPROTO_TCP NFP_TCP_NOPUSH [1]);;
    _ ← sendf fuel s (text "HTTP/1.0 200 OK" ++ crlf);
    _ ← (match mime with
         | Some m => sendf fuel s (text "Content-Type: " ++ m ++ crlf ++ crlf)
         | None => sendf fuel s crlf
         end);
    loop fuel (copy_step fuel s f) (path ++ [0]);;
    call_ (A_setsockopt s NFP_IPPROTO_TCP NFP_TCP_NOPUSH [0]);;
    call_ (A_fclose f).
End Send.

Local Abbreviation MH := (M (app W F httpd)).

(** [url] is NULL or a string. *)
Definition get_file (fuel : nat) (s : Z) (url : option bytes) : MH unit :=
  let file_name :=
    match url with
    | None | Some [] => text "index.html"
    | Some (c :: r) => if c =? 47 then r else c :: r
    end in
  root ← getg (λ g, root_dir (web_arg g));
  serve_file fuel s root file_name.

Definition analyze_http (fuel : nat) (http : bytes) (s : Z) : MH Z :=
  if starts_with (text "GET ") http then
    match before 32 (skip_spaces (drop 4 http)) with
    | Some url => get_file fuel s (Some url);; mret 0
    | None => mret (-1)
    end
  else mret 0.

(** ** The connection table *)

Definition set_conn (i : Z) (c : connection_t) : MH unit :=
  l ← getg connections;
  if (0 <=? i) && (i <? Z.of_nat (length l)) then
    setg (λ g, MkHttpd (<[Z.to_nat i := c]> (connections g)) (web_arg g))
  else stuck.

Definition get_conn (i : Z) : MH connection_t :=
  l ← getg connections;
  if 0 <=? i then of_option (l !! Z.to_nat i) else stuck.

Definition set_fd (i v : Z) : MH unit := c ← get_conn i; set_conn i (Conn v (addr c)).

Definition monitor_connections (fd_set : F) : MH F :=
  for_acc 0 (Z.to_nat NUM_CONNECTIONS) (λ i set,
    c ← get_conn i;
    mret (if negb (fd c =? -1) then NFP_FD_SET (fd c) set else set)) fd_set.

(** The search loop: the first free entry, or [NUM_CONNECTIONS]. *)
Fixpoint free_slot (l : list connection_t) : nat :=
  match l with
  | [] => 0%nat
  | c :: l' => if fd c =? -1 then 0%nat else S (free_slot l')
  end.

(** The result is the descriptor or -1, and [*con_id] when it is stored. *)
Definition accept_connection (serv_fd : Z) : MH (Z * option Z) :=
  l ← getg connections;
  let i := Z.of_nat (free_slot (take (Z.to_nat NUM_CONNECTIONS) l)) in
  if NUM_CONNECTIONS <=? i then mret (-1, None)
  else
    r ← call (A_accept serv_fd);
    if r_val r <? 0 then mret (-1, None)
    else
      call_ (A_setsockopt (r_val r) NFP_SOL_SOCKET NFP_SO_SNDTIMEO [3; 0]);;
      set_conn i (Conn (r_val r) (r_out r));;
      mret (r_val r, Some i).

(** [while (nfp_close(fd) < 0) { if (reset) break; sleep(1); }] *)
Definition close_step (fd : Z) (_ : unit) : MH (unit + unit) :=
  r ← callv (A_close fd);
  if r <? 0 then
    e ← gets nfp_errno;
    if e =? Errno.NFP_ECONNRESET then mret (inr ())
    else call_ (A_sleep 1);; mret (inl ())
  else mret (inr ()).

Definition handle_connection (fuel : nat) (i : Z) : MH Z :=
  c ← get_conn i;
  if fd c =? -1 then mret (-1)
  else
    r ← call (A_recv (fd c) (1024 - 1) 0);
    if r_val r <? 0 then mret (-1)
    else if 0 <? r_val r then
      if negb (r_val r <? 1024) then stuck else
      let buf := cstr (take (Z.to_nat (r_val r)) (r_data r)) in
      (if starts_with (text "GET") buf
       then _ ← analyze_http fuel buf (fd c); mret ()
       else mret ());;
      loop fuel (close_step (fd c)) ();;
      set_fd i (-1);;
      mret 0
    else
      call_ (A_close (fd c));;
      set_fd i (-1);;
      mret 0.

(** ** The main loops *)

(** [*is_running] *)
Definition running : MH bool := r ← callv A_is_running; mret (negb (r =? 0)).

(** The pass over the table after [nfp_select]. *)
Definition serve_ready (fuel : nat) (read_fd : F) : MH F :=
  for_acc 0 (Z.to_nat NUM_CONNECTIONS) (λ i set,
    c ← get_conn i;
    if negb (fd c =? -1) && NFP_FD_ISSET (fd c) set then
      _ ← handle_connection fuel i;
      mret (NFP_FD_CLR (fd c) set)
    else mret set) read_fd.

(** The new connection, if any, and the pass over the table. *)
Definition select_ready (fuel : nat) (serv_fd : Z) (read_fd : F) (nfds : Z) : MH (F * Z) :=
  nfds' ← (if NFP_FD_ISSET serv_fd read_fd then
             a ← accept_connection serv_fd;
             mret (if nfds <? a.1 then a.1 else nfds)
           else mret nfds);
  read_fd' ← serve_ready fuel read_fd;
  mret (read_fd', nfds').

(** One turn of [while ( *is_running)]; the loop state is [read_fd] and
    [nfds]. *)
Definition select_step (fuel : nat) (serv_fd : Z) (st : F * Z) : MH (F * Z + F) :=
  let '(read_fd, nfds) := st in
  run ← running;
  if negb run then mret (inr read_fd)
  else
    set ← monitor_connections (NFP_FD_SET serv_fd read_fd);
    r ← call (A_select (nfds + 1) (Some set) None 0 200000);
    if r_val r <=? 0 then
      if r_val r =? 0 then mret (inl (r_set r, nfds)) else mret (inr (r_set r))
    else
      st' ← select_ready fuel serv_fd (r_set r) nfds;
      mret (inl st').

Definition webserver_select (fuel : nat) (serv_fd : Z) : MH Z :=
  st ← callv A_get_processing_state;
  if st =? 0 then mret (-1)
  else
    read_fd ← loop fuel (select_step fuel serv_fd) (NFP_FD_ZERO, serv_fd);
    _ ← for_acc 0 (Z.to_nat NUM_CONNECTIONS) (λ i set,
          c ← get_conn i;
          if fd c =? -1 then mret set
          else
            call_ (A_close (fd c));;
            set_fd i (-1);;
            mret (NFP_FD_CLR (fd c) set)) read_fd;
    call_ (A_close serv_fd);;
    mret 0.

(** The body of the loop over the events. *)
Definition epoll_event (fuel : nat) (epfd serv_fd : Z) (ptr : Z) : MH unit :=
  conn ← get_conn ptr;
  if fd conn =? serv_fd then
    a ← accept_connection serv_fd;
    if a.1 =? -1 then mret ()
    else
      conn_id ← of_option a.2;
      call_ (A_epoll_ctl epfd NFP_EPOLL_CTL_ADD a.1 (Some (NFP_EPOLLIN, conn_id)))
  else
    _ ← handle_connection fuel ptr;
    call_ (A_epoll_ctl epfd NFP_EPOLL_CTL_DEL (fd conn) None).

Definition epoll_step (fuel : nat) (epfd serv_fd : Z) (_ : unit) : MH (unit + unit) :=
  run ← running;
  if negb run then mret (inr ())
  else
    r ← call (A_epoll_wait epfd NUM_EPOLL_EVT 200);
    if r_val r <? 0 then mret (inr ())
    else
      for_from 0 (Z.to_nat (r_val r)) (λ i,
        ev ← of_option (r_list r !! Z.to_nat i);
        epoll_event fuel epfd serv_fd ev.2);;
      mret (inl ()).

Definition webserver_epoll (fuel : nat) (serv_fd : Z) : MH Z :=
  epfd ← callv (A_epoll_create 1);
  if epfd =? -1 then mret (-1)
  else
    set_fd 0 serv_fd;;
    call_ (A_epoll_ctl epfd NFP_EPOLL_CTL_ADD serv_fd (Some (NFP_EPOLLIN, 0)));;
    st ← callv A_get_processing_state;
    if st =? 0 then mret (-1)
    else
      loop fuel (epoll_step fuel epfd serv_fd) ();;
      for_from 0 (Z.to_nat NUM_CONNECTIONS) (λ i,
        c ← get_conn i;
        if fd c =? -1 then mret ()
        else
          call_ (A_epoll_ctl epfd NFP_EPOLL_CTL_DEL (fd c) None);;
          call_ (A_close (fd c));;
          set_fd i (-1));;
      call_ (A_close epfd);;
      mret 0.

(** ** Start *)

Definition create_server_socket : MH Z :=
  ifnet ← callv (A_ifport_ifnet_get 0 NFP_IFPORT_NET_SUBPORT_ITF);
  if ifnet =? 0 then mret (-1)
  else
    r ← call (A_ifnet_ipv4_addr_get ifnet NFP_IFNET_IP_TYPE_IP_ADDR);
    if negb (r_val r =? 0) then mret (-1)
    else
      serv_fd ← callv (A_socket NFP_AF_INET NFP_SOCK_STREAM NFP_IPPROTO_TCP);
      if serv_fd <? 0 then mret (-1)
      else
        port ← getg (λ g, lport (web_arg g));
        let my_addr := Sin sizeof_sockaddr_in NFP_AF_INET (odp_cpu_to_be_16 port) (r_out r)
                         sizeof_sockaddr in
        b ← callv (A_bind serv_fd my_addr);
        if b <? 0 then call_ (A_close serv_fd);; mret (-1)
        else
          l ← callv (A_listen serv_fd 10);
          if negb (l =? 0) then call_ (A_close serv_fd);; mret (-1)
          else mret serv_fd.

(** The thread function; [arg] is NULL or the arguments there. *)
Definition webserver (fuel : nat) (arg : option webserver_arg_t) : MH Z :=
  match arg with
  | None => mret (-1)
  | Some a =>
      call_ (A_sleep 1);;
      setg (λ g, MkHttpd (connections g) a);;
      for_from 0 (Z.to_nat NUM_CONNECTIONS) (λ i, set_fd i (-1));;
      serv_fd ← create_server_socket;
      if serv_fd =? -1 then mret (-1)
      else
        e ← getg (λ g, use_epoll (web_arg g));
        if (e : bool) then webserver_epoll fuel serv_fd else webserver_select fuel serv_fd
  end.

(** The thread functions this file starts. *)
Definition THREAD_webserver : Z := 1.
Definition nfp_start_webserver_thread {G} (core_id : Z) : M (app W F G) Z :=
  callv (A_thread_create THREAD_webserver core_id).
End Httpd.

End Httpd.
