(* ===== verification/HttpdProofs.v ===== *)
(** * The web server: sending

    What one request puts on the socket. *)

From S2P Require Import Prelude Errno App AppProofs Httpd.
Import App AppProofs Httpd.

Module HttpdProofs.

(** ** Sending *)

Section Send.
Context {W F G : Type} `{!App W F, !SocketLaws W F}.
Context (rule : list (event F) → acall F → Prop) (Hrule : lenient rule).
Context (o0 : gset Z) (fuel : nat).
Implicit Types (s : app W F G) (live : gset Z).

(** [s'] continues [s] without touching the globals, and the calls between
    them satisfy [P]. *)
Definition continues s s' (P : list (event F) → Prop) : Prop :=
  glob s' = glob s ∧ (budget (world s') ≤ budget (world s))%nat ∧
  ∃ t, trace s' = trace s ++ t ∧ P t.

Lemma continues_trans s1 s2 s3 (P P' Q : list (event F) → Prop) :
  continues s1 s2 P → continues s2 s3 P' → (∀ t t', P t → P' t' → Q (t ++ t')) →
  continues s1 s3 Q.
Proof.
  intros (Hg & Hb & t & Ht & HP) (Hg' & Hb' & t' & Ht' & HP') HQ.
  split; [congruence|]. split; [lia|].
  exists (t ++ t'). rewrite Ht', Ht, app_assoc. auto.
Qed.

Lemma continues_call s c r w (P : list (event F) → Prop) :
  api c (world s) = (r, w) → P [(c, r)] → continues s (after s c r w) P.
Proof. intros E HP. split_and!; [done|by eapply budget_le|]. by exists [(c, r)]. Qed.

Lemma continues_refl s (P : list (event F) → Prop) : P [] → continues s s P.
Proof. intros. split_and!; [done..|]. exists []. by rewrite app_nil_r. Qed.

(** The calls of one transmission: nothing is read from a file, and unless a
    send failed the bytes [b] went out on [sd]. *)
Definition transmits (sd : Z) (b : bytes) (t : list (event F)) : Prop :=
  (∀ f, file_read f t = []) ∧ (sends_ok t → sent sd t = b).

(** The state of [mysend]: what is sent and what is left make up the data. *)
Definition sending (sd : Z) (p : bytes) (len : Z) (st : bytes * Z) (t : list (event F)) : Prop :=
  (∀ f, file_read f t = []) ∧
  (sends_ok t → 0 ≤ st.2 ∧ take (Z.to_nat len) p = sent sd t ++ take (Z.to_nat st.2) st.1).

Lemma sending_send sd p len p' l t r :
  sending sd p len (p', l) t → l ≤ Z.of_nat (length p') → 0 < l → 0 ≤ r_val r →
  sending sd p len (drop (Z.to_nat (r_val r)) p', l - r_val r)
    (t ++ [(A_send sd (take (Z.to_nat l) p') 0, r)]).
Proof.
  intros [Hr Hs] Hl Hpos Hval. split; [intros f; by rewrite file_read_app, Hr|].
  intros [Hok Hx%sends_ok_send]%sends_ok_app. cbn [fst snd].
  rewrite length_take in Hx. split; [lia|].
  rewrite sent_app. unfold sent at 2. simpl. unfold sent_by. simpl.
  rewrite Z.eqb_refl, app_nil_r. destruct (Hs Hok) as [_ ->]. simpl.
  rewrite <- app_assoc. f_equal.
  replace (Z.to_nat (l - r_val r)) with (Z.to_nat l - Z.to_nat (r_val r))%nat by lia.
  by rewrite <- skipn_firstn_comm, take_drop.
Qed.

Lemma sending_failed sd p len st t c r n :
  sending sd p len st t → c = A_send sd (take (Z.to_nat st.2) st.1) 0 → r_val r < 0 →
  transmits sd (take (Z.to_nat len) p) (t ++ [(c, r)]) ∧ (sends_ok (t ++ [(c, r)]) → n = 0).
Proof.
  intros [Hr _] -> Hneg.
  assert (Hno : ¬ sends_ok (t ++ [(A_send sd (take (Z.to_nat st.2) st.1) 0, r)])).
  { intros [_ Hx%sends_ok_send]%sends_ok_app. lia. }
  split; [split|]; [|done..]. intros f. by rewrite file_read_app, Hr.
Qed.

Lemma sending_done sd p len p' l t :
  sending sd p len (p', l) t → l ≤ 0 →
  transmits sd (take (Z.to_nat len) p) t ∧ (sends_ok t → l = 0).
Proof.
  intros [Hr Hs] Hl. split; [split; [done|]|]; intros Hok;
    destruct (Hs Hok) as [Hl0 He]; simpl in *; [|lia].
  replace (Z.to_nat l) with 0%nat in He by lia. by rewrite app_nil_r in He.
Qed.

Lemma mysend_ok live s sd p len :
  fine rule o0 live fuel s → sd ∈ live → 0 ≤ len ≤ 2048 → len ≤ Z.of_nat (length p) →
  wp (mysend fuel sd p len) (λ n s',
    fine rule o0 live fuel s' ∧
    continues s s' (λ t, transmits sd (take (Z.to_nat len) p) t ∧ (sends_ok t → n = 0))) s.
Proof.
  intros Hf Hsd Hlen Hp. unfold mysend.
  eapply wp_loop with
    (I := λ st s', fine rule o0 live fuel s' ∧ (0 < st.2 → st.2 ≤ Z.of_nat (length st.1)) ∧
            continues s s' (sending sd p len st))
    (μ := λ st s', (Z.to_nat st.2 + budget (world s'))%nat).
  - intros [p' l] s' (Hf' & Hp' & Hc). simpl in Hp'. unfold mysend_step.
    destruct (Z.ltb_spec 0 l) as [Hl|Hl].
    2: { apply wp_ret. split; [done|]. eapply continues_trans;
           [done|by apply (continues_refl _ (eq []))|].
         intros t t' Hs <-. rewrite app_nil_r. by apply sending_done in Hs. }
    destruct (Z.ltb_spec (Z.of_nat (length p')) l); [lia|].
    apply wp_bind, wp_callv. intros r w E.
    assert (Hf2 : fine rule o0 live fuel (after s' (A_send sd (take (Z.to_nat l) p') 0) r w)).
    { eapply fine_plain; [done..|by eapply call_ok_some|done]. }
    pose proof (continues_call _ _ _ _ (eq [(A_send sd (take (Z.to_nat l) p') 0, r)]) E eq_refl).
    destruct (Z.ltb_spec (r_val r) 0) as [Hv|Hv]; apply wp_ret.
    + split; [done|]. eapply continues_trans; [done..|]. intros t ? Hs <-.
      by eapply sending_failed.
    + simpl. split.
      * split_and!; [done|rewrite length_drop; lia|]. eapply continues_trans; [done..|].
        intros t ? Hs <-. apply sending_send; [done|lia..].
      * pose proof (budget_step _ _ _ _ E) as Hb. unfold again in Hb. simpl in Hb.
        destruct (Z.eqb_spec (r_val r) 0); lia.
  - split_and!; [done|simpl; lia|]. apply continues_refl. split; [done|].
    intros _. split; [simpl; lia|done].
  - simpl. destruct Hf as (_ & He & _). unfold enough in He. lia.
Qed.

Lemma sendf_ok live s sd line :
  fine rule o0 live fuel s → sd ∈ live → (length line <= 1023)%nat →
  wp (sendf fuel sd line) (λ _ s',
    fine rule o0 live fuel s' ∧ continues s s' (transmits sd line)) s.
Proof.
  intros Hf Hsd Hline. unfold sendf.
  assert (Htake : take (Z.to_nat (Z.of_nat (length line))) (take 1023 line ++ [0]) = line).
  { rewrite Nat2Z.id, (take_ge line 1023) by done. by rewrite take_app_length. }
  eapply wp_mono; [|apply (mysend_ok live); [done..|lia|]].
  - intros n s' [Hf' (? & ? & t & Ht & Htr & _)]. split; [done|]. split_and!; [done..|].
    exists t. by rewrite Htake in Htr.
  - rewrite length_app, (take_ge line 1023) by done. simpl. lia.
Qed.

(** The end of the file was reached. *)
Definition at_eof (f : Z) (t : list (event F)) : Prop :=
  ∃ len r, (A_fread f len, r) ∈ t ∧ r_val r = 0.

(** The calls of the copy loop: what was read from the file was sent. *)
Definition copies (sd f : Z) (t : list (event F)) : Prop := sends_ok t → sent sd t = file_read f t.

Lemma transmits_sent sd b t f : transmits sd b t → sends_ok t → sent sd t = b ∧ file_read f t = [].
Proof. intros [Hr Hs] ?. auto. Qed.

Lemma copies_chunk sd f t len (r : areply F) t' :
  copies sd f t → transmits sd (r_data r) t' →
  copies sd f ((t ++ [(A_fread f len, r)]) ++ t').
Proof.
  intros Hc Ht [[Hok _]%sends_ok_app Hok']%sends_ok_app.
  destruct (transmits_sent _ _ _ f Ht Hok') as [Hs Hr].
  rewrite !sent_app, !file_read_app, Hs, Hr, (Hc Hok). cbn. unfold read_by. cbn.
  by rewrite Z.eqb_refl, !app_nil_r.
Qed.

Lemma copies_eof sd f t len (r : areply F) :
  copies sd f t → r_data r = [] → copies sd f (t ++ [(A_fread f len, r)]).
Proof.
  intros Hc Hd [Hok _]%sends_ok_app. rewrite sent_app, file_read_app, (Hc Hok). cbn.
  unfold read_by. cbn. by rewrite Z.eqb_refl, Hd.
Qed.

Lemma copy_ok live s sd f bufo :
  fine rule o0 live fuel s → sd ∈ live →
  wp (loop fuel (copy_step fuel sd f) bufo) (λ _ s',
    fine rule o0 live fuel s' ∧ continues s s' (λ t, copies sd f t ∧ (sends_ok t → at_eof f t))) s.
Proof.
  intros Hf Hsd.
  eapply wp_loop with
    (I := λ _ s', fine rule o0 live fuel s' ∧ continues s s' (copies sd f))
    (μ := λ _ s', budget (world s')).
  - clear bufo. intros bufo s' [Hf' Hc]. unfold copy_step.
    apply wp_bind, wp_call. intros r w E.
    destruct (fread_fits _ _ _ _ _ E) as [Hfit Hlen]; [lia|].
    assert (Hf2 : fine rule o0 live fuel (after s' (A_fread f 512) r w)).
    { eapply fine_plain; [done..|by eapply call_ok_none|done]. }
    pose proof (continues_call _ _ _ _ (eq [(A_fread f 512, r)]) E eq_refl) as Hread.
    destruct (Z.ltb_spec 0 (r_val r)) as [Hv|Hv].
    + apply wp_bind. eapply wp_mono; [|apply (mysend_ok live); [done..|lia|]].
      2: { rewrite length_app. lia. }
      rewrite Hlen, Nat2Z.id, take_app_length.
      intros n s2 [Hf3 Hc3].
      assert (Hall : continues s s2 (λ t, copies sd f t ∧ (sends_ok t → n = 0))).
      { eapply continues_trans with
          (P := λ tt, ∃ t, tt = t ++ [(A_fread f 512, r)] ∧ copies sd f t); [|exact Hc3|].
        - eapply continues_trans; [done..|]. intros t ? HP <-. by exists t.
        - intros ? t' (t & -> & HP) [Htr Hn]. split; [by apply copies_chunk|].
          intros [_ ?]%sends_ok_app. auto. }
      assert (Hb2 : (budget (world s2) < budget (world s'))%nat).
      { destruct Hc3 as (_ & Hb & _). simpl in Hb.
        pose proof (budget_lt _ _ _ _ E (proj2 (Z.ltb_lt _ _) Hv)). lia. }
      destruct Hall as (Hg & Hb & t & Ht & Hcp & Hn).
      destruct (Z.ltb_spec n 0) as [Hneg|]; apply wp_ret.
      * split; [done|]. split_and!; [done..|]. exists t. split_and!; [done..|]. intros Hok.
        specialize (Hn Hok). lia.
      * split; [|done]. split; [done|]. split_and!; [done..|]. by exists t.
    + apply wp_ret. split; [done|].
      assert (r_val r = 0 ∧ r_data r = []) as [Hz Hd].
      { split; [lia|]. apply nil_length_inv. lia. }
      eapply continues_trans; [done..|]. intros t ? HP <-. split; [by apply copies_eof|].
      intros _. exists 512, r. split; [set_solver|done].
  - split; [done|]. by apply continues_refl.
  - destruct Hf as (_ & He & _). unfold enough in He. lia.
Qed.

(** ** One request *)

Definition not_found : bytes := text "HTTP/1.0 404 NOK" ++ crlf ++ crlf.
Definition content_type (file_name : bytes) : bytes :=
  match mime_of file_name with
  | Some m => text "Content-Type: " ++ m ++ crlf ++ crlf
  | None => crlf
  end.
Definition ok_header (file_name : bytes) : bytes :=
  (text "HTTP/1.0 200 OK" ++ crlf) ++ content_type file_name.

(** The calls that answer a request for [file_name] under [root]: the file is
    opened; when there is none the answer is 404; otherwise the header and
    the contents of the file to its end are sent, and the file is closed. *)
Definition serves (sd : Z) (root file_name : bytes) (t : list (event F)) : Prop :=
  ∃ r t', t = (A_fopen (take 511 (root ++ [47] ++ file_name)), r) :: t' ∧
    if r_val r =? 0 then sends_ok t → sent sd t = not_found
    else
      (sends_ok t → sent sd t = ok_header file_name ++ file_read (r_val r) t ∧
                    at_eof (r_val r) t) ∧
      ∃ t'' rc, t' = t'' ++ [(A_fclose (r_val r), rc)].

Lemma mime_length l ext m :
  Forall (λ p, (length p.2 <= 100)%nat) l → mime_lookup l ext = Some m → (length m <= 100)%nat.
Proof.
  induction l as [|[e x] l IH]; simpl; [done|]. intros H. inversion H; subst. simpl in *.
  case_bool_decide; [by intros [= <-]|]. by apply IH.
Qed.

Lemma mime_of_length file_name m : mime_of file_name = Some m → (length m <= 100)%nat.
Proof.
  unfold mime_of. destruct (after_last 46 file_name); [|done]. apply mime_length.
  apply (bool_decide_unpack _). by vm_compute.
Qed.

(** [m] keeps the invariant and makes calls that satisfy [Q]. *)
Definition makes {A} live (m : M (app W F G) A) (Q : A → list (event F) → Prop) s : Prop :=
  wp m (λ a s', fine rule o0 live fuel s' ∧ continues s s' (Q a)) s.

Lemma makes_bind {A B} live (m : M (app W F G) A) (f : A → M (app W F G) B) P P' Q s :
  makes live m P s →
  (∀ a s', fine rule o0 live fuel s' → makes live (f a) (P' a) s') →
  (∀ a b t t', P a t → P' a b t' → Q b (t ++ t')) →
  makes live (m ≫= f) Q s.
Proof.
  intros Hm Hf HQ. apply wp_bind. eapply wp_mono; [|exact Hm].
  intros a s1 [Hf1 Hc1]. eapply wp_mono; [|by apply Hf].
  intros b s2 [Hf2 Hc2]. split; [done|]. eapply continues_trans; [done..|]. eauto.
Qed.

Lemma makes_mono {A} live (m : M (app W F G) A) (P Q : A → list (event F) → Prop) s :
  makes live m P s → (∀ a t, P a t → Q a t) → makes live m Q s.
Proof.
  intros Hm HPQ. eapply wp_mono; [|exact Hm]. intros a s' [? (? & ? & t & ? & ?)].
  split; [done|]. split_and!; [done..|]. exists t. auto.
Qed.

Lemma makes_ret {A} live (a : A) s : fine rule o0 live fuel s → makes live (mret a) (λ b t, b = a ∧ t = []) s.
Proof. intros. apply wp_ret. split; [done|]. by apply continues_refl. Qed.

Lemma makes_call live c s :
  fine rule o0 live fuel s → plain c = true → call_ok rule o0 live c →
  makes live (call c) (λ r t, t = [(c, r)]) s.
Proof.
  intros. apply wp_call. intros r w E. split; [by eapply fine_plain|].
  by apply continues_call.
Qed.

Lemma makes_call_ live c s :
  fine rule o0 live fuel s → plain c = true → call_ok rule o0 live c →
  makes live (call_ c) (λ _ t, ∃ r, t = [(c, r)]) s.
Proof.
  intros. apply wp_call_. intros r w E. split; [by eapply fine_plain|].
  apply continues_call; [done|]. by exists r.
Qed.

Lemma makes_callv live c s :
  fine rule o0 live fuel s → plain c = true → call_ok rule o0 live c →
  makes live (callv c) (λ v t, ∃ r, t = [(c, r)] ∧ v = r_val r) s.
Proof.
  intros. apply wp_callv. intros r w E. split; [by eapply fine_plain|].
  apply continues_call; [done|]. by exists r.
Qed.

Lemma transmits_app sd b b' t t' :
  transmits sd b t → transmits sd b' t' → transmits sd (b ++ b') (t ++ t').
Proof.
  intros [Hr Hs] [Hr' Hs']. split; [intros f; by rewrite file_read_app, Hr, Hr'|].
  intros [??]%sends_ok_app. by rewrite sent_app, Hs, Hs'.
Qed.

(** A call that sends and reads nothing. *)
Lemma transmits_quiet sd (c : acall F) r :
  match c with A_send _ _ _ | A_fread _ _ => False | _ => True end →
  transmits sd [] [(c, r)].
Proof. by destruct c. Qed.

(** The bytes [b], then the contents of the file [f], which is closed. *)
Definition answers (sd f : Z) (b : bytes) (t : list (event F)) : Prop :=
  (sends_ok t → sent sd t = b ++ file_read f t ∧ at_eof f t) ∧
  ∃ t' r, t = t' ++ [(A_fclose f, r)].

Lemma answers_prepend sd f b b' t t' :
  transmits sd b t → answers sd f b' t' → answers sd f (b ++ b') (t ++ t').
Proof.
  intros Htr [Hans (t'' & r & ->)]. split; [|exists (t ++ t''), r; by rewrite app_assoc].
  intros [Hok Hok']%sends_ok_app. destruct (Hans Hok') as [Hs (len & re & Hin & Hz)].
  destruct (transmits_sent _ _ _ f Htr Hok) as [Hs' Hr'].
  split; [|exists len, re; set_solver].
  by rewrite sent_app, file_read_app, Hs', Hs, Hr', <- app_assoc.
Qed.

Lemma answers_copy sd f t t' :
  copies sd f t → (sends_ok t → at_eof f t) → transmits sd [] t' →
  (∃ t'' r, t' = t'' ++ [(A_fclose f, r)]) → answers sd f [] (t ++ t').
Proof.
  intros Hc He Htr (t'' & r & ->). split; [|exists (t ++ t''), r; by rewrite app_assoc].
  intros [Hok Hok']%sends_ok_app. destruct (He Hok) as (len & re & Hin & Hz).
  destruct (transmits_sent _ _ _ f Htr Hok') as [Hs' Hr'].
  split; [|exists len, re; set_solver].
  by rewrite sent_app, file_read_app, Hs', Hr', (Hc Hok), !app_nil_r.
Qed.

(** The copy of the file and what follows. *)
Lemma serve_copy_ok live s sd f bufo :
  fine rule o0 live fuel s → sd ∈ live →
  makes live (loop fuel (copy_step fuel sd f) bufo;;
              call_ (A_setsockopt sd NFP_IPPROTO_TCP NFP_TCP_NOPUSH [0]);;
              call_ (A_fclose f))
    (λ _, answers sd f []) s.
Proof.
  intros Hf Hsd. eapply makes_bind with
    (P' := λ _ _ t, transmits sd [] t ∧ ∃ t' r, t = t' ++ [(A_fclose f, r)]).
  - by apply (copy_ok live).
  - intros ? s1 Hf1. eapply makes_bind.
    + apply makes_call_; [done..|by eapply call_ok_some].
    + intros ? s2 Hf2. apply makes_call_; [done..|by apply call_ok_none].
    + intros ? ? t t' [r ->] [r' ->]. split; [|by eexists _, r'].
      by apply (transmits_app sd [] []); apply transmits_quiet.
  - intros ? ? t t' [? ?] [? ?]. by apply answers_copy.
Qed.

(** Everything after a successful [fopen]. *)
Lemma serve_open_ok live s sd f file_name bufo :
  fine rule o0 live fuel s → sd ∈ live →
  makes live (call_ (A_setsockopt sd NFP_IPPROTO_TCP NFP_TCP_NOPUSH [1]);;
      _ ← sendf fuel sd (text "HTTP/1.0 200 OK" ++ crlf);
      _ ← (match mime_of file_name with
           | Some m => sendf fuel sd (text "Content-Type: " ++ m ++ crlf ++ crlf)
           | None => sendf fuel sd crlf
           end);
      loop fuel (copy_step fuel sd f) bufo;;
      call_ (A_setsockopt sd NFP_IPPROTO_TCP NFP_TCP_NOPUSH [0]);;
      call_ (A_fclose f))
    (λ _, answers sd f (ok_header file_name)) s.
Proof.
  intros Hf Hsd. unfold ok_header.
  rewrite <- (app_nil_l (_ ++ content_type _)), <- (app_nil_r (content_type _)).
  eapply makes_bind with (P := λ _, transmits sd []); [| |intros ? ? ? ?; apply answers_prepend].
  { eapply makes_mono; [apply makes_call_; [done..|by eapply call_ok_some]|].
    intros ? ? [r ->]. by apply transmits_quiet. }
  intros ? s1 Hf1.
  eapply makes_bind; [apply sendf_ok; [done..|vm_compute; lia]| |intros ? ? ? ?; apply answers_prepend].
  intros ? s2 Hf2.
  eapply makes_bind with (P := λ _, transmits sd (content_type file_name)); [| |intros ? ? ? ?; apply answers_prepend].
  { unfold content_type. destruct (mime_of file_name) as [m|] eqn:Em; apply sendf_ok; try done.
    - pose proof (mime_of_length _ _ Em). rewrite !length_app.
      change (length (text "Content-Type: ")) with 14%nat. change (length crlf) with 2%nat. lia.
    - vm_compute. lia. }
  intros ? s3 Hf3. by apply (serve_copy_ok live).
Qed.

Lemma serve_file_ok live s sd root file_name :
  fine rule o0 live fuel s → sd ∈ live →
  makes live (serve_file fuel sd root file_name) (λ _, serves sd root file_name) s.
Proof.
  intros Hf Hsd. unfold serve_file.
  eapply makes_bind; [apply makes_callv; [done..|by apply call_ok_none]| |].
  - intros f s1 Hf1. instantiate (1 := λ f _ t, if f =? 0 then transmits sd not_found t
                                               else answers sd f (ok_header file_name) t).
    simpl. destruct (f =? 0).
    + eapply makes_bind; [apply sendf_ok; [done..|vm_compute; lia]|
                          intros ? s2 Hf2; by apply makes_ret|].
      intros ? ? t t' Ht [_ ->]. by rewrite app_nil_r.
    + by apply (serve_open_ok live).
  - intros f [] t t' (r & -> & ->) Ht. exists r, t'. split; [done|]. simpl.
    destruct (r_val r =? 0).
    + intros Hok. apply Forall_cons in Hok as [_ Hok]. by apply Ht.
    + destruct Ht as [Hans Hclose]. split; [|done]. intros Hok.
      apply Forall_cons in Hok as [_ Hok]. destruct (Hans Hok) as [Hs (len & re & Hin & Hz)].
      split; [done|]. exists len, re. set_solver.
Qed.
End Send.

End HttpdProofs.
