(* ===== verification/HttpdServer.v ===== *)
(** * The web server: connections

    The connection table as an inventory of descriptors, the handling of one
    connection, and the two main loops. *)

From S2P Require Import Prelude Errno App AppProofs Httpd HttpdProofs.
Import App AppProofs Httpd HttpdProofs.

Module HttpdServer.

(** ** The connection table *)

(** The descriptors in the table. *)
Definition fds (l : list connection_t) : list Z := filter (λ f, f ≠ -1) (fd <$> l).

Lemma fds_app l l' : fds (l ++ l') = fds l ++ fds l'.
Proof. unfold fds. by rewrite fmap_app, filter_app. Qed.

Lemma fds_one c : fds [c] = if decide (fd c = -1) then [] else [fd c].
Proof.
  unfold fds. rewrite fmap_cons, filter_cons. simpl. by repeat case_decide.
Qed.

Lemma fds_split l i c :
  l !! i = Some c →
  fds l = fds (take i l) ++ fds [c] ++ fds (drop (S i) l).
Proof.
  intros H. rewrite <- (take_drop_middle l i c H) at 1. by rewrite <- !fds_app.
Qed.

Lemma fds_insert l i c c' :
  l !! i = Some c →
  fds (<[i := c']> l) = fds (take i l) ++ fds [c'] ++ fds (drop (S i) l).
Proof.
  intros H. pose proof (lookup_lt_Some _ _ _ H).
  rewrite (fds_split _ i c') by (by apply list_lookup_insert_eq).
  by rewrite take_insert_ge, drop_insert_lt by lia.
Qed.

(** Filling a free entry adds a descriptor, freeing one takes it out. *)
Lemma fds_fill l i c c' :
  l !! i = Some c → fd c = -1 → fd c' ≠ -1 → fds (<[i := c']> l) ≡ₚ fd c' :: fds l.
Proof.
  intros H Hc Hc'. rewrite (fds_insert _ _ _ _ H), (fds_split _ _ _ H).
  rewrite !fds_one, (decide_True _ _ Hc), (decide_False _ _ Hc').
  symmetry. apply Permutation_middle.
Qed.

Lemma fds_free l i c a :
  l !! i = Some c → fd c ≠ -1 → fds l ≡ₚ fd c :: fds (<[i := Conn (-1) a]> l).
Proof.
  intros H Hc. rewrite (fds_insert _ _ _ _ H), (fds_split _ _ _ H).
  rewrite !fds_one, (decide_False _ _ Hc), decide_True by done.
  symmetry. apply Permutation_middle.
Qed.

Lemma fds_elem l i c : l !! i = Some c → fd c ≠ -1 → fd c ∈ fds l.
Proof.
  intros H Hc. unfold fds. apply list_elem_of_filter. split; [done|].
  apply list_elem_of_fmap. exists c. split; [done|]. by eapply list_elem_of_lookup_2.
Qed.

Lemma fds_none l : (∀ i c, l !! i = Some c → fd c = -1) → fds l = [].
Proof.
  intros H. induction l as [|c l IH]; [done|]. unfold fds. rewrite fmap_cons, filter_cons.
  pose proof (H 0%nat c eq_refl) as Hc. rewrite decide_False by auto.
  apply IH.
  intros i c' Hi. by apply (H (S i)).
Qed.

(** The search finds the first free entry. *)
Lemma free_slot_spec l :
  (free_slot l <= length l)%nat ∧
  (∀ j c, (j < free_slot l)%nat → l !! j = Some c → fd c ≠ -1) ∧
  ((free_slot l < length l)%nat → ∃ c, l !! free_slot l = Some c ∧ fd c = -1).
Proof.
  induction l as [|c l (IH1 & IH2 & IH3)]; simpl; [split_and!; [done|done|lia]|].
  destruct (Z.eqb_spec (fd c) (-1)).
  - split_and!; [lia|lia|]. intros _. by exists c.
  - split_and!; [lia| |].
    + intros [|j] c' Hj; simpl; [by intros [= <-]|]. apply IH2. lia.
    + intros Hlt. simpl. apply IH3. lia.
Qed.

Section Server.
Context {W F : Type} `{!App W F, !SocketLaws W F}.
Context (rule : list (event F) → acall F → Prop) (Hrule : lenient rule).
Context (o0 : gset Z) (fuel : nat).
Local Abbreviation st := (app W F httpd).
Implicit Types (s : st) (base : list Z).
Local Abbreviation fine' := (fine rule o0).

Definition held base (l : list connection_t) : gset Z := o0 ∪ list_to_set (base ++ fds l).

(** The inventory: the descriptors the server holds, besides those it started
    with, are [base] and those of the table, each once. *)
Definition inventory base s : Prop :=
  length (connections (glob s)) = Z.to_nat NUM_CONNECTIONS ∧
  NoDup (base ++ fds (connections (glob s))) ∧
  (∀ x, x ∈ base ++ fds (connections (glob s)) → x ∉ o0) ∧
  fine' (held base (connections (glob s))) fuel s.

Lemma wp_get_conn i c (Q : connection_t → st → Prop) s :
  connections (glob s) !! Z.to_nat i = Some c → 0 ≤ i → Q c s → wp (get_conn i) Q s.
Proof.
  intros Hc Hi HQ. apply wp_bind, wp_getg. destruct (Z.leb_spec 0 i); [|lia].
  by eapply wp_of_option.
Qed.

Lemma wp_set_conn i c (Q : unit → st → Prop) s :
  0 ≤ i < Z.of_nat (length (connections (glob s))) →
  Q () (MkApp (world s) (nfp_errno s) (trace s)
          (MkHttpd (<[Z.to_nat i := c]> (connections (glob s))) (web_arg (glob s)))) →
  wp (set_conn i c) Q s.
Proof.
  intros Hi HQ. apply wp_bind, wp_getg.
  destruct (Z.leb_spec 0 i), (Z.ltb_spec i (Z.of_nat (length (connections (glob s))))); try lia.
  by apply wp_setg.
Qed.

Lemma wp_set_fd i c v (Q : unit → st → Prop) s :
  connections (glob s) !! Z.to_nat i = Some c → 0 ≤ i →
  Q () (MkApp (world s) (nfp_errno s) (trace s)
          (MkHttpd (<[Z.to_nat i := Conn v (addr c)]> (connections (glob s))) (web_arg (glob s)))) →
  wp (set_fd i v) Q s.
Proof.
  intros Hc Hi HQ. apply wp_bind. eapply wp_get_conn; [done..|].
  apply wp_set_conn; [|done]. apply lookup_lt_Some in Hc. lia.
Qed.

Lemma inventory_lookup base s i :
  inventory base s → 0 ≤ i < NUM_CONNECTIONS →
  ∃ c, connections (glob s) !! Z.to_nat i = Some c.
Proof.
  intros (Hlen & _) Hi. apply lookup_lt_is_Some_2. rewrite Hlen.
  apply Z2Nat.inj_lt; unfold NUM_CONNECTIONS in *; lia.
Qed.

Lemma inventory_held base s x :
  inventory base s → x ∈ base ++ fds (connections (glob s)) →
  x ∈ held base (connections (glob s)).
Proof. intros _ ?. unfold held. set_solver. Qed.

(** Steps that leave the globals and the holdings alone. *)
Lemma inventory_same base s s' :
  inventory base s → glob s' = glob s → fine' (held base (connections (glob s))) fuel s' →
  inventory base s'.
Proof. unfold inventory. intros (? & ? & ? & ?) -> ?. done. Qed.

(** A descriptor of the table is closed and its entry freed. *)
Lemma inventory_free base s s' i c :
  inventory base s → glob s' = glob s →
  connections (glob s) !! i = Some c → fd c ≠ -1 →
  fine' (held base (connections (glob s)) ∖ {[fd c]}) fuel s' →
  inventory base (MkApp (world s') (nfp_errno s') (trace s')
    (MkHttpd (<[i := Conn (-1) (addr c)]> (connections (glob s))) (web_arg (glob s)))).
Proof.
  intros (Hlen & Hnd & Hno & _) Hg Hi Hc Hf.
  pose proof (fds_free _ _ _ (addr c) Hi Hc) as Hp.
  set (l' := <[i := Conn (-1) (addr c)]> (connections (glob s))) in *.
  assert (Hp' : base ++ fds (connections (glob s)) ≡ₚ fd c :: (base ++ fds l')).
  { rewrite Hp. symmetry. apply Permutation_middle. }
  unfold inventory. cbn [glob connections].
  rewrite Hp' in Hnd. apply NoDup_cons in Hnd as [Hnin Hnd].
  split_and!; [by unfold l'; rewrite length_insert|done| |].
  - intros x Hx. apply Hno. rewrite Hp'. by right.
  - replace (held base l') with (held base (connections (glob s)) ∖ {[fd c]}); [done|].
    assert (Hfd : fd c ∉ o0) by (apply Hno; rewrite Hp'; by left).
    apply set_eq. intros x. unfold held.
    rewrite elem_of_difference, !elem_of_union, !elem_of_list_to_set, Hp', elem_of_cons,
      elem_of_singleton.
    destruct (decide (x = fd c)) as [->|]; naive_solver.
Qed.

(** A fresh descriptor fills a free entry. *)
Lemma inventory_fill base s s' i c v a :
  inventory base s → glob s' = glob s →
  connections (glob s) !! i = Some c → fd c = -1 → 0 ≤ v →
  v ∉ held base (connections (glob s)) →
  fine' ({[v]} ∪ held base (connections (glob s))) fuel s' →
  inventory base (MkApp (world s') (nfp_errno s') (trace s')
    (MkHttpd (<[i := Conn v a]> (connections (glob s))) (web_arg (glob s)))).
Proof.
  intros (Hlen & Hnd & Hno & _) Hg Hi Hc Hv Hfresh Hf.
  assert (Hp := fds_fill _ _ _ (Conn v a) Hi Hc ltac:(simpl; lia)).
  set (l' := <[i := Conn v a]> (connections (glob s))) in *. simpl in Hp.
  assert (Hp' : base ++ fds l' ≡ₚ v :: (base ++ fds (connections (glob s)))).
  { rewrite Hp. symmetry. apply Permutation_middle. }
  assert (Hv0 : (v ∉ o0) ∧ (v ∉ base ++ fds (connections (glob s)))).
  { unfold held in Hfresh. set_solver. }
  unfold inventory. cbn [glob connections]. rewrite Hp'.
  split_and!; [by unfold l'; rewrite length_insert| | |].
  - apply NoDup_cons. by destruct Hv0.
  - intros x. rewrite Hp', elem_of_cons. intros [->|?]; [by destruct Hv0|by apply Hno].
  - replace (held base l') with ({[v]} ∪ held base (connections (glob s))); [done|].
    apply set_eq. intros x. unfold held.
    rewrite !elem_of_union, !elem_of_list_to_set, Hp', elem_of_cons, elem_of_singleton.
    tauto.
Qed.

(** ** One connection *)

(** The descriptor is closed for good, after failed attempts. *)
Definition closing (sd : Z) (t : list (event F)) : Prop :=
  ∃ t' r, t = t' ++ [(A_close sd, r)] ∧ close_failed r = false ∧
          Forall (λ e, e.1 = A_close sd ∨ e.1 = A_sleep 1) t'.

Lemma close_ok live s sd :
  fine' live fuel s → sd ∈ live →
  wp (loop fuel (close_step sd) ()) (λ _ s',
    fine' (live ∖ {[sd]}) fuel s' ∧ continues s s' (closing sd)) s.
Proof.
  intros Hf Hsd. eapply wp_loop with
    (I := λ _ s', fine' live fuel s' ∧
            continues s s' (Forall (λ e, e.1 = A_close sd ∨ e.1 = A_sleep 1)))
    (μ := λ _ s', budget (world s')).
  - intros [] s' [Hf' Hc]. unfold close_step. apply wp_bind, wp_callv. intros r w E.
    destruct (fine_close _ _ _ _ _ _ _ _ Hrule Hf' Hsd E) as [Hdone Hkeep].
    pose proof (continues_call _ _ _ _ (eq [(A_close sd, r)]) E eq_refl) as Hcall.
    assert (Hend : close_failed r = false →
      continues s (after s' (A_close sd) r w) (closing sd)).
    { intros Hcf. eapply continues_trans; [done..|]. intros t ? Ht <-. by exists t, r. }
    destruct (Z.ltb_spec (r_val r) 0) as [Hv|Hv].
    2: { apply wp_ret. split; [done|]. apply Hend. unfold close_failed.
         destruct (Z.ltb_spec (r_val r) 0); [lia|done]. }
    apply wp_bind, wp_gets. simpl.
    assert (Hcf : close_failed r = negb (r_errno r =? Errno.NFP_ECONNRESET)).
    { unfold close_failed. by destruct (Z.ltb_spec (r_val r) 0); [|lia]. }
    destruct (r_errno r =? Errno.NFP_ECONNRESET) eqn:Ee; simpl in Hcf.
    { apply wp_ret. split; [done|]. by apply Hend. }
    apply wp_bind, wp_call_. intros r' w' E'. apply wp_ret. split; [split|].
    + eapply fine_plain; [by apply Hkeep|done|by apply call_ok_none|done].
    + eapply continues_trans; [eapply continues_trans; [exact Hc|exact Hcall|]|
        by apply (continues_call _ _ _ _ (eq [(A_sleep 1, r')]))|].
      * intros t ? Ht <-. instantiate (1 := Forall (λ e, e.1 = A_close sd ∨ e.1 = A_sleep 1)).
        apply Forall_app. split; [done|]. apply Forall_singleton. by left.
      * intros t ? Ht <-. apply Forall_app. split; [done|]. apply Forall_singleton. by right.
    + simpl. pose proof (budget_lt _ _ _ _ E Hcf). pose proof (budget_le (after s' _ r w) _ _ _ E').
      simpl in *. lia.
  - split; [done|]. by apply continues_refl.
  - destruct Hf as (_ & He & _). unfold enough in He. lia.
Qed.

(** The name of the file a request asks for. *)
Definition requested (url : bytes) : bytes :=
  match url with c :: r => if c =? 47 then r else c :: r | [] => text "index.html" end.

(** The calls that answer the request in [buf]. *)
Definition answered (sd : Z) (root buf : bytes) (t : list (event F)) : Prop :=
  if starts_with (text "GET ") buf then
    match before 32 (skip_spaces (drop 4 buf)) with
    | Some url => serves sd root (requested url) t
    | None => t = []
    end
  else t = [].

Lemma analyze_ok live s sd buf :
  fine' live fuel s → sd ∈ live →
  makes rule o0 fuel live (analyze_http fuel buf sd)
    (λ _, answered sd (root_dir (web_arg (glob s))) buf) s.
Proof.
  intros Hf Hsd. unfold analyze_http, answered.
  destruct (starts_with (text "GET ") buf).
  2: { eapply makes_mono; [by apply makes_ret|]. by intros a t [_ ->]. }
  destruct (before 32 (skip_spaces (drop 4 buf))) as [url|].
  2: { eapply makes_mono; [by apply makes_ret|]. by intros a t [_ ->]. }
  eapply makes_bind with (P := λ _, serves sd (root_dir (web_arg (glob s))) (requested url)).
  - apply wp_bind, wp_getg. unfold requested.
    destruct url as [|c url]; by apply serve_file_ok.
  - intros ? s1 Hf1. by apply makes_ret.
  - intros _ _ t t' Ht [_ ->]. by rewrite app_nil_r.
Qed.

Lemma starts_with_prefix p q b :
  starts_with (p ++ q) b = true → starts_with p b = true.
Proof.
  unfold starts_with. rewrite !bool_decide_eq_true, length_app. intros H.
  rewrite <- (take_app_length p q) at 2. rewrite <- H, take_take. f_equal. lia.
Qed.

(** What [handle_connection] does with entry [i], which holds [c]. *)
Definition handled (i : nat) (c : connection_t) (rc : Z) s s' : Prop :=
  if fd c =? -1 then rc = -1 ∧ s' = s
  else ∃ r w t, api (A_recv (fd c) 1023 0) (world s) = (r, w) ∧
    trace s' = trace s ++ (A_recv (fd c) 1023 0, r) :: t ∧
    if r_val r <? 0 then rc = -1 ∧ t = [] ∧ glob s' = glob s
    else
      rc = 0 ∧
      glob s' = MkHttpd (<[i := Conn (-1) (addr c)]> (connections (glob s))) (web_arg (glob s)) ∧
      if 0 <? r_val r then
        ∃ t1 t2, t = t1 ++ t2 ∧ closing (fd c) t2 ∧
          answered (fd c) (root_dir (web_arg (glob s))) (cstr (r_data r)) t1
      else ∃ r', t = [(A_close (fd c), r')].

Lemma analyze_get_ok live s sd buf :
  fine' live fuel s → sd ∈ live →
  makes rule o0 fuel live
    (if starts_with (text "GET") buf then _ ← analyze_http fuel buf sd; mret () else mret ())
    (λ _, answered sd (root_dir (web_arg (glob s))) buf) s.
Proof.
  intros Hf Hsd. destruct (starts_with (text "GET") buf) eqn:Eg.
  - eapply makes_bind; [by apply (analyze_ok live)|intros ? s1 Hf1; by apply makes_ret|].
    intros ? ? t t' Ht [_ ->]. by rewrite app_nil_r.
  - eapply makes_mono; [by apply makes_ret|]. intros ? t [_ ->]. unfold answered.
    destruct (starts_with (text "GET ") buf) eqn:Eg'; [|done].
    apply (starts_with_prefix (text "GET") [32]) in Eg'. congruence.
Qed.

Lemma handle_ok base s i c :
  inventory base s → connections (glob s) !! Z.to_nat i = Some c → 0 ≤ i →
  wp (handle_connection fuel i) (λ rc s',
    inventory base s' ∧ (budget (world s') ≤ budget (world s))%nat ∧
    handled (Z.to_nat i) c rc s s') s.
Proof.
  intros Hinv Hc Hi. pose proof Hinv as (_ & _ & _ & Hf).
  unfold handle_connection, handled. apply wp_bind. eapply wp_get_conn; [done..|].
  destruct (Z.eqb_spec (fd c) (-1)) as [|Hfd]; [by apply wp_ret|].
  assert (Hheld : fd c ∈ held base (connections (glob s))).
  { eapply inventory_held; [done|]. apply elem_of_app. right. by eapply fds_elem. }
  apply wp_bind, wp_call. intros r w E.
  destruct (recv_fits _ _ _ _ _ _ E) as [Hfit Hlen]; [lia|].
  pose proof (budget_le _ _ _ _ E) as Hb.
  assert (Hf1 : fine' (held base (connections (glob s))) fuel (after s (A_recv (fd c) 1023 0) r w)).
  { eapply fine_plain; [done..|by eapply call_ok_some|done]. }
  destruct (Z.ltb_spec (r_val r) 0) as [Hneg|Hpos].
  { apply wp_ret. split_and!; [by eapply inventory_same|done|]. exists r, w, [].
    split_and!; [done..|]. by destruct (Z.ltb_spec (r_val r) 0); [|lia]. }
  destruct (Z.ltb_spec 0 (r_val r)) as [Hr|Hr].
  - destruct (Z.ltb_spec (r_val r) 1024); [|lia]. simpl negb. cbv iota.
    rewrite take_ge by lia.
    apply wp_bind. eapply wp_mono; [|by apply (analyze_get_ok (held base (connections (glob s))))].
    intros [] s1 [Hf2 (Hg1 & Hb1 & t1 & Ht1 & Hans)]. simpl in *.
    apply wp_bind. eapply wp_mono; [|by apply (close_ok (held base (connections (glob s))))].
    intros [] s2 [Hf3 (Hg2 & Hb2 & t2 & Ht2 & Hcl)].
    apply wp_bind. eapply wp_set_fd; [rewrite Hg2, Hg1; done|done|]. apply wp_ret.
    rewrite Hg2, Hg1. split_and!; [|simpl; lia|].
    { eapply (inventory_free base s s2); [done|congruence|done..]. }
    exists r, w, (t1 ++ t2). split; [done|]. split; [simpl; by rewrite Ht2, Ht1, <- !app_assoc|].
    destruct (Z.ltb_spec (r_val r) 0); [lia|]. destruct (Z.ltb_spec 0 (r_val r)); [|lia].
    split_and!; [done..|]. by exists t1, t2.
  - apply wp_bind, wp_call_. intros r' w' E'.
    destruct (fine_close _ _ _ _ _ _ _ _ Hrule Hf1 Hheld E') as [Hf2 _].
    apply wp_bind. eapply wp_set_fd; [done..|]. apply wp_ret.
    split_and!; [by apply (inventory_free base s (after (after s _ r w) _ r' w'))|..].
    { simpl. pose proof (budget_le (after s _ r w) _ _ _ E'). simpl in *. lia. }
    exists r, w, [(A_close (fd c), r')]. split; [done|]. split; [simpl; by rewrite <- app_assoc|].
    destruct (Z.ltb_spec (r_val r) 0); [lia|]. destruct (Z.ltb_spec 0 (r_val r)); [lia|].
    split_and!; [done..|]. by exists r'.
Qed.

(** What [accept_connection] does: the connection goes to the first free
    entry; without one nothing is accepted. *)
Definition accepted (serv : Z) (a : Z * option Z) s s' : Prop :=
  let l := connections (glob s) in
  (a = (-1, None) ∧ s' = s ∧ ∀ j c, l !! j = Some c → fd c ≠ -1) ∨
  ∃ i c r t, l !! i = Some c ∧ fd c = -1 ∧
    (∀ j c', (j < i)%nat → l !! j = Some c' → fd c' ≠ -1) ∧
    trace s' = trace s ++ (A_accept serv, r) :: t ∧
    if r_val r <? 0 then a = (-1, None) ∧ t = [] ∧ glob s' = glob s
    else
      a = (r_val r, Some (Z.of_nat i)) ∧
      glob s' = MkHttpd (<[i := Conn (r_val r) (r_out r)]> l) (web_arg (glob s)).

Lemma accept_ok base s serv :
  inventory base s → serv ∈ base ++ fds (connections (glob s)) →
  wp (accept_connection serv) (λ a s',
    inventory base s' ∧ (budget (world s') ≤ budget (world s))%nat ∧ accepted serv a s s') s.
Proof.
  intros Hinv Hserv. pose proof Hinv as (Hlen & _ & _ & Hf).
  pose proof (inventory_held _ _ _ Hinv Hserv) as Hheld.
  unfold accept_connection, accepted. apply wp_bind, wp_getg.
  rewrite take_ge by lia.
  destruct (free_slot_spec (connections (glob s))) as (Hle & Hbefore & Hfree).
  set (n := free_slot (connections (glob s))) in *.
  destruct (Z.leb_spec NUM_CONNECTIONS (Z.of_nat n)) as [Hfull|Hroom].
  { apply wp_ret. split_and!; [done..|]. left. split_and!; [done..|].
    intros j c Hj. apply (Hbefore j); [|done]. apply lookup_lt_Some in Hj. lia. }
  destruct Hfree as (c & Hc & Hfd); [lia|].
  apply wp_bind, wp_call. intros r w E.
  assert (Hok : call_ok rule o0 (held base (connections (glob s)))
                  (A_accept serv : acall F)) by (by eapply call_ok_some).
  pose proof (fine_open _ _ _ _ _ (A_accept serv) _ _ Hf eq_refl Hok E) as Hopen.
  pose proof (budget_le _ _ _ _ E) as Hb.
  destruct (Z.ltb_spec (r_val r) 0), (Z.leb_spec 0 (r_val r)); try lia.
  { apply wp_ret. split_and!; [by eapply inventory_same|done|]. right.
    exists n, c, r, []. split_and!; [done..|]. by destruct (Z.ltb_spec (r_val r) 0); [|lia]. }
  destruct Hopen as [Hfresh Hf1].
  apply wp_bind, wp_call_. intros r' w' E'.
  set (o := A_setsockopt _ _ _ _) in *.
  assert (Hf2 : fine' ({[r_val r]} ∪ held base (connections (glob s))) fuel
                  (after (after s (A_accept serv) r w) o r' w')).
  { eapply fine_plain; [done..| |done]. eapply call_ok_some; [done..|set_solver|done]. }
  pose proof (budget_le (after s _ r w) _ _ _ E').
  apply wp_bind, wp_set_conn; [simpl; lia|]. apply wp_ret. simpl. rewrite Nat2Z.id.
  split_and!; [by apply (inventory_fill base s (after (after s _ r w) _ r' w') n c)|simpl in *; lia|].
  right. eexists n, c, r, [_]. split_and!; [done..| |]; [by rewrite <- app_assoc|].
  by destruct (Z.ltb_spec (r_val r) 0); [lia|].
Qed.
End Server.

(** ** The main loops *)

Section Loops.
Context {W F : Type} `{!App W F, !SocketLaws W F, !FdSetLaws W F}.
Context (o0 : gset Z) (fuel : nat).
Local Abbreviation st := (app W F httpd).
Implicit Types (s : st) (base : list Z).

(** What the server keeps to when it waits: [nfp_select] is given every
    descriptor the server holds (but those whose close failed) and a bound
    above them; a descriptor that is added to an epoll instance is held, and its
    event points into the table.  A descriptor that is taken out is held, or was
    closed by the call just before, or is the -1 of an entry already freed: the
    server handles a connection before it takes its descriptor out. *)
Definition http_rule (tr : list (event F)) (c : acall F) : Prop :=
  match c with
  | A_select nfds readfds _ _ _ =>
      ∃ set, readfds = Some set ∧
        ∀ fd, fd ∈ owned o0 tr → fd ∉ o0 → fd ∉ close_failures tr →
          fd < nfds ∧ NFP_FD_ISSET fd set = true
  | A_epoll_ctl _ _ fd (Some ev) => 0 ≤ ev.2 < NUM_CONNECTIONS ∧ fd ∈ owned o0 tr
  | A_epoll_ctl _ _ fd None => fd ∈ owned o0 tr ∨ fd = -1 ∨ ∃ tr' r, tr = tr' ++ [(A_close fd, r)]
  | _ => True
  end.

Lemma http_lenient : lenient http_rule.
Proof. by intros tr []. Qed.
Hint Resolve http_lenient : core.

Local Abbreviation inv := (inventory http_rule o0 fuel).
Local Abbreviation table s := (connections (glob s)).

Lemma NUM_pos : Z.of_nat (Z.to_nat NUM_CONNECTIONS) = NUM_CONNECTIONS.
Proof. done. Qed.

Lemma monitor_ok base s set :
  inv base s →
  wp (monitor_connections set) (λ set' s',
    s' = s ∧ (∀ x, NFP_FD_ISSET x set = true → NFP_FD_ISSET x set' = true) ∧
    ∀ x, x ∈ fds (table s) → NFP_FD_ISSET x set' = true) s.
Proof.
  intros Hinv. unfold monitor_connections.
  eapply wp_mono; [|apply wp_for_acc with
    (I := λ i set' s', s' = s ∧ (∀ x, NFP_FD_ISSET x set = true → NFP_FD_ISSET x set' = true) ∧
            ∀ j c, Z.of_nat j < i → table s !! j = Some c → fd c ≠ -1 →
              NFP_FD_ISSET (fd c) set' = true)].
  - intros set' s' (-> & Hmono & Hall). split_and!; [done..|].
    intros x [Hx Hin]%list_elem_of_filter. apply list_elem_of_fmap in Hin as (c & -> & Hin).
    apply list_elem_of_lookup_1 in Hin as [j Hj]. eapply Hall; [|done..].
    apply lookup_lt_Some in Hj. destruct Hinv as (Hlen & _). lia.
  - split_and!; [done..|lia].
  - intros i set' s' Hi (-> & Hmono & Hall). rewrite NUM_pos in Hi.
    destruct (inventory_lookup _ _ _ _ _ i Hinv) as [c Hc]; [lia|].
    apply wp_bind. eapply wp_get_conn; [done|lia|]. apply wp_ret. split; [done|].
    destruct (Z.eqb_spec (fd c) (-1)) as [Hfd|Hfd]; simpl.
    + split; [done|]. intros j c' Hj Hc' Hne. eapply Hall; [|done..].
      assert (j ≠ Z.to_nat i) by congruence. lia.
    + split; [intros x Hx; rewrite FD_ISSET_SET, Hmono by done; apply orb_true_r|].
      intros j c' Hj Hc' Hne. rewrite FD_ISSET_SET.
      destruct (decide (j = Z.to_nat i)) as [->|].
      * simplify_eq. by rewrite bool_decide_true.
      * rewrite (Hall j c') by (done || lia). apply orb_true_r.
Qed.

(** Freed entries leave the other descriptors in place. *)
Lemma fds_handled i c rc s s' :
  handled i c rc s s' → table s !! i = Some c →
  (fds (table s') ⊆ fds (table s)) ∧
  (∀ j, j ≠ i → table s' !! j = table s !! j).
Proof.
  unfold handled. intros Hh Hc. destruct (Z.eqb_spec (fd c) (-1)); [by destruct Hh as [_ ->]|].
  destruct Hh as (r & w & t & _ & _ & Hh). destruct (r_val r <? 0); [by destruct Hh as (_ & _ & ->)|].
  destruct Hh as (_ & -> & _). simpl. split.
  - rewrite (fds_free _ _ _ (addr c) Hc) by done. set_solver.
  - intros j Hj. by rewrite list_lookup_insert_ne.
Qed.

Lemma serve_ready_ok base s set :
  inv base s →
  wp (serve_ready fuel set) (λ _ s',
    inv base s' ∧ (budget (world s') ≤ budget (world s))%nat ∧ fds (table s') ⊆ fds (table s)) s.
Proof.
  intros Hinv. unfold serve_ready.
  eapply wp_mono; [|apply wp_for_acc with
    (I := λ _ _ s', inv base s' ∧ (budget (world s') ≤ budget (world s))%nat ∧
            fds (table s') ⊆ fds (table s))]; [done|done|].
  intros i set' s' Hi (Hinv' & Hb & Hsub). rewrite NUM_pos in Hi.
  destruct (inventory_lookup _ _ _ _ _ i Hinv') as [c Hc]; [lia|].
  apply wp_bind. eapply wp_get_conn; [done|lia|]. destruct (_ && _); [|by apply wp_ret].
  apply wp_bind. eapply wp_mono; [|eapply handle_ok; [auto|done..|lia]].
  intros rc s2 (Hinv2 & Hb2 & Hh). apply wp_ret. split_and!; [done|lia|].
  etrans; [by eapply fds_handled|done].
Qed.

Lemma accept_step_ok base s serv :
  inv base s → serv ∈ base ++ fds (table s) →
  wp (accept_connection serv) (λ a s',
    inv base s' ∧ (budget (world s') ≤ budget (world s))%nat ∧
    (∀ x, x ∈ fds (table s') → x ∈ fds (table s) ∨ x = a.1) ∧ accepted serv a s s') s.
Proof.
  intros Hinv Hserv. eapply wp_mono; [|by eapply accept_ok].
  intros a s' (Hinv' & Hb & Hacc). split_and!; [done..| |done].
  destruct Hacc as [(-> & -> & _)|(i & c & r & t & Hc & Hfd & _ & _ & Hr)]; [auto|].
  destruct (Z.ltb_spec (r_val r) 0).
  - destruct Hr as (_ & _ & ->). auto.
  - destruct Hr as (-> & ->). simpl. intros x.
    rewrite fds_fill by (done || simpl; lia). simpl. set_solver.
Qed.

(** The call of [nfp_select] keeps to the rule. *)
Lemma select_call_ok s serv nfds set :
  inv [serv] s →
  (∀ x, x ∈ serv :: fds (table s) → x ≤ nfds ∧ NFP_FD_ISSET x set = true) →
  call_ok http_rule o0 (held o0 [serv] (table s)) (A_select (nfds + 1) (Some set) None 0 200000).
Proof.
  intros Hinv Hall. split; [done|]. intros tr Hown. exists set. split; [done|].
  intros fd Hfd Hno Hcf. specialize (Hown fd Hfd).
  assert (Hin : fd ∈ serv :: fds (table s)).
  { unfold held in Hown. set_solver. }
  destruct (Hall fd Hin). split; [lia|done].
Qed.

(** [nfds] is at or above every descriptor in use. *)
Definition covers (serv nfds : Z) s : Prop := ∀ x, x ∈ serv :: fds (table s) → x ≤ nfds.

Lemma covers_fds serv nfds s s' :
  covers serv nfds s → fds (table s') ⊆ fds (table s) → covers serv nfds s'.
Proof. intros Hc Hsub x Hx. apply Hc. set_solver. Qed.

Lemma select_ready_ok s serv nfds set :
  inv [serv] s → covers serv nfds s →
  wp (select_ready fuel serv set nfds) (λ a s',
    inv [serv] s' ∧ (budget (world s') ≤ budget (world s))%nat ∧ covers serv a.2 s') s.
Proof.
  intros Hinv Hcov. unfold select_ready.
  apply wp_bind, wp_mono with (Q := λ nfds' s', inv [serv] s' ∧
    (budget (world s') ≤ budget (world s))%nat ∧ covers serv nfds' s').
  - intros nfds' s1 (Hinv1 & Hb1 & Hcov1). apply wp_bind.
    eapply wp_mono; [|by eapply serve_ready_ok]. intros set' s2 (Hinv2 & Hb2 & Hsub).
    apply wp_ret. split_and!; [done|lia|]. by eapply covers_fds.
  - destruct (NFP_FD_ISSET serv set); [|by apply wp_ret].
    apply wp_bind. eapply wp_mono; [|by apply (accept_step_ok [serv]); [|left]].
    intros a s1 (Hinv1 & Hb1 & Hnew & _). apply wp_ret. split_and!; [done..|].
    assert (Hmax : a.1 ≤ (if nfds <? a.1 then a.1 else nfds) ∧
                   nfds ≤ (if nfds <? a.1 then a.1 else nfds)).
    { destruct (Z.ltb_spec nfds a.1); lia. }
    intros x [->|Hx]%elem_of_cons.
    + etrans; [apply Hcov; by left|]. apply Hmax.
    + destruct (Hnew x Hx) as [Hold| ->]; [|apply Hmax].
      etrans; [apply Hcov; by right|]. apply Hmax.
Qed.

Lemma plain_step base s c r w :
  inv base s → api c (world s) = (r, w) → plain c = true →
  call_ok http_rule o0 (held o0 base (table s)) c → inv base (after s c r w).
Proof.
  intros Hinv E Hp Hok. eapply inventory_same; [done..|].
  destruct Hinv as (_ & _ & _ & Hf). by eapply fine_plain.
Qed.

Lemma select_step_ok s serv set nfds :
  inv [serv] s → covers serv nfds s →
  wp (select_step fuel serv (set, nfds)) (λ r s',
    inv [serv] s' ∧ (budget (world s') ≤ budget (world s))%nat ∧
    match r with
    | inl a => covers serv a.2 s' ∧ (budget (world s') < budget (world s))%nat
    | inr _ => True
    end) s.
Proof.
  intros Hinv Hcov. unfold select_step.
  apply wp_bind, wp_bind, wp_callv. intros r w E. apply wp_ret.
  assert (Hinv2 : inv [serv] (after s A_is_running r w)).
  { eapply plain_step; [done..|by eapply call_ok_none]. }
  set (s2 := after s A_is_running r w) in *.
  pose proof (budget_step _ _ _ _ E) as Hb2. unfold again in Hb2. simpl in Hb2.
  destruct (r_val r =? 0); simpl in Hb2 |- *.
  { apply wp_ret. split_and!; [done|simpl; lia|done]. }
  apply wp_bind. eapply wp_mono; [|by eapply monitor_ok].
  intros set' ? (-> & Hmono & Hmon).
  apply wp_bind, wp_call. intros r' w' E'.
  pose proof (budget_le s2 _ _ _ E') as Hb4. simpl in Hb4.
  assert (Hinv4 : inv [serv] (after s2 (A_select (nfds + 1) (Some set') None 0 200000) r' w')).
  { eapply plain_step; [done..|]. apply select_call_ok; [done|].
    intros x Hx. split; [by apply Hcov|]. apply elem_of_cons in Hx as [->|Hx]; [|by apply Hmon].
    apply Hmono. by rewrite FD_ISSET_SET, bool_decide_true. }
  destruct (Z.leb_spec (r_val r') 0).
  - destruct (r_val r' =? 0); apply wp_ret; split_and!; simpl; (done || lia).
  - apply wp_bind. eapply wp_mono; [|by apply select_ready_ok].
    intros a s5 (Hinv5 & Hb5 & Hcov5). simpl in Hb5. apply wp_ret. split_and!; [done|lia|done|lia].
Qed.

Lemma select_loop_ok s serv set :
  inv [serv] s → fds (table s) = [] →
  wp (loop fuel (select_step fuel serv) (set, serv)) (λ _ s', inv [serv] s') s.
Proof.
  intros Hinv Hnil. eapply wp_loop with
    (I := λ a s', inv [serv] s' ∧ covers serv a.2 s') (μ := λ _ s', budget (world s')).
  - clear set. intros [set nfds] s1 (Hinv1 & Hcov1).
    eapply wp_mono; [|by apply select_step_ok]. intros [a|b] s2; intuition.
  - split; [done|]. intros x. rewrite Hnil. set_solver.
  - destruct Hinv as (_ & _ & _ & _ & He & _). unfold enough in He. lia.
Qed.

(** ** Shutting down *)

(** Entries below [i] are free. *)
Definition cleared (i : Z) s : Prop := ∀ j c, Z.of_nat j < i → table s !! j = Some c → fd c = -1.

Lemma cleared_all base s : inv base s → cleared NUM_CONNECTIONS s → fds (table s) = [].
Proof.
  intros (Hlen & _) Hcl. apply fds_none. intros j c Hj. eapply Hcl; [|done].
  apply lookup_lt_Some in Hj. rewrite Hlen in Hj.
  apply (Z.lt_le_trans _ (Z.of_nat (Z.to_nat NUM_CONNECTIONS))); [lia|done].
Qed.

Lemma cleared_skip i c s :
  cleared i s → table s !! Z.to_nat i = Some c → fd c = -1 → 0 ≤ i → cleared (i + 1) s.
Proof.
  intros Hcl Hc Hfd Hi j c' Hj Hc'. destruct (decide (j = Z.to_nat i)) as [->|]; [congruence|].
  eapply Hcl; [|done]. lia.
Qed.

Lemma cleared_free i a s s' :
  cleared i s → 0 ≤ i → table s' = <[Z.to_nat i := Conn (-1) a]> (table s) → cleared (i + 1) s'.
Proof.
  intros Hcl Hi Ht j c. rewrite Ht. intros Hj [(<- & Hc' & _)|[Hne Hc]]%list_lookup_insert_Some.
  - by rewrite <- Hc'.
  - eapply Hcl; [|done]. lia.
Qed.

Lemma held_table base l i c : l !! i = Some c → fd c ≠ -1 → fd c ∈ held o0 base l.
Proof.
  intros Hc Hfd. unfold held. apply elem_of_union_r, elem_of_list_to_set, elem_of_app.
  right. by eapply fds_elem.
Qed.

(** [nfp_close(connections[i].fd); connections[i].fd = -1;] *)
Lemma drop_ok base s i c :
  inv base s → cleared i s → table s !! Z.to_nat i = Some c → fd c ≠ -1 → 0 ≤ i →
  wp (call_ (A_close (fd c));; set_fd i (-1)) (λ _ s', inv base s' ∧ cleared (i + 1) s') s.
Proof.
  intros Hinv Hcl Hc Hfd Hi. apply wp_bind, wp_call_. intros r w E.
  pose proof Hinv as (_ & _ & _ & Hf).
  assert (Hheld : fd c ∈ held o0 base (table s)) by (by eapply held_table).
  destruct (fine_close _ _ _ _ _ _ _ _ http_lenient Hf Hheld E) as [Hf1 _].
  eapply wp_set_fd; [done..|]. split.
  - by apply (inventory_free _ _ _ base s (after s (A_close (fd c)) r w)).
  - by eapply cleared_free.
Qed.

Lemma select_cleanup_ok base s set :
  inv base s →
  wp (for_acc 0 (Z.to_nat NUM_CONNECTIONS) (λ i set,
          c ← get_conn i;
          if fd c =? -1 then mret set
          else
            call_ (A_close (fd c));;
            set_fd i (-1);;
            mret (NFP_FD_CLR (fd c) set)) set)
    (λ _ s', inv base s' ∧ fds (table s') = []) s.
Proof.
  intros Hinv. eapply wp_mono; [|apply wp_for_acc with
    (I := λ i _ s', inv base s' ∧ cleared i s')].
  - intros _ s' [Hinv' Hcl]. rewrite Z.add_0_l, NUM_pos in Hcl. split; [done|].
    by eapply cleared_all.
  - split; [done|]. intros j c Hj. lia.
  - intros i set' s' Hi [Hinv' Hcl]. rewrite NUM_pos in Hi.
    destruct (inventory_lookup _ _ _ _ _ i Hinv') as [c Hc]; [lia|].
    apply wp_bind. eapply wp_get_conn; [done|lia|].
    destruct (Z.eqb_spec (fd c) (-1)).
    { apply wp_ret. split; [done|]. eapply cleared_skip; [done..|lia]. }
    destruct (drop_ok base s' i c) as ([] & s2 & Hrun & Hinv2 & Hcl2); [done..|lia|].
    apply bind_inv_Ret in Hrun as ([] & s1 & Hclose & Hset).
    eexists _, s2. rewrite (bind_Ret _ _ _ _ _ Hclose), (bind_Ret _ _ _ _ _ Hset). done.
Qed.

(** The last descriptor of the inventory is closed. *)
Lemma last_close x s r w :
  inv [x] s → fds (table s) = [] → api (A_close x) (world s) = (r, w) →
  fine http_rule o0 o0 fuel (after s (A_close x) r w).
Proof.
  intros Hinv Hnil E. pose proof Hinv as (_ & _ & Hno & Hf). rewrite Hnil in Hno.
  assert (Hx : x ∈ held o0 [x] (table s)) by (unfold held; set_solver).
  destruct (fine_close _ _ _ _ _ _ _ _ http_lenient Hf Hx E) as [Hf1 _].
  replace (held o0 [x] (table s) ∖ {[x]}) with o0 in Hf1; [done|].
  unfold held. rewrite Hnil. specialize (Hno x ltac:(by left)). clear -Hno. set_solver.
Qed.

(** The calls after which the server gives up without closing. *)
Definition gave_up (tr : list (event F)) : Prop :=
  ∃ c r, (c, r) ∈ tr ∧
    ((c = A_get_processing_state ∧ r_val r = 0) ∨ (c = A_epoll_create 1 ∧ r_val r = -1)).

(** The outcome of a main loop. *)
Definition finished (rc : Z) s : Prop :=
  (rc = 0 ∧ fine http_rule o0 o0 fuel s ∧ fds (table s) = []) ∨
  (rc = -1 ∧ gave_up (trace s) ∧ ∃ base, inv base s).

Lemma gave_up_last tr c (r : areply F) :
  ((c = A_get_processing_state ∧ r_val r = 0) ∨ (c = A_epoll_create 1 ∧ r_val r = -1)) →
  gave_up (tr ++ [(c, r)]).
Proof. intros. exists c, r. split; [set_solver|done]. Qed.

Lemma webserver_select_ok s serv :
  inv [serv] s → fds (table s) = [] → wp (webserver_select fuel serv) finished s.
Proof.
  intros Hinv Hnil. unfold webserver_select. apply wp_bind, wp_callv. intros r w E.
  assert (Hinv1 : inv [serv] (after s A_get_processing_state r w)).
  { eapply plain_step; [done..|by eapply call_ok_none]. }
  destruct (Z.eqb_spec (r_val r) 0).
  { apply wp_ret. right. split_and!; [done|apply gave_up_last; auto|by exists [serv]]. }
  apply wp_bind. eapply wp_mono; [|by apply select_loop_ok].
  intros set s2 Hinv2. apply wp_bind. eapply wp_mono; [|by apply (select_cleanup_ok [serv])].
  intros _ s3 [Hinv3 Hnil3]. apply wp_bind, wp_call_. intros r' w' E'. apply wp_ret.
  left. split_and!; [done|by apply last_close|done].
Qed.

(** ** The epoll loop *)

(** In this mode the listening socket has the first entry of the table. *)
Definition listening (serv : Z) s : Prop := ∃ a, table s !! 0%nat = Some (Conn serv a).

(** Data of registered events are indices of the table. *)
Lemma interest_range base s d : inv base s → d ∈ interest (world s) → 0 ≤ d < NUM_CONNECTIONS.
Proof.
  intros (_ & _ & _ & _ & _ & Ho & Hi) Hd. apply Hi in Hd. unfold registered in Hd.
  apply elem_of_list_to_set, list_elem_of_omap in Hd as ([c r] & Hin & Hc).
  apply list_elem_of_split in Hin as (t & t' & Ht). specialize (Ho t (c, r) t' Ht). simpl in *.
  destruct c; simplify_eq/=. case_match; simplify_eq/=. by destruct Ho.
Qed.

(** What the inventory lists is held. *)
Lemma inventory_owned base s x :
  inv base s → x ∈ base ++ fds (table s) → x ∈ owned o0 (trace s).
Proof.
  intros Hinv Hx. assert (Hh : x ∈ held o0 base (table s)) by (unfold held; set_solver).
  destruct Hinv as (_ & _ & _ & (_ & Hl & _) & _). by apply Hl.
Qed.

Lemma epoll_ctl_step base epfd s op fd ev r w :
  inv base s → epfd ∈ base → http_rule (trace s) (A_epoll_ctl epfd op fd ev) →
  api (A_epoll_ctl epfd op fd ev) (world s) = (r, w) → inv base (after s (A_epoll_ctl epfd op fd ev) r w).
Proof.
  intros Hinv Hin Hr E. eapply inventory_same; [done..|]. destruct Hinv as (_ & _ & _ & Hf).
  eapply fine_plain_at; [done|done| |done..]. intros x [= <-]. unfold held. cbn [after glob]. set_solver.
Qed.

(** After a connection was handled its descriptor is still in the table, or was
    closed last, or there was none. *)
Lemma handled_target base i c rc s s' epfd op :
  inv base s' → table s !! i = Some c → handled i c rc s s' →
  http_rule (trace s') (A_epoll_ctl epfd op (fd c) None).
Proof.
  unfold handled. intros Hinv Hc Hh. destruct (Z.eqb_spec (fd c) (-1)) as [Hfd|Hfd]; [by right; left|].
  destruct Hh as (r & w & t & _ & Ht & Hh). destruct (r_val r <? 0).
  { left. destruct Hh as (_ & _ & Hg). eapply inventory_owned; [done|]. apply elem_of_app. right.
    rewrite Hg. by eapply fds_elem. }
  destruct Hh as (_ & _ & Hh). do 2 right. destruct (0 <? r_val r).
  - destruct Hh as (t1 & t2 & -> & (t' & r' & -> & _) & _). exists (trace s ++ (A_recv (fd c) 1023 0, r) :: t1 ++ t'), r'.
    by rewrite Ht, <- !app_assoc, <- app_comm_cons, <- !app_assoc.
  - destruct Hh as [r' ->]. exists (trace s ++ [(A_recv (fd c) 1023 0, r)]), r'. by rewrite Ht, <- app_assoc.
Qed.

Lemma epoll_event_ok s epfd serv ptr :
  inv [epfd] s → listening serv s → 0 ≤ serv → 0 ≤ ptr < NUM_CONNECTIONS →
  wp (epoll_event fuel epfd serv ptr) (λ _ s',
    inv [epfd] s' ∧ listening serv s' ∧ (budget (world s') ≤ budget (world s))%nat) s.
Proof.
  intros Hinv [a0 Hl] Hserv Hptr. unfold epoll_event.
  destruct (inventory_lookup _ _ _ _ _ ptr Hinv) as [c Hc]; [lia|].
  apply wp_bind. eapply wp_get_conn; [done|lia|].
  destruct (Z.eqb_spec (fd c) serv) as [Hfd|Hfd].
  - apply wp_bind. eapply wp_mono; [|apply (accept_step_ok [epfd]); [done|]].
    2: { apply elem_of_app. right. rewrite <- Hfd. eapply fds_elem; [done|lia]. }
    intros a s1 (Hinv1 & Hb1 & _ & Hacc).
    destruct Hacc as [(-> & -> & _)|(i & c' & r & t & Hi & Hfree & _ & _ & Hr)].
    { apply wp_ret. split_and!; [done|by exists a0|done]. }
    destruct (Z.ltb_spec (r_val r) 0).
    { destruct Hr as (-> & _ & Hg). apply wp_ret. unfold listening. rewrite Hg.
      split_and!; [done|by exists a0|done]. }
    destruct Hr as (-> & Hg). simpl. destruct (Z.eqb_spec (r_val r) (-1)); [lia|].
    apply wp_bind, wp_ret, wp_call_. intros r' w' E'.
    assert (Hilt := lookup_lt_Some _ _ _ Hi).
    destruct Hinv as (Hlen & _). rewrite Hlen in Hilt.
    split_and!.
    + eapply epoll_ctl_step; [done|set_solver| |done]. split; [simpl; lia|].
      eapply inventory_owned; [done|]. apply elem_of_app. right. rewrite Hg. cbn [connections].
      eapply (fds_elem _ i (Conn (r_val r) _)); [apply list_lookup_insert_eq; by rewrite Hlen|simpl; lia].
    + exists a0. simpl. rewrite Hg. simpl. rewrite list_lookup_insert_ne; [done|].
      intros ->. rewrite Hl in Hi. simplify_eq. simpl in Hfree. lia.
    + simpl. pose proof (budget_le s1 _ _ _ E'). lia.
  - apply wp_bind. eapply wp_mono; [|eapply handle_ok; [auto|done..|lia]].
    intros rc s1 (Hinv1 & Hb1 & Hh). apply wp_call_. intros r' w' E'.
    destruct (fds_handled _ _ _ _ _ Hh Hc) as [_ Hother].
    split_and!.
    + eapply epoll_ctl_step; [done|set_solver| |done]. by eapply handled_target.
    + exists a0. simpl. rewrite Hother; [done|]. intros Heq. rewrite <- Heq, Hl in Hc.
      by simplify_eq.
    + simpl. pose proof (budget_le s1 _ _ _ E'). lia.
Qed.

Lemma epoll_step_ok s epfd serv :
  inv [epfd] s → listening serv s → 0 ≤ serv →
  wp (epoll_step fuel epfd serv ()) (λ r s',
    inv [epfd] s' ∧ listening serv s' ∧
    match r with inl _ => (budget (world s') < budget (world s))%nat | inr _ => True end) s.
Proof.
  intros Hinv Hl Hserv. unfold epoll_step.
  apply wp_bind, wp_bind, wp_callv. intros r w E. apply wp_ret.
  assert (Hinv2 : inv [epfd] (after s A_is_running r w)).
  { eapply plain_step; [done..|by eapply call_ok_none]. }
  pose proof (budget_step _ _ _ _ E) as Hb2. unfold again in Hb2. simpl in Hb2.
  destruct (r_val r =? 0); simpl in Hb2 |- *; [by apply wp_ret|].
  set (s2 := after s A_is_running r w) in *.
  apply wp_bind, wp_call. intros r' w' E'. pose proof (budget_le s2 _ _ _ E') as Hb3.
  destruct (epoll_events _ _ _ _ _ _ E') as [Hn Hev].
  assert (Hinv3 : inv [epfd] (after s2 (A_epoll_wait epfd NUM_EPOLL_EVT 200) r' w')).
  { eapply plain_step; [done..|]. eapply call_ok_some; [done..| |done].
    unfold held. set_solver. }
  destruct (Z.ltb_spec (r_val r') 0); [by apply wp_ret|].
  apply wp_bind. eapply wp_mono; [|apply wp_for_from with
    (I := λ _ s', inv [epfd] s' ∧ listening serv s' ∧ (budget (world s') ≤ budget w')%nat)];
    [|done|].
  - intros _ s4 (Hinv4 & Hl4 & Hb4). apply wp_ret. split_and!; [done..|simpl in *; lia].
  - intros i s4 Hi (Hinv4 & Hl4 & Hb4).
    destruct (lookup_lt_is_Some_2 (r_list r') (Z.to_nat i)) as [ev Hlk]; [lia|].
    apply wp_bind. eapply wp_of_option; [done|].
    eapply wp_mono; [|apply (epoll_event_ok s4 epfd serv ev.2); [done..|]].
    { intros _ s5 (? & ? & ?). split_and!; [done..|lia]. }
    rewrite Forall_lookup in Hev. eapply (interest_range [epfd] s2); [done|]. by eapply Hev.
Qed.

Lemma epoll_loop_ok s epfd serv :
  inv [epfd] s → listening serv s → 0 ≤ serv →
  wp (loop fuel (epoll_step fuel epfd serv) ()) (λ _ s', inv [epfd] s') s.
Proof.
  intros Hinv Hl Hserv. eapply wp_loop with
    (I := λ _ s', inv [epfd] s' ∧ listening serv s') (μ := λ _ s', budget (world s')).
  - intros [] s1 [Hinv1 Hl1]. eapply wp_mono; [|by apply epoll_step_ok].
    intros [[]|[]] s2; intuition.
  - done.
  - destruct Hinv as (_ & _ & _ & _ & He & _). unfold enough in He. lia.
Qed.

Lemma epoll_cleanup_ok epfd s :
  inv [epfd] s →
  wp (for_from 0 (Z.to_nat NUM_CONNECTIONS) (λ i,
        c ← get_conn i;
        if fd c =? -1 then mret ()
        else
          call_ (A_epoll_ctl epfd NFP_EPOLL_CTL_DEL (fd c) None);;
          call_ (A_close (fd c));;
          set_fd i (-1)))
    (λ _ s', inv [epfd] s' ∧ fds (table s') = []) s.
Proof.
  intros Hinv. eapply wp_mono; [|apply wp_for_from with
    (I := λ i s', inv [epfd] s' ∧ cleared i s')].
  - intros _ s' [Hinv' Hcl]. rewrite Z.add_0_l, NUM_pos in Hcl. split; [done|].
    by eapply cleared_all.
  - split; [done|]. intros j c Hj. lia.
  - intros i s' Hi [Hinv' Hcl]. rewrite NUM_pos in Hi.
    destruct (inventory_lookup _ _ _ _ _ i Hinv') as [c Hc]; [lia|].
    apply wp_bind. eapply wp_get_conn; [done|lia|].
    destruct (Z.eqb_spec (fd c) (-1)).
    { apply wp_ret. split; [done|]. eapply cleared_skip; [done..|lia]. }
    apply wp_bind, wp_call_. intros r w E. apply drop_ok; [|done..|lia].
    eapply epoll_ctl_step; [done|set_solver| |done]. left.
    eapply inventory_owned; [done|]. apply elem_of_app. right. by eapply fds_elem.
Qed.

(** Registering the listening socket in the table turns it from a descriptor
    of its own into an entry. *)
Lemma inventory_listen s serv epfd r w c :
  inv [serv] s → fds (table s) = [] → 0 ≤ serv → 0 ≤ r_val r → epfd = r_val r →
  api (A_epoll_create 1) (world s) = (r, w) → table s !! 0%nat = Some c →
  inv [epfd] (MkApp w (r_errno r) (trace s ++ [(A_epoll_create 1, r)])
    (MkHttpd (<[0%nat := Conn serv (addr c)]> (table s)) (web_arg (glob s)))).
Proof.
  intros (Hlen & Hnd & Hno & Hf) Hnil Hserv Hr -> E Hc.
  assert (Hok : call_ok http_rule o0 (held o0 [serv] (table s)) (A_epoll_create 1))
    by (by eapply call_ok_none).
  pose proof (fine_open _ _ _ _ _ (A_epoll_create 1) _ _ Hf eq_refl Hok E) as Hopen.
  destruct (Z.leb_spec 0 (r_val r)); [|lia]. destruct Hopen as [Hfresh Hf1].
  assert (Hfdc : fd c = -1).
  { destruct (decide (fd c = -1)); [done|]. pose proof (fds_elem _ _ _ Hc) as Hin.
    rewrite Hnil in Hin. set_solver. }
  assert (Hp := fds_fill _ _ _ (Conn serv (addr c)) Hc Hfdc ltac:(simpl; lia)).
  rewrite Hnil in Hno, Hp. unfold held in *. rewrite Hnil in *. simpl in Hp.
  apply Permutation_singleton_r in Hp.
  unfold inventory, held. cbn [glob connections]. rewrite Hp.
  assert (Hs : serv ∉ o0) by (apply Hno; by left).
  split_and!; [by rewrite length_insert| | |].
  - apply NoDup_cons. split; [set_solver|]. apply NoDup_singleton.
  - intros x [->|[->|[]%elem_of_nil]%elem_of_cons]%elem_of_cons; [set_solver|done].
  - replace (o0 ∪ list_to_set ([r_val r] ++ [serv])) with
      ({[r_val r]} ∪ (o0 ∪ list_to_set ([serv] ++ []) : gset Z)); [done|].
    clear. set_solver.
Qed.

Lemma webserver_epoll_ok s serv :
  inv [serv] s → fds (table s) = [] → 0 ≤ serv → wp (webserver_epoll fuel serv) finished s.
Proof.
  intros Hinv Hnil Hserv. unfold webserver_epoll. apply wp_bind, wp_callv. intros r w E.
  destruct (Z.eqb_spec (r_val r) (-1)) as [Hr|Hr].
  { apply wp_ret. right. split_and!; [done|apply gave_up_last; auto|]. exists [serv].
    pose proof Hinv as (_ & _ & _ & Hf).
    assert (Hok : call_ok http_rule o0 (held o0 [serv] (table s)) (A_epoll_create 1))
      by (by eapply call_ok_none).
    pose proof (fine_open _ _ _ _ _ (A_epoll_create 1) _ _ Hf eq_refl Hok E) as Hopen.
    rewrite Hr in Hopen. by eapply inventory_same. }
  assert (Hpos : 0 ≤ r_val r) by (destruct (epoll_create_val _ _ _ _ E); lia).
  destruct (inventory_lookup _ _ _ _ _ 0 Hinv) as [c Hc]; [done|].
  apply wp_bind. eapply wp_set_fd; [done..|].
  pose proof (inventory_listen _ _ _ _ _ _ Hinv Hnil Hserv Hpos eq_refl E Hc) as Hinv1.
  match type of Hinv1 with inventory _ _ _ _ ?x => set (s1 := x) in *; match goal with |- wp ?m ?q _ => change (wp m q s1) end end.
  assert (Hl1 : listening serv s1).
  { exists (addr c). simpl. apply list_lookup_insert_eq. by apply lookup_lt_Some in Hc. }
  clearbody s1. apply wp_bind, wp_call_. intros r2 w2 E2.
  apply wp_bind, wp_callv. intros r3 w3 E3.
  set (s2 := after s1 (A_epoll_ctl (r_val r) NFP_EPOLL_CTL_ADD serv (Some (NFP_EPOLLIN, 0))) r2 w2) in *.
  assert (Hinv2 : inv [r_val r] s2).
  { eapply epoll_ctl_step; [done|set_solver| |done]. split; [done|].
    eapply inventory_owned; [done|]. apply elem_of_app. right. destruct Hl1 as [a Hl1].
    eapply (fds_elem _ _ (Conn serv a)); [done|simpl; lia]. }
  assert (Hinv3 : inv [r_val r] (after s2 A_get_processing_state r3 w3)).
  { eapply plain_step; [done..|by eapply call_ok_none]. }
  destruct (Z.eqb_spec (r_val r3) 0).
  { apply wp_ret. right. split_and!; [done|apply gave_up_last; auto|by exists [r_val r]]. }
  apply wp_bind. eapply wp_mono; [|by apply (epoll_loop_ok _ (r_val r) serv)].
  intros ? s4 Hinv4. apply wp_bind. eapply wp_mono; [|by apply (epoll_cleanup_ok (r_val r))].
  intros _ s5 [Hinv5 Hnil5]. apply wp_bind, wp_call_. intros r6 w6 E6. apply wp_ret.
  left. split_and!; [done|by apply last_close|done].
Qed.

(** ** Starting *)

(** The server holds nothing and the table is empty. *)
Definition idle s : Prop :=
  length (table s) = Z.to_nat NUM_CONNECTIONS ∧ fds (table s) = [] ∧
  fine http_rule o0 o0 fuel s.

Lemma idle_plain s c r w :
  idle s → api c (world s) = (r, w) → plain c = true → uses c = None → ordinary c = true →
  idle (after s c r w).
Proof.
  intros (Hlen & Hnil & Hf) E Hp Hu Ho. split_and!; [done..|].
  eapply fine_plain; [done..|by apply call_ok_none|done].
Qed.

Lemma idle_socket s d ty p r w :
  idle s → api (A_socket d ty p) (world s) = (r, w) →
  if r_val r <? 0 then idle (after s (A_socket d ty p) r w)
  else inv [r_val r] (after s (A_socket d ty p) r w).
Proof.
  intros (Hlen & Hnil & Hf) E.
  assert (Hok : call_ok http_rule o0 o0 (A_socket d ty p)) by (by apply call_ok_none).
  pose proof (fine_open _ _ _ _ _ (A_socket d ty p) _ _ Hf eq_refl Hok E) as Hopen.
  destruct (Z.ltb_spec (r_val r) 0), (Z.leb_spec 0 (r_val r)); try lia; [done|].
  destruct Hopen as [Hfresh Hf1]. unfold inventory, held. cbn [after glob]. rewrite Hnil.
  split_and!; [done|apply NoDup_singleton|set_solver|].
  replace (o0 ∪ list_to_set ([r_val r] ++ [])) with ({[r_val r]} ∪ o0); [done|].
  clear. set_solver.
Qed.

Lemma own_step x s c r w :
  inv [x] s → api c (world s) = (r, w) → plain c = true → uses c = Some x →
  ordinary c = true → inv [x] (after s c r w).
Proof.
  intros. eapply plain_step; [done..|]. eapply call_ok_some; [done..| |done].
  unfold held. set_solver.
Qed.

Lemma close_idle x s :
  inv [x] s → fds (table s) = [] →
  wp (call_ (A_close x);; mret (-1)) (λ v s',
    glob s' = glob s ∧ ((v = -1 ∧ idle s') ∨ (0 ≤ v ∧ inv [v] s'))) s.
Proof.
  intros Hinv Hnil. apply wp_bind, wp_call_. intros r w E. apply wp_ret. split; [done|].
  left. split; [done|]. split_and!; [by destruct Hinv|done|by apply last_close].
Qed.

Lemma create_server_socket_ok s :
  idle s →
  wp create_server_socket (λ v s',
    glob s' = glob s ∧ ((v = -1 ∧ idle s') ∨ (0 ≤ v ∧ inv [v] s'))) s.
Proof.
  intros Hidle. unfold create_server_socket.
  apply wp_bind, wp_callv. intros r1 w1 E1.
  pose proof (idle_plain _ _ _ _ Hidle E1 eq_refl eq_refl eq_refl) as Hidle1.
  destruct (r_val r1 =? 0); [by apply wp_ret; auto|].
  apply wp_bind, wp_call. intros r2 w2 E2.
  pose proof (idle_plain _ _ _ _ Hidle1 E2 eq_refl eq_refl eq_refl) as Hidle2.
  destruct (r_val r2 =? 0); simpl negb; cbv iota; [|by apply wp_ret; auto].
  apply wp_bind, wp_callv. intros r3 w3 E3.
  pose proof (idle_socket _ _ _ _ _ _ Hidle2 E3) as Hs3.
  destruct (Z.ltb_spec (r_val r3) 0); [by apply wp_ret; auto|].
  apply wp_bind, wp_getg, wp_bind, wp_callv. intros r4 w4 E4.
  pose proof (own_step _ _ _ _ _ Hs3 E4 eq_refl eq_refl eq_refl) as Hs4.
  destruct (r_val r4 <? 0).
  { eapply wp_mono; [|by apply (close_idle (r_val r3)); [|destruct Hidle as (_ & ? & _)]].
    intros v s' [Hg Hv]. by rewrite Hg. }
  apply wp_bind, wp_callv. intros r5 w5 E5.
  pose proof (own_step _ _ _ _ _ Hs4 E5 eq_refl eq_refl eq_refl) as Hs5.
  destruct (negb (r_val r5 =? 0)).
  { eapply wp_mono; [|by apply (close_idle (r_val r3)); [|destruct Hidle as (_ & ? & _)]].
    intros v s' [Hg Hv]. by rewrite Hg. }
  apply wp_ret. split; [done|]. by right.
Qed.

Lemma clear_table_ok s :
  length (table s) = Z.to_nat NUM_CONNECTIONS → fine http_rule o0 o0 fuel s →
  wp (for_from 0 (Z.to_nat NUM_CONNECTIONS) (λ i, set_fd i (-1))) (λ _ s',
    idle s' ∧ web_arg (glob s') = web_arg (glob s)) s.
Proof.
  intros Hlen Hf. eapply wp_mono; [|apply wp_for_from with
    (I := λ i s', length (table s') = Z.to_nat NUM_CONNECTIONS ∧
            web_arg (glob s') = web_arg (glob s) ∧
            fine http_rule o0 o0 fuel s' ∧ cleared i s')].
  - intros _ s' (Hlen' & Ha & Hf' & Hcl). split; [|done]. split_and!; [done| |done].
    apply fds_none. intros j c Hj. eapply Hcl; [|done].
    apply lookup_lt_Some in Hj. lia.
  - split_and!; [done..|]. intros j c Hj. lia.
  - intros i s' Hi (Hlen' & Ha & Hf' & Hcl).
    destruct (lookup_lt_is_Some_2 (table s') (Z.to_nat i)) as [c Hc]; [lia|].
    eapply wp_set_fd; [done|lia|]. cbn [glob connections web_arg].
    split_and!; [by rewrite length_insert|done|done|].
    eapply cleared_free; [done|lia|done].
Qed.

Lemma webserver_ok a s :
  length (table s) = Z.to_nat NUM_CONNECTIONS → fine http_rule o0 o0 fuel s →
  wp (webserver fuel (Some a)) (λ rc s', finished rc s' ∨ (rc = -1 ∧ idle s')) s.
Proof.
  intros Hlen Hf. unfold webserver. apply wp_bind, wp_call_. intros r w E.
  apply wp_bind, wp_setg. apply wp_bind.
  eapply wp_mono; [|apply clear_table_ok; [done|]].
  2: { enough (fine http_rule o0 o0 fuel (after s (A_sleep 1) r w)) by done.
       eapply fine_plain; [done..|by apply call_ok_none|done]. }
  intros _ s1 [Hidle _]. apply wp_bind. eapply wp_mono; [|by apply create_server_socket_ok].
  intros v s2 [Hg [[-> Hidle2]|[Hv Hinv]]]; [by apply wp_ret; auto|].
  destruct (Z.eqb_spec v (-1)); [lia|].
  assert (Hnil : fds (table s2) = []) by (rewrite Hg; by destruct Hidle as (_ & ? & _)).
  apply wp_bind, wp_getg. destruct (use_epoll (web_arg (glob s2))).
  - eapply wp_mono; [|by apply webserver_epoll_ok]. auto.
  - eapply wp_mono; [|by apply webserver_select_ok]. auto.
Qed.
End Loops.

End HttpdServer.
