(* ===== verification/HttpdTheorems.v ===== *)
(** * The web server: theorems

    What a thread running [webserver] does with descriptors and with requests,
    whatever the other side of the API answers within [SocketLaws]; and a
    small world in which those laws hold. *)

From S2P Require Import Prelude Errno App AppProofs Httpd HttpdProofs HttpdServer.
Import App AppProofs Httpd HttpdProofs HttpdServer.

Module HttpdTheorems.

(** ** A world *)

(** Descriptors are handed out in order; [d_life] more times the server is told
    to go on, or a piece of a file is read. *)
Record demo := Demo { d_next : nat; d_life : nat }.

Definition demo_request : bytes := text "GET /a.html HTTP/1.0" ++ crlf ++ crlf.

(** A UDP datagram for port 5001. *)
Definition demo_packet : bytes :=
  [69; 0; 0; 28; 0; 0; 0; 0; 64; 17; 1; 2; 10; 0; 0; 1; 10; 0; 0; 2; 4; 0; 19; 137; 0; 8; 3; 4].

Definition rep (v : Z) (data : bytes) (set : gset Z) : areply (gset Z) :=
  Reply v 0 0 0 data set [].

Definition demo_api (c : acall (gset Z)) (w : demo) : areply (gset Z) * demo :=
  let new := (rep (Z.of_nat (d_next w)) [] ∅, Demo (S (d_next w)) (d_life w)) in
  match c with
  | A_socket _ _ _ | A_accept _ | A_epoll_create _ | A_queue_create _ _ | A_cos_create _ _ _ => new
  | A_is_running =>
      match d_life w with
      | O => (rep 0 [] ∅, w)
      | S n => (rep 1 [] ∅, Demo (d_next w) n)
      end
  | A_signal =>
      match d_life w with
      | O => (rep 1 [] ∅, w)
      | S n => (rep 0 [] ∅, Demo (d_next w) n)
      end
  | A_recv _ len _ =>
      let data := take (Z.to_nat len) demo_request in (rep (Z.of_nat (length data)) data ∅, w)
  | A_recvfrom _ len _ _ =>
      let data := take (Z.to_nat len) (text "hello") in
      (Reply (Z.of_nat (length data)) 0 16 0 data ∅ [(16, 2); (5000, 16)], w)
  | A_ifnet_ipv4_addr_get _ _ => (Reply 0 0 10 0 [] ∅ [], w)
  | A_send _ data _ => (rep (match data with [] => -1 | _ => Z.of_nat (length data) end) [] ∅, w)
  | A_fread _ len =>
      match d_life w with
      | O => (rep 0 [] ∅, w)
      | S n => let data := take (Z.to_nat len) (text "hello") in
               (rep (Z.of_nat (length data)) data ∅, Demo (d_next w) n)
      end
  | A_select _ (Some set) _ _ _ => (rep 1 [] set, w)
  | A_pktin_recv _ _ => (Reply 2 0 0 0 [] ∅ [(100, 0); (101, 0)], w)
  | A_pkt_vector_add _ _ => (rep 1 [] ∅, w)
  | A_packet_len _ => (rep (Z.of_nat (length demo_request)) [] ∅, w)
  | A_packet_data _ => (rep 1 demo_request ∅, w)
  | A_packet_l3 _ => (rep 1 demo_packet ∅, w)
  | A_ifport_ifnet_get _ _ | A_get_processing_state | A_fopen _ | A_packet_push_tail _ _
  | A_ifnet_get_by_name _ | A_parse_ip_addr _ | A_shm_addr _ | A_pool_create
  | A_sched_group_create _ | A_port_pktio _ | A_pool_lookup | A_pmr_create _ _ _ _ | A_channel_create | A_pktio_open _ _ | A_pktio_lookup _ | A_pktout_queue _ =>
      (rep 1 [] ∅, w)
  | A_pktin_queue _ n =>
      (Reply n 0 0 0 [] ∅ ((λ i, (Z.of_nat i, 0)) <$> seq 0 (Z.to_nat n)), w)
  | A_cpu_count => (rep 4 [] ∅, w)
  | A_process_fork_n _ => (rep 1 [] ∅, w)
  | A_default_worker_cpumask _ _ => (Reply 0 0 2 0 [] ∅ [], w)
  | A_threads_create _ n => (rep n [] ∅, w)
  | _ => (rep 0 [] ∅, w)
  end.

#[global] Instance demo_app : App demo (gset Z) := {
  api := demo_api;
  NFP_FD_ZERO := ∅;
  NFP_FD_SET x set := {[x]} ∪ set;
  NFP_FD_CLR x set := set ∖ {[x]};
  NFP_FD_ISSET x set := bool_decide (x ∈ set);
}.

Definition demo_open (w : demo) : gset Z := list_to_set (Z.of_nat <$> seq 0 (d_next w)).

Lemma demo_open_lt w x : x ∈ demo_open w → x < Z.of_nat (d_next w).
Proof.
  unfold demo_open. intros (n & -> & Hn%elem_of_seq)%elem_of_list_to_set%list_elem_of_fmap. lia.
Qed.

Lemma demo_open_mono w w' : (d_next w <= d_next w')%nat → demo_open w ⊆ demo_open w'.
Proof.
  intros Hle x. unfold demo_open. intros (n & -> & Hn%elem_of_seq)%elem_of_list_to_set%list_elem_of_fmap.
  apply elem_of_list_to_set, list_elem_of_fmap. exists n. split; [done|]. apply elem_of_seq. lia.
Qed.

Lemma demo_next_mono c w r w' : demo_api c w = (r, w') → (d_next w <= d_next w')%nat.
Proof. destruct c; simpl; intros; repeat case_match; simplify_eq; simpl; lia. Qed.

Lemma demo_opens c w r w' :
  demo_api c w = (r, w') → opens c = true →
  r_val r = Z.of_nat (d_next w) ∧ d_next w' = S (d_next w).
Proof. destruct c; simpl; intros; simplify_eq; done. Qed.

#[global] Program Instance demo_laws : SocketLaws demo (gset Z) := {
  open_fds := demo_open;
  budget := d_life;
  interest _ := ∅;
}.
Next Obligation.
  intros c w r w' E. destruct (opens c) eqn:Ho.
  - destruct (demo_opens _ _ _ _ E Ho) as [Hr Hn].
    assert (Hs : owned_step (demo_open w) (c, r) ⊆ {[r_val r]} ∪ demo_open w).
    { unfold owned_step. destruct c; try discriminate; simpl; case_match; set_solver. }
    etrans; [exact Hs|]. intros x [->%elem_of_singleton|Hx]%elem_of_union.
    + unfold demo_open. rewrite Hr, Hn. apply elem_of_list_to_set, list_elem_of_fmap.
      exists (d_next w). split; [done|]. apply elem_of_seq. lia.
    + eapply demo_open_mono; [|done]. lia.
  - assert (Hs : owned_step (demo_open w) (c, r) ⊆ demo_open w).
    { unfold owned_step. destruct c; try discriminate; simpl; try case_match; set_solver. }
    etrans; [exact Hs|]. by eapply demo_open_mono, demo_next_mono.
Qed.
Next Obligation.
  intros c w r w' E Ho _ Hin. destruct (demo_opens _ _ _ _ E Ho) as [Hr _].
  apply demo_open_lt in Hin. lia.
Qed.
Next Obligation.
  intros ? len ? w r w' E Hlen. simpl in E. simplify_eq. cbn [r_val r_data rep].
  rewrite length_take. lia.
Qed.
Next Obligation.
  intros ? len w r w' E Hlen. simpl in E. case_match; simplify_eq; cbn [r_val r_data rep]; [done|].
  rewrite length_take. lia.
Qed.
Next Obligation.
  intros c w r w' E. unfold again.
  destruct c; simpl in E; repeat case_match; simplify_eq; simpl; try lia.
Qed.
Next Obligation. set_solver. Qed.
Next Obligation. intros ? w r w' E. simpl in E. simplify_eq. simpl. lia. Qed.
Next Obligation. intros ? ? ? w r w' E. simpl in E. simplify_eq. simpl. split; [lia|done]. Qed.

#[global] Instance demo_fdset : FdSetLaws demo (gset Z).
Proof.
  constructor. intros x y set. simpl. apply eq_true_iff_eq.
  rewrite orb_true_iff, !bool_decide_eq_true. set_solver.
Qed.

(** A server at rest with an empty table, and one with a connection on
    descriptor 7 in entry 1. *)
Definition demo_arg (epoll : bool) : webserver_arg_t := WebArg (text "/var/www") 2048 epoll.
Definition demo_table : list connection_t := replicate (Z.to_nat NUM_CONNECTIONS) (Conn (-1) 0).
Definition demo_start : app demo (gset Z) httpd :=
  MkApp (Demo 3 4) 0 [] (MkHttpd demo_table (demo_arg false)).
Definition demo_busy : app demo (gset Z) httpd :=
  MkApp (Demo 8 1) 0 [(A_socket 2 1 6, rep 3 [] ∅); (A_accept 3, rep 7 [] ∅)]
    (MkHttpd (<[1%nat := Conn 7 0]> demo_table) (demo_arg false)).

(** ** Theorems *)

(** [C2] A thread running [webserver], in select or in epoll mode, ends when the
    outside stops answering "again" (within the fuel that number gives).  Up
    to then every call works on a descriptor the server holds, obtained and not
    yet closed ([disciplined]), every [nfp_select] is given all the descriptors
    it holds with a bound above them, and every descriptor added to the epoll
    instance is held and its event points into the connection table.  The one
    use of a descriptor that need not be held is a removal from the epoll
    instance: what is removed is held, or was closed by the call just before,
    or is the -1 of an entry that is free ([http_rule]).  When the thread
    returns 0 it holds exactly the descriptors it started with, save those
    whose close failed, and the table is empty.  Otherwise it returns -1, and
    the same holds unless the processing state was not available or the epoll
    instance could not be created. *)
Theorem webserver_releases_descriptors
    {W F : Type} `{!App W F, !SocketLaws W F, !FdSetLaws W F}
    (o0 : gset Z) (fuel : nat) (a : webserver_arg_t) (s : app W F httpd) :
  trace s = [] → o0 ⊆ open_fds (world s) → interest (world s) = ∅ →
  length (connections (glob s)) = Z.to_nat NUM_CONNECTIONS →
  2048 + Z.of_nat (budget (world s)) < Z.of_nat fuel →
  wp (webserver fuel (Some a)) (λ rc s',
    disciplined o0 (trace s') ∧ obeys (http_rule o0) (trace s') ∧
    o0 ⊆ owned o0 (trace s') ∧
    ((rc = 0 ∨ rc = -1) ∧
     (rc = -1 → ¬ gave_up (trace s') → owned o0 (trace s') ⊆ o0 ∪ close_failures (trace s')) ∧
     (rc = 0 → owned o0 (trace s') ⊆ o0 ∪ close_failures (trace s') ∧
               fds (connections (glob s')) = []))) s.
Proof.
  intros Ht Ho Hi Hlen Hfuel.
  assert (Hf : fine (http_rule o0) o0 o0 fuel s).
  { unfold fine, tidy, enough, obeys. rewrite Ht, Hi. split_and!; try done; try set_solver.
    intros t e t' Hnil. by destruct t. }
  eapply wp_mono; [|by apply webserver_ok]. clear Hf.
  assert (Hend : ∀ live (s' : app W F httpd), o0 ⊆ live → fine (http_rule o0) o0 live fuel s' →
    disciplined o0 (trace s') ∧ obeys (http_rule o0) (trace s') ∧ o0 ⊆ owned o0 (trace s')).
  { intros live s' Hl ((? & ? & _) & _ & ? & _). split_and!; [done..|]. by etrans. }
  intros rc s' [[(-> & Hf & Hnil)|(-> & Hgave & base & _ & _ & _ & Hf)]|(-> & _ & _ & Hf)].
  - destruct (Hend o0 s') as (? & ? & ?); [done..|].
    destruct Hf as ((_ & _ & ? & _) & _). split_and!; auto.
  - destruct (Hend (held o0 base (connections (glob s'))) s' (union_subseteq_l _ _) Hf) as (? & ? & ?).
    split_and!; auto; [by intros _ []|done].
  - destruct (Hend o0 s') as (? & ? & ?); [done..|].
    destruct Hf as ((_ & _ & ? & _) & _). split_and!; auto. done.
Qed.

(** In a world that lets the server run for four more answers, it comes to its
    end and holds no descriptor. *)
Lemma webserver_releases_descriptors_witness :
  wp (webserver (Z.to_nat 3000) (Some (demo_arg false))) (λ rc s',
    disciplined ∅ (trace s') ∧ obeys (http_rule ∅) (trace s') ∧
    ∅ ⊆ owned ∅ (trace s') ∧
    ((rc = 0 ∨ rc = -1) ∧
     (rc = -1 → ¬ gave_up (trace s') → owned ∅ (trace s') ⊆ ∅ ∪ close_failures (trace s')) ∧
     (rc = 0 → owned ∅ (trace s') ⊆ ∅ ∪ close_failures (trace s') ∧
               fds (connections (glob s')) = []))) demo_start.
Proof.
  apply (webserver_releases_descriptors (W:=demo) (F:=gset Z)).
  - reflexivity.
  - apply empty_subseteq.
  - reflexivity.
  - reflexivity.
  - simpl. lia.
Defined.

(** ** Requests *)

Lemma skip_spaces_replicate n s : skip_spaces (replicate n 32 ++ s) = skip_spaces s.
Proof. induction n; simpl; done. Qed.

Lemma skip_spaces_head s c r : skip_spaces s = c :: r → c ≠ 32.
Proof. induction s as [|x s IH]; simpl; [done|]. case_match; [done|]. intros [= -> ->]. lia. Qed.

Lemma before_app c p rest : (c ∉ p) → before c (p ++ c :: rest) = Some p.
Proof.
  induction p as [|x p IH]; simpl; [by rewrite Z.eqb_refl|].
  intros [Hx Hp]%not_elem_of_cons. destruct (Z.eqb_spec x c); [congruence|].
  by rewrite IH.
Qed.

Lemma before_skipped s url : before 32 (skip_spaces s) = Some url → url ≠ [].
Proof.
  destruct (skip_spaces s) as [|c r] eqn:E; [done|]. apply skip_spaces_head in E. simpl.
  destruct (Z.eqb_spec c 32); [done|]. destruct (before 32 r); simpl; congruence.
Qed.

(** The request line [GET <url> ...]. *)
Definition get_request (n : nat) (url rest : bytes) : bytes :=
  text "GET " ++ replicate n 32 ++ url ++ 32 :: rest.

Lemma get_request_url n url rest :
  url ≠ [] → (32 ∉ url) →
  starts_with (text "GET ") (get_request n url rest) = true ∧
  before 32 (skip_spaces (drop 4 (get_request n url rest))) = Some url.
Proof.
  intros Hne Hsp. unfold get_request. split.
  - apply bool_decide_eq_true. by rewrite take_app_length.
  - change 4%nat with (length (text "GET ")) at 1. rewrite drop_app_length, skip_spaces_replicate.
    destruct url as [|c url]; [done|]. apply not_elem_of_cons in Hsp as [Hc Hsp]. simpl.
    destruct (Z.eqb_spec c 32); [congruence|]. simpl.
    destruct (Z.eqb_spec c 32); [congruence|]. by rewrite before_app.
Qed.

(** [C32] When a connection delivers a request line GET url, the file named by
    the url (without a leading slash) under the document root is opened; if
    there is none, and no send failed, exactly the 404 line is sent, otherwise
    the 200 line, the content type of the file's extension and the contents of
    the file to its end, and the file is closed.  The connection is then closed
    - a close that fails is repeated unless the connection was reset - and its
    table entry freed. *)
Theorem http_request_answered
    {W F : Type} `{!App W F, !SocketLaws W F}
    (o0 : gset Z) (base : list Z) (fuel : nat) (s : app W F httpd) (i : Z) (c : connection_t)
    (r : areply F) (w : W) (n : nat) (url rest : bytes) :
  inventory any o0 fuel base s →
  0 ≤ i → connections (glob s) !! Z.to_nat i = Some c → fd c ≠ -1 →
  api (A_recv (fd c) 1023 0) (world s) = (r, w) → 0 < r_val r →
  cstr (r_data r) = get_request n url rest → url ≠ [] → (32 ∉ url) →
  wp (handle_connection fuel i) (λ rc s', rc = 0 ∧
    connections (glob s') = <[Z.to_nat i := Conn (-1) (addr c)]> (connections (glob s)) ∧
    ∃ t1 t2, trace s' = trace s ++ (A_recv (fd c) 1023 0, r) :: t1 ++ t2 ∧
      serves (fd c) (root_dir (web_arg (glob s))) (requested url) t1 ∧
      closing (fd c) t2) s.
Proof.
  intros Hinv Hi Hc Hfd E Hr Hreq Hne Hsp.
  eapply wp_mono; [|by apply (handle_ok any any_lenient o0 fuel base s i c)].
  intros rc s' (_ & _ & Hh). unfold handled in Hh.
  destruct (Z.eqb_spec (fd c) (-1)); [done|]. destruct Hh as (r' & w' & t & E' & Ht & Hh).
  rewrite E in E'. simplify_eq.
  destruct (Z.ltb_spec (r_val r') 0); [lia|]. destruct (Z.ltb_spec 0 (r_val r')); [|lia].
  destruct Hh as (-> & Hg & t1 & t2 & -> & Hcl & Hans). rewrite Hg. split_and!; [done..|].
  exists t1, t2. split_and!; [done| |done]. unfold answered in Hans. rewrite Hreq in Hans.
  destruct (get_request_url n url rest Hne Hsp) as [H1 H2]. by rewrite H1, H2 in Hans.
Qed.

(** The bookkeeping of a server that listens on 3 and has accepted 7. *)
Lemma demo_busy_inventory : inventory any {[0; 1; 2]} (Z.to_nat 3000) [3] demo_busy.
Proof.
  assert (Hfds : fds (connections (glob demo_busy)) = [7]) by (by vm_compute).
  unfold inventory, held. rewrite Hfds. split_and!; [by vm_compute| | |].
  - apply (bool_decide_unpack _). by vm_compute.
  - intros x. rewrite !elem_of_app, !list_elem_of_singleton. set_solver by lia.
  - split_and!; [..|done|apply (bool_decide_unpack _); by vm_compute].
    + split_and!; simpl; [|apply (bool_decide_unpack _); by vm_compute..].
      split_and!; [done| |done]. intros ? [= <-]. apply (bool_decide_unpack _). by vm_compute.
    + unfold enough. simpl. lia.
Qed.

Lemma http_request_answered_witness :
  wp (handle_connection (Z.to_nat 3000) 1) (λ rc s', rc = 0 ∧
    connections (glob s') = <[1%nat := Conn (-1) 0]> (connections (glob demo_busy)) ∧
    ∃ t1 t2, trace s' = trace demo_busy ++
        (A_recv 7 1023 0, rep 24 demo_request ∅) :: t1 ++ t2 ∧
      serves 7 (text "/var/www") (text "a.html") t1 ∧ closing 7 t2) demo_busy.
Proof.
  apply (http_request_answered (W:=demo) (F:=gset Z) {[0; 1; 2]} [3] (Z.to_nat 3000) demo_busy
           1 (Conn 7 0) (rep 24 demo_request ∅) (Demo 8 1) 0 (text "/a.html")
           (text "HTTP/1.0" ++ crlf ++ crlf)).
  - exact demo_busy_inventory.
  - lia.
  - reflexivity.
  - simpl. lia.
  - reflexivity.
  - simpl. lia.
  - reflexivity.
  - discriminate.
  - apply (bool_decide_unpack _). vm_compute. exact I.
Defined.

(** A new connection goes to the first free entry of the table: entries
    before it are in use, the others keep what they hold, and the accepted
    descriptor differs from every descriptor in use.  When no entry is free
    nothing is accepted, and -1 is returned as when [nfp_accept] fails. *)
Theorem accept_takes_first_free
    {W F : Type} `{!App W F, !SocketLaws W F}
    (o0 : gset Z) (base : list Z) (fuel : nat) (s : app W F httpd) (serv : Z) :
  inventory any o0 fuel base s →
  serv ∈ base ++ fds (connections (glob s)) →
  wp (accept_connection serv) (λ a s',
    inventory any o0 fuel base s' ∧ accepted serv a s s' ∧
    (a.1 ≠ -1 → a.1 ∉ base ++ fds (connections (glob s)))) s.
Proof.
  intros Hinv Hserv.
  eapply wp_mono; [|by apply (accept_ok any any_lenient o0 fuel base s serv)].
  intros a s' (Hinv' & _ & Hacc). split_and!; [done..|]. intros Hne Hin.
  destruct Hacc as [(-> & _)|(i & c & r & t & Hc & Hfree & _ & _ & Hr)]; [done|].
  destruct (Z.ltb_spec (r_val r) 0); [by destruct Hr as [-> _]|]. destruct Hr as [-> Hg].
  destruct Hinv' as (_ & Hnd & _ & _). rewrite Hg in Hnd. simpl in *.
  rewrite fds_fill in Hnd by (done || simpl; lia). simpl in Hnd.
  rewrite <- Permutation_middle in Hnd. by apply NoDup_cons in Hnd as [? _].
Qed.

Lemma accept_takes_first_free_witness :
  wp (accept_connection 3) (λ a s',
    inventory any {[0; 1; 2]} (Z.to_nat 3000) [3] s' ∧ accepted 3 a demo_busy s' ∧
    (a.1 ≠ -1 → a.1 ∉ [3] ++ fds (connections (glob demo_busy)))) demo_busy.
Proof.
  apply (accept_takes_first_free (W:=demo) (F:=gset Z) {[0; 1; 2]} [3] (Z.to_nat 3000) demo_busy 3).
  - exact demo_busy_inventory.
  - left.
Defined.

(** The default document is never served.  No request reaches [get_file]
    with an empty url, so its [index.html] branch is not taken; the request
    GET / asks for the directory itself (the document root and a slash). *)
Theorem default_document_unreachable
    {W F : Type} `{!App W F, !SocketLaws W F}
    (o0 live : gset Z) (fuel : nat) (s : app W F httpd) (sd : Z) :
  fine any o0 live fuel s → sd ∈ live →
  (∀ http url, before 32 (skip_spaces (drop 4 http)) = Some url → url ≠ []) ∧
  wp (analyze_http fuel (text "GET / HTTP/1.0") sd) (λ _ s', ∃ r t,
    trace s' = trace s ++
      (A_fopen (take 511 (root_dir (web_arg (glob s)) ++ text "/")), r) :: t) s.
Proof.
  intros Hf Hsd. split; [intros http url; apply before_skipped|].
  eapply wp_mono; [|by apply (analyze_ok any any_lenient o0 fuel live)].
  intros rc s' [_ (_ & _ & t & Ht & (r & t' & -> & _))]. by exists r, t'.
Qed.

Lemma default_document_unreachable_witness :
  (∀ http url, before 32 (skip_spaces (drop 4 http)) = Some url → url ≠ []) ∧
  wp (analyze_http (Z.to_nat 3000) (text "GET / HTTP/1.0") 7) (λ _ s', ∃ r t,
    trace s' = trace demo_busy ++ (A_fopen (text "/var/www/"), r) :: t) demo_busy.
Proof.
  apply (default_document_unreachable (W:=demo) (F:=gset Z) {[0; 1; 2]}
           (held {[0; 1; 2]} [3] (connections (glob demo_busy))) (Z.to_nat 3000) demo_busy 7).
  - exact (proj2 (proj2 (proj2 demo_busy_inventory))).
  - apply (bool_decide_unpack _). vm_compute. exact I.
Defined.

End HttpdTheorems.
