(* ===== verification/Httpd2.v ===== *)
(** * The event-driven web server (example/webserver2/httpd2.c)

    The HTTP server as a callback: the stack calls [notify] with each event of
    the listening socket and of the accepted ones, and the request is answered
    from within it.  One definition per C function; logging is left out. *)

From S2P Require Import Prelude Errno App Httpd.
Import App.

Module Httpd2.

Import Httpd(cstr, before, skip_spaces, starts_with, crlf, mime_of).

Definition NFP_EVENT_ACCEPT : Z := 1.
Definition NFP_EVENT_RECV : Z := 2.
Definition NFP_EVENT_SEND : Z := 3.
Definition ODP_PACKET_INVALID : Z := 0.
Definition DEFAULT_ROOT_DIRECTORY : bytes := text "/var/www".
Definition DEFAULT_BIND_ADDRESS : Z := NFP_INADDR_ANY.
Definition DEFAULT_BIND_PORT : Z := 2048.
Definition DEFAULT_BACKLOG : Z := 100.

(** [struct nfp_sock_sigval] *)
Record sock_sigval := SockSigval { ss_event : Z; ss_sockfd : Z; ss_sockfd2 : Z; ss_pkt : Z }.

(** [www_dir] *)
Record httpd2 := MkHttpd2 { www_dir : bytes }.

Section Httpd2.
Context {W F : Type} `{!App W F}.
Local Abbreviation MH := (M (app W F httpd2)).

Definition mysend_step (s : Z) (st : bytes * Z) : MH (bytes * Z + Z) :=
  let '(p, len) := st in
  if 0 <? len then
    if Z.of_nat (length p) <? len then stuck else
    n ← callv (A_send s (take (Z.to_nat len) p) 0);
    if n <? 0 then mret (inr n) else mret (inl (drop (Z.to_nat n) p, len - n))
  else mret (inr len).

Definition mysend (fuel : nat) (s : Z) (p : bytes) (len : Z) : MH Z :=
  loop fuel (mysend_step s) (p, len).

(** [bufo_out] has 1024 bytes. *)
Definition sendf (fuel : nat) (fd : Z) (line : bytes) : MH Z :=
  mysend fuel fd (take 1023 line ++ [0]) (Z.of_nat (length line)).

(** The loop over the file; the loop state is the contents of [bufo_in]. *)
Definition copy_step (fuel : nat) (s f : Z) (bufo_in : bytes) : MH (bytes + unit) :=
  r ← call (A_fread f 512);
  let bufo' := r_data r ++ drop (length (r_data r)) bufo_in in
  if 0 <? r_val r then
    w ← mysend fuel s bufo' (r_val r);
    if w <? 0 then mret (inr ()) else mret (inl bufo')
  else mret (inr ()).

Definition get_file (fuel : nat) (s : Z) (url : bytes) : MH unit :=
  let p := match url with [] => text "index.html" | _ => url end in
  let mime := mime_of p in
  root ← getg www_dir;
  let path := take 511 (root ++ [47] ++ p) in
  f ← callv (A_fopen path);
  if f =? 0 then
    _ ← sendf fuel s (text "HTTP/1.0 404 NOK" ++ crlf ++ crlf); mret ()
  else
    call_ (A_setsockopt s NFP_IPPROTO_TCP NFP_TCP_NOPUSH [1]);;
    _ ← sendf fuel s (text "HTTP/1.0 200 OK" ++ crlf);
    _ ← (match mime with
         | Some m => sendf fuel s (text "Content-Type: " ++ m ++ crlf ++ crlf)
         | None => sendf fuel s crlf
         end);
    loop fuel (copy_step fuel s f) (path ++ [0]);;
    call_ (A_setsockopt s NFP_IPPROTO_TCP NFP_TCP_NOPUSH [0]);;
    call_ (A_fclose f).

Definition analyze_http (fuel : nat) (http : bytes) (s : Z) : MH Z :=
  if starts_with (text "GET ") http then
    match before 32 (skip_spaces (drop 4 http)) with
    | Some url => get_file fuel s url;; mret 0
    | None => mret (-1)
    end
  else mret 0.

(** The callback; the result is what [*ss] holds afterwards.  The packet's
    data are taken as one segment; a packet without room for the terminating
    0 makes [odp_packet_push_tail] return NULL, through which the code
    writes. *)
Definition notify (fuel : nat) (ss : sock_sigval) : MH sock_sigval :=
  let released := SockSigval (ss_event ss) (ss_sockfd ss) (ss_sockfd2 ss) ODP_PACKET_INVALID in
  let s := ss_sockfd ss in
  let pkt := ss_pkt ss in
  if ss_event ss =? NFP_EVENT_ACCEPT then
    call_ (A_accept (ss_sockfd ss));; mret ss
  else if negb (ss_event ss =? NFP_EVENT_RECV) then mret ss
  else if pkt =? ODP_PACKET_INVALID then mret ss
  else
    err ← callv (A_packet_has_error pkt);
    if negb (err =? 0) then call_ (A_packet_free pkt);; mret released
    else
      len ← callv (A_packet_len pkt);
      let r := s32 len in
      (if 0 <? r then
         buf ← call (A_packet_data pkt);
         tail ← callv (A_packet_push_tail pkt 1);
         if tail =? 0 then stuck else
         _ ← analyze_http fuel (cstr (take (Z.to_nat r) (r_data buf))) s;
         call_ (A_close s)
       else if r =? 0 then call_ (A_close s)
       else mret ());;
      call_ (A_packet_free pkt);;
      mret released.

(** [root_dir] and [laddr] are NULL or strings. *)
Definition setup_webserver (root_dir laddr : option bytes) (lport : Z) : MH Z :=
  setg (λ _, MkHttpd2 (match root_dir with Some d => d | None => DEFAULT_ROOT_DIRECTORY end));;
  serv_fd ← callv (A_socket NFP_AF_INET NFP_SOCK_STREAM NFP_IPPROTO_TCP);
  if serv_fd <? 0 then mret (-1)
  else
    let sin_port :=
      odp_cpu_to_be_16 (if lport =? 0 then DEFAULT_BIND_PORT else lport) in
    s_addr ← (match laddr with
              | None => mret (Some DEFAULT_BIND_ADDRESS)
              | Some l =>
                  r ← call (A_inet_aton l);
                  if r_val r =? 0 then call_ (A_close serv_fd);; mret None
                  else mret (Some (r_out r))
              end);
    match s_addr with
    | None => mret (-1)
    | Some a =>
        let my_addr := Sin sizeof_sockaddr_in NFP_AF_INET sin_port a sizeof_sockaddr in
        b ← callv (A_bind serv_fd my_addr);
        if b <? 0 then call_ (A_close serv_fd);; mret 0
        else
          call_ (A_listen serv_fd DEFAULT_BACKLOG);;
          call_ (A_socket_sigevent serv_fd);;
          mret 0
    end.
End Httpd2.

End Httpd2.
