(* ===== verification/Httpd2Proofs.v ===== *)
(** * The event-driven web server: theorems *)

From S2P Require Import Prelude Errno App AppProofs Httpd HttpdProofs HttpdServer HttpdTheorems Httpd2.
Import App AppProofs HttpdProofs HttpdServer(answered).
Import Httpd2.

Module Httpd2Proofs.

Section Notify.
Context {W F : Type} `{!App W F, !SocketLaws W F}.
Context (o0 : gset Z) (fuel : nat).
Implicit Types (s : app W F httpd2) (live : gset Z).

Hint Resolve any_lenient : core.

(** The calls that answer the request in [buf]; the url is used as it is. *)
Definition answered2 (sd : Z) (root buf : bytes) (t : list (event F)) : Prop :=
  if Httpd.starts_with (text "GET ") buf then
    match Httpd.before 32 (Httpd.skip_spaces (drop 4 buf)) with
    | Some url => serves sd root (match url with [] => text "index.html" | _ => url end) t
    | None => t = []
    end
  else t = [].

Lemma get_file_eq sd url :
  get_file fuel sd url =
  (root ← getg www_dir;
   Httpd.serve_file fuel sd root (match url with [] => text "index.html" | _ => url end)
    : M (app W F httpd2) unit).
Proof. reflexivity. Qed.

Lemma analyze2_ok live s sd buf :
  fine any o0 live fuel s → sd ∈ live →
  makes any o0 fuel live (analyze_http fuel buf sd) (λ _, answered2 sd (www_dir (glob s)) buf) s.
Proof.
  intros Hf Hsd. unfold analyze_http, answered2.
  destruct (Httpd.starts_with _ _).
  2: { eapply makes_mono; [by apply makes_ret|]. by intros a t [_ ->]. }
  destruct (Httpd.before _ _) as [url|].
  2: { eapply makes_mono; [by apply makes_ret|]. by intros a t [_ ->]. }
  eapply makes_bind with (P := λ _, serves sd (www_dir (glob s))
                                      (match url with [] => text "index.html" | _ => url end)).
  - rewrite get_file_eq. apply wp_bind, wp_getg. by apply serve_file_ok.
  - intros ? s1 Hf1. by apply makes_ret.
  - intros ? ? t t' Ht [_ ->]. by rewrite app_nil_r.
Qed.

(** The calls that consume the packet of a receive event, before it is freed. *)
Definition consumed (ss : sock_sigval) (root : bytes) (t : list (event F)) : Prop :=
  let sd := ss_sockfd ss in
  let pkt := ss_pkt ss in
  ∃ re,
    if negb (r_val re =? 0) then t = [(A_packet_has_error pkt, re)]
    else ∃ rl,
      let head := [(A_packet_has_error pkt, re); (A_packet_len pkt, rl)] in
      if 0 <? s32 (r_val rl) then
        ∃ rd rt t1 rc,
          t = head ++ [(A_packet_data pkt, rd); (A_packet_push_tail pkt 1, rt)] ++ t1 ++
              [(A_close sd, rc)] ∧
          answered2 sd root (Httpd.cstr (take (Z.to_nat (s32 (r_val rl))) (r_data rd))) t1
      else if s32 (r_val rl) =? 0 then ∃ rc, t = head ++ [(A_close sd, rc)]
      else t = head.

(** What one event makes of the state and of the event record. *)
Definition notified (ss ss' : sock_sigval) s s' : Prop :=
  if ss_event ss =? NFP_EVENT_ACCEPT then
    ss' = ss ∧ ∃ r, trace s' = trace s ++ [(A_accept (ss_sockfd ss), r)]
  else if negb (ss_event ss =? NFP_EVENT_RECV) || (ss_pkt ss =? ODP_PACKET_INVALID) then
    ss' = ss ∧ s' = s
  else
    ss' = SockSigval (ss_event ss) (ss_sockfd ss) (ss_sockfd2 ss) ODP_PACKET_INVALID ∧
    ∃ t r, trace s' = trace s ++ t ++ [(A_packet_free (ss_pkt ss), r)] ∧
           consumed ss (www_dir (glob s)) t.

(** Freeing the packet ends the handling. *)
Lemma free_ok live ss s s1 t :
  fine any o0 live fuel s1 → trace s1 = trace s ++ t →
  consumed ss (www_dir (glob s)) t →
  wp (call_ (A_packet_free (ss_pkt ss));;
      mret (SockSigval (ss_event ss) (ss_sockfd ss) (ss_sockfd2 ss) ODP_PACKET_INVALID))
    (λ ss' s', disciplined o0 (trace s') ∧
      ss' = SockSigval (ss_event ss) (ss_sockfd ss) (ss_sockfd2 ss) ODP_PACKET_INVALID ∧
      ∃ t r, trace s' = trace s ++ t ++ [(A_packet_free (ss_pkt ss), r)] ∧
             consumed ss (www_dir (glob s)) t) s1.
Proof.
  intros Hf Ht Hc. apply wp_bind, wp_call_. intros r w E. apply wp_ret.
  assert (Hf' : fine any o0 live fuel (after s1 (A_packet_free (ss_pkt ss)) r w)).
  { by eapply plain_call. }
  split; [by destruct Hf' as ((? & _) & _)|]. split; [done|]. exists t, r.
  split; [|done]. simpl. by rewrite Ht, app_assoc.
Qed.

Lemma notify_recv_ok live s ss :
  fine any o0 live fuel s → ss_sockfd ss ∈ live →
  (∀ w r w', api (A_packet_push_tail (ss_pkt ss) 1) w = (r, w') → r_val r ≠ 0) →
  ss_event ss = NFP_EVENT_RECV → ss_pkt ss ≠ ODP_PACKET_INVALID →
  wp (notify fuel ss) (λ ss' s', disciplined o0 (trace s') ∧
      ss' = SockSigval (ss_event ss) (ss_sockfd ss) (ss_sockfd2 ss) ODP_PACKET_INVALID ∧
      ∃ t r, trace s' = trace s ++ t ++ [(A_packet_free (ss_pkt ss), r)] ∧
             consumed ss (www_dir (glob s)) t) s.
Proof.
  intros Hf Hsd Htail Hev Hpkt. unfold notify. rewrite Hev. simpl.
  destruct (Z.eqb_spec (ss_pkt ss) ODP_PACKET_INVALID); [done|].
  rewrite <- Hev. set (sd := ss_sockfd ss) in *. set (pkt := ss_pkt ss) in *.
  apply wp_bind, wp_callv. intros re w1 E1.
  assert (Hf1 := plain_call _ _ _ _ _ _ _ Hf E1 eq_refl ltac:(done)).
  destruct (negb (r_val re =? 0)) eqn:Ee.
  { eapply free_ok; [done..|]. exists re. by rewrite Ee. }
  apply wp_bind, wp_callv. intros rl w2 E2.
  assert (Hf2 := plain_call _ _ _ _ _ _ _ Hf1 E2 eq_refl ltac:(done)).
  set (s2 := after (after s _ re w1) _ rl w2) in *.
  assert (Ht2 : trace s2 = trace s ++ [(A_packet_has_error pkt, re); (A_packet_len pkt, rl)]).
  { simpl. by rewrite <- app_assoc. }
  assert (Hg2 : glob s2 = glob s) by done. clearbody s2.
  destruct (0 <? s32 (r_val rl)) eqn:Epos; [|destruct (s32 (r_val rl) =? 0) eqn:Ezero].
  - apply wp_bind, wp_bind, wp_call. intros rd w3 E3.
    assert (Hf3 := plain_call _ _ _ _ _ _ _ Hf2 E3 eq_refl ltac:(done)).
    apply wp_bind, wp_callv. intros rt w4 E4.
    assert (Hf4 := plain_call _ _ _ _ _ _ _ Hf3 E4 eq_refl ltac:(done)).
    destruct (Z.eqb_spec (r_val rt) 0); [by specialize (Htail _ _ _ E4)|].
    apply wp_bind. eapply wp_mono; [|by apply (analyze2_ok live)].
    intros _ s5 [Hf5 (Hg5 & _ & t1 & Ht5 & Hans)]. simpl in Hg5, Ht5, Hans.
    apply wp_call_. intros rc w6 E6.
    destruct (fine_close _ _ _ _ _ _ _ _ any_lenient Hf5 Hsd E6) as [Hf6 _].
    eapply free_ok; [exact Hf6| |].
    + simpl. rewrite Ht5, Ht2, <- !app_assoc. done.
    + exists re. rewrite Ee. exists rl. rewrite Epos. exists rd, rt, t1, rc.
      by rewrite Hg2 in Hans.
  - apply wp_bind, wp_call_. intros rc w6 E6.
    destruct (fine_close _ _ _ _ _ _ _ _ any_lenient Hf2 Hsd E6) as [Hf6 _].
    eapply free_ok; [exact Hf6| |].
    + simpl. rewrite Ht2, <- !app_assoc. done.
    + exists re. rewrite Ee. exists rl. rewrite Epos, Ezero. by exists rc.
  - apply wp_bind, wp_ret. eapply free_ok; [done..|].
    exists re. rewrite Ee. exists rl. by rewrite Epos, Ezero.
Qed.

(** The outcomes of [setup_webserver]. *)
Definition set_up (rc : Z) s' : Prop :=
  (rc = -1 ∧ fine any o0 o0 fuel s') ∨
  (rc = 0 ∧ fine any o0 o0 fuel s' ∧
     ∃ fd a r, (A_bind fd a, r) ∈ trace s' ∧ r_val r < 0) ∨
  (rc = 0 ∧ ∃ fd t rl rs, (fd ∉ o0) ∧ fine any o0 ({[fd]} ∪ o0) fuel s' ∧
     trace s' = t ++ [(A_listen fd DEFAULT_BACKLOG, rl); (A_socket_sigevent fd, rs)]).

Lemma bind_ok s x a :
  fine any o0 ({[x]} ∪ o0) fuel s → (x ∉ o0) →
  wp (b ← callv (A_bind x a);
      if b <? 0 then call_ (A_close x);; mret 0
      else call_ (A_listen x DEFAULT_BACKLOG);; call_ (A_socket_sigevent x);; mret 0)
    (λ rc s', set_up rc s' ∧ glob s' = glob s) s.
Proof.
  intros Hf Hx. assert (Hin : x ∈ {[x]} ∪ o0) by set_solver.
  apply wp_bind, wp_callv. intros r w E.
  assert (Hf1 := plain_call _ _ _ _ _ _ _ Hf E eq_refl ltac:(by intros ? [= <-])).
  destruct (Z.ltb_spec (r_val r) 0).
  - apply wp_bind. eapply wp_mono; [|by apply close_last].
    intros _ s2 (Hf2 & Hg & r' & Ht). apply wp_ret. split; [|done]. right. left.
    split_and!; [done..|]. exists x, a, r. split; [|done]. rewrite Ht. simpl. set_solver.
  - apply wp_bind, wp_call_. intros rl w2 E2.
    assert (Hf2 := plain_call _ _ _ _ _ _ _ Hf1 E2 eq_refl ltac:(by intros ? [= <-])).
    apply wp_bind, wp_call_. intros rs w3 E3.
    assert (Hf3 := plain_call _ _ _ _ _ _ _ Hf2 E3 eq_refl ltac:(by intros ? [= <-])).
    apply wp_ret. split; [|done]. right. right. split; [done|].
    eexists x, _, rl, rs. split_and!; [done..|]. simpl. by rewrite <- (app_assoc _ [_] [_]).
Qed.

Lemma setup_ok s root laddr lport :
  fine any o0 o0 fuel s →
  wp (setup_webserver root laddr lport) (λ rc s', set_up rc s' ∧
    www_dir (glob s') = match root with Some d => d | None => DEFAULT_ROOT_DIRECTORY end) s.
Proof.
  intros Hf. unfold setup_webserver. apply wp_bind, wp_setg.
  set (s0 := MkApp _ _ _ _). assert (Hf0 : fine any o0 o0 fuel s0) by done.
  assert (Hg0 : www_dir (glob s0) = match root with Some d => d | None => DEFAULT_ROOT_DIRECTORY end)
    by done. rewrite <- Hg0. clearbody s0. clear Hg0 Hf s.
  apply wp_bind, wp_callv. intros r w E.
  pose proof (socket_call _ _ _ _ _ _ _ _ Hf0 E) as Hopen.
  destruct (Z.ltb_spec (r_val r) 0).
  { apply wp_ret. split; [by left|done]. }
  destruct Hopen as [Hfresh Hf1].
  destruct laddr as [l|].
  - apply wp_bind, wp_bind, wp_call. intros r2 w2 E2.
    assert (Hf2 := plain_call _ _ _ _ _ _ _ Hf1 E2 eq_refl ltac:(done)).
    destruct (r_val r2 =? 0).
    + apply wp_bind. eapply wp_mono; [|by apply close_last].
      intros _ s3 (Hf3 & Hg3 & _). apply wp_ret, wp_ret. rewrite Hg3. split; [by left|done].
    + apply wp_ret. eapply wp_mono; [|by apply bind_ok].
      intros rc s3 [? ->]. done.
  - apply wp_bind, wp_ret. eapply wp_mono; [|by apply bind_ok].
    intros rc s3 [? ->]. done.
Qed.
End Notify.

(** The callback, for every event.  An accept event accepts the connection;
    events other than receive, and events without a packet, change nothing.  A
    receive event with a packet ends with the packet freed and marked invalid
    in the event record (the stack then leaves it alone): a packet in error is
    only freed; a non-empty one is answered as an HTTP request and the socket
    closed; an empty one closes the socket.  Descriptors are used only while
    held.  The packet has room for one more byte. *)
Theorem notify_consumes_packet
    {W F : Type} `{!App W F, !SocketLaws W F}
    (o0 live : gset Z) (fuel : nat) (s : app W F httpd2) (ss : sock_sigval) :
  fine any o0 live fuel s → ss_sockfd ss ∈ live →
  (∀ w r w', api (A_packet_push_tail (ss_pkt ss) 1) w = (r, w') → r_val r ≠ 0) →
  wp (notify fuel ss) (λ ss' s', disciplined o0 (trace s') ∧ notified ss ss' s s') s.
Proof.
  intros Hf Hsd Htail. unfold notified.
  destruct (Z.eqb_spec (ss_event ss) NFP_EVENT_ACCEPT) as [Ha|Ha].
  { unfold notify. rewrite Ha. simpl. apply wp_bind, wp_call_. intros r w E. apply wp_ret.
    split; [|split; [done|by exists r]]. simpl. apply disciplined_snoc.
    - by destruct Hf as ((? & _) & _).
    - intros fd [= <-]. destruct Hf as ((_ & Hl & _) & _). by apply Hl. }
  destruct (Z.eqb_spec (ss_event ss) NFP_EVENT_RECV) as [Hr|Hr].
  - destruct (Z.eqb_spec (ss_pkt ss) ODP_PACKET_INVALID) as [Hp|Hp]; simpl.
    + unfold notify. rewrite Hr, Hp. simpl. apply wp_ret. split; [|done].
      by destruct Hf as ((? & _) & _).
    + by eapply notify_recv_ok.
  - unfold notify. destruct (Z.eqb_spec (ss_event ss) NFP_EVENT_ACCEPT); [done|].
    destruct (Z.eqb_spec (ss_event ss) NFP_EVENT_RECV); [done|]. simpl. apply wp_ret.
    split; [|done]. by destruct Hf as ((? & _) & _).
Qed.

Definition demo_held : gset Z := {[3; 7]} ∪ {[0; 1; 2]}.

(** A server on descriptor 3 with an accepted connection 7. *)
Definition demo2 : app HttpdTheorems.demo (gset Z) httpd2 :=
  MkApp (HttpdTheorems.Demo 8 1) 0
    [(A_socket 2 1 6, HttpdTheorems.rep 3 [] ∅); (A_accept 3, HttpdTheorems.rep 7 [] ∅)]
    (MkHttpd2 DEFAULT_ROOT_DIRECTORY).

Lemma demo2_fine :
  fine any {[0; 1; 2]} demo_held (Z.to_nat 3000) demo2.
Proof.
  split_and!; [..|done|apply (bool_decide_unpack _); by vm_compute].
  - split_and!; simpl; [|apply (bool_decide_unpack _); by vm_compute..].
    split_and!; [done| |done]. intros ? [= <-]. apply (bool_decide_unpack _). by vm_compute.
  - unfold enough. simpl. lia.
Qed.

Lemma notify_consumes_packet_witness :
  wp (notify (Z.to_nat 3000) (SockSigval NFP_EVENT_RECV 7 0 5)) (λ ss' s',
    disciplined {[0; 1; 2]} (trace s') ∧
    notified (SockSigval NFP_EVENT_RECV 7 0 5) ss' demo2 s') demo2.
Proof.
  apply (notify_consumes_packet (W:=HttpdTheorems.demo) (F:=gset Z) {[0; 1; 2]}
           demo_held).
  - exact demo2_fine.
  - apply (bool_decide_unpack _). vm_compute. exact I.
  - intros w r w' E. injection E as <- _. discriminate.
Defined.

(** The start of the server.  It returns -1 having released the socket when
    the address is not valid or no socket was obtained; it returns 0 when the
    socket is bound, listening and registered for notification - but also when
    [nfp_bind] failed, the socket then being closed, so the caller cannot tell
    a server from none. *)
Theorem setup_webserver_outcomes
    {W F : Type} `{!App W F, !SocketLaws W F}
    (o0 : gset Z) (fuel : nat) (s : app W F httpd2) (root laddr : option bytes) (lport : Z) :
  fine any o0 o0 fuel s →
  wp (setup_webserver root laddr lport) (λ rc s',
    www_dir (glob s') = match root with Some d => d | None => DEFAULT_ROOT_DIRECTORY end ∧
    ((rc = -1 ∧ fine any o0 o0 fuel s') ∨
     (rc = 0 ∧ fine any o0 o0 fuel s' ∧
        ∃ fd a r, (A_bind fd a, r) ∈ trace s' ∧ r_val r < 0) ∨
     (rc = 0 ∧ ∃ fd t rl rs, (fd ∉ o0) ∧ fine any o0 ({[fd]} ∪ o0) fuel s' ∧
        trace s' = t ++ [(A_listen fd DEFAULT_BACKLOG, rl); (A_socket_sigevent fd, rs)]))) s.
Proof.
  intros Hf. eapply wp_mono; [|by apply setup_ok]. intros rc s' [Hset Hroot]. done.
Qed.

Lemma setup_webserver_outcomes_witness :
  wp (setup_webserver None (Some (text "10.0.0.1")) 0) (λ rc s',
    www_dir (glob s') = DEFAULT_ROOT_DIRECTORY ∧
    ((rc = -1 ∧ fine any demo_held demo_held
                  (Z.to_nat 3000) s') ∨
     (rc = 0 ∧ fine any demo_held demo_held
                 (Z.to_nat 3000) s' ∧
        ∃ fd a r, (A_bind fd a, r) ∈ trace s' ∧ r_val r < 0) ∨
     (rc = 0 ∧ ∃ fd t rl rs, (fd ∉ demo_held) ∧
        fine any demo_held ({[fd]} ∪ demo_held)
          (Z.to_nat 3000) s' ∧
        trace s' = t ++ [(A_listen fd DEFAULT_BACKLOG, rl); (A_socket_sigevent fd, rs)])))
    (MkApp (HttpdTheorems.Demo 8 1) 0 [] (MkHttpd2 []) : app HttpdTheorems.demo (gset Z) httpd2).
Proof.
  apply (setup_webserver_outcomes (W:=HttpdTheorems.demo) (F:=gset Z)).
  split_and!; [split_and!| |intros [] ? ?; discriminate|]; [done|..];
    [apply (bool_decide_unpack _); vm_compute; exact I..| |].
  - unfold enough. simpl. lia.
  - apply (bool_decide_unpack _); vm_compute; exact I.
Defined.

End Httpd2Proofs.
