(* ===== verification/TcpPerf.v ===== *)
(** * The TCP throughput tool (example/tcpperf/app_main.c)

    A client or server that measures TCP throughput: packet reception with the
    single-packet and the vector API, the server and client threads in their
    one- and two-thread forms, the set-up of interfaces and sockets, the
    statistics, the command line and [main].

    [exit_threads] is set by the SIGINT handler and by the threads.  A read of
    it first lets a pending signal be delivered ([A_signal] answers whether
    one is, or whether another thread has set the flag).  What other threads
    store in [gbl_args] is read by the main thread with [A_load]; the reports
    it prints are [A_report] with the integers printed.  Other output is left
    out. *)

From S2P Require Import Prelude Errno App NfpHeaders CliArgParse.
Import App.

Module TcpPerf.

(** ** Constants *)

Definition DEF_BIND_ADDR : Z := NFP_INADDR_ANY.
Definition DEF_BIND_PORT : Z := 5001.
Definition DEF_PRINT_INTERVAL : Z := 10.
Definition SOCKET_BACKLOG : Z := 10.
Definition NUM_WORKERS : Z := 2.
Definition PKT_BURST_SIZE : Z := 16.
Definition SOCKET_RX_BUF_LEN : Z := 32 * 1024.
Definition SOCKET_TX_BUF_LEN : Z := 32 * 1024.
Definition TIMER_SCHED_INT : Z := 10.
Definition PKT_LEN_XS : Z := 128.
Definition PKT_LEN_S : Z := 512.
Definition PKT_LEN_M : Z := 1024.
Definition PKT_LEN_L : Z := 1280.
Definition NFP_FP_INTERFACE_MAX : Z := 8.
Definition NFP_PKT_VECTOR_SIZE : Z := 32.
Definition ODP_QUEUE_INVALID : Z := 0.
Definition ODP_EVENT_INVALID : Z := 0.
(** event types of ODP *)
Definition ODP_EVENT_PACKET : Z := 2.
Definition ODP_EVENT_TIMEOUT : Z := 3.
Definition ODP_TIME_SEC_IN_NS : Z := 1000000000.
Definition EXIT_SUCCESS : Z := 0.
Definition EXIT_FAILURE : Z := 1.

(** ** Data *)

Inductive appl_mode_t := MODE_SERVER | MODE_CLIENT.

#[global] Instance appl_mode_eq_dec : EqDecision appl_mode_t.
Proof. solve_decision. Defined.

Record packet_counters_t := Counters { total : Z; xs : Z; s : Z; m : Z; l : Z; xl : Z }.

(** [itf_param] is part of the heap model of CliArgParse. *)
Record appl_args_t := ApplArgs {
  mode : appl_mode_t;
  daddr : option positive;
  dport : Z;
  laddr : option positive;
  lport : Z;
  cli_file : option positive;
  single_thread : Z;
  single_pkt_API : bool;
}.

(** [args_t], with [exit_threads]; [rx_func] is its [single_pkt_API] choice. *)
Record args_t := Args {
  heap : CliArgParse.state;
  appl : appl_args_t;
  server_fd : Z;
  client_fd : Z;
  recv_calls : Z;
  recv_bytes : Z;
  send_calls : Z;
  send_bytes : Z;
  pkts : packet_counters_t;
  con_status : Z;
  s_addr : Z;
  rx_single : bool;
  exit_threads : Z;
}.

Definition set_heap (h : CliArgParse.state) (a : args_t) : args_t :=
  Args h (appl a) (server_fd a) (client_fd a) (recv_calls a) (recv_bytes a) (send_calls a)
    (send_bytes a) (pkts a) (con_status a) (s_addr a) (rx_single a) (exit_threads a).
Definition set_appl (x : appl_args_t) (a : args_t) : args_t :=
  Args (heap a) x (server_fd a) (client_fd a) (recv_calls a) (recv_bytes a) (send_calls a)
    (send_bytes a) (pkts a) (con_status a) (s_addr a) (rx_single a) (exit_threads a).
Definition set_server_fd (x : Z) (a : args_t) : args_t :=
  Args (heap a) (appl a) x (client_fd a) (recv_calls a) (recv_bytes a) (send_calls a)
    (send_bytes a) (pkts a) (con_status a) (s_addr a) (rx_single a) (exit_threads a).
Definition set_client_fd (x : Z) (a : args_t) : args_t :=
  Args (heap a) (appl a) (server_fd a) x (recv_calls a) (recv_bytes a) (send_calls a)
    (send_bytes a) (pkts a) (con_status a) (s_addr a) (rx_single a) (exit_threads a).
Definition add_recv (n : Z) (a : args_t) : args_t :=
  Args (heap a) (appl a) (server_fd a) (client_fd a) (u64 (recv_calls a + 1))
    (u64 (recv_bytes a + n)) (send_calls a) (send_bytes a) (pkts a) (con_status a) (s_addr a)
    (rx_single a) (exit_threads a).
Definition add_send (n : Z) (a : args_t) : args_t :=
  Args (heap a) (appl a) (server_fd a) (client_fd a) (recv_calls a) (recv_bytes a)
    (u64 (send_calls a + 1)) (u64 (send_bytes a + n)) (pkts a) (con_status a) (s_addr a)
    (rx_single a) (exit_threads a).
Definition set_pkts (x : packet_counters_t) (a : args_t) : args_t :=
  Args (heap a) (appl a) (server_fd a) (client_fd a) (recv_calls a) (recv_bytes a)
    (send_calls a) (send_bytes a) x (con_status a) (s_addr a) (rx_single a) (exit_threads a).
Definition set_con_status (x : Z) (a : args_t) : args_t :=
  Args (heap a) (appl a) (server_fd a) (client_fd a) (recv_calls a) (recv_bytes a)
    (send_calls a) (send_bytes a) (pkts a) x (s_addr a) (rx_single a) (exit_threads a).
Definition set_s_addr (x : Z) (a : args_t) : args_t :=
  Args (heap a) (appl a) (server_fd a) (client_fd a) (recv_calls a) (recv_bytes a)
    (send_calls a) (send_bytes a) (pkts a) (con_status a) x (rx_single a) (exit_threads a).
Definition set_rx_func (x : bool) (a : args_t) : args_t :=
  Args (heap a) (appl a) (server_fd a) (client_fd a) (recv_calls a) (recv_bytes a)
    (send_calls a) (send_bytes a) (pkts a) (con_status a) (s_addr a) x (exit_threads a).
Definition set_exit (x : Z) (a : args_t) : args_t :=
  Args (heap a) (appl a) (server_fd a) (client_fd a) (recv_calls a) (recv_bytes a)
    (send_calls a) (send_bytes a) (pkts a) (con_status a) (s_addr a) (rx_single a) x.

Section TcpPerf.
Context {W F : Type} `{!App W F}.
Local Abbreviation MT := (M (app W F args_t)).

(** ** Exit flag *)

Definition sig_handler : MT unit :=
  setg (set_exit 1);; call_ A_stop_processing.

(** A read of [exit_threads]. *)
Definition exiting : MT bool :=
  sig ← callv A_signal;
  when (negb (sig =? 0)) sig_handler;;
  e ← getg exit_threads;
  mret (negb (e =? 0)).

(** ** Packets *)

Definition update_pkt_stats (pkt : Z) : MT unit :=
  v ← callv (A_packet_len pkt);
  let len := u32 v in
  setg (λ a,
    let st := pkts a in
    let st := Counters (u64 (total st + 1)) (xs st) (s st) (m st) (l st) (xl st) in
    set_pkts
      (if len <? PKT_LEN_XS then
         Counters (total st) (u64 (xs st + 1)) (s st) (m st) (l st) (xl st)
       else if len <? PKT_LEN_S then
         Counters (total st) (xs st) (u64 (s st + 1)) (m st) (l st) (xl st)
       else if len <? PKT_LEN_M then
         Counters (total st) (xs st) (s st) (u64 (m st + 1)) (l st) (xl st)
       else if len <? PKT_LEN_L then
         Counters (total st) (xs st) (s st) (m st) (u64 (l st + 1)) (xl st)
       else Counters (total st) (xs st) (s st) (m st) (l st) (u64 (xl st + 1))) a).

(** The loop of [handle_timeouts]; its state is the event, its queue and
    [has_packets]. *)
Definition timeouts_step (st : Z * Z * bool) : MT (Z * Z * bool + bool) :=
  let '(ev, in_queue, has_packets) := st in
  if ev =? ODP_EVENT_INVALID then mret (inr has_packets)
  else
    ty ← callv (A_event_type ev);
    hp ← (if ty =? ODP_EVENT_TIMEOUT then call_ (A_timer_handle ev);; mret has_packets
          else
            ty' ← callv (A_event_type ev);
            if ty' =? ODP_EVENT_PACKET then call_ (A_packet_input ev in_queue);; mret true
            else call_ (A_event_free ev);; mret has_packets);
    next ← call A_schedule;
    mret (inl (r_val next, r_out next, hp)).

Definition handle_timeouts (fuel : nat) : MT unit :=
  first ← call A_schedule;
  has_packets ← loop fuel timeouts_step (r_val first, r_out first, false);
  when has_packets (call_ A_send_pending_pkt).

(** The packets of one reception, of [n] at most [PKT_BURST_SIZE]. *)
Definition pkt_at (r : areply F) (i : Z) : MT Z :=
  e ← of_option (r_list r !! Z.to_nat i); mret e.1.

(** From queue [idx] on, [n] queues to go. *)
Fixpoint rx_single_loop (pktins : list Z) (idx n : nat) (pkts_sum : Z) : MT Z :=
  match n with
  | O => mret pkts_sum
  | S n' =>
      q ← of_option (pktins !! idx);
      r ← call (A_pktin_recv q PKT_BURST_SIZE);
      if r_val r <? 0 then mret (r_val r)
      else
        for_from 0 (Z.to_nat (r_val r)) (λ i,
          pkt ← pkt_at r i;
          update_pkt_stats pkt;;
          call_ (A_packet_input pkt ODP_QUEUE_INVALID));;
        rx_single_loop pktins (S idx) n' (pkts_sum + r_val r)
  end.

Definition rx_single_api (pktins : list Z) (pktins_cnt : Z) : MT Z :=
  rx_single_loop pktins 0 (Z.to_nat pktins_cnt) 0.

Definition NFP_PKT_VECTOR_IS_FULL (vec : list Z) : bool :=
  Z.of_nat (length vec) =? NFP_PKT_VECTOR_SIZE.
Definition NFP_PKT_VECTOR_HAS_DATA (vec : list Z) : bool :=
  negb (Z.of_nat (length vec) =? 0).

(** One packet goes to the vector, which is handed over when full. *)
Definition rx_multi_packet (r : areply F) (i : Z) (vec : list Z) : MT (list Z) :=
  pkt ← pkt_at r i;
  update_pkt_stats pkt;;
  added ← callv (A_pkt_vector_add vec pkt);
  if negb (added =? 1) then call_ (A_packet_free pkt);; mret vec
  else
    let vec' := vec ++ [pkt] in
    if NFP_PKT_VECTOR_IS_FULL vec' then
      call_ (A_packet_input_multi vec' ODP_QUEUE_INVALID);; mret []
    else mret vec'.

Fixpoint rx_multi_loop (pktins : list Z) (idx n : nat) (vec : list Z) (pkts_sum : Z) : MT Z :=
  match n with
  | O =>
      when (NFP_PKT_VECTOR_HAS_DATA vec) (call_ (A_packet_input_multi vec ODP_QUEUE_INVALID));;
      mret pkts_sum
  | S n' =>
      q ← of_option (pktins !! idx);
      r ← call (A_pktin_recv q PKT_BURST_SIZE);
      if r_val r <? 0 then mret (r_val r)
      else
        vec' ← for_acc 0 (Z.to_nat (r_val r)) (rx_multi_packet r) vec;
        rx_multi_loop pktins (S idx) n' vec' (pkts_sum + r_val r)
  end.

Definition rx_multi_api (pktins : list Z) (pktins_cnt : Z) : MT Z :=
  rx_multi_loop pktins 0 (Z.to_nat pktins_cnt) [] 0.

(** [gbl_args->rx_func] *)
Definition rx_func (pktins : list Z) (pktins_cnt : Z) : MT Z :=
  single ← getg rx_single;
  if (single : bool) then rx_single_api pktins pktins_cnt else rx_multi_api pktins pktins_cnt.

(** ** Server *)

(** One turn of the loop of [wait_for_client]. *)
Definition wait_step (server_fd : Z) (pktins : list Z) (pktins_cnt : Z) (_ : unit)
    : MT (unit + Z) :=
  ex ← exiting;
  if (ex : bool) then mret (inr (-1))
  else
    single ← getg (λ a, single_thread (appl a));
    when (negb (single =? 0))
      (call_ (A_sleep 1);; _ ← rx_func pktins pktins_cnt; call_ A_send_pending_pkt);;
    ret ← callv (A_select (server_fd + 1) (Some (NFP_FD_SET server_fd NFP_FD_ZERO)) None 0 0);
    if ret =? 0 then mret (inl ())
    else if ret <? 0 then mret (inr (-1))
    else
      fd ← callv (A_accept server_fd);
      if fd <? 0 then mret (inr (-1)) else mret (inr fd).

Definition wait_for_client (fuel : nat) (server_fd : Z) (pktins : list Z) (pktins_cnt : Z)
    : MT Z :=
  loop fuel (wait_step server_fd pktins pktins_cnt) ().

(** The loop of [pktio_recv]; its state is [timer_count]. *)
Definition pktio_step (fuel : nat) (pktins : list Z) (pktins_cnt : Z) (timer_count : Z)
    : MT (Z + unit) :=
  ex ← exiting;
  if (ex : bool) then mret (inr ())
  else
    let timer_count := timer_count + 1 in
    (if TIMER_SCHED_INT <? timer_count then handle_timeouts fuel else mret ());;
    let timer_count := if TIMER_SCHED_INT <? timer_count then 0 else timer_count in
    pkts ← rx_func pktins pktins_cnt;
    if pkts <? 0 then mret (inr ())
    else if PKT_BURST_SIZE <=? pkts then mret (inl timer_count)
    else call_ A_send_pending_pkt;; mret (inl timer_count).

Definition pktio_recv (fuel : nat) (pktins : list Z) (pktins_cnt : Z) : MT Z :=
  loop fuel (pktio_step fuel pktins pktins_cnt) 0;;
  setg (set_exit 1);;
  mret 0.

(** [laddr] is NULL or a string. *)
Definition setup_server (laddr : option bytes) (lport : Z) : MT Z :=
  fd ← callv (A_socket NFP_AF_INET NFP_SOCK_STREAM NFP_IPPROTO_TCP);
  if fd <? 0 then mret (-1)
  else
    a ← (match laddr with
         | None => mret (Some DEF_BIND_ADDR)
         | Some addr =>
             r ← call (A_inet_aton addr);
             if r_val r =? 0 then call_ (A_close fd);; mret None
             else mret (Some (r_out r))
         end);
    match a with
    | None => mret (-1)
    | Some addr =>
        b ← callv (A_bind fd (Sin sizeof_sockaddr_in NFP_AF_INET (odp_cpu_to_be_16 lport) addr
                                sizeof_sockaddr));
        if b <? 0 then call_ (A_close fd);; mret (-1)
        else
          r ← callv (A_listen fd SOCKET_BACKLOG);
          if negb (r =? 0) then call_ (A_close fd);; mret (-1)
          else setg (set_server_fd fd);; mret 0
    end.

(** What both server loops do with the result of [nfp_recv]: [inl true] is
    data, [inl false] is [continue], [inr] leaves the loop. *)
Definition server_recv : MT (bool + unit) :=
  fd ← getg client_fd;
  ret ← callv (A_recv fd SOCKET_RX_BUF_LEN NFP_MSG_NBIO);
  e ← gets nfp_errno;
  if (ret <? 0) && (e =? Errno.NFP_EWOULDBLOCK) then mret (inl false)
  else if ret <? 0 then mret (inr ())
  else if negb (ret =? 0) then setg (add_recv ret);; mret (inl true)
  else mret (inr ()).

Definition server_step (_ : unit) : MT (unit + unit) :=
  ex ← exiting;
  if (ex : bool) then mret (inr ())
  else
    r ← server_recv;
    match r with inl _ => mret (inl ()) | inr _ => mret (inr ()) end.

Definition run_server (fuel : nat) (pktins : list Z) (pktins_cnt : Z) : MT Z :=
  sfd ← getg server_fd;
  cfd ← wait_for_client fuel sfd pktins pktins_cnt;
  setg (set_client_fd cfd);;
  ex ← exiting;
  if ex || (cfd <? 0) then setg (set_exit 1);; mret (-1)
  else
    setg (set_con_status 1);;
    loop fuel server_step ();;
    setg (set_exit 1);;
    mret 0.

(** [timer_count] is unsigned here; [inr false] is [return -1]. *)
Definition server_single_step (fuel : nat) (pktins : list Z) (pktins_cnt : Z) (timer_count : Z)
    : MT (Z + bool) :=
  ex ← exiting;
  if (ex : bool) then mret (inr true)
  else
    let timer_count := u64 (timer_count + 1) in
    (if TIMER_SCHED_INT <? timer_count then handle_timeouts fuel else mret ());;
    let timer_count := if TIMER_SCHED_INT <? timer_count then 0 else timer_count in
    pkts ← rx_func pktins pktins_cnt;
    if pkts <? 0 then setg (set_exit 1);; mret (inr false)
    else
      r ← server_recv;
      match r with
      | inl true => call_ A_send_pending_pkt;; mret (inl timer_count)
      | inl false => mret (inl timer_count)
      | inr _ => mret (inr true)
      end.

Definition run_server_single (fuel : nat) (pktins : list Z) (pktins_cnt : Z) : MT Z :=
  sfd ← getg server_fd;
  cfd ← wait_for_client fuel sfd pktins pktins_cnt;
  setg (set_client_fd cfd);;
  ex ← exiting;
  if ex || (cfd <? 0) then setg (set_exit 1);; mret (-1)
  else
    setg (set_con_status 1);;
    ok ← loop fuel (server_single_step fuel pktins pktins_cnt) 0;
    if (ok : bool) then setg (set_exit 1);; mret 0 else mret (-1).

(** ** Client *)

Definition setup_client (daddr : bytes) (_lport : Z) : MT Z :=
  fd ← callv (A_socket NFP_AF_INET NFP_SOCK_STREAM NFP_IPPROTO_TCP);
  if fd <? 0 then mret (-1)
  else
    r ← call (A_inet_aton daddr);
    if r_val r =? 0 then mret (-1)
    else
      setg (set_client_fd fd);;
      setg (set_s_addr (r_out r));;
      mret 0.

Definition client_connect : MT Z :=
  fd ← getg client_fd;
  port ← getg (λ a, lport (appl a));
  addr ← getg s_addr;
  callv (A_connect fd (Sin sizeof_sockaddr_in NFP_AF_INET (odp_cpu_to_be_16 port) addr
                         sizeof_sockaddr_in)).

(** [pkt_buf] is the (uninitialised) transmit buffer. *)
Definition client_step (pkt_buf : bytes) (_ : unit) : MT (unit + unit) :=
  ex ← exiting;
  if (ex : bool) then mret (inr ())
  else
    fd ← getg client_fd;
    ret ← callv (A_send fd pkt_buf 0);
    if ret <? 0 then setg (set_exit 1);; mret (inr ())
    else
      setg (add_send ret);;
      call_ A_send_pending_pkt;;
      mret (inl ()).

Definition run_client (fuel : nat) (pkt_buf : bytes) : MT Z :=
  ret ← client_connect;
  if ret =? -1 then setg (set_exit 1);; mret (-1)
  else
    setg (set_con_status 1);;
    loop fuel (client_step pkt_buf) ();;
    mret 0.

(** The wait for the connection: the state is [retry] and [write_fd]; [inr
    false] is [return -1]. *)
Definition connect_step (pktins : list Z) (pktins_cnt : Z) (st : Z * F) : MT (Z * F + bool) :=
  let '(retry, write_fd) := st in
  let retry := retry + 1 in
  if 10 <? retry then setg (set_exit 1);; mret (inr false)
  else
    call_ (A_sleep 1);;
    _ ← rx_func pktins pktins_cnt;
    call_ A_send_pending_pkt;;
    fd ← getg client_fd;
    r ← call (A_select (fd + 1) None (Some (NFP_FD_SET fd write_fd)) 0 0);
    if r_val r <=? 0 then
      ex ← exiting;
      if negb ex then mret (inl (retry, r_set r)) else mret (inr true)
    else mret (inr true).

Definition client_single_step (fuel : nat) (pktins : list Z) (pktins_cnt : Z) (pkt_buf : bytes)
    (timer_count : Z) : MT (Z + unit) :=
  ex ← exiting;
  if (ex : bool) then mret (inr ())
  else
    let timer_count := timer_count + 1 in
    (if TIMER_SCHED_INT <? timer_count then handle_timeouts fuel else mret ());;
    let timer_count := if TIMER_SCHED_INT <? timer_count then 0 else timer_count in
    pkts ← rx_func pktins pktins_cnt;
    if pkts <? 0 then mret (inr ())
    else if PKT_BURST_SIZE <=? pkts then mret (inl timer_count)
    else
      fd ← getg client_fd;
      ret ← callv (A_send fd pkt_buf NFP_MSG_NBIO);
      e ← gets nfp_errno;
      if (ret <? 0) && negb (e =? Errno.NFP_EAGAIN) then setg (set_exit 1);; mret (inr ())
      else
        when (negb (ret <? 0)) (setg (add_send ret));;
        call_ A_send_pending_pkt;;
        mret (inl timer_count).

(** [NFP_FIONBIO], an [int] argument *)
Definition fionbio : Z := s32 (Ioctl.NFP_FIONBIO (λ _, 4)).

Definition run_client_single (fuel : nat) (pktins : list Z) (pktins_cnt : Z) (pkt_buf : bytes)
    : MT Z :=
  fd ← getg client_fd;
  r ← callv (A_ioctl fd fionbio 1);
  if r <? 0 then setg (set_exit 1);; mret (-1)
  else
    ret ← client_connect;
    e ← gets nfp_errno;
    if (ret =? -1) && negb (e =? Errno.NFP_EINPROGRESS) then setg (set_exit 1);; mret (-1)
    else
      ok ← loop fuel (connect_step pktins pktins_cnt) (0, NFP_FD_ZERO);
      if negb ok then mret (-1)
      else
        fd ← getg client_fd;
        r ← callv (A_ioctl fd fionbio 0);
        if r <? 0 then setg (set_exit 1);; mret (-1)
        else
          setg (set_con_status 1);;
          loop fuel (client_single_step fuel pktins pktins_cnt pkt_buf) 0;;
          mret 0.
End TcpPerf.

End TcpPerf.
