(* ===== verification/TcpPerfMain.v ===== *)
(** * The TCP throughput tool: statistics, command line, start and end

    The rest of example/tcpperf/app_main.c. *)

From S2P Require Import Prelude Errno App AppHeap NfpHeaders CliArgParse TcpPerf.
Import App AppHeap TcpPerf.

Module TcpPerfMain.

#[global] Program Instance args_heap : HasHeap args_t := {| heap_of := heap; put_heap := set_heap |}.
Next Obligation. done. Qed.
Next Obligation. by intros []. Qed.

(** The fields of [gbl_args] the main thread reads while others write them. *)
Definition LOAD_con_status : Z := 0.
Definition LOAD_recv_calls : Z := 1.
Definition LOAD_recv_bytes : Z := 2.
Definition LOAD_send_calls : Z := 3.
Definition LOAD_send_bytes : Z := 4.
Definition LOAD_client_fd : Z := 5.
Definition LOAD_pkts : list Z := [6; 7; 8; 9; 10; 11].

(** The thread functions. *)
Definition THREAD_pktio_recv : Z := 10.
Definition THREAD_run_server : Z := 11.
Definition THREAD_run_server_single : Z := 12.
Definition THREAD_run_client : Z := 13.
Definition THREAD_run_client_single : Z := 14.

(** ** The command line *)

Section Options.
Local Abbreviation MC := (M CliArgParse.state).

(** [len = strlen(optarg); if (len == 0) return ...; f = malloc(len + 1);
    if (f == NULL) return ...; strcpy(f, optarg);] with [set] the assignment
    to the field [f]; [inr] is [return EXIT_FAILURE]. *)
Definition copy_arg (optarg : CliArgParse.ptr) (a : appl_args_t)
    (set : option positive → appl_args_t) : MC (appl_args_t + appl_args_t) :=
  len ← CliArgParse.strlen optarg;
  if len =? 0 then mret (inr a)
  else
    t ← CliArgParse.read_string optarg;
    p ← CliArgParse.alloc (CliArgParse.BStr (t ++ [0]));
    mret (match p with Some _ => inl (set p) | None => inr (set p) end).

(** One option: [inr] is [return EXIT_FAILURE]. *)
Definition parse_option (fuel : nat) (opt : Z * CliArgParse.ptr) (a : appl_args_t)
    : MC (appl_args_t + appl_args_t) :=
  let '(c, optarg) := opt in
  if c =? 99 (* c *) then
    copy_arg optarg
      (ApplArgs MODE_CLIENT (daddr a) (dport a) (laddr a) (lport a) (cli_file a)
         (single_thread a) (single_pkt_API a))
      (λ p, ApplArgs MODE_CLIENT p (dport a) (laddr a) (lport a) (cli_file a)
              (single_thread a) (single_pkt_API a))
  else if c =? 102 (* f *) then
    copy_arg optarg a
      (λ p, ApplArgs (mode a) (daddr a) (dport a) (laddr a) (lport a) p
              (single_thread a) (single_pkt_API a))
  else if c =? 104 (* h *) then mret (inr a)
  else if c =? 105 (* i *) then
    res ← CliArgParse.nfpexpl_parse_interfaces fuel (Some optarg) true;
    mret (if res =? EXIT_FAILURE then inr a else inl a)
  else if c =? 108 (* l *) then
    copy_arg optarg a
      (λ p, ApplArgs (mode a) (daddr a) (dport a) p (lport a) (cli_file a)
              (single_thread a) (single_pkt_API a))
  else if c =? 112 (* p *) then
    n ← CliArgParse.atoi optarg;
    mret (inl (ApplArgs (mode a) (daddr a) (dport a) (laddr a) (u16 n) (cli_file a)
                 (single_thread a) (single_pkt_API a)))
  else if c =? 115 (* s *) then
    mret (inl (ApplArgs MODE_SERVER (daddr a) (dport a) (laddr a) (lport a) (cli_file a)
                 (single_thread a) (single_pkt_API a)))
  else if c =? 116 (* t *) then
    n ← CliArgParse.atoi optarg;
    mret (inl (ApplArgs (mode a) (daddr a) (dport a) (laddr a) (lport a) (cli_file a)
                 n (single_pkt_API a)))
  else if c =? 103 (* g *) then
    mret (inl (ApplArgs (mode a) (daddr a) (dport a) (laddr a) (lport a) (cli_file a)
                 (single_thread a) true))
  else mret (inl a).

Fixpoint parse_options (fuel : nat) (opts : list (Z * CliArgParse.ptr)) (a : appl_args_t)
    : MC (appl_args_t + appl_args_t) :=
  match opts with
  | [] => mret (inl a)
  | o :: opts' =>
      r ← parse_option fuel o a;
      match r with inl a' => parse_options fuel opts' a' | inr a' => mret (inr a') end
  end.

(** [opts] is what [getopt_long] finds: option characters with [optarg]. *)
Definition parse_args (fuel : nat) (opts : list (Z * CliArgParse.ptr)) : MC (Z * appl_args_t) :=
  modify (CliArgParse.set_if_count 0);;
  modify (CliArgParse.set_if_array None);;
  r ← parse_options fuel opts
        (ApplArgs MODE_SERVER None 0 None DEF_BIND_PORT None 1 false);
  match r with
  | inr a => mret (EXIT_FAILURE, a)
  | inl a =>
      n ← gets CliArgParse.if_count;
      if (n =? 0) || (bool_decide (mode a = MODE_CLIENT) && bool_decide (daddr a = None))
      then mret (EXIT_FAILURE, a)
      else if NFP_FP_INTERFACE_MAX <? n then mret (EXIT_FAILURE, a)
      else mret (EXIT_SUCCESS, a)
  end.
End Options.

Section Main.
Context {W F : Type} `{!App W F}.
Local Abbreviation MT := (M (app W F args_t)).

(** ** Interfaces *)

(** The result and [max_output_queues]. *)
Definition pktio_capability (name : bytes) : MT (Z * Z) :=
  pool ← callv A_pool_create;
  if pool =? 0 then mret (-1, 0)
  else
    pktio ← callv (A_pktio_open name pool);
    if pktio =? 0 then call_ (A_pool_destroy pool);; mret (-1, 0)
    else
      r ← call (A_pktio_capability pktio);
      call_ (A_pktio_close pktio);;
      call_ (A_pool_destroy pool);;
      mret (r_val r, r_out r).

(** What [odp_pktin_queue(.., &pktins[i], 1)] stores. *)
Definition store_queue (pktins : list Z) (i : nat) (queues : list (Z * Z)) : MT (list Z) :=
  match queues with
  | [] => mret pktins
  | (q, _) :: _ => if decide (i < length pktins)%nat then mret (<[i := q]> pktins) else stuck
  end.

(** The body of the loop over the interfaces: [inr] is [return -1]. *)
Definition configure_interface (i : nat) (pktins : list Z) : MT (list Z + unit) :=
  itf ← on_heap (CliArgParse.read_entry i);
  name ← arg_string (CliArgParse.if_name itf);
  name ← of_option name;
  capa ← pktio_capability name;
  if negb (capa.1 =? 0) then mret (inr ())
  else
    let num_output_q := if 1 <? capa.2 then 2 else 1 in
    c ← call (A_ifport_net_create name 1 num_output_q);
    if r_val c <? 0 then mret (inr ())
    else
      pktio ← callv (A_pktio_lookup name);
      if pktio =? 0 then mret (inr ())
      else
        q ← call (A_pktin_queue pktio 1);
        pktins' ← store_queue pktins i (r_list q);
        if negb (r_val q =? 1) then mret (inr ())
        else
          o ← callv (A_pktout_queue pktio);
          if negb (o =? num_output_q) then mret (inr ())
          else
            address ← arg_string (CliArgParse.if_address itf);
            match address with
            | None => mret (inl pktins')
            | Some ad =>
                p ← call (A_parse_ip_addr ad);
                if r_val p =? 0 then mret (inr ())
                else
                  res ← callv (A_ifport_net_ipv4_up (r_out c) (r_out2 c) (r_out p)
                                 (CliArgParse.if_address_masklen itf));
                  if negb (res =? 0) then mret (inr ()) else mret (inl pktins')
            end.

Fixpoint configure_loop (i n : nat) (pktins : list Z) : MT (list Z + unit) :=
  match n with
  | O => mret (inl pktins)
  | S n' =>
      r ← configure_interface i pktins;
      match r with
      | inl pktins' => configure_loop (S i) n' pktins'
      | inr _ => mret (inr ())
      end
  end.

(** The result and the queues. *)
Definition configure_interfaces (pktins : list Z) : MT (Z * list Z) :=
  n ← getg (λ a, CliArgParse.if_count (heap a));
  if n =? 0 then mret (-1, pktins)
  else
    r ← configure_loop 0 (Z.to_nat n) pktins;
    match r with inl pktins' => mret (0, pktins') | inr _ => mret (-1, pktins) end.

(** ** Statistics *)

Definition load (field : Z) : MT Z := callv (A_load field).

(** Division of unsigned integers. *)
Definition udiv (a b : Z) : MT Z := if b =? 0 then stuck else mret (a / b).

(** The [_prev] and [_maximum] variables of one direction: calls and bits. *)
Record direction := Direction {
  calls_prev : Z; bits_prev : Z; maximum_cps : Z; maximum_bps : Z }.

(** The rates of one direction and its new variables. *)
Definition rates (calls bits time_sec : Z) (d : direction) : MT (Z * Z * direction) :=
  cps ← udiv (u64 (calls - calls_prev d)) time_sec;
  bps ← udiv (u64 (bits - bits_prev d)) time_sec;
  let maximum_cps' := if maximum_cps d <? cps then cps else maximum_cps d in
  let maximum_bps' := if maximum_bps d <? bps then bps else maximum_bps d in
  mret (cps, bps, Direction calls bits maximum_cps' maximum_bps').

(** The measurement: the new state of both directions and [ts_prev], which is
    the old one when less than a second has passed. *)
Definition stats_report (st : direction * direction * Z) : MT (direction * direction * Z) :=
  let '(rx, tx, ts_prev) := st in
  rx_calls ← load LOAD_recv_calls;
  rx_bytes ← load LOAD_recv_bytes;
  tx_calls ← load LOAD_send_calls;
  tx_bytes ← load LOAD_send_bytes;
  ts ← callv A_time_local;
  let time_sec := u64 (ts - ts_prev) / ODP_TIME_SEC_IN_NS in
  if time_sec =? 0 then mret st
  else
    r ← rates rx_calls (u64 (rx_bytes * 8)) time_sec rx;
    t ← rates tx_calls (u64 (tx_bytes * 8)) time_sec tx;
    mode ← getg (λ a, mode (appl a));
    let '(rx_cps, rx_bps, rx') := r in
    let '(tx_cps, tx_bps, tx') := t in
    (match mode with
     | MODE_SERVER => call_ (A_report [rx_bps; maximum_bps rx'; rx_cps; maximum_cps rx'])
     | MODE_CLIENT => call_ (A_report [tx_bps; maximum_bps tx'; tx_cps; maximum_cps tx'])
     end);;
    mret (rx', tx', ts).

(** One turn of the loop. *)
Definition stats_step (st : direction * direction * Z) : MT (direction * direction * Z + unit) :=
  ex ← exiting;
  if (ex : bool) then mret (inr ())
  else
    call_ (A_sleep DEF_PRINT_INTERVAL);;
    con ← load LOAD_con_status;
    if con =? 0 then mret (inl st)
    else
      ex ← exiting;
      if (ex : bool) then mret (inr ())
      else st' ← stats_report st; mret (inl st').

(** The values of several fields. *)
Fixpoint load_all (fields : list Z) : MT (list Z) :=
  match fields with
  | [] => mret []
  | f :: fields' => v ← load f; vs ← load_all fields'; mret (v :: vs)
  end.

Definition print_global_stats (fuel : nat) : MT unit :=
  ts_prev ← callv A_time_local;
  loop fuel stats_step (Direction 0 0 0 0, Direction 0 0 0 0, ts_prev);;
  mode ← getg (λ a, mode (appl a));
  match mode with
  | MODE_CLIENT =>
      n ← load LOAD_send_calls;
      if n =? 0 then mret ()
      else
        bytes ← load LOAD_send_bytes;
        call_ (A_report [bytes; n])
  | MODE_SERVER =>
      n ← load LOAD_recv_calls;
      if n =? 0 then mret ()
      else
        bytes ← load LOAD_recv_bytes;
        call_ (A_report [bytes; n]);;
        counters ← load_all LOAD_pkts;
        call_ (A_report counters)
  end.

(** ** Start and end *)

(** [cleanup_odp:] *)
Definition cleanup_odp (error : Z) : MT Z :=
  call_ A_odp_term_local;; call_ A_odp_term_global;; mret error.

(** [if (p) free(p);] *)
Definition free_arg (p : option positive) : MT unit := on_heap (CliArgParse.free p).

(** [cleanup_shm:] *)
Definition cleanup_shm (shm error : Z) : MT Z :=
  on_heap (CliArgParse.nfpexpl_parse_interfaces_param_cleanup true);;
  a ← getg appl;
  free_arg (cli_file a);;
  free_arg (daddr a);;
  free_arg (laddr a);;
  call_ (A_shm_free shm);;
  cleanup_odp error.

(** [cleanup_nfp:] *)
Definition cleanup_nfp (shm error : Z) : MT Z :=
  call_ A_terminate;; cleanup_shm shm error.

(** The set-up of the socket of either mode; the result is 0 on success. *)
Definition setup_socket : MT Z :=
  a ← getg appl;
  match mode a with
  | MODE_SERVER =>
      addr ← arg_string (laddr a);
      setup_server addr (lport a)
  | MODE_CLIENT =>
      addr ← arg_string (daddr a);
      addr ← of_option addr;
      setup_client addr (dport a)
  end.

(** From the creation of the threads to the closing of the sockets. *)
Definition run_threads (fuel : nat) : MT unit :=
  a ← getg appl;
  let two := single_thread a =? 0 in
  when two (call_ (A_thread_create THREAD_pktio_recv 1));;
  let next_worker := if two then 2 else 1 in
  let start :=
    match mode a with
    | MODE_SERVER => if two then THREAD_run_server else THREAD_run_server_single
    | MODE_CLIENT => if two then THREAD_run_client else THREAD_run_client_single
    end in
  call_ (A_thread_create start next_worker);;
  print_global_stats fuel;;
  call_ (A_thread_join next_worker);;
  cfd ← load LOAD_client_fd;
  when (0 <=? cfd) (call_ (A_close cfd));;
  sfd ← getg server_fd;
  when (0 <=? sfd) (call_ (A_close sfd)).

(** [gbl_args] after [memset] and the two assignments. *)
Definition cleared_args (a : args_t) : args_t :=
  Args (heap a) (ApplArgs MODE_SERVER None 0 None 0 None 0 false) (-1) (-1) 0 0 0 0
    (Counters 0 0 0 0 0 0) 0 0 false (exit_threads a).

Definition main (fuel : nat) (opts : list (Z * CliArgParse.ptr)) : MT Z :=
  r ← callv A_odp_init_global;
  if negb (r =? 0) then mret EXIT_FAILURE
  else
    r ← callv A_odp_init_local;
    if negb (r =? 0) then cleanup_odp EXIT_FAILURE
    else
      shm ← callv A_shm_reserve;
      addr ← callv (A_shm_addr shm);
      if addr =? 0 then cleanup_odp EXIT_FAILURE
      else
        setg cleared_args;;
        p ← on_heap (parse_args fuel opts);
        setg (set_appl p.2);;
        if negb (p.1 =? EXIT_SUCCESS) then cleanup_shm shm EXIT_FAILURE
        else
          setg (set_rx_func (single_pkt_API p.2));;
          let num_workers := if single_thread p.2 =? 0 then 2 else 1 in
          cpus ← callv A_cpu_count;
          if cpus - 1 <? num_workers then cleanup_shm shm EXIT_FAILURE
          else
            r ← callv (A_initialize 0 []);
            if negb (r =? 0) then cleanup_shm shm EXIT_FAILURE
            else
              c ← configure_interfaces (replicate (Z.to_nat NFP_FP_INTERFACE_MAX) 0);
              if negb (c.1 =? 0) then cleanup_nfp shm EXIT_FAILURE
              else
                file ← arg_string (cli_file p.2);
                call_ (A_cli_process_file file);;
                call_ (A_sleep 2);;
                r ← setup_socket;
                if negb (r =? 0) then cleanup_nfp shm EXIT_FAILURE
                else
                  run_threads fuel;;
                  cleanup_nfp shm EXIT_SUCCESS.
End Main.

End TcpPerfMain.
