(* ===== verification/TcpPerfProofs.v ===== *)
(** * The TCP throughput tool: packet reception *)

From S2P Require Import Prelude Errno App AppProofs TcpPerf.
Import App AppProofs TcpPerf.

Module TcpPerfProofs.

(** ** What the programs rely on *)

(** Reception, the scheduler and the list of queues fill their tables. *)
Class PacketLaws (W F : Type) `{!App W F} := {
  recv_table q n w r w' :
    api (A_pktin_recv q n) w = (r, w') → r_val r ≤ Z.of_nat (length (r_list r));
  sched_table n w r w' :
    api (A_schedule_multi n) w = (r, w') → r_val r ≤ Z.of_nat (length (r_list r));
  queue_table io n w r w' :
    api (A_pktin_queue io n) w = (r, w') → r_val r ≤ Z.of_nat (length (r_list r));
}.

(** ** Readings of the record *)

Section Readings.
Context {F : Type}.
Implicit Types (e : event F) (t : list (event F)).

(** Packets received from the queues, handed to the stack, freed. *)
Definition received_by e : list Z :=
  match e.1 with
  | A_pktin_recv _ _ => fst <$> take (Z.to_nat (r_val e.2)) (r_list e.2)
  | _ => []
  end.
Definition input_by e : list Z :=
  match e.1 with
  | A_packet_input pkt _ => [pkt]
  | A_packet_input_multi pkts _ => pkts
  | _ => []
  end.
Definition freed_by e : list Z := match e.1 with A_packet_free pkt => [pkt] | _ => [] end.
(** The packet lengths asked for. *)
Definition size_by e : list Z :=
  match e.1 with A_packet_len _ => [u32 (r_val e.2)] | _ => [] end.

Definition received t : list Z := t ≫= received_by.
Definition input t : list Z := t ≫= input_by.
Definition freed t : list Z := t ≫= freed_by.
Definition sizes t : list Z := t ≫= size_by.

(** Vectors handed over are neither empty nor too long. *)
Definition vectors_ok t : Prop :=
  Forall (λ e, match e.1 with
               | A_packet_input_multi pkts _ => 0 < Z.of_nat (length pkts) ≤ NFP_PKT_VECTOR_SIZE
               | _ => True
               end) t.

(** A reception failed. *)
Definition reception_failed t : Prop := ∃ q n r, (A_pktin_recv q n, r) ∈ t ∧ r_val r < 0.

Lemma reception_failed_r t t' : reception_failed t' → reception_failed (t ++ t').
Proof. intros (q & n & r & Hin & Hr). exists q, n, r. set_solver. Qed.

Lemma received_app t t' : received (t ++ t') = received t ++ received t'.
Proof. apply bind_app. Qed.
Lemma input_app t t' : input (t ++ t') = input t ++ input t'.
Proof. apply bind_app. Qed.
Lemma freed_app t t' : freed (t ++ t') = freed t ++ freed t'.
Proof. apply bind_app. Qed.
Lemma sizes_app t t' : sizes (t ++ t') = sizes t ++ sizes t'.
Proof. apply bind_app. Qed.
Lemma vectors_ok_app t t' : vectors_ok (t ++ t') ↔ vectors_ok t ∧ vectors_ok t'.
Proof. apply Forall_app. Qed.
End Readings.

Create Rewrite HintDb readings.
#[export] Hint Rewrite @received_app @input_app @freed_app @sizes_app : readings.

(** ** Packet statistics *)

(** How many of the sizes are in [lo, hi). *)
Definition count_in (lo hi : Z) (lens : list Z) : Z :=
  Z.of_nat (length (filter (λ n, lo ≤ n < hi) lens)).

(** [c'] is [c] with the packets of the given sizes counted, in 64 bits. *)
Definition tally (c : packet_counters_t) (lens : list Z) (c' : packet_counters_t) : Prop :=
  u64 (total c') = u64 (total c + Z.of_nat (length lens)) ∧
  u64 (xs c') = u64 (xs c + count_in 0 PKT_LEN_XS lens) ∧
  u64 (s c') = u64 (s c + count_in PKT_LEN_XS PKT_LEN_S lens) ∧
  u64 (m c') = u64 (m c + count_in PKT_LEN_S PKT_LEN_M lens) ∧
  u64 (l c') = u64 (l c + count_in PKT_LEN_M PKT_LEN_L lens) ∧
  u64 (xl c') = u64 (xl c + count_in PKT_LEN_L (2 ^ 32) lens).

Lemma wrap_add_l w a b : wrap w (wrap w a + b) = wrap w (a + b).
Proof. unfold wrap. by rewrite Zplus_mod_idemp_l. Qed.

Lemma wrap_cong w a b c : wrap w a = wrap w b → wrap w (a + c) = wrap w (b + c).
Proof. intros H. rewrite <- wrap_add_l, H. apply wrap_add_l. Qed.

Lemma count_in_app lo hi a b : count_in lo hi (a ++ b) = count_in lo hi a + count_in lo hi b.
Proof. unfold count_in. rewrite filter_app, length_app. lia. Qed.

Lemma count_in_one lo hi n : count_in lo hi [n] = if decide (lo ≤ n < hi) then 1 else 0.
Proof. unfold count_in. rewrite filter_cons, filter_nil. by case_decide. Qed.

Lemma tally_nil c : tally c [] c.
Proof. unfold tally, count_in. simpl. by rewrite !Z.add_0_r. Qed.

Lemma tally_app c a c1 b c2 : tally c a c1 → tally c1 b c2 → tally c (a ++ b) c2.
Proof.
  unfold tally. rewrite !count_in_app, length_app, Nat2Z.inj_add.
  intros (H1 & H2 & H3 & H4 & H5 & H6) (K1 & K2 & K3 & K4 & K5 & K6).
  rewrite K1, K2, K3, K4, K5, K6. rewrite !Z.add_assoc.
  split_and!; by apply wrap_cong.
Qed.

(** Sizes fall in exactly one class. *)
Lemma count_in_split lens :
  Forall (λ n, 0 ≤ n < 2 ^ 32) lens →
  Z.of_nat (length lens) =
    count_in 0 PKT_LEN_XS lens + count_in PKT_LEN_XS PKT_LEN_S lens +
    count_in PKT_LEN_S PKT_LEN_M lens + count_in PKT_LEN_M PKT_LEN_L lens +
    count_in PKT_LEN_L (2 ^ 32) lens.
Proof.
  induction lens as [|n lens IH]; [done|]. intros [Hn Hl]%Forall_cons.
  change (n :: lens) with ([n] ++ lens). rewrite !count_in_app, length_app, Nat2Z.inj_add, IH by done.
  rewrite !count_in_one. unfold PKT_LEN_XS, PKT_LEN_S, PKT_LEN_M, PKT_LEN_L. simpl length.
  repeat case_decide; lia.
Qed.

Section Rx.
Context {W F : Type} `{!App W F}.
Local Abbreviation st := (app W F args_t).
Implicit Types (s : st).

Definition bump (len : Z) (c : packet_counters_t) : packet_counters_t :=
  let c := Counters (u64 (total c + 1)) (xs c) (TcpPerf.s c) (m c) (l c) (xl c) in
  if len <? PKT_LEN_XS then
    Counters (total c) (u64 (xs c + 1)) (TcpPerf.s c) (m c) (l c) (xl c)
  else if len <? PKT_LEN_S then
    Counters (total c) (xs c) (u64 (TcpPerf.s c + 1)) (m c) (l c) (xl c)
  else if len <? PKT_LEN_M then
    Counters (total c) (xs c) (TcpPerf.s c) (u64 (m c + 1)) (l c) (xl c)
  else if len <? PKT_LEN_L then
    Counters (total c) (xs c) (TcpPerf.s c) (m c) (u64 (l c + 1)) (xl c)
  else Counters (total c) (xs c) (TcpPerf.s c) (m c) (l c) (u64 (xl c + 1)).

Lemma tally_bump len c : 0 ≤ len < 2 ^ 32 → tally c [len] (bump len c).
Proof.
  intros Hlen. unfold tally, bump. rewrite !count_in_one. simpl length.
  unfold PKT_LEN_XS, PKT_LEN_S, PKT_LEN_M, PKT_LEN_L.
  destruct (Z.ltb_spec len 128), (Z.ltb_spec len 512), (Z.ltb_spec len 1024),
    (Z.ltb_spec len 1280); try lia; simpl; repeat case_decide; try lia;
    rewrite ?wrap_wrap, ?Z.add_0_r; done.
Qed.

(** From [s] to [s'] only the packet counters changed, and the calls made
    satisfy [P]. *)
Definition rx s s' (P : list (event F) → Prop) : Prop :=
  glob s' = set_pkts (pkts (glob s')) (glob s) ∧
  ∃ t, trace s' = trace s ++ t ∧ tally (pkts (glob s)) (sizes t) (pkts (glob s')) ∧
       vectors_ok t ∧ P t.

Lemma rx_refl s (P : list (event F) → Prop) : P [] → rx s s P.
Proof.
  intros HP. split; [by destruct (glob s)|]. exists []. rewrite app_nil_r.
  split_and!; [done|apply tally_nil|by constructor|done].
Qed.

Lemma rx_trans s1 s2 s3 (P P' Q : list (event F) → Prop) :
  rx s1 s2 P → rx s2 s3 P' → (∀ t t', P t → P' t' → Q (t ++ t')) → rx s1 s3 Q.
Proof.
  intros (Hg & t & Ht & Hta & Hv & HP) (Hg' & t' & Ht' & Hta' & Hv' & HP') HQ.
  split; [by rewrite Hg', Hg|]. exists (t ++ t'). rewrite Ht', Ht, app_assoc.
  split_and!; [done| |by apply vectors_ok_app|auto].
  rewrite sizes_app. by eapply tally_app.
Qed.

(** A call other than a length query. *)
Lemma rx_call s c r w (P : list (event F) → Prop) :
  size_by (c, r) = [] → vectors_ok [(c, r)] → P [(c, r)] → rx s (after s c r w) P.
Proof.
  intros Hs Hv HP. split; [by simpl; destruct (glob s)|]. exists [(c, r)].
  split_and!; [done| |done|done]. unfold sizes. simpl. rewrite Hs. apply tally_nil.
Qed.

Lemma update_stats_ok s pkt :
  wp (update_pkt_stats pkt) (λ _ s', rx s s' (λ t,
    input t = [] ∧ freed t = [] ∧ received t = [] ∧ length (sizes t) = 1%nat)) s.
Proof.
  apply wp_bind, wp_callv. intros r w E. apply wp_setg. split; [done|].
  exists [(A_packet_len pkt, r)]. split_and!; [done| |by repeat constructor|done..].
  simpl. apply (tally_bump (u32 (r_val r))). apply wrap_range. lia.
Qed.

Lemma wp_pkt_at s r i (Q : Z → st → Prop) x :
  r_list r !! Z.to_nat i = Some x → Q x.1 s → wp (pkt_at r i) Q s.
Proof. intros Hx HQ. apply wp_bind. eapply wp_of_option; [done|]. by apply wp_ret. Qed.

(** The packets of one reception. *)
Definition burst (r : areply F) (n : nat) : list Z := fst <$> take n (r_list r).

Lemma burst_S r n x : r_list r !! n = Some x → burst r (S n) = burst r n ++ [x.1].
Proof. intros Hx. unfold burst. by rewrite (take_S_lookup _ _ _ Hx), fmap_app. Qed.

Lemma length_burst r n : (n <= length (r_list r))%nat → length (burst r n) = n.
Proof. intros. unfold burst. rewrite length_fmap, length_take. lia. Qed.

(** Every packet of the burst goes to the stack. *)
Lemma single_burst_ok s r n :
  (n <= length (r_list r))%nat →
  wp (for_from 0 n (λ i,
        pkt ← pkt_at r i;
        update_pkt_stats pkt;;
        call_ (A_packet_input pkt ODP_QUEUE_INVALID)))
    (λ _ s', rx s s' (λ t,
      input t = burst r n ∧ freed t = [] ∧ received t = [] ∧ length (sizes t) = n)) s.
Proof.
  intros Hn. eapply wp_mono; [|apply wp_for_from with
    (I := λ i s', rx s s' (λ t, input t = burst r (Z.to_nat i) ∧ freed t = [] ∧
            received t = [] ∧ length (sizes t) = Z.to_nat i))].
  - intros ? s'. by rewrite Z.add_0_l, Nat2Z.id.
  - by apply rx_refl.
  - intros i s1 Hi Hrx.
    destruct (lookup_lt_is_Some_2 (r_list r) (Z.to_nat i)) as [x Hx]; [lia|].
    apply wp_bind. eapply wp_pkt_at; [done|]. apply wp_bind.
    eapply wp_mono; [|apply update_stats_ok]. intros ? s2 Hrx2.
    apply wp_call_. intros r' w' E'.
    eapply rx_trans; [exact Hrx|eapply rx_trans; [exact Hrx2|
      apply (rx_call s2 _ r' w' (eq [(A_packet_input x.1 ODP_QUEUE_INVALID, r')]));
        [done|by repeat constructor|done]|]|].
    + intros t ? (Hi1 & Hf1 & Hr1 & Hs1) <-.
      instantiate (1 := λ t, input t = [x.1] ∧ freed t = [] ∧ received t = [] ∧
                             length (sizes t) = 1%nat).
      cbv beta. autorewrite with readings. rewrite Hi1, Hf1, Hr1, length_app, Hs1. done.
    + intros t t' (Hi1 & Hf1 & Hr1 & Hs1) (Hi2 & Hf2 & Hr2 & Hs2).
      autorewrite with readings. rewrite Hi1, Hf1, Hr1, Hi2, Hf2, Hr2, length_app, Hs1, Hs2.
      replace (Z.to_nat (i + 1)) with (S (Z.to_nat i)) by lia.
      rewrite (burst_S _ _ _ Hx). split_and!; [done..|lia].
Qed.

Context `{!PacketLaws W F}.

Lemma rx_single_loop_ok pktins n : ∀ idx sum s,
  (idx + n <= length pktins)%nat → 0 ≤ sum →
  wp (rx_single_loop pktins idx n sum) (λ v s', rx s s' (λ t,
    input t = received t ∧ freed t = [] ∧ length (sizes t) = length (received t) ∧
    ((v < 0 ∧ reception_failed t) ∨ v = sum + Z.of_nat (length (received t))))) s.
Proof.
  induction n as [|n IH]; intros idx sum s Hlen Hsum; simpl.
  { apply wp_ret, rx_refl. split_and!; [done..|]. right. simpl. lia. }
  destruct (lookup_lt_is_Some_2 pktins idx) as [q Hq]; [lia|].
  apply wp_bind. eapply wp_of_option; [done|]. apply wp_bind, wp_call. intros r w E.
  pose proof (recv_table _ _ _ _ _ E) as Hr.
  assert (Hc := rx_call s (A_pktin_recv q PKT_BURST_SIZE) r w (eq [(A_pktin_recv q PKT_BURST_SIZE, r)])
    eq_refl ltac:(by repeat constructor) eq_refl).
  assert (Hrec : received [(A_pktin_recv q PKT_BURST_SIZE, r)] = burst r (Z.to_nat (r_val r))).
  { unfold received. simpl. apply app_nil_r. }
  destruct (Z.ltb_spec (r_val r) 0) as [Hneg|Hpos].
  { apply wp_ret. eapply rx_trans; [exact Hc|by apply (rx_refl _ (eq []))|].
    intros ? ? <- <-. rewrite app_nil_r, Hrec. unfold burst.
    replace (Z.to_nat (r_val r)) with 0%nat by lia. split_and!; [done..|left; split; [done|]].
    eexists q, _, r. split; [by left|done]. }
  apply wp_bind. eapply wp_mono; [|apply single_burst_ok; lia].
  intros ? s2 Hrx2. eapply wp_mono; [|apply IH; lia].
  intros v s3 Hrx3. eapply rx_trans; [exact Hc|eapply rx_trans; [exact Hrx2|exact Hrx3|]|].
  - intros t t' (Hi1 & Hf1 & Hr1 & Hs1) (Hi2 & Hf2 & Hs2 & Hv).
    instantiate (1 := λ t, input t = burst r (Z.to_nat (r_val r)) ++ received t ∧ freed t = [] ∧
      length (sizes t) = (Z.to_nat (r_val r) + length (received t))%nat ∧
      ((v < 0 ∧ reception_failed t) ∨ v = sum + r_val r + Z.of_nat (length (received t)))).
    cbv beta. autorewrite with readings. rewrite Hi1, Hf1, Hr1, Hi2, Hf2, length_app, Hs1, Hs2.
    split_and!; [done..|]. destruct Hv as [[? ?]| ->]; [left|by right].
    split; [done|by apply reception_failed_r].
  - intros ? t' <- (Hi2 & Hf2 & Hs2 & Hv). autorewrite with readings.
    rewrite Hrec, Hi2, Hf2, !length_app, Hs2, length_burst by lia.
    split_and!; [done..|]. destruct Hv as [[? ?]| ->]; [left|right; lia].
    split; [done|by apply reception_failed_r].
Qed.

(** The vector API: packets [inp] joining a vector [vec] are handed over,
    freed, or left in the vector [vec']; in order, when none was freed. *)
Definition flow (vec inp vec' : list Z) (t : list (event F)) : Prop :=
  vec ++ inp ≡ₚ input t ++ freed t ++ vec' ∧
  (freed t = [] → vec ++ inp = input t ++ vec').

Lemma flow_refl vec : flow vec [] vec [].
Proof. split; [by rewrite app_nil_r|]. by rewrite app_nil_r. Qed.

Lemma flow_app vec inp vec' inp' vec'' t t' :
  flow vec inp vec' t → flow vec' inp' vec'' t' → flow vec (inp ++ inp') vec'' (t ++ t').
Proof.
  intros [Hp He] [Hp' He']. split.
  - autorewrite with readings. rewrite app_assoc, Hp. rewrite <- !app_assoc.
    f_equiv. rewrite Hp'. rewrite !app_assoc. f_equiv. f_equiv. apply Permutation_app_comm.
  - autorewrite with readings. intros [Hf Hf']%app_nil.
    by rewrite app_assoc, (He Hf), <- !app_assoc, (He' Hf').
Qed.

Lemma multi_packet_ok s r i vec x :
  r_list r !! Z.to_nat i = Some x → Z.of_nat (length vec) < NFP_PKT_VECTOR_SIZE →
  wp (rx_multi_packet r i vec) (λ vec' s', Z.of_nat (length vec') < NFP_PKT_VECTOR_SIZE ∧
    rx s s' (λ t, flow vec [x.1] vec' t ∧ received t = [] ∧ length (sizes t) = 1%nat)) s.
Proof.
  intros Hx Hvec. unfold rx_multi_packet. apply wp_bind. eapply wp_pkt_at; [done|].
  apply wp_bind. eapply wp_mono; [|apply update_stats_ok]. intros ? s1 Hrx1.
  apply wp_bind, wp_callv. intros r1 w1 E1. set (s2 := after s1 _ r1 w1).
  assert (Hrx2 : rx s s2 (λ t, input t = [] ∧ freed t = [] ∧ received t = [] ∧
                               length (sizes t) = 1%nat)).
  { eapply rx_trans; [exact Hrx1|apply (rx_call _ _ _ _ (eq [(A_pkt_vector_add vec x.1, r1)]));
      [done|by repeat constructor|done]|].
    intros t ? (H1 & H2 & H3 & H4) <-. autorewrite with readings.
    by rewrite H1, H2, H3, length_app, H4. }
  assert (Hstep : ∀ c r2 w2 vec', size_by (c, r2) = [] → vectors_ok [(c, r2)] →
    received [(c, r2)] = [] → flow vec [x.1] vec' [(c, r2)] →
    rx s (after s2 c r2 w2) (λ t, flow vec [x.1] vec' t ∧ received t = [] ∧ length (sizes t) = 1%nat)).
  { intros c r2 w2 vec' Hs Hv Hr Hfl. eapply rx_trans; [exact Hrx2|
      by apply (rx_call _ _ _ _ (eq [(c, r2)]))|].
    intros t ? (H1 & H2 & H3 & H4) <-. unfold flow. autorewrite with readings.
    rewrite H1, H2, H3, Hr, length_app, H4. split_and!; [apply Hfl..|done|].
    unfold sizes. simpl. by rewrite Hs. }
  destruct (negb (r_val r1 =? 1)).
  { apply wp_bind, wp_call_. intros r2 w2 E2. apply wp_ret. split; [done|].
    apply Hstep; [done|by repeat constructor|done|].
    split; [|done]. cbn. apply Permutation_app_comm. }
  unfold NFP_PKT_VECTOR_IS_FULL.
  assert (Hlen : Z.of_nat (length (vec ++ [x.1])) = Z.of_nat (length vec) + 1).
  { rewrite length_app, Nat2Z.inj_add. done. }
  rewrite Hlen.
  destruct (Z.eqb_spec (Z.of_nat (length vec) + 1) NFP_PKT_VECTOR_SIZE) as [Hfull|Hroom].
  - apply wp_bind, wp_call_. intros r2 w2 E2. apply wp_ret. split; [done|].
    apply Hstep; [done| |done|].
    + apply Forall_singleton. cbn [fst]. lia.
    + unfold flow, input, freed. simpl. by rewrite !app_nil_r.
  - apply wp_ret. split; [lia|].
    eapply rx_trans; [exact Hrx2|by apply (rx_refl _ (eq []))|].
    intros t ? (H1 & H2 & H3 & H4) <-. rewrite app_nil_r. unfold flow. by rewrite H1, H2.
Qed.

Lemma multi_burst_ok s r n vec :
  (n <= length (r_list r))%nat → Z.of_nat (length vec) < NFP_PKT_VECTOR_SIZE →
  wp (for_acc 0 n (rx_multi_packet r) vec) (λ vec' s',
    Z.of_nat (length vec') < NFP_PKT_VECTOR_SIZE ∧
    rx s s' (λ t, flow vec (burst r n) vec' t ∧ received t = [] ∧ length (sizes t) = n)) s.
Proof.
  intros Hn Hvec. eapply wp_mono; [|apply wp_for_acc with
    (I := λ i vec' s', Z.of_nat (length vec') < NFP_PKT_VECTOR_SIZE ∧
            rx s s' (λ t, flow vec (burst r (Z.to_nat i)) vec' t ∧ received t = [] ∧
                          length (sizes t) = Z.to_nat i))].
  - intros vec' s'. by rewrite Z.add_0_l, Nat2Z.id.
  - split; [done|]. apply rx_refl. split_and!; [apply flow_refl|done..].
  - intros i vec' s1 Hi [Hvec' Hrx].
    destruct (lookup_lt_is_Some_2 (r_list r) (Z.to_nat i)) as [x Hx]; [lia|].
    eapply wp_mono; [|by apply multi_packet_ok]. intros vec2 s2 [Hvec2 Hrx2].
    split; [done|]. eapply rx_trans; [exact Hrx|exact Hrx2|].
    intros t t' (Hf1 & Hr1 & Hs1) (Hf2 & Hr2 & Hs2).
    replace (Z.to_nat (i + 1)) with (S (Z.to_nat i)) by lia. rewrite (burst_S _ _ _ Hx).
    autorewrite with readings. rewrite Hr1, Hr2, length_app, Hs1, Hs2.
    split_and!; [by eapply flow_app|done|lia].
Qed.

Lemma rx_multi_loop_ok pktins n : ∀ idx vec sum s,
  (idx + n <= length pktins)%nat → 0 ≤ sum → Z.of_nat (length vec) < NFP_PKT_VECTOR_SIZE →
  wp (rx_multi_loop pktins idx n vec sum) (λ v s', ∃ lost,
    Z.of_nat (length lost) < NFP_PKT_VECTOR_SIZE ∧
    rx s s' (λ t, flow vec (received t) lost t ∧ length (sizes t) = length (received t) ∧
      ((v < 0 ∧ reception_failed t) ∨
       (lost = [] ∧ v = sum + Z.of_nat (length (received t)))))) s.
Proof.
  induction n as [|n IH]; intros idx vec sum s Hlen Hsum Hvec; simpl.
  { apply wp_bind. unfold NFP_PKT_VECTOR_HAS_DATA.
    destruct (Z.eqb_spec (Z.of_nat (length vec)) 0) as [Hz|Hz]; simpl.
    - apply wp_ret, wp_ret. exists []. split; [done|]. apply rx_refl.
      destruct vec; [|simpl in Hz; lia]. split_and!; [apply flow_refl|done|right; split; [done|simpl; lia]].
    - apply wp_call_. intros r w E. apply wp_ret. exists []. split; [done|].
      apply rx_call; [done|apply Forall_singleton; simpl; lia|].
      split_and!; [|done|right; split; [done|cbn; lia]].
      unfold flow, input, freed, received. simpl. by rewrite !app_nil_r. }
  destruct (lookup_lt_is_Some_2 pktins idx) as [q Hq]; [lia|].
  apply wp_bind. eapply wp_of_option; [done|]. apply wp_bind, wp_call. intros r w E.
  pose proof (recv_table _ _ _ _ _ E) as Hr.
  assert (Hc := rx_call s (A_pktin_recv q PKT_BURST_SIZE) r w (eq [(A_pktin_recv q PKT_BURST_SIZE, r)])
    eq_refl ltac:(by repeat constructor) eq_refl).
  assert (Hrec : received [(A_pktin_recv q PKT_BURST_SIZE, r)] = burst r (Z.to_nat (r_val r))).
  { unfold received. simpl. apply app_nil_r. }
  destruct (Z.ltb_spec (r_val r) 0) as [Hneg|Hpos].
  { apply wp_ret. exists vec. split; [done|].
    eapply rx_trans; [exact Hc|by apply (rx_refl _ (eq []))|].
    intros ? ? <- <-. rewrite app_nil_r, Hrec. unfold burst.
    replace (Z.to_nat (r_val r)) with 0%nat by lia.
    split_and!; [unfold flow; cbn; by rewrite app_nil_r|done|left; split; [done|]].
    eexists q, _, r. split; [by left|done]. }
  apply wp_bind. eapply wp_mono; [|apply (multi_burst_ok _ _ _ vec); [lia|done]].
  intros vec2 s2 [Hvec2 Hrx2]. eapply wp_mono; [|apply (IH _ vec2); [lia..|done]].
  intros v s3 (lost & Hlost & Hrx3). exists lost. split; [done|].
  eapply rx_trans; [exact Hc|eapply rx_trans; [exact Hrx2|exact Hrx3|]|].
  - intros t t' (Hf1 & Hr1 & Hs1) (Hf2 & Hs2 & Hv).
    instantiate (1 := λ t, flow vec (burst r (Z.to_nat (r_val r)) ++ received t) lost t ∧
      length (sizes t) = (Z.to_nat (r_val r) + length (received t))%nat ∧
      ((v < 0 ∧ reception_failed t) ∨
       (lost = [] ∧ v = sum + r_val r + Z.of_nat (length (received t))))).
    cbv beta. autorewrite with readings. rewrite Hr1, length_app, Hs1, Hs2.
    split_and!; [by eapply flow_app|done|]. destruct Hv as [[? ?]|?]; [left|by right].
    split; [done|by apply reception_failed_r].
  - intros ? t' <- (Hf2 & Hs2 & Hv). autorewrite with readings.
    rewrite Hrec, !length_app, Hs2, length_burst by lia.
    split_and!; [unfold flow in *; autorewrite with readings; exact Hf2|done|].
    destruct Hv as [[? ?]|[-> ->]]; [left|right; split; [done|lia]].
    split; [done|by apply reception_failed_r].
Qed.

(** Whichever function is chosen. *)
Lemma rx_func_ok s pktins cnt :
  cnt ≤ Z.of_nat (length pktins) →
  wp (rx_func pktins cnt) (λ v s', rx s s' (λ _, True) ∧
    (v < 0 → reception_failed (trace s'))) s.
Proof.
  intros Hlen. apply wp_bind, wp_getg. destruct (rx_single (glob s)).
  - eapply wp_mono; [|apply rx_single_loop_ok; lia].
    intros v s' (Hg & t & Ht & Hta & Hv & _ & _ & _ & Hr). split; [split; [done|by exists t]|].
    intros Hneg. rewrite Ht. apply reception_failed_r. destruct Hr as [[_ ?]| ->]; [done|lia].
  - eapply wp_mono; [|apply rx_multi_loop_ok; [lia..|done]].
    intros v s' (lost & _ & Hg & t & Ht & Hta & Hv & _ & _ & Hr). split; [split; [done|by exists t]|].
    intros Hneg. rewrite Ht. apply reception_failed_r. destruct Hr as [[_ ?]|[_ ->]]; [done|lia].
Qed.
End Rx.

End TcpPerfProofs.
