(* ===== verification/TcpPerfThreads.v ===== *)
(** * The TCP throughput tool: threads

    The traffic counters agree with the answers of [nfp_recv] and [nfp_send],
    and every thread comes to an end. *)

From S2P Require Import Prelude Errno App AppProofs TcpPerf TcpPerfProofs.
Import App AppProofs TcpPerf TcpPerfProofs.

Module TcpPerfThreads.

Section Readings.
Context {F : Type}.
Implicit Types (e : event F) (t : list (event F)).

(** The sizes of the data received, and of the data accepted for sending. *)
Definition got_by e : list Z :=
  match e.1 with A_recv _ _ _ => if 0 <? r_val e.2 then [r_val e.2] else [] | _ => [] end.
Definition put_by e : list Z :=
  match e.1 with A_send _ _ _ => if 0 <=? r_val e.2 then [r_val e.2] else [] | _ => [] end.
Definition got t : list Z := t ≫= got_by.
Definition put t : list Z := t ≫= put_by.

Lemma got_app t t' : got (t ++ t') = got t ++ got t'.
Proof. apply bind_app. Qed.
Lemma put_app t t' : put (t ++ t') = put t ++ put t'.
Proof. apply bind_app. Qed.
End Readings.

Definition sum (l : list Z) : Z := foldr Z.add 0 l.

Lemma sum_app a b : sum (a ++ b) = sum a + sum b.
Proof. induction a as [|x a IH]; simpl; [done|]. unfold sum in *. lia. Qed.

Section Threads.
Context {W F : Type} `{!App W F, !SocketLaws W F, !PacketLaws W F}.
Local Abbreviation st := (app W F args_t).
Implicit Types (s : st).

(** The counters of [g'] are those of [g] with the traffic of [t] added, in
    64 bits. *)
Definition metered_by (g : args_t) (t : list (event F)) (g' : args_t) : Prop :=
  u64 (recv_calls g') = u64 (recv_calls g + Z.of_nat (length (got t))) ∧
  u64 (recv_bytes g') = u64 (recv_bytes g + sum (got t)) ∧
  u64 (send_calls g') = u64 (send_calls g + Z.of_nat (length (put t))) ∧
  u64 (send_bytes g') = u64 (send_bytes g + sum (put t)).

Definition metered s s' : Prop :=
  (budget (world s') ≤ budget (world s))%nat ∧
  ∃ t, trace s' = trace s ++ t ∧ metered_by (glob s) t (glob s').

Lemma metered_by_app g t g1 t' g2 :
  metered_by g t g1 → metered_by g1 t' g2 → metered_by g (t ++ t') g2.
Proof.
  unfold metered_by. rewrite !got_app, !put_app, !length_app, !sum_app, !Nat2Z.inj_add.
  intros (H1 & H2 & H3 & H4) (K1 & K2 & K3 & K4). rewrite K1, K2, K3, K4, !Z.add_assoc.
  split_and!; by apply wrap_cong.
Qed.

#[global] Instance metered_preorder : PreOrder metered.
Proof.
  split.
  - intros s. split; [done|]. exists []. rewrite app_nil_r. split; [done|].
    unfold metered_by. simpl. by rewrite !Z.add_0_r.
  - intros s1 s2 s3 (Hb & t & Ht & Hm) (Hb' & t' & Ht' & Hm'). split; [lia|].
    exists (t ++ t'). split; [by rewrite Ht', Ht, app_assoc|]. by eapply metered_by_app.
Qed.

(** A call that moves no data. *)
Definition idle_call (c : acall F) : bool :=
  match c with A_recv _ _ _ | A_send _ _ _ => false | _ => true end.

Lemma metered_after s c r w g :
  api c (world s) = (r, w) → metered_by (glob s) [(c, r)] g →
  metered s (MkApp w (r_errno r) (trace s ++ [(c, r)]) g).
Proof. intros E Hm. split; [by eapply budget_le|]. by exists [(c, r)]. Qed.

Lemma metered_by_idle g c r : idle_call c = true → metered_by g [(c, r)] g.
Proof. intros. unfold metered_by. destruct c; try done; simpl; by rewrite !Z.add_0_r. Qed.

Lemma keeps_call c : idle_call c = true → keeps metered (call c).
Proof.
  intros Hc s a s' H. unfold call in H. destruct (api c (world s)) as [r w] eqn:E.
  injection H as <- <-. apply metered_after; [done|]. by apply metered_by_idle.
Qed.

Lemma keeps_callv c : idle_call c = true → keeps metered (callv c).
Proof.
  intros. apply keeps_bind; [apply _|by apply keeps_call|]. intros. apply keeps_ret, _.
Qed.

Lemma keeps_call_ c : idle_call c = true → keeps metered (call_ c).
Proof.
  intros. apply keeps_bind; [apply _|by apply keeps_call|]. intros. apply keeps_ret, _.
Qed.

Lemma keeps_setg (f : args_t → args_t) :
  (∀ g, recv_calls (f g) = recv_calls g ∧ recv_bytes (f g) = recv_bytes g ∧
        send_calls (f g) = send_calls g ∧ send_bytes (f g) = send_bytes g) →
  keeps metered (setg f).
Proof.
  intros Hf s a s' [= <- <-]. split; [done|]. exists []. split; [by rewrite app_nil_r|].
  destruct (Hf (glob s)) as (H1 & H2 & H3 & H4). unfold metered_by. simpl.
  by rewrite H1, H2, H3, H4, !Z.add_0_r.
Qed.

Lemma keeps_getg {A} (f : args_t → A) : keeps metered (getg f).
Proof. apply keeps_gets, _. Qed.

Hint Resolve keeps_getg : keeps.
Hint Extern 1 (keeps _ (call _)) => apply keeps_call; reflexivity : keeps.
Hint Extern 1 (keeps _ (callv _)) => apply keeps_callv; reflexivity : keeps.
Hint Extern 1 (keeps _ (call_ _)) => apply keeps_call_; reflexivity : keeps.
Hint Extern 1 (keeps _ (setg _)) => apply keeps_setg; done : keeps.

Lemma keeps_exiting : keeps metered (exiting : M st bool).
Proof. unfold exiting, sig_handler. frame. Qed.
Hint Resolve keeps_exiting : keeps.

Lemma keeps_handle_timeouts fuel : keeps metered (handle_timeouts fuel : M st unit).
Proof. unfold handle_timeouts, timeouts_step. frame. Qed.
Hint Resolve keeps_handle_timeouts : keeps.

Lemma keeps_update_pkt_stats pkt : keeps metered (update_pkt_stats pkt : M st unit).
Proof. unfold update_pkt_stats. frame. Qed.
Hint Resolve keeps_update_pkt_stats : keeps.

Lemma keeps_rx_single pktins n : ∀ idx sum,
  keeps metered (rx_single_loop pktins idx n sum : M st Z).
Proof. induction n; simpl; unfold pkt_at; frame. Qed.

Lemma keeps_rx_multi pktins n : ∀ idx vec sum,
  keeps metered (rx_multi_loop pktins idx n vec sum : M st Z).
Proof. induction n; simpl; unfold rx_multi_packet, pkt_at; frame. Qed.

Lemma keeps_rx_func pktins cnt : keeps metered (rx_func pktins cnt : M st Z).
Proof.
  unfold rx_func, rx_single_api, rx_multi_api. frame; [apply keeps_rx_single|apply keeps_rx_multi].
Qed.
Hint Resolve keeps_rx_func : keeps.

Lemma keeps_wait_for_client fuel fd pktins cnt :
  keeps metered (wait_for_client fuel fd pktins cnt : M st Z).
Proof. unfold wait_for_client, wait_step. frame. Qed.
Hint Resolve keeps_wait_for_client : keeps.

(** Data received are counted. *)
Lemma keeps_server_recv : keeps metered (server_recv : M st (bool + unit)).
Proof.
  intros s a s' H. unfold server_recv in H.
  apply bind_inv_Ret in H as (fd & s0 & [= <- <-] & H).
  apply bind_inv_Ret in H as (ret & s1 & Hc & H).
  apply bind_inv_Ret in H as (e & s2 & [= <- <-] & H).
  apply bind_inv_Ret in Hc as (r & s2 & Hc & [= <- <-]).
  unfold call in Hc. destruct (api _ _) as [r' w] eqn:E. injection Hc as <- <-. simpl in H.
  assert (Hnone : r_val r' ≤ 0 → metered s
    (MkApp w (r_errno r') (trace s ++ [(A_recv (client_fd (glob s)) SOCKET_RX_BUF_LEN NFP_MSG_NBIO, r')]) (glob s))).
  { intros Hle. apply metered_after; [done|]. unfold metered_by, got, put. simpl. unfold got_by. simpl.
    destruct (Z.ltb_spec 0 (r_val r')); [lia|]. simpl. by rewrite !Z.add_0_r. }
  destruct (Z.ltb_spec (r_val r') 0) as [Hneg|Hpos]; simpl in H.
  { destruct (r_errno r' =? _); injection H as <- <-; apply Hnone; lia. }
  destruct (Z.eqb_spec (r_val r') 0); simpl in H; [injection H as <- <-; apply Hnone; lia|].
  injection H as <- <-. apply metered_after; [done|].
  unfold metered_by, got, put. simpl. unfold got_by. simpl.
  destruct (Z.ltb_spec 0 (r_val r')); [|lia]. simpl.
  by rewrite !wrap_wrap, !Z.add_0_r.
Qed.
Hint Resolve keeps_server_recv : keeps.

(** A send, of which what follows counts the data accepted. *)
Lemma keeps_send {A} fd buf flags (k : Z → M st A) :
  (∀ ret, ret < 0 → keeps metered (k ret)) →
  (∀ ret, 0 ≤ ret → ∃ k', keeps metered k' ∧ ∀ s, k ret s = (setg (add_send ret);; k') s) →
  keeps metered (ret ← callv (A_send fd buf flags); k ret).
Proof.
  intros Hneg Hpos s a s' H.
  apply bind_inv_Ret in H as (ret & s1 & Hc & H).
  apply bind_inv_Ret in Hc as (r & s2 & Hc & [= <- <-]).
  unfold call in Hc. destruct (api _ _) as [r' w] eqn:E. injection Hc as <- <-.
  destruct (decide (r_val r' < 0)) as [Hr|Hr].
  - etrans; [|by eapply Hneg]. apply metered_after; [done|].
    unfold metered_by, got, put. simpl. unfold put_by. simpl.
    destruct (Z.leb_spec 0 (r_val r')); [lia|]. simpl. by rewrite !Z.add_0_r.
  - destruct (Hpos (r_val r')) as (k' & Hk' & Heq); [lia|]. rewrite Heq in H.
    apply bind_inv_Ret in H as ([] & s1 & [= <-] & H).
    etrans; [|by eapply Hk']. apply metered_after; [done|].
    unfold metered_by, got, put. simpl. unfold put_by. simpl.
    destruct (Z.leb_spec 0 (r_val r')); [|lia]. simpl. by rewrite !wrap_wrap, !Z.add_0_r.
Qed.

Lemma keeps_client_step buf u : keeps metered (client_step buf u : M st (unit + unit)).
Proof.
  unfold client_step. apply keeps_bind; [apply _|frame|]. intros ex.
  destruct ex; [frame|]. apply keeps_bind; [apply _|frame|]. intros fd.
  apply keeps_send; intros ret Hr; destruct (Z.ltb_spec ret 0); try lia; [frame|].
  eexists. split; [|reflexivity]. frame.
Qed.
Hint Resolve keeps_client_step : keeps.

Lemma keeps_client_single_step fuel pktins cnt buf tc :
  keeps metered (client_single_step fuel pktins cnt buf tc : M st (Z + unit)).
Proof.
  unfold client_single_step. apply keeps_bind; [apply _|frame|]. intros ex.
  destruct ex; [frame|]. apply keeps_bind; [apply _|frame|]. intros _.
  apply keeps_bind; [apply _|frame|]. intros n. destruct (n <? 0); [frame|].
  destruct (_ <=? n); [frame|]. apply keeps_bind; [apply _|frame|]. intros fd.
  apply keeps_send; intros ret Hr; destruct (Z.ltb_spec ret 0); try lia; [simpl; frame|].
  eexists. split; [|intros s; simpl; reflexivity]. frame.
Qed.
Hint Resolve keeps_client_single_step : keeps.

Lemma keeps_run_server fuel pktins cnt : keeps metered (run_server fuel pktins cnt : M st Z).
Proof. unfold run_server, server_step. frame. Qed.

Lemma keeps_run_server_single fuel pktins cnt :
  keeps metered (run_server_single fuel pktins cnt : M st Z).
Proof. unfold run_server_single, server_single_step. frame. Qed.

Lemma keeps_run_client fuel buf : keeps metered (run_client fuel buf : M st Z).
Proof. unfold run_client, client_connect. frame. Qed.

Lemma keeps_connect_step pktins cnt u : keeps metered (connect_step pktins cnt u : M st _).
Proof. unfold connect_step. frame. Qed.
Hint Resolve keeps_connect_step : keeps.

Lemma keeps_run_client_single fuel pktins cnt buf :
  keeps metered (run_client_single fuel pktins cnt buf : M st Z).
Proof. unfold run_client_single, client_connect. frame. Qed.

(** ** Termination *)

Lemma exiting_ok s :
  wp exiting (λ b s',
    if (b : bool) then exit_threads (glob s') ≠ 0
    else (budget (world s') < budget (world s))%nat) s.
Proof.
  apply wp_bind, wp_callv. intros r w E. destruct (Z.eqb_spec (r_val r) 0) as [Hr|Hr].
  - apply wp_bind, wp_ret, wp_bind, wp_getg. apply wp_ret. simpl.
    destruct (Z.eqb_spec (exit_threads (glob s)) 0); simpl; [|done].
    eapply budget_lt; [done|]. unfold again. simpl. by apply Z.eqb_eq.
  - apply wp_bind, wp_bind, wp_setg, wp_call_. intros r' w' E'. apply wp_bind, wp_getg.
    by apply wp_ret.
Qed.

Lemma enough_metered fuel s s' : enough fuel s → metered s s' → enough fuel s'.
Proof. unfold enough. intros ? [? _]. lia. Qed.

(** A step of which the frame is known. *)
Lemma wp_framed {A} (m : M st A) Q s :
  keeps metered m → wp m Q s → wp m (λ a s', Q a s' ∧ metered s s') s.
Proof. apply wp_keeps. Qed.

Lemma handle_timeouts_ok fuel s :
  enough fuel s → wp (handle_timeouts fuel) (λ _ _, True) s.
Proof.
  intros He. apply wp_bind, wp_call. intros r w E.
  apply wp_bind. eapply wp_mono with (Q := λ _ _, True).
  { intros [] s' _; [|by apply wp_ret]. by apply wp_call_. }
  eapply wp_loop with (I := λ _ s', True)
    (μ := λ st s', (budget (world s') + (if (st.1.1 =? 0)%Z then 0 else 1))%nat).
  - intros [[ev q] hp] s1 _. unfold timeouts_step.
    destruct (Z.eqb_spec ev ODP_EVENT_INVALID) as [|Hev]; [by apply wp_ret|].
    apply wp_bind. eapply wp_mono;
      [|apply wp_framed with (Q := λ _ _, True); [by apply keeps_callv|by apply wp_callv]].
    intros ty s2 [_ Hm2]. apply wp_bind.
    eapply wp_mono; [|apply wp_framed with (Q := λ _ _, True); [frame|]].
    2: { destruct (ty =? _); apply wp_bind; [apply wp_call_|apply wp_callv]; intros;
           [by apply wp_ret|]. destruct (_ =? _); apply wp_bind, wp_call_; intros; by apply wp_ret. }
    intros hp' s3 [_ Hm3]. apply wp_bind, wp_call. intros r4 w4 E4. apply wp_ret.
    split; [done|]. cbn [fst]. pose proof (budget_step _ _ _ _ E4) as Hb. unfold again in Hb.
    simpl in *. destruct Hm2 as [? _], Hm3 as [? _].
    destruct (Z.eqb_spec ev 0); [done|]. destruct (Z.eqb_spec (r_val r4) 0); simpl in Hb; lia.
  - done.
  - simpl. pose proof (budget_le _ _ _ _ E). unfold enough in He.
    destruct (r_val r =? 0); lia.
Qed.

(** ** The parts, with their frames *)

Lemma exiting_ok' s :
  wp exiting (λ b s',
    (if (b : bool) then exit_threads (glob s') ≠ 0
     else (budget (world s') < budget (world s))%nat) ∧ metered s s') s.
Proof. apply wp_framed; [frame|]. apply exiting_ok. Qed.

Lemma wp_metered {A} (m : M st A) s :
  keeps metered m → wp m (λ _ _, True) s → wp m (λ _ s', metered s s') s.
Proof. intros Hk Hw. eapply wp_mono; [|by apply wp_framed]. by intros ? ? [_ ?]. Qed.

Lemma idle_call_ok c s : idle_call c = true → wp (call_ c) (λ _ s', metered s s') s.
Proof.
  intros Hc. eapply wp_mono; [|apply wp_framed with (Q := λ _ _, True);
    [by apply keeps_call_|by apply wp_call_]]. by intros ? ? [_ ?].
Qed.

Lemma idle_callv_ok c s : idle_call c = true → wp (callv c) (λ _ s', metered s s') s.
Proof.
  intros Hc. eapply wp_mono; [|apply wp_framed with (Q := λ _ _, True);
    [by apply keeps_callv|by apply wp_callv]]. by intros ? ? [_ ?].
Qed.

Context (fuel : nat) (pktins : list Z) (cnt : Z).
Hypothesis Hcnt : cnt ≤ Z.of_nat (length pktins).

Lemma rx_ok s :
  wp (rx_func pktins cnt) (λ v s', (v < 0 → reception_failed (trace s')) ∧ metered s s') s.
Proof.
  eapply wp_mono; [|apply wp_framed; [frame|by apply rx_func_ok]].
  by intros v s' [[_ ?] ?].
Qed.

Lemma timeouts_ok (b : bool) s :
  enough fuel s → wp (if b then handle_timeouts fuel else mret ()) (λ _ s', metered s s') s.
Proof.
  intros He. destruct b; [|by apply wp_ret].
  eapply wp_mono; [|apply wp_framed; [frame|by apply handle_timeouts_ok]]. by intros ? ? [_ ?].
Qed.

(** A loop whose every further turn was preceded by an unanswered exit check. *)
Lemma wp_exit_loop {A B} (body : A → M st (A + B)) (Q : B → st → Prop) a s :
  enough fuel s →
  (∀ a s', enough fuel s' →
     wp (body a) (λ r s'', match r with
                           | inl _ => (budget (world s'') < budget (world s'))%nat
                           | inr b => Q b s''
                           end) s') →
  wp (loop fuel body a) Q s.
Proof.
  intros He Hb. eapply wp_loop with (I := λ _ s', enough fuel s')
    (μ := λ _ s', budget (world s')).
  - intros a' s' He'. eapply wp_mono; [|by apply Hb]. intros [x|y] s'' Hlt; [|done].
    split; [|done]. unfold enough in *. lia.
  - done.
  - unfold enough in He. lia.
Qed.

Lemma wait_ok fd s : enough fuel s → wp (wait_for_client fuel fd pktins cnt) (λ _ _, True) s.
Proof.
  intros He. apply wp_exit_loop; [done|]. intros [] s1 He1. unfold wait_step.
  apply wp_bind. eapply wp_mono; [|apply exiting_ok'].
  intros [] s2 [Hb Hm2]; [by apply wp_ret|]. apply wp_bind, wp_getg, wp_bind.
  eapply wp_mono with (Q := λ _ s', metered s2 s').
  - intros [] s3 [Hb3 _]. apply wp_bind. eapply wp_mono; [|by apply idle_callv_ok].
    intros v s4 [Hb4 _]. simpl in Hb4.
    destruct (v =? 0); [apply wp_ret; lia|]. destruct (v <? 0); [by apply wp_ret|].
    apply wp_bind, wp_callv. intros r w E. destruct (_ <? 0); by apply wp_ret.
  - apply wp_metered; [frame|]. destruct (negb _); [|by apply wp_ret].
    apply wp_bind, wp_call_. intros. apply wp_bind.
    eapply wp_mono; [|apply rx_ok]. intros. by apply wp_call_.
Qed.

Lemma server_recv_ok s : wp server_recv (λ _ _, True) s.
Proof.
  apply wp_bind, wp_getg, wp_bind, wp_callv. intros r w E. apply wp_bind, wp_gets.
  destruct (_ && _); [by apply wp_ret|]. destruct (_ <? 0); [by apply wp_ret|].
  destruct (negb _); [|by apply wp_ret]. by apply wp_bind, wp_setg, wp_ret.
Qed.

(** The common beginning of the server threads. *)
Lemma server_start_ok s (k : M st Z) :
  enough fuel s →
  (∀ s', enough fuel s' → wp k (λ rc s'', exit_threads (glob s'') = 1 ∧ (rc = 0 ∨ rc = -1)) s') →
  wp (sfd ← getg server_fd;
      cfd ← wait_for_client fuel sfd pktins cnt;
      setg (set_client_fd cfd);;
      ex ← exiting;
      if ex || (cfd <? 0) then setg (set_exit 1);; mret (-1)
      else setg (set_con_status 1);; k)
    (λ rc s', exit_threads (glob s') = 1 ∧ (rc = 0 ∨ rc = -1)) s.
Proof.
  intros He Hk. apply wp_bind, wp_getg, wp_bind.
  eapply wp_mono; [|apply wp_metered; [frame|by apply wait_ok]].
  intros cfd s1 Hm1. apply wp_bind, wp_setg, wp_bind. eapply wp_mono; [|apply exiting_ok'].
  intros ex s2 [_ Hm2]. destruct (ex || _).
  - apply wp_bind, wp_setg, wp_ret. auto.
  - apply wp_bind, wp_setg, Hk. eapply enough_metered; [|exact Hm2].
    by eapply (enough_metered fuel s s1).
Qed.

Lemma run_server_ok s :
  enough fuel s →
  wp (run_server fuel pktins cnt) (λ rc s', exit_threads (glob s') = 1 ∧ (rc = 0 ∨ rc = -1)) s.
Proof.
  intros He. apply server_start_ok; [done|]. clear s He. intros s He.
  apply wp_bind, wp_exit_loop; [done|].
  intros [] s1 He1. unfold server_step. apply wp_bind. eapply wp_mono; [|apply exiting_ok'].
  intros ex s2 [Hb _]. destruct ex; [by apply wp_ret, wp_bind, wp_setg, wp_ret; auto|].
  apply wp_bind. eapply wp_mono; [|apply wp_metered; [frame|apply server_recv_ok]].
  intros r s3 [Hb3 _]. destruct r; apply wp_ret; [lia|]. by apply wp_bind, wp_setg, wp_ret; auto.
Qed.

Lemma run_server_single_ok s :
  enough fuel s →
  wp (run_server_single fuel pktins cnt) (λ rc s', exit_threads (glob s') = 1 ∧ (rc = 0 ∨ rc = -1)) s.
Proof.
  intros He. apply server_start_ok; [done|]. clear s He. intros s He.
  apply wp_bind, wp_exit_loop; [done|].
  intros tc s1 He1. unfold server_single_step. apply wp_bind. eapply wp_mono; [|apply exiting_ok'].
  intros ex s2 [Hb Hm2]. destruct ex; [by apply wp_ret, wp_bind, wp_setg, wp_ret; auto|].
  apply wp_bind. eapply wp_mono; [|apply timeouts_ok; by eapply enough_metered].
  intros ? s3 [Hb3 _]. apply wp_bind. eapply wp_mono; [|apply rx_ok].
  intros v s4 [_ [Hb4 _]]. destruct (v <? 0).
  { apply wp_bind, wp_setg, wp_ret, wp_ret. auto. }
  apply wp_bind. eapply wp_mono; [|apply wp_metered; [frame|apply server_recv_ok]].
  intros r s5 [Hb5 _]. destruct r as [[]|].
  - apply wp_bind. eapply wp_mono; [|by apply idle_call_ok]. intros ? s6 [Hb6 _].
    apply wp_ret. lia.
  - apply wp_ret. lia.
  - by apply wp_ret, wp_bind, wp_setg, wp_ret; auto.
Qed.

Lemma pktio_recv_ok s :
  enough fuel s →
  wp (pktio_recv fuel pktins cnt) (λ rc s', exit_threads (glob s') = 1 ∧ rc = 0) s.
Proof.
  intros He. apply wp_bind, wp_exit_loop; [done|].
  intros tc s1 He1. unfold pktio_step. apply wp_bind. eapply wp_mono; [|apply exiting_ok'].
  intros ex s2 [Hb Hm2]. destruct ex; [by apply wp_ret, wp_bind, wp_setg, wp_ret; auto|].
  apply wp_bind. eapply wp_mono; [|apply timeouts_ok; by eapply enough_metered].
  intros ? s3 [Hb3 _]. apply wp_bind. eapply wp_mono; [|apply rx_ok].
  intros v s4 [_ [Hb4 _]]. destruct (v <? 0).
  { by apply wp_ret, wp_bind, wp_setg, wp_ret; auto. }
  destruct (_ <=? v); [apply wp_ret; lia|].
  apply wp_bind. eapply wp_mono; [|by apply idle_call_ok]. intros ? s6 [Hb6 _].
  apply wp_ret. lia.
Qed.

Lemma run_client_ok buf s :
  enough fuel s →
  wp (run_client fuel buf) (λ rc s', exit_threads (glob s') ≠ 0 ∧ (rc = 0 ∨ rc = -1)) s.
Proof.
  intros He. apply wp_bind.
  eapply wp_mono; [|apply wp_metered; [unfold client_connect; frame|]].
  2: { by apply wp_bind, wp_getg, wp_bind, wp_getg, wp_bind, wp_getg, wp_callv. }
  intros ret s1 Hm1. destruct (ret =? -1); [by apply wp_bind, wp_setg, wp_ret; auto|].
  apply wp_bind, wp_setg, wp_bind, wp_exit_loop; [by eapply (enough_metered fuel s s1)|].
  intros [] s2 He2. unfold client_step. apply wp_bind. eapply wp_mono; [|apply exiting_ok'].
  intros ex s3 [Hb _]. destruct ex; [by apply wp_ret, wp_ret; auto|].
  apply wp_bind, wp_getg, wp_bind, wp_callv. intros r w E.
  pose proof (budget_le _ _ _ _ E). destruct (_ <? 0).
  { by apply wp_bind, wp_setg, wp_ret, wp_ret; auto. }
  apply wp_bind, wp_setg, wp_bind. eapply wp_mono; [|by apply idle_call_ok].
  intros ? s4 [Hb4 _]. apply wp_ret. simpl in Hb4. lia.
Qed.

(** The wait for the connection takes at most ten turns. *)
Lemma connect_ok s :
  enough fuel s →
  wp (loop fuel (connect_step pktins cnt) (0, NFP_FD_ZERO)) (λ ok s',
    (ok = false → exit_threads (glob s') = 1) ∧ metered s s') s.
Proof.
  intros He. apply wp_framed; [frame|].
  eapply wp_loop with (I := λ st _, 0 ≤ st.1 ≤ 10) (μ := λ st _, Z.to_nat (10 - st.1)).
  - intros [retry set] s1 Hr. unfold connect_step. simpl in Hr.
    destruct (Z.ltb_spec 10 (retry + 1)); [by apply wp_bind, wp_setg, wp_ret|].
    apply wp_bind, wp_call_. intros r1 w1 _. apply wp_bind.
    eapply wp_mono; [|apply rx_ok]. intros v s2 _. apply wp_bind, wp_call_. intros r2 w2 _.
    apply wp_bind, wp_getg, wp_bind, wp_call. intros r3 w3 _. destruct (_ <=? 0); [|by apply wp_ret].
    apply wp_bind. eapply wp_mono; [|apply exiting_ok']. intros ex s3 _.
    destruct ex; apply wp_ret; [done|]. simpl. lia.
  - simpl. lia.
  - simpl. unfold enough in He. lia.
Qed.

Lemma client_single_loop_ok buf s :
  enough fuel s →
  wp (loop fuel (client_single_step fuel pktins cnt buf) 0) (λ _ s',
    exit_threads (glob s') ≠ 0 ∨ reception_failed (trace s')) s.
Proof.
  intros He. apply wp_exit_loop; [done|].
  intros tc s1 He1. unfold client_single_step. apply wp_bind. eapply wp_mono; [|apply exiting_ok'].
  intros ex s2 [Hb Hm2]. destruct ex; [by apply wp_ret; left|].
  apply wp_bind. eapply wp_mono; [|apply timeouts_ok; by eapply enough_metered].
  intros ? s3 [Hb3 _]. apply wp_bind. eapply wp_mono; [|apply rx_ok].
  intros v s4 [Hf [Hb4 _]]. destruct (Z.ltb_spec v 0); [apply wp_ret; right; auto|].
  destruct (_ <=? v); [apply wp_ret; lia|].
  apply wp_bind, wp_getg, wp_bind, wp_callv. intros r w E. pose proof (budget_le _ _ _ _ E).
  apply wp_bind, wp_gets. destruct (_ && _); [by apply wp_bind, wp_setg, wp_ret; left|].
  apply wp_bind. eapply wp_mono with
    (Q := λ _ s', (budget (world s') ≤ budget (world s4))%nat).
  - intros ? s5 Hb5. apply wp_bind. eapply wp_mono; [|by apply idle_call_ok].
    intros ? s6 [Hb6 _]. apply wp_ret. lia.
  - destruct (negb _); [by apply wp_setg|by apply wp_ret].
Qed.

Lemma run_client_single_ok buf s :
  enough fuel s →
  wp (run_client_single fuel pktins cnt buf) (λ rc s', (rc = 0 ∨ rc = -1) ∧
    (exit_threads (glob s') ≠ 0 ∨ reception_failed (trace s'))) s.
Proof.
  intros He. apply wp_bind, wp_getg, wp_bind.
  eapply wp_mono; [|by apply idle_callv_ok]. intros v s1 Hm1.
  destruct (v <? 0); [by apply wp_bind, wp_setg, wp_ret; auto|]. apply wp_bind.
  eapply wp_mono; [|apply wp_metered; [unfold client_connect; frame|]].
  2: { by apply wp_bind, wp_getg, wp_bind, wp_getg, wp_bind, wp_getg, wp_callv. }
  intros ret s2 Hm2.
  assert (He2 : enough fuel s2) by (eapply enough_metered, Hm2; by eapply enough_metered, Hm1).
  apply wp_bind, wp_gets. destruct (_ && _); [by apply wp_bind, wp_setg, wp_ret; auto|].
  apply wp_bind. eapply wp_mono; [|by apply connect_ok].
  intros [] s3 [Hok Hm3]; simpl; [|apply wp_ret; rewrite Hok; auto].
  apply wp_bind, wp_getg, wp_bind. eapply wp_mono; [|by apply idle_callv_ok].
  intros v' s4 Hm4. destruct (v' <? 0); [by apply wp_bind, wp_setg, wp_ret; auto|].
  apply wp_bind, wp_setg, wp_bind. eapply wp_mono; [|apply client_single_loop_ok].
  - intros ? s5 Hs5. apply wp_ret. auto.
  - enough (He4 : enough fuel s4) by done. eapply enough_metered, Hm4.
    by eapply enough_metered, Hm3.
Qed.
End Threads.

End TcpPerfThreads.
