(* ===== verification/TcpPerfMainProofs.v ===== *)
(** * The TCP throughput tool: sockets, statistics, interfaces *)

From S2P Require Import Prelude Errno App AppProofs CliArgParse TcpPerf TcpPerfProofs TcpPerfThreads TcpPerfMain.
Import App AppProofs TcpPerf TcpPerfProofs TcpPerfThreads TcpPerfMain.

Module TcpPerfMainProofs.

Section Sockets.
Context {W F : Type} `{!App W F, !SocketLaws W F}.
Context (o0 : gset Z) (fuel : nat).
Local Abbreviation st := (app W F args_t).
Implicit Types (s : st).
Hint Resolve any_lenient : core.

(** The outcomes of [setup_server]: nothing is held, or the new server socket. *)
Definition server_set_up (rc : Z) s s' : Prop :=
  (rc = -1 ∧ fine any o0 o0 fuel s' ∧ glob s' = glob s) ∨
  (rc = 0 ∧ ∃ fd, (fd ∉ o0) ∧ fine any o0 ({[fd]} ∪ o0) fuel s' ∧
     glob s' = set_server_fd fd (glob s) ∧
     ∃ t r, trace s' = t ++ [(A_listen fd SOCKET_BACKLOG, r)] ∧ r_val r = 0).

Lemma fail_close s s0 x :
  fine any o0 ({[x]} ∪ o0) fuel s → (x ∉ o0) → glob s = glob s0 →
  wp (call_ (A_close x);; mret (-1)) (λ rc s', server_set_up rc s0 s') s.
Proof.
  intros Hf Hx Hg. apply wp_bind. eapply wp_mono; [|by apply close_last].
  intros ? s1 (Hf1 & Hg1 & _). apply wp_ret. left. by rewrite Hg1.
Qed.

Lemma server_bind_ok s s0 x a :
  fine any o0 ({[x]} ∪ o0) fuel s → (x ∉ o0) → glob s = glob s0 →
  wp (b ← callv (A_bind x a);
      if b <? 0 then call_ (A_close x);; mret (-1)
      else
        r ← callv (A_listen x SOCKET_BACKLOG);
        if negb (r =? 0) then call_ (A_close x);; mret (-1)
        else setg (set_server_fd x);; mret 0)
    (λ rc s', server_set_up rc s0 s') s.
Proof.
  intros Hf Hx Hg. assert (Hin : x ∈ {[x]} ∪ o0) by set_solver.
  apply wp_bind, wp_callv. intros r w E.
  assert (Hf1 := plain_call _ _ _ _ _ _ _ Hf E eq_refl ltac:(by intros ? [= <-])).
  destruct (_ <? 0); [by apply fail_close|].
  apply wp_bind, wp_callv. intros r2 w2 E2.
  assert (Hf2 := plain_call _ _ _ _ _ _ _ Hf1 E2 eq_refl ltac:(by intros ? [= <-])).
  destruct (Z.eqb_spec (r_val r2) 0); simpl; [|by apply fail_close].
  apply wp_bind, wp_setg, wp_ret. right. split; [done|]. exists x. split_and!; [done..| |].
  - simpl. by rewrite Hg.
  - by eexists _, r2.
Qed.

Lemma setup_server_ok s laddr lport :
  fine any o0 o0 fuel s →
  wp (setup_server laddr lport) (λ rc s', server_set_up rc s s') s.
Proof.
  intros Hf. apply wp_bind, wp_callv. intros r w E.
  pose proof (socket_call _ _ _ _ _ _ _ _ Hf E) as Hopen.
  destruct (Z.ltb_spec (r_val r) 0); [by apply wp_ret; left|]. destruct Hopen as [Hx Hf1].
  destruct laddr as [l|].
  - apply wp_bind, wp_bind, wp_call. intros r2 w2 E2.
    assert (Hf2 := plain_call _ _ _ _ _ _ _ Hf1 E2 eq_refl ltac:(done)).
    destruct (r_val r2 =? 0).
    + apply wp_bind. eapply wp_mono; [|by apply close_last].
      intros ? s3 (Hf3 & Hg3 & _). apply wp_ret, wp_ret. left. by rewrite Hg3.
    + apply wp_ret. by apply server_bind_ok.
  - apply wp_bind, wp_ret. by apply server_bind_ok.
Qed.

(** The outcomes of [setup_client]; the third keeps a socket nobody closes. *)
Definition client_set_up (rc : Z) s s' : Prop :=
  (rc = -1 ∧ fine any o0 o0 fuel s' ∧ glob s' = glob s) ∨
  (∃ fd r, (fd ∉ o0) ∧ fine any o0 ({[fd]} ∪ o0) fuel s' ∧
     ((rc = 0 ∧ glob s' = set_s_addr (r_out r) (set_client_fd fd (glob s))) ∨
      (rc = -1 ∧ glob s' = glob s ∧
         ∃ a, (A_inet_aton a, r) ∈ trace s' ∧ r_val r = 0))).

Lemma setup_client_ok s daddr lport :
  fine any o0 o0 fuel s →
  wp (setup_client daddr lport) (λ rc s', client_set_up rc s s') s.
Proof.
  intros Hf. apply wp_bind, wp_callv. intros r w E.
  pose proof (socket_call _ _ _ _ _ _ _ _ Hf E) as Hopen.
  destruct (Z.ltb_spec (r_val r) 0); [by apply wp_ret; left|]. destruct Hopen as [Hx Hf1].
  apply wp_bind, wp_call. intros r2 w2 E2.
  assert (Hf2 := plain_call _ _ _ _ _ _ _ Hf1 E2 eq_refl ltac:(done)).
  destruct (Z.eqb_spec (r_val r2) 0).
  - apply wp_ret. right. exists (r_val r), r2. split_and!; [done..|]. right.
    split_and!; [done..|]. exists daddr. split; [simpl; set_solver|done].
  - apply wp_bind, wp_setg, wp_bind, wp_setg, wp_ret. right. exists (r_val r), r2.
    split_and!; [done..|]. by left.
Qed.
End Sockets.

(** ** Statistics *)

Section Stats.
Context {W F : Type} `{!App W F, !SocketLaws W F}.
Local Abbreviation st := (app W F args_t).
Implicit Types (s : st).

(** The reports made. *)
Definition reports (t : list (event F)) : list (list Z) :=
  omap (λ e : event F, match e.1 with A_report vals => Some vals | _ => None end) t.

Lemma reports_app t t' : reports (t ++ t') = reports t ++ reports t'.
Proof. apply omap_app. Qed.

(** The maxima after reports of rates (bits per second, its maximum, calls per
    second, its maximum), when every reported maximum is the largest rate so
    far. *)
Fixpoint track (mx : Z * Z) (rs : list (list Z)) : option (Z * Z) :=
  match rs with
  | [] => Some mx
  | [bps; max_bps; cps; max_cps] :: rs' =>
      if (max_bps =? Z.max mx.1 bps) && (max_cps =? Z.max mx.2 cps)
      then track (max_bps, max_cps) rs' else None
  | _ :: rs' => track mx rs'
  end.

Lemma track_app mx a b : track mx (a ++ b) = track mx a ≫= λ mx', track mx' b.
Proof.
  revert mx. induction a as [|r a IH]; intros mx; [done|].
  destruct r as [|x1 [|x2 [|x3 [|x4 [|x5 r]]]]]; simpl; try apply IH.
  destruct (_ && _); [apply IH|done].
Qed.

(** Steps that report nothing. *)
Definition silent s s' : Prop :=
  (budget (world s') ≤ budget (world s))%nat ∧
  mode (appl (glob s')) = mode (appl (glob s)) ∧
  ∃ t, trace s' = trace s ++ t ∧ reports t = [].

#[global] Instance silent_preorder : PreOrder silent.
Proof.
  split.
  - intros s. split_and!; [done..|]. exists []. by rewrite app_nil_r.
  - intros s1 s2 s3 (Hb & Hg & t & Ht & Hr) (Hb' & Hg' & t' & Ht' & Hr').
    split_and!; [lia|congruence|]. exists (t ++ t').
    by rewrite Ht', Ht, app_assoc, reports_app, Hr, Hr'.
Qed.

Lemma silent_callv c :
  match c with A_report _ => False | _ => True end → keeps silent (callv c).
Proof.
  intros Hc s a s' H. apply bind_inv_Ret in H as (r & s1 & H & [= <- <-]).
  unfold call in H. destruct (api c (world s)) as [r' w] eqn:E. injection H as <- <-.
  split_and!; [by eapply budget_le|done|]. exists [(c, r')]. split; [done|].
  by destruct c.
Qed.

Lemma silent_call_ c :
  match c with A_report _ => False | _ => True end → keeps silent (call_ c).
Proof.
  intros Hc s a s' H. apply bind_inv_Ret in H as (r & s1 & H & [= <- <-]).
  unfold call in H. destruct (api c (world s)) as [r' w] eqn:E. injection H as <- <-.
  split_and!; [by eapply budget_le|done|]. exists [(c, r')]. split; [done|].
  by destruct c.
Qed.

Lemma silent_setg f :
  (∀ g, mode (appl (f g)) = mode (appl g)) → keeps silent (setg f : M st unit).
Proof.
  intros Hf s a s' [= <- <-]. split_and!; [done|apply Hf|]. exists []. by rewrite app_nil_r.
Qed.

Lemma silent_getg {A} (f : args_t → A) : keeps silent (getg f : M st A).
Proof. apply keeps_gets, _. Qed.

Hint Resolve silent_getg : keeps.
Hint Extern 1 (keeps _ (callv _)) => apply silent_callv; exact I : keeps.
Hint Extern 1 (keeps _ (call_ _)) => apply silent_call_; exact I : keeps.
Hint Extern 1 (keeps _ (setg _)) => apply silent_setg; done : keeps.

Lemma silent_exiting : keeps silent (exiting : M st bool).
Proof. unfold exiting, sig_handler. frame. Qed.

Lemma silent_load f : keeps silent (load f : M st Z).
Proof. unfold load. frame. Qed.

Hint Resolve silent_exiting silent_load : keeps.

(** A silent step, then the rest. *)
Lemma wp_silent {A B} (m : M st A) (f : A → M st B) Q s :
  keeps silent m → wp m (λ _ _, True) s →
  (∀ a s', silent s s' → wp (f a) Q s') → wp (m ≫= f) Q s.
Proof.
  intros Hk Hw Hf. apply wp_bind. eapply wp_mono; [|by apply wp_keeps; [exact Hk|exact Hw]].
  intros a s' [_ ?]. by apply Hf.
Qed.

Lemma wp_any_callv c s : wp (callv c : M st Z) (λ _ _, True) s.
Proof. by apply wp_callv. Qed.

Lemma rates_ok s calls bits time_sec d :
  0 < time_sec → 0 ≤ maximum_cps d → 0 ≤ maximum_bps d →
  wp (rates calls bits time_sec d) (λ r s',
    s' = s ∧ let '(cps, bps, d') := r in
      d' = Direction calls bits (Z.max (maximum_cps d) cps) (Z.max (maximum_bps d) bps) ∧
      cps = u64 (calls - calls_prev d) / time_sec ∧
      bps = u64 (bits - bits_prev d) / time_sec ∧
      0 ≤ cps ≤ maximum_cps d' ∧ 0 ≤ bps ≤ maximum_bps d') s.
Proof.
  intros Ht Hc Hb. unfold rates, udiv. destruct (Z.eqb_spec time_sec 0); [lia|].
  apply wp_bind, wp_ret, wp_bind, wp_ret, wp_ret. split; [done|].
  assert (Hpos : ∀ x, 0 ≤ u64 x / time_sec).
  { intros x. apply Z.div_pos; [|done]. pose proof (wrap_range 64 x ltac:(lia)) as [? _]. done. }
  pose proof (Hpos (calls - calls_prev d)). pose proof (Hpos (bits - bits_prev d)).
  simpl. split_and!; [|done|done|lia|..];
    repeat match goal with |- context [?a <? ?b] => destruct (Z.ltb_spec a b) end;
    try lia. all: f_equal; lia.
Qed.

(** The direction whose rates are reported. *)
Definition shown (md : appl_mode_t) (rx tx : direction) : direction :=
  match md with MODE_SERVER => rx | MODE_CLIENT => tx end.

Definition maxima_nonneg (d : direction) : Prop := 0 ≤ maximum_cps d ∧ 0 ≤ maximum_bps d.

Definition all_nonneg (st : direction * direction * Z) : Prop :=
  maxima_nonneg st.1.1 ∧ maxima_nonneg st.1.2.

(** From [s] to [s'] the reports follow on from the maxima of [st] and lead to
    those of [st']. *)
Definition follows s (st : direction * direction * Z) s' (st' : direction * direction * Z) : Prop :=
  (budget (world s') ≤ budget (world s))%nat ∧
  mode (appl (glob s')) = mode (appl (glob s)) ∧ all_nonneg st' ∧
  let d := shown (mode (appl (glob s))) st.1.1 st.1.2 in
  let d' := shown (mode (appl (glob s))) st'.1.1 st'.1.2 in
  ∃ t, trace s' = trace s ++ t ∧
       track (maximum_bps d, maximum_cps d) (reports t) = Some (maximum_bps d', maximum_cps d').

Lemma follows_silent s st s' : all_nonneg st → silent s s' → follows s st s' st.
Proof.
  intros Hn (Hb & Hm & t & Ht & Hr). split_and!; [done..|]. exists t. by rewrite Hr.
Qed.

Lemma follows_trans s1 st1 s2 st2 s3 st3 :
  follows s1 st1 s2 st2 → follows s2 st2 s3 st3 → follows s1 st1 s3 st3.
Proof.
  intros (Hb & Hm & Hn & t & Ht & Hr) (Hb' & Hm' & Hn' & t' & Ht' & Hr').
  split_and!; [lia|congruence|apply Hn'..|]. exists (t ++ t').
  split; [by rewrite Ht', Ht, app_assoc|]. rewrite reports_app, track_app, Hr. simpl.
  by rewrite Hm in Hr'.
Qed.

Lemma follows_report s rx tx ts rx' tx' ts' r w bps cps md :
  mode (appl (glob s)) = md →
  maxima_nonneg rx' → maxima_nonneg tx' →
  let d := shown md rx tx in let d' := shown md rx' tx' in
  maximum_bps d' = Z.max (maximum_bps d) bps → maximum_cps d' = Z.max (maximum_cps d) cps →
  api (A_report [bps; maximum_bps d'; cps; maximum_cps d']) (world s) = (r, w) →
  follows s (rx, tx, ts) (after s (A_report [bps; maximum_bps d'; cps; maximum_cps d']) r w)
    (rx', tx', ts').
Proof.
  intros <- Hn Hn' d d' Hb Hc E. split_and!; [by eapply budget_le|done|by split|].
  eexists [_]. split; [done|]. cbn -[Z.max]. fold d d'. rewrite Hb, Hc, !Z.eqb_refl. done.
Qed.

Lemma stats_report_ok s st :
  all_nonneg st → wp (stats_report st) (λ st' s', follows s st s' st') s.
Proof.
  destruct st as [[rx tx] ts]. intros [Hrx Htx]. unfold stats_report.
  apply wp_silent; [frame|apply wp_any_callv|]. intros rxc s5 Hs5.
  apply wp_silent; [frame|apply wp_any_callv|]. intros rxb s6 Hs6.
  apply wp_silent; [frame|apply wp_any_callv|]. intros txc s7 Hs7.
  apply wp_silent; [frame|apply wp_any_callv|]. intros txb s8 Hs8.
  apply wp_silent; [frame|apply wp_any_callv|]. intros ts' s9 Hs9.
  assert (Hsil : follows s (rx, tx, ts) s9 (rx, tx, ts)).
  { apply follows_silent; [done|]. etrans; [exact Hs5|etrans; [exact Hs6|
      etrans; [exact Hs7|by etrans]]]. }
  destruct (Z.eqb_spec (u64 (ts' - ts) / ODP_TIME_SEC_IN_NS) 0); [by apply wp_ret|].
  assert (Hsec : 0 < u64 (ts' - ts) / ODP_TIME_SEC_IN_NS).
  { assert (0 ≤ u64 (ts' - ts) / ODP_TIME_SEC_IN_NS); [|lia].
    apply Z.div_pos; [|done]. by destruct (wrap_range 64 (ts' - ts)). }
  apply wp_bind. eapply wp_mono; [|by apply rates_ok; [|destruct Hrx..]].
  intros [[rcps rbps] rx'] ? (-> & Hrx' & _ & _ & Hrc & Hrb).
  apply wp_bind. eapply wp_mono; [|by apply rates_ok; [|destruct Htx..]].
  intros [[tcps tbps] tx'] ? (-> & Htx' & _ & _ & Htc & Htb).
  assert (maxima_nonneg rx' ∧ maxima_nonneg tx') as [Hrn Htn] by (repeat split; lia).
  apply wp_bind, wp_getg. destruct (mode (appl (glob s9))) eqn:Hm;
    apply wp_bind, wp_call_; intros r w E; apply wp_ret; (eapply follows_trans; [exact Hsil|]).
  - by apply (follows_report _ rx tx ts rx' tx' ts' r w rbps rcps MODE_SERVER);
      [..|rewrite Hrx'|rewrite Hrx'|].
  - by apply (follows_report _ rx tx ts rx' tx' ts' r w tbps tcps MODE_CLIENT);
      [..|rewrite Htx'|rewrite Htx'|].
Qed.

Lemma stats_step_ok s st :
  all_nonneg st →
  wp (stats_step st) (λ r s',
    follows s st s' (match r with inl st' => st' | inr _ => st end) ∧
    match r with inl _ => (budget (world s') < budget (world s))%nat | inr _ => True end) s.
Proof.
  intros Hn. unfold stats_step.
  apply wp_bind. eapply wp_mono; [|apply wp_keeps with (R := silent); [frame|apply exiting_ok]].
  intros ex s1 [Hb1 Hs1]. destruct ex; [apply wp_ret; split; [by apply follows_silent|done]|].
  apply wp_silent; [frame|by apply wp_call_|]. intros _ s2 Hs2.
  apply wp_silent; [frame|apply wp_any_callv|]. intros con s3 Hs3.
  assert (Hs13 : silent s1 s3) by (by etrans).
  assert (silent s s3) as Hs03 by (by etrans).
  destruct (con =? 0).
  { apply wp_ret. split; [by apply follows_silent|]. destruct Hs13. lia. }
  apply wp_silent; [frame|eapply wp_mono; [|apply exiting_ok]; done|]. intros ex s4 Hs4.
  assert (silent s s4) as Hs04 by (by etrans).
  destruct ex; [apply wp_ret; split; [by apply follows_silent|done]|].
  apply wp_bind. eapply wp_mono; [|by apply stats_report_ok]. intros st' s5 Hf. apply wp_ret.
  split; [eapply follows_trans; [by apply follows_silent|done]|].
  destruct Hf as [Hb5 _], Hs13 as [? _], Hs4 as [? _]. lia.
Qed.

Lemma stats_loop_ok fuel s st :
  enough fuel s → all_nonneg st →
  wp (loop fuel stats_step st) (λ _ s', ∃ st', follows s st s' st') s.
Proof.
  intros He Hn. eapply wp_loop with (I := λ st' s', follows s st s' st')
    (μ := λ _ s', budget (world s')).
  - intros st1 s1 Hf. eapply wp_mono; [|by apply stats_step_ok; destruct Hf as (_ & _ & ? & _)].
    intros [st2|[]] s2 [Hf2 Hlt].
    + split; [by eapply follows_trans|done].
    + exists st1. by eapply follows_trans.
  - by apply follows_silent.
  - unfold enough in He. lia.
Qed.

Lemma load_all_ok fs s : wp (load_all fs) (λ vs s', length vs = length fs ∧ silent s s') s.
Proof.
  revert s. induction fs as [|f fs IH]; intros s; simpl; [by apply wp_ret|].
  apply wp_silent; [frame|apply wp_any_callv|]. intros v s1 Hs1. apply wp_bind.
  eapply wp_mono; [|apply IH]. intros vs s2 [Hlen Hs2]. apply wp_ret.
  split; [simpl; congruence|by etrans].
Qed.

(** The totals do not count as rates. *)
Lemma follows_total s0 st s vals st' r w :
  follows s0 st s st' → length vals ≠ 4%nat →
  api (A_report vals) (world s) = (r, w) → follows s0 st (after s (A_report vals) r w) st'.
Proof.
  intros Hf Hlen E. eapply follows_trans; [exact Hf|]. destruct Hf as (_ & _ & Hn & _).
  split_and!; [by eapply budget_le|done|apply Hn..|]. eexists [_]. split; [done|].
  by destruct vals as [|x1 [|x2 [|x3 [|x4 [|x5 vals]]]]].
Qed.

Lemma print_global_stats_ok fuel s :
  enough fuel s →
  wp (print_global_stats fuel) (λ _ s', ∃ st',
    follows s (Direction 0 0 0 0, Direction 0 0 0 0, 0) s' st') s.
Proof.
  intros He. unfold print_global_stats.
  apply wp_silent; [frame|apply wp_any_callv|]. intros ts s1 Hs1.
  assert (Hn : all_nonneg (Direction 0 0 0 0, Direction 0 0 0 0, ts)) by (repeat split; simpl; lia).
  apply wp_bind. eapply wp_mono; [|apply stats_loop_ok; [|exact Hn]].
  2: { unfold enough in *. destruct Hs1. lia. }
  intros ? s2 [st2 Hf2].
  assert (Hf : follows s (Direction 0 0 0 0, Direction 0 0 0 0, 0) s2 st2).
  { eapply (follows_trans _ _ s1 (Direction 0 0 0 0, Direction 0 0 0 0, ts)); [|exact Hf2].
    by apply (follows_silent s (Direction 0 0 0 0, Direction 0 0 0 0, 0)) in Hs1. }
  assert (Hsil : ∀ s', silent s2 s' → follows s (Direction 0 0 0 0, Direction 0 0 0 0, 0) s' st2).
  { intros s' Hs'. eapply follows_trans; [exact Hf|]. apply follows_silent; [apply Hf|done]. }
  apply wp_bind, wp_getg. destruct (mode (appl (glob s2))).
  - apply wp_silent; [frame|apply wp_any_callv|]. intros n s3 Hs3.
    destruct (n =? 0); [apply wp_ret; eauto|].
    apply wp_silent; [frame|apply wp_any_callv|]. intros b s4 Hs4.
    apply wp_bind, wp_call_. intros r w E.
    assert (Hf5 : follows s (Direction 0 0 0 0, Direction 0 0 0 0, 0)
                    (after s4 (A_report [b; n]) r w) st2).
    { apply follows_total; [|done|done]. apply Hsil. by etrans. }
    apply wp_bind. eapply wp_mono; [|apply load_all_ok].
    intros vs s6 [Hlen Hs6]. apply wp_call_. intros r7 w7 E7. exists st2.
    apply follows_total; [|by rewrite Hlen|done].
    eapply follows_trans; [exact Hf5|]. apply follows_silent; [apply Hf|done].
  - apply wp_silent; [frame|apply wp_any_callv|]. intros n s3 Hs3.
    destruct (n =? 0); [apply wp_ret; eauto|].
    apply wp_silent; [frame|apply wp_any_callv|]. intros b s4 Hs4.
    apply wp_call_. intros r w E. exists st2. apply follows_total; [|done|done].
    apply Hsil. by etrans.
Qed.
End Stats.

End TcpPerfMainProofs.
