(* ===== verification/TcpPerfTheorems.v ===== *)
(** * The TCP throughput tool: theorems *)

From S2P Require Import Prelude Errno App AppProofs HttpdTheorems CliArgParse TcpPerf TcpPerfProofs TcpPerfThreads TcpPerfMain TcpPerfMainProofs.
Import App AppProofs HttpdTheorems TcpPerf TcpPerfProofs TcpPerfThreads TcpPerfMain TcpPerfMainProofs.

Module TcpPerfTheorems.

(** ** The counters stay balanced *)

(** The packets counted are those of the five size classes, in 64 bits. *)
Definition balanced (c : packet_counters_t) : Prop :=
  u64 (total c) = u64 (xs c + s c + m c + l c + xl c).

Lemma wrap_add w a b a' b' :
  wrap w a = wrap w a' → wrap w b = wrap w b' → wrap w (a + b) = wrap w (a' + b').
Proof.
  intros Ha Hb. rewrite (wrap_cong w a a' b) by done. rewrite !(Z.add_comm a').
  by apply wrap_cong.
Qed.

Lemma tally_balanced c lens c' :
  Forall (λ n, 0 ≤ n < 2 ^ 32) lens → tally c lens c' → balanced c → balanced c'.
Proof.
  intros Hl (H1 & H2 & H3 & H4 & H5 & H6) Hb. unfold balanced in *.
  rewrite H1, (wrap_cong _ _ _ _ Hb), (count_in_split lens Hl).
  pose proof (wrap_add _ _ _ _ _ (wrap_add _ _ _ _ _ (wrap_add _ _ _ _ _ (wrap_add _ _ _ _ _ H2 H3) H4) H5) H6) as E.
  rewrite E. f_equal. lia.
Qed.

Lemma sizes_range {F} (t : list (event F)) : Forall (λ n, 0 ≤ n < 2 ^ 32) (sizes t).
Proof.
  apply Forall_forall. intros n ([c r] & Hn & _)%list_elem_of_bind. unfold size_by in Hn. simpl in Hn.
  destruct c; try (by apply elem_of_nil in Hn). apply list_elem_of_singleton in Hn as ->.
  apply wrap_range. lia.
Qed.

Section Balance.
Context {W F : Type} `{!App W F}.
Local Abbreviation st := (app W F args_t).

Definition stays_balanced (s1 s2 : st) : Prop :=
  balanced (pkts (glob s1)) → balanced (pkts (glob s2)).

#[global] Instance stays_balanced_preorder : PreOrder stays_balanced.
Proof. split; [by intros s1 ?|]. intros s1 s2 s3 H1 H2 H. exact (H2 (H1 H)). Qed.

Lemma balanced_call c : keeps stays_balanced (call c : M st _).
Proof. intros s1 a s2 H. unfold call in H. destruct (api c (world s1)). injection H as <- <-. by intros ?. Qed.

Lemma balanced_setg f :
  (∀ g, pkts (f g) = pkts g) → keeps stays_balanced (setg f : M st unit).
Proof. intros Hf s1 a s2 [= <- <-]. unfold stays_balanced. simpl. by rewrite Hf. Qed.

Lemma balanced_update pkt : keeps stays_balanced (update_pkt_stats pkt : M st unit).
Proof.
  intros s1 a s2 H. destruct (update_stats_ok s1 pkt) as (a' & s2' & H' & _ & t & _ & Ht & _).
  rewrite H in H'. injection H' as <- <-. exact (tally_balanced _ _ _ (sizes_range t) Ht).
Qed.

Lemma balanced_callv c : keeps stays_balanced (callv c : M st Z).
Proof. apply keeps_bind; [apply _|apply balanced_call|intros; apply keeps_ret, _]. Qed.

Lemma balanced_call_ c : keeps stays_balanced (call_ c : M st unit).
Proof. apply keeps_bind; [apply _|apply balanced_call|intros; apply keeps_ret, _]. Qed.

Lemma balanced_getg {A} (f : args_t → A) : keeps stays_balanced (getg f : M st A).
Proof. apply keeps_gets, _. Qed.

Hint Resolve balanced_call balanced_callv balanced_call_ balanced_getg balanced_update : keeps.
Hint Extern 1 (keeps _ (setg _)) => apply balanced_setg; done : keeps.

Lemma balanced_rx_single pktins n : ∀ idx sum,
  keeps stays_balanced (rx_single_loop pktins idx n sum : M st Z).
Proof. induction n as [|n IH]; intros; simpl; unfold pkt_at; frame. Qed.

Lemma balanced_rx_multi pktins n : ∀ idx vec sum,
  keeps stays_balanced (rx_multi_loop pktins idx n vec sum : M st Z).
Proof. induction n as [|n IH]; intros; simpl; unfold rx_multi_packet, pkt_at; frame. Qed.

Lemma balanced_rx_func pktins cnt : keeps stays_balanced (rx_func pktins cnt : M st Z).
Proof.
  unfold rx_func, rx_single_api, rx_multi_api. frame; [apply balanced_rx_single|apply balanced_rx_multi].
Qed.
Hint Resolve balanced_rx_func : keeps.

(** ** Workers *)

(** The functions [main] starts as threads. *)
Inductive worker :=
| W_pktio_recv | W_run_server | W_run_server_single | W_run_client | W_run_client_single.

Definition run_worker (fuel : nat) (pktins : list Z) (cnt : Z) (buf : bytes) (w : worker) : M st Z :=
  match w with
  | W_pktio_recv => pktio_recv fuel pktins cnt
  | W_run_server => run_server fuel pktins cnt
  | W_run_server_single => run_server_single fuel pktins cnt
  | W_run_client => run_client fuel buf
  | W_run_client_single => run_client_single fuel pktins cnt buf
  end.

Lemma balanced_worker fuel pktins cnt buf w :
  keeps stays_balanced (run_worker fuel pktins cnt buf w).
Proof.
  destruct w; simpl;
    unfold pktio_recv, pktio_step, run_server, run_server_single, run_client, run_client_single,
      server_step, server_single_step, server_recv, client_step, client_single_step,
      client_connect, connect_step, wait_for_client, wait_step, handle_timeouts, timeouts_step,
      exiting, sig_handler; frame.
Qed.
End Balance.

Section Workers.
Context {W F : Type} `{!App W F, !SocketLaws W F, !PacketLaws W F}.
Local Abbreviation st := (app W F args_t).

Lemma metered_pktio_recv fuel pktins cnt : keeps metered (pktio_recv fuel pktins cnt : M st Z).
Proof.
  unfold pktio_recv, pktio_step.
  frame; first [apply keeps_exiting|apply keeps_handle_timeouts|apply keeps_rx_func
               |by apply keeps_call_|by apply keeps_setg].
Qed.

Lemma metered_worker fuel pktins cnt buf w : keeps metered (run_worker fuel pktins cnt buf w : M st Z).
Proof.
  destruct w; simpl; [apply metered_pktio_recv|apply keeps_run_server|apply keeps_run_server_single|
    apply keeps_run_client|apply keeps_run_client_single].
Qed.

Lemma worker_ends fuel pktins cnt buf w (s : st) :
  cnt ≤ Z.of_nat (length pktins) → enough fuel s →
  wp (run_worker fuel pktins cnt buf w) (λ rc s', (rc = 0 ∨ rc = -1) ∧
    (exit_threads (glob s') ≠ 0 ∨ (w = W_run_client_single ∧ reception_failed (trace s')))) s.
Proof.
  intros Hc He. destruct w; simpl.
  - eapply wp_mono; [|by apply pktio_recv_ok]. intros ? ? [-> ->]. auto.
  - eapply wp_mono; [|by apply run_server_ok]. intros ? ? [-> ?]. auto.
  - eapply wp_mono; [|by apply run_server_single_ok]. intros ? ? [-> ?]. auto.
  - eapply wp_mono; [|by apply run_client_ok]. intros ? ? [? ?]. auto.
  - eapply wp_mono; [|by apply run_client_single_ok]. intros ? ? [? [?|?]]; auto.
Qed.

(** ** Theorems *)

(** [C7] Receiving with either API handles every packet: the single-packet one
    hands each packet of the burst to the stack, in order; the vector one hands
    over, frees or (only when a later queue fails) abandons each packet, keeps
    the order when none is freed, and passes vectors of 1 to 32 packets.  Each
    packet received is counted once, in the class of its size, in 64 bits, and
    the result is the number of packets received unless a queue fails. *)
Theorem reception_accounts_packets (pktins : list Z) (cnt : Z) (s : st) :
  cnt ≤ Z.of_nat (length pktins) →
  (∃ v s' t, rx_single_api pktins cnt s = (Ret v, s') ∧ trace s' = trace s ++ t ∧
     input t = received t ∧ freed t = [] ∧
     glob s' = set_pkts (pkts (glob s')) (glob s) ∧
     tally (pkts (glob s)) (sizes t) (pkts (glob s')) ∧
     length (sizes t) = length (received t) ∧
     ((v < 0 ∧ reception_failed t) ∨ v = Z.of_nat (length (received t)))) ∧
  (∃ v s' t lost, rx_multi_api pktins cnt s = (Ret v, s') ∧ trace s' = trace s ++ t ∧
     received t ≡ₚ input t ++ freed t ++ lost ∧
     (freed t = [] → received t = input t ++ lost) ∧ vectors_ok t ∧
     glob s' = set_pkts (pkts (glob s')) (glob s) ∧
     tally (pkts (glob s)) (sizes t) (pkts (glob s')) ∧
     length (sizes t) = length (received t) ∧ Z.of_nat (length lost) < NFP_PKT_VECTOR_SIZE ∧
     ((v < 0 ∧ reception_failed t) ∨ (lost = [] ∧ v = Z.of_nat (length (received t))))).
Proof.
  intros Hc. split.
  - destruct (rx_single_loop_ok pktins (Z.to_nat cnt) 0 0 s) as
      (v & s' & Hrun & Hg & t & Ht & Hta & _ & Hi & Hf & Hl & Hv); [lia..|].
    exists v, s', t. by split_and!.
  - destruct (rx_multi_loop_ok pktins (Z.to_nat cnt) 0 [] 0 s) as
      (v & s' & Hrun & lost & Hlost & Hg & t & Ht & Hta & Hvec & [Hp Ho] & Hl & Hv); [lia..|done|].
    exists v, s', t, lost. by split_and!.
Qed.

(** [C6] Every worker thread ends when the outside stops answering "again"; it
    then has set the exit flag, except [run_client_single] after a failed
    reception; the traffic counters have grown by exactly the calls that
    moved data and their bytes, in 64 bits, and the packet counter is still
    the sum of the size classes. *)
Theorem workers_meter_traffic fuel pktins cnt buf w (s : st) :
  cnt ≤ Z.of_nat (length pktins) → enough fuel s → balanced (pkts (glob s)) →
  ∃ rc s' t, run_worker fuel pktins cnt buf w s = (Ret rc, s') ∧ (rc = 0 ∨ rc = -1) ∧
    trace s' = trace s ++ t ∧ metered_by (glob s) t (glob s') ∧ balanced (pkts (glob s')) ∧
    (exit_threads (glob s') ≠ 0 ∨ (w = W_run_client_single ∧ reception_failed (trace s'))).
Proof.
  intros Hc He Hb. destruct (worker_ends fuel pktins cnt buf w s Hc He) as (rc & s' & Hrun & Hrc & Hx).
  destruct (metered_worker _ _ _ _ _ _ _ _ Hrun) as (_ & t & Ht & Hm).
  exists rc, s', t. split_and!; try done. by apply (balanced_worker _ _ _ _ _ _ _ _ Hrun).
Qed.

(** The set-up of the sockets: [setup_server] either succeeds with one new
    listening socket, recorded in [server_fd], or fails holding nothing;
    [setup_client] also succeeds with one new socket, but on an address that
    does not parse it fails with the socket still open and recorded nowhere. *)
Theorem setup_socket_outcomes o0 fuel laddr daddr lport (s : st) :
  fine any o0 o0 fuel s →
  (∃ rc s', setup_server laddr lport s = (Ret rc, s') ∧ server_set_up o0 fuel rc s s') ∧
  (∃ rc s', setup_client daddr lport s = (Ret rc, s') ∧ client_set_up o0 fuel rc s s').
Proof. intros Hf. split; [by apply setup_server_ok|by apply setup_client_ok]. Qed.

(** [C38] [print_global_stats] ends with the program, never divides by zero, and
    reports with every rate the largest rate so far. *)
Theorem statistics_track_maxima fuel (s : st) :
  enough fuel s →
  ∃ s' t mx, print_global_stats fuel s = (Ret (), s') ∧ trace s' = trace s ++ t ∧
    track (0, 0) (reports t) = Some mx.
Proof.
  intros He. destruct (print_global_stats_ok fuel s He) as ([] & s' & Hrun & st' & _ & _ & _ & t & Ht & Hr).
  exists s', t. destruct (mode (appl (glob s))); (eexists; split_and!; [done|done|exact Hr]).
Qed.
End Workers.

(** ** A world with packets *)

#[global] Instance demo_packets : PacketLaws demo (gset Z).
Proof.
  constructor; intros * E; simpl in E; injection E as <- <-; simpl;
    rewrite ?length_fmap, ?length_seq; lia.
Qed.

Definition demo_args (single : bool) : args_t :=
  Args (CliArgParse.State ∅ 1 (λ _, true) 0 0 None)
    (ApplArgs MODE_SERVER None 0 None 5001 None 1 single) 3 (-1) 0 0 0 0
    (Counters 0 0 0 0 0 0) 0 0 single 0.
Definition demo_perf : app demo (gset Z) args_t := MkApp (Demo 4 3) 0 [] (demo_args true).

Lemma reception_accounts_packets_witness :
  ∃ v s' t, rx_single_api [1; 2] 2 demo_perf = (Ret v, s') ∧ trace s' = trace demo_perf ++ t ∧
    input t = received t.
Proof.
  destruct (reception_accounts_packets (W := demo) (F := gset Z) [1; 2] 2 demo_perf) as [H _];
    [simpl; lia|].
  destruct H as (v & s' & t & ? & ? & ? & _). by exists v, s', t.
Defined.

Lemma workers_meter_traffic_witness :
  ∃ rc s' t, run_worker 2060 [1; 2] 2 [] W_run_server_single demo_perf = (Ret rc, s') ∧
    (rc = 0 ∨ rc = -1) ∧
    trace s' = trace demo_perf ++ t ∧ metered_by (glob demo_perf) t (glob s') ∧ balanced (pkts (glob s')) ∧
    (exit_threads (glob s') ≠ 0 ∨
     (W_run_server_single = W_run_client_single ∧ reception_failed (trace s'))).
Proof.
  apply (workers_meter_traffic (W := demo) (F := gset Z) 2060 [1; 2] 2 [] W_run_server_single demo_perf).
  - simpl. lia.
  - unfold enough. simpl. lia.
  - done.
Defined.

Lemma setup_socket_outcomes_witness :
  (∃ rc s', setup_server None 5001 demo_perf = (Ret rc, s') ∧ server_set_up ∅ 2060 rc demo_perf s') ∧
  (∃ rc s', setup_client (text "10.0.0.1") 5001 demo_perf = (Ret rc, s') ∧
     client_set_up ∅ 2060 rc demo_perf s').
Proof.
  apply (setup_socket_outcomes (W := demo) (F := gset Z)).
  split_and!; [..|done|apply (bool_decide_unpack _); by vm_compute].
  - split_and!; [done|..]; apply (bool_decide_unpack _); by vm_compute.
  - unfold enough. simpl. lia.
Defined.

Lemma statistics_track_maxima_witness :
  ∃ s' t mx, print_global_stats 2060 demo_perf = (Ret (), s') ∧ trace s' = trace demo_perf ++ t ∧
    track (0, 0) (reports t) = Some mx.
Proof.
  apply (statistics_track_maxima (W := demo) (F := gset Z)). unfold enough. simpl. lia.
Defined.

End TcpPerfTheorems.
