(* ===== verification/TcpPerfOptions.v ===== *)
(** * The TCP throughput tool: command line

    [parse_args] on a heap: the memory stays the caller's plus the strings the
    arguments hold and the interface array. *)

From S2P Require Import Prelude CliArgParse CliArgParseProofs ArgHeap TcpPerf TcpPerfMain.
Import CliArgParse CliArgParseProofs ArgHeap.

Module TcpPerfOptions.

(** The strings the arguments hold. *)
Definition copies (a : TcpPerf.appl_args_t) : list positive :=
  option_list (TcpPerf.cli_file a) ++ option_list (TcpPerf.daddr a) ++
  option_list (TcpPerf.laddr a).

(** ** Options *)

(** Options with an argument. *)
Definition takes_arg (c : Z) : bool := bool_decide (c ∈ [99; 102; 105; 108; 112; 116]).

(** The argument, if there is to be one, can be read. *)
Definition opt_ok (b0 : memory) (fuel : nat) (o : Z * ptr) : Prop :=
  takes_arg o.1 = true → arg_ok b0 fuel o.2.

(** The option has not been given yet. *)
Definition unset (a : TcpPerf.appl_args_t) (h : state) (c : Z) : Prop :=
  (c = 99 → TcpPerf.daddr a = None) ∧ (c = 102 → TcpPerf.cli_file a = None) ∧
  (c = 108 → TcpPerf.laddr a = None) ∧ (c = 105 → if_count h = 0).

(** The arguments after an option, and what it leaves unset. *)
Definition option_result (b0 : memory) (c : Z) (a : TcpPerf.appl_args_t) (h : state)
    (r : TcpPerf.appl_args_t + TcpPerf.appl_args_t) (h' : state) : Prop :=
  match r with
  | inl a' => holds b0 (copies a') h' ∧ ∀ c', c' ≠ c → unset a h c' → unset a' h' c'
  | inr a' => holds b0 (copies a') h'
  end.

Lemma copy_arg_ok b0 fuel c arg a0 a h set :
  holds b0 (copies a0) h → arg_ok b0 fuel arg → copies a = copies a0 →
  (∀ p, copies (set (Some p)) ≡ₚ p :: copies a0) →
  (∀ p h' c', c' ≠ c → if_count h' = if_count h → unset a0 h c' → unset (set p) h' c') →
  wp (TcpPerfMain.copy_arg arg a set) (option_result b0 c a0 h) h.
Proof.
  intros Hh Hok Hc Hset Hun. apply wp_bind. eapply strlen_ok; [done..|]. intros n.
  destruct (n =? 0); [apply wp_ret; simpl; by rewrite Hc|].
  apply wp_assoc, wp_bind. eapply copy_string_ok; [done..|]. intros p h' Hh' Hn. apply wp_ret.
  split; [eapply holds_perm; [apply Hset|done]|]. intros c' Hne Hu. by apply Hun.
Qed.

Lemma parse_option_ok b0 fuel o a h :
  holds b0 (copies a) h → opt_ok b0 fuel o → unset a h o.1 →
  wp (TcpPerfMain.parse_option fuel o a) (option_result b0 o.1 a h) h.
Proof.
  intros Hh Hok (Hd & Hc & Hl & Hi). unfold TcpPerfMain.parse_option.
  destruct o as [c arg]. cbn [fst snd] in *.
  assert (Hsame : ∀ a', copies a' = copies a → (∀ c', unset a h c' → unset a' h c') →
    option_result b0 c a h (inl a') h).
  { intros a' Hcp Hu. split; [by rewrite Hcp|auto]. }
  destruct (Z.eqb_spec c 99) as [->|].
  { apply (copy_arg_ok b0 fuel 99 arg a); [done|by apply Hok|done|..].
    - intros p. unfold copies. simpl. rewrite Hd by done. simpl. solve_Permutation.
    - intros p h' c' Hne Hn (? & ? & ? & Hi'). split_and!; [done..|]. by rewrite Hn. }
  destruct (Z.eqb_spec c 102) as [->|].
  { apply (copy_arg_ok b0 fuel 102 arg a); [done|by apply Hok|done|..].
    - intros p. unfold copies. simpl. rewrite Hc by done. done.
    - intros p h' c' Hne Hn (? & ? & ? & Hi'). split_and!; [done..|]. by rewrite Hn. }
  destruct (Z.eqb_spec c 104) as [->|]; [by apply wp_ret|].
  destruct (Z.eqb_spec c 105) as [->|].
  { apply wp_bind. eapply wp_mono; [|apply (interfaces_ok b0 fuel arg); [exact Hh|by apply Hok|by apply Hi]].
    intros ret h' [[-> | ->] Hh']; apply wp_ret; [done|]. split; [done|].
    intros c' Hne (? & ? & ? & ?). by split_and!. }
  destruct (Z.eqb_spec c 108) as [->|].
  { apply (copy_arg_ok b0 fuel 108 arg a); [done|by apply Hok|done|..].
    - intros p. unfold copies. simpl. rewrite Hl by done. simpl. solve_Permutation.
    - intros p h' c' Hne Hn (? & ? & ? & Hi'). split_and!; [done..|]. by rewrite Hn. }
  destruct (Z.eqb_spec c 112) as [->|].
  { apply wp_bind. eapply (atoi_ok b0 fuel arg); [done|by apply Hok|]. intros t _. by apply wp_ret, Hsame. }
  destruct (Z.eqb_spec c 115) as [->|]; [by apply wp_ret, Hsame|].
  destruct (Z.eqb_spec c 116) as [->|].
  { apply wp_bind. eapply (atoi_ok b0 fuel arg); [done|by apply Hok|]. intros t _. by apply wp_ret, Hsame. }
  destruct (Z.eqb_spec c 103) as [->|]; by apply wp_ret, Hsame.
Qed.

Lemma parse_options_ok b0 fuel opts : ∀ a h,
  holds b0 (copies a) h → Forall (opt_ok b0 fuel) opts → NoDup opts.*1 →
  (∀ o, o ∈ opts → unset a h o.1) →
  wp (TcpPerfMain.parse_options fuel opts a) (λ r h',
    holds b0 (copies (match r with inl a' => a' | inr a' => a' end)) h') h.
Proof.
  induction opts as [|o opts IH]; intros a h Hh Hok Hnd Hun; simpl; [by apply wp_ret|].
  apply Forall_cons in Hok as [Ho Hok]. rewrite fmap_cons in Hnd. apply NoDup_cons in Hnd as [Hno Hnd].
  apply wp_bind. eapply wp_mono; [|apply parse_option_ok; [done..|apply Hun; set_solver]].
  intros [a'|a'] h' Hr; [|by apply wp_ret]. destruct Hr as [Hh' Hu]. apply IH; [done..|].
  intros o' Ho'. apply Hu; [|apply Hun; set_solver]. intros Heq. apply Hno. rewrite <- Heq.
  apply list_elem_of_fmap. eauto.
Qed.

(** What a command line that is accepted gives. *)
Definition accepted (a : TcpPerf.appl_args_t) (h : state) : Prop :=
  1 ≤ if_count h ≤ TcpPerf.NFP_FP_INTERFACE_MAX ∧
  (TcpPerf.mode a = TcpPerf.MODE_CLIENT → is_Some (TcpPerf.daddr a)).

Lemma parse_args_ok b0 fuel opts h :
  ready b0 h → Forall (opt_ok b0 fuel) opts → NoDup opts.*1 →
  wp (TcpPerfMain.parse_args fuel opts) (λ p h', holds b0 (copies p.2) h' ∧
    ((p.1 = TcpPerf.EXIT_SUCCESS ∧ accepted p.2 h') ∨ p.1 = TcpPerf.EXIT_FAILURE)) h.
Proof.
  intros Hr Hok Hnd. unfold TcpPerfMain.parse_args.
  apply wp_bind, wp_modify, wp_bind, wp_modify. set (h1 := set_if_array _ _).
  set (a0 := TcpPerf.ApplArgs _ _ _ _ _ _ _ _). pose proof (ready_holds _ _ Hr : holds b0 (copies a0) h1) as Hh.
  apply wp_bind. eapply wp_mono; [|apply (parse_options_ok b0 fuel opts a0 h1 Hh Hok Hnd)].
  2: { intros o _. by split_and!. }
  intros [a|a] h' Hh'; [|apply wp_ret; auto]. apply wp_bind, wp_gets.
  pose proof (holds_count _ _ _ Hh') as Hnn.
  destruct (Z.eqb_spec (if_count h') 0) as [|Hn]; simpl; [by apply wp_ret; auto|].
  destruct (bool_decide (TcpPerf.mode a = _) && _) eqn:Hm; [by apply wp_ret; auto|].
  destruct (Z.ltb_spec TcpPerf.NFP_FP_INTERFACE_MAX (if_count h')); apply wp_ret; [by auto|].
  split; [done|]. left. split; [done|]. split; [lia|]. intros Hmode.
  rewrite bool_decide_true in Hm by done. simpl in Hm. apply bool_decide_eq_false in Hm.
  by apply not_eq_None_Some.
Qed.

(** ** Cleanup *)

Lemma cleanup_copies_ok b0 a h :
  holds b0 (copies a) h →
  wp (nfpexpl_parse_interfaces_param_cleanup true;;
      free_list [TcpPerf.cli_file a; TcpPerf.daddr a; TcpPerf.laddr a]) (λ _ h', blocks h' = b0) h.
Proof. intros Hh. eapply cleanup_args_ok; [done|]. unfold copies. simpl. by rewrite app_nil_r. Qed.

(** The strings can be read. *)
Lemma copies_readable b0 a h :
  holds b0 (copies a) h →
  readable h (TcpPerf.cli_file a) ∧ readable h (TcpPerf.daddr a) ∧ readable h (TcpPerf.laddr a).
Proof.
  intros Hh. pose proof (λ p, holds_readable _ _ _ p Hh) as H. unfold copies in H.
  destruct (TcpPerf.cli_file a), (TcpPerf.daddr a), (TcpPerf.laddr a);
    split_and!; try exact I; apply H; simpl; set_solver.
Qed.

End TcpPerfOptions.
