(* ===== verification/TcpPerfStart.v ===== *)
(** * The TCP throughput tool: start and end

    [main] acquires ODP, the shared memory, the stack and the threads, and
    releases them at its three labels.  The record of its calls is read as a
    stack of resources; on every path it ends empty, with the memory of the
    command line given back. *)

From S2P Require Import Prelude Errno App AppProofs AppHeap Resources HttpdTheorems CliArgParse CliArgParseProofs ArgHeap TcpPerf TcpPerfThreads TcpPerfMain TcpPerfMainProofs TcpPerfOptions.
Import App AppProofs AppHeap Resources HttpdTheorems ArgHeap TcpPerf TcpPerfThreads TcpPerfMain TcpPerfMainProofs TcpPerfOptions.

Module TcpPerfStart.

Section Start.
Context {W F : Type} `{!App W F, !SocketLaws W F}.
Local Abbreviation st := (app W F args_t).
Implicit Types (s : st).

(** What the stretches of [main] between two resources leave alone. *)
Definition memory_of (a : args_t) : CliArgParse.state * appl_args_t := (heap a, appl a).
Local Abbreviation neutral := (Resources.neutral memory_of).

Lemma neutral_memory s s' :
  neutral s s' → heap (glob s') = heap (glob s) ∧ appl (glob s') = appl (glob s).
Proof. by intros (_ & [= ? ?] & _). Qed.

Lemma neutral_configure i pktins : keeps neutral (configure_interface i pktins : M st _).
Proof. unfold configure_interface, pktio_capability, store_queue. frame. Qed.
Hint Resolve neutral_configure : keeps.

Lemma neutral_configure_loop n : ∀ i pktins, keeps neutral (configure_loop i n pktins : M st _).
Proof. induction n as [|n IH]; intros; simpl; frame. Qed.
Hint Resolve neutral_configure_loop : keeps.

Lemma neutral_configure_interfaces pktins : keeps neutral (configure_interfaces pktins : M st _).
Proof. unfold configure_interfaces. frame. Qed.

Lemma neutral_setup_socket : keeps neutral (setup_socket : M st Z).
Proof. unfold setup_socket, setup_server, setup_client. frame. Qed.

Lemma neutral_load_all fs : keeps neutral (load_all fs : M st _).
Proof. induction fs as [|f fs IH]; simpl; unfold load; frame. Qed.
Hint Resolve neutral_load_all : keeps.

Lemma neutral_stats fuel : keeps neutral (print_global_stats fuel : M st unit).
Proof.
  unfold print_global_stats, stats_step, stats_report, rates, udiv, load, exiting, sig_handler. frame.
Qed.

(** ** Nothing gets stuck *)

Lemma neutral_readable s s' p : neutral s s' → readable (heap (glob s)) p → readable (heap (glob s')) p.
Proof. by intros [-> _]%neutral_memory. Qed.

Lemma capability_ok name s : wp (pktio_capability name : M st _) (λ _ _, True) s.
Proof. unfold pktio_capability. runs. Qed.

Lemma neutral_capability name : keeps neutral (pktio_capability name : M st _).
Proof. unfold pktio_capability. frame. Qed.

Lemma store_queue_ok pktins i queues s :
  (i < length pktins)%nat →
  wp (store_queue pktins i queues) (λ pktins' s', length pktins' = length pktins ∧ s' = s) s.
Proof.
  intros Hi. destruct queues as [|[q ?] ?]; [by apply wp_ret|]. simpl.
  rewrite decide_True by done. apply wp_ret. by rewrite length_insert.
Qed.

Lemma configure_interface_ok s es i pktins :
  listed (heap (glob s)) es → (i < length es)%nat → (i < length pktins)%nat →
  wp (configure_interface i pktins) (λ r _,
    match r with inl pktins' => length pktins' = length pktins | inr _ => True end) s.
Proof.
  intros Hl Hi Hp. destruct (lookup_lt_is_Some_2 es i Hi) as [e He].
  destruct (Forall_lookup_1 _ _ _ _ (proj2 (proj2 Hl)) He) as (Hname & Hrn & Hra).
  unfold configure_interface. apply wp_bind. apply (read_entry_wp s es i e); [done..|].
  eapply (wp_neutral memory_of); [frame|by apply arg_string_ok|]. intros o s1 Ho Hn1.
  destruct (Ho Hname) as [name ->]. apply wp_bind. eapply wp_of_option; [done|].
  eapply (wp_neutral memory_of); [apply neutral_capability|apply capability_ok|]. intros capa s2 _ Hn2.
  destruct (negb _); [by apply wp_ret|].
  eapply (wp_neutral memory_of); [frame|apply any_call|]. intros c s3 _ Hn3. destruct (_ <? 0); [by apply wp_ret|].
  eapply (wp_neutral memory_of); [frame|apply any_callv|]. intros io s4 _ Hn4. destruct (_ =? 0); [by apply wp_ret|].
  eapply (wp_neutral memory_of); [frame|apply any_call|]. intros q s5 _ Hn5. apply wp_bind.
  eapply wp_mono; [|by apply store_queue_ok]. intros pktins' s5' [Hlen ->].
  destruct (negb _); [by apply wp_ret|].
  eapply (wp_neutral memory_of); [frame|apply any_callv|]. intros ov s6 _ Hn6. destruct (negb _); [by apply wp_ret|].
  assert (Hn06 : neutral s s6).
  { etrans; [exact Hn1|]. etrans; [exact Hn2|]. etrans; [exact Hn3|].
    etrans; [exact Hn4|]. by etrans. }
  eapply (wp_neutral memory_of); [frame|by apply arg_string_ok; eapply neutral_readable|].
  intros ad s7 _ Hn7. destruct ad as [ad|]; [|by apply wp_ret].
  eapply (wp_neutral memory_of); [frame|apply any_call|]. intros p s8 _ Hn8. destruct (_ =? 0); [by apply wp_ret|].
  eapply (wp_neutral memory_of); [frame|apply any_callv|]. intros res s9 _ Hn9. by destruct (negb _); apply wp_ret.
Qed.

Lemma configure_loop_ok es n : ∀ i pktins s,
  listed (heap (glob s)) es → (i + n <= length es)%nat → (i + n <= length pktins)%nat →
  wp (configure_loop i n pktins) (λ _ _, True) s.
Proof.
  induction n as [|n IH]; intros i pktins s Hl He Hp; simpl; [by apply wp_ret|].
  eapply (wp_neutral memory_of); [frame|eapply configure_interface_ok; [done|lia|lia]|].
  intros [pktins'|] s' Hlen Hn; [|by apply wp_ret]. apply IH; [by rewrite (proj1 (neutral_memory _ _ Hn))|lia|lia].
Qed.

Lemma configure_interfaces_ok b0 s pktins :
  holds b0 (copies (appl (glob s))) (heap (glob s)) →
  CliArgParse.if_count (heap (glob s)) ≤ Z.of_nat (length pktins) →
  wp (configure_interfaces pktins) (λ _ _, True) s.
Proof.
  intros Hh Hn. apply wp_bind, wp_getg.
  destruct (Z.eqb_spec (CliArgParse.if_count (heap (glob s))) 0) as [|Hz]; [by apply wp_ret|].
  destruct (holds_listed _ _ _ Hh Hz) as [es Hes].
  apply wp_bind. eapply wp_mono; [|eapply configure_loop_ok; [exact Hes|..]].
  - intros [?|?] ? _; by apply wp_ret.
  - destruct Hes as [-> _]. lia.
  - lia.
Qed.

Lemma setup_socket_ok b0 s :
  holds b0 (copies (appl (glob s))) (heap (glob s)) → accepted (appl (glob s)) (heap (glob s)) →
  wp (setup_socket : M st Z) (λ _ _, True) s.
Proof.
  intros Hh [_ Hd]. destruct (copies_readable _ _ _ Hh) as (_ & Hrd & Hrl).
  apply wp_bind, wp_getg. destruct (mode (appl (glob s))).
  - eapply (wp_neutral memory_of); [frame|by apply arg_string_ok|]. intros o s' _ _. unfold setup_server. runs.
  - eapply (wp_neutral memory_of); [frame|by apply arg_string_ok|]. intros o s' Ho _. destruct (Ho (Hd eq_refl)) as [x ->].
    apply wp_bind. eapply wp_of_option; [done|]. unfold setup_client. runs.
Qed.

(** ** Threads *)

Lemma run_threads_ok fuel s rs :
  enough fuel s →
  wp (run_threads fuel) (λ _ s', memory_of (glob s') = memory_of (glob s) ∧
    moves s (R_nfp :: rs) s' (R_nfp :: rs)) s.
Proof.
  intros He. unfold run_threads. apply wp_bind, wp_getg. set (two := single_thread _ =? 0).
  set (start := match mode _ with MODE_SERVER => _ | MODE_CLIENT => _ end).
  set (num := if two then 2 else 1).
  (* both threads are started *)
  assert (Hstart : wp (when two (call_ (A_thread_create THREAD_pktio_recv 1));;
      call_ (A_thread_create start num)) (λ _ s', memory_of (glob s') = memory_of (glob s) ∧
        enough fuel s' ∧ started (Z.to_nat num) s rs s') s).
  { clearbody start. unfold num, enough in *. apply wp_bind. destruct two; simpl.
    - apply wp_call_. intros r w E%budget_le. apply wp_call_. intros r2 w2 E2%budget_le.
      split_and!; [done|simpl in *; lia|]. by apply started_create, started_create, started_0.
    - apply wp_ret, wp_call_. intros r w E%budget_le.
      split_and!; [done|simpl in *; lia|]. by apply started_create, started_0. }
  apply wp_assoc, wp_bind. eapply wp_mono; [|exact Hstart]. intros ? s1 (Hh1 & He1 & Hm1).
  apply (wp_neutral memory_of _ _ (λ _, True)); [apply neutral_stats|by eapply wp_mono; [|by apply print_global_stats_ok]|].
  intros _ s2 _ Hn2. apply wp_bind, wp_call_. intros r3 w3 E3. set (s3 := after s2 _ r3 w3).
  pose proof (started_join _ _ _ _ num r3 w3 (started_neutral _ _ _ _ _ _ Hm1 Hn2)) as Hm3.
  rewrite Nat.sub_diag in Hm3. apply started_none in Hm3.
  assert (Htail : keeps neutral (cfd ← load LOAD_client_fd;
    when (0 <=? cfd) (call_ (A_close cfd));;
    sfd ← getg server_fd; when (0 <=? sfd) (call_ (A_close sfd)) : M st unit)) by (unfold load; frame).
  eapply wp_mono; [|apply (wp_keeps neutral _ (λ _ _, True)); [exact Htail|]].
  - intros ? s4 [_ (_ & Hh4 & Hm4)]. destruct Hn2 as (_ & Hh2 & _). simpl in Hh4.
    split; [congruence|]. by eapply moves_trans.
  - unfold load, when. runs.
Qed.

(** ** The labels of [main] *)

Definition released (b0 : memory) s rs (rc rc' : Z) s' : Prop :=
  rc' = rc ∧ CliArgParse.blocks (heap (glob s')) = b0 ∧ moves s rs s' [].

Lemma cleanup_odp_ok b0 s rc :
  CliArgParse.blocks (heap (glob s)) = b0 →
  wp (cleanup_odp rc) (released b0 s [R_odp] rc) s.
Proof.
  intros Hb. unfold cleanup_odp. apply wp_bind, wp_call_. intros r w E.
  apply wp_bind, wp_call_. intros r2 w2 E2. apply wp_ret. split_and!; [done..|].
  eapply moves_trans; by apply moves_after.
Qed.

Lemma cleanup_shm_ok b0 s shm rc :
  holds b0 (copies (appl (glob s))) (heap (glob s)) →
  wp (cleanup_shm shm rc) (released b0 s [R_shm; R_odp] rc) s.
Proof.
  intros Hh. destruct (cleanup_copies_ok _ _ _ Hh) as ([] & h & Hrun & Hb).
  apply bind_inv_Ret in Hrun as ([] & h1 & H1 & Hrun). simpl in Hrun.
  apply bind_inv_Ret in Hrun as ([] & h2 & H2 & Hrun).
  apply bind_inv_Ret in Hrun as ([] & h3 & H3 & Hrun).
  apply bind_inv_Ret in Hrun as ([] & h4 & H4 & [= <-]).
  unfold cleanup_shm, free_arg.
  apply wp_bind, wp_on_heap. exists (), h1. split; [done|]. apply wp_bind, wp_getg. simpl.
  apply wp_bind, wp_on_heap. exists (), h2. split; [done|].
  apply wp_bind, wp_on_heap. exists (), h3. split; [done|].
  apply wp_bind, wp_on_heap. exists (), h4. split; [done|]. simpl.
  apply wp_bind, wp_call_. intros r w E. eapply wp_mono; [|by apply cleanup_odp_ok].
  intros rc' s' (-> & Hb' & Hm). split_and!; [done..|]. destruct Hm as (t & Ht & Hr).
  exists ((A_shm_free shm, r) :: t). split; [|done].
  rewrite Ht. simpl. by rewrite <- app_assoc.
Qed.

Lemma cleanup_nfp_ok b0 s shm rc :
  holds b0 (copies (appl (glob s))) (heap (glob s)) →
  wp (cleanup_nfp shm rc) (released b0 s [R_nfp; R_shm; R_odp] rc) s.
Proof.
  intros Hh. apply wp_bind, wp_call_. intros r w E. eapply wp_mono; [|by apply cleanup_shm_ok].
  intros rc' s' (-> & Hb' & Hm). split_and!; [done..|]. eapply moves_trans; [|exact Hm]. by apply moves_after.
Qed.

Lemma released_trans b0 s0 rs0 s rs rc rc' s' :
  moves s0 rs0 s rs → released b0 s rs rc rc' s' → released b0 s0 rs0 rc rc' s'.
Proof. intros Hm (-> & Hb & Hm'). split_and!; [done..|]. by eapply moves_trans. Qed.

(** What is known between two steps of [main]: the memory, and the resources
    acquired since [s0]. *)
Definition at_stage (b0 : memory) (fuel : nat) s0 rs s : Prop :=
  holds b0 (copies (appl (glob s))) (heap (glob s)) ∧ moves s0 [] s rs ∧ enough fuel s.

Lemma stage_neutral b0 fuel s0 rs s s' :
  at_stage b0 fuel s0 rs s → neutral s s' → at_stage b0 fuel s0 rs s'.
Proof.
  intros (Hh & Hm & He) Hn. pose proof (enough_neutral _ _ _ _ He Hn) as He'.
  destruct (neutral_memory _ _ Hn) as [Hh' Ha'].
  split_and!; [by rewrite Hh', Ha'|by eapply moves_trans, Hn|done].
Qed.

(** [main] returns [rc], with everything given back since [s0]. *)
Definition over (b0 : memory) s0 (rc : Z) s : Prop :=
  (rc = EXIT_SUCCESS ∨ rc = EXIT_FAILURE) ∧ CliArgParse.blocks (heap (glob s)) = b0 ∧ moves s0 [] s [].

Lemma released_over b0 s0 s rs rc rc' s' :
  moves s0 [] s rs → rc = EXIT_SUCCESS ∨ rc = EXIT_FAILURE → released b0 s rs rc rc' s' → over b0 s0 rc' s'.
Proof. intros Hm Hrc (-> & Hb & Hm'). split_and!; [done..|]. by eapply moves_trans. Qed.

(** The cleanup labels, after a failure. *)
Lemma fail_odp_ok b0 s0 s :
  moves s0 [] s [R_odp] → CliArgParse.blocks (heap (glob s)) = b0 → wp (cleanup_odp EXIT_FAILURE) (over b0 s0) s.
Proof. intros Hm Hb. eapply wp_mono; [|by apply (cleanup_odp_ok b0)]. intros rc s'. apply released_over; [done|by right]. Qed.

Lemma fail_shm_ok b0 fuel s0 s shm :
  at_stage b0 fuel s0 [R_shm; R_odp] s → wp (cleanup_shm shm EXIT_FAILURE) (over b0 s0) s.
Proof. intros (Hh & Hm & _). eapply wp_mono; [|by apply (cleanup_shm_ok b0)]. intros rc s'. apply released_over; [done|by right]. Qed.

Lemma fail_nfp_ok b0 fuel s0 s shm :
  at_stage b0 fuel s0 [R_nfp; R_shm; R_odp] s → wp (cleanup_nfp shm EXIT_FAILURE) (over b0 s0) s.
Proof. intros (Hh & Hm & _). eapply wp_mono; [|by apply (cleanup_nfp_ok b0)]. intros rc s'. apply released_over; [done|by right]. Qed.

(** From the start of the stack to the end. *)
Lemma main_stack_ok b0 fuel s0 s shm file :
  at_stage b0 fuel s0 [R_shm; R_odp] s → accepted (appl (glob s)) (heap (glob s)) →
  file = cli_file (appl (glob s)) →
  wp (r ← callv (A_initialize 0 []);
      if negb (r =? 0) then cleanup_shm shm EXIT_FAILURE
      else
        c ← configure_interfaces (replicate (Z.to_nat NFP_FP_INTERFACE_MAX) 0);
        if negb (c.1 =? 0) then cleanup_nfp shm EXIT_FAILURE
        else
          f ← arg_string file;
          call_ (A_cli_process_file f);;
          call_ (A_sleep 2);;
          r ← setup_socket;
          if negb (r =? 0) then cleanup_nfp shm EXIT_FAILURE
          else run_threads fuel;; cleanup_nfp shm EXIT_SUCCESS) (over b0 s0) s.
Proof.
  intros (Hh & Hm & He) Hacc ->. apply wp_bind, wp_callv. intros r w E.
  set (s1 := after s _ r w).
  destruct (Z.eqb_spec (r_val r) 0) as [Hr|Hr]; cbn [negb].
  2: { eapply (fail_shm_ok b0 fuel). split_and!; [done| |].
       - eapply moves_trans; [exact Hm|]. apply moves_after. unfold hold. cbn [fst snd].
         by rewrite (proj2 (Z.eqb_neq _ _) Hr).
       - unfold enough in *. pose proof (budget_le _ _ _ _ E). simpl. lia. }
  assert (Hst1 : at_stage b0 fuel s0 [R_nfp; R_shm; R_odp] s1).
  { split_and!; [done| |].
    - eapply moves_trans; [exact Hm|]. apply (moves_after s _ (A_initialize 0 []) r w).
      unfold hold. cbn [fst snd]. by rewrite (proj2 (Z.eqb_eq _ _) Hr).
    - unfold enough in *. pose proof (budget_le _ _ _ _ E). simpl. lia. }
  assert (Hacc1 : accepted (appl (glob s1)) (heap (glob s1))) by done.
  assert (Hcl1 : cli_file (appl (glob s)) = cli_file (appl (glob s1))) by done.
  rewrite Hcl1. clearbody s1. clear Hh Hm He Hacc Hcl1 E Hr s w r.
  apply (wp_neutral memory_of _ _ (λ _, True)); [apply neutral_configure_interfaces| |].
  { eapply configure_interfaces_ok; [apply Hst1|]. rewrite length_replicate.
    destruct Hacc1 as [[_ Hle] _]. unfold NFP_FP_INTERFACE_MAX in *. lia. }
  intros c s2 _ Hn2. pose proof (stage_neutral _ _ _ _ _ _ Hst1 Hn2) as Hst2.
  destruct (negb _); [by eapply fail_nfp_ok|].
  destruct (copies_readable _ _ _ (proj1 Hst1)) as (Hrf & _).
  eapply (wp_neutral memory_of); [frame|by apply arg_string_ok; eapply neutral_readable|].
  intros f s3 _ Hn3. eapply (wp_neutral memory_of); [frame|apply any_call_|]. intros [] s4 _ Hn4.
  eapply (wp_neutral memory_of); [frame|apply any_call_|]. intros [] s5 _ Hn5.
  assert (Hn15 : neutral s1 s5).
  { etrans; [exact Hn2|]. etrans; [exact Hn3|]. by etrans. }
  pose proof (stage_neutral _ _ _ _ _ _ Hst1 Hn15) as Hst5.
  assert (Hacc5 : accepted (appl (glob s5)) (heap (glob s5))).
  { by destruct (neutral_memory _ _ Hn15) as [-> ->]. }
  eapply (wp_neutral memory_of); [apply neutral_setup_socket|eapply setup_socket_ok; [apply Hst5|done]|].
  intros rs6 s6 _ Hn6. pose proof (stage_neutral _ _ _ _ _ _ Hst5 Hn6) as Hst6.
  destruct (negb _); [by eapply fail_nfp_ok|].
  destruct Hst6 as (Hh6 & Hm6 & He6). apply wp_bind.
  eapply wp_mono; [|by apply (run_threads_ok fuel s6 [R_shm; R_odp])].
  intros ? s7 ([= Hh7 Ha7] & Hm7). eapply wp_mono; [|apply (cleanup_nfp_ok b0); by rewrite Hh7, Ha7].
  intros rc s' (-> & ? & Hm'). split_and!; [by left|done|].
  eapply moves_trans; [exact Hm6|]. by eapply moves_trans.
Qed.

(** [C5] [main] ends on every path, with 0 or 1; whatever fails on the way, ODP,
    the shared memory, the stack and the threads it acquired have been
    released, each once and in reverse order, and the memory is as it was: the
    copies of the option arguments and the interface list are freed.  Each
    option is given at most once and memory does not run out. *)
Theorem main_releases_resources b0 fuel opts s :
  ready b0 (heap (glob s)) → Forall (opt_ok b0 fuel) opts → NoDup opts.*1 → enough fuel s →
  ∃ rc s' t, main fuel opts s = (Ret rc, s') ∧ (rc = EXIT_SUCCESS ∨ rc = EXIT_FAILURE) ∧
    CliArgParse.blocks (heap (glob s')) = b0 ∧ trace s' = trace s ++ t ∧ held [] t = Some [].
Proof.
  intros Hready Hok Hnd He.
  enough (wp (main fuel opts) (over b0 s) s) as (rc & s' & ? & ? & ? & t & ? & ?) by (by exists rc, s', t).
  destruct (Hready) as (Hb0 & _).
  unfold main. apply wp_bind, wp_callv. intros r w E. set (s1 := after s _ r w).
  assert (Hb1 : (budget w ≤ budget (world s))%nat) by (by eapply budget_le).
  destruct (Z.eqb_spec (r_val r) 0) as [Hr|Hr]; cbn [negb].
  2: { apply wp_ret. split_and!; [by right|done|]. apply moves_after. unfold hold. cbn [fst snd].
       by rewrite (proj2 (Z.eqb_neq _ _) Hr). }
  assert (Hm1 : moves s [] s1 [R_odp]) by (apply (moves_after s _ A_odp_init_global); unfold hold; cbn [fst snd]; by rewrite (proj2 (Z.eqb_eq _ _) Hr)).
  eapply (wp_neutral memory_of); [frame|apply any_callv|]. intros r2 s2 _ Hn2.
  assert (Hm2 : moves s [] s2 [R_odp]) by (eapply moves_trans; [exact Hm1|apply Hn2]).
  assert (Hh2 : heap (glob s2) = heap (glob s)) by apply (neutral_memory _ _ Hn2).
  destruct (negb _); [apply fail_odp_ok; [done|by rewrite Hh2]|].
  eapply (wp_neutral memory_of); [frame|apply any_callv|]. intros shm s3 _ Hn3.
  assert (Hm3 : moves s [] s3 [R_odp]) by (eapply moves_trans; [exact Hm2|apply Hn3]).
  assert (Hh3 : heap (glob s3) = heap (glob s)) by (by destruct (neutral_memory _ _ Hn3) as [-> _]).
  assert (Hb3 : (budget (world s3) ≤ budget (world s))%nat).
  { destruct Hn2 as [Hx _], Hn3 as [Hy _]. simpl in *. lia. }
  apply wp_bind, wp_callv. intros r4 w4 E4.
  destruct (Z.eqb_spec (r_val r4) 0) as [Hr4|Hr4].
  { apply fail_odp_ok; [|simpl; by rewrite Hh3]. eapply moves_trans; [exact Hm3|]. apply moves_after.
    unfold hold. cbn [fst snd]. by rewrite (proj2 (Z.eqb_eq _ _) Hr4). }
  apply wp_bind, wp_setg, wp_bind, wp_on_heap. simpl. rewrite Hh3.
  eapply wp_mono; [|by apply (parse_args_ok b0)]. intros [prc a] h [Hh Hres]. simpl in Hh, Hres.
  apply wp_bind, wp_setg. cbn [fst snd]. set (s5 := MkApp _ _ _ _).
  assert (Hst5 : at_stage b0 fuel s [R_shm; R_odp] s5).
  { split_and!; [done| |].
    - destruct Hm3 as (t & Ht & Hr'). exists (t ++ [(A_shm_addr shm, r4)]).
      split; [simpl; by rewrite Ht, app_assoc|]. rewrite held_app, Hr'. cbn -[Z.eqb].
      by rewrite (proj2 (Z.eqb_neq _ _) Hr4).
    - unfold enough in *. simpl. pose proof (budget_le _ _ _ _ E4). lia. }
  destruct Hres as [[-> Hacc]| ->]; [|by eapply fail_shm_ok]. cbn [negb].
  replace (EXIT_SUCCESS =? EXIT_SUCCESS) with true by done. cbn [negb].
  apply (wp_neutral memory_of _ _ (λ _, True)); [frame|by apply wp_setg|]. intros [] s6 _ Hn6.
  eapply (wp_neutral memory_of); [frame|apply any_callv|]. intros cpus s7 _ Hn7.
  assert (Hn57 : neutral s5 s7) by (by etrans).
  pose proof (stage_neutral _ _ _ _ _ _ Hst5 Hn57) as Hst7.
  destruct (_ <? _); [by eapply fail_shm_ok|].
  assert (Ha7 : appl (glob s7) = a ∧ heap (glob s7) = h).
  { by destruct (neutral_memory _ _ Hn57) as [-> ->]. }
  destruct Ha7 as [Ha7 Hh7]. apply main_stack_ok; [done|by rewrite Ha7, Hh7|by rewrite Ha7].
Qed.
End Start.

(** A command line: "-i eth0". *)
Definition demo_memory : CliArgParse.state := CliArgParseProofs.sample "eth0".
Definition demo_main : app demo (gset Z) args_t :=
  MkApp (Demo 3 3) 0 []
    (Args demo_memory (ApplArgs MODE_SERVER None 0 None 0 None 0 false) 0 0 0 0 0 0
       (Counters 0 0 0 0 0 0) 0 0 false 0).

Lemma main_releases_resources_witness :
  ∃ rc s' t, main 2060 [(105, (1%positive, 0%nat))] demo_main = (Ret rc, s') ∧
    (rc = EXIT_SUCCESS ∨ rc = EXIT_FAILURE) ∧
    CliArgParse.blocks (heap (glob s')) = CliArgParse.blocks demo_memory ∧
    trace s' = trace demo_main ++ t ∧ held [] t = Some [].
Proof.
  apply (main_releases_resources (W := demo) (F := gset Z)).
  - split_and!; [done|apply CliArgParseProofs.sample_good|done].
  - apply Forall_singleton. intros _.
    apply (ArgHeap.whole_arg _ _ _ (text "eth0")); [done|apply (bool_decide_unpack _); by vm_compute|by vm_compute|vm_compute; lia].
  - apply NoDup_singleton.
  - unfold enough. simpl. lia.
Defined.

End TcpPerfStart.
