(* ===== verification/FpmDirect.v ===== *)
(** * Packet forwarding with direct input (example/fpm_direct/app_main.c)

    Worker threads that poll one input queue of every interface each, the
    first one also serving the timers: the two dispatchers (single packets and
    vectors), the creation of interfaces and of the arguments of the workers,
    the choice of cores, the command line and [main].

    The dispatchers keep nothing in globals and are written for programs with
    any globals [G].  Printed information is left out. *)

From S2P Require Import Prelude App AppHeap CliArgParse TcpPerf.
Import App AppHeap.

Module FpmDirect.

(** ** Constants *)

Definition MAX_WORKERS : Z := 64.
Definition NFP_FP_INTERFACE_MAX : Z := 8.
Definition NFP_PKT_VECTOR_SIZE : Z := 32.
Definition PKT_BURST_SIZE : Z := NFP_PKT_VECTOR_SIZE.
Definition ODP_EVENT_INVALID : Z := TcpPerf.ODP_EVENT_INVALID.
Definition ODP_EVENT_PACKET : Z := TcpPerf.ODP_EVENT_PACKET.
Definition ODP_EVENT_TIMEOUT : Z := TcpPerf.ODP_EVENT_TIMEOUT.
Definition ODP_QUEUE_INVALID : Z := TcpPerf.ODP_QUEUE_INVALID.
Definition EXIT_SUCCESS : Z := 0.
Definition EXIT_FAILURE : Z := 1.
Definition SIGINT : Z := 2.
Definition SIGQUIT : Z := 3.
Definition SIGTERM : Z := 15.
(** The thread functions. *)
Definition THREAD_pkt_io_recv : Z := 20.
Definition THREAD_pkt_io_recv_single : Z := 21.

(** ** Data *)

Record worker_arg := WorkerArg { num_pktin : Z; pktin : list Z; process_timers : bool }.

(** [itf_param] is part of the heap model of CliArgParse. *)
Record appl_args_t := ApplArgs {
  core_count : Z;
  core_start : Z;
  cli_file : option positive;
  single_pkt_API : bool;
}.

(** The state of [main]: memory and [params]. *)
Record fpm_t := Fpm { heap : CliArgParse.state; params : appl_args_t }.

Definition set_params (x : appl_args_t) (g : fpm_t) : fpm_t := Fpm (heap g) x.

#[global] Program Instance fpm_heap : HasHeap fpm_t :=
  {| heap_of := heap; put_heap h g := Fpm h (params g) |}.
Next Obligation. done. Qed.
Next Obligation. by intros []. Qed.

(** ** Workers *)

Section Workers.
Context {W F G : Type} `{!App W F}.
Local Abbreviation MW := (M (app W F G)).

(** Handle [i] of a table that was filled. *)
Definition entry_at (r : areply F) (i : Z) : MW Z :=
  e ← of_option (r_list r !! Z.to_nat i); mret e.1.

(** [pktin[i] = arg->pktin[i]] for all queues. *)
Definition copy_pktin (arg : worker_arg) : MW (list Z) :=
  for_acc 0 (Z.to_nat (num_pktin arg)) (λ i acc,
    q ← of_option (pktin arg !! Z.to_nat i);
    if i <? NFP_FP_INTERFACE_MAX then mret (acc ++ [q]) else stuck) [].

(** One event of the scheduler. *)
Definition dispatch_event (in_queue ev : Z) : MW unit :=
  if ev =? ODP_EVENT_INVALID then mret ()
  else
    ty ← callv (A_event_type ev);
    if ty =? ODP_EVENT_TIMEOUT then call_ (A_timer_handle ev)
    else
      ty ← callv (A_event_type ev);
      if ty =? ODP_EVENT_PACKET then call_ (A_packet_input ev in_queue)
      else call_ (A_event_free ev).

(** [if (process_timers) ...] *)
Definition process_events : MW unit :=
  r ← call (A_schedule_multi PKT_BURST_SIZE);
  for_from 0 (Z.to_nat (r_val r)) (λ i,
    ev ← entry_at r i; dispatch_event (r_out r) ev).

(** The packets of a burst. *)
Definition input_packets (r : areply F) : MW unit :=
  for_from 0 (Z.to_nat (r_val r)) (λ i,
    pkt ← entry_at r i; call_ (A_packet_input pkt ODP_QUEUE_INVALID)).

(** The packets of one queue. *)
Definition input_single (queue : Z) : MW unit :=
  r ← call (A_pktin_recv queue PKT_BURST_SIZE);
  input_packets r.

Definition recv_single_step (num : Z) (queues : list Z) (timers : bool) (_ : unit)
    : MW (unit + unit) :=
  running ← callv A_is_running;
  if running =? 0 then mret (inr ())
  else
    when timers process_events;;
    for_from 0 (Z.to_nat num) (λ i, q ← of_option (queues !! Z.to_nat i); input_single q);;
    call_ A_send_pending_pkt;;
    mret (inl ()).

Definition pkt_io_recv_single (fuel : nat) (arg : worker_arg) : MW Z :=
  queues ← copy_pktin arg;
  state ← callv A_get_processing_state;
  if state =? 0 then mret (-1)
  else
    loop fuel (recv_single_step (num_pktin arg) queues (process_timers arg)) ();;
    mret 0.

(** One packet goes to the vector, which is handed over when full. *)
Definition add_packet (r : areply F) (i : Z) (vec : list Z) : MW (list Z) :=
  pkt ← entry_at r i;
  added ← callv (A_pkt_vector_add vec pkt);
  if negb (added =? 1) then call_ (A_packet_free pkt);; mret vec
  else
    let vec := vec ++ [pkt] in
    if TcpPerf.NFP_PKT_VECTOR_IS_FULL vec then
      call_ (A_packet_input_multi vec ODP_QUEUE_INVALID);; mret []
    else mret vec.

Definition add_packets (r : areply F) (vec : list Z) : MW (list Z) :=
  for_acc 0 (Z.to_nat (r_val r)) (add_packet r) vec.

Definition input_multi (queue : Z) (vec : list Z) : MW (list Z) :=
  r ← call (A_pktin_recv queue PKT_BURST_SIZE);
  add_packets r vec.

(** [if (NFP_PKT_VECTOR_HAS_DATA(&vec)) ...] *)
Definition flush_vector (vec : list Z) : MW (list Z) :=
  if TcpPerf.NFP_PKT_VECTOR_HAS_DATA vec then
    call_ (A_packet_input_multi vec ODP_QUEUE_INVALID);; mret []
  else mret vec.

Definition recv_step (num : Z) (queues : list Z) (timers : bool) (vec : list Z)
    : MW (list Z + unit) :=
  running ← callv A_is_running;
  if running =? 0 then mret (inr ())
  else
    when timers process_events;;
    vec ← for_acc 0 (Z.to_nat num) (λ i vec,
            q ← of_option (queues !! Z.to_nat i); input_multi q vec) vec;
    vec ← flush_vector vec;
    call_ A_send_pending_pkt;;
    mret (inl vec).

Definition pkt_io_recv (fuel : nat) (arg : worker_arg) : MW Z :=
  queues ← copy_pktin arg;
  state ← callv A_get_processing_state;
  if state =? 0 then mret (-1)
  else
    loop fuel (recv_step (num_pktin arg) queues (process_timers arg)) [];;
    mret 0.

(** ** Signals (common/linux_sigaction.c) *)

(** [sigfillset] cannot fail; the value is that of [sigaction]. *)
Definition linux_sigaction (signum : Z) : MW Z :=
  r ← callv (A_sigaction signum);
  if negb (r =? 0) then mret (-1) else mret 0.

Definition nfpexpl_sigaction_set : MW Z :=
  r ← linux_sigaction SIGINT;
  if negb (r =? 0) then mret (-1)
  else
    r ← linux_sigaction SIGQUIT;
    if negb (r =? 0) then mret (-1)
    else
      r ← linux_sigaction SIGTERM;
      if negb (r =? 0) then mret (-1) else mret 0.
End Workers.

(** ** The command line *)

Section Options.
Local Abbreviation MC := (M CliArgParse.state).

(** [cli_file] is not freed. *)
Definition parse_args_cleanup : MC unit :=
  CliArgParse.nfpexpl_parse_interfaces_param_cleanup true.

(** One option: the new arguments and [res]. *)
Definition parse_option (fuel : nat) (opt : Z * CliArgParse.ptr) (a : appl_args_t)
    : MC (Z * appl_args_t) :=
  let '(c, optarg) := opt in
  if c =? 99 (* c *) then
    n ← CliArgParse.atoi optarg;
    mret (0, ApplArgs n (core_start a) (cli_file a) (single_pkt_API a))
  else if c =? 115 (* s *) then
    n ← CliArgParse.atoi optarg;
    mret (0, ApplArgs (core_count a) n (cli_file a) (single_pkt_API a))
  else if c =? 105 (* i *) then
    res ← CliArgParse.nfpexpl_parse_interfaces fuel (Some optarg) true;
    mret (if res =? EXIT_FAILURE then -1 else res, a)
  else if c =? 104 (* h *) then parse_args_cleanup;; exit EXIT_SUCCESS
  else if c =? 102 (* f *) then
    len ← CliArgParse.strlen optarg;
    if len =? 0 then mret (-1, a)
    else
      t ← CliArgParse.read_string optarg;
      p ← CliArgParse.alloc (CliArgParse.BStr (t ++ [0]));
      mret (match p with Some _ => 0 | None => -1 end,
            ApplArgs (core_count a) (core_start a) p (single_pkt_API a))
  else if c =? 103 (* g *) then
    mret (0, ApplArgs (core_count a) (core_start a) (cli_file a) true)
  else mret (0, a).

(** [while (res == 0)] *)
Fixpoint parse_options (fuel : nat) (opts : list (Z * CliArgParse.ptr)) (a : appl_args_t)
    : MC (Z * appl_args_t) :=
  match opts with
  | [] => mret (0, a)
  | o :: opts' =>
      r ← parse_option fuel o a;
      if r.1 =? 0 then parse_options fuel opts' r.2 else mret r
  end.

(** [opts] is what [getopt_long] finds: option characters with [optarg]. *)
Definition parse_args (fuel : nat) (opts : list (Z * CliArgParse.ptr)) : MC (Z * appl_args_t) :=
  modify (CliArgParse.set_if_count 0);;
  modify (CliArgParse.set_if_array None);;
  r ← parse_options fuel opts (ApplArgs 0 1 None false);
  if r.1 =? -1 then parse_args_cleanup;; mret (EXIT_FAILURE, r.2)
  else
    n ← gets CliArgParse.if_count;
    if n =? 0 then parse_args_cleanup;; mret (EXIT_FAILURE, r.2)
    else if NFP_FP_INTERFACE_MAX <? n then parse_args_cleanup;; mret (EXIT_FAILURE, r.2)
    else mret (EXIT_SUCCESS, r.2).
End Options.

(** ** Interfaces and workers *)

Section Main.
Context {W F G : Type} `{!App W F, !HasHeap G}.
Local Abbreviation MG := (M (app W F G)).

Definition if_count : MG Z := getg (λ g, CliArgParse.if_count (heap_of g)).

(** [itf_param->if_array[i].if_name] *)
Definition interface_name (i : Z) : MG bytes :=
  itf ← on_heap (CliArgParse.read_entry (Z.to_nat i));
  name ← arg_string (CliArgParse.if_name itf);
  of_option name.

(** [a[i] = x] in an array. *)
Definition store {A} (l : list A) (i : Z) (x : A) : MG (list A) :=
  if decide (Z.to_nat i < length l)%nat then mret (<[Z.to_nat i := x]> l) else stuck.

(** The result and [itf_id], the port and subport of each interface. *)
Definition configure_interfaces (tx_queues rx_queues : Z) (itf_id : list (Z * Z))
    : MG (Z * list (Z * Z)) :=
  n ← if_count;
  r ← for_ret 0 (Z.to_nat n) (λ i itf_id,
        name ← interface_name i;
        c ← call (A_ifport_net_create name rx_queues tx_queues);
        itf_id ← store itf_id i (r_out c, r_out2 c);
        if r_val c <? 0 then mret (inr itf_id) else mret (inl itf_id)) itf_id;
  match r with inl itf_id => mret (0, itf_id) | inr itf_id => mret (-1, itf_id) end.

Definition configure_interface_addresses (itf_id : list (Z * Z)) : MG Z :=
  n ← if_count;
  r ← for_ret 0 (Z.to_nat (Z.min n NFP_FP_INTERFACE_MAX)) (λ i _,
        itf ← on_heap (CliArgParse.read_entry (Z.to_nat i));
        match CliArgParse.if_name itf with
        | None => mret (inr (-1))
        | Some _ =>
            address ← arg_string (CliArgParse.if_address itf);
            match address with
            | None => mret (inl ())
            | Some ad =>
                p ← call (A_parse_ip_addr ad);
                if r_val p =? 0 then mret (inr (-1))
                else
                  id ← of_option (itf_id !! Z.to_nat i);
                  res ← callv (A_ifport_net_ipv4_up id.1 id.2 (r_out p)
                                 (CliArgParse.if_address_masklen itf));
                  if negb (res =? 0) then mret (inr (-1)) else mret (inl ())
            end
        end) ();
  match r with inl _ => mret 0 | inr ret => mret ret end.

(** [workers_arg[j].pktin[i] = q] *)
Definition store_pktin (workers : list worker_arg) (j i q : Z) : MG (list worker_arg) :=
  w ← of_option (workers !! Z.to_nat j);
  queues ← store (pktin w) i q;
  store workers j (WorkerArg (num_pktin w) queues (process_timers w)).

(** The result and [workers_arg]. *)
Definition configure_workers_arg (num_workers : Z) (workers : list worker_arg)
    : MG (Z * list worker_arg) :=
  n ← if_count;
  workers ← for_acc 0 (Z.to_nat num_workers) (λ i workers,
              w ← of_option (workers !! Z.to_nat i);
              store workers i (WorkerArg n (pktin w) false)) workers;
  w ← of_option (workers !! 0%nat);
  workers ← store workers 0 (WorkerArg (num_pktin w) (pktin w) true);
  r ← for_ret 0 (Z.to_nat n) (λ i workers,
        name ← interface_name i;
        pktio ← callv (A_pktio_lookup name);
        if pktio =? 0 then mret (inr workers)
        else
          q ← call (A_pktin_queue pktio num_workers);
          if negb (r_val q =? num_workers) then exit EXIT_FAILURE
          else
            workers ← for_acc 0 (Z.to_nat num_workers) (λ j workers,
                        h ← entry_at q j;
                        if j <? MAX_WORKERS then store_pktin workers j i h else stuck) workers;
            mret (inl workers)) workers;
  match r with inl workers => mret (0, workers) | inr workers => mret (-1, workers) end.

(** [int] arithmetic: overflow is undefined. *)
Definition int (z : Z) : MG Z :=
  if (- 2 ^ 31 <=? z) && (z <? 2 ^ 31) then mret z else stuck.

(** [validate_cores_settings] for at most [max_workers] workers: [None] is -1;
    otherwise [core_start] and [core_count]. *)
Definition validate_cores (max_workers req_core_start req_core_count : Z) : MG (option (Z * Z)) :=
  total_core_count ← callv A_cpu_count;
  if total_core_count <=? req_core_start then mret None
  else
    c ← (if negb (req_core_count =? 0) then
           sum ← int (req_core_start + req_core_count);
           mret (if total_core_count <? sum then None else Some req_core_count)
         else
           rest ← int (total_core_count - req_core_start);
           mret (Some rest));
    match c with
    | None => mret None
    | Some core_count =>
        if core_count <? 0 then mret None
        else if max_workers <? core_count then mret None
        else mret (Some (req_core_start, core_count))
    end.

Definition validate_cores_settings (req_core_start req_core_count : Z) : MG (option (Z * Z)) :=
  validate_cores MAX_WORKERS req_core_start req_core_count.

(** The loop that starts the workers: [inr i] is a failure at worker [i]. *)
Definition create_workers (single : bool) (first_worker num_workers : Z) : MG (unit + Z) :=
  for_ret 0 (Z.to_nat num_workers) (λ i _,
    ret_val ← callv (A_thread_create
                (if single then THREAD_pkt_io_recv_single else THREAD_pkt_io_recv)
                (first_worker + i));
    if negb (ret_val =? 1) then mret (inr i) else mret (inl ())) ().
End Main.

Section Start.
Context {W F : Type} `{!App W F}.
Local Abbreviation MF := (M (app W F fpm_t)).

(** [nfp_terminate(); parse_args_cleanup(&params);] *)
Definition terminate : MF unit :=
  call_ A_terminate;; on_heap parse_args_cleanup.

(** [nfp_stop_processing(); nfp_thread_join(thread_tbl, n); ...] *)
Definition stop_workers (n : Z) : MF Z :=
  call_ A_stop_processing;;
  call_ (A_thread_join n);;
  terminate;;
  mret EXIT_FAILURE.

(** [workers] is what the stack holds in [workers_arg]. *)
Definition main (fuel : nat) (opts : list (Z * CliArgParse.ptr)) (workers : list worker_arg)
    : MF Z :=
  r ← nfpexpl_sigaction_set;
  if negb (r =? 0) then mret EXIT_FAILURE
  else
    p ← on_heap (parse_args fuel opts);
    setg (set_params p.2);;
    if negb (p.1 =? EXIT_SUCCESS) then mret EXIT_FAILURE
    else
      r ← callv (A_initialize 0 []);
      if negb (r =? 0) then on_heap parse_args_cleanup;; exit EXIT_FAILURE
      else
        cores ← validate_cores_settings (core_start p.2) (core_count p.2);
        match cores with
        | None => terminate;; exit EXIT_FAILURE
        | Some (first_worker, num_workers) =>
            c ← configure_interfaces (num_workers + 1) num_workers
                  (replicate (Z.to_nat NFP_FP_INTERFACE_MAX) (0, 0));
            if negb (c.1 =? 0) then terminate;; exit EXIT_FAILURE
            else
              w ← configure_workers_arg num_workers workers;
              if negb (w.1 =? 0) then terminate;; exit EXIT_FAILURE
              else
                t ← create_workers (single_pkt_API p.2) first_worker num_workers;
                match t with
                | inr i => stop_workers i
                | inl _ =>
                    r ← configure_interface_addresses c.2;
                    if negb (r =? 0) then stop_workers num_workers
                    else
                      file ← arg_string (cli_file p.2);
                      r ← callv (A_cli_process_file file);
                      if negb (r =? 0) then stop_workers num_workers
                      else
                        call_ (A_thread_join num_workers);;
                        call_ A_terminate;;
                        on_heap parse_args_cleanup;;
                        mret 0
                end
        end.
End Start.

End FpmDirect.
