(* ===== verification/FpmDirectProofs.v ===== *)
(** * Packet forwarding with direct input: workers

    What a worker gets, it hands on: the record of its calls is read as a
    queue of packets and events that arrive and are dealt with. *)

From S2P Require Import Prelude App AppProofs AppHeap HttpdTheorems TcpPerf TcpPerfProofs TcpPerfTheorems FpmDirect.
Import App AppProofs HttpdTheorems TcpPerfProofs TcpPerfTheorems FpmDirect.

Module FpmDirectProofs.

(** ** Readings of the record *)

Section Readings.
Context {F : Type}.
Implicit Types (e : event F) (t : list (event F)).

(** The handles stored in a table. *)
Definition entries (r : areply F) : list Z := fst <$> take (Z.to_nat (r_val r)) (r_list r).

(** The events that are not ODP_EVENT_INVALID. *)
Definition valid (evs : list Z) : list Z := filter (λ ev, ev ≠ ODP_EVENT_INVALID) evs.

(** Packets and events obtained, and those dealt with. *)
Definition arrived_by e : list Z :=
  match e.1 with
  | A_pktin_recv _ _ => entries e.2
  | A_schedule_multi _ => valid (entries e.2)
  | _ => []
  end.
Definition handled_by e : list Z :=
  match e.1 with
  | A_packet_input pkt _ | A_packet_free pkt => [pkt]
  | A_packet_input_multi pkts _ => pkts
  | A_timer_handle ev | A_event_free ev => [ev]
  | _ => []
  end.
(** The queues polled. *)
Definition polled_by e : list Z := match e.1 with A_pktin_recv q _ => [q] | _ => [] end.
(** The turns of the loop. *)
Definition round_by e : nat :=
  match e.1 with A_is_running => if r_val e.2 =? 0 then 0 else 1 | _ => 0 end.

Definition arrived t : list Z := t ≫= arrived_by.
Definition handled t : list Z := t ≫= handled_by.
Definition polled t : list Z := t ≫= polled_by.
Definition rounds t : nat := sum_list (round_by <$> t).

Lemma arrived_app t t' : arrived (t ++ t') = arrived t ++ arrived t'.
Proof. apply bind_app. Qed.
Lemma handled_app t t' : handled (t ++ t') = handled t ++ handled t'.
Proof. apply bind_app. Qed.
Lemma polled_app t t' : polled (t ++ t') = polled t ++ polled t'.
Proof. apply bind_app. Qed.
Lemma rounds_app t t' : rounds (t ++ t') = (rounds t + rounds t')%nat.
Proof. unfold rounds. by rewrite fmap_app, sum_list_with_app. Qed.

(** The calls a worker may make: it polls its own queues and, if it is the one
    for timers, the scheduler. *)
Definition worker_call (queues : list Z) (timers : bool) e : Prop :=
  match e.1 with
  | A_pktin_recv q n => q ∈ queues ∧ n = PKT_BURST_SIZE
  | A_schedule_multi n => timers = true ∧ n = PKT_BURST_SIZE
  | A_packet_input_multi pkts _ => 0 < Z.of_nat (length pkts) ≤ NFP_PKT_VECTOR_SIZE
  | A_event_type _ | A_timer_handle _ | A_packet_input _ _ | A_event_free _ | A_packet_free _
  | A_pkt_vector_add _ _ | A_send_pending_pkt | A_is_running | A_get_processing_state => True
  | _ => False
  end.

Lemma entries_lookup (r : areply F) i x :
  entries r !! i = Some x → ∃ y, r_list r !! i = Some (x, y).
Proof.
  unfold entries. rewrite list_lookup_fmap. intros ([a b] & H & ->)%fmap_Some.
  apply lookup_take_Some in H as [? _]. eauto.
Qed.

Lemma length_entries (r : areply F) :
  r_val r ≤ Z.of_nat (length (r_list r)) → length (entries r) = Z.to_nat (r_val r).
Proof. intros H. unfold entries. rewrite length_fmap, length_take. lia. Qed.
End Readings.

Section Flow.
Context {W F G : Type} `{!App W F, !SocketLaws W F, !PacketLaws W F}.
Local Abbreviation st := (app W F G).
Implicit Types (s : st) (p : list Z).

(** [R] compares what came in with what went out: as sequences or as bags. *)
Context (R : relation (list Z)) `{!PreOrder R, !Proper (R ==> R ==> R) (@Datatypes.app Z)}.
Context (queues : list Z) (timers : bool).

(** From [s] with [p] pending to [s'] with [p'] pending: everything that came
    in has been dealt with or is pending; [qs] were polled, in [k] turns. *)
Definition flow s p (qs : list Z) (k : nat) s' p' : Prop :=
  ∃ t, trace s' = trace s ++ t ∧ glob s' = glob s ∧ (budget (world s') ≤ budget (world s))%nat ∧
    R (p ++ arrived t) (handled t ++ p') ∧ polled t = qs ∧ rounds t = k ∧
    Forall (worker_call queues timers) t.

Lemma flow_none s p : flow s p [] 0 s p.
Proof. exists []. rewrite !app_nil_r. simpl. by split_and!. Qed.

Lemma flow_trans s1 p1 qs k s2 p2 qs' k' s3 p3 :
  flow s1 p1 qs k s2 p2 → flow s2 p2 qs' k' s3 p3 → flow s1 p1 (qs ++ qs') (k + k') s3 p3.
Proof.
  intros (t & Ht & Hg & Hb & HR & Hq & Hk & Hc) (t' & Ht' & Hg' & Hb' & HR' & Hq' & Hk' & Hc').
  exists (t ++ t'). split_and!.
  - by rewrite Ht', Ht, app_assoc.
  - congruence.
  - lia.
  - rewrite arrived_app, handled_app, app_assoc, HR, <- !app_assoc. by rewrite HR'.
  - by rewrite polled_app, Hq, Hq'.
  - by rewrite rounds_app, Hk, Hk'.
  - by apply Forall_app.
Qed.

(** A call, after what has been done so far. *)
Lemma flow_after s0 p0 qs k s p c r w p' qs' k' :
  flow s0 p0 qs k s p → api c (world s) = (r, w) →
  R (p ++ arrived_by (c, r)) (handled_by (c, r) ++ p') → worker_call queues timers (c, r) →
  qs ++ polled_by (c, r) = qs' → (k + round_by (c, r) = k')%nat →
  flow s0 p0 qs' k' (after s c r w) p'.
Proof.
  intros Hf E HR Hc <- <-. eapply flow_trans; [exact Hf|]. exists [(c, r)].
  unfold arrived, handled, polled, rounds. simpl. rewrite !app_nil_r.
  split_and!; [done|done|by eapply budget_le|done|done|lia|by apply Forall_singleton].
Qed.

(** A call that neither brings nor takes anything. *)
Lemma flow_idle s0 p0 qs k s p c r w :
  flow s0 p0 qs k s p → api c (world s) = (r, w) →
  match c with
  | A_event_type _ | A_pkt_vector_add _ _ | A_send_pending_pkt | A_get_processing_state => True
  | _ => False
  end → flow s0 p0 qs k (after s c r w) p.
Proof.
  intros Hf E Hc. eapply flow_after; [exact Hf|exact E|..]; destruct c; try done; simpl;
    rewrite ?app_nil_r; done.
Qed.

Lemma wp_entry s (r : areply F) i x (Q : Z → st → Prop) :
  entries r !! Z.to_nat i = Some x → Q x s → wp (entry_at r i) Q s.
Proof.
  intros [y Hy]%entries_lookup HQ. apply wp_bind. eapply wp_of_option; [done|]. by apply wp_ret.
Qed.

(** ** Events *)

Lemma valid_drop (l : list Z) i x :
  l !! i = Some x →
  valid (drop i l) =
    (if x =? ODP_EVENT_INVALID then [] else [x]) ++
    valid (drop (S i) l).
Proof.
  intros Hx. unfold valid. rewrite (drop_S l x) by done. rewrite filter_cons.
  destruct (Z.eqb_spec x ODP_EVENT_INVALID); case_decide; done.
Qed.

Lemma dispatch_ok s0 p0 qs k s in_queue ev p :
  flow s0 p0 qs k s ((if ev =? ODP_EVENT_INVALID then [] else [ev]) ++ p) →
  wp (dispatch_event in_queue ev) (λ _ s', flow s0 p0 qs k s' p) s.
Proof.
  intros Hf. unfold dispatch_event. destruct (ev =? _); [by apply wp_ret|].
  assert (Hdone : ∀ s c, flow s0 p0 qs k s ([ev] ++ p) →
    match c with A_timer_handle x | A_packet_input x _ | A_event_free x => x = ev | _ => False end →
    wp (call_ c) (λ _ s', flow s0 p0 qs k s' p) s).
  { intros s1 c Hf1 Hc. apply wp_call_. intros r w E.
    eapply flow_after; [exact Hf1|exact E|..]; destruct c; try done; subst; simpl; rewrite ?app_nil_r; done. }
  apply wp_bind, wp_callv. intros r w E. pose proof (flow_idle _ _ _ _ _ _ _ _ _ Hf E I) as Hf1.
  destruct (_ =? _); [by apply Hdone|].
  apply wp_bind, wp_callv. intros r2 w2 E2. pose proof (flow_idle _ _ _ _ _ _ _ _ _ Hf1 E2 I) as Hf2.
  destruct (_ =? _); by apply Hdone.
Qed.

(** The events are dealt with in order, before what was pending: nothing. *)
Lemma process_events_ok s0 p0 qs k s :
  timers = true → flow s0 p0 qs k s [] → wp process_events (λ _ s', flow s0 p0 qs k s' []) s.
Proof.
  intros Ht Hf. apply wp_bind, wp_call. intros r w E. pose proof (sched_table _ _ _ _ E) as Hlen.
  assert (Hf1 : flow s0 p0 qs k (after s (A_schedule_multi PKT_BURST_SIZE) r w) (valid (entries r))).
  { eapply flow_after; [exact Hf|exact E|..]; simpl; rewrite ?app_nil_r; done. }
  eapply wp_mono; [|apply (wp_for_from _ (λ i s', flow s0 p0 qs k s' (valid (drop (Z.to_nat i) (entries r)))))].
  - intros [] s' Hs'. simpl in Hs'. rewrite Z.add_0_l, Nat2Z.id in Hs'.
    by rewrite drop_ge in Hs' by (rewrite length_entries; done).
  - by rewrite drop_0.
  - intros i s1 Hi Hs1. destruct (lookup_lt_is_Some_2 (entries r) (Z.to_nat i)) as [x Hx].
    { rewrite length_entries by done. lia. }
    apply wp_bind. eapply wp_entry; [exact Hx|]. apply dispatch_ok.
    rewrite (valid_drop _ _ _ Hx) in Hs1.
    by replace (Z.to_nat (i + 1)) with (S (Z.to_nat i)) by lia.
Qed.

(** ** Packets *)

Lemma recv_flow s0 p0 qs k s p q r w :
  q ∈ queues → flow s0 p0 qs k s p → api (A_pktin_recv q PKT_BURST_SIZE) (world s) = (r, w) →
  flow s0 p0 (qs ++ [q]) k (after s (A_pktin_recv q PKT_BURST_SIZE) r w) (p ++ entries r).
Proof. intros Hq Hf E. eapply flow_after; [exact Hf|exact E|..]; simpl; done || lia. Qed.

Lemma input_packets_ok s0 p0 qs k s (r : areply F) :
  r_val r ≤ Z.of_nat (length (r_list r)) → flow s0 p0 qs k s (entries r) →
  wp (input_packets r) (λ _ s', flow s0 p0 qs k s' []) s.
Proof.
  intros Hlen Hf.
  eapply wp_mono; [|apply (wp_for_from _ (λ i s', flow s0 p0 qs k s' (drop (Z.to_nat i) (entries r))))].
  - intros [] s' Hs'. simpl in Hs'. rewrite Z.add_0_l, Nat2Z.id in Hs'.
    by rewrite drop_ge in Hs' by (rewrite length_entries; done).
  - done.
  - intros i s1 Hi Hs1. destruct (lookup_lt_is_Some_2 (entries r) (Z.to_nat i)) as [x Hx].
    { rewrite length_entries by done. lia. }
    apply wp_bind. eapply wp_entry; [exact Hx|]. rewrite (drop_S _ x) in Hs1 by done.
    replace (Z.to_nat (i + 1)) with (S (Z.to_nat i)) by lia.
    apply wp_call_. intros r2 w2 E2. eapply flow_after; [exact Hs1|exact E2|..]; simpl; rewrite ?app_nil_r; done.
Qed.

Lemma input_single_ok s0 p0 qs k s q :
  q ∈ queues → flow s0 p0 qs k s [] →
  wp (input_single q) (λ _ s', flow s0 p0 (qs ++ [q]) k s' []) s.
Proof.
  intros Hq Hf. apply wp_bind, wp_call. intros r w E.
  apply input_packets_ok; [by eapply recv_table|exact (recv_flow _ _ _ _ _ _ _ _ _ Hq Hf E)].
Qed.

(** ** Turns *)

(** The queues polled in [k] turns. *)
Definition turns (k : nat) : list Z := mjoin (replicate k queues).

Lemma turns_S k : turns k ++ queues = turns (S k).
Proof.
  unfold turns. change (S k) with (1 + k)%nat. rewrite Nat.add_comm, replicate_add, join_app.
  simpl. by rewrite app_nil_r.
Qed.

(** The test of the loop: another turn, or the end. *)
Lemma running_ok {A} s0 k s (f : Z → M st A) Q :
  flow s0 [] (turns k) k s [] →
  (∀ s', flow s0 [] (turns k) k s' [] → wp (f 0) Q s') →
  (∀ v s', v ≠ 0 → flow s0 [] (turns k) (S k) s' [] → (budget (world s') < budget (world s))%nat →
     wp (f v) Q s') →
  wp (callv A_is_running ≫= f) Q s.
Proof.
  intros Hf Hstop Hgo. apply wp_bind, wp_callv. intros r w E.
  destruct (decide (r_val r = 0)) as [Hz|Hz].
  - rewrite Hz. apply Hstop. eapply flow_after; [exact Hf|exact E|done|done|by rewrite app_nil_r|].
    unfold round_by. cbn [fst snd]. rewrite Hz. simpl. lia.
  - apply Hgo; [done| |].
    + eapply flow_after; [exact Hf|exact E|done|done|by rewrite app_nil_r|].
      unfold round_by. cbn [fst snd]. rewrite (proj2 (Z.eqb_neq _ _) Hz). lia.
    + pose proof (budget_step _ _ _ _ E) as Hb. unfold again in Hb. cbn [fst snd] in Hb.
      rewrite (proj2 (Z.eqb_neq _ _) Hz) in Hb. simpl in *. lia.
Qed.

Lemma timers_ok s0 p0 qs k s :
  flow s0 p0 qs k s [] → wp (when timers process_events) (λ _ s', flow s0 p0 qs k s' []) s.
Proof. intros Hf. destruct timers eqn:Ht; [|by apply wp_ret]. by apply process_events_ok. Qed.

Lemma budget_flow s0 p0 qs k s p : flow s0 p0 qs k s p → (budget (world s) ≤ budget (world s0))%nat.
Proof. by intros (t & _ & _ & ? & _). Qed.

Lemma flow_weaken s0 p0 qs k s p qs' : qs = qs' → flow s0 p0 qs k s p → flow s0 p0 qs' k s p.
Proof. by intros ->. Qed.

(** All the queues, one after the other. *)
Lemma wp_queues num (s0 s : st) qs k :
  Z.to_nat num = length queues → flow s0 [] qs k s [] →
  wp (for_from 0 (Z.to_nat num) (λ i, q ← of_option (queues !! Z.to_nat i); input_single q))
    (λ _ s', flow s0 [] (qs ++ queues) k s' []) s.
Proof.
  intros Hn Hf. eapply wp_mono; [|apply (wp_for_from _ (λ i s', flow s0 [] (qs ++ take (Z.to_nat i) queues) k s' []))].
  - intros [] s' Hs'. simpl in Hs'. rewrite Z.add_0_l, Nat2Z.id, Hn, firstn_all in Hs'. done.
  - simpl. by rewrite take_0, app_nil_r.
  - intros i s1 Hi Hs1. destruct (lookup_lt_is_Some_2 queues (Z.to_nat i)) as [q Hq]; [lia|].
    apply wp_bind. eapply wp_of_option; [exact Hq|].
    eapply wp_mono; [|by apply input_single_ok; [by eapply list_elem_of_lookup_2|]].
    intros [] s2. apply flow_weaken. replace (Z.to_nat (i + 1)) with (S (Z.to_nat i)) by lia.
    by rewrite (take_S_lookup _ _ _ Hq), app_assoc.
Qed.

Lemma pending_ok s0 p0 qs k s p :
  flow s0 p0 qs k s p → wp (call_ A_send_pending_pkt) (λ _ s', flow s0 p0 qs k s' p) s.
Proof. intros Hf. apply wp_call_. intros r w E. by eapply flow_idle. Qed.

(** A loop whose turns, each after the test, deal with everything. *)
Lemma turns_ok {A} (inv : A → Prop) (turn : A → Z → M st (A + unit)) fuel s0 s a :
  (∀ a s, wp (turn a 0) (λ r s', r = inr () ∧ s' = s) s) →
  (∀ a v s, inv a → v ≠ 0 →
     wp (turn a v) (λ r s', ∃ a', r = inl a' ∧ inv a' ∧ flow s [] queues 0 s' []) s) →
  inv a → flow s0 [] [] 0 s [] → (budget (world s) < fuel)%nat →
  wp (loop fuel (λ a, callv A_is_running ≫= turn a) a)
    (λ _ s', ∃ k, flow s0 [] (turns k) k s' []) s.
Proof.
  intros Hstop Hturn Ha Hf Hfuel.
  apply (wp_loop _ (λ a s', inv a ∧ ∃ k, flow s0 [] (turns k) k s' []) (λ _ s', budget (world s')));
    [|split; [done|by exists 0%nat]|done].
  intros b s1 [Hb [k Hk]]. eapply running_ok; [exact Hk| |].
  { intros s' Hs'. eapply wp_mono; [|apply Hstop]. intros ? ? [-> ->]. eauto. }
  intros v s2 Hv Hs2 Hlt. eapply wp_mono; [|by apply Hturn]. intros r s3 (b' & -> & Hb' & Hs3).
  pose proof (budget_flow _ _ _ _ _ _ Hs3). split; [|lia]. split; [done|]. exists (S k).
  pose proof (flow_trans _ _ _ _ _ _ _ _ _ _ Hs2 Hs3) as H'. by rewrite turns_S, Nat.add_0_r in H'.
Qed.

Lemma single_loop_ok num fuel s0 s :
  Z.to_nat num = length queues → flow s0 [] [] 0 s [] → (budget (world s) < fuel)%nat →
  wp (loop fuel (recv_single_step num queues timers) ()) (λ _ s', ∃ k, flow s0 [] (turns k) k s' []) s.
Proof.
  intros Hn. unfold recv_single_step. eapply (turns_ok (λ _, True)); [by intros; apply wp_ret| |done].
  intros [] v s1 _ Hv. rewrite (proj2 (Z.eqb_neq _ _) Hv).
  apply wp_bind. eapply wp_mono; [|apply timers_ok, flow_none]. intros [] s3 Hs3. simpl in Hs3.
  apply wp_bind. eapply wp_mono; [|by apply wp_queues]. intros [] s4 Hs4. simpl in Hs4.
  apply wp_bind. eapply wp_mono; [|by apply pending_ok]. intros [] s5 Hs5. apply wp_ret. by exists ().
Qed.

(** ** Vectors *)

Context (Hbag : ∀ p x q, R (p ++ x :: q) (x :: p ++ q)).

Definition small (vec : list Z) : Prop := Z.of_nat (length vec) < NFP_PKT_VECTOR_SIZE.

Lemma add_packet_ok s0 qs k s (r : areply F) i x vec p :
  entries r !! Z.to_nat i = Some x → small vec → flow s0 [] qs k s (vec ++ x :: p) →
  wp (add_packet r i vec) (λ vec' s', small vec' ∧ flow s0 [] qs k s' (vec' ++ p)) s.
Proof.
  intros Hx Hv Hf. apply wp_bind. eapply wp_entry; [exact Hx|]. apply wp_bind, wp_callv. intros r1 w1 E1.
  pose proof (flow_idle _ _ _ _ _ _ _ _ _ Hf E1 I) as Hf1. destruct (negb _).
  - apply wp_bind, wp_call_. intros r2 w2 E2. apply wp_ret. split; [done|].
    eapply flow_after; [exact Hf1|exact E2|..]; simpl; rewrite ?app_nil_r; done.
  - change (vec ++ x :: p) with (vec ++ [x] ++ p) in Hf1. rewrite app_assoc in Hf1.
    unfold TcpPerf.NFP_PKT_VECTOR_IS_FULL, small in *. rewrite length_app. simpl length.
    destruct (Z.eqb_spec (Z.of_nat (length vec + 1)) TcpPerf.NFP_PKT_VECTOR_SIZE) as [Hl|Hl].
    + apply wp_bind, wp_call_. intros r2 w2 E2. apply wp_ret. split; [done|].
      eapply flow_after; [exact Hf1|exact E2|..]; simpl; rewrite ?app_nil_r; try done.
      unfold worker_call. simpl. rewrite length_app. simpl. unfold NFP_PKT_VECTOR_SIZE in *. lia.
    + apply wp_ret. unfold TcpPerf.NFP_PKT_VECTOR_SIZE, NFP_PKT_VECTOR_SIZE in *.
      rewrite length_app. simpl. split; [lia|done].
Qed.

Lemma add_packets_ok s0 qs k s (r : areply F) vec :
  r_val r ≤ Z.of_nat (length (r_list r)) → small vec → flow s0 [] qs k s (vec ++ entries r) →
  wp (add_packets r vec) (λ vec' s', small vec' ∧ flow s0 [] qs k s' vec') s.
Proof.
  intros Hlen Hv Hf.
  eapply wp_mono; [|apply (wp_for_acc _ (λ i vec' s', small vec' ∧
    flow s0 [] qs k s' (vec' ++ drop (Z.to_nat i) (entries r))))].
  - intros vec' s' [Hv' Hs']. rewrite Z.add_0_l, Nat2Z.id in Hs'.
    rewrite drop_ge, app_nil_r in Hs' by (rewrite length_entries; done). done.
  - done.
  - intros i vec' s1 Hi [Hv' Hs1]. destruct (lookup_lt_is_Some_2 (entries r) (Z.to_nat i)) as [x Hx].
    { rewrite length_entries by done. lia. }
    rewrite (drop_S _ x) in Hs1 by done. replace (Z.to_nat (i + 1)) with (S (Z.to_nat i)) by lia.
    by eapply add_packet_ok.
Qed.

Lemma input_multi_ok s0 qs k s q vec :
  q ∈ queues → small vec → flow s0 [] qs k s vec →
  wp (input_multi q vec) (λ vec' s', small vec' ∧ flow s0 [] (qs ++ [q]) k s' vec') s.
Proof.
  intros Hq Hv Hf. apply wp_bind, wp_call. intros r w E.
  apply add_packets_ok; [by eapply recv_table|done|exact (recv_flow _ _ _ _ _ _ _ _ _ Hq Hf E)].
Qed.

Lemma wp_queues_multi num (s0 s : st) qs k vec :
  Z.to_nat num = length queues → small vec → flow s0 [] qs k s vec →
  wp (for_acc 0 (Z.to_nat num) (λ i vec, q ← of_option (queues !! Z.to_nat i); input_multi q vec) vec)
    (λ vec' s', small vec' ∧ flow s0 [] (qs ++ queues) k s' vec') s.
Proof.
  intros Hn Hv Hf. eapply wp_mono; [|apply (wp_for_acc _ (λ i vec' s', small vec' ∧
    flow s0 [] (qs ++ take (Z.to_nat i) queues) k s' vec'))].
  - intros vec' s' [Hv' Hs']. by rewrite Z.add_0_l, Nat2Z.id, Hn, firstn_all in Hs'.
  - simpl. by rewrite take_0, app_nil_r.
  - intros i vec' s1 Hi [Hv' Hs1]. destruct (lookup_lt_is_Some_2 queues (Z.to_nat i)) as [q Hq]; [lia|].
    apply wp_bind. eapply wp_of_option; [exact Hq|].
    eapply wp_mono; [|by apply input_multi_ok; [by eapply list_elem_of_lookup_2|..]].
    intros vec2 s2 [Hv2 Hs2]. split; [done|]. revert Hs2. apply flow_weaken.
    replace (Z.to_nat (i + 1)) with (S (Z.to_nat i)) by lia. by rewrite (take_S_lookup _ _ _ Hq), app_assoc.
Qed.

Lemma flush_ok s0 qs k s vec :
  small vec → flow s0 [] qs k s vec →
  wp (flush_vector vec) (λ vec' s', vec' = [] ∧ flow s0 [] qs k s' []) s.
Proof.
  intros Hv Hf. unfold flush_vector, TcpPerf.NFP_PKT_VECTOR_HAS_DATA, small in *.
  destruct vec as [|x vec]; [by apply wp_ret|]. set (v := x :: vec) in *. simpl.
  apply wp_bind, wp_call_. intros r w E. apply wp_ret. split; [done|].
  eapply flow_after; [exact Hf|exact E|..]; simpl; rewrite ?app_nil_r; try done.
  unfold worker_call. simpl. subst v. simpl in *. lia.
Qed.

Lemma multi_loop_ok num fuel s0 s :
  Z.to_nat num = length queues → flow s0 [] [] 0 s [] → (budget (world s) < fuel)%nat →
  wp (loop fuel (recv_step num queues timers) []) (λ _ s', ∃ k, flow s0 [] (turns k) k s' []) s.
Proof.
  intros Hn. unfold recv_step. eapply (turns_ok (λ vec, vec = [])); [by intros; apply wp_ret| |done].
  intros vec v s1 -> Hv. rewrite (proj2 (Z.eqb_neq _ _) Hv).
  apply wp_bind. eapply wp_mono; [|apply timers_ok, flow_none]. intros [] s3 Hs3. simpl in Hs3.
  apply wp_bind. eapply wp_mono; [|by apply wp_queues_multi]. intros vec s4 [Hv4 Hs4].
  apply wp_bind. eapply wp_mono; [|by apply flush_ok]. intros vec' s5 [-> Hs5].
  apply wp_bind. eapply wp_mono; [|by apply pending_ok]. intros [] s6 Hs6. apply wp_ret. by exists [].
Qed.
End Flow.

(** ** The two dispatchers *)

Section Workers.
Context {W F G : Type} `{!App W F, !SocketLaws W F, !PacketLaws W F}.
Local Abbreviation st := (app W F G).
Implicit Types (s : st) (arg : worker_arg).

(** The queues of a worker, in its array. *)
Definition queues_of arg : list Z := take (Z.to_nat (num_pktin arg)) (pktin arg).
Definition arg_fine arg : Prop :=
  num_pktin arg ≤ NFP_FP_INTERFACE_MAX ∧ num_pktin arg ≤ Z.of_nat (length (pktin arg)).

Lemma length_queues arg : arg_fine arg → length (queues_of arg) = Z.to_nat (num_pktin arg).
Proof. intros [_ H]. unfold queues_of. rewrite length_take. lia. Qed.

Lemma copy_pktin_ok arg s :
  arg_fine arg → wp (copy_pktin arg) (λ qs s', qs = queues_of arg ∧ s' = s) s.
Proof.
  intros [Hm Hl]. eapply wp_mono; [|apply (wp_for_acc _ (λ i acc s', acc = take (Z.to_nat i) (pktin arg) ∧ s' = s))].
  - intros qs s' [-> ->]. by rewrite Z.add_0_l, Nat2Z.id.
  - done.
  - intros i acc s' Hi [-> ->]. destruct (lookup_lt_is_Some_2 (pktin arg) (Z.to_nat i)) as [q Hq]; [lia|].
    apply wp_bind. eapply wp_of_option; [exact Hq|].
    destruct (Z.ltb_spec i NFP_FP_INTERFACE_MAX); [|lia]. apply wp_ret.
    replace (Z.to_nat (i + 1)) with (S (Z.to_nat i)) by lia. by rewrite (take_S_lookup _ _ _ Hq).
Qed.

(** The worker's function. *)
Definition worker (single : bool) (fuel : nat) arg : M st Z :=
  if single then pkt_io_recv_single fuel arg else pkt_io_recv fuel arg.

(** What comes in goes out: in order, or in some order. *)
Definition passed (single : bool) : relation (list Z) := if single then eq else (≡ₚ).

#[global] Instance passed_preorder b : PreOrder (passed b).
Proof. destruct b; apply _. Qed.
#[global] Instance passed_app b : Proper (passed b ==> passed b ==> passed b) (@Datatypes.app Z).
Proof. destruct b; apply _. Qed.

Lemma worker_ok single fuel arg s :
  arg_fine arg → (budget (world s) < fuel)%nat →
  wp (worker single fuel arg) (λ rc s', ∃ k, (rc = 0 ∨ rc = -1 ∧ k = 0%nat) ∧
    flow (passed single) (queues_of arg) (process_timers arg) s [] (turns (queues_of arg) k) k s' []) s.
Proof.
  intros Ha Hfuel. pose proof (eq_sym (length_queues _ Ha)) as Hn.
  pose proof (flow_none (passed single) (queues_of arg) (process_timers arg) s []) as Hf0.
  assert (Hgo : ∀ lp : M st unit,
    (∀ s1, flow (passed single) (queues_of arg) (process_timers arg) s [] [] 0 s1 [] →
       wp lp (λ _ s', ∃ k, flow (passed single) (queues_of arg) (process_timers arg) s []
                             (turns (queues_of arg) k) k s' []) s1) →
    wp (state ← callv A_get_processing_state; if state =? 0 then mret (-1) else lp;; mret 0)
      (λ rc s', ∃ k, (rc = 0 ∨ rc = -1 ∧ k = 0%nat) ∧
         flow (passed single) (queues_of arg) (process_timers arg) s [] (turns (queues_of arg) k) k s' []) s).
  { intros lp Hlp. apply wp_bind, wp_callv. intros r w E.
    assert (Hf1 := flow_idle _ _ _ _ _ _ _ _ _ _ _ _ Hf0 E I).
    destruct (_ =? 0); [apply wp_ret; exists 0%nat; auto|].
    apply wp_bind. eapply wp_mono; [|by apply Hlp]. intros _ s' [k Hk]. apply wp_ret. eauto. }
  destruct single; (apply wp_bind; eapply wp_mono; [|by apply copy_pktin_ok]);
    intros ? ? [-> ->]; apply Hgo; intros s1 Hf1; pose proof (budget_flow _ _ _ _ _ _ _ _ _ Hf1).
  - apply (single_loop_ok (passed true)); [exact Hn|exact Hf1|lia].
  - apply (multi_loop_ok (passed false)); [|exact Hn|exact Hf1|lia]. intros p x q. symmetry. apply Permutation_middle.
Qed.

(** [C9] A worker ends when processing is stopped, and until then deals with
    everything it gets: each packet received from a queue and each event of
    the scheduler is given to the stack, to the timers, or freed, once, and
    nothing is left over, neither in a vector.  With the single-packet API
    that happens in the order of arrival.  In each turn it polls each of its
    queues once, in order, and no other; it asks the scheduler only if it
    processes timers; vectors have between 1 and 32 packets.  It returns -1
    only when there is no processing state, without having polled. *)
Theorem workers_forward_everything single fuel arg s :
  arg_fine arg → (budget (world s) < fuel)%nat →
  ∃ rc s' t k, worker single fuel arg s = (Ret rc, s') ∧ trace s' = trace s ++ t ∧
    glob s' = glob s ∧ (rc = 0 ∨ rc = -1 ∧ k = 0%nat) ∧
    passed single (arrived t) (handled t) ∧
    rounds t = k ∧ polled t = mjoin (replicate k (queues_of arg)) ∧
    Forall (worker_call (queues_of arg) (process_timers arg)) t.
Proof.
  intros Ha Hfuel. destruct (worker_ok single fuel arg s Ha Hfuel) as (rc & s' & Hrun & k & Hrc & t & Ht & Hg & _ & HR & Hq & Hk & Hc).
  rewrite app_nil_r in HR. by exists rc, s', t, k.
Qed.
End Workers.

(** Two queues, timers. *)
Lemma workers_forward_everything_witness :
  ∃ rc s' t k, worker (G := unit) false 10 (WorkerArg 2 [5; 6; 0] true) (MkApp (Demo 4 3) 0 [] ()) = (Ret rc, s') ∧
    trace s' = [] ++ t ∧ glob s' = () ∧ (rc = 0 ∨ rc = -1 ∧ k = 0%nat) ∧
    passed false (arrived t) (handled t) ∧
    rounds t = k ∧ polled t = mjoin (replicate k [5; 6]) ∧ Forall (worker_call [5; 6] true) t.
Proof.
  apply (workers_forward_everything (W := demo) (F := gset Z) false 10 (WorkerArg 2 [5; 6; 0] true));
    [by split|simpl; lia].
Defined.

End FpmDirectProofs.
