(* ===== verification/FpmDirectStart.v ===== *)
(** * Packet forwarding with direct input: start and end

    The command line, the choice of cores, the arguments of the workers, and
    [main] as a whole. *)

From S2P Require Import Prelude App AppProofs AppHeap Resources HttpdTheorems CliArgParse CliArgParseProofs ArgHeap TcpPerfProofs TcpPerfTheorems FpmDirect FpmDirectProofs.
Import App AppProofs AppHeap Resources HttpdTheorems ArgHeap TcpPerfProofs TcpPerfTheorems FpmDirect FpmDirectProofs.

Module FpmDirectStart.

(** ** Command line *)

Definition copies (a : appl_args_t) : list positive := option_list (cli_file a).

(** Options with an argument. *)
Definition takes_arg (c : Z) : bool := bool_decide (c ∈ [99; 102; 105; 115]).

(** The arguments can be read, and core numbers are moderate. *)
Definition opt_ok (b0 : memory) (fuel : nat) (o : Z * CliArgParse.ptr) : Prop :=
  (takes_arg o.1 = true → arg_ok b0 fuel o.2) ∧
  ∀ t, o.1 = 99 ∨ o.1 = 115 → (∃ r, CliArgParseProofs.string_at b0 o.2.1 o.2.2 t r) →
    - 2 ^ 30 ≤ CliArgParse.atoi_text t < 2 ^ 30.

Definition unset (a : appl_args_t) (h : CliArgParse.state) (c : Z) : Prop :=
  (c = 102 → cli_file a = None) ∧ (c = 105 → CliArgParse.if_count h = 0).

Definition moderate (a : appl_args_t) : Prop :=
  - 2 ^ 30 ≤ core_start a < 2 ^ 30 ∧ - 2 ^ 30 ≤ core_count a < 2 ^ 30.

(** The arguments so far. *)
Definition parsed (b0 : memory) (a : appl_args_t) (h : CliArgParse.state) : Prop :=
  holds b0 (copies a) h ∧ moderate a.

(** After [exit]: the interfaces are released. *)
Definition quit (b0 : memory) (c : Z) (h : CliArgParse.state) : Prop :=
  c = EXIT_SUCCESS ∧ spare 1 b0 h.

Definition option_result (b0 : memory) (c : Z) (a : appl_args_t) (h : CliArgParse.state)
    (r : Z * appl_args_t) (h' : CliArgParse.state) : Prop :=
  (r.1 = 0 ∨ r.1 = -1) ∧ parsed b0 r.2 h' ∧ ∀ c', c' ≠ c → unset a h c' → unset r.2 h' c'.

Lemma parsed_kept b0 a h : parsed b0 a h → kept 1 b0 h.
Proof. intros [Hh _]. exists (copies a). split; [|done]. unfold copies. destruct (cli_file a); simpl; lia. Qed.

Lemma fpm_parse_option_ok b0 fuel o a h :
  parsed b0 a h → opt_ok b0 fuel o → unset a h o.1 →
  ends (parse_option fuel o a) (option_result b0 o.1 a h) (quit b0) h.
Proof.
  intros [Hh Hm] [Hok Hat] (Hf & Hi). unfold parse_option. destruct o as [c arg]. cbn [fst snd] in *.
  assert (Hsame : ∀ a', copies a' = copies a → moderate a' → cli_file a' = cli_file a →
    option_result b0 c a h (0, a') h).
  { intros a' Hc Hm' Hcli. split; [by left|]. split; [split; [simpl; by rewrite Hc|done]|].
    intros c' _ [? ?]. simpl. split; [by rewrite Hcli|done]. }
  destruct (Z.eqb_spec c 99) as [->|].
  { apply ends_wp, wp_bind. eapply (atoi_ok b0 fuel arg); [done|by apply Hok|]. intros t Ht.
    apply wp_ret, Hsame; [done|split; [apply Hm|apply (Hat t); auto]|done]. }
  destruct (Z.eqb_spec c 115) as [->|].
  { apply ends_wp, wp_bind. eapply (atoi_ok b0 fuel arg); [done|by apply Hok|]. intros t Ht.
    apply wp_ret, Hsame; [done|split; [apply (Hat t); auto|apply Hm]|done]. }
  destruct (Z.eqb_spec c 105) as [->|].
  { apply ends_wp, wp_bind. eapply wp_mono; [|apply (interfaces_ok b0 fuel arg); [exact Hh|by apply Hok|by apply Hi]].
    intros ret h' [[-> | ->] Hh']; apply wp_ret; (split; [auto|split; [by split|]]);
      intros c' Hne [? ?]; by split. }
  destruct (Z.eqb_spec c 104) as [->|].
  { apply ends_bind, ends_wp. eapply wp_mono; [|by eapply cleanup_kept, (parsed_kept _ a)].
    intros [] h' Hc. by apply ends_exit. }
  destruct (Z.eqb_spec c 102) as [->|].
  { apply ends_wp, wp_bind. eapply strlen_ok; [done|by apply Hok|]. intros len.
    destruct (len =? 0); [apply wp_ret; split; [by right|split; [done|auto]]|].
    apply wp_assoc, wp_bind. eapply copy_string_ok; [done|by apply Hok|]. intros p h' Hh' Hn.
    apply wp_ret. split; [by left|]. split; [split; [|done]|].
    - unfold copies in *. simpl. by rewrite Hf in Hh' by done.
    - intros c' Hne [? ?]. split; [done|]. by rewrite Hn. }
  destruct (Z.eqb_spec c 103) as [->|]; by apply ends_wp, wp_ret, Hsame.
Qed.

Lemma fpm_parse_options_ok b0 fuel opts : ∀ a h,
  parsed b0 a h → Forall (opt_ok b0 fuel) opts → NoDup opts.*1 →
  (∀ o, o ∈ opts → unset a h o.1) →
  ends (parse_options fuel opts a) (λ r h', (r.1 = 0 ∨ r.1 = -1) ∧ parsed b0 r.2 h') (quit b0) h.
Proof.
  induction opts as [|o opts IH]; intros a h Hp Hok Hnd Hun; simpl; [by apply ends_wp, wp_ret; auto|].
  apply Forall_cons in Hok as [Ho Hok]. rewrite fmap_cons in Hnd. apply NoDup_cons in Hnd as [Hno Hnd].
  apply ends_bind. eapply ends_mono; [|done|apply fpm_parse_option_ok; [done..|apply Hun; set_solver]].
  intros [rc a'] h' (Hr & Hp' & Hu). simpl in *.
  destruct (Z.eqb_spec rc 0); [|by apply ends_wp, wp_ret].
  apply IH; [done..|]. intros o' Ho'. apply Hu; [|apply Hun; set_solver].
  intros Heq. apply Hno. rewrite <- Heq. apply list_elem_of_fmap. eauto.
Qed.

(** What a command line that is accepted gives. *)
Definition accepted (b0 : memory) (a : appl_args_t) (h : CliArgParse.state) : Prop :=
  parsed b0 a h ∧ 1 ≤ CliArgParse.if_count h ≤ NFP_FP_INTERFACE_MAX.

Lemma fpm_parse_args_ok b0 fuel opts h :
  ready b0 h → Forall (opt_ok b0 fuel) opts → NoDup opts.*1 →
  ends (parse_args fuel opts) (λ p h',
    p.1 = EXIT_SUCCESS ∧ accepted b0 p.2 h' ∨
    p.1 = EXIT_FAILURE ∧ spare 1 b0 h') (quit b0) h.
Proof.
  intros Hr Hok Hnd. unfold parse_args.
  apply ends_bind, ends_wp, wp_modify, ends_bind, ends_wp, wp_modify.
  set (h1 := CliArgParse.set_if_array _ _). set (a0 := ApplArgs _ _ _ _).
  assert (Hp : parsed b0 a0 h1) by (split; [by apply ready_holds|done]).
  apply ends_bind. eapply ends_mono; [|done|apply (fpm_parse_options_ok b0 fuel opts a0 h1 Hp Hok Hnd)].
  2: { intros o _. by split. }
  intros [rc a] h' [Hrc [Hh Hm]]. simpl in *. apply ends_wp.
  assert (Hfail : wp (parse_args_cleanup;; mret (EXIT_FAILURE, a)) (λ p h',
    p.1 = EXIT_SUCCESS ∧ accepted b0 p.2 h' ∨
    p.1 = EXIT_FAILURE ∧ spare 1 b0 h') h').
  { apply wp_bind. eapply wp_mono; [|by eapply cleanup_kept, (parsed_kept _ a)].
    intros [] h2 Hc. apply wp_ret. by right. }
  destruct (rc =? -1); [done|]. apply wp_bind, wp_gets. pose proof (holds_count _ _ _ Hh) as Hnn.
  destruct (Z.eqb_spec (CliArgParse.if_count h') 0); [done|].
  destruct (Z.ltb_spec NFP_FP_INTERFACE_MAX (CliArgParse.if_count h')); [done|].
  apply wp_ret. left. split; [done|]. split; [done|lia].
Qed.

(** ** Interfaces and workers *)

Section Configure.
Context {W F G : Type} `{!App W F, !SocketLaws W F, !PacketLaws W F, !HasHeap G}.
Local Abbreviation st := (app W F G).
Implicit Types (s : st).

(** Between two resources the globals do not change at all. *)
Local Abbreviation neutral := (Resources.neutral (λ g : G, g)).

Lemma neutral_heap s s' : neutral s s' → heap_of (glob s') = heap_of (glob s).
Proof. by intros (_ & -> & _). Qed.

Lemma neutral_store {A} (l : list A) i x : keeps neutral (store l i x : M st _).
Proof. unfold store. frame. Qed.
Lemma neutral_entry (r : areply F) i : keeps neutral (entry_at r i : M st _).
Proof. unfold entry_at. frame. Qed.
Lemma neutral_if_count : keeps neutral (if_count : M st Z).
Proof. apply neutral_getg. Qed.
Hint Resolve neutral_store neutral_entry neutral_if_count : keeps.

Lemma neutral_name i : keeps neutral (interface_name i : M st _).
Proof. unfold interface_name. frame. Qed.
Hint Resolve neutral_name : keeps.

Lemma neutral_interfaces tx rx ids : keeps neutral (configure_interfaces tx rx ids : M st _).
Proof. unfold configure_interfaces. frame. Qed.

Lemma neutral_addresses ids : keeps neutral (configure_interface_addresses ids : M st _).
Proof. unfold configure_interface_addresses. frame. Qed.

Lemma neutral_cores m a b : keeps neutral (validate_cores m a b : M st _).
Proof. unfold validate_cores, int. frame. Qed.

Lemma neutral_workers n ws : keeps neutral (configure_workers_arg n ws : M st _).
Proof. unfold configure_workers_arg, store_pktin. frame. Qed.

Lemma store_ok {A} (l : list A) i x s (Q : list A → st → Prop) :
  (Z.to_nat i < length l)%nat → Q (<[Z.to_nat i := x]> l) s → wp (store l i x) Q s.
Proof. intros Hi HQ. unfold store. rewrite decide_True by done. by apply wp_ret. Qed.

(** The name of an interface can be read; reading changes nothing. *)
Lemma interface_name_ok s es i (Q : bytes → st → Prop) :
  listed (heap_of (glob s)) es → 0 ≤ i < Z.of_nat (length es) → (∀ name, Q name s) →
  wp (interface_name i) Q s.
Proof.
  intros Hl Hi HQ. destruct (lookup_lt_is_Some_2 es (Z.to_nat i)) as [e He]; [lia|].
  destruct (Forall_lookup_1 _ _ _ _ (proj2 (proj2 Hl)) He) as (Hname & Hrn & _).
  apply wp_bind. eapply read_entry_wp; [done..|].
  apply wp_bind. eapply wp_mono; [|apply wp_keeps; [apply same_arg_string|by apply arg_string_ok]].
  intros o s' [Ho <-]. destruct (Ho Hname) as [name ->]. by eapply wp_of_option.
Qed.

Lemma interfaces_created s es tx rx ids :
  listed (heap_of (glob s)) es → (length es ≤ length ids)%nat →
  wp (configure_interfaces tx rx ids) (λ r _, length r.2 = length ids) s.
Proof.
  intros Hl Hle. apply wp_bind, wp_getg. destruct Hl as [Hn Hl].
  apply wp_bind. eapply wp_mono; [|eapply (wp_for_ret _ (λ _ ids' s', neutral s s' ∧ length ids' = length ids)
    (λ ids' _, length ids' = length ids))].
  - intros [ids'|ids'] s' H; apply wp_ret; simpl; [apply H|done].
  - done.
  - intros i ids' s1 Hi [Hn1 Hlen]. apply wp_bind. eapply (interface_name_ok s1 es).
    { rewrite (neutral_heap _ _ Hn1). by split. } { lia. }
    intros name. eapply (wp_neutral (λ g, g)); [frame|apply any_call|]. intros c s2 _ Hn2.
    apply wp_bind, store_ok; [lia|].
    destruct (_ <? 0); apply wp_ret; rewrite length_insert; [done|]. split; [by etrans|done].
Qed.

Lemma addresses_ok s es ids :
  listed (heap_of (glob s)) es → (length es ≤ length ids)%nat →
  wp (configure_interface_addresses ids) (λ _ _, True) s.
Proof.
  intros Hl Hle. apply wp_bind, wp_getg. destruct Hl as [Hn Hl].
  apply wp_bind. eapply wp_mono; [|eapply (wp_for_ret _ (λ _ _ s', neutral s s') (λ _ _, True))].
  - intros [] s' _; by apply wp_ret.
  - done.
  - intros i [] s1 Hi Hn1. destruct (lookup_lt_is_Some_2 es (Z.to_nat i)) as [e He]; [lia|].
    destruct (lookup_lt_is_Some_2 ids (Z.to_nat i)) as [id Hid]; [lia|].
    assert (Hl1 : listed (heap_of (glob s1)) es) by (rewrite (neutral_heap _ _ Hn1); by split).
    destruct (Forall_lookup_1 _ _ _ _ (proj2 (proj2 Hl1)) He) as ([nm Hname] & _ & Hra).
    apply wp_bind. eapply read_entry_wp; [done..|]. rewrite Hname.
    eapply (wp_neutral (λ g, g)); [frame|by apply arg_string_ok|]. intros [ad|] s2 _ Hn2.
    2: { apply wp_ret. by etrans. }
    eapply (wp_neutral (λ g, g)); [frame|apply any_call|]. intros p s3 _ Hn3.
    destruct (_ =? 0); [by apply wp_ret|]. apply wp_bind. eapply wp_of_option; [exact Hid|].
    eapply (wp_neutral (λ g, g)); [frame|apply any_callv|]. intros res s4 _ Hn4.
    destruct (negb _); apply wp_ret; [done|]. etrans; [exact Hn1|]. etrans; [exact Hn2|]. by etrans.
Qed.

(** ** Cores *)

(** What is asked for and what there is. *)
Definition cores_of (max total start count : Z) : option (Z * Z) :=
  let n := if decide (count = 0) then total - start else count in
  if decide (start < total ∧ start + n ≤ total ∧ 0 ≤ n ≤ max) then Some (start, n) else None.

Lemma cores_ok max start count s :
  (∀ r w, api A_cpu_count (world s) = (r, w) → 0 ≤ r_val r < 2 ^ 30) →
  - 2 ^ 30 ≤ start < 2 ^ 30 → - 2 ^ 30 ≤ count < 2 ^ 30 →
  wp (validate_cores max start count) (λ o s', ∃ r w,
    api A_cpu_count (world s) = (r, w) ∧ s' = after s A_cpu_count r w ∧
    o = cores_of max (r_val r) start count) s.
Proof.
  intros Hcpu Hs Hc. apply wp_bind, wp_callv. intros r w E. pose proof (Hcpu r w E) as Hr.
  assert (Hint : ∀ z, - 2 ^ 31 ≤ z < 2 ^ 31 → ∀ s, (int z : M st Z) s = (Ret z, s)).
  { intros z Hz s'. unfold int. destruct (Z.leb_spec (- 2 ^ 31) z); [|lia].
    by destruct (Z.ltb_spec z (2 ^ 31)); [|lia]. }
  assert (Hend : ∀ o, o = cores_of max (r_val r) start count →
    wp (mret o : M st _) (λ o s', ∃ r w, api A_cpu_count (world s) = (r, w) ∧
      s' = after s A_cpu_count r w ∧ o = cores_of max (r_val r) start count) (after s A_cpu_count r w)).
  { intros o ->. apply wp_ret. by exists r, w. }
  destruct (Z.leb_spec (r_val r) start).
  { apply Hend. unfold cores_of. rewrite decide_False by (intros [? _]; lia). done. }
  apply wp_bind. destruct (Z.eqb_spec count 0) as [Hz|Hz]; cbn [negb];
    (apply wp_bind; eexists _, _; split; [apply Hint; lia|]; apply wp_ret).
  - destruct (Z.ltb_spec (r_val r - start) 0); [lia|].
    destruct (Z.ltb_spec max (r_val r - start)); apply Hend; unfold cores_of;
      rewrite (decide_True _ _ Hz); first [rewrite decide_False by lia | rewrite decide_True by lia]; done.
  - destruct (Z.ltb_spec (r_val r) (start + count)); [|destruct (Z.ltb_spec count 0);
      [|destruct (Z.ltb_spec max count)]]; apply Hend; unfold cores_of;
      rewrite (decide_False (P := count = 0) _ _ Hz); first [rewrite decide_False by lia | rewrite decide_True by lia]; done.
Qed.

(** ** Arguments of the workers *)

(** The tables of input queues that were obtained, and column [j] of them. *)
Definition tables (t : list (event F)) : list (areply F) :=
  omap (λ e, match e.1 with A_pktin_queue _ _ => Some e.2 | _ => None end) t.
Definition column (j : nat) (tabs : list (areply F)) : list Z := omap (λ r, entries r !! j) tabs.

(** The array has 64 arguments for up to 8 queues each. *)
Definition array_fine (ws : list worker_arg) : Prop :=
  Z.of_nat (length ws) = MAX_WORKERS ∧
  ∀ j w, ws !! j = Some w → Z.of_nat (length (pktin w)) = NFP_FP_INTERFACE_MAX.

(** Worker [j] of the first [num] has [n] queues, the first [i j] of which are
    those of column [j]; the first worker alone has the timers. *)
Definition assigned (n num : Z) (tabs : nat → list (areply F)) (i : nat → nat)
    (ws : list worker_arg) : Prop :=
  ∀ j w, ws !! j = Some w → Z.of_nat j < num →
    num_pktin w = n ∧ process_timers w = bool_decide (j = 0%nat) ∧
    take (i j) (pktin w) = column j (tabs j).

Lemma array_insert ws j w :
  array_fine ws → Z.of_nat (length (pktin w)) = NFP_FP_INTERFACE_MAX → array_fine (<[j := w]> ws).
Proof.
  intros [Hl Hw] Hlen. split; [by rewrite length_insert|].
  intros j' w' [(-> & -> & _)|[_ ?]]%list_lookup_insert_Some; [done|by eapply Hw].
Qed.

Lemma array_lookup ws j : array_fine ws → Z.of_nat j < MAX_WORKERS → ∃ w, ws !! j = Some w.
Proof. intros [Hl _] Hj. apply lookup_lt_is_Some_2. lia. Qed.

(** The first loop and the timers of the first worker. *)
Lemma workers_reset {A} n num ws s (f : list worker_arg → M st A) Q X :
  array_fine ws → num ≤ MAX_WORKERS →
  (∀ ws', array_fine ws' → assigned n num (λ _, []) (λ _, 0%nat) ws' → ends (f ws') Q X s) →
  ends (workers ← for_acc 0 (Z.to_nat num) (λ i workers,
                    w ← of_option (workers !! Z.to_nat i);
                    store workers i (WorkerArg n (pktin w) false)) ws;
        w ← of_option (workers !! 0%nat);
        workers ← store workers 0 (WorkerArg (num_pktin w) (pktin w) true);
        f workers) Q X s.
Proof.
  intros Hf Hnum HQ. apply ends_bind, ends_wp.
  eapply wp_mono; [|apply (wp_for_acc _ (λ i ws' s', s' = s ∧ array_fine ws' ∧
    ∀ j w, ws' !! j = Some w → Z.of_nat j < i → num_pktin w = n ∧ process_timers w = false))].
  - intros ws' s' (-> & Hf' & Hw). destruct (array_lookup ws' 0 Hf') as [w0 Hw0]; [done|].
    apply ends_bind, ends_wp. eapply wp_of_option; [exact Hw0|].
    apply ends_bind, ends_wp, store_ok; [by eapply lookup_lt_Some|].
    apply HQ; [apply array_insert; [done|exact (proj2 Hf' _ _ Hw0)]|].
    intros j w [(<- & <- & _)|[Hne Hj]]%list_lookup_insert_Some Hlt; simpl.
    + destruct (Hw _ _ Hw0) as [? _]; [simpl in *; lia|]. by split_and!.
    + destruct (Hw _ _ Hj) as [? ?]; [lia|]. rewrite bool_decide_false by naive_solver. done.
  - split_and!; [done..|]. lia.
  - intros i ws' s' Hi (-> & Hf' & Hw). destruct (array_lookup ws' (Z.to_nat i) Hf') as [w0 Hw0]; [lia|].
    apply wp_bind. eapply wp_of_option; [exact Hw0|]. apply store_ok; [by eapply lookup_lt_Some|].
    split_and!; [done|apply array_insert; [done|exact (proj2 Hf' _ _ Hw0)]|].
    intros j w [(<- & <- & _)|[Hne Hj]]%list_lookup_insert_Some Hlt; [done|]. apply (Hw j); [done|lia].
Qed.

Lemma column_snoc j tabs r x : entries r !! j = Some x → column j (tabs ++ [r]) = column j tabs ++ [x].
Proof. intros Hx. unfold column. rewrite omap_app. simpl. by rewrite Hx. Qed.

(** The queues of one interface go to the workers. *)
Lemma workers_given n num (i : nat) tabs (r : areply F) ws s :
  array_fine ws → num ≤ MAX_WORKERS → Z.of_nat i < NFP_FP_INTERFACE_MAX →
  length (entries r) = Z.to_nat num →
  assigned n num (λ _, tabs) (λ _, i) ws →
  wp (for_acc 0 (Z.to_nat num) (λ j workers,
        h ← entry_at r j;
        if j <? MAX_WORKERS then store_pktin workers j (Z.of_nat i) h else stuck) ws)
    (λ ws' s', s' = s ∧ array_fine ws' ∧ assigned n num (λ _, tabs ++ [r]) (λ _, S i) ws') s.
Proof.
  intros Hf Hnum Hi Hlen Ha.
  eapply wp_mono; [|apply (wp_for_acc _ (λ k ws' s', s' = s ∧ array_fine ws' ∧
    assigned n num (λ j, if decide (Z.of_nat j < k) then tabs ++ [r] else tabs)
      (λ j, if decide (Z.of_nat j < k) then S i else i) ws'))].
  - intros ws' s' (-> & Hf' & Ha'). split_and!; [done..|]. intros j w Hj Hlt.
    specialize (Ha' j w Hj Hlt). cbv beta in Ha'. by rewrite !decide_True in Ha' by lia.
  - split_and!; [done..|]. intros j w Hj Hlt. rewrite !decide_False by lia. by apply Ha.
  - intros k ws' s' Hk (-> & Hf' & Ha').
    destruct (lookup_lt_is_Some_2 (entries r) (Z.to_nat k)) as [x Hx]; [lia|].
    apply wp_bind. eapply wp_entry; [exact Hx|]. destruct (Z.ltb_spec k MAX_WORKERS); [|lia].
    destruct (array_lookup ws' (Z.to_nat k) Hf') as [w0 Hw0]; [lia|].
    pose proof (proj2 Hf' _ _ Hw0) as Hl0.
    apply wp_bind. eapply wp_of_option; [exact Hw0|]. apply wp_bind, store_ok; [lia|].
    rewrite Nat2Z.id. apply store_ok; [by eapply lookup_lt_Some|].
    split_and!; [done|apply array_insert; [done|simpl; by rewrite length_insert]|].
    intros j w [(<- & <- & _)|[Hne Hj]]%list_lookup_insert_Some Hlt; simpl.
    + rewrite !decide_True by lia. destruct (Ha' _ _ Hw0 Hlt) as (? & ? & Ht).
      cbv beta in Ht. rewrite !decide_False in Ht by lia. split_and!; [done..|].
      erewrite take_S_r by (apply list_lookup_insert_eq; lia).
      by rewrite take_insert_ge, Ht, (column_snoc _ _ _ x).
    + destruct (Ha' _ _ Hj Hlt) as (? & ? & Ht). cbv beta in Ht. split_and!; [done..|].
      destruct (decide (Z.of_nat j < k)); [by rewrite !decide_True by lia|by rewrite !decide_False by lia].
Qed.

Lemma tables_app t t' : tables (t ++ t') = tables t ++ tables t'.
Proof. apply omap_app. Qed.

(** The workers' arguments are filled from as many tables as there are
    interfaces, each with as many queues as there are workers. *)
Definition distributed (n num : Z) s ws s' : Prop :=
  array_fine ws ∧ ∃ t, trace s' = trace s ++ t ∧ Z.of_nat (length (tables t)) = n ∧
    Forall (λ r, length (entries r) = Z.to_nat num) (tables t) ∧
    assigned n num (λ _, tables t) (λ _, Z.to_nat n) ws.

(** The process ended because an interface has too few queues. *)
Definition too_few (num : Z) s s' : Prop :=
  ∃ t io r, trace s' = trace s ++ t ++ [(A_pktin_queue io num, r)] ∧ r_val r ≠ num.

(** State of the loop over the interfaces. *)
Definition distributing (n num : Z) s (i : Z) ws s' : Prop :=
  neutral s s' ∧ array_fine ws ∧ ∃ t, trace s' = trace s ++ t ∧
    Z.of_nat (length (tables t)) = i ∧ Forall (λ r, length (entries r) = Z.to_nat num) (tables t) ∧
    assigned n num (λ _, tables t) (λ _, Z.to_nat i) ws.

Lemma distribute_ok s es n num i ws s1 :
  listed (heap_of (glob s)) es → 0 ≤ i < Z.of_nat (length es) → num ≤ MAX_WORKERS →
  i < NFP_FP_INTERFACE_MAX → distributing n num s i ws s1 →
  ends (name ← interface_name i;
        pktio ← callv (A_pktio_lookup name);
        if pktio =? 0 then mret (inr ws)
        else
          q ← call (A_pktin_queue pktio num);
          if negb (r_val q =? num) then exit EXIT_FAILURE
          else
            workers ← for_acc 0 (Z.to_nat num) (λ j workers,
                        h ← entry_at q j;
                        if j <? MAX_WORKERS then store_pktin workers j i h else stuck) ws;
            mret (inl workers))
    (λ r s', match r with inl ws' => distributing n num s (i + 1) ws' s' | inr _ => neutral s s' end)
    (λ c s', c = EXIT_FAILURE ∧ neutral s s' ∧ too_few num s s') s1.
Proof.
  intros Hl Hi Hnum Hmax (Hn1 & Hf & t & Ht & Hlt & Hall & Ha).
  apply ends_bind, ends_wp. eapply (interface_name_ok s1 es); [by rewrite (neutral_heap _ _ Hn1)|done|].
  intros name. apply ends_bind, ends_wp, wp_callv. intros r2 w2 E2. set (s2 := after s1 _ r2 w2).
  assert (Hn2 : neutral s s2) by (etrans; [exact Hn1|by apply neutral_after]).
  destruct (_ =? 0); [by apply ends_wp, wp_ret|].
  apply ends_bind, ends_wp, wp_call. intros q w3 E3. set (s3 := after s2 _ q w3).
  assert (Hn3 : neutral s s3) by (etrans; [exact Hn2|by apply neutral_after]).
  assert (Ht3 : trace s3 = trace s ++ (t ++ [(A_pktio_lookup name, r2)]) ++ [(A_pktin_queue (r_val r2) num, q)]).
  { simpl. by rewrite Ht, <- !app_assoc. }
  destruct (Z.eqb_spec (r_val q) num) as [Hq|Hq]; cbn [negb].
  2: { apply ends_exit. split_and!; [done..|]. by eexists _, _, _. }
  pose proof (length_entries q (queue_table _ _ _ _ _ E3)) as Hlen. rewrite Hq in Hlen.
  apply ends_bind, ends_wp. replace i with (Z.of_nat (Z.to_nat i)) by lia.
  eapply wp_mono; [|eapply (workers_given n num (Z.to_nat i) (tables t) q); [done|done|lia|done|exact Ha]].
  rewrite Z2Nat.id by lia. intros ws' s' (-> & Hf' & Ha'). apply ends_wp, wp_ret.
  split_and!; [done..|]. eexists. split; [exact Ht3|]. rewrite !tables_app. simpl. rewrite app_nil_r.
  split_and!.
  - rewrite length_app. simpl. lia.
  - by apply Forall_snoc_iff.
  - by replace (Z.to_nat (i + 1)) with (S (Z.to_nat i)) by lia.
Qed.

Lemma workers_arg_ok s es num ws :
  listed (heap_of (glob s)) es → Z.of_nat (length es) ≤ NFP_FP_INTERFACE_MAX →
  num ≤ MAX_WORKERS → array_fine ws →
  ends (configure_workers_arg num ws)
    (λ r s', neutral s s' ∧ (r.1 = 0 ∧ distributed (Z.of_nat (length es)) num s r.2 s' ∨ r.1 = -1))
    (λ c s', c = EXIT_FAILURE ∧ neutral s s' ∧ too_few num s s') s.
Proof.
  intros Hl Hmax Hnum Hf. apply ends_bind, ends_wp, wp_getg. pose proof (proj1 Hl) as Hn. rewrite Hn.
  apply workers_reset; [done..|]. intros ws' Hf' Ha.
  apply ends_bind. eapply ends_mono; [|intros ? ? Hx; exact Hx|eapply (ends_for_ret _ (distributing (Z.of_nat (length es)) num s)
    (λ _ s', neutral s s'))].
  - intros [ws2|ws2] s2 Hr; apply ends_wp, wp_ret; [|by auto]. rewrite Z.add_0_l, Nat2Z.id in Hr.
    destruct Hr as (Hn2 & Hf2 & t & ?). split; [done|]. left. split; [done|]. split; [done|]. by exists t.
  - split_and!; [done..|]. exists []. rewrite app_nil_r. by split_and!.
  - intros i ws2 s2 Hi Hd. eapply distribute_ok; [done|lia|done|lia|done].
Qed.

(** [workers_arg] is unchanged by the start of the threads; all of them or, on
    failure, those before the failed one have been started. *)
Lemma create_ok single first num s rs :
  0 ≤ num →
  wp (create_workers single first num) (λ r s', glob s' = glob s ∧
    started (match r with inl _ => Z.to_nat num | inr i => Z.to_nat i end) s rs s' ∧
    match r with inl _ => True | inr i => 0 ≤ i end) s.
Proof.
  intros Hnum. eapply wp_mono; [|eapply (wp_for_ret _ (λ i _ s', glob s' = glob s ∧ started (Z.to_nat i) s rs s')
    (λ i s', glob s' = glob s ∧ started (Z.to_nat i) s rs s' ∧ 0 ≤ i))].
  - intros [[]|i] s' H; [|done]. rewrite Z.add_0_l, Nat2Z.id in H. destruct H. by split_and!.
  - split; [done|apply started_0].
  - intros i [] s1 Hi [Hg (k & Hk & Hm)]. apply wp_bind, wp_callv. intros r w E.
    destruct (Z.eqb_spec (r_val r) 1) as [Hr|Hr]; cbn [negb]; apply wp_ret.
    + split; [done|]. replace (Z.to_nat (i + 1)) with (S (Z.to_nat i)) by lia.
      apply started_create. by exists k.
    + split_and!; [done| |lia]. exists k. split; [done|]. eapply moves_trans; [exact Hm|].
      apply moves_after. unfold hold. cbn [fst snd]. by rewrite (proj2 (Z.eqb_neq _ _) Hr).
Qed.

(** ** The queues are shared out *)

Lemma bind_cons_perm {A B} (f : A → B) (g : A → list B) (l : list A) :
  (l ≫= λ x, f x :: g x) ≡ₚ (f <$> l) ++ (l ≫= g).
Proof.
  induction l as [|x l IH]; [done|]. cbn. f_equiv.
  rewrite IH, !app_assoc. f_equiv. apply Permutation_app_comm.
Qed.

Lemma fmap_lookup_seq (l : list Z) : (λ j, default 0 (l !! j)) <$> seq 0 (length l) = l.
Proof.
  apply list_eq. intros i. rewrite list_lookup_fmap.
  destruct (decide (i < length l)%nat) as [Hi|Hi].
  - rewrite lookup_seq_lt by done. simpl. by destruct (lookup_lt_is_Some_2 l i Hi) as [x ->].
  - rewrite lookup_seq_ge by lia. by rewrite (lookup_ge_None_2 l i) by lia.
Qed.

(** The columns of a full matrix have the entries of its rows. *)
Lemma columns_perm num (tabs : list (areply F)) :
  Forall (λ r, length (entries r) = num) tabs →
  (seq 0 num ≫= λ j, column j tabs) ≡ₚ tabs ≫= entries.
Proof.
  induction tabs as [|r tabs IH]; intros Hall.
  { clear Hall. induction (seq 0 num); simpl; [done|]. by rewrite IHl. }
  apply Forall_cons in Hall as [Hr Hall].
  transitivity (seq 0 num ≫= λ j, default 0 (entries r !! j) :: column j tabs).
  { apply reflexive_eq, Forall_bind_ext, Forall_forall. intros j Hj%elem_of_seq. unfold column. simpl.
    destruct (lookup_lt_is_Some_2 (entries r) j) as [x ->]; [lia|done]. }
  rewrite bind_cons_perm, <- Hr, fmap_lookup_seq, Hr, IH by done. done.
Qed.

Lemma taken_columns (ws : list worker_arg) tabs num :
  (num ≤ length ws)%nat →
  (∀ j w, ws !! j = Some w → (j < num)%nat → queues_of w = column j tabs) →
  take num ws ≫= queues_of = seq 0 num ≫= λ j, column j tabs.
Proof.
  intros Hlen Hw. induction num as [|num IH]; [by rewrite take_0|].
  destruct (lookup_lt_is_Some_2 ws num) as [w Hl]; [lia|].
  rewrite (take_S_lookup _ _ _ Hl), seq_S, !bind_app, IH by (lia || (intros; apply Hw; [done|lia])).
  cbn. by rewrite !app_nil_r, (Hw _ _ Hl) by lia.
Qed.

(** [C12] The input queues are shared out among the workers: after
    [configure_workers_arg] succeeds, each interface has given as many queues
    as there are workers; worker [j] has the [j]-th queue of every interface,
    in the order of the interfaces, so that the queues of all workers together
    are all the queues, each once; and only the first worker has the timers.
    It fails with -1 when an interface is not found, and ends the process when
    an interface has another number of queues. *)
Theorem queues_shared_out b0 ps s num ws :
  holds b0 ps (heap_of (glob s)) →
  1 ≤ CliArgParse.if_count (heap_of (glob s)) ≤ NFP_FP_INTERFACE_MAX →
  0 ≤ num ≤ MAX_WORKERS → array_fine ws →
  ∃ o s' t, configure_workers_arg num ws s = (o, s') ∧ trace s' = trace s ++ t ∧ glob s' = glob s ∧
    match o with
    | Ret (rc, ws') =>
        rc = -1 ∨
        rc = 0 ∧ Z.of_nat (length (tables t)) = CliArgParse.if_count (heap_of (glob s)) ∧
        Forall (λ r, length (entries r) = Z.to_nat num) (tables t) ∧
        (∀ j w, ws' !! j = Some w → Z.of_nat j < num →
           arg_fine w ∧ process_timers w = bool_decide (j = 0%nat) ∧ queues_of w = column j (tables t)) ∧
        take (Z.to_nat num) ws' ≫= queues_of ≡ₚ tables t ≫= entries
    | Exit c => c = EXIT_FAILURE ∧ ∃ t' io r, t = t' ++ [(A_pktin_queue io num, r)] ∧ r_val r ≠ num
    | _ => False
    end.
Proof.
  intros Hh Hcnt Hnum Hf. destruct (holds_listed _ _ _ Hh) as [es Hl]; [lia|].
  pose proof (proj1 Hl) as Hn. rewrite Hn in *.
  destruct (workers_arg_ok s es num ws Hl) as (o & s' & Hrun & Ho); [lia..|done|].
  destruct o as [[rc ws']|c| |]; [|..|done|done].
  - destruct Ho as [(_ & Hg & Hm) [(Hrc & Hf' & t & Ht & Hlen & Hall & Ha)|Hrc]].
    + exists (Ret (rc, ws')), s', t. split_and!; [done..|]. right.
      assert (Hw : ∀ j w, ws' !! j = Some w → Z.of_nat j < num →
        arg_fine w ∧ process_timers w = bool_decide (j = 0%nat) ∧ queues_of w = column j (tables t)).
      { intros j w Hj Hlt. destruct (Ha j w Hj Hlt) as (Hnw & ? & Hc). pose proof (proj2 Hf' j w Hj) as Hlw.
        unfold queues_of, arg_fine. rewrite Hnw. split_and!; [lia..|done|done]. }
      split_and!; [done..|]. destruct Hf' as [Hl' _]. simpl in Hl'.
      rewrite <- (columns_perm (Z.to_nat num)) by done. apply reflexive_eq, taken_columns; [lia|].
      intros j w Hj Hlt. apply Hw; [done|lia].
    + destruct (Hm []) as (t & Ht & _). exists (Ret (rc, ws')), s', t. split_and!; [done..|]. by left.
  - destruct Ho as (-> & (_ & Hg & _) & t & io & r & Ht & Hr).
    exists (Exit EXIT_FAILURE), s'. eexists. split_and!; [done|exact Ht|done|done|]. by exists t, io, r.
Qed.
End Configure.

(** ** [main] *)

(** The number of cores is a small [int]. *)
Class CpuLaws (W F : Type) `{!App W F} :=
  cpu_count_range w r w' : api (A_cpu_count : acall F) w = (r, w') → 0 ≤ r_val r < 2 ^ 30.

Section Start.
Context {W F : Type} `{!App W F, !SocketLaws W F, !PacketLaws W F, !CpuLaws W F}.
Local Abbreviation st := (app W F fpm_t).
Implicit Types (s : st).
Local Abbreviation neutral := (Resources.neutral (λ g : fpm_t, g)).

(** What holds when [exit] is called. *)
Definition exited (b0 : memory) s (c : Z) s' : Prop :=
  (c = EXIT_SUCCESS ∨ c = EXIT_FAILURE) ∧
  (ended 1 b0 s s' ∨ c = EXIT_FAILURE ∧ moves s [] s' [R_nfp] ∧ ∃ num, too_few num s s').

Definition returned (b0 : memory) s (rc : Z) s' : Prop :=
  (rc = EXIT_SUCCESS ∨ rc = EXIT_FAILURE) ∧ ended 1 b0 s s'.

Lemma give_up_ok b0 s0 s (Q : Z → st → Prop) :
  working 1 b0 0 s0 s → ends (terminate;; exit EXIT_FAILURE) Q (exited b0 s0) s.
Proof.
  intros Hr. apply ends_bind, ends_wp. eapply wp_mono; [|by apply (terminate_ok 1 b0)].
  intros [] s' He. apply ends_exit. split; [by right|by left].
Qed.

(** Threads are joined before the stack is stopped. *)
Lemma stop_workers_ok b0 n s0 s m :
  working 1 b0 n s0 s → (n ≤ Z.to_nat m)%nat →
  wp (stop_workers m) (returned b0 s0) s.
Proof.
  intros Hw Hle. eapply (wp_neutral (λ g, g)); [frame|apply any_call_|]. intros [] s1 _ Hn1.
  pose proof (working_neutral _ _ _ _ _ _ Hw Hn1) as Hw1.
  apply wp_bind, wp_call_. intros r2 w2 E2. pose proof (working_join _ _ _ _ _ m r2 w2 Hw1) as Hw2.
  replace (n - Z.to_nat m)%nat with 0%nat in Hw2 by lia.
  apply wp_bind. eapply wp_mono; [|by eapply terminate_ok].
  intros [] s' He. apply wp_ret. split; [by right|done].
Qed.

(** From the configuration of addresses to the end. *)
Lemma main_end_ok b0 s0 s num ids a es :
  working 1 b0 (Z.to_nat num) s0 s → readable (heap (glob s)) (cli_file a) →
  listed (heap (glob s)) es → (length es ≤ length ids)%nat →
  wp (r ← configure_interface_addresses ids;
      if negb (r =? 0) then stop_workers num
      else
        file ← arg_string (cli_file a);
        r ← callv (A_cli_process_file file);
        if negb (r =? 0) then stop_workers num
        else
          call_ (A_thread_join num);;
          call_ A_terminate;;
          on_heap parse_args_cleanup;;
          mret 0) (returned b0 s0) s.
Proof.
  intros Ht Hr Hl Hle.
  eapply (wp_neutral (λ g, g)); [apply neutral_addresses|by eapply addresses_ok|]. intros rc s1 _ Hn1.
  pose proof (working_neutral _ _ _ _ _ _ Ht Hn1) as Ht1. destruct (negb _); [by eapply stop_workers_ok|].
  eapply (wp_neutral (λ g, g)); [frame|apply arg_string_ok; simpl; by destruct Hn1 as (_ & -> & _)|].
  intros file s2 _ Hn2. eapply (wp_neutral (λ g, g)); [frame|apply any_callv|]. intros rc2 s3 _ Hn3.
  pose proof (working_neutral _ _ _ _ _ _ (working_neutral _ _ _ _ _ _ Ht1 Hn2) Hn3) as Ht3.
  destruct (negb _); [by eapply stop_workers_ok|].
  apply wp_bind, wp_call_. intros r w E. pose proof (working_join _ _ _ _ _ num r w Ht3) as Hrun.
  rewrite Nat.sub_diag in Hrun. apply wp_assoc, wp_bind. eapply wp_mono; [|by apply (terminate_ok 1 b0 s0)].
  intros [] s' He. apply wp_ret. split; [by left|done].
Qed.

Lemma neutral_sigaction : keeps neutral (nfpexpl_sigaction_set : M st Z).
Proof. unfold nfpexpl_sigaction_set, linux_sigaction. frame. Qed.

Lemma sigaction_ok s : wp (nfpexpl_sigaction_set : M st Z) (λ _ _, True) s.
Proof. unfold nfpexpl_sigaction_set, linux_sigaction. runs. Qed.

(** With the stack running and the cores chosen. *)
Lemma main_run_ok b0 s0 s a first num ws :
  working 1 b0 0 s0 s → accepted b0 a (heap (glob s)) → 0 ≤ num ≤ MAX_WORKERS → array_fine ws →
  ends (c ← configure_interfaces (num + 1) num (replicate (Z.to_nat NFP_FP_INTERFACE_MAX) (0, 0));
        if negb (c.1 =? 0) then terminate;; exit EXIT_FAILURE
        else
          w ← configure_workers_arg num ws;
          if negb (w.1 =? 0) then terminate;; exit EXIT_FAILURE
          else
            t ← create_workers (single_pkt_API a) first num;
            match t with
            | inr i => stop_workers i
            | inl _ =>
                r ← configure_interface_addresses c.2;
                if negb (r =? 0) then stop_workers num
                else
                  file ← arg_string (cli_file a);
                  r ← callv (A_cli_process_file file);
                  if negb (r =? 0) then stop_workers num
                  else
                    call_ (A_thread_join num);;
                    call_ A_terminate;;
                    on_heap parse_args_cleanup;;
                    mret 0
            end) (returned b0 s0) (exited b0 s0) s.
Proof.
  intros Hr ([Hh Hm] & Hcnt) Hnum Hf. destruct (holds_listed _ _ _ Hh) as [es Hl]; [lia|].
  pose proof (proj1 Hl) as Hn.
  assert (Hle : (length es ≤ length (replicate (Z.to_nat NFP_FP_INTERFACE_MAX) (0%Z, 0%Z)))%nat).
  { rewrite length_replicate. lia. }
  eapply (ends_neutral (λ g, g)); [apply neutral_interfaces|by apply (interfaces_created s es)|].
  intros c s1 Hlen Hn1. pose proof (working_neutral _ _ _ _ _ _ Hr Hn1) as Hr1.
  destruct (negb _); [by apply give_up_ok|]. assert (Hle' : (length es ≤ length c.2)%nat) by (rewrite Hlen; exact Hle).
  assert (Hl1 : listed (heap_of (glob s1)) es) by (rewrite (neutral_heap _ _ Hn1); done).
  apply ends_bind. eapply ends_mono; [| |apply (workers_arg_ok s1 es num ws Hl1); [lia..|done]].
  2: { intros ? s2 (-> & Hn2 & t & io & r & Ht & Hne). split; [by right|]. right.
       pose proof (working_neutral _ _ _ _ _ _ Hr1 Hn2) as [_ Hm2%threads_none]. split_and!; [done..|]. exists num.
       destruct Hr1 as [_ (t1 & Ht1 & _)%threads_none]. exists (t1 ++ t), io, r. by rewrite Ht, Ht1, <- !app_assoc. }
  intros [rc ws'] s2 [Hn2 _]. pose proof (working_neutral _ _ _ _ _ _ Hr1 Hn2) as Hr2.
  destruct (negb _); [by apply give_up_ok|]. apply ends_wp, wp_bind.
  eapply wp_mono; [|apply (create_ok _ first num s2 []); lia]. intros t s3 (Hg3 & Hst & Hi).
  destruct Hr2 as [Hh2 Hm2].
  assert (Hth : working 1 b0 (match t with inl _ => Z.to_nat num | inr i => Z.to_nat i end) s0 s3).
  { split; [by rewrite Hg3|]. exists s2. split; [by apply threads_none|done]. }
  destruct t as [[]|i]; [|by eapply stop_workers_ok].
  assert (Hheap : heap (glob s3) = heap (glob s)).
  { rewrite Hg3. destruct Hn2 as (_ & -> & _), Hn1 as (_ & -> & _). done. }
  apply (main_end_ok b0 s0 s3 num c.2 a es); [done| |by rewrite Hheap|done].
  rewrite Hheap. destruct (cli_file a) as [p|] eqn:Hc; [|done].
  apply (holds_readable _ _ _ _ Hh). unfold copies. rewrite Hc. simpl. set_solver.
Qed.

(** [C8] [main] ends on every path, by returning or by [exit], with 0 or 1.
    Whatever fails on the way, the stack has been terminated after the threads
    that were started were joined, and the interface list has been freed; the
    copy of the name of the CLI file is all that may be left in memory.  The
    one exception is an interface with the wrong number of input queues: then
    the process exits with the stack still running.  Each option is given at
    most once, core numbers are below 2^30, and memory does not run out. *)
Theorem fpm_main_releases_resources b0 fuel opts ws s :
  ready b0 (heap (glob s)) → Forall (opt_ok b0 fuel) opts → NoDup opts.*1 → array_fine ws →
  ∃ o s' t, main fuel opts ws s = (o, s') ∧ trace s' = trace s ++ t ∧
    match o with Ret c | Exit c => c = EXIT_SUCCESS ∨ c = EXIT_FAILURE | _ => False end ∧
    (spare 1 b0 (heap (glob s')) ∧ held [] t = Some [] ∨
     o = Exit EXIT_FAILURE ∧ held [] t = Some [R_nfp] ∧
     ∃ t' io num r, t = t' ++ [(A_pktin_queue io num, r)] ∧ r_val r ≠ num).
Proof.
  intros Hready Hok Hnd Hf.
  enough (ends (main fuel opts ws) (returned b0 s) (exited b0 s) s) as (o & s' & Hrun & Ho).
  { destruct o as [c|c| |]; [| |done..].
    - destruct Ho as (Hc & He & t & Ht & Hheld). exists (Ret c), s', t. split_and!; [done..|]. by left.
    - destruct Ho as (Hc & [(He & t & Ht & Hheld)|(-> & (t & Ht & Hheld) & num & t' & io & r & Ht' & Hr)]);
        eexists _, s', t; (split_and!; [done..|]); [by left|right]. split_and!; [done..|].
      exists t', io, num, r. split; [|done]. rewrite Ht in Ht'. by apply app_inv_head in Ht'. }
  eapply (ends_neutral (λ g, g)); [apply neutral_sigaction|apply sigaction_ok|].
  intros r0 s1 _ Hn1.
  assert (Hready1 : ready b0 (heap (glob s1))) by (by destruct Hn1 as (_ & -> & _)).
  assert (Hm1 : moves s [] s1 []) by apply Hn1.
  pose proof (ready_spare 1 _ _ Hready1) as Hspare.
  destruct (negb _); [apply ends_wp, wp_ret; by split; [right|]|].
  apply ends_bind, ends_on_heap. eapply ends_mono; [| |by apply (fpm_parse_args_ok b0)].
  2: { intros c h [-> Hs]. split; [by left|]. left. by split. }
  intros [prc a] h Hres. simpl in Hres. apply ends_bind, ends_wp, wp_setg. cbn [fst snd].
  set (s2 := MkApp _ _ _ _). assert (Hm2 : moves s [] s2 []) by exact Hm1.
  destruct Hres as [[-> Hacc]|[-> Hs]]; [|apply ends_wp, wp_ret; by split; [right|]].
  cbn [negb]. change (EXIT_SUCCESS =? EXIT_SUCCESS) with true. cbn [negb].
  apply ends_bind, ends_wp, wp_callv. intros r w E. set (s3 := after s2 _ r w).
  assert (Hk : kept 1 b0 (heap (glob s3))) by (eapply parsed_kept, Hacc).
  destruct (Z.eqb_spec (r_val r) 0) as [Hr|Hr]; cbn [negb].
  2: { apply ends_bind, ends_wp. eapply wp_mono; [|by apply release_ok]. intros [] s4 (Ht & _ & Hs).
       apply ends_exit. split; [by right|]. left. split; [done|]. eapply moves_trans; [exact Hm2|].
       exists [(A_initialize 0 [], r)]. split; [by rewrite Ht|]. cbn -[Z.eqb].
       by rewrite (proj2 (Z.eqb_neq _ _) Hr). }
  assert (Hrun : working 1 b0 0 s s3).
  { split; [done|]. apply threads_none. eapply moves_trans; [exact Hm2|]. apply moves_after. unfold hold. cbn [fst snd].
    by rewrite (proj2 (Z.eqb_eq _ _) Hr). }
  assert (Hcores : wp (validate_cores_settings (core_start a) (core_count a) : M st _) (λ o _,
    match o with Some (_, num) => 0 ≤ num ≤ MAX_WORKERS | None => True end) s3).
  { destruct Hacc as [[_ [? ?]] _]. eapply wp_mono; [|apply cores_ok; [apply cpu_count_range|done|done]].
    intros o s4 (r4 & w4 & _ & _ & ->). unfold cores_of. case_decide; [lia|done]. }
  eapply (ends_neutral (λ g, g)); [apply neutral_cores|exact Hcores|].
  intros o s4 Ho Hn4. pose proof (working_neutral _ _ _ _ _ _ Hrun Hn4) as Hrun4.
  destruct o as [[first num]|]; [|by apply give_up_ok].
  apply main_run_ok; [done| |done|done]. by destruct Hn4 as (_ & -> & _).
Qed.
End Start.

(** ** Witnesses *)

#[global] Instance demo_cpus : CpuLaws demo (gset Z).
Proof. intros w r w' E. simpl in E. injection E as <- <-. simpl. lia. Qed.

(** The command line "-i eth0", and what it is parsed to. *)
Definition demo_memory : CliArgParse.state := CliArgParseProofs.sample "eth0".
Definition demo_opts : list (Z * CliArgParse.ptr) := [(105, (1%positive, 0%nat))].
Definition demo_workers : list worker_arg := replicate 64 (WorkerArg 0 (replicate 8 0) false).
Definition demo_fpm : app demo (gset Z) fpm_t :=
  MkApp (Demo 3 3) 0 [] (Fpm demo_memory (ApplArgs 0 0 None false)).
Definition demo_parsed : app demo (gset Z) fpm_t :=
  MkApp (Demo 3 3) 0 [] (Fpm (parse_args 2060 demo_opts demo_memory).2 (ApplArgs 0 1 None false)).

Lemma demo_array : array_fine demo_workers.
Proof. split; [done|]. by intros j w [-> _]%lookup_replicate. Qed.

Lemma demo_opts_ok : Forall (opt_ok (CliArgParse.blocks demo_memory) 2060) demo_opts.
Proof.
  apply Forall_singleton. split; [|intros t [Hx|Hx]; discriminate]. intros _.
  apply (whole_arg _ _ _ (text "eth0")); [done|apply (bool_decide_unpack _); by vm_compute|by vm_compute|vm_compute; lia].
Qed.

Lemma demo_ready : ready (CliArgParse.blocks demo_memory) demo_memory.
Proof. split_and!; [done|apply CliArgParseProofs.sample_good|done]. Qed.

Lemma demo_accepted : holds (CliArgParse.blocks demo_memory) [] (heap (glob demo_parsed)).
Proof.
  destruct (fpm_parse_args_ok _ 2060 demo_opts demo_memory demo_ready demo_opts_ok) as (o & h & Hrun & Ho);
    [apply NoDup_singleton|].
  assert (Hfst : (parse_args 2060 demo_opts demo_memory).1 = Ret (0, ApplArgs 0 1 None false)) by (by vm_compute).
  unfold demo_parsed. simpl. rewrite Hrun in Hfst |- *. simpl in *. subst o.
  destruct Ho as [(_ & [[Hh _] _])|[? _]]; [exact Hh|done].
Qed.

Lemma queues_shared_out_witness :
  ∃ o s' t, configure_workers_arg 3 demo_workers demo_parsed = (o, s') ∧
    trace s' = trace demo_parsed ++ t ∧ glob s' = glob demo_parsed ∧
    match o with
    | Ret (rc, ws') =>
        rc = -1 ∨
        rc = 0 ∧ Z.of_nat (length (tables t)) = CliArgParse.if_count (heap_of (glob demo_parsed)) ∧
        Forall (λ r, length (entries r) = Z.to_nat 3) (tables t) ∧
        (∀ j w, ws' !! j = Some w → Z.of_nat j < 3 →
           arg_fine w ∧ process_timers w = bool_decide (j = 0%nat) ∧ queues_of w = column j (tables t)) ∧
        take (Z.to_nat 3) ws' ≫= queues_of ≡ₚ tables t ≫= entries
    | Exit c => c = EXIT_FAILURE ∧ ∃ t' io r, t = t' ++ [(A_pktin_queue io 3, r)] ∧ r_val r ≠ 3
    | _ => False
    end.
Proof.
  apply (queues_shared_out (W := demo) (F := gset Z) (CliArgParse.blocks demo_memory) []);
    [exact demo_accepted|by vm_compute|done|exact demo_array].
Defined.

Lemma fpm_main_releases_resources_witness :
  ∃ o s' t, main 2060 demo_opts demo_workers demo_fpm = (o, s') ∧ trace s' = trace demo_fpm ++ t ∧
    match o with Ret c | Exit c => c = EXIT_SUCCESS ∨ c = EXIT_FAILURE | _ => False end ∧
    (spare 1 (CliArgParse.blocks demo_memory) (heap (glob s')) ∧ held [] t = Some [] ∨
     o = Exit EXIT_FAILURE ∧ held [] t = Some [R_nfp] ∧
     ∃ t' io num r, t = t' ++ [(A_pktin_queue io num, r)] ∧ r_val r ≠ num).
Proof.
  apply (fpm_main_releases_resources (W := demo) (F := gset Z));
    [exact demo_ready|exact demo_opts_ok|apply NoDup_singleton|exact demo_array].
Defined.

End FpmDirectStart.
