(* ===== verification/UdpFwd.v ===== *)
(** * UDP forwarding (example/udp_fwd_socket)

    Datagrams that reach a range of local ports are sent on to a remote
    address: by a notification function on sockets, or by packet hooks that
    rewrite the headers (udp_fwd_socket.c); and the program around them, with
    the worker threads of fpm_direct, a thread for timers, the command line
    and [main] (app_main.c).

    [sock_array] and [raddr] are heap blocks: the integers of the array, and
    the fields [sin_len], [sin_family], [sin_port], [s_addr].  Printed
    information is left out. *)

From S2P Require Import Prelude App AppHeap CliArgParse TcpPerf Httpd2 FpmDirect.
Import App AppHeap.

Module UdpFwd.

Definition TEST_LPORT : Z := 5001.
Definition TEST_RPORT : Z := 5000.
Definition NFP_SOCK_DGRAM : Z := 2.
Definition NFP_IPPROTO_UDP : Z := 17.
Definition NFP_PKT_CONTINUE : Z := 0.
Definition MAX_WORKERS : Z := 64.
Definition NFP_FP_INTERFACE_MAX : Z := FpmDirect.NFP_FP_INTERFACE_MAX.
Definition EXIT_SUCCESS : Z := 0.
Definition EXIT_FAILURE : Z := 1.
(** The thread functions. *)
Definition THREAD_pkt_io_recv : Z := 30.
Definition THREAD_pkt_io_recv_single : Z := 31.
Definition THREAD_event_dispatcher : Z := 32.

(** [itf_param] is part of the heap model of CliArgParse. *)
Record appl_args_t := ApplArgs {
  core_count : Z;
  sock_count : Z;
  cli_file : option positive;
  laddr : option positive;
  args_raddr : option positive;
  single_pkt_API : bool;
}.

Record pktio_thr_arg := PktioThrArg { num_pktin : Z; pktin : list Z }.

(** Memory, [params], and the globals of udp_fwd_socket.c. *)
Record fwd_t := Fwd {
  heap : CliArgParse.state;
  params : appl_args_t;
  raddr : option positive;
  sock_array : option positive;
  sock_array_size : Z;
}.

Definition set_params (x : appl_args_t) (g : fwd_t) : fwd_t :=
  Fwd (heap g) x (raddr g) (sock_array g) (sock_array_size g).
Definition set_raddr (x : option positive) (g : fwd_t) : fwd_t :=
  Fwd (heap g) (params g) x (sock_array g) (sock_array_size g).
Definition set_sock_array (x : option positive) (g : fwd_t) : fwd_t :=
  Fwd (heap g) (params g) (raddr g) x (sock_array_size g).
Definition set_sock_array_size (x : Z) (g : fwd_t) : fwd_t :=
  Fwd (heap g) (params g) (raddr g) (sock_array g) x.

#[global] Program Instance fwd_heap : HasHeap fwd_t :=
  {| heap_of := heap;
     put_heap h g := Fwd h (params g) (raddr g) (sock_array g) (sock_array_size g) |}.
Next Obligation. done. Qed.
Next Obligation. by intros []. Qed.

(** ** Sockets (udp_fwd_socket.c) *)

Section Sockets.
Context {W F : Type} `{!App W F}.
Local Abbreviation MF := (M (app W F fwd_t)).

(** [inet_addr] and the byte order of the port. *)
Definition create_local_sock (lport : Z) (laddr_txt : bytes) : MF Z :=
  sd ← callv (A_socket NFP_AF_INET NFP_SOCK_DGRAM NFP_IPPROTO_UDP);
  if sd <? 0 then mret (-1)
  else
    addr ← callv (A_inet_addr laddr_txt);
    b ← callv (A_bind sd (Sin sizeof_sockaddr_in NFP_AF_INET (odp_cpu_to_be_16 (u16 lport)) addr
                            sizeof_sockaddr));
    if b <? 0 then call_ (A_close sd);; mret (-1)
    else
      e ← callv (A_socket_sigevent sd);
      if e =? -1 then call_ (A_close sd);; mret (-1)
      else mret sd.

(** One socket: [inr] is [return -1]. *)
Definition cfg_socket (arr : positive) (laddr_txt : bytes) (port_idx : Z) (_ : unit)
    : MF (unit + unit) :=
  sd ← create_local_sock (TEST_LPORT + port_idx) laddr_txt;
  if sd =? -1 then mret (inr ())
  else
    n ← getg sock_array_size;
    on_heap (CliArgParse.store_char (arr, Z.to_nat n) sd);;
    setg (set_sock_array_size (n + 1));;
    mret (inl ()).

(** The fields of the remote address. *)
Definition RADDR_len : nat := 0.
Definition RADDR_family : nat := 1.
Definition RADDR_port : nat := 2.
Definition RADDR_addr : nat := 3.

Definition udp_fwd_cfg (sock_count : Z) (laddr_txt raddr_txt : bytes) : MF Z :=
  setg (set_sock_array_size 0);;
  p ← on_heap (CliArgParse.alloc (CliArgParse.BStr (replicate (Z.to_nat sock_count) 0)));
  setg (set_sock_array p);;
  match p with
  | None => mret (-1)
  | Some arr =>
      r ← for_ret 0 (Z.to_nat sock_count) (cfg_socket arr laddr_txt) ();
      match r with
      | inr _ => mret (-1)
      | inl _ =>
          q ← on_heap (CliArgParse.alloc (CliArgParse.BStr [0; 0; 0; 0]));
          setg (set_raddr q);;
          match q with
          | None => mret (-1)
          | Some ra =>
              on_heap (CliArgParse.store_char (ra, RADDR_family) NFP_AF_INET);;
              on_heap (CliArgParse.store_char (ra, RADDR_port) (odp_cpu_to_be_16 TEST_RPORT));;
              addr ← callv (A_inet_addr raddr_txt);
              on_heap (CliArgParse.store_char (ra, RADDR_addr) addr);;
              on_heap (CliArgParse.store_char (ra, RADDR_len) sizeof_sockaddr_in);;
              mret 0
          end
      end
  end.

(** What [raddr] points to; NULL is [None]. *)
Definition remote : MF (option sin) :=
  ra ← getg raddr;
  match ra with
  | None => mret None
  | Some p =>
      l ← on_heap (CliArgParse.chars (p, 0%nat));
      match l with
      | [len; family; port; addr] => mret (Some (Sin len family port addr sizeof_sockaddr_in))
      | _ => stuck
      end
  end.

Definition notify (ss : Httpd2.sock_sigval) : MF Httpd2.sock_sigval :=
  let s := Httpd2.ss_sockfd ss in
  if negb (Httpd2.ss_event ss =? Httpd2.NFP_EVENT_RECV) then mret ss
  else
    call_ (A_udp_packet_parse (Httpd2.ss_pkt ss));;
    ra ← remote;
    call_ (A_udp_packet_sendto s (Httpd2.ss_pkt ss) ra);;
    mret (Httpd2.SockSigval (Httpd2.ss_event ss) (Httpd2.ss_sockfd ss) (Httpd2.ss_sockfd2 ss)
            Httpd2.ODP_PACKET_INVALID).

(** [nfp_close(sock_array[i])] *)
Definition close_socket (i : Z) : MF unit :=
  sa ← getg sock_array;
  arr ← of_option sa;
  l ← on_heap (CliArgParse.chars (arr, Z.to_nat i));
  fd ← of_option (head l);
  call_ (A_close fd).

Definition udp_fwd_cleanup : MF Z :=
  ra ← getg raddr;
  when (bool_decide (is_Some ra)) (on_heap (CliArgParse.free ra);; setg (set_raddr None));;
  n ← getg sock_array_size;
  when (negb (n =? 0)) (for_from 0 (Z.to_nat n) close_socket);;
  sa ← getg sock_array;
  when (bool_decide (is_Some sa)) (on_heap (CliArgParse.free sa);; setg (set_sock_array None));;
  mret 0.

(** ** Packet hooks *)

(** A packet from its IP header on is a list of bytes; 16- and 32-bit fields
    are stored in the order of a little-endian processor. *)
Definition get8 (l : bytes) (i : Z) : MF Z := of_option (l !! Z.to_nat i).
Definition put8 (l : bytes) (i v : Z) : MF bytes :=
  if decide (Z.to_nat i < length l)%nat then mret (<[Z.to_nat i := v]> l) else stuck.
Definition put16 (l : bytes) (i v : Z) : MF bytes :=
  l ← put8 l i (v mod 256); put8 l (i + 1) (v / 256 mod 256).
Definition put32 (l : bytes) (i v : Z) : MF bytes :=
  l ← put16 l i (v mod 2 ^ 16); put16 l (i + 2) (v / 2 ^ 16).

(** Offsets in the headers. *)
Definition ip_p : Z := 9.
Definition ip_sum : Z := 10.
Definition ip_dst : Z := 16.
Definition uh_dport : Z := 2.
Definition uh_sum : Z := 6.

(** What both hooks do with a datagram. *)
Definition forward_datagram (pkt : Z) (l : bytes) : MF Z :=
  b ← get8 l 0;
  let udp := Z.shiftl (Z.land b 15) 2 in
  hi ← get8 l (udp + uh_dport);
  lo ← get8 l (udp + uh_dport + 1);
  let lport := hi * 256 + lo in
  size ← getg sock_array_size;
  if (lport <? TEST_LPORT) || (TEST_LPORT + size - 1 <? lport) then mret NFP_PKT_CONTINUE
  else
    ra ← remote;
    ra ← of_option ra;
    l ← put32 l ip_dst (sin_addr ra);
    l ← put16 l ip_sum 0;
    l ← put16 l (udp + uh_dport) (sin_port ra);
    l ← put16 l (udp + uh_sum) 0;
    call_ (A_packet_store pkt l);;
    callv (A_ip_send pkt).

Definition packet_hook_ipv4 (pkt : Z) : MF Z :=
  r ← call (A_packet_l3 pkt);
  p ← get8 (r_data r) ip_p;
  if negb (p =? NFP_IPPROTO_UDP) then mret NFP_PKT_CONTINUE
  else forward_datagram pkt (r_data r).

Definition packet_hook_udpv4 (pkt : Z) : MF Z :=
  r ← call (A_packet_l3 pkt);
  forward_datagram pkt (r_data r).
End Sockets.

(** ** Threads (app_main.c) *)

Section Threads.
Context {W F G : Type} `{!App W F}.
Local Abbreviation MW := (M (app W F G)).

(** The dispatchers are those of fpm_direct, without timers. *)
Definition fpm_arg (arg : pktio_thr_arg) : FpmDirect.worker_arg :=
  FpmDirect.WorkerArg (num_pktin arg) (pktin arg) false.
Definition pkt_io_recv_single (fuel : nat) (arg : pktio_thr_arg) : MW Z :=
  FpmDirect.pkt_io_recv_single fuel (fpm_arg arg).
Definition pkt_io_recv (fuel : nat) (arg : pktio_thr_arg) : MW Z :=
  FpmDirect.pkt_io_recv fuel (fpm_arg arg).

Definition dispatcher_step (_ : unit) : MW (unit + unit) :=
  running ← callv A_is_running;
  if running =? 0 then mret (inr ())
  else
    r ← call A_schedule;
    let ev := r_val r in
    if ev =? TcpPerf.ODP_EVENT_INVALID then mret (inl ())
    else
      ty ← callv (A_event_type ev);
      if ty =? TcpPerf.ODP_EVENT_TIMEOUT then call_ (A_timer_handle ev);; mret (inl ())
      else
        ty ← callv (A_event_type ev);
        if ty =? TcpPerf.ODP_EVENT_PACKET then
          call_ (A_packet_input ev (r_out r));; call_ A_send_pending_pkt;; mret (inl ())
        else call_ (A_event_free ev);; mret (inl ()).

Definition event_dispatcher (fuel : nat) : MW Z :=
  state ← callv A_get_processing_state;
  if state =? 0 then mret (-1)
  else loop fuel dispatcher_step ();; mret 0.
End Threads.

(** ** The command line *)

Section Options.
Local Abbreviation MC := (M CliArgParse.state).

(** [cli_file], [laddr] and [raddr] are not freed. *)
Definition parse_args_cleanup : MC unit :=
  CliArgParse.nfpexpl_parse_interfaces_param_cleanup true.

(** [len = strlen(optarg); if (len == 0) {..} f = malloc(len + 1); ..;
    strcpy(f, optarg);] with [set] the assignment to the field [f]. *)
Definition copy_arg (optarg : CliArgParse.ptr) (a : appl_args_t)
    (set : option positive → appl_args_t) : MC (Z * appl_args_t) :=
  len ← CliArgParse.strlen optarg;
  if len =? 0 then mret (-1, a)
  else
    t ← CliArgParse.read_string optarg;
    p ← CliArgParse.alloc (CliArgParse.BStr (t ++ [0]));
    mret (match p with Some _ => 0 | None => -1 end, set p).

(** One option: [res] and the new arguments. *)
Definition parse_option (fuel : nat) (opt : Z * CliArgParse.ptr) (a : appl_args_t)
    : MC (Z * appl_args_t) :=
  let '(c, optarg) := opt in
  if c =? 99 (* c *) then
    n ← CliArgParse.atoi optarg;
    mret (0, ApplArgs n (sock_count a) (cli_file a) (laddr a) (args_raddr a) (single_pkt_API a))
  else if c =? 105 (* i *) then
    res ← CliArgParse.nfpexpl_parse_interfaces fuel (Some optarg) true;
    mret (if res =? EXIT_FAILURE then -1 else res, a)
  else if c =? 104 (* h *) then parse_args_cleanup;; exit EXIT_SUCCESS
  else if c =? 102 (* f *) then
    copy_arg optarg a
      (λ p, ApplArgs (core_count a) (sock_count a) p (laddr a) (args_raddr a) (single_pkt_API a))
  else if c =? 108 (* l *) then
    copy_arg optarg a
      (λ p, ApplArgs (core_count a) (sock_count a) (cli_file a) p (args_raddr a) (single_pkt_API a))
  else if c =? 114 (* r *) then
    copy_arg optarg a
      (λ p, ApplArgs (core_count a) (sock_count a) (cli_file a) (laddr a) p (single_pkt_API a))
  else if c =? 115 (* s *) then
    len ← CliArgParse.strlen optarg;
    bad ← (if len =? 0 then mret true
           else n ← CliArgParse.atoi optarg; mret (n <? 1));
    if (bad : bool) then mret (-1, a)
    else
      n ← CliArgParse.atoi optarg;
      mret (0, ApplArgs (core_count a) n (cli_file a) (laddr a) (args_raddr a) (single_pkt_API a))
  else if c =? 103 (* g *) then
    mret (0, ApplArgs (core_count a) (sock_count a) (cli_file a) (laddr a) (args_raddr a) true)
  else mret (0, a).

(** [while (res == 0)] *)
Fixpoint parse_options (fuel : nat) (opts : list (Z * CliArgParse.ptr)) (a : appl_args_t)
    : MC (Z * appl_args_t) :=
  match opts with
  | [] => mret (0, a)
  | o :: opts' =>
      r ← parse_option fuel o a;
      if r.1 =? 0 then parse_options fuel opts' r.2 else mret r
  end.

(** [opts] is what [getopt_long] finds: option characters with [optarg]. *)
Definition parse_args (fuel : nat) (opts : list (Z * CliArgParse.ptr)) : MC (Z * appl_args_t) :=
  modify (CliArgParse.set_if_count 0);;
  modify (CliArgParse.set_if_array None);;
  r ← parse_options fuel opts (ApplArgs 0 1 None None None false);
  let fail := parse_args_cleanup;; mret (EXIT_FAILURE, r.2) in
  if r.1 =? -1 then fail
  else
    n ← gets CliArgParse.if_count;
    if n =? 0 then fail
    else if NFP_FP_INTERFACE_MAX <? n then fail
    else if bool_decide (laddr r.2 = None) then fail
    else if bool_decide (args_raddr r.2 = None) then fail
    else mret (EXIT_SUCCESS, r.2).
End Options.

(** ** [main] *)

Section Main.
Context {W F : Type} `{!App W F}.
Local Abbreviation MF := (M (app W F fwd_t)).

(** [nfp_terminate(); parse_args_cleanup(&params);] *)
Definition terminate : MF unit :=
  call_ A_terminate;; on_heap parse_args_cleanup.

(** The function of fpm_direct, line by line. *)
Definition configure_interface_addresses (itf_id : list (Z * Z)) : MF Z :=
  FpmDirect.configure_interface_addresses itf_id.

(** The number of workers. *)
Definition workers_of (cpus core_count : Z) : Z :=
  let num_workers := cpus - 1 in
  let num_workers := if negb (core_count =? 0) && (core_count <? num_workers) then core_count
                     else num_workers in
  if MAX_WORKERS <? num_workers then MAX_WORKERS else num_workers.

(** [pktio_thr_args[j].pktin[i] = q] *)
Definition store_pktin {G} (args : list pktio_thr_arg) (j i q : Z)
    : M (app W F G) (list pktio_thr_arg) :=
  w ← of_option (args !! Z.to_nat j);
  queues ← FpmDirect.store (pktin w) i q;
  FpmDirect.store args j (PktioThrArg (num_pktin w) queues).

(** The body of the loop over the interfaces. *)
Definition open_interface (num_workers i : Z) (st : list (Z * Z) * list pktio_thr_arg)
    : MF (list (Z * Z) * list pktio_thr_arg) :=
  let '(itf_id, args) := st in
  let tx_queues := num_workers + 1 in
  name ← FpmDirect.interface_name i;
  c ← call (A_ifport_net_create name num_workers tx_queues);
  itf_id ← FpmDirect.store itf_id i (r_out c, r_out2 c);
  if r_val c <? 0 then terminate;; exit EXIT_FAILURE
  else
    pktio ← callv (A_pktio_lookup name);
    if pktio =? 0 then terminate;; exit EXIT_FAILURE
    else
      q ← call (A_pktin_queue pktio num_workers);
      if negb (r_val q =? num_workers) then on_heap parse_args_cleanup;; exit EXIT_FAILURE
      else
        o ← callv (A_pktout_queue pktio);
        if negb (o =? tx_queues) then terminate;; exit EXIT_FAILURE
        else
          args ← for_acc 0 (Z.to_nat num_workers) (λ j args,
                   h ← FpmDirect.entry_at q j; store_pktin args j i h) args;
          mret (itf_id, args).

(** The loop that starts the workers: the arguments and the number started. *)
Definition create_workers (num_workers : Z) (args : list pktio_thr_arg)
    : MF (list pktio_thr_arg + Z) :=
  for_ret 0 (Z.to_nat num_workers) (λ i args,
    n ← FpmDirect.if_count;
    w ← of_option (args !! Z.to_nat i);
    args ← FpmDirect.store args i (PktioThrArg n (pktin w));
    single ← getg (λ g, single_pkt_API (params g));
    r ← callv (A_thread_create
          (if single : bool then THREAD_pkt_io_recv_single else THREAD_pkt_io_recv) (1 + i));
    if negb (r =? 1) then mret (inr i) else mret (inl args)) args.

(** [nfp_stop_processing(); nfp_thread_join(..); nfp_terminate(); ...]: [n]
    workers and, when [timers], the dispatcher. *)
Definition stop_threads (n : Z) (timers : bool) : MF Z :=
  call_ A_stop_processing;;
  when (0 <? n) (call_ (A_thread_join n));;
  when timers (call_ (A_thread_join 1));;
  terminate;;
  mret EXIT_FAILURE.

(** From the sockets to the end. *)
Definition forward (num_workers : Z) (a : appl_args_t) : MF Z :=
  call_ (A_sleep 1);;
  l ← arg_string (laddr a);
  l ← of_option l;
  r ← arg_string (args_raddr a);
  r ← of_option r;
  rc ← udp_fwd_cfg (sock_count a) l r;
  when (negb (rc =? 0)) (call_ A_stop_processing);;
  call_ (A_thread_join num_workers);;
  call_ (A_thread_join 1);;
  _ ← udp_fwd_cleanup;
  call_ A_terminate;;
  on_heap parse_args_cleanup;;
  mret 0.

(** [linux_core] is the default of [linux_core_id]. *)
Definition main (fuel : nat) (linux_core : Z) (opts : list (Z * CliArgParse.ptr)) : MF Z :=
  r ← FpmDirect.nfpexpl_sigaction_set;
  if negb (r =? 0) then mret EXIT_FAILURE
  else
    p ← on_heap (parse_args fuel opts);
    setg (set_params p.2);;
    if negb (p.1 =? EXIT_SUCCESS) then mret EXIT_FAILURE
    else
      r ← callv (A_initialize 0 []);
      if negb (r =? 0) then on_heap parse_args_cleanup;; exit EXIT_FAILURE
      else
        cpus ← callv A_cpu_count;
        let num_workers := workers_of cpus (core_count p.2) in
        if num_workers <? 1 then terminate;; exit EXIT_FAILURE
        else
          n ← FpmDirect.if_count;
          st ← for_acc 0 (Z.to_nat n) (open_interface num_workers)
                 (replicate (Z.to_nat NFP_FP_INTERFACE_MAX) (0, 0),
                  replicate (Z.to_nat MAX_WORKERS)
                    (PktioThrArg 0 (replicate (Z.to_nat NFP_FP_INTERFACE_MAX) 0)));
          t ← create_workers num_workers st.2;
          match t with
          | inr i => stop_threads i false
          | inl _ =>
              d ← callv (A_thread_create THREAD_event_dispatcher linux_core);
              if negb (d =? 1) then stop_threads num_workers false
              else
                r ← configure_interface_addresses st.1;
                if negb (r =? 0) then stop_threads num_workers true
                else
                  file ← arg_string (cli_file p.2);
                  r ← callv (A_cli_process_file file);
                  if negb (r =? 0) then stop_threads num_workers true
                  else forward num_workers p.2
          end.
End Main.

End UdpFwd.
