(* ===== verification/UdpFwdProofs.v ===== *)
(** * UDP forwarding: sockets and packets

    The sockets and the memory of udp_fwd_socket.c from configuration to
    cleanup, and what notifications and hooks do with a datagram. *)

From S2P Require Import Prelude App AppProofs AppHeap Resources CliArgParse CliArgParseProofs ArgHeap HttpdTheorems Httpd2 FpmDirect UdpFwd.
Import App AppProofs AppHeap Resources CliArgParseProofs HttpdTheorems UdpFwd.

Module UdpFwdProofs.

(** ** Memory *)

Lemma store_int_ok h p l i c :
  CliArgParse.blocks h !! p = Some (CliArgParse.BStr l) → (i < length l)%nat →
  CliArgParse.store_char (p, i) c h =
    (Ret (), CliArgParse.set_blocks (<[p := CliArgParse.BStr (<[i := c]> l)]>) h).
Proof.
  intros Hp Hi. unfold CliArgParse.store_char. rewrite bind_gets. simpl. rewrite Hp.
  by rewrite decide_True.
Qed.

Lemma chars_ok h p l i :
  CliArgParse.blocks h !! p = Some (CliArgParse.BStr l) → (i < length l)%nat →
  CliArgParse.chars (p, i) h = (Ret (drop i l), h).
Proof.
  intros Hp Hi. unfold CliArgParse.chars. rewrite bind_gets. simpl. rewrite Hp. by rewrite decide_True.
Qed.

Lemma alloc_cases h b :
  ∃ p, CliArgParse.alloc b h = (Ret p, match p with
         | Some _ => alloc_state b h
         | None => CliArgParse.State (CliArgParse.blocks h) (CliArgParse.fresh_ptr h)
                     (CliArgParse.oracle h) (S (CliArgParse.allocs h))
                     (CliArgParse.if_count h) (CliArgParse.if_array h)
         end) ∧ (p = None ∨ p = Some (CliArgParse.fresh_ptr h)).
Proof.
  unfold CliArgParse.alloc. destruct (CliArgParse.oracle _ _); [exists (Some (CliArgParse.fresh_ptr h))|exists None]; auto.
Qed.

(** ** Sockets *)

Section Sockets.
Context {W F : Type} `{!App W F, !SocketLaws W F}.
Context (o0 : gset Z) (fuel : nat).
Local Abbreviation st := (app W F fwd_t).
Implicit Types (s : st) (fds : list Z).
Local Abbreviation fine := (AppProofs.fine any o0).
Hint Resolve any_lenient : core.

(** The addresses bound, with their descriptors. *)
Definition bound_by (e : event F) : list (Z * Z) :=
  match e.1 with A_bind fd a => if r_val e.2 <? 0 then [] else [(fd, sin_port a)] | _ => [] end.
Definition bound (t : list (event F)) : list (Z * Z) := t ≫= bound_by.

Lemma close_one live s fd :
  fine live fuel s → fd ∈ live →
  wp (call_ (A_close fd)) (λ _ s', fine (live ∖ {[fd]}) fuel s' ∧ glob s' = glob s) s.
Proof. intros Hf Hin. apply wp_call_. intros r w E.
  by destruct (fine_close _ _ _ _ _ _ _ _ any_lenient Hf Hin E). Qed.

(** A socket is made and bound, or nothing is left of it. *)
Definition sock_made live lport s (sd : Z) s' : Prop :=
  glob s' = glob s ∧
  (sd = -1 ∧ fine live fuel s' ∨
   0 ≤ sd ∧ (sd ∉ live) ∧ fine ({[sd]} ∪ live) fuel s' ∧
   ∃ t, trace s' = trace s ++ t ∧ bound t = [(sd, odp_cpu_to_be_16 (u16 lport))]).

Lemma create_local_sock_ok live s lport l :
  fine live fuel s → wp (create_local_sock lport l) (sock_made live lport s) s.
Proof.
  intros Hf. apply wp_bind, wp_callv. intros r w E.
  assert (Hok : call_ok any o0 live (A_socket NFP_AF_INET NFP_SOCK_DGRAM NFP_IPPROTO_UDP : acall F)) by done.
  pose proof (fine_open any o0 fuel _ _ (A_socket _ _ _) _ _ Hf eq_refl Hok E) as Hopen.
  destruct (Z.ltb_spec (r_val r) 0), (Z.leb_spec 0 (r_val r)); try lia.
  { apply wp_ret. split; [done|]. by left. }
  destruct Hopen as [Hx Hf1]. assert (Hin : r_val r ∈ {[r_val r]} ∪ live) by set_solver.
  assert (Hfail : ∀ s1, fine ({[r_val r]} ∪ live) fuel s1 → glob s1 = glob s →
    wp (call_ (A_close (r_val r));; mret (-1)) (sock_made live lport s) s1).
  { intros s1 Hs1 Hg. apply wp_bind. eapply wp_mono; [|by apply close_one].
    intros [] s2 [Hf2 Hg2]. apply wp_ret. split; [congruence|]. left. split; [done|].
    replace (({[r_val r]} ∪ live) ∖ {[r_val r]}) with live in Hf2; [done|]. clear -Hx. set_solver. }
  apply wp_bind, wp_callv. intros r2 w2 E2.
  assert (Hf2 := plain_call _ _ _ _ _ _ _ Hf1 E2 eq_refl ltac:(done)).
  apply wp_bind, wp_callv. intros r3 w3 E3.
  assert (Hf3 := plain_call _ _ _ _ _ _ _ Hf2 E3 eq_refl ltac:(by intros ? [= <-])).
  destruct (r_val r3 <? 0) eqn:Hr3; [by apply Hfail|].
  apply wp_bind, wp_callv. intros r4 w4 E4.
  assert (Hf4 := plain_call _ _ _ _ _ _ _ Hf3 E4 eq_refl ltac:(by intros ? [= <-])).
  destruct (_ =? -1); [by apply Hfail|]. apply wp_ret. split; [done|]. right. split_and!; [done..|].
  eexists. split; [simpl; by rewrite <- !app_assoc|].
  unfold bound, bound_by. cbn -[Z.ltb]. by rewrite Hr3.
Qed.

(** ** Configuration *)

(** The ports of the sockets, in order. *)
Definition port_of (i : nat) : Z := odp_cpu_to_be_16 (u16 (TEST_LPORT + Z.of_nat i)).

(** The descriptors [fds] are held, besides [o0]. *)
Definition holding fds s : Prop :=
  NoDup fds ∧ (∀ fd, fd ∈ fds → fd ∉ o0) ∧ fine (list_to_set fds ∪ o0) fuel s.

(** The array [arr], on top of [b0], has the descriptors [fds]. *)
Definition array_has (b0 : gmap positive CliArgParse.block) (arr : positive) (n : nat) fds s : Prop :=
  sock_array (glob s) = Some arr ∧ b0 !! arr = None ∧
  CliArgParse.blocks (heap (glob s)) = <[arr := CliArgParse.BStr (fds ++ replicate (n - length fds) 0)]> b0 ∧
  (length fds ≤ n)%nat ∧ sock_array_size (glob s) = Z.of_nat (length fds) ∧ good (heap (glob s)).

(** What the loop keeps. *)
Definition rest_same s s' : Prop :=
  params (glob s') = params (glob s) ∧ raddr (glob s') = raddr (glob s).

(** State of the loop after [i] sockets. *)
Definition configuring (b0 : gmap positive CliArgParse.block) arr n s0 (i : Z) s : Prop :=
  ∃ fds t, holding fds s ∧ array_has b0 arr n fds s ∧ rest_same s0 s ∧
    Z.of_nat (length fds) = i ∧ trace s = trace s0 ++ t ∧ bound t = imap (λ j fd, (fd, port_of j)) fds.

(** State when the loop is left early. *)
Definition stopped (b0 : gmap positive CliArgParse.block) arr n s0 s : Prop :=
  ∃ fds, holding fds s ∧ array_has b0 arr n fds s ∧ rest_same s0 s.

Lemma holding_glob fds s s' :
  world s' = world s → trace s' = trace s → nfp_errno s' = nfp_errno s → holding fds s → holding fds s'.
Proof.
  intros Hw Ht He (? & ? & Hf). split_and!; [done..|].
  unfold AppProofs.fine, tidy, enough in *. by rewrite Hw, Ht.
Qed.

Lemma holding_after fds s c r w :
  holding fds s → api c (world s) = (r, w) → plain c = true → uses c = None → holding fds (after s c r w).
Proof.
  intros (? & ? & Hf) E Hp Hu. split_and!; [done..|]. eapply plain_call; [exact Hf|exact E|done|].
  intros fd. by rewrite Hu.
Qed.

Lemma cfg_socket_ok b0 arr n l s i s0 :
  0 ≤ i < Z.of_nat n → configuring b0 arr n s0 i s →
  wp (cfg_socket arr l i ()) (λ r s',
    match r with inl _ => configuring b0 arr n s0 (i + 1) s' | inr _ => stopped b0 arr n s0 s' end) s.
Proof.
  intros Hi (fds & t & (Hnd & Hno & Hf) & (Harr & Hb0 & Hbl & Hle & Hsz & Hg) & Hrest & Hlen & Ht & Hb).
  apply wp_bind. eapply wp_mono; [|by apply create_local_sock_ok].
  intros sd s1 [Hglob [[-> Hf1]|(Hsd & Hx & Hf1 & t1 & Ht1 & Hb1)]].
  { apply wp_ret. exists fds. split_and!; [by split_and!| |].
    - unfold array_has. by rewrite Hglob.
    - unfold rest_same. by rewrite Hglob. }
  destruct (Z.eqb_spec sd (-1)); [lia|]. apply wp_bind, wp_getg. rewrite Hglob, Hsz, Nat2Z.id.
  apply wp_bind, wp_on_heap. simpl. rewrite Hglob.
  eexists _, _. split.
  { eapply store_int_ok; [rewrite Hbl; apply lookup_insert_eq|]. rewrite length_app, length_replicate. lia. }
  apply wp_bind, wp_setg, wp_ret. exists (fds ++ [sd]), (t ++ t1). split_and!.
  - split_and!.
    + apply NoDup_app. split_and!; [done| |apply NoDup_singleton]. clear -Hx. set_solver.
    + intros fd [?|Heq%list_elem_of_singleton]%elem_of_app; [by apply Hno|]. subst fd. clear -Hx. set_solver.
    + replace (list_to_set (fds ++ [sd]) ∪ o0) with ({[sd]} ∪ (list_to_set fds ∪ o0)).
      2: { rewrite list_to_set_app_L. simpl. clear. set_solver. }
      unfold AppProofs.fine, tidy, enough in *. done.
  - unfold array_has. cbn. rewrite Harr, Hbl, insert_insert_eq, length_app. cbn. split_and!; [done|done| |lia|lia|].
    + f_equal. f_equal. rewrite insert_app_r_alt by lia. rewrite Nat.sub_diag, <- app_assoc. f_equal.
      replace (n - length fds)%nat with (S (n - (length fds + 1))) by lia. done.
    + intros p Hp. cbn in Hp |- *. apply Hg. rewrite Hbl in Hp |- *.
      destruct (decide (p = arr)) as [->|]; [by rewrite lookup_insert_eq|].
      rewrite !lookup_insert_ne in Hp by done. by rewrite lookup_insert_ne by done.
  - unfold rest_same. cbn. done.
  - rewrite length_app. simpl. lia.
  - simpl. by rewrite Ht1, Ht, app_assoc.
  - unfold bound in *. rewrite bind_app, Hb, Hb1, imap_app. simpl. unfold port_of. by rewrite Nat.add_0_r, Hlen.
Qed.

(** What [udp_fwd_cleanup] can deal with: the descriptors are in the array, and
    the array and the remote address, where there are any, are on top of [b0]. *)
Definition to_clean (b0 : gmap positive CliArgParse.block) fds s : Prop :=
  holding fds s ∧ sock_array_size (glob s) = Z.of_nat (length fds) ∧
  ∃ b1, match sock_array (glob s) with
        | None => fds = [] ∧ b1 = b0
        | Some arr => b0 !! arr = None ∧ ∃ pad, b1 = <[arr := CliArgParse.BStr (fds ++ pad)]> b0
        end ∧
        match raddr (glob s) with
        | None => CliArgParse.blocks (heap (glob s)) = b1
        | Some ra => b1 !! ra = None ∧ ∃ b, CliArgParse.blocks (heap (glob s)) = <[ra := b]> b1
        end.

(** The sockets are bound to consecutive ports and the remote address is set. *)
Definition in_service (n : nat) s0 fds s : Prop :=
  length fds = n ∧
  (∃ t, trace s = trace s0 ++ t ∧ bound t = imap (λ j fd, (fd, port_of j)) fds) ∧
  ∃ addr, remote s = (Ret (Some (Sin sizeof_sockaddr_in NFP_AF_INET (odp_cpu_to_be_16 TEST_RPORT) addr
                                   sizeof_sockaddr_in)), s).

Lemma bind_getg {A B} (f : fwd_t → A) (k : A → M st B) s : (getg f ≫= k) s = k (f (glob s)) s.
Proof. done. Qed.

Lemma on_heap_same {A} (c : M CliArgParse.state A) a s :
  c (heap (glob s)) = (Ret a, heap (glob s)) → on_heap c s = (Ret a, s).
Proof. intros Hc. unfold on_heap. cbn. rewrite Hc. by destruct s as [? ? ? []]. Qed.

Lemma stopped_to_clean b0 arr n s0 s :
  raddr (glob s0) = None → stopped b0 arr n s0 s → ∃ fds, to_clean b0 fds s.
Proof.
  intros Hra (fds & Hh & (Harr & Hb0 & Hbl & Hle & Hsz & Hg) & [_ Hr]). exists fds. split_and!; [done..|].
  eexists. rewrite Harr, Hr, Hra. split; [|done]. split; [done|]. by eexists.
Qed.

Lemma configuring_stopped b0 arr n s0 i s : configuring b0 arr n s0 i s → stopped b0 arr n s0 s.
Proof. intros (fds & t & ? & ? & ? & _). by exists fds. Qed.

(** The remote address is filled in. *)
Lemma set_remote_ok b0 arr n s0 s raddr_txt :
  configuring b0 arr n s0 (Z.of_nat n) s → raddr (glob s0) = None →
  wp (q ← on_heap (CliArgParse.alloc (CliArgParse.BStr [0; 0; 0; 0]));
      setg (set_raddr q);;
      match q with
      | None => mret (-1)
      | Some ra =>
          on_heap (CliArgParse.store_char (ra, RADDR_family) NFP_AF_INET);;
          on_heap (CliArgParse.store_char (ra, RADDR_port) (odp_cpu_to_be_16 TEST_RPORT));;
          addr ← callv (A_inet_addr raddr_txt);
          on_heap (CliArgParse.store_char (ra, RADDR_addr) addr);;
          on_heap (CliArgParse.store_char (ra, RADDR_len) sizeof_sockaddr_in);;
          mret 0
      end)
    (λ rc s', ∃ fds, to_clean b0 fds s' ∧ (rc = -1 ∨ rc = 0 ∧ in_service n s0 fds s')) s.
Proof.
  intros (fds & t & Hh & (Harr & Hb0 & Hbl & Hle & Hsz & Hg) & [_ Hr] & Hlen & Ht & Hb) Hra.
  apply wp_bind, wp_on_heap. destruct (alloc_cases (heap (glob s)) (CliArgParse.BStr [0; 0; 0; 0])) as (q & Hq & Hcase).
  eexists _, _. split; [exact Hq|]. apply wp_bind, wp_setg. destruct Hcase as [-> | ->].
  { apply wp_ret. exists fds. split; [|by left]. split_and!; [by eapply holding_glob; [..|exact Hh]|done|].
    eexists. cbn. rewrite Harr. split; [|done]. split; [done|]. by eexists. }
  set (ra := CliArgParse.fresh_ptr (heap (glob s))).
  assert (Hnone : CliArgParse.blocks (heap (glob s)) !! ra = None).
  { apply eq_None_not_Some. intros Hs%Hg. unfold ra in Hs. lia. }
  assert (Hstore : ∀ (s1 : st) (l : list Z) (i : nat) (c : Z) (B : Type) (f : unit → M st B) (Q : B → st → Prop),
    CliArgParse.blocks (heap (glob s1)) !! ra = Some (CliArgParse.BStr l) → (i < length l)%nat →
    wp (f ()) Q (MkApp (world s1) (nfp_errno s1) (trace s1)
      (put_heap (CliArgParse.set_blocks (<[ra := CliArgParse.BStr (<[i := c]> l)]>) (heap (glob s1))) (glob s1))) →
    wp (on_heap (CliArgParse.store_char (ra, i) c) ≫= f) Q s1).
  { intros s1 l i c B f Q Hl Hi HQ. apply wp_bind, wp_on_heap. eexists _, _. split; [by eapply store_int_ok|done]. }
  eapply Hstore; [apply lookup_insert_eq|unfold RADDR_family; simpl; lia|].
  eapply Hstore; [apply lookup_insert_eq|rewrite length_insert; unfold RADDR_port; simpl; lia|].
  apply wp_bind, wp_callv. intros r w E.
  eapply Hstore; [apply lookup_insert_eq|rewrite !length_insert; unfold RADDR_addr; simpl; lia|].
  eapply Hstore; [apply lookup_insert_eq|rewrite !length_insert; unfold RADDR_len; simpl; lia|].
  apply wp_ret. exists fds. split; [|right; split; [done|]].
  - split_and!; [|done|].
    + eapply holding_glob; [..|by eapply (holding_after fds s (A_inet_addr raddr_txt) r w)]; done.
    + exists (<[arr := CliArgParse.BStr (fds ++ replicate (n - length fds) 0)]> b0). cbn. rewrite Harr, <- Hbl.
      split; [split; [done|by eexists]|]. fold ra. split; [done|]. eexists. by rewrite !insert_insert_eq.
  - split_and!; [lia| |].
    + exists (t ++ [(A_inet_addr raddr_txt, r)]). split; [cbn; by rewrite Ht, app_assoc|].
      unfold bound in *. rewrite bind_app, Hb. simpl. by rewrite app_nil_r.
    + exists (r_val r). set (s' := MkApp _ _ _ _). unfold remote. rewrite bind_getg.
      replace (raddr (glob s')) with (Some ra) by done.
      erewrite bind_Ret; [|apply on_heap_same, chars_ok; [cbn; apply lookup_insert_eq|cbn; lia]]. done.
Qed.

Lemma udp_fwd_cfg_ok count l r s :
  0 ≤ count → fine o0 fuel s → good (heap (glob s)) → raddr (glob s) = None →
  wp (udp_fwd_cfg count l r) (λ rc s', ∃ fds, to_clean (CliArgParse.blocks (heap (glob s))) fds s' ∧
    (rc = -1 ∨ rc = 0 ∧ in_service (Z.to_nat count) s fds s')) s.
Proof.
  intros Hc Hf Hg Hra. set (b0 := CliArgParse.blocks (heap (glob s))).
  assert (Hh : holding [] s).
  { split_and!; [constructor|by intros ? ?%elem_of_nil|]. simpl. by rewrite union_empty_l_L. }
  apply wp_bind, wp_setg, wp_bind, wp_on_heap. cbn [heap_of fwd_heap glob heap set_sock_array_size].
  destruct (alloc_cases (heap (glob s)) (CliArgParse.BStr (replicate (Z.to_nat count) 0))) as (p & Hp & Hcase).
  eexists _, _. split; [exact Hp|]. apply wp_bind, wp_setg. destruct Hcase as [-> | ->].
  { apply wp_ret. exists []. split; [|by left]. split_and!; [by eapply holding_glob; [..|exact Hh]|done|].
    exists b0. cbn. by rewrite Hra. }
  set (arr := CliArgParse.fresh_ptr (heap (glob s))). set (s1 := MkApp _ _ _ _).
  assert (Hnone : b0 !! arr = None).
  { apply eq_None_not_Some. intros Hs%Hg. unfold arr in Hs. lia. }
  assert (Hinv : configuring b0 arr (Z.to_nat count) s 0 s1).
  { exists [], []. split_and!; [by eapply holding_glob; [..|exact Hh]| |by split|done|by rewrite app_nil_r|done].
    unfold array_has. cbn. rewrite Nat.sub_0_r. split_and!; [done..|lia|done|by apply ArgHeap.good_alloc]. }
  apply wp_bind. eapply wp_mono; [|eapply (wp_for_ret _ (λ i _, configuring b0 arr (Z.to_nat count) s i)
    (λ _, stopped b0 arr (Z.to_nat count) s))].
  - intros [[]|[]] s2 Hs2; [by apply (set_remote_ok b0 arr)|].
    apply wp_ret. destruct (stopped_to_clean _ _ _ _ _ Hra Hs2) as [fds ?]. exists fds. auto.
  - done.
  - intros i [] s2 Hi Hs2. eapply wp_mono; [|by apply (cfg_socket_ok b0 arr (Z.to_nat count)); [lia|]].
    by intros [[]|[]] s3.
Qed.

(** ** Cleanup *)

Lemma holding_close fds s fd :
  holding (fd :: fds) s → wp (call_ (A_close fd)) (λ _ s', holding fds s' ∧ glob s' = glob s) s.
Proof.
  intros (Hnd & Hno & Hf). apply NoDup_cons in Hnd as [Hx Hnd].
  eapply wp_mono; [|apply close_one; [exact Hf|set_solver]]. intros [] s' [Hf' Hg]. split; [|done].
  split_and!; [done|intros; apply Hno; set_solver|].
  replace ((list_to_set (fd :: fds) ∪ o0) ∖ {[fd]}) with (list_to_set fds ∪ o0 : gset Z) in Hf'; [done|].
  assert (fd ∉ o0) by (apply Hno; set_solver). simpl. clear -Hx H. set_solver.
Qed.

Lemma close_sockets_ok arr fds pad s :
  sock_array (glob s) = Some arr → holding fds s →
  CliArgParse.blocks (heap (glob s)) !! arr = Some (CliArgParse.BStr (fds ++ pad)) →
  wp (for_from 0 (length fds) close_socket) (λ _ s', holding [] s' ∧ glob s' = glob s) s.
Proof.
  intros Harr Hh Hb.
  eapply wp_mono; [|apply (wp_for_from _ (λ i s', holding (drop (Z.to_nat i) fds) s' ∧ glob s' = glob s))].
  - intros [] s' [Hs' Hg]. rewrite Z.add_0_l, Nat2Z.id, drop_all in Hs'. done.
  - done.
  - intros i s1 Hi [Hs1 Hg]. destruct (lookup_lt_is_Some_2 fds (Z.to_nat i)) as [fd Hfd]; [lia|].
    apply wp_bind, wp_getg. rewrite Hg, Harr. apply wp_bind. eapply wp_of_option; [done|].
    apply wp_bind. exists (drop (Z.to_nat i) (fds ++ pad)), s1. split.
    { apply on_heap_same, chars_ok; [by rewrite Hg|]. rewrite length_app. lia. }
    apply wp_bind. exists fd, s1. split.
    { rewrite drop_app_le by lia. by rewrite (drop_S _ fd). }
    replace (Z.to_nat (i + 1)) with (S (Z.to_nat i)) by lia. rewrite (drop_S _ fd) in Hs1 by done.
    eapply wp_mono; [|by apply holding_close]. intros [] s2 [? ->]. done.
Qed.

(** Everything is given back. *)
Lemma udp_fwd_cleanup_ok b0 fds s :
  to_clean b0 fds s →
  wp udp_fwd_cleanup (λ rc s', rc = 0 ∧ holding [] s' ∧
    CliArgParse.blocks (heap (glob s')) = b0 ∧ raddr (glob s') = None ∧ sock_array (glob s') = None) s.
Proof.
  intros (Hh & Hsz & b1 & Harr & Hra).
  unfold udp_fwd_cleanup. apply wp_bind, wp_getg, wp_bind.
  (* the remote address *)
  eapply (wp_mono _ (λ _ s', holding fds s' ∧ CliArgParse.blocks (heap (glob s')) = b1 ∧
    raddr (glob s') = None ∧ sock_array (glob s') = sock_array (glob s) ∧
    sock_array_size (glob s') = Z.of_nat (length fds))).
  2: { destruct (raddr (glob s)) as [ra|] eqn:Hr; simpl.
       - destruct Hra as [Hn [b Hb]]. apply wp_bind, wp_on_heap. eexists _, _. split.
         { eapply free_step. cbn. rewrite Hb. apply lookup_insert_eq. }
         apply wp_setg. cbn. rewrite Hb, delete_insert_id by done.
         split_and!; [by eapply holding_glob; [..|exact Hh]|done..].
       - apply wp_ret. by rewrite Hr. }
  intros [] s1 (Hh1 & Hb1 & Hr1 & Ha1 & Hs1). apply wp_bind, wp_getg, wp_bind.
  (* the sockets *)
  eapply (wp_mono _ (λ _ s', holding [] s' ∧ glob s' = glob s1)).
  2: { rewrite Hs1. destruct (sock_array (glob s)) as [arr|] eqn:Ha.
       - destruct Harr as [Hn [pad ->]]. destruct (Z.eqb_spec (Z.of_nat (length fds)) 0) as [Hz|Hz]; simpl.
         + apply wp_ret. destruct fds; [done|simpl in Hz; lia].
         + rewrite Nat2Z.id. eapply (close_sockets_ok arr fds pad); [done..|]. rewrite Hb1. apply lookup_insert_eq.
       - destruct Harr as [-> ->]. simpl. by apply wp_ret. }
  intros [] s2 [Hh2 Hg2]. apply wp_bind, wp_getg, wp_bind. rewrite Hg2, Ha1.
  (* the array *)
  destruct (sock_array (glob s)) as [arr|] eqn:Ha; simpl.
  - destruct Harr as [Hn [pad ->]]. apply wp_bind, wp_on_heap. eexists _, _. split.
    { eapply free_step. cbn. rewrite Hg2, Hb1. apply lookup_insert_eq. }
    apply wp_setg, wp_ret. cbn. rewrite Hg2, Hb1, delete_insert_id by done.
    split_and!; [done|by eapply holding_glob; [..|exact Hh2]|done..].
  - destruct Harr as [_ ->]. apply wp_ret, wp_ret. by rewrite Hg2.
Qed.

(** A call in between. *)
Lemma to_clean_after b0 fds s c r w :
  to_clean b0 fds s → api c (world s) = (r, w) → plain c = true → uses c = None →
  to_clean b0 fds (after s c r w).
Proof. intros [Hh Hrest] E Hp Hu. split; [by apply holding_after|done]. Qed.

(** [C14] From [udp_fwd_cfg] to [udp_fwd_cleanup]: the configuration succeeds
    with the requested number of sockets, bound in order to consecutive ports
    from 5001 on, and with the remote address set to port 5000, or fails with
    -1 (no memory, or a socket that cannot be set up).  In either case the
    cleanup returns 0 and has closed every socket that was opened (a close
    that fails apart) and freed the array and the address: no descriptor was
    used that was not held, and memory is as before. *)
Theorem forwarding_sockets count l r s :
  0 ≤ count → fine o0 fuel s → good (heap (glob s)) → raddr (glob s) = None →
  ∃ rc s1 s2, udp_fwd_cfg count l r s = (Ret rc, s1) ∧ udp_fwd_cleanup s1 = (Ret 0, s2) ∧
    (rc = -1 ∨ rc = 0 ∧ ∃ fds, NoDup fds ∧ in_service (Z.to_nat count) s fds s1) ∧
    fine o0 fuel s2 ∧ CliArgParse.blocks (heap (glob s2)) = CliArgParse.blocks (heap (glob s)) ∧
    raddr (glob s2) = None ∧ sock_array (glob s2) = None.
Proof.
  intros Hc Hf Hg Hra. destruct (udp_fwd_cfg_ok count l r s Hc Hf Hg Hra) as (rc & s1 & Hrun & fds & Hcl & Hrc).
  destruct (udp_fwd_cleanup_ok _ _ _ Hcl) as (rc2 & s2 & Hrun2 & -> & (_ & _ & Hf2) & Hb & Hr & Ha).
  exists rc, s1, s2. split_and!; try done.
  - destruct Hrc as [->|[-> Hs]]; [by left|]. right. split; [done|]. exists fds. split; [apply Hcl|done].
  - simpl in Hf2. by rewrite union_empty_l_L in Hf2.
Qed.
End Sockets.

(** ** Datagrams *)

Section Packets.
Context {W F : Type} `{!App W F, !SocketLaws W F}.
Local Abbreviation st := (app W F fwd_t).
Implicit Types (s : st) (l : bytes).

(** Fields of a packet: 16 bits in network order, 16 and 32 bits as the
    processor reads them. *)
Definition net16 l (i : nat) : option Z := hi ← l !! i; lo ← l !! S i; Some (hi * 256 + lo).
Definition cpu16 l (i : nat) : option Z := lo ← l !! i; hi ← l !! S i; Some (hi * 256 + lo).
Definition cpu32 l (i : nat) : option Z :=
  lo ← cpu16 l i; hi ← cpu16 l (S (S i)); Some (hi * 2 ^ 16 + lo).

(** Where the UDP header starts. *)
Definition udp_at l : nat := match l with b :: _ => Z.to_nat (4 * (b mod 16)) | [] => 0 end.

(** A packet with a complete IP header and UDP header. *)
Definition well_formed l : Prop := (20 ≤ udp_at l)%nat ∧ (udp_at l + 8 ≤ length l)%nat.

(** [l'] is [l] with another destination and without checksums. *)
Definition readdressed l (addr port : Z) l' : Prop :=
  length l' = length l ∧ cpu32 l' 16 = Some addr ∧ cpu16 l' 10 = Some 0 ∧
  net16 l' (udp_at l + 2) = Some port ∧ cpu16 l' (udp_at l + 6) = Some 0 ∧
  ∀ i, (i ∉ [10; 11; 16; 17; 18; 19; udp_at l + 2; udp_at l + 3; udp_at l + 6; udp_at l + 7])%nat →
    l' !! i = l !! i.

Lemma udp_at_shift b l : Z.to_nat (Z.shiftl (Z.land b 15) 2) = udp_at (b :: l).
Proof.
  simpl. rewrite Z.shiftl_mul_pow2 by lia. change 15 with (Z.ones 4). rewrite Z.land_ones by lia.
  f_equal. change (2 ^ 4) with 16. lia.
Qed.

Lemma put16_ok l i v s (Q : bytes → st → Prop) :
  0 ≤ i → (S (Z.to_nat i) < length l)%nat →
  Q (<[S (Z.to_nat i) := v / 256 mod 256]> (<[Z.to_nat i := v mod 256]> l)) s → wp (put16 l i v) Q s.
Proof.
  intros Hi Hl HQ. apply wp_bind. unfold put8. rewrite decide_True by lia. apply wp_ret.
  replace (Z.to_nat (i + 1)) with (S (Z.to_nat i)) by lia. rewrite decide_True by (rewrite length_insert; lia).
  by apply wp_ret.
Qed.

Lemma remote_glob s s' x : remote s = (Ret x, s) → glob s' = glob s → remote s' = (Ret x, s').
Proof.
  intros H Hg. destruct s as [? ? ? [h ? ra ? ?]], s' as [? ? ? g']. cbn in Hg. subst g'.
  unfold remote, mbind, M_bind, getg, gets in *. cbn in *. destruct ra as [p|]; [|by injection H as <-].
  unfold on_heap, CliArgParse.chars, mbind, M_bind, gets in *. cbn in *.
  destruct (CliArgParse.blocks h !! p) as [[l|?|?]|]; try done.
  destruct (decide (0 < length l)%nat); try done. cbn in *. rewrite drop_0 in *.
  destruct l as [|a [|b [|c [|d [|? ?]]]]]; try done. cbn in *. by injection H as <-.
Qed.

(** The writes of the hooks, in their order. *)
Definition rewrite_headers l (addr port : Z) : bytes :=
  let u := udp_at l in
  let l := <[17%nat := addr mod 2 ^ 16 / 256 mod 256]> (<[16%nat := addr mod 2 ^ 16 mod 256]> l) in
  let l := <[19%nat := addr / 2 ^ 16 / 256 mod 256]> (<[18%nat := addr / 2 ^ 16 mod 256]> l) in
  let l := <[11%nat := 0]> (<[10%nat := 0]> l) in
  let l := <[S (u + 2) := port / 256 mod 256]> (<[(u + 2)%nat := port mod 256]> l) in
  <[S (u + 6) := 0]> (<[(u + 6)%nat := 0]> l).

(** Bytes of a packet some of whose bytes were written. *)
Local Ltac look := repeat first
  [ rewrite list_lookup_insert_eq by (rewrite ?length_insert; lia)
  | rewrite list_lookup_insert_ne by lia ]; simpl.

Lemma rewrite_readdressed l addr port :
  well_formed l → 0 ≤ port < 2 ^ 16 →
  readdressed l (addr mod 2 ^ 32) (odp_cpu_to_be_16 port) (rewrite_headers l addr port).
Proof.
  intros [Hu Hl] Hp. unfold rewrite_headers. set (u := udp_at l) in *.
  unfold readdressed. fold u. split_and!.
  - by rewrite !length_insert.
  - unfold cpu32, cpu16. look. f_equal. Z.div_mod_to_equations. lia.
  - unfold cpu16. look. done.
  - unfold net16. look. f_equal. unfold odp_cpu_to_be_16. Z.div_mod_to_equations. lia.
  - unfold cpu16. look. done.
  - intros i Hi. rewrite !not_elem_of_cons in Hi. look. done.
Qed.

(** The datagram is for one of the local ports. *)
Definition local_port (size : Z) l : bool :=
  match net16 l (udp_at l + 2) with
  | Some d => (TEST_LPORT <=? d) && (d <=? TEST_LPORT + size - 1)
  | None => false
  end.

(** What a hook does after it has found the packet: it leaves the packet alone
    or sends it to [a]. *)
Definition hook_result (pkt : Z) l (taken : bool) (a : sin) (t : list (event F)) (rc : Z) : Prop :=
  if taken then
    ∃ l' r1 r2, t = [(A_packet_store pkt l', r1); (A_ip_send pkt, r2)] ∧ rc = r_val r2 ∧
      readdressed l (sin_addr a mod 2 ^ 32) (odp_cpu_to_be_16 (sin_port a)) l'
  else t = [] ∧ rc = NFP_PKT_CONTINUE.

Lemma forward_datagram_ok pkt l a s :
  well_formed l → remote s = (Ret (Some a), s) → 0 ≤ sin_port a < 2 ^ 16 →
  wp (forward_datagram pkt l) (λ rc s', glob s' = glob s ∧ ∃ t, trace s' = trace s ++ t ∧
    hook_result pkt l (local_port (sock_array_size (glob s)) l) a t rc) s.
Proof.
  intros Hw Hrem Hport. pose proof Hw as [Hu Hlen]. unfold forward_datagram, get8.
  destruct l as [|b l0]; [simpl in Hlen; lia|]. set (l := b :: l0) in *.
  apply wp_bind. eapply wp_of_option; [done|]. cbv zeta. pose proof (udp_at_shift b l0) as Hat. fold l in Hat.
  set (off := Z.shiftl (Z.land b 15) 2) in *. set (u := udp_at l) in *.
  unfold uh_dport, uh_sum, ip_dst, ip_sum.
  assert (Hoff : 0 ≤ off) by (destruct (Z.le_gt_cases 0 off); [done|lia]).
  destruct (lookup_lt_is_Some_2 l (u + 2)) as [hi Hhi]; [lia|].
  destruct (lookup_lt_is_Some_2 l (S (u + 2))) as [lo Hlo]; [lia|].
  replace (Z.to_nat (off + 2)) with (u + 2)%nat by lia.
  replace (Z.to_nat (off + 2 + 1)) with (S (u + 2)) by lia.
  apply wp_bind. eapply wp_of_option; [exact Hhi|]. apply wp_bind. eapply wp_of_option; [exact Hlo|].
  apply wp_bind, wp_getg. unfold local_port, net16. fold u. rewrite Hhi. cbn [mbind option_bind]. rewrite Hlo.
  cbn [mbind option_bind]. set (d := hi * 256 + lo).
  destruct (Z.ltb_spec d TEST_LPORT), (Z.leb_spec TEST_LPORT d); try lia; cbn [orb andb].
  { apply wp_ret. split; [done|]. exists []. by rewrite app_nil_r. }
  destruct (Z.ltb_spec (TEST_LPORT + sock_array_size (glob s) - 1) d),
    (Z.leb_spec d (TEST_LPORT + sock_array_size (glob s) - 1)); try lia.
  { apply wp_ret. split; [done|]. exists []. by rewrite app_nil_r. }
  apply wp_bind. exists (Some a), s. split; [done|]. apply wp_bind. eapply wp_of_option; [done|].
  apply wp_bind, wp_bind. apply put16_ok; [lia|lia|].
  apply put16_ok; [lia|rewrite !length_insert; lia|].
  apply wp_bind, put16_ok; [lia|rewrite !length_insert; lia|].
  apply wp_bind, put16_ok; [lia|rewrite !length_insert; lia|].
  apply wp_bind, put16_ok; [lia|rewrite !length_insert; lia|].
  apply wp_bind, wp_call_. intros r1 w1 E1. apply wp_callv. intros r2 w2 E2. split; [done|].
  eexists. split; [simpl; by rewrite <- app_assoc|]. eexists _, r1, r2. split_and!; [done..|].
  replace (Z.to_nat (off + 2)) with (u + 2)%nat by lia. replace (Z.to_nat (off + 6)) with (u + 6)%nat by lia.
  by apply (rewrite_readdressed l (sin_addr a) (sin_port a)).
Qed.

(** [C15] Datagrams for the local ports are sent to the remote address.  The
    notification function sends a received packet there and marks it as
    consumed, and does nothing on other events.  The hooks take a packet
    (a UDP packet, in the hook for all IPv4 packets) whose destination port is
    one of the local ports: they set its destination address and port to the
    remote ones, clear the two checksums, change nothing else of it and send
    it; any other packet they leave to the stack. *)
Theorem datagrams_forwarded a s :
  remote s = (Ret (Some a), s) → 0 ≤ sin_port a < 2 ^ 16 →
  (∀ ss, ∃ ss' s', notify ss s = (Ret ss', s') ∧ glob s' = glob s ∧
     if Httpd2.ss_event ss =? Httpd2.NFP_EVENT_RECV then
       Httpd2.ss_pkt ss' = Httpd2.ODP_PACKET_INVALID ∧
       ∃ r1 r2, trace s' = trace s ++ [(A_udp_packet_parse (Httpd2.ss_pkt ss), r1);
         (A_udp_packet_sendto (Httpd2.ss_sockfd ss) (Httpd2.ss_pkt ss) (Some a), r2)]
     else ss' = ss ∧ s' = s) ∧
  (∀ pkt r w, api (A_packet_l3 pkt) (world s) = (r, w) → well_formed (r_data r) →
     let here := local_port (sock_array_size (glob s)) (r_data r) in
     let udp := bool_decide (r_data r !! 9%nat = Some NFP_IPPROTO_UDP) in
     ∃ rc s' rc' s'' t t', packet_hook_ipv4 pkt s = (Ret rc, s') ∧ packet_hook_udpv4 pkt s = (Ret rc', s'') ∧
       trace s' = trace s ++ (A_packet_l3 pkt, r) :: t ∧ trace s'' = trace s ++ (A_packet_l3 pkt, r) :: t' ∧
       hook_result pkt (r_data r) (udp && here) a t rc ∧ hook_result pkt (r_data r) here a t' rc').
Proof.
  intros Hrem Hport. split.
  - intros ss. unfold notify. destruct (_ =? _); cbn [negb]; [|by exists ss, s].
    match goal with |- ∃ ss' s', ?m s = _ ∧ @?Q ss' s' => change (wp m (λ ss' s', Q ss' s') s) end.
    apply wp_bind, wp_call_. intros r1 w1 E1. apply wp_bind. eexists _, _. split; [by apply (remote_glob s)|].
    apply wp_bind, wp_call_. intros r2 w2 E2. apply wp_ret. split_and!; [done..|]. exists r1, r2.
    simpl. by rewrite <- app_assoc.
  - intros pkt r w E Hw here udp. set (s1 := after s (A_packet_l3 pkt) r w).
    assert (Hrem1 : remote s1 = (Ret (Some a), s1)) by (by apply (remote_glob s)).
    destruct (forward_datagram_ok pkt (r_data r) a s1 Hw Hrem1 Hport) as (rc' & s'' & Hrun & Hg & t' & Ht' & Hres).
    assert (Hcall : (call (A_packet_l3 pkt) : M st _) s = (Ret r, s1)) by (unfold call; by rewrite E).
    assert (H4 : ∃ rc s' t, packet_hook_ipv4 pkt s = (Ret rc, s') ∧
      trace s' = trace s ++ (A_packet_l3 pkt, r) :: t ∧ hook_result pkt (r_data r) (udp && here) a t rc).
    { unfold packet_hook_ipv4. rewrite (bind_Ret _ _ _ _ _ Hcall).
      destruct Hw as [? ?]. destruct (lookup_lt_is_Some_2 (r_data r) 9) as [p Hp]; [lia|].
      unfold get8, ip_p. change (Z.to_nat 9) with 9%nat. rewrite (bind_of_option _ p) by done.
      unfold udp. rewrite Hp. destruct (Z.eqb_spec p NFP_IPPROTO_UDP) as [->|Hne]; cbn [negb].
      - exists rc', s'', t'. rewrite bool_decide_true by done. split_and!; [done| |done].
        rewrite Ht'. simpl. by rewrite <- app_assoc.
      - exists NFP_PKT_CONTINUE, s1, []. rewrite bool_decide_false by naive_solver. done. }
    destruct H4 as (rc & s' & t & Hrun4 & Ht & Hres4). exists rc, s', rc', s'', t, t'. split_and!; try done.
    + unfold packet_hook_udpv4. by rewrite (bind_Ret _ _ _ _ _ Hcall).
    + rewrite Ht'. simpl. by rewrite <- app_assoc.
Qed.
End Packets.

(** ** Witnesses *)

Definition demo_globals : fwd_t :=
  Fwd (CliArgParse.State ∅ 1 (λ _, true) 0 0 None) (ApplArgs 0 2 None None None false) None None 0.
Definition demo_fwd : app demo (gset Z) fwd_t := MkApp (Demo 3 3) 0 [] demo_globals.

Lemma demo_fwd_fine : AppProofs.fine any ∅ ∅ 2060 demo_fwd.
Proof.
  split_and!; [|unfold enough; simpl; lia| |done].
  - split_and!; [done|done|done|]. set_solver.
  - intros t e t' Heq. by destruct t.
Qed.

Lemma forwarding_sockets_witness :
  ∃ rc s1 s2, udp_fwd_cfg 2 (text "10.0.0.2") (text "10.0.0.9") demo_fwd = (Ret rc, s1) ∧
    udp_fwd_cleanup s1 = (Ret 0, s2) ∧
    (rc = -1 ∨ rc = 0 ∧ ∃ fds, NoDup fds ∧ in_service (Z.to_nat 2) demo_fwd fds s1) ∧
    AppProofs.fine any ∅ ∅ 2060 s2 ∧
    CliArgParse.blocks (heap (glob s2)) = CliArgParse.blocks (heap (glob demo_fwd)) ∧
    raddr (glob s2) = None ∧ sock_array (glob s2) = None.
Proof.
  apply (forwarding_sockets (W := demo) (F := gset Z) ∅ 2060); [done|exact demo_fwd_fine| |done].
  intros p [b Hp]. discriminate.
Defined.

(** The state after the configuration. *)
Definition demo_service : app demo (gset Z) fwd_t :=
  (udp_fwd_cfg 2 (text "10.0.0.2") (text "10.0.0.9") demo_fwd).2.

Lemma datagrams_forwarded_witness :
  let a := Sin 16 2 34835 0 16 in
  let r := rep 1 demo_packet ∅ in
  ∃ rc s' rc' s'' t t', packet_hook_ipv4 7 demo_service = (Ret rc, s') ∧
    packet_hook_udpv4 7 demo_service = (Ret rc', s'') ∧
    trace s' = trace demo_service ++ (A_packet_l3 7, r) :: t ∧
    trace s'' = trace demo_service ++ (A_packet_l3 7, r) :: t' ∧
    hook_result 7 demo_packet true a t rc ∧ hook_result 7 demo_packet true a t' rc'.
Proof.
  eapply (datagrams_forwarded (W := demo) (F := gset Z) (Sin 16 2 34835 0 16) demo_service);
    [by vm_compute|done|by vm_compute|]. split; vm_compute; lia.
Defined.

End UdpFwdProofs.
