(* ===== verification/UdpFwdStart.v ===== *)
(** * UDP forwarding: start and end

    The command line and [main] of example/udp_fwd_socket/app_main.c. *)

From S2P Require Import Prelude App AppProofs AppHeap Resources HttpdTheorems CliArgParse CliArgParseProofs ArgHeap TcpPerfProofs TcpPerfTheorems FpmDirect FpmDirectProofs FpmDirectStart UdpFwd UdpFwdProofs.
Import App AppProofs AppHeap Resources HttpdTheorems ArgHeap TcpPerfProofs TcpPerfTheorems UdpFwd UdpFwdProofs.

Module UdpFwdStart.

(** ** Command line *)

Definition copies (a : appl_args_t) : list positive :=
  option_list (cli_file a) ++ option_list (laddr a) ++ option_list (args_raddr a).

(** Options with an argument. *)
Definition takes_arg (c : Z) : bool := bool_decide (c ∈ [99; 102; 105; 108; 114; 115]).

Definition opt_ok (b0 : memory) (fuel : nat) (o : Z * CliArgParse.ptr) : Prop :=
  takes_arg o.1 = true → arg_ok b0 fuel o.2.

Definition unset (a : appl_args_t) (h : CliArgParse.state) (c : Z) : Prop :=
  (c = 102 → cli_file a = None) ∧ (c = 108 → laddr a = None) ∧ (c = 114 → args_raddr a = None) ∧
  (c = 105 → CliArgParse.if_count h = 0).

(** The arguments so far. *)
Definition parsed (b0 : memory) (a : appl_args_t) (h : CliArgParse.state) : Prop :=
  holds b0 (copies a) h ∧ 1 ≤ sock_count a.

(** After [exit]: the interfaces are released. *)
Definition quit (b0 : memory) (c : Z) (h : CliArgParse.state) : Prop :=
  c = EXIT_SUCCESS ∧ spare 3 b0 h.

Definition option_result (b0 : memory) (c : Z) (a : appl_args_t) (h : CliArgParse.state)
    (r : Z * appl_args_t) (h' : CliArgParse.state) : Prop :=
  (r.1 = 0 ∨ r.1 = -1) ∧ parsed b0 r.2 h' ∧ ∀ c', c' ≠ c → unset a h c' → unset r.2 h' c'.

Lemma fwd_parsed_kept b0 a h : parsed b0 a h → kept 3 b0 h.
Proof.
  intros [Hh _]. exists (copies a). split; [|done]. unfold copies.
  rewrite !length_app. destruct (cli_file a), (laddr a), (args_raddr a); simpl; lia.
Qed.

Lemma fwd_copy_arg_ok b0 fuel c arg a h set :
  parsed b0 a h → arg_ok b0 fuel arg →
  (∀ p, copies (set (Some p)) ≡ₚ p :: copies a) → (∀ p, sock_count (set p) = sock_count a) →
  (∀ p h' c', c' ≠ c → CliArgParse.if_count h' = CliArgParse.if_count h → unset a h c' → unset (set p) h' c') →
  wp (copy_arg arg a set) (option_result b0 c a h) h.
Proof.
  intros [Hh Hs] Hok Hset Hsock Hun. apply wp_bind. eapply strlen_ok; [done..|]. intros len.
  destruct (len =? 0); [apply wp_ret; split; [by right|split; [done|auto]]|].
  apply wp_assoc, wp_bind. eapply copy_string_ok; [done..|]. intros p h' Hh' Hn. apply wp_ret.
  split; [by left|]. split; [|by intros c' Hne Hu; apply Hun].
  split; [eapply holds_perm; [apply Hset|done]|]. simpl. by rewrite Hsock.
Qed.

Lemma fwd_parse_option_ok b0 fuel o a h :
  parsed b0 a h → opt_ok b0 fuel o → unset a h o.1 →
  ends (parse_option fuel o a) (option_result b0 o.1 a h) (quit b0) h.
Proof.
  intros Hp Hok (Hf & Hl & Hr & Hi). unfold parse_option. destruct o as [c arg]. cbn [fst snd] in *.
  assert (Hsame : ∀ a', copies a' = copies a → 1 ≤ sock_count a' → (∀ c', unset a h c' → unset a' h c') →
    option_result b0 c a h (0, a') h).
  { intros a' Hc Hs Hu. split; [by left|]. split; [split; [simpl; rewrite Hc; apply Hp|done]|auto]. }
  pose proof Hp as [Hh Hs].
  destruct (Z.eqb_spec c 99) as [->|].
  { apply ends_wp, wp_bind. eapply (atoi_ok b0 fuel arg); [done|by apply Hok|]. intros t Ht. by apply wp_ret, Hsame. }
  destruct (Z.eqb_spec c 105) as [->|].
  { apply ends_wp, wp_bind. eapply wp_mono; [|apply (interfaces_ok b0 fuel arg); [exact Hh|by apply Hok|by apply Hi]].
    intros ret h' [[-> | ->] Hh']; apply wp_ret; (split; [auto|split; [by split|]]);
      intros c' Hne (? & ? & ? & ?); by split_and!. }
  destruct (Z.eqb_spec c 104) as [->|].
  { apply ends_bind, ends_wp. eapply wp_mono; [|by eapply cleanup_kept, (fwd_parsed_kept _ a)].
    intros [] h' Hc. by apply ends_exit. }
  assert (Hcopy : ∀ set, takes_arg c = true →
    (∀ p, copies (set (Some p)) ≡ₚ p :: copies a) → (∀ p, sock_count (set p) = sock_count a) →
    (∀ p h' c', c' ≠ c → CliArgParse.if_count h' = CliArgParse.if_count h → unset a h c' → unset (set p) h' c') →
    ends (copy_arg arg a set) (option_result b0 c a h) (quit b0) h).
  { intros set Ht Hset Hsock Hun. apply ends_wp, (fwd_copy_arg_ok b0 fuel); auto. }
  destruct (Z.eqb_spec c 102) as [->|].
  { apply Hcopy; [done| |done|].
    - intros p. unfold copies. simpl. by rewrite Hf by done.
    - intros p h' c' Hne Hn (? & ? & ? & Hi'). split_and!; [done..|]. by rewrite Hn. }
  destruct (Z.eqb_spec c 108) as [->|].
  { apply Hcopy; [done| |done|].
    - intros p. unfold copies. simpl. rewrite Hl by done. simpl. solve_Permutation.
    - intros p h' c' Hne Hn (? & ? & ? & Hi'). split_and!; [done..|]. by rewrite Hn. }
  destruct (Z.eqb_spec c 114) as [->|].
  { apply Hcopy; [done| |done|].
    - intros p. unfold copies. simpl. rewrite Hr by done. simpl. solve_Permutation.
    - intros p h' c' Hne Hn (? & ? & ? & Hi'). split_and!; [done..|]. by rewrite Hn. }
  destruct (Z.eqb_spec c 115) as [->|].
  { apply ends_wp, wp_bind. eapply strlen_ok; [done|by apply Hok|]. intros len. apply wp_bind.
    pose proof (Hok eq_refl) as Harg. destruct (len =? 0).
    { apply wp_ret, wp_ret. split; [by right|]. split; [done|auto]. }
    apply wp_bind. eapply (atoi_ok b0 fuel arg); [done..|]. intros t Ht. apply wp_ret.
    destruct (Z.ltb_spec (CliArgParse.atoi_text t) 1).
    { apply wp_ret. split; [by right|]. split; [done|auto]. }
    apply wp_bind. eapply (atoi_ok b0 fuel arg); [done..|]. intros t' Ht'.
    destruct Ht as [r Ht], Ht' as [r' Ht']. rewrite (CliArgParseProofs.string_at_inj _ _ _ _ _ _ _ Ht' Ht). by apply wp_ret, Hsame. }
  destruct (Z.eqb_spec c 103) as [->|]; by apply ends_wp, wp_ret, Hsame.
Qed.

Lemma fwd_parse_options_ok b0 fuel opts : ∀ a h,
  parsed b0 a h → Forall (opt_ok b0 fuel) opts → NoDup opts.*1 →
  (∀ o, o ∈ opts → unset a h o.1) →
  ends (parse_options fuel opts a) (λ r h', (r.1 = 0 ∨ r.1 = -1) ∧ parsed b0 r.2 h') (quit b0) h.
Proof.
  induction opts as [|o opts IH]; intros a h Hp Hok Hnd Hun; simpl; [by apply ends_wp, wp_ret; auto|].
  apply Forall_cons in Hok as [Ho Hok]. rewrite fmap_cons in Hnd. apply NoDup_cons in Hnd as [Hno Hnd].
  apply ends_bind. eapply ends_mono; [|done|apply fwd_parse_option_ok; [done..|apply Hun; set_solver]].
  intros [rc a'] h' (Hr & Hp' & Hu). simpl in *.
  destruct (Z.eqb_spec rc 0); [|by apply ends_wp, wp_ret].
  apply IH; [done..|]. intros o' Ho'. apply Hu; [|apply Hun; set_solver].
  intros Heq. apply Hno. rewrite <- Heq. apply list_elem_of_fmap. eauto.
Qed.

(** What a command line that is accepted gives. *)
Definition accepted (b0 : memory) (a : appl_args_t) (h : CliArgParse.state) : Prop :=
  parsed b0 a h ∧ 1 ≤ CliArgParse.if_count h ≤ NFP_FP_INTERFACE_MAX ∧
  is_Some (laddr a) ∧ is_Some (args_raddr a).

Lemma fwd_parse_args_ok b0 fuel opts h :
  ready b0 h → Forall (opt_ok b0 fuel) opts → NoDup opts.*1 →
  ends (parse_args fuel opts) (λ p h',
    p.1 = EXIT_SUCCESS ∧ accepted b0 p.2 h' ∨ p.1 = EXIT_FAILURE ∧ spare 3 b0 h') (quit b0) h.
Proof.
  intros Hr Hok Hnd. unfold parse_args.
  apply ends_bind, ends_wp, wp_modify, ends_bind, ends_wp, wp_modify.
  set (h1 := CliArgParse.set_if_array _ _). set (a0 := ApplArgs _ _ _ _ _ _).
  assert (Hp : parsed b0 a0 h1) by (split; [by apply ready_holds|done]).
  apply ends_bind. eapply ends_mono; [|done|apply (fwd_parse_options_ok b0 fuel opts a0 h1 Hp Hok Hnd)].
  2: { intros o _. by split_and!. }
  intros [rc a] h' [Hrc Hpa]. simpl in Hpa. cbn [fst snd]. apply ends_wp.
  assert (Hfail : wp (parse_args_cleanup;; mret (EXIT_FAILURE, a)) (λ p h',
    p.1 = EXIT_SUCCESS ∧ accepted b0 p.2 h' ∨ p.1 = EXIT_FAILURE ∧ spare 3 b0 h') h').
  { apply wp_bind. eapply wp_mono; [|by eapply cleanup_kept, (fwd_parsed_kept _ a)].
    intros [] h2 Hc. apply wp_ret. by right. }
  destruct (rc =? -1); [done|]. apply wp_bind, wp_gets. pose proof (holds_count _ _ _ (proj1 Hpa)) as Hnn.
  destruct (Z.eqb_spec (CliArgParse.if_count h') 0); [done|].
  destruct (Z.ltb_spec NFP_FP_INTERFACE_MAX (CliArgParse.if_count h')); [done|].
  case_bool_decide as Hla; [done|]. case_bool_decide as Hra; [done|].
  apply wp_ret. left. split; [done|]. split_and!; [done|lia|done|by apply not_eq_None_Some|by apply not_eq_None_Some].
Qed.

(** ** Frames *)

Section Frames.
Context {W F : Type} `{!App W F, !SocketLaws W F}.
Local Abbreviation st := (app W F fwd_t).
Implicit Types (s : st).

(** What the sockets do with memory. *)
Definition memory_alike s s' : Prop := alike (heap (glob s)) (heap (glob s')).

#[global] Instance memory_alike_preorder : PreOrder memory_alike.
Proof. unfold memory_alike. split; [by intros s|]. intros s1 s2 s3. apply transitivity. Qed.

Lemma alike_alloc b : keeps alike (CliArgParse.alloc b).
Proof.
  intros h r h' H. unfold CliArgParse.alloc in H. destruct (CliArgParse.oracle h _); simplify_eq;
    split_and!; simpl; done || lia.
Qed.
Lemma alike_modify f : keeps alike (modify (CliArgParse.set_blocks f)).
Proof. intros h r h' [= <- <-]. by split_and!. Qed.
Hint Resolve alike_alloc alike_modify : keeps.

Lemma alike_store p c : keeps alike (CliArgParse.store_char p c).
Proof. unfold CliArgParse.store_char. frame. Qed.
Lemma alike_free p : keeps alike (CliArgParse.free p).
Proof. unfold CliArgParse.free. frame. Qed.
Lemma alike_chars p : keeps alike (CliArgParse.chars p).
Proof. unfold CliArgParse.chars. frame. Qed.

Lemma alike_on_heap {A} (c : M CliArgParse.state A) :
  keeps alike c → keeps memory_alike (on_heap c : M st A).
Proof.
  intros Hc s a s' H. unfold on_heap in H. cbn in H. destruct (c (heap (glob s))) as [o h] eqn:E.
  injection H as -> <-. exact (Hc _ _ _ E).
Qed.

Lemma alike_glob {A} (c : M st A) : (∀ s a s', c s = (Ret a, s') → heap (glob s') = heap (glob s)) → keeps memory_alike c.
Proof. intros Hc s a s' H%Hc. unfold memory_alike. by rewrite H. Qed.
Lemma alike_call c : keeps memory_alike (call c : M st _).
Proof. apply alike_glob. intros s a s' H. unfold call in H. destruct (api _ _). by injection H as _ <-. Qed.
Hint Resolve alike_call : keeps.
Lemma alike_callv c : keeps memory_alike (callv c : M st Z).
Proof. unfold callv. frame. Qed.
Lemma alike_call_ c : keeps memory_alike (call_ c : M st unit).
Proof. unfold call_. frame. Qed.
Lemma alike_getg {A} (f : fwd_t → A) : keeps memory_alike (getg f : M st A).
Proof. apply keeps_gets, _. Qed.
Lemma alike_setg f : (∀ g, heap (f g) = heap g) → keeps memory_alike (setg f : M st unit).
Proof. intros Hf. apply alike_glob. intros s a s' [= _ <-]. apply Hf. Qed.
Hint Resolve alike_callv alike_call_ alike_getg : keeps.
Hint Extern 1 (keeps memory_alike (setg _)) => apply alike_setg; reflexivity : keeps.
Hint Extern 1 (keeps memory_alike (on_heap _)) =>
  apply alike_on_heap; first [apply alike_alloc | apply alike_store | apply alike_free | apply alike_chars] : keeps.

Lemma alike_cfg n l r : keeps memory_alike (udp_fwd_cfg n l r : M st Z).
Proof. unfold udp_fwd_cfg, cfg_socket, create_local_sock. frame. Qed.
Lemma alike_cleanup : keeps memory_alike (udp_fwd_cleanup : M st Z).
Proof. unfold udp_fwd_cleanup, close_socket. frame. Qed.

(** They leave the other resources alone. *)
Hint Extern 1 (keeps (Resources.neutral params) (on_heap _)) =>
  apply neutral_on_heap_any; reflexivity : keeps.
Lemma neutral_cfg n l r : keeps (Resources.neutral params) (udp_fwd_cfg n l r : M st Z).
Proof. unfold udp_fwd_cfg, cfg_socket, create_local_sock. frame. Qed.
Lemma neutral_fwd_cleanup : keeps (Resources.neutral params) (udp_fwd_cleanup : M st Z).
Proof. unfold udp_fwd_cleanup, close_socket. frame. Qed.
End Frames.

(** ** [main] *)

Section Start.
Context {W F : Type} `{!App W F, !SocketLaws W F, !PacketLaws W F}.
Context (b0 : memory) (o0 : gset Z) (fuel : nat).
Local Abbreviation st := (app W F fwd_t).
Implicit Types (s : st).
Local Abbreviation neutral := (Resources.neutral (λ g : fwd_t, g)).
Local Abbreviation fine := (AppProofs.fine any o0 o0 fuel).

(** Nothing is held any more. *)
Definition released s0 s : Prop := ended 3 b0 s0 s ∧ fine s.

Definition returned s0 (rc : Z) s : Prop := (rc = EXIT_SUCCESS ∨ rc = EXIT_FAILURE) ∧ released s0 s.

Definition exited s0 (c : Z) s : Prop :=
  (c = EXIT_SUCCESS ∨ c = EXIT_FAILURE) ∧
  (released s0 s ∨ c = EXIT_FAILURE ∧ moves s0 [] s [R_nfp] ∧ spare 3 b0 (heap (glob s)) ∧ fine s ∧
     ∃ num, FpmDirectStart.too_few num s0 s).

(** With the globals [g], the stack and at most [n] threads. *)
Definition stage (g : fwd_t) (n : nat) s0 s : Prop := with_threads n s0 s ∧ fine s ∧ glob s = g.

Lemma stage_calm g n s0 s s' : stage g n s0 s → neutral s s' → idle s s' → stage g n s0 s'.
Proof.
  intros (Ht & Hf & Hg) Hn Hi. split_and!; [by eapply threads_neutral|by apply Hi|].
  destruct Hn as (_ & -> & _). done.
Qed.

Lemma ends_calm {A B} (c : M st A) (f : A → M st B) (R : A → Prop) Q X g n s0 s :
  stage g n s0 s → keeps neutral c → keeps idle c → wp c (λ a _, R a) s →
  (∀ a s', R a → stage g n s0 s' → neutral s s' → ends (f a) Q X s') → ends (c ≫= f) Q X s.
Proof.
  intros Hs Hn Hi Hw Hf. apply ends_bind, ends_wp.
  eapply wp_mono; [|apply (wp_keeps neutral); [exact Hn|apply (wp_keeps idle); [exact Hi|exact Hw]]].
  intros a s' [[Ha Hi'] Hn']. apply Hf; [done|by eapply stage_calm|done].
Qed.

Lemma wp_calm {A B} (c : M st A) (f : A → M st B) (R : A → Prop) Q g n s0 s :
  stage g n s0 s → keeps neutral c → keeps idle c → wp c (λ a _, R a) s →
  (∀ a s', R a → stage g n s0 s' → wp (f a) Q s') → wp (c ≫= f) Q s.
Proof.
  intros Hs Hn Hi Hw Hf. apply wp_ends. eapply ends_calm; [done..|]. intros. by apply ends_wp, Hf.
Qed.

Lemma stage_join g n s0 s m r w :
  stage g n s0 s → api (A_thread_join m) (world s) = (r, w) →
  stage g (n - Z.to_nat m) s0 (after s (A_thread_join m) r w).
Proof.
  intros (Ht & Hf & Hg) E. split_and!; [by apply threads_join| |done].
  by apply (idle_after s (A_thread_join m) r w).
Qed.

Lemma fwd_terminate_ok s0 s :
  with_threads 0 s0 s → kept 3 b0 (heap (glob s)) → fine s → wp terminate (λ _ s', released s0 s') s.
Proof.
  intros Ht Hk Hf. eapply wp_mono; [|apply (wp_keeps idle); [unfold terminate; frame|by apply (terminate_ok 3 b0 s0)]].
  intros [] s' [He Hi]. split; [done|by apply Hi].
Qed.

Lemma fwd_give_up_ok g s0 s (A : Type) (Q : A → st → Prop) :
  stage g 0 s0 s → kept 3 b0 (heap g) → ends (terminate;; exit EXIT_FAILURE) Q (exited s0) s.
Proof.
  intros (Ht & Hf & Hg) Hk. apply ends_bind, ends_wp. eapply wp_mono; [|apply fwd_terminate_ok; [done|by rewrite Hg|done]].
  intros [] s' He. apply ends_exit. split; [by right|by left].
Qed.

Lemma stop_threads_ok g n s0 s m (timers : bool) :
  stage g n s0 s → kept 3 b0 (heap g) → 0 ≤ m → (n ≤ Z.to_nat m + (if timers then 1 else 0))%nat →
  wp (stop_threads m timers) (returned s0) s.
Proof.
  intros Hs Hk Hm Hn. eapply (wp_calm _ _ (λ _, True)); [exact Hs|frame|frame|apply any_call_|]. intros [] s1 _ Hs1.
  assert (Hjoin : ∀ (k : nat) s2 (b : bool) j, stage g k s0 s2 →
    wp (when b (call_ (A_thread_join j))) (λ _ s3, stage g (if b then k - Z.to_nat j else k) s0 s3) s2).
  { intros k s2 [|] j Hs2; [|by apply wp_ret]. apply wp_call_. intros r w E. by apply stage_join. }
  apply wp_bind. eapply wp_mono; [|by apply Hjoin]. intros [] s2 Hs2. simpl in Hs2.
  apply wp_bind. eapply wp_mono; [|by apply Hjoin]. intros [] s3 Hs3. simpl in Hs3.
  assert (H0 : (if timers then (if (0 <? m)%Z then n - Z.to_nat m else n) - Z.to_nat 1
                else if (0 <? m)%Z then n - Z.to_nat m else n)%nat = 0%nat).
  { destruct (Z.ltb_spec 0 m), timers; lia. }
  rewrite H0 in Hs3. destruct Hs3 as (Ht & Hf & Hg).
  apply wp_bind. eapply wp_mono; [|apply (fwd_terminate_ok s0); [done|by rewrite Hg|done]].
  intros [] s' He. apply wp_ret. split; [by right|done].
Qed.

(** The sockets, to the end of the program. *)
Lemma forward_ok g s0 s num :
  stage g (S (Z.to_nat num)) s0 s → accepted b0 (params g) (heap g) → raddr g = None →
  wp (forward num (params g)) (returned s0) s.
Proof.
  intros Hs ((Hh & Hsock) & Hcnt & Hla & Hra) Hnone.
  assert (Hread : ∀ p s1 n, stage g n s0 s1 → p = laddr (params g) ∨ p = args_raddr (params g) →
    readable (heap_of (glob s1)) p).
  { intros p s1 n (_ & _ & Hg) Hp. cbn. rewrite Hg. destruct p as [p|]; [|done].
    apply (holds_readable _ _ _ _ Hh). unfold copies. destruct Hp as [<-|<-]; simpl; set_solver. }
  eapply (wp_calm _ _ (λ _, True)); [exact Hs|frame|frame|apply any_call_|]. intros [] s1 _ Hs1.
  eapply wp_calm; [exact Hs1|frame|frame|apply arg_string_ok; eapply Hread; eauto|]. intros l s2 Hl Hs2.
  destruct (Hl Hla) as [lt ->]. apply wp_bind. eapply wp_of_option; [done|].
  eapply wp_calm; [exact Hs2|frame|frame|apply arg_string_ok; eapply Hread; eauto|]. intros r s3 Hr Hs3.
  destruct (Hr Hra) as [rt ->]. apply wp_bind. eapply wp_of_option; [done|].
  destruct Hs3 as (Ht3 & Hf3 & Hg3).
  assert (Hgood : CliArgParseProofs.good (heap (glob s3))).
  { rewrite Hg3. by destruct Hh as (b1 & _ & _ & Hgd & _). }
  (* configuration *)
  apply wp_bind. eapply wp_mono; [|apply (wp_keeps (Resources.neutral params)); [apply neutral_cfg|
    apply (wp_keeps memory_alike); [apply alike_cfg|
      apply (udp_fwd_cfg_ok o0 fuel); [lia|done|done|by rewrite Hg3]]]].
  intros rc s4 [[(fds & Hcl & _) Hal4] Hn4].
  pose proof (threads_neutral _ _ _ _ _ Ht3 Hn4) as Ht4.
  (* the threads end *)
  assert (Hmid : ∀ (b : bool), wp (when b (call_ A_stop_processing)) (λ _ s5,
    with_threads (S (Z.to_nat num)) s0 s5 ∧ to_clean o0 fuel (CliArgParse.blocks (heap (glob s3))) fds s5 ∧
    glob s5 = glob s4) s4).
  { intros [|]; [|by apply wp_ret]. apply wp_call_. intros r w E. split_and!; [|by apply to_clean_after|done].
    eapply (threads_neutral (λ g, g)); [exact Ht4|by apply neutral_after]. }
  apply wp_bind. eapply wp_mono; [|apply Hmid]. intros [] s5 (Ht5 & Hcl5 & Hg5).
  apply wp_bind, wp_call_. intros r6 w6 E6. apply wp_bind, wp_call_. intros r7 w7 E7.
  set (s7 := after _ (A_thread_join 1) r7 w7).
  assert (Ht7 : with_threads 0 s0 s7).
  { pose proof (threads_join _ _ _ 1 r7 w7 (threads_join _ _ _ num r6 w6 Ht5)) as H7.
    by replace (S (Z.to_nat num) - Z.to_nat num - Z.to_nat 1)%nat with 0%nat in H7 by lia. }
  assert (Hcl7 : to_clean o0 fuel (CliArgParse.blocks (heap (glob s3))) fds s7).
  { eapply to_clean_after; [eapply to_clean_after; [exact Hcl5|exact E6|done|done]|exact E7|done|done]. }
  (* the sockets are closed *)
  apply wp_bind. eapply wp_mono; [|apply (wp_keeps (Resources.neutral params)); [apply neutral_fwd_cleanup|
    apply (wp_keeps memory_alike); [apply alike_cleanup|exact (udp_fwd_cleanup_ok o0 fuel _ fds _ Hcl7)]]].
  intros rc8 s8 [[(-> & (_ & _ & Hf8) & Hb8 & _) Hal8] Hn8].
  assert (Hk8 : kept 3 b0 (heap (glob s8))).
  { eapply fwd_parsed_kept. split; [|exact Hsock]. eapply holds_agree; [exact Hh| |].
    - rewrite <- Hg3. etrans; [exact Hal4|]. rewrite <- Hg5. exact Hal8.
    - by rewrite Hb8, Hg3. }
  apply wp_assoc, wp_bind. eapply wp_mono; [|apply (fwd_terminate_ok s0)].
  - intros [] s9 He. apply wp_ret. split; [by left|done].
  - by eapply threads_neutral.
  - done.
  - simpl in Hf8. by rewrite union_empty_l_L in Hf8.
Qed.

(** ** Interfaces *)

Hint Resolve FpmDirectStart.neutral_store FpmDirectStart.neutral_entry FpmDirectStart.neutral_if_count
  FpmDirectStart.neutral_name : keeps.

Lemma idle_name i : keeps idle (FpmDirect.interface_name i : M st _).
Proof. unfold FpmDirect.interface_name. frame. Qed.
Lemma idle_addresses ids : keeps idle (configure_interface_addresses ids : M st _).
Proof. unfold configure_interface_addresses, FpmDirect.configure_interface_addresses, FpmDirect.if_count. frame. Qed.
Hint Resolve idle_name idle_addresses : keeps.

(** The array has 64 arguments for up to 8 queues each. *)
Definition args_fine (args : list pktio_thr_arg) : Prop :=
  Z.of_nat (length args) = MAX_WORKERS ∧
  ∀ j w, args !! j = Some w → Z.of_nat (length (pktin w)) = NFP_FP_INTERFACE_MAX.

Lemma args_insert args j w :
  args_fine args → Z.of_nat (length (pktin w)) = NFP_FP_INTERFACE_MAX → args_fine (<[j := w]> args).
Proof.
  intros [Hl Hw] Hlen. split; [by rewrite length_insert|].
  intros j' w' [(-> & -> & _)|[_ ?]]%list_lookup_insert_Some; [done|by eapply Hw].
Qed.

Lemma args_lookup args j : args_fine args → j < MAX_WORKERS → 0 ≤ j → ∃ w, args !! Z.to_nat j = Some w.
Proof. intros [Hl _] Hj H0. apply lookup_lt_is_Some_2. lia. Qed.

Lemma queues_stored {G} (q : areply F) num i args (s : app W F G) :
  args_fine args → 0 ≤ i < NFP_FP_INTERFACE_MAX → num ≤ MAX_WORKERS →
  length (FpmDirectProofs.entries q) = Z.to_nat num →
  wp (for_acc 0 (Z.to_nat num) (λ j args, h ← FpmDirect.entry_at q j; store_pktin args j i h) args)
    (λ args' (s' : app W F G), s' = s ∧ args_fine args') s.
Proof.
  intros Hf Hi Hnum Hlen.
  eapply wp_mono; [|apply (wp_for_acc _ (λ _ args' (s' : app W F G), s' = s ∧ args_fine args'))]; [done|done|].
  intros j args' s' Hj [-> Hf']. destruct (lookup_lt_is_Some_2 (FpmDirectProofs.entries q) (Z.to_nat j)) as [x Hx]; [lia|].
  apply wp_bind. eapply FpmDirectProofs.wp_entry; [exact Hx|]. destruct (args_lookup args' j Hf') as [w Hw]; [lia..|].
  pose proof (proj2 Hf' _ _ Hw) as Hlw.
  apply wp_bind. eapply wp_of_option; [exact Hw|]. apply wp_bind, FpmDirectStart.store_ok; [lia|].
  apply FpmDirectStart.store_ok; [by eapply lookup_lt_Some|]. split; [done|].
  apply args_insert; [done|]. simpl. by rewrite length_insert.
Qed.

Definition opened g s0 (x : list (Z * Z) * list pktio_thr_arg) s : Prop :=
  stage g 0 s0 s ∧ Z.of_nat (length x.1) = NFP_FP_INTERFACE_MAX ∧ args_fine x.2.

Lemma too_few_exit g s0 s (A : Type) (Q : A → st → Prop) num :
  stage g 0 s0 s → kept 3 b0 (heap g) → FpmDirectStart.too_few num s0 s →
  ends (on_heap parse_args_cleanup;; exit EXIT_FAILURE) Q (exited s0) s.
Proof.
  intros (Ht & Hf & Hg) Hk (t & io & r & Htr & Hr). apply ends_bind, ends_wp.
  eapply wp_mono; [|apply (wp_keeps idle); [frame|apply (release_ok 3 b0 s); cbn; by rewrite Hg]].
  intros [] s' [(Ht' & Hw' & Hs) Hi]. apply ends_exit. split; [by right|]. right.
  destruct ((proj1 (threads_none _ _)) Ht) as (u & Hu & Hheld).
  split_and!; [done|exists u; by rewrite Ht'|done|by apply Hi|].
  exists num, t, io, r. by rewrite Ht'.
Qed.

Lemma open_interface_ok g es s0 s num i x :
  listed (heap g) es → kept 3 b0 (heap g) → 0 ≤ i < Z.of_nat (length es) → i < NFP_FP_INTERFACE_MAX →
  num ≤ MAX_WORKERS → opened g s0 x s →
  ends (open_interface num i x) (opened g s0) (exited s0) s.
Proof.
  intros Hl Hk Hi Hmax Hnum (Hs & Hids & Hf). destruct x as [ids args]. simpl in Hids, Hf.
  assert (Hname : wp (FpmDirect.interface_name i : M st _) (λ _ _, True) s).
  { eapply FpmDirectStart.interface_name_ok; [|exact Hi|done]. destruct Hs as (_ & _ & Hg). cbn. by rewrite Hg. }
  eapply (ends_calm _ _ (λ _, True)); [exact Hs|frame|frame|exact Hname|]. intros name s1 _ Hs1 _.
  eapply (ends_calm _ _ (λ _, True)); [exact Hs1|frame|frame|apply any_call|]. intros c s2 _ Hs2 _.
  apply ends_bind, ends_wp, FpmDirectStart.store_ok; [lia|].
  destruct (_ <? 0); [by apply (fwd_give_up_ok g)|].
  eapply (ends_calm _ _ (λ _, True)); [exact Hs2|frame|frame|apply any_callv|]. intros io s3 _ Hs3 _.
  destruct (_ =? 0); [by apply (fwd_give_up_ok g)|].
  apply ends_bind, ends_wp, wp_call. intros q w E. set (s4 := after s3 _ q w).
  assert (Hs4 : stage g 0 s0 s4).
  { eapply stage_calm; [exact Hs3|by apply neutral_after|by apply idle_after]. }
  destruct (Z.eqb_spec (r_val q) num) as [Hq|Hq]; cbn [negb].
  2: { apply (too_few_exit g _ _ _ _ num); [done..|]. destruct Hs3 as [(t & Ht & _)%threads_none _].
       exists t, io, q. simpl. by rewrite Ht, app_assoc. }
  pose proof (FpmDirectProofs.length_entries q (queue_table _ _ _ _ _ E)) as Hlen. rewrite Hq in Hlen.
  eapply (ends_calm _ _ (λ _, True)); [exact Hs4|frame|frame|apply any_callv|]. intros o s5 _ Hs5 _.
  destruct (negb _); [by apply (fwd_give_up_ok g)|]. apply ends_bind, ends_wp.
  eapply wp_mono; [|apply (queues_stored q num i); [done|lia|done|done]]. intros args' s' [-> Hf']. apply ends_wp, wp_ret.
  split_and!; [done| |done]. simpl. by rewrite length_insert.
Qed.

(** ** Workers *)

Lemma fwd_create_ok g num args s0 s :
  stage g 0 s0 s → args_fine args → 0 ≤ num ≤ MAX_WORKERS →
  wp (create_workers num args) (λ r s', match r with
    | inl _ => stage g (Z.to_nat num) s0 s'
    | inr i => 0 ≤ i ∧ stage g (Z.to_nat i) s0 s'
    end) s.
Proof.
  intros Hs Hf Hnum.
  eapply wp_mono; [|eapply (wp_for_ret _ (λ i args' s', args_fine args' ∧ stage g (Z.to_nat i) s0 s')
    (λ i s', 0 ≤ i ∧ stage g (Z.to_nat i) s0 s'))].
  - intros [args'|i] s' H; [|done]. rewrite Z.add_0_l, Nat2Z.id in H. by destruct H.
  - done.
  - intros i args' s1 Hi [Hf' Hs1]. apply wp_bind, wp_getg.
    destruct (args_lookup args' i Hf') as [w0 Hw0]; [lia..|]. pose proof (proj2 Hf' _ _ Hw0) as Hlw.
    apply wp_bind. eapply wp_of_option; [exact Hw0|].
    apply wp_bind, FpmDirectStart.store_ok; [by eapply lookup_lt_Some|]. apply wp_bind, wp_getg.
    apply wp_bind, wp_callv. intros r w E. destruct Hs1 as (Ht & Hfi & Hg).
    assert (Hfi' : fine (after s1 (A_thread_create (if single_pkt_API (params (glob s1)) then THREAD_pkt_io_recv_single
      else THREAD_pkt_io_recv) (1 + i)) r w)) by (by apply (idle_after s1)).
    destruct (Z.eqb_spec (r_val r) 1) as [Hr|Hr]; cbn [negb]; apply wp_ret.
    + split; [by apply args_insert|]. replace (Z.to_nat (i + 1)) with (S (Z.to_nat i)) by lia.
      split_and!; [by apply threads_create|done|done].
    + split; [lia|]. split_and!; [by apply threads_failed|done|done].
Qed.

Lemma stage_create g n s0 s f i r w :
  stage g n s0 s → api (A_thread_create f i) (world s) = (r, w) →
  stage g (if r_val r =? 1 then S n else n) s0 (after s (A_thread_create f i) r w).
Proof.
  intros (Ht & Hf & Hg) E. split_and!; [|by apply (idle_after s (A_thread_create f i) r w)|done].
  destruct (Z.eqb_spec (r_val r) 1); [by apply threads_create|by apply threads_failed].
Qed.

(** With the workers running. *)
Lemma fwd_end_ok g es s0 s num core ids :
  stage g (Z.to_nat num) s0 s → accepted b0 (params g) (heap g) → raddr g = None → 0 ≤ num →
  listed (heap g) es → (length es ≤ length ids)%nat →
  wp (d ← callv (A_thread_create THREAD_event_dispatcher core);
      if negb (d =? 1) then stop_threads num false
      else
        r ← configure_interface_addresses ids;
        if negb (r =? 0) then stop_threads num true
        else
          file ← arg_string (cli_file (params g));
          r ← callv (A_cli_process_file file);
          if negb (r =? 0) then stop_threads num true
          else forward num (params g)) (returned s0) s.
Proof.
  intros Hs Hacc Hnone Hnum Hl Hle.
  assert (Hk : kept 3 b0 (heap g)) by apply (fwd_parsed_kept _ (params g)), Hacc.
  apply wp_bind, wp_callv. intros r w E. pose proof (stage_create _ _ _ _ _ _ _ _ Hs E) as Hs1.
  destruct (Z.eqb_spec (r_val r) 1) as [Hr|Hr]; cbn [negb]; [|eapply stop_threads_ok; [exact Hs1|done|done|lia]].
  eapply (wp_calm _ _ (λ _, True)); [exact Hs1|apply FpmDirectStart.neutral_addresses|frame| |].
  { eapply FpmDirectStart.addresses_ok; [|exact Hle]. destruct Hs1 as (_ & _ & Hg). cbn -[after]. by rewrite Hg. }
  intros rc s2 _ Hs2. destruct (negb _); [eapply stop_threads_ok; [exact Hs2|done|done|lia]|].
  eapply (wp_calm _ _ (λ _, True)); [exact Hs2|frame|frame| |].
  { eapply wp_mono; [|apply arg_string_ok]; [done|]. destruct Hs2 as (_ & _ & Hg). cbn. rewrite Hg.
    destruct (cli_file (params g)) as [p|] eqn:Hc; [|done]. apply (holds_readable _ _ _ _ (proj1 (proj1 Hacc))).
    unfold copies. rewrite Hc. simpl. set_solver. }
  intros file s3 _ Hs3. eapply (wp_calm _ _ (λ _, True)); [exact Hs3|frame|frame|apply any_callv|].
  intros rc2 s4 _ Hs4. destruct (negb _); [eapply stop_threads_ok; [exact Hs4|done|done|lia]|].
  by apply forward_ok.
Qed.

Definition no_queues : list pktio_thr_arg :=
  replicate (Z.to_nat MAX_WORKERS) (PktioThrArg 0 (replicate (Z.to_nat NFP_FP_INTERFACE_MAX) 0)).

Lemma no_queues_fine : args_fine no_queues.
Proof. split; [done|]. by intros j w [-> _]%lookup_replicate. Qed.

(** With the stack running. *)
Lemma fwd_run_ok g s0 s core :
  stage g 0 s0 s → accepted b0 (params g) (heap g) → raddr g = None →
  ends (cpus ← callv A_cpu_count;
        let num_workers := workers_of cpus (core_count (params g)) in
        if num_workers <? 1 then terminate;; exit EXIT_FAILURE
        else
          n ← FpmDirect.if_count;
          st ← for_acc 0 (Z.to_nat n) (open_interface num_workers)
                 (replicate (Z.to_nat NFP_FP_INTERFACE_MAX) (0, 0), no_queues);
          t ← create_workers num_workers st.2;
          match t with
          | inr i => stop_threads i false
          | inl _ =>
              d ← callv (A_thread_create THREAD_event_dispatcher core);
              if negb (d =? 1) then stop_threads num_workers false
              else
                r ← configure_interface_addresses st.1;
                if negb (r =? 0) then stop_threads num_workers true
                else
                  file ← arg_string (cli_file (params g));
                  r ← callv (A_cli_process_file file);
                  if negb (r =? 0) then stop_threads num_workers true
                  else forward num_workers (params g)
          end) (returned s0) (exited s0) s.
Proof.
  intros Hs Hacc Hnone. assert (Hk : kept 3 b0 (heap g)) by apply (fwd_parsed_kept _ (params g)), Hacc.
  destruct (holds_listed _ _ _ (proj1 (proj1 Hacc))) as [es Hl]; [destruct Hacc as (_ & ? & _); lia|].
  pose proof (proj1 Hl) as Hn. pose proof (proj1 (proj2 Hacc)) as Hcnt.
  eapply (ends_calm _ _ (λ _, True)); [exact Hs|frame|frame|apply any_callv|]. intros cpus s1 _ Hs1 _.
  cbv zeta. set (num := workers_of cpus (core_count (params g))).
  assert (Hmax : num ≤ MAX_WORKERS).
  { unfold num, workers_of. destruct (Z.ltb_spec MAX_WORKERS (if negb (core_count (params g) =? 0) &&
      (core_count (params g) <? cpus - 1) then core_count (params g) else cpus - 1)); lia. }
  destruct (Z.ltb_spec num 1); [by apply (fwd_give_up_ok g)|].
  apply ends_bind, ends_wp, wp_getg. destruct Hs1 as (Ht1 & Hf1 & Hg1). cbn [heap_of fwd_heap]. rewrite Hg1, Hn.
  apply ends_bind. eapply ends_mono; [|intros ? ? Hx; exact Hx|eapply (ends_for_acc _ (λ _, opened g s0))].
  - intros x s2 (Hs2 & Hids & Hf). apply ends_wp, wp_bind.
    eapply wp_mono; [|apply (fwd_create_ok g num x.2 s0); [done|done|lia]].
    intros [args|i] s3 Hr; [|eapply stop_threads_ok; [apply Hr|done|apply Hr|lia]].
    apply (fwd_end_ok g es); [done..|lia|done|lia].
  - split; [by split_and!|]. split; [done|apply no_queues_fine].
  - intros i x s2 Hi Hop. eapply open_interface_ok; [exact Hl|exact Hk|lia|lia|done|done].
Qed.

Lemma idle_sigaction : keeps idle (FpmDirect.nfpexpl_sigaction_set : M st Z).
Proof. unfold FpmDirect.nfpexpl_sigaction_set, FpmDirect.linux_sigaction. frame. Qed.
Lemma neutral_sigactions : keeps neutral (FpmDirect.nfpexpl_sigaction_set : M st Z).
Proof. unfold FpmDirect.nfpexpl_sigaction_set, FpmDirect.linux_sigaction. frame. Qed.
Lemma sigactions_ok s : wp (FpmDirect.nfpexpl_sigaction_set : M st Z) (λ _ _, True) s.
Proof. unfold FpmDirect.nfpexpl_sigaction_set, FpmDirect.linux_sigaction. runs. Qed.

(** The stack is started, or nothing is held. *)
Lemma fwd_initialize_ok s0 s core a :
  moves s0 [] s [] → fine s → accepted b0 a (heap (glob s)) → params (glob s) = a → raddr (glob s) = None →
  ends (r ← callv (A_initialize 0 []);
        if negb (r =? 0) then on_heap parse_args_cleanup;; exit EXIT_FAILURE
        else
          cpus ← callv A_cpu_count;
          let num_workers := workers_of cpus (core_count a) in
          if num_workers <? 1 then terminate;; exit EXIT_FAILURE
          else
            n ← FpmDirect.if_count;
            st ← for_acc 0 (Z.to_nat n) (open_interface num_workers)
                   (replicate (Z.to_nat NFP_FP_INTERFACE_MAX) (0, 0), no_queues);
            t ← create_workers num_workers st.2;
            match t with
            | inr i => stop_threads i false
            | inl _ =>
                d ← callv (A_thread_create THREAD_event_dispatcher core);
                if negb (d =? 1) then stop_threads num_workers false
                else
                  r ← configure_interface_addresses st.1;
                  if negb (r =? 0) then stop_threads num_workers true
                  else
                    file ← arg_string (cli_file a);
                    r ← callv (A_cli_process_file file);
                    if negb (r =? 0) then stop_threads num_workers true
                    else forward num_workers a
            end) (returned s0) (exited s0) s.
Proof.
  intros Hm Hf Hacc Ha Hnone. apply ends_bind, ends_wp, wp_callv. intros r w E. set (s1 := after s _ r w).
  assert (Hf1 : fine s1) by (by apply (idle_after s (A_initialize 0 []) r w)).
  destruct (Z.eqb_spec (r_val r) 0) as [Hr|Hr]; cbn [negb].
  - subst a. apply (fwd_run_ok (glob s)); [|done..]. split_and!; [|done..].
    apply threads_none. eapply moves_trans; [exact Hm|]. apply moves_after. unfold hold. cbn [fst snd].
    by rewrite (proj2 (Z.eqb_eq _ _) Hr).
  - apply ends_bind, ends_wp.
    eapply wp_mono; [|apply (wp_keeps idle); [frame|apply (release_ok 3 b0 s1), (fwd_parsed_kept _ a), Hacc]].
    intros [] s2 [(Ht & _ & Hs) Hi]. apply ends_exit. split; [by right|]. left.
    split; [|by apply Hi]. split; [done|]. eapply moves_trans; [exact Hm|].
    exists [(A_initialize 0 [], r)]. split; [by rewrite Ht|]. cbn -[Z.eqb]. by rewrite (proj2 (Z.eqb_neq _ _) Hr).
Qed.

(** [C13] [main] ends on every path, by returning or by [exit], with 0 or 1.
    Whatever fails on the way (an option, the stack, an interface, a thread,
    the CLI file, a socket), the sockets have been closed, the threads that
    were started were joined before the stack was terminated, and the memory of the
    interface list and of the local sockets has been freed.  The copies of the
    arguments of [-f], [-l] and [-r] are never freed, on no path: at most these
    three blocks are left.  The one exception is an interface with the wrong
    number of input queues: then the process exits with the stack still
    running.  All this when each option is given at most once and memory does
    not run out while options are read. *)
Theorem udp_fwd_main_releases_resources core opts s :
  ready b0 (heap (glob s)) → fine s → raddr (glob s) = None →
  Forall (opt_ok b0 fuel) opts → NoDup opts.*1 →
  ∃ o s' t, main fuel core opts s = (o, s') ∧ trace s' = trace s ++ t ∧
    match o with Ret c | Exit c => c = EXIT_SUCCESS ∨ c = EXIT_FAILURE | _ => False end ∧
    fine s' ∧ spare 3 b0 (heap (glob s')) ∧
    (held [] t = Some [] ∨
     o = Exit EXIT_FAILURE ∧ held [] t = Some [R_nfp] ∧
     ∃ t' io num r, t = t' ++ [(A_pktin_queue io num, r)] ∧ r_val r ≠ num).
Proof.
  intros Hready Hf Hnone Hok Hnd.
  enough (ends (main fuel core opts) (returned s) (exited s) s) as (o & s' & Hrun & Ho).
  { destruct o as [c|c| |]; [| |done..].
    - destruct Ho as (Hc & (Hs & t & Ht & Hheld) & Hf'). exists (Ret c), s', t. split_and!; [done..|]. by left.
    - destruct Ho as (Hc & [((Hs & t & Ht & Hheld) & Hf')|
        (-> & (t & Ht & Hheld) & Hs & Hf' & num & t' & io & r & Ht' & Hr)]);
        eexists _, s', t; (split_and!; [done..|]); [by left|right]. split_and!; [done..|].
      exists t', io, num, r. split; [|done]. rewrite Ht in Ht'. by apply app_inv_head in Ht'. }
  apply ends_bind, ends_wp. eapply wp_mono; [|apply (wp_keeps neutral); [apply neutral_sigactions|
    apply (wp_keeps idle); [apply idle_sigaction|apply sigactions_ok]]].
  intros r0 s1 [[_ Hi1] Hn1]. assert (Hg1 : glob s1 = glob s) by apply Hn1.
  assert (Hf1 : fine s1) by (by apply Hi1). assert (Hm1 : moves s [] s1 []) by apply Hn1.
  assert (Hready1 : ready b0 (heap (glob s1))) by (by rewrite Hg1).
  pose proof (ready_spare 3 _ _ Hready1) as Hspare.
  destruct (negb _); [apply ends_wp, wp_ret; by split; [right|]|].
  apply ends_bind, ends_on_heap. eapply ends_mono; [| |by apply (fwd_parse_args_ok b0)].
  2: { intros c h [-> Hs]. split; [by left|]. left. split; [by split|]. by apply (idle_same s1). }
  intros [prc a] h Hres. simpl in Hres. apply ends_bind, ends_wp, wp_setg. cbn [fst snd].
  set (s2 := MkApp _ _ _ _). assert (Hm2 : moves s [] s2 []) by exact Hm1.
  assert (Hf2 : fine s2) by (by apply (idle_same s1)).
  destruct Hres as [[-> Hacc]|[-> Hs]]; [|apply ends_wp, wp_ret; by split; [right|]].
  change (EXIT_SUCCESS =? EXIT_SUCCESS) with true. cbn [negb].
  apply fwd_initialize_ok; [done..|]. simpl. by rewrite Hg1.
Qed.
End Start.

(** ** Witness *)

(** The command line "-i eth0 -l eth0 -r eth0", with one string for the three
    arguments. *)
Definition demo_memory : CliArgParse.state := CliArgParseProofs.sample "eth0".
Definition demo_options : list (Z * CliArgParse.ptr) :=
  [(105, (1%positive, 0%nat)); (108, (1%positive, 0%nat)); (114, (1%positive, 0%nat))].
Definition demo_start : app demo (gset Z) fwd_t :=
  MkApp (Demo 3 3) 0 [] (Fwd demo_memory (ApplArgs 0 0 None None None false) None None 0).

Lemma udp_fwd_main_releases_resources_witness :
  ∃ o s' t, main 2060 0 demo_options demo_start = (o, s') ∧ trace s' = trace demo_start ++ t ∧
    match o with Ret c | Exit c => c = EXIT_SUCCESS ∨ c = EXIT_FAILURE | _ => False end ∧
    AppProofs.fine any ∅ ∅ 2060 s' ∧ spare 3 (CliArgParse.blocks demo_memory) (heap (glob s')) ∧
    (held [] t = Some [] ∨
     o = Exit EXIT_FAILURE ∧ held [] t = Some [R_nfp] ∧
     ∃ t' io num r, t = t' ++ [(A_pktin_queue io num, r)] ∧ r_val r ≠ num).
Proof.
  apply (udp_fwd_main_releases_resources (W := demo) (F := gset Z) (CliArgParse.blocks demo_memory) ∅ 2060).
  - exact FpmDirectStart.demo_ready.
  - split_and!; [|unfold enough; simpl; lia| |done].
    + split_and!; [done|done|done|]. set_solver.
    + intros t e t' Heq. by destruct t.
  - done.
  - assert (Harg : arg_ok (CliArgParse.blocks demo_memory) 2060 (1%positive, 0%nat)).
    { apply (whole_arg _ _ _ (text "eth0")); [done|apply (bool_decide_unpack _); by vm_compute|by vm_compute|vm_compute; lia]. }
    unfold demo_options. repeat constructor; by intros _.
  - apply (bool_decide_unpack _). by vm_compute.
Defined.

End UdpFwdStart.
