(* ===== verification/FpmPower.v ===== *)
(** * Packet forwarding with power saving (example/fpm_power/app_main.c)

    The workers of fpm_direct with one addition: a worker that has found its
    queues empty for long enough waits for an interrupt instead of polling.  A
    thread of its own serves the scheduler, and sleeps when that is idle.

    The functions this program has in common with fpm_direct are those of
    [FpmDirect].  Printed information is left out. *)

From S2P Require Import Prelude App AppHeap CliArgParse TcpPerf FpmDirect.
Import App AppHeap.

Module FpmPower.

(** ** Constants *)

Definition MS_IN_NS : Z := 1000000.
Definition MAX_WORKERS : Z := 64.
Definition NFP_FP_INTERFACE_MAX : Z := FpmDirect.NFP_FP_INTERFACE_MAX.
Definition PKT_BURST_SIZE : Z := FpmDirect.NFP_PKT_VECTOR_SIZE.
Definition PKT_IDLE_DETECTION_TIMEOUT : Z := 2000 * MS_IN_NS.
Definition PKT_DETECTION_TIMEOUT : Z := 100 * MS_IN_NS.
Definition EVT_IDLE_DETECTION_TIMEOUT : Z := 1 * MS_IN_NS.
Definition EVT_DETECTION_TIMEOUT : Z := 100 * MS_IN_NS.
Definition EXIT_SUCCESS : Z := 0.
Definition EXIT_FAILURE : Z := 1.
(** The thread functions. *)
Definition THREAD_pkt_io_recv : Z := 40.
Definition THREAD_pkt_io_recv_single : Z := 41.
Definition THREAD_event_dispatcher : Z := 42.

(** ** Data *)

Record worker_arg := WorkerArg { num_pktin : Z; pktin : list Z; idle_tmo : Z; pkt_tmo : Z }.

(** [itf_param] is part of the heap model of CliArgParse. *)
Record appl_args_t := ApplArgs {
  core_count : Z;
  core_start : Z;
  cli_file : option positive;
  single_pkt_API : bool;
  args_idle_tmo : Z;
  args_pkt_tmo : Z;
}.

(** The state of [main]: memory and [params]. *)
Record power_t := Power { heap : CliArgParse.state; params : appl_args_t }.

Definition set_params (x : appl_args_t) (g : power_t) : power_t := Power (heap g) x.

#[global] Program Instance power_heap : HasHeap power_t :=
  {| heap_of := heap; put_heap h g := Power h (params g) |}.
Next Obligation. done. Qed.
Next Obligation. by intros []. Qed.

(** [is_idling] and [idling_start] *)
Record idling := Idling { is_idling : bool; idling_start : Z }.

(** ** Workers *)

Section Workers.
Context {W F G : Type} `{!App W F}.
Local Abbreviation MW := (M (app W F G)).

Definition pktin_intr_wait_register (queues : list Z) (num_pktin : Z) : MW Z :=
  r ← for_ret 0 (Z.to_nat num_pktin) (λ i _,
        q ← of_option (queues !! Z.to_nat i);
        rc ← callv (A_pktin_intr_wait_register q);
        mret (if negb (rc =? 0) then inr (-1) else inl ())) ();
  mret (match r with inl _ => 0 | inr rc => rc end).

Definition pktin_intr_set (queues : list Z) (num_pktin : Z) (enable : bool) : MW Z :=
  r ← for_ret 0 (Z.to_nat num_pktin) (λ i _,
        q ← of_option (queues !! Z.to_nat i);
        rc ← callv (A_pktin_intr_set q enable);
        mret (if negb (rc =? 0) then inr (-1) else inl ())) ();
  mret (match r with inl _ => 0 | inr rc => rc end).

Definition loop_intr_wait (fuel : nat) (num timeout_ns : Z) : MW unit :=
  loop fuel (λ _ : unit,
    running ← callv A_is_running;
    if running =? 0 then mret (inr ())
    else
      r ← callv (A_pktin_intr_wait num (s32 (timeout_ns / MS_IN_NS)));
      mret (if negb (r =? 0) then inr () else inl ())) ().

Definition loop_intr_clear (fuel : nat) (num : Z) : MW unit :=
  loop fuel (λ _ : unit,
    running ← callv A_is_running;
    if running =? 0 then mret (inr ())
    else
      r ← callv (A_pktin_intr_wait num 0);
      mret (if r <=? 0 then inr () else inl ())) ().

(** [for (i = 0; i < num_pktin; i++) pktin[i] = arg->pktin[i];] *)
Definition copy_pktin (arg : worker_arg) : MW (list Z) :=
  FpmDirect.copy_pktin (FpmDirect.WorkerArg (num_pktin arg) (pktin arg) false).

(** [if (pkt_sum == 0) { .. } else { .. }]: [None] is [break]. *)
Definition save_power (fuel : nat) (arg : worker_arg) (queues : list Z) (pkt_sum : Z) (x : idling)
    : MW (option idling) :=
  let num := num_pktin arg in
  if pkt_sum =? 0 then
    if negb (is_idling x) then
      now ← callv A_time_local_ns;
      mret (Some (Idling true now))
    else
      idling_crt ← callv A_time_local_ns;
      if idle_tmo arg <? u64 (idling_crt - idling_start x) then
        loop_intr_clear fuel num;;
        rc ← pktin_intr_set queues num true;
        if rc <? 0 then mret None
        else
          loop_intr_wait fuel num (pkt_tmo arg);;
          rc ← pktin_intr_set queues num false;
          if rc <? 0 then mret None else mret (Some x)
      else mret (Some x)
  else mret (Some (Idling false (idling_start x))).

(** [if (pkt_cnt > 0) pkt_sum += pkt_cnt;] *)
Definition add_sum (pkt_sum pkt_cnt : Z) : Z :=
  if 0 <? pkt_cnt then pkt_sum + pkt_cnt else pkt_sum.

Definition input_single (queue pkt_sum : Z) : MW Z :=
  r ← call (A_pktin_recv queue PKT_BURST_SIZE);
  FpmDirect.input_packets r;;
  mret (add_sum pkt_sum (r_val r)).

Definition recv_single_step (fuel : nat) (arg : worker_arg) (queues : list Z) (x : idling)
    : MW (idling + unit) :=
  running ← callv A_is_running;
  if running =? 0 then mret (inr ())
  else
    pkt_sum ← for_acc 0 (Z.to_nat (num_pktin arg)) (λ i pkt_sum,
                q ← of_option (queues !! Z.to_nat i); input_single q pkt_sum) 0;
    call_ A_send_pending_pkt;;
    y ← save_power fuel arg queues pkt_sum x;
    mret (match y with Some y => inl y | None => inr () end).

Definition pkt_io_recv_single (fuel : nat) (arg : worker_arg) : MW Z :=
  state ← callv A_get_processing_state;
  if state =? 0 then mret (-1)
  else
    queues ← copy_pktin arg;
    rc ← pktin_intr_wait_register queues (num_pktin arg);
    if negb (rc =? 0) then mret (-1)
    else
      loop fuel (recv_single_step fuel arg queues) (Idling false 0);;
      mret 0.

Definition input_multi (queue : Z) (st : list Z * Z) : MW (list Z * Z) :=
  r ← call (A_pktin_recv queue PKT_BURST_SIZE);
  vec ← FpmDirect.add_packets r st.1;
  mret (vec, add_sum st.2 (r_val r)).

Definition recv_step (fuel : nat) (arg : worker_arg) (queues : list Z) (st : list Z * idling)
    : MW (list Z * idling + unit) :=
  running ← callv A_is_running;
  if running =? 0 then mret (inr ())
  else
    p ← for_acc 0 (Z.to_nat (num_pktin arg)) (λ i p,
          q ← of_option (queues !! Z.to_nat i); input_multi q p) (st.1, 0);
    vec ← FpmDirect.flush_vector p.1;
    call_ A_send_pending_pkt;;
    y ← save_power fuel arg queues p.2 st.2;
    mret (match y with Some y => inl (vec, y) | None => inr () end).

Definition pkt_io_recv (fuel : nat) (arg : worker_arg) : MW Z :=
  state ← callv A_get_processing_state;
  if state =? 0 then mret (-1)
  else
    queues ← copy_pktin arg;
    rc ← pktin_intr_wait_register queues (num_pktin arg);
    if negb (rc =? 0) then mret (-1)
    else
      loop fuel (recv_step fuel arg queues) ([], Idling false 0);;
      mret 0.

(** ** Scheduled events *)

Definition dispatch_event (in_queue ev : Z) : MW unit :=
  if ev =? TcpPerf.ODP_EVENT_INVALID then mret ()
  else
    ty ← callv (A_event_type ev);
    if ty =? TcpPerf.ODP_EVENT_TIMEOUT then call_ (A_timer_handle ev);; call_ A_send_pending_pkt
    else
      ty ← callv (A_event_type ev);
      if ty =? TcpPerf.ODP_EVENT_PACKET then
        call_ (A_packet_input ev in_queue);; call_ A_send_pending_pkt
      else call_ (A_event_free ev).

Definition dispatcher_step (x : idling) : MW (idling + unit) :=
  running ← callv A_is_running;
  if running =? 0 then mret (inr ())
  else
    r ← call (A_schedule_multi PKT_BURST_SIZE);
    for_from 0 (Z.to_nat (r_val r)) (λ i,
      ev ← FpmDirect.entry_at r i; dispatch_event (r_out r) ev);;
    if add_sum 0 (r_val r) =? 0 then
      now ← callv A_time_local_ns;
      if negb (is_idling x) then mret (inl (Idling true now))
      else
        when (EVT_IDLE_DETECTION_TIMEOUT <? u64 (now - idling_start x))
          (call_ (A_usleep (EVT_DETECTION_TIMEOUT / 1000)));;
        mret (inl x)
    else mret (inl (Idling false (idling_start x))).

Definition event_dispatcher (fuel : nat) : MW Z :=
  state ← callv A_get_processing_state;
  if state =? 0 then mret (-1)
  else loop fuel dispatcher_step (Idling false 0);; mret 0.
End Workers.

(** ** The command line *)

Section Options.
Local Abbreviation MC := (M CliArgParse.state).

(** [cli_file] is not freed. *)
Definition parse_args_cleanup : MC unit :=
  CliArgParse.nfpexpl_parse_interfaces_param_cleanup true.

(** One option: [res] and the new arguments.  [MS_IN_NS] is unsigned, so that
    the product wraps around. *)
Definition parse_option (fuel : nat) (opt : Z * CliArgParse.ptr) (a : appl_args_t)
    : MC (Z * appl_args_t) :=
  let '(c, optarg) := opt in
  if c =? 99 (* c *) then
    n ← CliArgParse.atoi optarg;
    mret (0, ApplArgs n (core_start a) (cli_file a) (single_pkt_API a) (args_idle_tmo a) (args_pkt_tmo a))
  else if c =? 115 (* s *) then
    n ← CliArgParse.atoi optarg;
    mret (0, ApplArgs (core_count a) n (cli_file a) (single_pkt_API a) (args_idle_tmo a) (args_pkt_tmo a))
  else if c =? 105 (* i *) then
    res ← CliArgParse.nfpexpl_parse_interfaces fuel (Some optarg) true;
    mret (if res =? EXIT_FAILURE then -1 else res, a)
  else if c =? 104 (* h *) then parse_args_cleanup;; exit EXIT_SUCCESS
  else if c =? 102 (* f *) then
    len ← CliArgParse.strlen optarg;
    if len =? 0 then mret (-1, a)
    else
      t ← CliArgParse.read_string optarg;
      p ← CliArgParse.alloc (CliArgParse.BStr (t ++ [0]));
      mret (match p with Some _ => 0 | None => -1 end,
            ApplArgs (core_count a) (core_start a) p (single_pkt_API a) (args_idle_tmo a) (args_pkt_tmo a))
  else if c =? 103 (* g *) then
    mret (0, ApplArgs (core_count a) (core_start a) (cli_file a) true (args_idle_tmo a) (args_pkt_tmo a))
  else if c =? 100 (* d *) then
    n ← CliArgParse.atoi optarg;
    mret (0, ApplArgs (core_count a) (core_start a) (cli_file a) (single_pkt_API a)
               (u64 (n * MS_IN_NS)) (args_pkt_tmo a))
  else if c =? 112 (* p *) then
    n ← CliArgParse.atoi optarg;
    mret (0, ApplArgs (core_count a) (core_start a) (cli_file a) (single_pkt_API a)
               (args_idle_tmo a) (u64 (n * MS_IN_NS)))
  else mret (0, a).

(** [while (res == 0)] *)
Fixpoint parse_options (fuel : nat) (opts : list (Z * CliArgParse.ptr)) (a : appl_args_t)
    : MC (Z * appl_args_t) :=
  match opts with
  | [] => mret (0, a)
  | o :: opts' =>
      r ← parse_option fuel o a;
      if r.1 =? 0 then parse_options fuel opts' r.2 else mret r
  end.

(** [opts] is what [getopt_long] finds: option characters with [optarg]. *)
Definition parse_args (fuel : nat) (opts : list (Z * CliArgParse.ptr)) : MC (Z * appl_args_t) :=
  modify (CliArgParse.set_if_count 0);;
  modify (CliArgParse.set_if_array None);;
  r ← parse_options fuel opts
        (ApplArgs 0 1 None false PKT_IDLE_DETECTION_TIMEOUT PKT_DETECTION_TIMEOUT);
  if r.1 =? -1 then parse_args_cleanup;; mret (EXIT_FAILURE, r.2)
  else
    n ← gets CliArgParse.if_count;
    if n =? 0 then parse_args_cleanup;; mret (EXIT_FAILURE, r.2)
    else if NFP_FP_INTERFACE_MAX <? n then parse_args_cleanup;; mret (EXIT_FAILURE, r.2)
    else mret (EXIT_SUCCESS, r.2).
End Options.

(** ** [main] *)

Section Main.
Context {W F : Type} `{!App W F}.
Local Abbreviation MF := (M (app W F power_t)).

(** Functions of fpm_direct, line by line; [intr_mode] apart. *)
Definition configure_interfaces (tx_queues rx_queues : Z) (itf_id : list (Z * Z))
    : MF (Z * list (Z * Z)) :=
  FpmDirect.configure_interfaces tx_queues rx_queues itf_id.
Definition configure_interface_addresses (itf_id : list (Z * Z)) : MF Z :=
  FpmDirect.configure_interface_addresses itf_id.
Definition validate_cores_settings (req_core_start req_core_count : Z) : MF (option (Z * Z)) :=
  FpmDirect.validate_cores_settings req_core_start req_core_count.

(** [workers_arg[j].pktin[i] = q] *)
Definition store_pktin (workers : list worker_arg) (j i q : Z) : MF (list worker_arg) :=
  w ← of_option (workers !! Z.to_nat j);
  queues ← FpmDirect.store (pktin w) i q;
  FpmDirect.store workers j (WorkerArg (num_pktin w) queues (idle_tmo w) (pkt_tmo w)).

(** The queues of interface [i]: [inr] is [return -1]. *)
Definition share_queues (num_workers i : Z) (workers : list worker_arg)
    : MF (list worker_arg + list worker_arg) :=
  name ← FpmDirect.interface_name i;
  pktio ← callv (A_pktio_lookup name);
  if pktio =? 0 then mret (inr workers)
  else
    q ← call (A_pktin_queue pktio num_workers);
    if negb (r_val q =? num_workers) then exit EXIT_FAILURE
    else
      workers ← for_acc 0 (Z.to_nat num_workers) (λ j workers,
                  h ← FpmDirect.entry_at q j;
                  if j <? MAX_WORKERS then store_pktin workers j i h else stuck) workers;
      mret (inl workers).

(** The result and [workers_arg]. *)
Definition configure_workers_arg (a : appl_args_t) (num_workers : Z) (workers : list worker_arg)
    : MF (Z * list worker_arg) :=
  n ← FpmDirect.if_count;
  workers ← for_acc 0 (Z.to_nat num_workers) (λ i workers,
              w ← of_option (workers !! Z.to_nat i);
              FpmDirect.store workers i (WorkerArg n (pktin w) (args_idle_tmo a) (args_pkt_tmo a)))
              workers;
  r ← for_ret 0 (Z.to_nat n) (share_queues num_workers) workers;
  match r with inl workers => mret (0, workers) | inr workers => mret (-1, workers) end.

(** [nfp_terminate(); parse_args_cleanup(&params);] *)
Definition terminate : MF unit :=
  call_ A_terminate;; on_heap parse_args_cleanup.

(** [nfp_stop_processing(); nfp_thread_join(thread_tbl, n); ...]: [n] workers
    and, when [events], the dispatcher. *)
Definition stop_threads (n : Z) (events : bool) : MF Z :=
  call_ A_stop_processing;;
  call_ (A_thread_join n);;
  when events (call_ (A_thread_join 1));;
  terminate;;
  mret EXIT_FAILURE.

(** The loop that starts the workers: [inr i] is a failure at worker [i]. *)
Definition create_workers (single : bool) (first_worker num_workers : Z) : MF (unit + Z) :=
  for_ret 0 (Z.to_nat num_workers) (λ i _,
    ret_val ← callv (A_thread_create
                (if single then THREAD_pkt_io_recv_single else THREAD_pkt_io_recv)
                (first_worker + i));
    if negb (ret_val =? 1) then mret (inr i) else mret (inl ())) ().

(** With the workers running: the dispatcher of events, the addresses and the
    CLI file, to the end. *)
Definition run_events (num_workers : Z) (itf_id : list (Z * Z)) (a : appl_args_t) : MF Z :=
  d ← callv (A_thread_create THREAD_event_dispatcher 0);
  if negb (d =? 1) then stop_threads num_workers false
  else
    r ← configure_interface_addresses itf_id;
    if negb (r =? 0) then stop_threads num_workers true
    else
      file ← arg_string (cli_file a);
      r ← callv (A_cli_process_file file);
      if negb (r =? 0) then stop_threads num_workers true
      else
        call_ (A_thread_join num_workers);;
        call_ (A_thread_join 1);;
        call_ A_terminate;;
        on_heap parse_args_cleanup;;
        mret 0.

(** With the stack running and the cores chosen. *)
Definition run_workers (first_worker num_workers : Z) (a : appl_args_t)
    (workers : list worker_arg) : MF Z :=
  c ← configure_interfaces (num_workers + 1) num_workers
        (replicate (Z.to_nat NFP_FP_INTERFACE_MAX) (0, 0));
  if negb (c.1 =? 0) then terminate;; exit EXIT_FAILURE
  else
    w ← configure_workers_arg a num_workers workers;
    if negb (w.1 =? 0) then terminate;; exit EXIT_FAILURE
    else
      t ← create_workers (single_pkt_API a) first_worker num_workers;
      match t with
      | inr i => stop_threads i false
      | inl _ => run_events num_workers c.2 a
      end.

(** [workers] is what the stack holds in [workers_arg]; [linux_sp_core] is 0. *)
Definition main (fuel : nat) (opts : list (Z * CliArgParse.ptr)) (workers : list worker_arg)
    : MF Z :=
  r ← FpmDirect.nfpexpl_sigaction_set;
  if negb (r =? 0) then mret EXIT_FAILURE
  else
    p ← on_heap (parse_args fuel opts);
    setg (set_params p.2);;
    if negb (p.1 =? EXIT_SUCCESS) then mret EXIT_FAILURE
    else
      r ← callv (A_initialize 0 []);
      if negb (r =? 0) then on_heap parse_args_cleanup;; exit EXIT_FAILURE
      else
        cores ← validate_cores_settings (core_start p.2) (core_count p.2);
        match cores with
        | None => terminate;; exit EXIT_FAILURE
        | Some (first_worker, num_workers) => run_workers first_worker num_workers p.2 workers
        end.
End Main.

End FpmPower.
