(* ===== verification/FpmPowerProofs.v ===== *)
(** * Packet forwarding with power saving: workers

    A monitor reads the calls of a worker and keeps track of the queues whose
    interrupts are on and of the time since which no packet has come; it
    refuses what the power saving must not do. *)

From S2P Require Import Prelude App AppProofs AppHeap HttpdTheorems TcpPerf TcpPerfProofs TcpPerfTheorems FpmDirect FpmDirectProofs FpmPower.
Import App AppProofs HttpdTheorems TcpPerfProofs TcpPerfTheorems FpmDirectProofs FpmPower.

Module FpmPowerProofs.

Lemma filter_out (P : Z → Prop) `{!∀ x, Decision (P x)} (l : list Z) : (∀ x, x ∈ l → ¬ P x) → filter P l = [].
Proof.
  induction l as [|x l IH]; intros Hx; [done|]. rewrite filter_cons_False by (apply Hx; set_solver).
  apply IH. set_solver.
Qed.

Lemma filter_in (P : Z → Prop) `{!∀ x, Decision (P x)} (l : list Z) : (∀ x, x ∈ l → P x) → filter P l = l.
Proof.
  induction l as [|x l IH]; intros Hx; [done|]. rewrite filter_cons_True by (apply Hx; set_solver).
  f_equal. apply IH. set_solver.
Qed.

(** ** The monitor *)

(** [on]: interrupts that are on.  [quiet]: since when no packet has come.
    [now]: the time last read. *)
Record monitor := Monitor { on : list Z; quiet : option Z; now : Z }.

Section Monitor.
Context {F : Type} (arg : worker_arg) (queues : list Z).
Implicit Types (e : event F) (t : list (event F)) (m : monitor).

(** Quiet for longer than the timeout. *)
Definition idle_long m : bool :=
  match quiet m with Some t0 => idle_tmo arg <? u64 (now m - t0) | None => false end.

(** A queue is polled only with all interrupts off; interrupts are switched on
    only after the timeout; the worker waits only with all interrupts on, and
    with them off only takes back pending ones, without waiting. *)
Definition watch m e : option monitor :=
  match e.1 with
  | A_pktin_recv _ _ =>
      if decide (on m = []) then
        Some (match entries e.2 with [] => m | _ => Monitor [] None (now m) end)
      else None
  | A_time_local_ns => Some (Monitor (on m) (Some (default (r_val e.2) (quiet m))) (r_val e.2))
  | A_pktin_intr_set q true =>
      if idle_long m then
        Some (if r_val e.2 =? 0 then Monitor (on m ++ [q]) (quiet m) (now m) else m)
      else None
  | A_pktin_intr_set q false =>
      Some (if r_val e.2 =? 0 then Monitor (filter (.≠ q) (on m)) (quiet m) (now m) else m)
  | A_pktin_intr_wait _ timeout =>
      if decide (on m = [] ∧ timeout = 0 ∨ on m = queues ∧ timeout = s32 (pkt_tmo arg / MS_IN_NS))
      then Some m else None
  | _ => Some m
  end.

Fixpoint watched m t : option monitor :=
  match t with [] => Some m | e :: t' => m' ← watch m e; watched m' t' end.

Lemma watched_app m t t' : watched m (t ++ t') = watched m t ≫= λ m', watched m' t'.
Proof. revert m. induction t as [|e t IH]; intros m; simpl; [done|]. destruct (watch m e); simpl; [apply IH|done]. Qed.

(** What a worker of fpm_direct does is allowed with the interrupts off. *)
Lemma watched_polling m t :
  Forall (worker_call queues false) t → on m = [] →
  watched m t = Some (match arrived t with [] => m | _ => Monitor [] None (now m) end).
Proof.
  intros Ht. revert m. induction Ht as [|[c r] t Hc Ht IH]; intros m Hm; [done|].
  assert (Hother : arrived_by (c, r) = [] → watch m (c, r) = Some m →
    watched m ((c, r) :: t) = Some (match arrived ((c, r) :: t) with [] => m | _ => Monitor [] None (now m) end)).
  { intros Ha Hw. cbn [watched]. rewrite Hw. cbn. rewrite IH by done. unfold arrived. cbn [mbind list_bind]. by rewrite Ha. }
  destruct c; try (by apply Hother); try done; [|by destruct Hc].
  clear Hother. cbn [watched]. unfold watch at 1. cbn [fst snd]. rewrite decide_True by done.
  unfold arrived in *. cbn [mbind list_bind]. unfold arrived_by at 1. cbn [fst snd]. destruct (entries r) eqn:E; simpl.
  - by apply IH.
  - rewrite IH by done. by destruct (t ≫= arrived_by).
Qed.
End Monitor.

(** ** Interrupts *)

Section Power.
Context {W F G : Type} `{!App W F, !SocketLaws W F, !PacketLaws W F}.
Context (arg : worker_arg) (queues : list Z).
Local Abbreviation st := (app W F G).
Implicit Types (s : st) (m : monitor) (x : idling).
Local Abbreviation watched := (watched (F := F) arg queues).
Local Abbreviation watch := (watch (F := F) arg queues).

(** From [s] to [s'] there is no traffic, and the monitor goes from [m] to [m']. *)
Definition silent s m s' m' : Prop :=
  ∃ t, trace s' = trace s ++ t ∧ glob s' = glob s ∧ (budget (world s') ≤ budget (world s))%nat ∧
    arrived t = [] ∧ handled t = [] ∧ polled t = [] ∧ watched m t = Some m'.

Lemma silent_refl s m : silent s m s m.
Proof. exists []. rewrite app_nil_r. by split_and!. Qed.

Lemma silent_trans s1 m1 s2 m2 s3 m3 : silent s1 m1 s2 m2 → silent s2 m2 s3 m3 → silent s1 m1 s3 m3.
Proof.
  intros (t & Ht & Hg & Hb & Ha & Hh & Hp & Hw) (t' & Ht' & Hg' & Hb' & Ha' & Hh' & Hp' & Hw').
  exists (t ++ t'). split_and!.
  - by rewrite Ht', Ht, app_assoc.
  - congruence.
  - lia.
  - by rewrite arrived_app, Ha, Ha'.
  - by rewrite handled_app, Hh, Hh'.
  - by rewrite polled_app, Hp, Hp'.
  - by rewrite watched_app, Hw.
Qed.

Lemma silent_after s m c r w m' :
  api c (world s) = (r, w) →
  match c with
  | A_is_running | A_get_processing_state | A_pktin_intr_wait_register _ | A_pktin_intr_set _ _
  | A_pktin_intr_wait _ _ | A_time_local_ns => True
  | _ => False
  end → watch m (c, r) = Some m' → silent s m (after s c r w) m'.
Proof.
  intros E Hc Hw. exists [(c, r)]. split_and!; [done|done|by eapply budget_le|destruct c; done..|].
  cbn [FpmPowerProofs.watched]. by rewrite Hw.
Qed.

(** A loop that waits: the calls leave the monitor as it is. *)
Lemma wait_loop_ok fuel s m c (f : Z → bool) :
  (budget (world s) < fuel)%nat → (∃ n t, c = A_pktin_intr_wait n t) → (∀ r, watch m (c, r) = Some m) →
  wp (loop fuel (λ _ : unit,
        running ← callv A_is_running;
        if running =? 0 then mret (inr ())
        else r ← callv c; mret (if f r then inr () else inl ())) ())
    (λ _ s', silent s m s' m) s.
Proof.
  intros Hfuel (n & t & ->) Hw.
  apply (wp_loop _ (λ _ s', silent s m s' m) (λ _ s', budget (world s'))); [|apply silent_refl|done].
  intros [] s1 Hs1. apply wp_bind, wp_callv. intros r w E.
  assert (Hs2 : silent s m (after s1 A_is_running r w) m).
  { eapply silent_trans; [exact Hs1|by eapply silent_after]. }
  destruct (Z.eqb_spec (r_val r) 0) as [Hz|Hz]; [by apply wp_ret|].
  pose proof (budget_step _ _ _ _ E) as Hb. unfold again in Hb. cbn [fst snd] in Hb.
  rewrite (proj2 (Z.eqb_neq _ _) Hz) in Hb. simpl in Hb.
  apply wp_bind, wp_callv. intros r2 w2 E2.
  assert (Hs3 : silent s m (after (after s1 A_is_running r w) (A_pktin_intr_wait n t) r2 w2) m).
  { eapply silent_trans; [exact Hs2|by eapply silent_after]. }
  pose proof (budget_le _ _ _ _ E2) as Hb2. simpl in Hb2.
  apply wp_ret. destruct (f _); [done|]. split; [done|]. simpl. lia.
Qed.

Lemma intr_clear_ok fuel s m num :
  on m = [] → (budget (world s) < fuel)%nat →
  wp (loop_intr_clear fuel num) (λ _ s', silent s m s' m) s.
Proof.
  intros Hm Hfuel. apply (wait_loop_ok fuel s m _ (λ r, r <=? 0)); [done|eauto|].
  intros r. unfold FpmPowerProofs.watch. cbn [fst snd]. rewrite decide_True by auto. done.
Qed.

Lemma intr_wait_ok fuel s m num :
  on m = queues → (budget (world s) < fuel)%nat →
  wp (loop_intr_wait fuel num (pkt_tmo arg)) (λ _ s', silent s m s' m) s.
Proof.
  intros Hm Hfuel. apply (wait_loop_ok fuel s m _ (λ r, negb (r =? 0))); [done|eauto|].
  intros r. unfold FpmPowerProofs.watch. cbn [fst snd]. rewrite decide_True by auto. done.
Qed.

(** The last call was a failed attempt to switch an interrupt. *)
Definition failed s s' : Prop :=
  ∃ t q enable r, trace s' = trace s ++ t ++ [(A_pktin_intr_set q enable, r)] ∧ r_val r ≠ 0.

Lemma failed_from s1 s2 s3 t : trace s2 = trace s1 ++ t → failed s2 s3 → failed s1 s3.
Proof.
  intros Ht (t' & q & en & r & Ht' & Hr). exists (t ++ t'), q, en, r. by rewrite Ht', Ht, <- !app_assoc.
Qed.

Lemma failed_silent s1 m1 s2 m2 s3 : silent s1 m1 s2 m2 → failed s2 s3 → failed s1 s3.
Proof. intros (t & Ht & _). by eapply failed_from. Qed.

(** The interrupts of all queues, one after the other: [f i] is what is on
    before queue [i]. *)
Lemma intr_set_ok s m num enable (f : nat → list Z) :
  Z.to_nat num = length queues → on m = f 0%nat →
  (∀ i q o r, queues !! i = Some q → o = f i →
     watch (Monitor o (quiet m) (now m)) (A_pktin_intr_set q enable, r) =
       Some (Monitor (if r_val r =? 0 then f (S i) else o) (quiet m) (now m))) →
  wp (pktin_intr_set queues num enable) (λ rc s', ∃ o,
    silent s m s' (Monitor o (quiet m) (now m)) ∧
    (rc = 0 ∧ o = f (length queues) ∨ rc = -1 ∧ failed s s')) s.
Proof.
  intros Hn Hm Hw. apply wp_bind. eapply wp_mono; [|eapply (wp_for_ret _
    (λ i _ s', silent s m s' (Monitor (f (Z.to_nat i)) (quiet m) (now m)))
    (λ rc s', rc = -1 ∧ ∃ o, silent s m s' (Monitor o (quiet m) (now m)) ∧ failed s s'))].
  - intros [[]|rc] s' H; apply wp_ret.
    + rewrite Z.add_0_l, Nat2Z.id, Hn in H. eauto.
    + destruct H as (-> & o & ? & ?). eauto.
  - change (Z.to_nat 0) with 0%nat. rewrite <- Hm. replace (Monitor (on m) (quiet m) (now m)) with m by (by destruct m). apply silent_refl.
  - intros i [] s1 Hi Hs1. destruct (lookup_lt_is_Some_2 queues (Z.to_nat i)) as [q Hq]; [lia|].
    apply wp_bind. eapply wp_of_option; [exact Hq|]. apply wp_bind, wp_callv. intros r w E.
    specialize (Hw (Z.to_nat i) q _ r Hq eq_refl).
    pose proof (silent_trans _ _ _ _ _ _ Hs1 (silent_after _ _ _ _ _ _ E I Hw)) as Hs2.
    destruct (Z.eqb_spec (r_val r) 0) as [Hr|Hr]; cbn [negb]; apply wp_ret.
    + by replace (Z.to_nat (i + 1)) with (S (Z.to_nat i)) by lia.
    + split; [done|]. eexists. split; [exact Hs2|]. eapply failed_silent; [exact Hs1|].
      by exists [], q, enable, r.
Qed.

Lemma intr_on_ok s m num :
  Z.to_nat num = length queues → on m = [] → idle_long arg m = true →
  wp (pktin_intr_set queues num true) (λ rc s', ∃ o,
    silent s m s' (Monitor o (quiet m) (now m)) ∧ (rc = 0 ∧ o = queues ∨ rc = -1 ∧ failed s s')) s.
Proof.
  intros Hn Hm Hl. eapply wp_mono; [|apply (intr_set_ok s m num true (λ i, take i queues)); [done..|]].
  - intros rc s' (o & Hs & [[? Ho]|?]); exists o; split; auto. rewrite firstn_all in Ho. auto.
  - intros i q o r Hq ->. unfold FpmPowerProofs.watch. cbn [fst snd]. unfold idle_long in *. cbn [quiet now].
    rewrite Hl, (take_S_lookup _ _ _ Hq). simpl. by destruct (r_val r =? 0).
Qed.

Lemma intr_off_ok s m num :
  Z.to_nat num = length queues → on m = queues →
  wp (pktin_intr_set queues num false) (λ rc s', ∃ o,
    silent s m s' (Monitor o (quiet m) (now m)) ∧ (rc = 0 ∧ o = [] ∨ rc = -1 ∧ failed s s')) s.
Proof.
  intros Hn Hm.
  eapply wp_mono; [|apply (intr_set_ok s m num false (λ i, filter (.∉ take i queues) queues)); [done|..]].
  - intros rc s' (o & Hs & [[? Ho]|?]); exists o; split; auto. left. split; [done|].
    rewrite Ho, firstn_all. apply filter_out. auto.
  - rewrite Hm. symmetry. apply filter_in. intros q _. simpl. set_solver.
  - intros i q o r Hq ->. unfold FpmPowerProofs.watch. cbn [fst snd on]. destruct (r_val r =? 0); [|done].
    rewrite list_filter_filter. do 2 f_equal. apply list_filter_iff. intros q'.
    rewrite (take_S_lookup _ _ _ Hq). set_solver.
Qed.

(** ** The end of a turn *)

(** The worker's variables are what the monitor knows. *)
Definition agrees x m : Prop :=
  on m = [] ∧ quiet m = if is_idling x then Some (idling_start x) else None.

Lemma save_power_ok fuel s m pkt_sum x :
  Z.to_nat (num_pktin arg) = length queues → (budget (world s) < fuel)%nat →
  agrees (if pkt_sum =? 0 then x else Idling false (idling_start x)) m →
  wp (save_power fuel arg queues pkt_sum x) (λ y s', ∃ m', silent s m s' m' ∧
    match y with Some y => agrees y m' | None => failed s s' end) s.
Proof.
  intros Hn Hfuel [Hon Hq]. unfold save_power. destruct (pkt_sum =? 0).
  2: { apply wp_ret. exists m. split; [apply silent_refl|]. by split. }
  destruct (is_idling x) eqn:Hx; cbn [negb]; apply wp_bind, wp_callv; intros r w E;
    assert (Hs1 := silent_after s m A_time_local_ns r w _ E I eq_refl); rewrite Hon, Hq in Hs1; cbn [default] in Hs1.
  2: { apply wp_ret. eexists. split; [exact Hs1|]. by split. }
  set (m1 := Monitor _ _ _) in Hs1. set (s1 := after _ _ _ _) in *.
  assert (Hb1 : (budget (world s1) < fuel)%nat) by (destruct Hs1 as (? & _ & _ & ? & _); lia).
  destruct (idle_tmo arg <? _) eqn:Hl; [|apply wp_ret; exists m1; split; [done|split; [done|by rewrite Hx]]].
  apply wp_bind. eapply wp_mono; [|by apply (intr_clear_ok fuel s1 m1)]. intros [] s2 Hs2.
  pose proof (silent_trans _ _ _ _ _ _ Hs1 Hs2) as Hs2'.
  apply wp_bind. eapply wp_mono; [|by apply (intr_on_ok s2 m1)]. intros rc s3 (o & Hs3 & Hrc).
  pose proof (silent_trans _ _ _ _ _ _ Hs2' Hs3) as Hs3'.
  destruct Hrc as [[-> ->]|[-> Hfail]]; simpl.
  2: { apply wp_ret. eexists. split; [exact Hs3'|]. exact (failed_silent _ _ _ _ _ Hs2' Hfail). }
  set (m3 := Monitor queues (quiet m1) (now m1)) in *.
  apply wp_bind. eapply wp_mono; [|apply (intr_wait_ok fuel s3 m3); [done|destruct Hs3' as (? & _ & _ & ? & _); lia]].
  intros [] s4 Hs4. pose proof (silent_trans _ _ _ _ _ _ Hs3' Hs4) as Hs4'.
  apply wp_bind. eapply wp_mono; [|by apply (intr_off_ok s4 m3)]. intros rc s5 (o & Hs5 & Hrc).
  pose proof (silent_trans _ _ _ _ _ _ Hs4' Hs5) as Hs5'.
  destruct Hrc as [[-> ->]|[-> Hfail]]; simpl; apply wp_ret; eexists; (split; [exact Hs5'|]).
  - split; [done|]. by rewrite Hx.
  - exact (failed_silent _ _ _ _ _ Hs4' Hfail).
Qed.

(** ** Polling *)

(** The number of packets that came. *)
Definition gained s s' (n : Z) : Prop :=
  ∃ t, trace s' = trace s ++ t ∧ Z.of_nat (length (arrived t)) = n.

Definition calm s s' : Prop := gained s s' 0.

#[local] Instance calm_preorder : PreOrder calm.
Proof.
  split.
  - intros s. exists []. by rewrite app_nil_r.
  - intros s1 s2 s3 (t & Ht & Ha) (t' & Ht' & Ha'). exists (t ++ t').
    rewrite Ht', Ht, arrived_app, length_app, app_assoc. split; [done|lia].
Qed.

Lemma gained_calm s1 s2 s3 n : gained s1 s2 n → calm s2 s3 → gained s1 s3 n.
Proof.
  intros (t & Ht & Ha) (t' & Ht' & Ha'). exists (t ++ t').
  rewrite Ht', Ht, arrived_app, length_app, app_assoc. split; [done|lia].
Qed.

Lemma gained_recv s0 s n q r w :
  gained s0 s n → api (A_pktin_recv q PKT_BURST_SIZE) (world s) = (r, w) →
  gained s0 (after s (A_pktin_recv q PKT_BURST_SIZE) r w) (add_sum n (r_val r)).
Proof.
  intros (t & Ht & Ha) E. pose proof (length_entries r (recv_table _ _ _ _ _ E)) as Hl.
  exists (t ++ [(A_pktin_recv q PKT_BURST_SIZE, r)]). simpl. rewrite Ht, <- app_assoc. split; [done|].
  rewrite arrived_app, length_app. unfold arrived at 2. cbn. rewrite app_nil_r, Hl.
  unfold add_sum. destruct (Z.ltb_spec 0 (r_val r)); lia.
Qed.

Lemma calm_call c : (∀ r : areply F, arrived_by (c, r) = []) → keeps calm (call c : M st _).
Proof.
  intros Hc s a s' H. unfold call in H. destruct (api c (world s)) as [r w]. injection H as <- <-.
  exists [(c, r)]. split; [done|]. unfold arrived. cbn [mbind list_bind]. by rewrite Hc.
Qed.
Lemma calm_callv c : (∀ r : areply F, arrived_by (c, r) = []) → keeps calm (callv c : M st Z).
Proof. intros. apply keeps_bind; [apply _|by apply calm_call|intros; apply keeps_ret, _]. Qed.
Lemma calm_call_ c : (∀ r : areply F, arrived_by (c, r) = []) → keeps calm (call_ c : M st unit).
Proof. intros. apply keeps_bind; [apply _|by apply calm_call|intros; apply keeps_ret, _]. Qed.
Hint Extern 1 (keeps calm (call_ _)) => apply calm_call_; done : keeps.
Hint Extern 1 (keeps calm (callv _)) => apply calm_callv; done : keeps.

Lemma calm_inputs r : keeps calm (FpmDirect.input_packets r : M st _).
Proof. unfold FpmDirect.input_packets, FpmDirect.entry_at. frame. Qed.
Lemma calm_adds r vec : keeps calm (FpmDirect.add_packets r vec : M st _).
Proof. unfold FpmDirect.add_packets, FpmDirect.add_packet, FpmDirect.entry_at. frame. Qed.
Lemma calm_flush vec : keeps calm (FpmDirect.flush_vector vec : M st _).
Proof. unfold FpmDirect.flush_vector. frame. Qed.

Context (Hnum : Z.to_nat (num_pktin arg) = length queues).

(** A queue is polled, up to its packets. *)
Lemma poll_queue R `{!PreOrder R, !Proper (R ==> R ==> R) (@Datatypes.app Z)} s0 s qs p n q r w :
  q ∈ queues → flow R queues false s0 [] qs 0 s p → gained s0 s n →
  api (A_pktin_recv q PKT_BURST_SIZE) (world s) = (r, w) →
  let s1 := after s (A_pktin_recv q PKT_BURST_SIZE) r w in
  flow R queues false s0 [] (qs ++ [q]) 0 s1 (p ++ entries r) ∧ gained s0 s1 (add_sum n (r_val r)) ∧
  r_val r ≤ Z.of_nat (length (r_list r)).
Proof.
  intros Hq Hf Hg E. split_and!; [by apply recv_flow|by apply gained_recv|by eapply recv_table].
Qed.

Lemma poll_single_ok s :
  wp (for_acc 0 (Z.to_nat (num_pktin arg)) (λ i pkt_sum,
        q ← of_option (queues !! Z.to_nat i); input_single q pkt_sum) 0)
    (λ n s', flow (passed true) queues false s [] queues 0 s' [] ∧ gained s s' n) s.
Proof.
  eapply wp_mono; [|apply (wp_for_acc _ (λ i n s',
    flow (passed true) queues false s [] (take (Z.to_nat i) queues) 0 s' [] ∧ gained s s' n))].
  - intros n s' H. by rewrite Z.add_0_l, Nat2Z.id, Hnum, firstn_all in H.
  - split; [apply (flow_none (passed true))|]. exists []. by rewrite app_nil_r.
  - intros i n s1 Hi [Hf Hg]. destruct (lookup_lt_is_Some_2 queues (Z.to_nat i)) as [q Hq]; [lia|].
    apply wp_bind. eapply wp_of_option; [exact Hq|]. apply wp_bind, wp_call. intros r w E.
    destruct (poll_queue (passed true) s s1 _ _ n q r w (list_elem_of_lookup_2 _ _ _ Hq) Hf Hg E) as (Hf1 & Hg1 & Hl).
    apply wp_bind. eapply wp_mono; [|apply (wp_keeps calm); [apply calm_inputs|
      by eapply (input_packets_ok (passed true))]].
    intros [] s2 [Hf2 Hc]. apply wp_ret. split; [|by eapply gained_calm].
    replace (Z.to_nat (i + 1)) with (S (Z.to_nat i)) by lia. by rewrite (take_S_lookup _ _ _ Hq).
Qed.

Lemma poll_multi_ok s vec0 :
  vec0 = [] →
  wp (for_acc 0 (Z.to_nat (num_pktin arg)) (λ i p,
        q ← of_option (queues !! Z.to_nat i); input_multi q p) (vec0, 0))
    (λ p s', small p.1 ∧ flow (passed false) queues false s [] queues 0 s' p.1 ∧ gained s s' p.2) s.
Proof.
  intros ->. eapply wp_mono; [|apply (wp_for_acc _ (λ i p s', small p.1 ∧
    flow (passed false) queues false s [] (take (Z.to_nat i) queues) 0 s' p.1 ∧ gained s s' p.2))].
  - intros p s' H. by rewrite Z.add_0_l, Nat2Z.id, Hnum, firstn_all in H.
  - split_and!; [done|apply (flow_none (passed false))|]. exists []. by rewrite app_nil_r.
  - intros i [vec n] s1 Hi (Hv & Hf & Hg). destruct (lookup_lt_is_Some_2 queues (Z.to_nat i)) as [q Hq]; [lia|].
    apply wp_bind. eapply wp_of_option; [exact Hq|]. apply wp_bind, wp_call. intros r w E.
    destruct (poll_queue (passed false) s s1 _ _ n q r w (list_elem_of_lookup_2 _ _ _ Hq) Hf Hg E) as (Hf1 & Hg1 & Hl).
    apply wp_bind. eapply wp_mono; [|apply (wp_keeps calm); [apply calm_adds|
      eapply (add_packets_ok (passed false)); [|exact Hl|exact Hv|exact Hf1]]].
    2: { intros p x l. symmetry. apply Permutation_middle. }
    intros vec' s2 [[Hv2 Hf2] Hc]. apply wp_ret. split_and!; [done| |by eapply gained_calm].
    replace (Z.to_nat (i + 1)) with (S (Z.to_nat i)) by lia. by rewrite (take_S_lookup _ _ _ Hq).
Qed.

(** ** Turns *)

Section Course.
Context (R : relation (list Z)) `{!PreOrder R, !Proper (R ==> R ==> R) (@Datatypes.app Z)}.

(** From [s] to [s'] what came in went out, [qs] were polled, and the monitor
    goes from [m] to [m']. *)
Definition course s m (qs : list Z) s' m' : Prop :=
  ∃ t, trace s' = trace s ++ t ∧ glob s' = glob s ∧ (budget (world s') ≤ budget (world s))%nat ∧
    R (arrived t) (handled t) ∧ polled t = qs ∧ watched m t = Some m'.

Lemma course_trans s1 m1 qs s2 m2 qs' s3 m3 :
  course s1 m1 qs s2 m2 → course s2 m2 qs' s3 m3 → course s1 m1 (qs ++ qs') s3 m3.
Proof.
  intros (t & Ht & Hg & Hb & HR & Hp & Hw) (t' & Ht' & Hg' & Hb' & HR' & Hp' & Hw').
  exists (t ++ t'). split_and!.
  - by rewrite Ht', Ht, app_assoc.
  - congruence.
  - lia.
  - rewrite arrived_app, handled_app. by rewrite HR, HR'.
  - by rewrite polled_app, Hp, Hp'.
  - by rewrite watched_app, Hw.
Qed.

Lemma silent_course s m s' m' : silent s m s' m' → course s m [] s' m'.
Proof. intros (t & Ht & Hg & Hb & Ha & Hh & Hp & Hw). exists t. split_and!; [done..| |done|done]. by rewrite Ha, Hh. Qed.

Lemma failed_course s1 m1 qs s2 m2 s3 : course s1 m1 qs s2 m2 → failed s2 s3 → failed s1 s3.
Proof. intros (t & Ht & _). by eapply failed_from. Qed.

Lemma course_budget s m qs s' m' : course s m qs s' m' → (budget (world s') ≤ budget (world s))%nat.
Proof. by intros (t & _ & _ & ? & _). Qed.

(** After polling, the variables are what the monitor knows. *)
Lemma poll_course s m s' x n :
  flow R queues false s [] queues 0 s' [] → gained s s' n → agrees x m →
  ∃ m', course s m queues s' m' ∧ agrees (if n =? 0 then x else Idling false (idling_start x)) m'.
Proof.
  intros (t & Ht & Hg & Hb & HR & Hp & _ & Hc) (t' & Ht' & Hn) [Hon Hq].
  rewrite Ht in Ht'. apply app_inv_head in Ht' as <-. rewrite app_nil_r in HR.
  eexists. split; [exists t; split_and!; [done..|by apply watched_polling]|].
  destruct (arrived t) eqn:Ha; simpl in Hn; subst n; by split.
Qed.

(** A loop whose turns poll all queues and then may save power. *)
Lemma power_loop_ok {A} (inv : A → Prop) (idle_of : A → idling) (turn : A → Z → M st (A + unit)) fuel s a m :
  (∀ a s, wp (turn a 0) (λ r s', r = inr () ∧ s' = s) s) →
  (∀ a v s m, inv a → v ≠ 0 → agrees (idle_of a) m → (budget (world s) < fuel)%nat →
     wp (turn a v) (λ r s', ∃ m', course s m queues s' m' ∧
       match r with inl a' => inv a' ∧ agrees (idle_of a') m' | inr _ => failed s s' end) s) →
  inv a → agrees (idle_of a) m → (budget (world s) < fuel)%nat →
  wp (loop fuel (λ a, callv A_is_running ≫= turn a) a)
    (λ _ s', ∃ k m', course s m (turns queues k) s' m' ∧ (on m' = [] ∨ failed s s')) s.
Proof.
  intros Hstop Hturn Ha Hm Hfuel.
  apply (wp_loop _ (λ a s', inv a ∧ ∃ k m', course s m (turns queues k) s' m' ∧ agrees (idle_of a) m')
    (λ _ s', budget (world s'))); [|split; [done|]; exists 0%nat, m; split; [apply silent_course, silent_refl|done]|done].
  intros b s1 (Hb & k & m1 & Hc1 & Hm1). apply wp_bind, wp_callv. intros r w E.
  assert (Hc2 : course s m (turns queues k) (after s1 A_is_running r w) m1).
  { rewrite <- (app_nil_r (turns queues k)). eapply course_trans; [exact Hc1|].
    apply silent_course. by eapply silent_after. }
  destruct (decide (r_val r = 0)) as [Hz|Hz].
  { rewrite Hz. eapply wp_mono; [|apply Hstop]. intros ? ? [-> ->]. exists k, m1. split; [done|]. left. apply Hm1. }
  pose proof (budget_step _ _ _ _ E) as Hlt. unfold again in Hlt. cbn [fst snd] in Hlt.
  rewrite (proj2 (Z.eqb_neq _ _) Hz) in Hlt. simpl in Hlt. pose proof (course_budget _ _ _ _ _ Hc1).
  eapply wp_mono; [|apply Hturn; [done|done|exact Hm1|simpl; lia]].
  intros [b'|[]] s3 (m3 & Hc3 & Hpost).
  - pose proof (course_budget _ _ _ _ _ Hc3) as Hle. simpl in Hle. destruct Hpost as [Hb' Hm3].
    split; [|lia]. split; [done|]. exists (S k), m3. split; [|done]. rewrite <- turns_S. by eapply course_trans.
  - exists (S k), m3. rewrite <- turns_S. split; [by eapply course_trans|]. right. by eapply failed_course.
Qed.

(** The end of a turn, after polling. *)
Lemma turn_end_ok {A} (inv : A → Prop) (idle_of : A → idling) (mk : idling → A) fuel s m s1 n x :
  (∀ y, inv (mk y) ∧ idle_of (mk y) = y) →
  flow R queues false s [] queues 0 s1 [] → gained s s1 n → agrees x m → (budget (world s) < fuel)%nat →
  wp (y ← save_power fuel arg queues n x; mret (match y with Some y => inl (mk y) | None => inr () end))
    (λ r s', ∃ m', course s m queues s' m' ∧
       match r with inl a' => inv a' ∧ agrees (idle_of a') m' | inr _ => failed s s' end) s1.
Proof.
  intros Hmk Hf Hg Hm Hfuel. destruct (poll_course _ _ _ _ _ Hf Hg Hm) as (m1 & Hc1 & Hm1).
  pose proof (course_budget _ _ _ _ _ Hc1).
  apply wp_bind. eapply wp_mono; [|apply (save_power_ok fuel s1 m1 n x Hnum); [lia|done]].
  intros y s2 (m2 & Hs2 & Hy). apply wp_ret. exists m2.
  rewrite <- (app_nil_r queues). split; [by eapply course_trans; [|apply silent_course]|].
  destruct y as [y|]; [|by eapply failed_course]. destruct (Hmk y) as [? ->]. done.
Qed.
End Course.

Lemma single_turns_ok fuel s m :
  agrees (Idling false 0) m → (budget (world s) < fuel)%nat →
  wp (loop fuel (recv_single_step fuel arg queues) (Idling false 0))
    (λ _ s', ∃ k m', course (passed true) s m (turns queues k) s' m' ∧ (on m' = [] ∨ failed s s')) s.
Proof.
  intros Hm Hfuel. unfold recv_single_step.
  eapply (power_loop_ok (passed true) (λ _, True) (λ x, x)); [by intros; apply wp_ret| |done|done|done].
  intros x v s1 m1 _ Hv Hm1 Hb1. rewrite (proj2 (Z.eqb_neq _ _) Hv).
  apply wp_bind. eapply wp_mono; [|apply poll_single_ok]. intros n s2 [Hf2 Hg2].
  apply wp_bind. eapply wp_mono; [|apply (wp_keeps calm); [frame|by apply (pending_ok (passed true))]].
  intros [] s3 [Hf3 Hc3]. by eapply (turn_end_ok (passed true)); [|exact Hf3|by eapply gained_calm|..].
Qed.

Lemma multi_turns_ok fuel s m :
  agrees (Idling false 0) m → (budget (world s) < fuel)%nat →
  wp (loop fuel (recv_step fuel arg queues) ([], Idling false 0))
    (λ _ s', ∃ k m', course (passed false) s m (turns queues k) s' m' ∧ (on m' = [] ∨ failed s s')) s.
Proof.
  intros Hm Hfuel. unfold recv_step.
  eapply (power_loop_ok (passed false) (λ a, a.1 = []) snd); [by intros; apply wp_ret| |done|done|done].
  intros [vec x] v s1 m1 Hvec Hv Hm1 Hb1. rewrite (proj2 (Z.eqb_neq _ _) Hv). simpl in Hvec, Hm1. cbn [fst snd].
  apply wp_bind. eapply wp_mono; [|by apply poll_multi_ok]. intros [vec2 n] s2 (Hv2 & Hf2 & Hg2).
  apply wp_bind. eapply wp_mono; [|apply (wp_keeps calm); [apply calm_flush|by eapply (flush_ok (passed false))]].
  intros vec3 s3 [[-> Hf3] Hc3].
  apply wp_bind. eapply wp_mono; [|apply (wp_keeps calm); [frame|by apply (pending_ok (passed false))]].
  intros [] s4 [Hf4 Hc4].
  by eapply (turn_end_ok (passed false) (λ a, a.1 = []) snd (λ y, ([], y)));
    [|exact Hf4|eapply gained_calm; [by eapply gained_calm|exact Hc4]|..].
Qed.
End Power.

(** ** The two dispatchers *)

Section Workers.
Context {W F G : Type} `{!App W F, !SocketLaws W F, !PacketLaws W F}.
Local Abbreviation st := (app W F G).
Implicit Types (s : st) (arg : worker_arg).

(** The queues of a worker, in its array. *)
Definition queues_of arg : list Z := take (Z.to_nat (num_pktin arg)) (pktin arg).
Definition arg_fine arg : Prop :=
  num_pktin arg ≤ NFP_FP_INTERFACE_MAX ∧ num_pktin arg ≤ Z.of_nat (length (pktin arg)).

(** The worker's function. *)
Definition worker (single : bool) (fuel : nat) arg : M st Z :=
  if single then pkt_io_recv_single fuel arg else pkt_io_recv fuel arg.

(** At first no interrupt is on. *)
Definition asleep0 : monitor := Monitor [] None 0.

Lemma register_ok arg qs s m :
  Z.to_nat (num_pktin arg) = length qs →
  wp (pktin_intr_wait_register qs (num_pktin arg)) (λ _ s', silent arg qs s m s' m) s.
Proof.
  intros Hn. apply wp_bind. eapply wp_mono; [|eapply (wp_for_ret _ (λ _ _ s', silent arg qs s m s' m)
    (λ _ s', silent arg qs s m s' m))].
  - intros [?|?] s' H; by apply wp_ret.
  - apply silent_refl.
  - intros i [] s1 Hi Hs1. destruct (lookup_lt_is_Some_2 qs (Z.to_nat i)) as [q Hq]; [lia|].
    apply wp_bind. eapply wp_of_option; [exact Hq|]. apply wp_bind, wp_callv. intros r w E. apply wp_ret.
    assert (Hs2 : silent arg qs s m (after s1 (A_pktin_intr_wait_register q) r w) m).
    { eapply silent_trans; [exact Hs1|by eapply silent_after]. }
    by destruct (negb _).
Qed.

Lemma power_worker_ok single fuel arg s :
  arg_fine arg → (budget (world s) < fuel)%nat →
  wp (worker single fuel arg) (λ rc s', ∃ k m,
    course arg (queues_of arg) (passed single) s asleep0 (turns (queues_of arg) k) s' m ∧
    (on m = [] ∨ failed s s') ∧ (rc = 0 ∨ rc = -1 ∧ k = 0%nat)) s.
Proof.
  intros Ha Hfuel. set (qs := queues_of arg).
  assert (Hn : Z.to_nat (num_pktin arg) = length qs).
  { destruct Ha as [_ ?]. unfold qs, queues_of. rewrite length_take. lia. }
  assert (Hgo : ∀ lp : list Z → M st unit,
    (∀ s1, (budget (world s1) < fuel)%nat →
       wp (lp qs) (λ _ s', ∃ k m', course arg qs (passed single) s1 asleep0 (turns qs k) s' m' ∧
                             (on m' = [] ∨ failed s1 s')) s1) →
    wp (state ← callv A_get_processing_state;
        if state =? 0 then mret (-1)
        else
          queues ← copy_pktin arg;
          rc ← pktin_intr_wait_register queues (num_pktin arg);
          if negb (rc =? 0) then mret (-1) else lp queues;; mret 0)
      (λ rc s', ∃ k m, course arg qs (passed single) s asleep0 (turns qs k) s' m ∧
         (on m = [] ∨ failed s s') ∧ (rc = 0 ∨ rc = -1 ∧ k = 0%nat)) s).
  { intros lp Hlp. apply wp_bind, wp_callv. intros r w E.
    assert (Hs1 := silent_after arg qs s asleep0 A_get_processing_state r w _ E I eq_refl).
    assert (Hnone : ∀ s', silent arg qs s asleep0 s' asleep0 →
      ∃ k m, course arg qs (passed single) s asleep0 (turns qs k) s' m ∧
        (on m = [] ∨ failed s s') ∧ (-1 = 0 ∨ -1 = -1 ∧ k = 0%nat)).
    { intros s' Hs'. exists 0%nat, asleep0. split_and!; [by apply (silent_course arg qs (passed single))|by left|by right]. }
    destruct (_ =? 0); [by apply wp_ret, Hnone|].
    apply wp_bind. eapply wp_mono; [|by apply copy_pktin_ok]. intros ? ? [-> ->].
    apply wp_bind. eapply wp_mono; [|by apply (register_ok arg qs _ asleep0)]. intros rc s2 Hs2.
    assert (Hs2' := silent_trans _ _ _ _ _ _ _ _ Hs1 Hs2).
    destruct (negb _); [by apply wp_ret, Hnone|].
    apply wp_bind. eapply wp_mono; [|apply Hlp; destruct Hs2' as (? & _ & _ & ? & _); lia].
    intros _ s3 (k & m & Hc & Hon). apply wp_ret. exists k, m. split_and!; [| |by left].
    - change (turns qs k) with ([] ++ turns qs k). eapply (course_trans arg qs Hn (passed single)); [exact (silent_course arg qs (passed single) _ _ _ _ Hs2')|exact Hc].
    - destruct Hon as [?|Hfail]; [by left|]. right. exact (failed_silent _ _ _ _ _ _ _ Hs2' Hfail). }
  assert (Hag : agrees (Idling false 0) asleep0) by done.
  destruct single; apply (Hgo (λ q, _)); intros s1 Hb1; [by apply single_turns_ok|by apply multi_turns_ok].
Qed.

(** [C10] Power saving never loses a packet and never sleeps too early.  A worker
    ends when processing is stopped, or when an interrupt cannot be switched;
    until then it gives each packet it receives to the stack, or frees it,
    once (in order of arrival with the single-packet API), and each turn polls
    each of its queues once, in order.  It polls only while all interrupts are
    off; it switches them on only when no packet has come for longer than
    [idle_tmo]; it waits only when all of them are on; and it ends with all of
    them off, unless the last thing it did was a switch that failed. *)
Theorem power_saving_safe single fuel arg s :
  arg_fine arg → (budget (world s) < fuel)%nat →
  ∃ rc s' t m k, worker single fuel arg s = (Ret rc, s') ∧ trace s' = trace s ++ t ∧ glob s' = glob s ∧
    (rc = 0 ∨ rc = -1 ∧ k = 0%nat) ∧
    passed single (arrived t) (handled t) ∧ polled t = mjoin (replicate k (queues_of arg)) ∧
    watched arg (queues_of arg) asleep0 t = Some m ∧
    (on m = [] ∨ ∃ t' q enable r, t = t' ++ [(A_pktin_intr_set q enable, r)] ∧ r_val r ≠ 0).
Proof.
  intros Ha Hfuel. destruct (power_worker_ok single fuel arg s Ha Hfuel)
    as (rc & s' & Hrun & k & m & (t & Ht & Hg & _ & HR & Hp & Hw) & Hon & Hrc).
  exists rc, s', t, m, k. split_and!; [done..|].
  destruct Hon as [?|(t' & q & en & r & Ht' & Hr)]; [by left|]. right. exists t', q, en, r.
  rewrite Ht in Ht'. by apply app_inv_head in Ht'.
Qed.
End Workers.

(** Two queues. *)
Lemma power_saving_safe_witness :
  let arg := WorkerArg 2 [5; 6; 0] 100 1000000 in
  ∃ rc s' t m k, worker (G := unit) true 10 arg (MkApp (Demo 4 3) 0 [] ()) = (Ret rc, s') ∧
    trace s' = [] ++ t ∧ glob s' = () ∧ (rc = 0 ∨ rc = -1 ∧ k = 0%nat) ∧
    passed true (arrived t) (handled t) ∧ polled t = mjoin (replicate k [5; 6]) ∧
    watched arg [5; 6] asleep0 t = Some m ∧
    (on m = [] ∨ ∃ t' q enable r, t = t' ++ [(A_pktin_intr_set q enable, r)] ∧ r_val r ≠ 0).
Proof.
  intros arg. apply (power_saving_safe (W := demo) (F := gset Z) true 10 arg); [by split|simpl; lia].
Defined.

End FpmPowerProofs.
