(* ===== verification/FpmPowerStart.v ===== *)
(** * Packet forwarding with power saving: start and end

    The command line, which is that of fpm_direct with two more options, and
    [main]. *)

From S2P Require Import Prelude App AppProofs AppHeap Resources HttpdTheorems CliArgParse CliArgParseProofs ArgHeap TcpPerfProofs TcpPerfTheorems FpmDirect FpmDirectProofs FpmDirectStart FpmPower FpmPowerProofs.
Import App AppProofs AppHeap Resources HttpdTheorems ArgHeap TcpPerfProofs TcpPerfTheorems FpmDirectStart FpmPower.

Module FpmPowerStart.

(** ** Command line *)

(** The arguments that fpm_direct has as well. *)
Definition base (a : appl_args_t) : FpmDirect.appl_args_t :=
  FpmDirect.ApplArgs (core_count a) (core_start a) (cli_file a) (single_pkt_API a).
Definition with_base (d : FpmDirect.appl_args_t) (a : appl_args_t) : appl_args_t :=
  ApplArgs (FpmDirect.core_count d) (FpmDirect.core_start d) (FpmDirect.cli_file d)
    (FpmDirect.single_pkt_API d) (args_idle_tmo a) (args_pkt_tmo a).

Lemma base_with d a : base (with_base d a) = d.
Proof. by destruct d. Qed.

(** The options of fpm_direct are read as there. *)
Lemma parse_option_direct fuel o a h :
  o.1 ≠ 100 → o.1 ≠ 112 →
  parse_option fuel o a h =
    (r ← FpmDirect.parse_option fuel o (base a); mret (r.1, with_base r.2 a)) h.
Proof.
  intros Hd Hp. destruct o as [c arg]. cbn [fst] in Hd, Hp.
  unfold parse_option, FpmDirect.parse_option.
  assert (Ha : with_base (base a) a = a) by (by destruct a).
  destruct (c =? 99); [by rewrite bind_assoc; apply bind_cong|].
  destruct (c =? 115); [by rewrite bind_assoc; apply bind_cong|].
  destruct (c =? 105).
  { rewrite bind_assoc. apply bind_cong. intros res h'. rewrite bind_ret. cbn [fst snd]. by rewrite Ha. }
  destruct (c =? 104); [by rewrite bind_assoc; apply bind_cong|].
  destruct (c =? 102).
  { rewrite bind_assoc. apply bind_cong. intros len h'. destruct (len =? 0).
    - rewrite bind_ret. cbn [fst snd]. by rewrite Ha.
    - rewrite bind_assoc. apply bind_cong. intros t h2. rewrite bind_assoc. by apply bind_cong. }
  destruct (c =? 103); [done|].
  rewrite (proj2 (Z.eqb_neq _ _) Hd), (proj2 (Z.eqb_neq _ _) Hp), bind_ret. cbn [fst snd]. by rewrite Ha.
Qed.

(** As in fpm_direct, and the arguments of [-d] and [-p] can be read. *)
Definition opt_ok (b0 : memory) (fuel : nat) (o : Z * CliArgParse.ptr) : Prop :=
  FpmDirectStart.opt_ok b0 fuel o ∧ (o.1 = 100 ∨ o.1 = 112 → arg_ok b0 fuel o.2).

Lemma power_parse_option_ok b0 fuel o a h :
  parsed b0 (base a) h → opt_ok b0 fuel o → unset (base a) h o.1 →
  ends (parse_option fuel o a) (λ r h', option_result b0 o.1 (base a) h (r.1, base r.2) h') (quit b0) h.
Proof.
  intros Hp [Hok Harg] Hun.
  destruct (decide (o.1 = 100 ∨ o.1 = 112)) as [Hdp|Hdp].
  { assert (Hnew : ∀ a', base a' = base a →
      option_result b0 o.1 (base a) h (0, base a') h) by (intros a' ->; split; [by left|split; [done|auto]]).
    unfold parse_option. destruct o as [c arg]. cbn [fst snd] in *.
    destruct Hdp as [-> | ->]; apply ends_wp, wp_bind; (eapply (atoi_ok b0 fuel arg); [apply Hp|auto|]);
      intros t Ht; by apply wp_ret, Hnew. }
  assert (Hrun : ends (r ← FpmDirect.parse_option fuel o (base a); mret (r.1, with_base r.2 a))
    (λ r h', option_result b0 o.1 (base a) h (r.1, base r.2) h') (quit b0) h).
  { apply ends_bind. eapply ends_mono; [|done|by apply fpm_parse_option_ok].
    intros [rc d] h' Hr. apply ends_wp, wp_ret. cbn [fst snd]. by rewrite base_with. }
  destruct Hrun as (r & h' & Hr & HQ). exists r, h'. split; [|done].
  rewrite parse_option_direct; [done|tauto..].
Qed.

Lemma power_parse_options_ok b0 fuel opts : ∀ a h,
  parsed b0 (base a) h → Forall (opt_ok b0 fuel) opts → NoDup opts.*1 →
  (∀ o, o ∈ opts → unset (base a) h o.1) →
  ends (parse_options fuel opts a) (λ r h', (r.1 = 0 ∨ r.1 = -1) ∧ parsed b0 (base r.2) h') (quit b0) h.
Proof.
  induction opts as [|o opts IH]; intros a h Hp Hok Hnd Hun; simpl; [by apply ends_wp, wp_ret; auto|].
  apply Forall_cons in Hok as [Ho Hok]. rewrite fmap_cons in Hnd. apply NoDup_cons in Hnd as [Hno Hnd].
  apply ends_bind. eapply ends_mono; [|done|apply power_parse_option_ok; [done..|apply Hun; set_solver]].
  intros [rc a'] h' (Hr & Hp' & Hu). cbn [fst snd] in *.
  destruct (Z.eqb_spec rc 0); [|by apply ends_wp, wp_ret].
  apply IH; [done..|]. intros o' Ho'. apply Hu; [|apply Hun; set_solver].
  intros Heq. apply Hno. rewrite <- Heq. apply list_elem_of_fmap. eauto.
Qed.

Lemma power_parse_args_ok b0 fuel opts h :
  ready b0 h → Forall (opt_ok b0 fuel) opts → NoDup opts.*1 →
  ends (parse_args fuel opts) (λ p h',
    p.1 = EXIT_SUCCESS ∧ accepted b0 (base p.2) h' ∨ p.1 = EXIT_FAILURE ∧ spare 1 b0 h') (quit b0) h.
Proof.
  intros Hr Hok Hnd. unfold parse_args.
  apply ends_bind, ends_wp, wp_modify, ends_bind, ends_wp, wp_modify.
  set (h1 := CliArgParse.set_if_array _ _). set (a0 := ApplArgs _ _ _ _ _ _).
  assert (Hp : parsed b0 (base a0) h1) by (split; [by apply ready_holds|done]).
  apply ends_bind. eapply ends_mono; [|done|apply (power_parse_options_ok b0 fuel opts a0 h1 Hp Hok Hnd)].
  2: { intros o _. by split. }
  intros [rc a] h' [Hrc Hpa]. cbn [fst snd] in *. apply ends_wp.
  assert (Hfail : wp (parse_args_cleanup;; mret (EXIT_FAILURE, a)) (λ p h',
    p.1 = EXIT_SUCCESS ∧ accepted b0 (base p.2) h' ∨ p.1 = EXIT_FAILURE ∧ spare 1 b0 h') h').
  { apply wp_bind. eapply wp_mono; [|by eapply cleanup_kept, (parsed_kept _ (base a))].
    intros [] h2 Hc. apply wp_ret. by right. }
  destruct (rc =? -1); [done|]. apply wp_bind, wp_gets. pose proof (holds_count _ _ _ (proj1 Hpa)) as Hnn.
  destruct (Z.eqb_spec (CliArgParse.if_count h') 0); [done|].
  destruct (Z.ltb_spec NFP_FP_INTERFACE_MAX (CliArgParse.if_count h')); [done|].
  apply wp_ret. left. split; [done|]. split; [done|unfold NFP_FP_INTERFACE_MAX in *; lia].
Qed.

(** ** [main] *)

Section Start.
Context {W F : Type} `{!App W F, !SocketLaws W F, !PacketLaws W F, !CpuLaws W F}.
Context (b0 : memory).
Local Abbreviation st := (app W F power_t).
Implicit Types (s : st).
Local Abbreviation neutral := (Resources.neutral (λ g : power_t, g)).
Local Abbreviation working := (working 1 b0).

Definition released s0 s : Prop := ended 1 b0 s0 s.
Definition returned s0 (rc : Z) s : Prop := (rc = EXIT_SUCCESS ∨ rc = EXIT_FAILURE) ∧ released s0 s.
Definition exited s0 (c : Z) s : Prop :=
  (c = EXIT_SUCCESS ∨ c = EXIT_FAILURE) ∧
  (released s0 s ∨ c = EXIT_FAILURE ∧ moves s0 [] s [R_nfp] ∧ ∃ num, too_few num s0 s).

Lemma power_give_up_ok s0 s (A : Type) (Q : A → st → Prop) :
  working 0 s0 s → ends (terminate;; exit EXIT_FAILURE) Q (exited s0) s.
Proof.
  intros Hr. apply ends_bind, ends_wp. eapply wp_mono; [|by apply (terminate_ok 1 b0)].
  intros [] s' He. apply ends_exit. split; [by right|by left].
Qed.

Lemma power_stop_ok n s0 s m (events : bool) :
  working n s0 s → (n ≤ Z.to_nat m + (if events then 1 else 0))%nat →
  wp (stop_threads m events) (returned s0) s.
Proof.
  intros Hw Hle. eapply (wp_neutral (λ g, g)); [frame|apply any_call_|]. intros [] s1 _ Hn1.
  pose proof (working_neutral _ _ _ _ _ _ Hw Hn1) as Hw1.
  apply wp_bind, wp_call_. intros r2 w2 E2. pose proof (working_join _ _ _ _ _ m r2 w2 Hw1) as Hw2.
  apply wp_bind. eapply (wp_mono _ (λ _ s', working 0 s0 s')).
  { intros [] s3 Hw3. apply wp_bind. eapply wp_mono; [|by eapply terminate_ok].
    intros [] s' He. apply wp_ret. split; [by right|done]. }
  destruct events; simpl.
  - apply wp_call_. intros r3 w3 E3. pose proof (working_join _ _ _ _ _ 1 r3 w3 Hw2) as Hw3.
    by replace (n - Z.to_nat m - Z.to_nat 1)%nat with 0%nat in Hw3 by lia.
  - apply wp_ret. by replace (n - Z.to_nat m)%nat with 0%nat in Hw2 by lia.
Qed.

(** ** Arguments of the workers *)

Definition args_fine (ws : list worker_arg) : Prop :=
  Z.of_nat (length ws) = MAX_WORKERS ∧
  ∀ j w, ws !! j = Some w → Z.of_nat (length (pktin w)) = NFP_FP_INTERFACE_MAX.

Lemma power_args_insert ws j w :
  args_fine ws → Z.of_nat (length (pktin w)) = NFP_FP_INTERFACE_MAX → args_fine (<[j := w]> ws).
Proof.
  intros [Hl Hw] Hlen. split; [by rewrite length_insert|].
  intros j' w' [(-> & -> & _)|[_ ?]]%list_lookup_insert_Some; [done|by eapply Hw].
Qed.

Lemma power_args_lookup ws j :
  args_fine ws → 0 ≤ j < MAX_WORKERS →
  ∃ w, ws !! Z.to_nat j = Some w ∧ Z.of_nat (length (pktin w)) = NFP_FP_INTERFACE_MAX.
Proof.
  intros [Hl Hw] Hj. destruct (lookup_lt_is_Some_2 ws (Z.to_nat j)) as [w Hj']; [lia|]. eauto.
Qed.

(** What is known of the arguments of the workers between two interfaces. *)
Definition sharing (P : worker_arg → Prop) num s ws s' : Prop :=
  neutral s s' ∧ args_fine ws ∧ ∀ j w, ws !! j = Some w → Z.of_nat j < num → P w.

(** [num_pktin] and the timeouts are set, and storing queues leaves them. *)
Definition settled (a : appl_args_t) (n : Z) (w : worker_arg) : Prop :=
  num_pktin w = n ∧ idle_tmo w = args_idle_tmo a ∧ pkt_tmo w = args_pkt_tmo a.

Lemma share_queues_ok a n s es num i ws s1 :
  listed (heap (glob s)) es → 0 ≤ i < Z.of_nat (length es) → i < NFP_FP_INTERFACE_MAX →
  num ≤ MAX_WORKERS → sharing (settled a n) num s ws s1 →
  ends (share_queues num i ws)
    (λ r s', match r with inl ws' => sharing (settled a n) num s ws' s' | inr _ => neutral s s' end)
    (λ c s', c = EXIT_FAILURE ∧ neutral s s' ∧ too_few num s s') s1.
Proof.
  intros Hl Hi Hmax Hnum (Hn1 & Hf & Hset). unfold share_queues.
  apply ends_bind, ends_wp. eapply (interface_name_ok s1 es); [cbn; by destruct Hn1 as (_ & -> & _)|done|].
  intros name. apply ends_bind, ends_wp, wp_callv. intros r2 w2 E2. set (s2 := after s1 _ r2 w2).
  assert (Hn2 : neutral s s2) by (etrans; [exact Hn1|by apply neutral_after]).
  destruct (_ =? 0); [by apply ends_wp, wp_ret|].
  apply ends_bind, ends_wp, wp_call. intros q w3 E3. set (s3 := after s2 _ q w3).
  assert (Hn3 : neutral s s3) by (etrans; [exact Hn2|by apply neutral_after]).
  destruct (Z.eqb_spec (r_val q) num) as [Hq|Hq]; cbn [negb].
  2: { apply ends_exit. split_and!; [done..|]. destruct Hn2 as (_ & _ & Hm). destruct (Hm []) as (t & Ht & _).
       exists t, (r_val r2), q. split; [|done]. simpl in *. by rewrite Ht, app_assoc. }
  pose proof (FpmDirectProofs.length_entries q (queue_table _ _ _ _ _ E3)) as Hlen. rewrite Hq in Hlen.
  apply ends_bind, ends_wp.
  eapply wp_mono; [|apply (wp_for_acc _ (λ _ ws' s', s' = s3 ∧ args_fine ws' ∧
    ∀ j w, ws' !! j = Some w → Z.of_nat j < num → settled a n w))]; [|done|].
  { intros ws' s' (-> & Hf' & Hset'). by apply ends_wp, wp_ret. }
  intros j ws' s' Hj (-> & Hf' & Hset').
  destruct (lookup_lt_is_Some_2 (FpmDirectProofs.entries q) (Z.to_nat j)) as [x Hx]; [lia|].
  apply wp_bind. eapply FpmDirectProofs.wp_entry; [exact Hx|]. destruct (Z.ltb_spec j MAX_WORKERS); [|lia].
  destruct (power_args_lookup ws' j Hf') as (w & Hw & Hlw); [lia|].
  apply wp_bind. eapply wp_of_option; [exact Hw|]. apply wp_bind, store_ok; [lia|].
  apply store_ok; [by eapply lookup_lt_Some|]. split_and!; [done| |].
  - apply power_args_insert; [done|]. simpl. by rewrite length_insert.
  - intros j' w' [(<- & <- & _)|[_ Hj']]%list_lookup_insert_Some Hlt; [|by eapply Hset'].
    exact (Hset' _ _ Hw Hlt).
Qed.

Lemma power_workers_ok a s es num ws :
  listed (heap (glob s)) es → Z.of_nat (length es) ≤ NFP_FP_INTERFACE_MAX →
  num ≤ MAX_WORKERS → args_fine ws →
  ends (configure_workers_arg a num ws)
    (λ r s', neutral s s' ∧ (r.1 = 0 ∧ args_fine r.2 ∧
       (∀ j w, r.2 !! j = Some w → Z.of_nat j < num → settled a (Z.of_nat (length es)) w) ∨ r.1 = -1))
    (λ c s', c = EXIT_FAILURE ∧ neutral s s' ∧ too_few num s s') s.
Proof.
  intros Hl Hmax Hnum Hf. apply ends_bind, ends_wp, wp_getg. pose proof (proj1 Hl) as Hn.
  cbn [heap_of power_heap]. rewrite Hn. set (n := Z.of_nat (length es)).
  apply ends_bind, ends_wp. eapply wp_mono; [|apply (wp_for_acc _ (λ i ws' s', s' = s ∧ args_fine ws' ∧
    ∀ j w, ws' !! j = Some w → Z.of_nat j < i → settled a n w))].
  - intros ws' s' (-> & Hf' & Hset). apply ends_bind.
    eapply ends_mono; [|intros ? ? Hx; exact Hx|eapply (ends_for_ret _ (λ _, sharing (settled a n) num s)
      (λ _ s', neutral s s'))].
    + intros [ws2|ws2] s2 Hr; apply ends_wp, wp_ret; [|by auto]. destruct Hr as (Hn2 & Hf2 & Hset2).
      split; [done|]. by left.
    + split_and!; [done..|]. intros j w Hj Hlt. apply (Hset j); [done|]. lia.
    + intros i ws2 s2 Hi Hd. eapply share_queues_ok; [done|lia|lia|done|done].
  - split_and!; [done..|]. lia.
  - intros i ws' s' Hi (-> & Hf' & Hset). destruct (power_args_lookup ws' i Hf') as (w & Hw & Hlw); [lia|].
    apply wp_bind. eapply wp_of_option; [exact Hw|]. apply store_ok; [by eapply lookup_lt_Some|].
    split_and!; [done|by apply power_args_insert|].
    intros j w' [(<- & <- & _)|[Hne Hj]]%list_lookup_insert_Some Hlt; [done|]. apply (Hset j); [done|lia].
Qed.

(** ** Threads *)

Lemma power_create_ok single first num s0 s :
  0 ≤ num → working 0 s0 s →
  wp (create_workers single first num) (λ r s', glob s' = glob s ∧
    match r with inl _ => working (Z.to_nat num) s0 s' | inr i => working (Z.to_nat i) s0 s' end) s.
Proof.
  intros Hnum Hw. eapply wp_mono; [|by apply (create_loop_ok 1 b0)]. intros [[]|i] s' H; [done|]. by destruct H as (? & _ & ?).
Qed.

Lemma run_events_ok s0 s num ids a es :
  working (Z.to_nat num) s0 s → readable (heap (glob s)) (cli_file a) →
  listed (heap (glob s)) es → (length es ≤ length ids)%nat →
  wp (run_events num ids a) (returned s0) s.
Proof.
  intros Hw Hr Hl Hle. apply wp_bind, wp_callv. intros r w E.
  pose proof (working_create _ _ _ _ _ THREAD_event_dispatcher 0 r w Hw) as Hw1. set (s1 := after s _ r w) in *.
  destruct (r_val r =? 1); cbn [negb]; [|eapply power_stop_ok; [exact Hw1|lia]].
  eapply (wp_neutral (λ g, g)); [apply neutral_addresses|by eapply (addresses_ok s1)|]. intros rc s2 _ Hn2.
  pose proof (working_neutral _ _ _ _ _ _ Hw1 Hn2) as Hw2.
  destruct (negb _); [eapply power_stop_ok; [exact Hw2|lia]|].
  eapply (wp_neutral (λ g, g)); [frame|apply arg_string_ok; cbn; by destruct Hn2 as (_ & -> & _)|].
  intros file s3 _ Hn3. eapply (wp_neutral (λ g, g)); [frame|apply any_callv|]. intros rc2 s4 _ Hn4.
  pose proof (working_neutral _ _ _ _ _ _ (working_neutral _ _ _ _ _ _ Hw2 Hn3) Hn4) as Hw4.
  destruct (negb _); [eapply power_stop_ok; [exact Hw4|lia]|].
  apply wp_bind, wp_call_. intros r5 w5 E5. pose proof (working_join _ _ _ _ _ num r5 w5 Hw4) as Hw5.
  apply wp_bind, wp_call_. intros r6 w6 E6. pose proof (working_join _ _ _ _ _ 1 r6 w6 Hw5) as Hw6.
  replace (S (Z.to_nat num) - Z.to_nat num - Z.to_nat 1)%nat with 0%nat in Hw6 by lia.
  apply wp_assoc, wp_bind. eapply wp_mono; [|by apply (terminate_ok 1 b0 s0)].
  intros [] s' He. apply wp_ret. split; [by left|done].
Qed.

Lemma run_workers_ok s0 s a first num ws :
  working 0 s0 s → accepted b0 (base a) (heap (glob s)) → 0 ≤ num ≤ MAX_WORKERS → args_fine ws →
  ends (run_workers first num a ws) (returned s0) (exited s0) s.
Proof.
  intros Hr ([Hh Hm] & Hcnt) Hnum Hf. destruct (holds_listed _ _ _ Hh) as [es Hl]; [lia|].
  pose proof (proj1 Hl) as Hn. unfold run_workers.
  assert (Hle : (length es ≤ length (replicate (Z.to_nat NFP_FP_INTERFACE_MAX) (0%Z, 0%Z)))%nat).
  { rewrite length_replicate. unfold NFP_FP_INTERFACE_MAX. lia. }
  eapply (ends_neutral (λ g, g)); [apply neutral_interfaces|by apply (interfaces_created s es)|].
  intros c s1 Hlen Hn1. pose proof (working_neutral _ _ _ _ _ _ Hr Hn1) as Hr1.
  destruct (negb _); [by apply power_give_up_ok|].
  assert (Hle' : (length es ≤ length c.2)%nat) by (rewrite Hlen; exact Hle).
  assert (Hl1 : listed (heap (glob s1)) es) by (destruct Hn1 as (_ & -> & _); done).
  apply ends_bind. eapply ends_mono; [| |apply (power_workers_ok a s1 es num ws Hl1); [unfold NFP_FP_INTERFACE_MAX; lia|lia|done]].
  2: { intros ? s2 (-> & Hn2 & t & io & r & Ht & Hne). split; [by right|]. right.
       pose proof (working_neutral _ _ _ _ _ _ Hr1 Hn2) as [_ Hm2%threads_none]. split_and!; [done..|]. exists num.
       destruct Hr1 as [_ (t1 & Ht1 & _)%threads_none]. exists (t1 ++ t), io, r. by rewrite Ht, Ht1, <- !app_assoc. }
  intros [rc ws'] s2 [Hn2 _]. pose proof (working_neutral _ _ _ _ _ _ Hr1 Hn2) as Hr2.
  destruct (negb _); [by apply power_give_up_ok|]. apply ends_wp, wp_bind.
  eapply wp_mono; [|apply (power_create_ok _ first num s0 s2); [lia|done]]. intros t s3 (Hg3 & Hw3).
  destruct t as [[]|i]; [|by eapply power_stop_ok; [exact Hw3|lia]].
  assert (Hheap : heap (glob s3) = heap (glob s)).
  { rewrite Hg3. destruct Hn2 as (_ & -> & _), Hn1 as (_ & -> & _). done. }
  apply (run_events_ok s0 s3 num c.2 a es); [done| |by rewrite Hheap|done].
  rewrite Hheap. destruct (cli_file a) as [p|] eqn:Hc; [|done].
  apply (holds_readable _ _ _ _ Hh). unfold copies. simpl. rewrite Hc. simpl. set_solver.
Qed.

(** [C11] [main] ends on every path, by returning or by [exit], with 0 or 1.
    Whatever fails on the way, the threads that were started, workers and
    dispatcher of events, were joined before the stack was terminated, and the
    interface list has been freed; the copy of the name of the CLI file is all
    that may be left in memory.  The one exception is an interface with the
    wrong number of input queues: then the process exits with the stack still
    running.  Each option is given at most once, core numbers are below 2^30,
    and memory does not run out. *)
Theorem power_main_releases_resources fuel opts ws s :
  ready b0 (heap (glob s)) → Forall (opt_ok b0 fuel) opts → NoDup opts.*1 → args_fine ws →
  ∃ o s' t, main fuel opts ws s = (o, s') ∧ trace s' = trace s ++ t ∧
    match o with Ret c | Exit c => c = EXIT_SUCCESS ∨ c = EXIT_FAILURE | _ => False end ∧
    (spare 1 b0 (heap (glob s')) ∧ held [] t = Some [] ∨
     o = Exit EXIT_FAILURE ∧ held [] t = Some [R_nfp] ∧
     ∃ t' io num r, t = t' ++ [(A_pktin_queue io num, r)] ∧ r_val r ≠ num).
Proof.
  intros Hready Hok Hnd Hf.
  enough (ends (main fuel opts ws) (returned s) (exited s) s) as (o & s' & Hrun & Ho).
  { destruct o as [c|c| |]; [| |done..].
    - destruct Ho as (Hc & He & t & Ht & Hheld). exists (Ret c), s', t. split_and!; [done..|]. by left.
    - destruct Ho as (Hc & [(He & t & Ht & Hheld)|(-> & (t & Ht & Hheld) & num & t' & io & r & Ht' & Hr)]);
        eexists _, s', t; (split_and!; [done..|]); [by left|right]. split_and!; [done..|].
      exists t', io, num, r. split; [|done]. rewrite Ht in Ht'. by apply app_inv_head in Ht'. }
  eapply (ends_neutral (λ g, g)); [unfold FpmDirect.nfpexpl_sigaction_set, FpmDirect.linux_sigaction; frame| |].
  { instantiate (1 := λ _, True). unfold FpmDirect.nfpexpl_sigaction_set, FpmDirect.linux_sigaction. runs. }
  intros r0 s1 _ Hn1.
  assert (Hready1 : ready b0 (heap (glob s1))) by (by destruct Hn1 as (_ & -> & _)).
  assert (Hm1 : moves s [] s1 []) by apply Hn1.
  pose proof (ready_spare 1 _ _ Hready1) as Hspare.
  destruct (negb _); [apply ends_wp, wp_ret; by split; [right|]|].
  apply ends_bind, ends_on_heap. eapply ends_mono; [| |by apply (power_parse_args_ok b0)].
  2: { intros c h [-> Hs]. split; [by left|]. left. by split. }
  intros [prc a] h Hres. simpl in Hres. apply ends_bind, ends_wp, wp_setg. cbn [fst snd].
  set (s2 := MkApp _ _ _ _). assert (Hm2 : moves s [] s2 []) by exact Hm1.
  destruct Hres as [[-> Hacc]|[-> Hs]]; [|apply ends_wp, wp_ret; by split; [right|]].
  change (EXIT_SUCCESS =? EXIT_SUCCESS) with true. cbn [negb].
  apply ends_bind, ends_wp, wp_callv. intros r w E. set (s3 := after s2 _ r w).
  assert (Hk : kept 1 b0 (heap (glob s3))) by (eapply parsed_kept, Hacc).
  destruct (Z.eqb_spec (r_val r) 0) as [Hr|Hr]; cbn [negb].
  2: { apply ends_bind, ends_wp. eapply wp_mono; [|by apply release_ok]. intros [] s4 (Ht & _ & Hs).
       apply ends_exit. split; [by right|]. left. split; [done|]. eapply moves_trans; [exact Hm2|].
       exists [(A_initialize 0 [], r)]. split; [by rewrite Ht|]. cbn -[Z.eqb].
       by rewrite (proj2 (Z.eqb_neq _ _) Hr). }
  assert (Hrun : working 0 s s3).
  { split; [done|]. apply threads_none. eapply moves_trans; [exact Hm2|]. apply moves_after. unfold hold. cbn [fst snd].
    by rewrite (proj2 (Z.eqb_eq _ _) Hr). }
  assert (Hcores : wp (validate_cores_settings (core_start a) (core_count a) : M st _) (λ o _,
    match o with Some (_, num) => 0 ≤ num ≤ MAX_WORKERS | None => True end) s3).
  { destruct Hacc as [[_ [? ?]] _]. eapply wp_mono; [|apply cores_ok; [apply cpu_count_range|done|done]].
    intros o s4 (r4 & w4 & _ & _ & ->). unfold cores_of. case_decide; [|done].
    unfold MAX_WORKERS, FpmDirect.MAX_WORKERS in *. lia. }
  eapply (ends_neutral (λ g, g)); [apply neutral_cores|exact Hcores|].
  intros o s4 Ho Hn4. pose proof (working_neutral _ _ _ _ _ _ Hrun Hn4) as Hrun4.
  destruct o as [[first num]|]; [|by apply power_give_up_ok].
  apply run_workers_ok; [done| |done|done]. by destruct Hn4 as (_ & -> & _).
Qed.
End Start.

(** ** Witness *)

(** The command line "-i eth0". *)
Definition demo_workers : list worker_arg := replicate 64 (WorkerArg 0 (replicate 8 0) 0 0).
Definition demo_power : app demo (gset Z) power_t :=
  MkApp (Demo 3 3) 0 [] (Power demo_memory (ApplArgs 0 0 None false 0 0)).

Lemma power_main_releases_resources_witness :
  ∃ o s' t, main 2060 demo_opts demo_workers demo_power = (o, s') ∧ trace s' = trace demo_power ++ t ∧
    match o with Ret c | Exit c => c = EXIT_SUCCESS ∨ c = EXIT_FAILURE | _ => False end ∧
    (spare 1 (CliArgParse.blocks demo_memory) (heap (glob s')) ∧ held [] t = Some [] ∨
     o = Exit EXIT_FAILURE ∧ held [] t = Some [R_nfp] ∧
     ∃ t' io num r, t = t' ++ [(A_pktin_queue io num, r)] ∧ r_val r ≠ num).
Proof.
  apply (power_main_releases_resources (W := demo) (F := gset Z) (CliArgParse.blocks demo_memory)).
  - exact demo_ready.
  - apply Forall_singleton. split; [exact (proj1 (Forall_singleton _ _) demo_opts_ok)|]. intros [Hx|Hx]; discriminate.
  - apply NoDup_singleton.
  - split; [done|]. by intros j w [-> _]%lookup_replicate.
Defined.

End FpmPowerStart.
