(* ===== verification/DefaultApp.v ===== *)
(** * Programs with the default dispatcher

    Three programs let threads of the library dispatch events
    ([default_event_dispatcher]) and differ in what they add: fpm
    (example/fpm/app_main.c) a thread that prints the packet rate, udpecho
    (example/udpecho) a UDP socket whose callback sends every datagram back,
    webserver (example/webserver/app_main.c) the thread of [Httpd].  They start
    in the same way: signals, command line, the stack with the interfaces of
    the command line, the workers, IPv4 addresses, the CLI file.  That common
    part is in the first section, written for programs with any globals; the
    modules have the rest.  Printed information is left out. *)

From S2P Require Import Prelude App AppHeap CliArgParse ArgOptions Httpd Httpd2 FpmDirect.
Import App AppHeap.

Module DefaultApp.

(** ** Constants *)

Definition MAX_WORKERS : Z := 32.
Definition NFP_FP_INTERFACE_MAX : Z := FpmDirect.NFP_FP_INTERFACE_MAX.
Definition NFP_IFNAMSIZ : Z := 32.
Definition NFP_IFNET_INVALID : Z := 0.
Definition EXIT_SUCCESS : Z := 0.
Definition EXIT_FAILURE : Z := 1.
Definition RLIMIT_CORE : Z := 4.
Definition MAX_CORE_FILE_SIZE : Z := 200000000.
Definition NFP_STAT_COMPUTE_PERF : Z := 2.
(** The thread functions. *)
Definition THREAD_default_event_dispatcher : Z := 30.
Definition THREAD_default_event_dispatcher_multi : Z := 31.
Definition THREAD_perf_client : Z := 32.

Local Abbreviation MC := (M CliArgParse.state).
Abbreviation options := (list (Z * CliArgParse.ptr)).

(** ** What the programs share *)

Section Common.
Context {W F G : Type} `{!App W F, !HasHeap G}.
Local Abbreviation MG := (M (app W F G)).

(** common/linux_resources.c: the size of core files; the answers are only
    printed. *)
Definition nfpexpl_resources_set : MG Z :=
  rlp ← call (A_getrlimit RLIMIT_CORE);
  call_ (A_setrlimit RLIMIT_CORE MAX_CORE_FILE_SIZE (r_out2 rlp));;
  mret 0.

(** [strncpy(if_names[i], if_name, NFP_IFNAMSIZ)] with a 0 in the last byte:
    the strings in [app_init_params.if_names]. *)
Definition init_names : MG (list bytes) :=
  n ← FpmDirect.if_count;
  for_acc 0 (Z.to_nat (Z.min n NFP_FP_INTERFACE_MAX)) (λ i names,
    name ← FpmDirect.interface_name i;
    mret (names ++ [take (Z.to_nat (NFP_IFNAMSIZ - 1)) name])) [].

(** [nfp_initialize], with the interfaces. *)
Definition initialize : MG Z :=
  n ← FpmDirect.if_count;
  names ← init_names;
  callv (A_initialize n names).

(** One interface: [inr] leaves the loop with [ret]. *)
Definition configure_address (i : Z) (_ : unit) : MG (unit + Z) :=
  itf ← on_heap (CliArgParse.read_entry (Z.to_nat i));
  name ← arg_string (CliArgParse.if_name itf);
  match name with
  | None => mret (inr (-1))
  | Some name =>
      address ← arg_string (CliArgParse.if_address itf);
      match address with
      | None => mret (inl ())
      | Some ad =>
          ifnet ← callv (A_ifnet_get_by_name name);
          if ifnet =? NFP_IFNET_INVALID then mret (inr (-1))
          else
            port ← call (A_ifnet_port_get ifnet);
            if negb (r_val port =? 0) then mret (inr (-1))
            else
              addr ← call (A_parse_ip_addr ad);
              if r_val addr =? 0 then mret (inr (-1))
              else
                res ← callv (A_ifport_net_ipv4_up (r_out port) (r_out2 port) (r_out addr)
                               (CliArgParse.if_address_masklen itf));
                if negb (res =? 0) then mret (inr (-1)) else mret (inl ())
      end
  end.

Definition configure_interface_addresses : MG Z :=
  n ← FpmDirect.if_count;
  r ← for_ret 0 (Z.to_nat (Z.min n NFP_FP_INTERFACE_MAX)) configure_address ();
  match r with inl _ => mret 0 | inr ret => mret ret end.

(** In what follows [cleanup] is [parse_args_cleanup(&params)]. *)
Context (cleanup : MC unit).

(** [nfp_terminate(); parse_args_cleanup(&params);] *)
Definition terminate : MG unit := call_ A_terminate;; on_heap cleanup.

(** [nfp_stop_processing(); nfp_thread_join(thread_tbl, n); ...] *)
Definition stop_workers (n : Z) : MG Z :=
  call_ A_stop_processing;;
  call_ (A_thread_join n);;
  terminate;;
  mret EXIT_FAILURE.

(** With the stack running: the workers, the addresses and the CLI file; then
    the [rest], which is given the number of workers. *)
Definition start_workers (core_count func : Z) (cli_file : option positive) (rest : Z → MG Z)
    : MG Z :=
  mask ← call (A_default_worker_cpumask core_count MAX_WORKERS);
  if negb (r_val mask =? 0) then terminate;; mret EXIT_FAILURE
  else
    let num_workers := r_out mask in
    ret_val ← callv (A_threads_create func num_workers);
    if negb (ret_val =? num_workers) then
      call_ A_stop_processing;;
      when (negb (ret_val =? -1)) (call_ (A_thread_join ret_val));;
      terminate;;
      mret EXIT_FAILURE
    else
      r ← configure_interface_addresses;
      if negb (r =? 0) then stop_workers num_workers
      else
        file ← arg_string cli_file;
        r ← callv (A_cli_process_file file);
        if negb (r =? 0) then stop_workers num_workers
        else rest num_workers.
End Common.

(** ** fpm *)

Module Fpm.

Record appl_args_t := ApplArgs {
  core_count : Z;
  cli_file : option positive;
  perf_stat : bool;
  single_pkt_API : bool;
}.

Record fpm_t := MkFpm { heap : CliArgParse.state; params : appl_args_t }.
Definition set_params (x : appl_args_t) (g : fpm_t) : fpm_t := MkFpm (heap g) x.

#[global] Program Instance fpm_heap : HasHeap fpm_t :=
  {| heap_of := heap; put_heap h g := MkFpm h (params g) |}.
Next Obligation. done. Qed.
Next Obligation. by intros []. Qed.

(** [cli_file] is not freed. *)
Definition parse_args_cleanup : MC unit :=
  CliArgParse.nfpexpl_parse_interfaces_param_cleanup true.

(** One option: -1 is [parse_args_cleanup(appl_args); return EXIT_FAILURE;]. *)
Definition parse_option (fuel : nat) (opt : Z * CliArgParse.ptr) (a : appl_args_t)
    : MC (Z * appl_args_t) :=
  let '(c, optarg) := opt in
  if c =? 99 (* c *) then
    n ← CliArgParse.atoi optarg;
    mret (0, ApplArgs n (cli_file a) (perf_stat a) (single_pkt_API a))
  else if c =? 105 (* i *) then ArgOptions.interfaces_option fuel optarg a
  else if c =? 104 (* h *) then mret (-1, a)
  else if c =? 112 (* p *) then
    mret (0, ApplArgs (core_count a) (cli_file a) true (single_pkt_API a))
  else if c =? 102 (* f *) then
    ArgOptions.copy_option optarg a
      (λ p, ApplArgs (core_count a) p (perf_stat a) (single_pkt_API a))
  else if c =? 103 (* g *) then
    mret (0, ApplArgs (core_count a) (cli_file a) (perf_stat a) true)
  else mret (0, a).

(** The number of interfaces has no upper bound here. *)
Definition parse_args (fuel : nat) (opts : options) : MC (Z * appl_args_t) :=
  modify (CliArgParse.set_if_count 0);;
  modify (CliArgParse.set_if_array None);;
  r ← ArgOptions.parse_options (parse_option fuel) opts (ApplArgs 0 None false false);
  if r.1 =? -1 then parse_args_cleanup;; mret (EXIT_FAILURE, r.2)
  else
    n ← gets CliArgParse.if_count;
    if n =? 0 then parse_args_cleanup;; mret (EXIT_FAILURE, r.2)
    else mret (EXIT_SUCCESS, r.2).

Section Main.
Context {W F : Type} `{!App W F}.
Local Abbreviation MF := (M (app W F fpm_t)).

Definition perf_step (_ : unit) : MF (unit + unit) :=
  running ← callv A_is_running;
  if running =? 0 then mret (inr ())
  else
    ps ← call A_perf_statistics;
    call_ (A_report [r_out ps]);;
    call_ (A_usleep 1000000);;
    mret (inl ()).

Definition perf_client (fuel : nat) : MF Z :=
  state ← callv A_get_processing_state;
  if state =? 0 then mret (-1)
  else
    call_ (A_set_stat_flags NFP_STAT_COMPUTE_PERF);;
    loop fuel perf_step ();;
    mret 0.

Definition start_performance (core_id : Z) : MF Z :=
  callv (A_thread_create THREAD_perf_client core_id).

Definition configure_interface_addresses : MF Z := DefaultApp.configure_interface_addresses.

(** The end of [main]: the packet rate, if it was asked for, and the wait. *)
Definition run (linux_core : Z) (a : appl_args_t) (num_workers : Z) : MF Z :=
  failed ← (if perf_stat a then
              r ← start_performance linux_core; mret (r <=? 0)
            else mret false);
  if (failed : bool) then stop_workers parse_args_cleanup num_workers
  else
    call_ (A_thread_join num_workers);;
    when (perf_stat a) (call_ (A_thread_join 1));;
    call_ A_terminate;;
    on_heap parse_args_cleanup;;
    mret EXIT_SUCCESS.

(** [linux_core] is the default of [linux_core_id]. *)
Definition main (fuel : nat) (linux_core : Z) (opts : options) : MF Z :=
  r ← FpmDirect.nfpexpl_sigaction_set;
  if negb (r =? 0) then mret EXIT_FAILURE
  else
    p ← on_heap (parse_args fuel opts);
    setg (set_params p.2);;
    if negb (p.1 =? EXIT_SUCCESS) then mret EXIT_FAILURE
    else
      r ← initialize;
      if negb (r =? 0) then on_heap parse_args_cleanup;; mret EXIT_FAILURE
      else
        start_workers parse_args_cleanup (core_count p.2)
          (if single_pkt_API p.2 then THREAD_default_event_dispatcher
           else THREAD_default_event_dispatcher_multi)
          (cli_file p.2) (run linux_core p.2).
End Main.

End Fpm.

(** ** udpecho *)

Module UdpEcho.

Definition INVALID_SOCKET : Z := -1.
Definition UDP_LPORT : Z := 2048.
Definition NFP_SOCK_DGRAM : Z := 2.
Definition NFP_IPPROTO_UDP : Z := 17.

Record appl_args_t := ApplArgs { core_count : Z; cli_file : option positive }.

(** [sd] is [udp_echo_cfg.sd]. *)
Record echo_t := MkEcho { heap : CliArgParse.state; params : appl_args_t; sd : Z }.
Definition set_params (x : appl_args_t) (g : echo_t) : echo_t := MkEcho (heap g) x (sd g).
Definition set_sd (x : Z) (g : echo_t) : echo_t := MkEcho (heap g) (params g) x.

#[global] Program Instance echo_heap : HasHeap echo_t :=
  {| heap_of := heap; put_heap h g := MkEcho h (params g) (sd g) |}.
Next Obligation. done. Qed.
Next Obligation. by intros []. Qed.

(** [cli_file] is not freed. *)
Definition parse_args_cleanup : MC unit :=
  CliArgParse.nfpexpl_parse_interfaces_param_cleanup true.

(** One option: [res] and the new arguments; [-h] exits without a cleanup. *)
Definition parse_option (fuel : nat) (opt : Z * CliArgParse.ptr) (a : appl_args_t)
    : MC (Z * appl_args_t) :=
  let '(c, optarg) := opt in
  if c =? 99 (* c *) then
    n ← CliArgParse.atoi optarg; mret (0, ApplArgs n (cli_file a))
  else if c =? 105 (* i *) then ArgOptions.interfaces_option fuel optarg a
  else if c =? 104 (* h *) then exit EXIT_SUCCESS
  else if c =? 102 (* f *) then
    ArgOptions.copy_option optarg a (ApplArgs (core_count a))
  else mret (0, a).

Definition parse_args (fuel : nat) (opts : options) : MC (Z * appl_args_t) :=
  modify (CliArgParse.set_if_count 0);;
  modify (CliArgParse.set_if_array None);;
  r ← ArgOptions.parse_options (parse_option fuel) opts (ApplArgs 0 None);
  if r.1 =? -1 then parse_args_cleanup;; mret (EXIT_FAILURE, r.2)
  else
    n ← gets CliArgParse.if_count;
    if n =? 0 then parse_args_cleanup;; mret (EXIT_FAILURE, r.2)
    else if NFP_FP_INTERFACE_MAX <? n then parse_args_cleanup;; mret (EXIT_FAILURE, r.2)
    else mret (EXIT_SUCCESS, r.2).

Section Server.
Context {W F : Type} `{!App W F}.
Local Abbreviation ME := (M (app W F echo_t)).

(** The [struct nfp_sockaddr_in] that [nfp_udp_packet_parse] has filled; a
    shorter one leaves fields that were never set. *)
Definition sender (r : areply F) : ME sin :=
  match r_data r with
  | len :: family :: p0 :: p1 :: a0 :: a1 :: a2 :: a3 :: _ =>
      mret (Sin len family (p0 + 256 * p1) (a0 + 256 * (a1 + 256 * (a2 + 256 * a3)))
              sizeof_sockaddr_in)
  | _ => stuck
  end.

(** The callback; the result is what [*ss] holds afterwards. *)
Definition notify (ss : Httpd2.sock_sigval) : ME Httpd2.sock_sigval :=
  let s := Httpd2.ss_sockfd ss in
  let pkt := Httpd2.ss_pkt ss in
  if negb (Httpd2.ss_event ss =? Httpd2.NFP_EVENT_RECV) then mret ss
  else
    p ← call (A_udp_packet_parse pkt);
    call_ (A_packet_push_head pkt 5);;
    call_ (A_packet_write pkt (text "ECHO:"));;
    addr ← sender p;
    call_ (A_udp_packet_sendto s pkt (Some addr));;
    mret (Httpd2.SockSigval (Httpd2.ss_event ss) (Httpd2.ss_sockfd ss) (Httpd2.ss_sockfd2 ss)
            Httpd2.ODP_PACKET_INVALID).

(** [nfp_close(udp_echo_cfg.sd); return -1;] *)
Definition close_and_fail : ME Z :=
  fd ← getg sd; call_ (A_close fd);; mret (-1).

Definition udpecho_config : ME Z :=
  setg (set_sd INVALID_SOCKET);;
  call_ (A_sleep 1);;
  fd ← callv (A_socket NFP_AF_INET NFP_SOCK_DGRAM NFP_IPPROTO_UDP);
  setg (set_sd fd);;
  if fd <? 0 then mret (-1)
  else
    ifnet ← callv (A_ifport_ifnet_get 0 NFP_IFPORT_NET_SUBPORT_ITF);
    if ifnet =? NFP_IFNET_INVALID then close_and_fail
    else
      ip ← call (A_ifnet_ipv4_addr_get ifnet NFP_IFNET_IP_TYPE_IP_ADDR);
      if negb (r_val ip =? 0) then close_and_fail
      else
        b ← callv (A_bind fd (Sin sizeof_sockaddr_in NFP_AF_INET (odp_cpu_to_be_16 UDP_LPORT)
                                (r_out ip) sizeof_sockaddr));
        if b <? 0 then close_and_fail
        else
          e ← callv (A_socket_sigevent fd);
          if negb (e =? 0) then close_and_fail else mret 0.

Definition udpecho_cleanup : ME Z :=
  fd ← getg sd;
  when (negb (fd =? INVALID_SOCKET)) (call_ (A_close fd);; setg (set_sd INVALID_SOCKET));;
  mret 0.
End Server.

Section Main.
Context {W F : Type} `{!App W F}.
Local Abbreviation ME := (M (app W F echo_t)).

Definition configure_interface_addresses : ME Z := DefaultApp.configure_interface_addresses.

(** The end of [main]. *)
Definition run (num_workers : Z) : ME Z :=
  r ← udpecho_config;
  when (negb (r =? 0)) (call_ A_stop_processing);;
  call_ (A_thread_join num_workers);;
  _ ← udpecho_cleanup;
  call_ A_terminate;;
  on_heap parse_args_cleanup;;
  mret 0.

Definition main (fuel : nat) (opts : options) : ME Z :=
  _ ← nfpexpl_resources_set;
  r ← FpmDirect.nfpexpl_sigaction_set;
  if negb (r =? 0) then mret EXIT_FAILURE
  else
    p ← on_heap (parse_args fuel opts);
    setg (set_params p.2);;
    if negb (p.1 =? EXIT_SUCCESS) then mret EXIT_FAILURE
    else
      r ← initialize;
      if negb (r =? 0) then on_heap parse_args_cleanup;; exit EXIT_FAILURE
      else
        start_workers parse_args_cleanup (core_count p.2) THREAD_default_event_dispatcher
          (cli_file p.2) run.
End Main.

End UdpEcho.

(** ** webserver *)

Module Webserver.

Definition DEFAULT_BIND_PORT : Z := 2048.
Definition DEFAULT_ROOT_DIRECTORY : bytes := text "/var/www".

Record appl_args_t := ApplArgs {
  core_count : Z;
  cli_file : option positive;
  root_dir : option positive;
  lport : Z;
  use_epoll : bool;
}.

(** [thread_arg] is [webserver_pthread_arg]: [root_dir], [lport] and
    [use_epoll]. *)
Record web_t := MkWeb {
  heap : CliArgParse.state;
  params : appl_args_t;
  thread_arg : option positive * Z * bool;
}.
Definition set_params (x : appl_args_t) (g : web_t) : web_t := MkWeb (heap g) x (thread_arg g).
Definition set_thread_arg (x : option positive * Z * bool) (g : web_t) : web_t :=
  MkWeb (heap g) (params g) x.

#[global] Program Instance web_heap : HasHeap web_t :=
  {| heap_of := heap; put_heap h g := MkWeb h (params g) (thread_arg g) |}.
Next Obligation. done. Qed.
Next Obligation. by intros []. Qed.

(** [free] of NULL does nothing, which are the tests of the code.  The pointers
    are set to NULL by the code; [a] is not used afterwards. *)
Definition parse_args_cleanup (a : appl_args_t) : MC unit :=
  CliArgParse.nfpexpl_parse_interfaces_param_cleanup true;;
  CliArgParse.free (root_dir a);;
  CliArgParse.free (cli_file a).

Definition parse_option (fuel : nat) (opt : Z * CliArgParse.ptr) (a : appl_args_t)
    : MC (Z * appl_args_t) :=
  let '(c, optarg) := opt in
  if c =? 99 (* c *) then
    n ← CliArgParse.atoi optarg;
    mret (0, ApplArgs n (cli_file a) (root_dir a) (lport a) (use_epoll a))
  else if c =? 105 (* i *) then ArgOptions.interfaces_option fuel optarg a
  else if c =? 104 (* h *) then parse_args_cleanup a;; exit EXIT_SUCCESS
  else if c =? 102 (* f *) then
    ArgOptions.copy_option optarg a
      (λ p, ApplArgs (core_count a) p (root_dir a) (lport a) (use_epoll a))
  else if c =? 114 (* r *) then
    len ← CliArgParse.strlen optarg;
    if len =? 0 then mret (-1, a)
    else
      p ← CliArgParse.strdup optarg;
      mret (0, ApplArgs (core_count a) (cli_file a) p (lport a) (use_epoll a))
  else if c =? 101 (* e *) then
    mret (0, ApplArgs (core_count a) (cli_file a) (root_dir a) (lport a) true)
  else if c =? 112 (* p *) then
    len ← CliArgParse.strlen optarg;
    if len =? 0 then mret (-1, a)
    else
      n ← CliArgParse.atoi optarg;
      mret (0, ApplArgs (core_count a) (cli_file a) (root_dir a) (u16 n) (use_epoll a))
  else mret (0, a).

(** The defaults for what was not given. *)
Definition set_defaults (a : appl_args_t) : MC appl_args_t :=
  root ← (match root_dir a with
          | Some p => mret (Some p)
          | None => CliArgParse.alloc (CliArgParse.BStr (DEFAULT_ROOT_DIRECTORY ++ [0]))
          end);
  mret (ApplArgs (core_count a) (cli_file a) root
          (if lport a =? 0 then DEFAULT_BIND_PORT else lport a) (use_epoll a)).

Definition parse_args (fuel : nat) (opts : options) : MC (Z * appl_args_t) :=
  modify (CliArgParse.set_if_count 0);;
  modify (CliArgParse.set_if_array None);;
  r ← ArgOptions.parse_options (parse_option fuel) opts (ApplArgs 0 None None 0 false);
  if r.1 =? -1 then parse_args_cleanup r.2;; mret (EXIT_FAILURE, r.2)
  else
    n ← gets CliArgParse.if_count;
    if n =? 0 then parse_args_cleanup r.2;; mret (EXIT_FAILURE, r.2)
    else if NFP_FP_INTERFACE_MAX <? n then parse_args_cleanup r.2;; mret (EXIT_FAILURE, r.2)
    else a ← set_defaults r.2; mret (EXIT_SUCCESS, a).

Section Main.
Context {W F : Type} `{!App W F}.
Local Abbreviation MW := (M (app W F web_t)).

Definition configure_interface_addresses : MW Z := DefaultApp.configure_interface_addresses.

(** The end of [main]: the web server's thread and the wait. *)
Definition run (linux_core : Z) (a : appl_args_t) (num_workers : Z) : MW Z :=
  setg (set_thread_arg (root_dir a, lport a, use_epoll a));;
  r ← Httpd.nfp_start_webserver_thread linux_core;
  if negb (r =? 1) then stop_workers (parse_args_cleanup a) num_workers
  else
    call_ (A_thread_join num_workers);;
    call_ (A_thread_join 1);;
    call_ A_terminate;;
    on_heap (parse_args_cleanup a);;
    mret 0.

(** [linux_core] is the default of [linux_core_id]. *)
Definition main (fuel : nat) (linux_core : Z) (opts : options) : MW Z :=
  _ ← nfpexpl_resources_set;
  r ← FpmDirect.nfpexpl_sigaction_set;
  if negb (r =? 0) then mret EXIT_FAILURE
  else
    p ← on_heap (parse_args fuel opts);
    setg (set_params p.2);;
    if negb (p.1 =? EXIT_SUCCESS) then mret EXIT_FAILURE
    else
      r ← initialize;
      if negb (r =? 0) then on_heap (parse_args_cleanup p.2);; mret EXIT_FAILURE
      else
        start_workers (parse_args_cleanup p.2) (core_count p.2) THREAD_default_event_dispatcher
          (cli_file p.2) (run linux_core p.2).
End Main.

End Webserver.

End DefaultApp.
