(* ===== verification/DefaultAppProofs.v ===== *)
(** * Programs with the default dispatcher: the common part

    What [init_names] and [configure_interface_addresses] do with the parsed
    interface list, and that [start_workers] gives back what it took on every
    path. *)

From S2P Require Import Prelude App AppProofs AppHeap Resources CliArgParse CliArgParseProofs ArgHeap ArgOptions FpmDirect FpmDirectStart DefaultApp.
Import App AppProofs AppHeap Resources ArgHeap ArgOptions DefaultApp.
Import CliArgParseProofs(item).

Module DefaultAppProofs.

(** A string as C reads it: up to the first 0. *)
Definition c_text (t : bytes) : bytes := default [] (CliArgParse.cstring (t ++ [0])).

Lemma c_text_same t : (0 ∉ t) → c_text t = t.
Proof.
  unfold c_text. induction t as [|x t IH]; [done|]. intros [Hx Ht]%not_elem_of_cons. simpl.
  rewrite (proj2 (Z.eqb_neq x 0)) by done. specialize (IH Ht).
  destruct (CliArgParse.cstring (t ++ [0])) as [u|] eqn:E; simpl in *; [by rewrite IH|].
  destruct (cstring_total t) as [u Hu]. congruence.
Qed.

Definition c_item (it : item) : item := (c_text it.1, prod_map c_text id <$> it.2).

Lemma read_text h p t :
  CliArgParse.blocks h !! p = Some (CliArgParse.BStr (t ++ [0])) →
  CliArgParse.read_string (p, 0%nat) h = (Ret (c_text t), h).
Proof.
  intros Hp. destruct (cstring_total t) as [u Hu]. unfold c_text. rewrite Hu. simpl.
  unfold CliArgParse.read_string, CliArgParse.chars. rewrite bind_assoc, bind_gets. simpl. rewrite Hp.
  destruct (decide _) as [|Hn]; [by rewrite bind_ret, drop_0, Hu|]. rewrite length_app in Hn. simpl in Hn. lia.
Qed.

Section Common.
Context {W F G : Type} `{!App W F, !SocketLaws W F, !HasHeap G}.
Local Abbreviation st := (app W F G).
Implicit Types (s : st).
Local Abbreviation neutral := (Resources.neutral (λ g : G, g)).

(** Reading memory changes nothing. *)
Lemma on_heap_run {A} (c : M CliArgParse.state A) a (Q : A → st → Prop) s :
  c (heap_of (glob s)) = (Ret a, heap_of (glob s)) → Q a s → wp (on_heap c) Q s.
Proof.
  intros Hc HQ. apply wp_on_heap. exists a. eexists. split; [exact Hc|]. rewrite put_same. by destruct s.
Qed.

Lemma arg_text p t (Q : option bytes → st → Prop) s :
  CliArgParse.blocks (heap_of (glob s)) !! p = Some (CliArgParse.BStr (t ++ [0])) →
  Q (Some (c_text t)) s → wp (arg_string (Some p)) Q s.
Proof. intros Hp HQ. apply wp_bind. eapply on_heap_run; [by apply read_text|]. by apply wp_ret. Qed.

Lemma item_name items i it (Q : bytes → st → Prop) s :
  lists (heap_of (glob s)) items → items !! Z.to_nat i = Some it → Q (c_text it.1) s →
  wp (FpmDirect.interface_name i) Q s.
Proof.
  intros Hl Hit HQ. destruct (lists_entry _ _ _ _ Hl Hit) as (e & He & (p & Hp & Hb) & _).
  apply wp_bind. eapply on_heap_run; [exact He|]. apply wp_bind. rewrite Hp. eapply arg_text; [exact Hb|].
  by eapply wp_of_option.
Qed.

(** ** Interfaces given to the stack *)

Lemma init_names_ok items s :
  lists (heap_of (glob s)) items →
  wp init_names (λ names s', s' = s ∧
    names = (λ it : item, take 31 (c_text it.1)) <$> take (Z.to_nat NFP_FP_INTERFACE_MAX) items) s.
Proof.
  intros Hl. apply wp_bind, wp_getg. pose proof (lists_count _ _ Hl) as Hn. cbn beta. rewrite Hn.
  eapply wp_mono; [|apply (wp_for_acc _ (λ i names s', s' = s ∧
    names = (λ it : item, take 31 (c_text it.1)) <$> take (Z.to_nat i) items))]; [|done|].
  - intros names s' [-> ->]. split; [done|]. f_equal. rewrite Z.add_0_l, Nat2Z.id.
    destruct (decide (Z.of_nat (length items) ≤ NFP_FP_INTERFACE_MAX)).
    + rewrite Z.min_l by done. rewrite !take_ge; [done|lia|lia].
    + by rewrite Z.min_r by lia.
  - intros i names s' Hi [-> ->].
    destruct (lookup_lt_is_Some_2 items (Z.to_nat i)) as [it Hit]; [lia|].
    apply wp_bind. eapply item_name; [done..|]. apply wp_ret. split; [done|].
    replace (Z.to_nat (i + 1)) with (S (Z.to_nat i)) by lia.
    by rewrite (take_S_r _ _ _ Hit), fmap_app.
Qed.

(** ** Addresses *)

(** The calls that set the addresses of the interfaces, all successful. *)
Inductive configured : list item → list (event F) → Prop :=
| configured_nil : configured [] []
| configured_plain name items t : configured items t → configured ((name, None) :: items) t
| configured_address name ad n r1 r2 r3 r4 items t :
    r_val r1 ≠ NFP_IFNET_INVALID → r_val r2 = 0 → r_val r3 ≠ 0 → r_val r4 = 0 →
    configured items t →
    configured ((name, Some (ad, n)) :: items)
      ((A_ifnet_get_by_name name, r1) :: (A_ifnet_port_get (r_val r1), r2) ::
       (A_parse_ip_addr ad, r3) ::
       (A_ifport_net_ipv4_up (r_out r2) (r_out2 r2) (r_out r3) n, r4) :: t).

(** The calls for an interface that could not be set up. *)
Inductive refused : item → list (event F) → Prop :=
| refused_name name ad n r1 :
    r_val r1 = NFP_IFNET_INVALID → refused (name, Some (ad, n)) [(A_ifnet_get_by_name name, r1)]
| refused_port name ad n r1 r2 :
    r_val r2 ≠ 0 →
    refused (name, Some (ad, n)) [(A_ifnet_get_by_name name, r1); (A_ifnet_port_get (r_val r1), r2)]
| refused_address name ad n r1 r2 r3 :
    r_val r3 = 0 →
    refused (name, Some (ad, n))
      [(A_ifnet_get_by_name name, r1); (A_ifnet_port_get (r_val r1), r2); (A_parse_ip_addr ad, r3)]
| refused_up name ad n r1 r2 r3 r4 :
    r_val r4 ≠ 0 →
    refused (name, Some (ad, n))
      [(A_ifnet_get_by_name name, r1); (A_ifnet_port_get (r_val r1), r2); (A_parse_ip_addr ad, r3);
       (A_ifport_net_ipv4_up (r_out r2) (r_out2 r2) (r_out r3) n, r4)].

Lemma configured_app l1 t1 l2 t2 :
  configured l1 t1 → configured l2 t2 → configured (l1 ++ l2) (t1 ++ t2).
Proof. induction 1; intros; simpl; [done|constructor; auto..]. Qed.

(** [s'] is [s] after the calls [t]. *)
Definition called s t s' : Prop :=
  trace s' = trace s ++ t ∧ glob s' = glob s.

Lemma called_refl s : called s [] s.
Proof. split; [by rewrite app_nil_r|done]. Qed.
Lemma called_after s t s' c r w : called s t s' → called s (t ++ [(c, r)]) (after s' c r w).
Proof. intros [Ht Hg]. split; [simpl; by rewrite Ht, app_assoc|done]. Qed.
Lemma called_trans s t s' t' s'' : called s t s' → called s' t' s'' → called s (t ++ t') s''.
Proof. intros [Ht Hg] [Ht' Hg']. split; [by rewrite Ht', Ht, app_assoc|congruence]. Qed.

Lemma configure_address_ok items i it s :
  lists (heap_of (glob s)) items → items !! Z.to_nat i = Some it →
  wp (configure_address i ()) (λ r s', ∃ t, called s t s' ∧
    match r with
    | inl _ => configured [c_item it] t
    | inr rc => rc = -1 ∧ refused (c_item it) t
    end) s.
Proof.
  intros Hl Hit. destruct (lists_entry _ _ _ _ Hl Hit) as (e & He & (p & Hp & Hb) & Ha).
  apply wp_bind. eapply on_heap_run; [exact He|]. apply wp_bind. rewrite Hp. eapply arg_text; [exact Hb|].
  destruct it as [name [[ad n]|]]; cbn [fst snd] in *.
  2: { destruct Ha as [-> _]. apply wp_bind, wp_ret, wp_ret. exists []. split; [apply called_refl|].
       repeat constructor. }
  destruct Ha as (Hn & q & Hq & Hbq). rewrite Hq, Hn. apply wp_bind. eapply arg_text; [exact Hbq|].
  apply wp_bind, wp_callv. intros r1 w1 E1. pose proof (called_after _ _ _ (A_ifnet_get_by_name (c_text name)) r1 w1 (called_refl s)) as H1.
  destruct (Z.eqb_spec (r_val r1) NFP_IFNET_INVALID).
  { apply wp_ret. eexists. split; [exact H1|]. split; [done|]. by constructor. }
  apply wp_bind, wp_call. intros r2 w2 E2. pose proof (called_after _ _ _ (A_ifnet_port_get (r_val r1)) r2 w2 H1) as H2.
  destruct (Z.eqb_spec (r_val r2) 0); cbn [negb].
  2: { apply wp_ret. eexists. split; [exact H2|]. split; [done|]. by constructor. }
  apply wp_bind, wp_call. intros r3 w3 E3. pose proof (called_after _ _ _ (A_parse_ip_addr (c_text ad)) r3 w3 H2) as H3.
  destruct (Z.eqb_spec (r_val r3) 0).
  { apply wp_ret. eexists. split; [exact H3|]. split; [done|]. by constructor. }
  apply wp_bind, wp_callv. intros r4 w4 E4.
  pose proof (called_after _ _ _ (A_ifport_net_ipv4_up (r_out r2) (r_out2 r2) (r_out r3) n) r4 w4 H3) as H4.
  destruct (Z.eqb_spec (r_val r4) 0); cbn [negb]; apply wp_ret; (eexists; split; [exact H4|]).
  - repeat constructor; done.
  - split; [done|]. by constructor.
Qed.

Lemma configure_ok items s :
  lists (heap_of (glob s)) items →
  wp configure_interface_addresses (λ rc s', ∃ t, called s t s' ∧
    let l := c_item <$> take (Z.to_nat NFP_FP_INTERFACE_MAX) items in
    (rc = 0 ∧ configured l t ∨
     rc = -1 ∧ ∃ l1 it l2 t1 t2, l = l1 ++ it :: l2 ∧ t = t1 ++ t2 ∧ configured l1 t1 ∧ refused it t2)) s.
Proof.
  intros Hl. apply wp_bind, wp_getg. pose proof (lists_count _ _ Hl) as Hn. cbn beta. rewrite Hn.
  set (m := Z.min _ _).
  assert (Htake : take (Z.to_nat NFP_FP_INTERFACE_MAX) items = take (Z.to_nat m) items).
  { unfold m. destruct (decide (Z.of_nat (length items) ≤ NFP_FP_INTERFACE_MAX)).
    - rewrite Z.min_l by done. rewrite !take_ge; [done|lia|lia].
    - by rewrite Z.min_r by lia. }
  apply wp_bind. eapply wp_mono; [|apply (wp_for_ret _ (λ i _ s', ∃ t, called s t s' ∧
    configured (c_item <$> take (Z.to_nat i) items) t)
    (λ rc s', rc = -1 ∧ ∃ i it t1 t2, called s (t1 ++ t2) s' ∧ (i < Z.to_nat m)%nat ∧ items !! i = Some it ∧
       configured (c_item <$> take i items) t1 ∧ refused (c_item it) t2))].
  - intros [[]|rc] s'.
    + intros (t & Hc & Ht). apply wp_ret. exists t. split; [done|]. left. split; [done|].
      rewrite Z.add_0_l, Nat2Z.id in Ht. cbn zeta. by rewrite Htake.
    + intros (-> & i & it & t1 & t2 & Hc & Hi & Hit & H1 & H2). apply wp_ret. exists (t1 ++ t2). split; [done|].
      right. split; [done|]. exists (c_item <$> take i items), (c_item it). eexists _, t1, t2. split_and!; [|done..].
      cbn zeta. rewrite Htake, <- (take_drop i (take (Z.to_nat m) items)), fmap_app, take_take, Nat.min_l by lia.
      f_equal. rewrite (drop_S _ it) by (rewrite lookup_take_lt; [done|lia]). done.
  - exists []. split; [apply called_refl|]. constructor.
  - intros i [] s1 Hi (t & Hc & Ht). destruct (lookup_lt_is_Some_2 items (Z.to_nat i)) as [it Hit]; [lia|].
    eapply wp_mono; [|eapply (configure_address_ok items i it); [|done]]; [|by rewrite (proj2 Hc)].
    intros [[]|rc] s2 (t' & Hc' & H2).
    + exists (t ++ t'). split; [by eapply called_trans|]. replace (Z.to_nat (i + 1)) with (S (Z.to_nat i)) by lia.
      rewrite (take_S_r _ _ _ Hit), fmap_app. by apply configured_app.
    + destruct H2 as [-> H2]. split; [done|]. exists (Z.to_nat i), it, t, t'. split_and!; [by eapply called_trans|lia|done..].
Qed.

(** ** The stack and the workers *)

(** Steps that touch neither the resources, nor the globals, nor a
    descriptor. *)
Definition calm s s' : Prop := Resources.neutral (λ g : G, g) s s' ∧ idle s s'.

#[global] Instance calm_preorder : PreOrder calm.
Proof. split; [by intros s|]. intros s1 s2 s3 [? ?] [? ?]. split; by etrans. Qed.

Lemma calm_keeps {A} (c : M st A) :
  keeps (Resources.neutral (λ g : G, g)) c → keeps idle c → keeps calm c.
Proof. intros Hn Hi s a s' H. split; [by eapply Hn|by eapply Hi]. Qed.

Lemma wp_calm_step {A B} (c : M st A) (f : A → M st B) (R : A → Prop) Q s :
  keeps calm c → wp c (λ a _, R a) s → (∀ a s', R a → calm s s' → wp (f a) Q s') → wp (c ≫= f) Q s.
Proof.
  intros Hk Hw Hf. apply wp_bind. eapply wp_mono; [|by apply wp_keeps; [exact Hk|exact Hw]].
  intros a s' [? ?]. by apply Hf.
Qed.

Lemma calm_of_call_ c : neutral_call c = true → idle_call c = true → keeps calm (call_ c : M st unit).
Proof. intros. apply calm_keeps; [by apply neutral_call_|by apply idle_call_]. Qed.
Lemma calm_of_callv c : neutral_call c = true → idle_call c = true → keeps calm (callv c : M st Z).
Proof. intros. apply calm_keeps; [by apply neutral_callv|by apply idle_callv]. Qed.
Lemma calm_of_call c : neutral_call c = true → idle_call c = true → keeps calm (call c : M st _).
Proof. intros. apply calm_keeps; [by apply neutral_call_keeps|by apply idle_call_keeps]. Qed.
Lemma calm_arg p : keeps calm (arg_string p : M st _).
Proof. apply calm_keeps; [apply neutral_arg_string|apply idle_arg_string]. Qed.

Lemma calm_configure : keeps calm (configure_interface_addresses : M st Z).
Proof.
  apply calm_keeps; unfold configure_interface_addresses, configure_address, FpmDirect.if_count; frame.
Qed.
Lemma calm_resources : keeps calm (nfpexpl_resources_set : M st Z).
Proof. apply calm_keeps; unfold nfpexpl_resources_set; frame. Qed.
Lemma calm_signals : keeps calm (FpmDirect.nfpexpl_sigaction_set : M st Z).
Proof. apply calm_keeps; unfold FpmDirect.nfpexpl_sigaction_set, FpmDirect.linux_sigaction; frame. Qed.

Lemma resources_run s : wp (nfpexpl_resources_set : M st Z) (λ _ _, True) s.
Proof. unfold nfpexpl_resources_set. runs. Qed.
Lemma signals_run s : wp (FpmDirect.nfpexpl_sigaction_set : M st Z) (λ _ _, True) s.
Proof. unfold FpmDirect.nfpexpl_sigaction_set, FpmDirect.linux_sigaction. runs. Qed.

(** Since [s0] no resource is held and no descriptor was touched. *)
Definition free s0 s : Prop := moves s0 [] s [] ∧ idle s0 s.

Lemma free_refl s : free s s.
Proof. split; [apply moves_refl|done]. Qed.
Lemma free_calm s0 s s' : free s0 s → calm s s' → free s0 s'.
Proof. intros [Hm Hi] [(_ & _ & Hm') Hi']. split; [by eapply moves_trans|by etrans]. Qed.
Lemma free_same s0 s s' : free s0 s → trace s' = trace s → world s' = world s → free s0 s'.
Proof.
  intros [(t & Ht & Hh) Hi] Ht' Hw. split; [exists t; by rewrite Ht'|]. etrans; [exact Hi|by apply idle_same].
Qed.

(** Memory is [h], and [cleanup] makes it one that satisfies [R]. *)
Context (cleanup : M CliArgParse.state unit) (h : CliArgParse.state) (R : CliArgParse.state → Prop).
Context (cleanup_ok : wp cleanup (λ _ h', R h') h).

(** The stack has been started since [s0], then at most [n] threads. *)
Definition at_work (n : nat) s0 s : Prop := heap_of (glob s) = h ∧ with_threads n s0 s ∧ idle s0 s.

(** All has been given back. *)
Definition finished s0 s : Prop := R (heap_of (glob s)) ∧ free s0 s.

Definition failed s0 (rc : Z) s : Prop := rc = EXIT_FAILURE ∧ finished s0 s.

Lemma at_work_calm n s0 s s' : at_work n s0 s → calm s s' → at_work n s0 s'.
Proof.
  intros (Hh & Ht & Hi) [Hn Hi']. split_and!; [by destruct Hn as (_ & -> & _)|by eapply threads_neutral|by etrans].
Qed.

Lemma at_work_join n s0 s m r w :
  at_work n s0 s → api (A_thread_join m) (world s) = (r, w) →
  at_work (n - Z.to_nat m) s0 (after s (A_thread_join m) r w).
Proof.
  intros (Hh & Ht & Hi) E. split_and!; [done|by apply threads_join|]. etrans; [exact Hi|by apply idle_after].
Qed.

Lemma join_ok {B} n m s0 s (k : M st B) Q :
  at_work n s0 s → (∀ s', at_work (n - Z.to_nat m) s0 s' → wp k Q s') →
  wp (call_ (A_thread_join m);; k) Q s.
Proof. intros Hw Hk. apply wp_bind, wp_call_. intros r w E. by apply Hk, at_work_join. Qed.

Lemma default_create_ok {B} n f i s0 s (k : Z → M st B) Q :
  at_work n s0 s →
  (∀ rc s', at_work (if rc =? 1 then S n else n) s0 s' → wp (k rc) Q s') →
  wp (rc ← callv (A_thread_create f i); k rc) Q s.
Proof.
  intros (Hh & Ht & Hi) Hk. apply wp_bind, wp_callv. intros r w E. apply Hk. split_and!; [done| |].
  - destruct (Z.eqb_spec (r_val r) 1); [by apply threads_create|by apply threads_failed].
  - etrans; [exact Hi|by apply idle_after].
Qed.

Lemma clean_ok s :
  heap_of (glob s) = h →
  wp (on_heap cleanup) (λ _ s', trace s' = trace s ∧ world s' = world s ∧ R (heap_of (glob s'))) s.
Proof using cleanup_ok.
  intros Hh. apply wp_on_heap. rewrite Hh. eapply wp_mono; [|exact cleanup_ok]. intros [] h' HR. simpl.
  by rewrite heap_put.
Qed.

Lemma default_terminate_ok s0 s : at_work 0 s0 s → wp (terminate cleanup) (λ _ s', finished s0 s') s.
Proof using SocketLaws0 cleanup_ok.
  intros (Hh & Hm%threads_none & Hi). apply wp_bind, wp_call_. intros r w E. eapply wp_mono; [|by apply clean_ok].
  intros [] s' (Ht & Hw & HR). split; [done|]. eapply free_same; [|exact Ht|exact Hw]. split.
  - eapply moves_trans; [exact Hm|]. exists [(A_terminate, r)]. done.
  - etrans; [exact Hi|by apply idle_after].
Qed.

Lemma default_give_up_ok s0 s : at_work 0 s0 s → wp (terminate cleanup;; mret EXIT_FAILURE) (failed s0) s.
Proof using SocketLaws0 cleanup_ok.
  intros Hw. apply wp_bind. eapply wp_mono; [|by apply default_terminate_ok]. intros [] s' Hf. by apply wp_ret.
Qed.

Lemma default_stop_ok n m s0 s :
  at_work n s0 s → (n ≤ Z.to_nat m)%nat → wp (stop_workers cleanup m) (failed s0) s.
Proof using SocketLaws0 cleanup_ok.
  intros Hw Hle. eapply wp_calm_step; [by apply calm_of_call_|apply any_call_|]. intros [] s1 _ Hn1.
  eapply join_ok; [by eapply at_work_calm|]. intros s2.
  replace (n - Z.to_nat m)%nat with 0%nat by lia. apply default_give_up_ok.
Qed.

(** Whatever fails, what was started has been given back; otherwise the rest
    runs with the workers that were started. *)
Lemma start_workers_ok items cores func file (rest : Z → M st Z) (Q : Z → st → Prop) s0 s :
  at_work 0 s0 s → lists h items → readable h file →
  (∀ n s', at_work (Z.to_nat n) s0 s' → wp (rest n) Q s') →
  (∀ s', finished s0 s' → Q EXIT_FAILURE s') →
  wp (start_workers cleanup cores func file rest) Q s.
Proof using SocketLaws0 cleanup_ok.
  intros Hw Hl Hr Hrest HQ.
  assert (Hfail : ∀ c s', wp c (failed s0) s' → wp c Q s').
  { intros c s' Hc. eapply wp_mono; [|exact Hc]. intros rc s2 [-> Hf]. by apply HQ. }
  eapply wp_calm_step; [by apply calm_of_call|apply any_call|]. intros mask s1 _ Hn1.
  pose proof (at_work_calm _ _ _ _ Hw Hn1) as Hw1.
  destruct (negb _); [by apply Hfail, default_give_up_ok|]. cbn zeta. set (num := r_out mask).
  apply wp_bind, wp_callv. intros r w E. set (s2 := after s1 _ r w).
  assert (Hw2 : at_work (Z.to_nat (r_val r)) s0 s2).
  { destruct Hw1 as (Hh1 & Ht1 & Hi1). split_and!; [done|by apply (threads_create_many 0)|].
    etrans; [exact Hi1|by apply idle_after]. }
  destruct (Z.eqb_spec (r_val r) num) as [Hnum|Hnum]; cbn [negb].
  2: { apply Hfail. eapply wp_calm_step; [by apply calm_of_call_|apply any_call_|]. intros [] s3 _ Hn3.
       pose proof (at_work_calm _ _ _ _ Hw2 Hn3) as Hw3.
       destruct (Z.eqb_spec (r_val r) (-1)) as [Hr1|]; cbn [negb when].
       - apply wp_bind, wp_ret, default_give_up_ok. by rewrite Hr1 in Hw3.
       - eapply join_ok; [exact Hw3|]. intros s4. rewrite Nat.sub_diag. apply default_give_up_ok. }
  rewrite Hnum in Hw2.
  eapply (wp_calm_step _ _ (λ _, True)); [apply calm_configure| |].
  { eapply wp_mono; [|apply (configure_ok items)]; [done|]. by rewrite (proj1 Hw2). }
  intros rc s3 _ Hn3. pose proof (at_work_calm _ _ _ _ Hw2 Hn3) as Hw3.
  destruct (negb _); [by apply Hfail; eapply default_stop_ok|].
  eapply wp_calm_step; [apply calm_arg|apply arg_string_ok; by rewrite (proj1 Hw3)|]. intros f s4 _ Hn4.
  eapply wp_calm_step; [by apply calm_of_callv|apply any_callv|]. intros rc2 s5 _ Hn5.
  pose proof (at_work_calm _ _ _ _ (at_work_calm _ _ _ _ Hw3 Hn4) Hn5) as Hw5.
  destruct (negb _); [by apply Hfail; eapply default_stop_ok|]. by apply Hrest.
Qed.

(** The stack is started, or not. *)
Lemma initialize_ok items s0 s :
  heap_of (glob s) = h → free s0 s → lists h items →
  wp initialize (λ rc s', if rc =? 0 then at_work 0 s0 s' else heap_of (glob s') = h ∧ free s0 s') s.
Proof.
  intros Hh [Hm Hi] Hl. apply wp_bind, wp_getg. apply wp_bind. eapply wp_mono; [|apply (init_names_ok items); by rewrite Hh].
  intros names s' [-> _]. apply wp_callv. intros r w E. set (s1 := after s _ r w).
  assert (Hi1 : idle s0 s1) by (etrans; [exact Hi|by apply idle_after]).
  destruct (r_val r =? 0) eqn:Hr.
  - split_and!; [done| |done]. apply threads_none. eapply moves_trans; [exact Hm|]. apply moves_after.
    unfold hold. cbn [fst snd]. by rewrite Hr.
  - split; [done|]. split; [|done]. eapply moves_trans; [exact Hm|]. apply moves_after.
    unfold hold. cbn [fst snd]. by rewrite Hr.
Qed.

(** The last steps of [main], when all threads have been joined. *)
Lemma default_finish_ok n s0 s :
  at_work n s0 s → n = 0%nat → wp (call_ A_terminate;; on_heap cleanup;; mret EXIT_SUCCESS)
    (λ rc s', rc = EXIT_SUCCESS ∧ finished s0 s') s.
Proof using SocketLaws0 cleanup_ok.
  intros Hw ->. apply wp_assoc, wp_bind. eapply wp_mono; [|by apply default_terminate_ok]. intros [] s' Hf. by apply wp_ret.
Qed.

(** [parse_args_cleanup(&params);] before the stack is started. *)
Lemma clean_free_ok s0 s : heap_of (glob s) = h → free s0 s → wp (on_heap cleanup) (λ _ s', finished s0 s') s.
Proof using SocketLaws0 cleanup_ok.
  intros Hh Hf. eapply wp_mono; [|by apply clean_ok]. intros [] s' (Ht & Hw & HR). split; [done|]. by eapply free_same.
Qed.

(** From the start of the stack on; [bad] is what is done when it fails. *)
Lemma launch_ok items cores func file (rest : Z → M st Z) (bad : M st Z) (Q : Z → st → Prop) X s0 s :
  heap_of (glob s) = h → free s0 s → lists h items → readable h file →
  (∀ s', heap_of (glob s') = h → free s0 s' → ends bad Q X s') →
  (∀ n s', at_work (Z.to_nat n) s0 s' → wp (rest n) Q s') →
  (∀ s', finished s0 s' → Q EXIT_FAILURE s') →
  ends (r ← initialize; if negb (r =? 0) then bad else start_workers cleanup cores func file rest) Q X s.
Proof using SocketLaws0 cleanup_ok.
  intros Hh Hm Hl Hr Hbad Hrest HQ. apply ends_bind, ends_wp. eapply wp_mono; [|by apply (initialize_ok items s0)].
  intros rc s1. cbn beta. destruct (rc =? 0); cbn [negb]; [|by intros [? ?]; apply Hbad].
  intros Hw. apply ends_wp. by eapply start_workers_ok.
Qed.
End Common.

End DefaultAppProofs.
