(* ===== verification/DefaultAppStart.v ===== *)
(** * Programs with the default dispatcher: start and end

    The command lines and the [main] functions of fpm, udpecho and
    webserver. *)

From S2P Require Import Prelude App AppProofs AppHeap Resources Httpd HttpdTheorems Httpd2 CliArgParse CliArgParseProofs ArgHeap ArgOptions TcpPerfProofs TcpPerfTheorems FpmDirect FpmDirectStart DefaultApp DefaultAppProofs.
Import App AppProofs AppHeap Resources HttpdTheorems ArgHeap ArgOptions TcpPerfProofs TcpPerfTheorems DefaultApp DefaultAppProofs.
Import CliArgParseProofs(item).

Module DefaultAppStart.

(** The arguments of the options in [l] can be read. *)
Definition opt_ok (l : list Z) (b0 : memory) (fuel : nat) (o : Z * CliArgParse.ptr) : Prop :=
  o.1 ∈ l → arg_ok b0 fuel o.2.

(** The record ends as [main] promises, with result [o]. *)
Definition gives_back {W F G} `{!App W F, !SocketLaws W F} (s : app W F G) (s' : app W F G) : Prop :=
  ∃ t, trace s' = trace s ++ t ∧ held [] t = Some [].

(** ** Interfaces *)

(** [C19] The stack is started with the interfaces of the command line, in
    order: their number, and the names of the first eight, cut to 31
    characters.  Addresses are set for the same interfaces: each one that was
    given an address is looked up by name, and the parsed address with its mask
    length is set on the port found; this goes on until one of the calls fails,
    and the result is 0 exactly when none does. *)
Theorem interfaces_follow_command_line {W F G : Type} `{!App W F, !SocketLaws W F, !HasHeap G} items (s : app W F G) :
  lists (heap_of (glob s)) items →
  let first := take (Z.to_nat NFP_FP_INTERFACE_MAX) items in
  (∃ r s', initialize s = (Ret (r_val r), s') ∧
     called s [(A_initialize (Z.of_nat (length items)) ((λ it : item, take 31 (c_text it.1)) <$> first), r)] s') ∧
  ∃ rc s' t, configure_interface_addresses s = (Ret rc, s') ∧ called s t s' ∧
    (rc = 0 ∧ configured (c_item <$> first) t ∨
     rc = -1 ∧ ∃ l1 it l2 t1 t2,
       c_item <$> first = l1 ++ it :: l2 ∧ t = t1 ++ t2 ∧ configured l1 t1 ∧ refused it t2).
Proof.
  intros Hl. cbn zeta. split.
  - enough (wp initialize (λ rc s', ∃ r, rc = r_val r ∧
      called s [(A_initialize (Z.of_nat (length items)) ((λ it : item, take 31 (c_text it.1)) <$>
        take (Z.to_nat NFP_FP_INTERFACE_MAX) items), r)] s') s) as (rc & s' & Hrun & r & -> & Hc) by eauto.
    apply wp_bind, wp_getg. cbn beta. rewrite (lists_count _ _ Hl). apply wp_bind.
    eapply wp_mono; [|by apply (init_names_ok items)]. intros names s' [-> ->]. apply wp_callv. intros r w E.
    exists r. split; [done|]. by split.
  - destruct (configure_ok items s Hl) as (rc & s' & Hrun & t & Hc & Ht). by exists rc, s', t.
Qed.

(** ** fpm *)

Module FpmStart.
Import Fpm.

Definition slots (a : appl_args_t) : list (Z * option positive) := [(102, cli_file a)].
Local Abbreviation parsed := (parsed slots (λ _, True)).
Local Abbreviation result := (result slots (λ _, True)).

Lemma default_option_ok b0 fuel o a h :
  parsed b0 a h → opt_ok [99; 102; 105] b0 fuel o → unset slots a h o.1 →
  wp (parse_option fuel o a) (result b0 o.1 a h) h.
Proof.
  intros Hp Hok Hun. unfold parse_option. destruct o as [c arg]. cbn [fst snd] in *.
  assert (Hsame : ∀ a' rc, slots a' = slots a → rc = 0 ∨ rc = -1 → result b0 c a h (rc, a') h).
  { intros a' rc Hs Hrc. by apply plain_option. }
  destruct (Z.eqb_spec c 99) as [->|].
  { apply wp_bind. eapply (atoi_ok b0 fuel arg); [apply Hp|apply Hok; set_solver|]. intros t Ht.
    apply wp_ret, Hsame; auto. }
  destruct (Z.eqb_spec c 105) as [->|]; [apply interfaces_option_ok; [done|apply Hok; set_solver|done]|].
  destruct (Z.eqb_spec c 104) as [->|]; [apply wp_ret, Hsame; auto|].
  destruct (Z.eqb_spec c 112) as [->|]; [apply wp_ret, Hsame; auto|].
  destruct (Z.eqb_spec c 102) as [->|].
  { eapply copy_option_ok; [done|apply Hok; set_solver|done| |done]. by exists [], (cli_file a), []. }
  destruct (Z.eqb_spec c 103) as [->|]; apply wp_ret, Hsame; auto.
Qed.

Lemma default_args_ok b0 fuel opts h :
  ready b0 h → Forall (opt_ok [99; 102; 105] b0 fuel) opts → NoDup opts.*1 →
  wp (parse_args fuel opts) (λ p h', p.1 = EXIT_SUCCESS ∧ parsed b0 p.2 h' ∧ CliArgParse.if_count h' ≠ 0 ∨
    p.1 = EXIT_FAILURE ∧ spare 1 b0 h') h.
Proof.
  intros Hr Hok Hnd. unfold parse_args. apply wp_ends.
  eapply (read_options_ok slots (λ _, True) b0 (parse_option fuel) (opt_ok [99; 102; 105] b0 fuel));
    [|done|by repeat constructor|done..|].
  { intros. by apply ends_wp, default_option_ok. }
  intros [rc a] h' _ Hp. cbn [fst snd] in *. apply ends_wp.
  assert (Hfail : wp (parse_args_cleanup;; mret (EXIT_FAILURE, a)) (λ p h',
    p.1 = EXIT_SUCCESS ∧ parsed b0 p.2 h' ∧ CliArgParse.if_count h' ≠ 0 ∨
    p.1 = EXIT_FAILURE ∧ spare 1 b0 h') h').
  { apply wp_bind. eapply wp_mono; [|by eapply cleanup_kept, (options_kept _ _ _ a)].
    intros [] h2 Hc. apply wp_ret. by right. }
  destruct (rc =? -1); [done|]. apply wp_bind, wp_gets.
  destruct (Z.eqb_spec (CliArgParse.if_count h') 0); [done|]. apply wp_ret. by left.
Qed.

Section Main.
Context {W F : Type} `{!App W F, !SocketLaws W F}.
Local Abbreviation st := (app W F fpm_t).
Implicit Types (s : st).

Lemma default_run_ok h (R : CliArgParse.state → Prop) linux_core a num s0 s :
  wp parse_args_cleanup (λ _ h', R h') h → at_work h (Z.to_nat num) s0 s →
  wp (run linux_core a num) (λ rc s', (rc = EXIT_SUCCESS ∨ rc = EXIT_FAILURE) ∧ finished R s0 s') s.
Proof.
  intros Hc Hw.
  assert (Hend : ∀ n s', at_work h n s0 s' → n = 0%nat →
    wp (call_ A_terminate;; on_heap parse_args_cleanup;; mret EXIT_SUCCESS)
      (λ rc s', (rc = EXIT_SUCCESS ∨ rc = EXIT_FAILURE) ∧ finished R s0 s') s').
  { intros n s' Hw' Hn. eapply wp_mono; [|by eapply default_finish_ok]. intros rc s2 [-> ?]. auto. }
  unfold run. destruct (perf_stat a); cbn [when].
  - apply wp_bind. eapply default_create_ok; [exact Hw|]. intros rc s1 Hw1. apply wp_ret.
    destruct (Z.leb_spec rc 0).
    + rewrite (proj2 (Z.eqb_neq rc 1)) in Hw1 by lia.
      eapply wp_mono; [|by eapply default_stop_ok]. intros rc' s' [-> ?]. auto.
    + eapply join_ok; [exact Hw1|]. intros s2 Hw2. eapply join_ok; [exact Hw2|]. intros s3 Hw3.
      eapply Hend; [exact Hw3|]. destruct (rc =? 1); lia.
  - apply wp_bind, wp_ret. eapply join_ok; [exact Hw|]. intros s1 Hw1. apply wp_bind, wp_ret.
    eapply Hend; [exact Hw1|lia].
Qed.

(** [main] of fpm returns on every path, with 0 or 1.  Whatever fails on
    the way, the threads that were started, workers and the one that prints the
    packet rate, were joined before the stack was terminated, and the interface
    list has been freed; the copy of the name of the CLI file is all that may
    be left in memory.  Each option is given at most once, and memory does not
    run out. *)
Theorem fpm_default_main_releases_resources b0 fuel linux_core opts s :
  ready b0 (heap (glob s)) → Forall (opt_ok [99; 102; 105] b0 fuel) opts → NoDup opts.*1 →
  ∃ rc s', main fuel linux_core opts s = (Ret rc, s') ∧ (rc = EXIT_SUCCESS ∨ rc = EXIT_FAILURE) ∧
    spare 1 b0 (heap (glob s')) ∧ gives_back s s'.
Proof.
  intros Hready Hok Hnd.
  enough (wp (main fuel linux_core opts) (λ rc s', (rc = EXIT_SUCCESS ∨ rc = EXIT_FAILURE) ∧
    finished (spare 1 b0) s s') s) as (rc & s' & Hrun & Hrc & Hf & Hm & _) by (by exists rc, s').
  eapply wp_calm_step; [apply calm_signals|apply signals_run|]. intros r s1 _ Hn1.
  pose proof (free_calm _ _ _ (free_refl s) Hn1) as Hm1.
  assert (Hready1 : ready b0 (heap (glob s1))) by (by destruct Hn1 as [(_ & -> & _) _]).
  destruct (negb _); [apply wp_ret; split; [auto|split; [exact (ready_spare _ _ _ Hready1)|done]]|].
  apply wp_bind, wp_on_heap. eapply wp_mono; [|by apply default_args_ok].
  intros [prc a] h Hres. cbn [fst snd] in Hres. apply wp_bind, wp_setg. cbn [fst snd].
  destruct Hres as [(-> & Hp & Hn)|[-> Hs]]; [|apply wp_ret; split; [auto|by split]].
  change (EXIT_SUCCESS =? EXIT_SUCCESS) with true. cbn [negb].
  pose proof (cleanup_kept _ _ _ (options_kept _ _ _ _ _ Hp)) as Hclean.
  destruct (holds_lists _ _ _ (proj1 Hp) Hn) as [items Hl].
  apply wp_ends. eapply (launch_ok _ h); [exact Hclean|done|exact Hm1|exact Hl| | | |].
  - eapply (parsed_readable _ _ _ _ _ 102); [exact Hp|]. set_solver.
  - intros s' Hh' Hm'. apply ends_wp, wp_bind. eapply wp_mono; [|by eapply clean_free_ok].
    intros [] s2 Hf. apply wp_ret. auto.
  - intros n s' Hw. by apply default_run_ok with (h := h).
  - intros s' Hf. auto.
Qed.
End Main.
End FpmStart.

(** ** udpecho *)

(** [nfp_socket] gives a descriptor or -1. *)
Class SocketValue (W F : Type) `{!App W F} :=
  socket_value d ty p w r w' :
    api (A_socket d ty p : acall F) w = (r, w') → r_val r = -1 ∨ 0 ≤ r_val r.

Module UdpEchoStart.
Import UdpEcho.

Definition slots (a : appl_args_t) : list (Z * option positive) := [(102, cli_file a)].
Local Abbreviation parsed := (parsed slots (λ _, True)).
Local Abbreviation result := (result slots (λ _, True)).

(** After [-h]: nothing is given back. *)
Definition quit (b0 : memory) (c : Z) (h : CliArgParse.state) : Prop := c = EXIT_SUCCESS ∧ kept 1 b0 h.

Lemma echo_option_ok b0 fuel o a h :
  parsed b0 a h → opt_ok [99; 102; 105] b0 fuel o → unset slots a h o.1 →
  ends (parse_option fuel o a) (result b0 o.1 a h) (quit b0) h.
Proof.
  intros Hp Hok Hun. unfold parse_option. destruct o as [c arg]. cbn [fst snd] in *.
  destruct (Z.eqb_spec c 99) as [->|].
  { apply ends_wp, wp_bind. eapply (atoi_ok b0 fuel arg); [apply Hp|apply Hok; set_solver|]. intros t Ht.
    apply wp_ret, plain_option; auto. }
  destruct (Z.eqb_spec c 105) as [->|]; [apply ends_wp, interfaces_option_ok; [done|apply Hok; set_solver|done]|].
  destruct (Z.eqb_spec c 104) as [->|].
  { apply ends_exit. split; [done|]. exact (options_kept _ _ _ _ _ Hp). }
  destruct (Z.eqb_spec c 102) as [->|].
  { apply ends_wp. eapply copy_option_ok; [done|apply Hok; set_solver|done| |done]. by exists [], (cli_file a), []. }
  apply ends_wp, wp_ret, plain_option; auto.
Qed.

Lemma echo_args_ok b0 fuel opts h :
  ready b0 h → Forall (opt_ok [99; 102; 105] b0 fuel) opts → NoDup opts.*1 →
  ends (parse_args fuel opts) (λ p h', p.1 = EXIT_SUCCESS ∧ parsed b0 p.2 h' ∧ CliArgParse.if_count h' ≠ 0 ∨
    p.1 = EXIT_FAILURE ∧ spare 1 b0 h') (quit b0) h.
Proof.
  intros Hr Hok Hnd. unfold parse_args.
  eapply (read_options_ok slots (λ _, True) b0 (parse_option fuel) (opt_ok [99; 102; 105] b0 fuel));
    [|done|by repeat constructor|done..|].
  { intros. by apply echo_option_ok. }
  intros [rc a] h' _ Hp. cbn [fst snd] in *. apply ends_wp.
  assert (Hfail : wp (parse_args_cleanup;; mret (EXIT_FAILURE, a)) (λ p h',
    p.1 = EXIT_SUCCESS ∧ parsed b0 p.2 h' ∧ CliArgParse.if_count h' ≠ 0 ∨
    p.1 = EXIT_FAILURE ∧ spare 1 b0 h') h').
  { apply wp_bind. eapply wp_mono; [|by eapply cleanup_kept, (options_kept _ _ _ a)].
    intros [] h2 Hc. apply wp_ret. by right. }
  destruct (rc =? -1); [done|]. apply wp_bind, wp_gets.
  destruct (Z.eqb_spec (CliArgParse.if_count h') 0); [done|]. destruct (_ <? _); [done|]. apply wp_ret. by left.
Qed.

Section Main.
Context {W F : Type} `{!App W F, !SocketLaws W F, !SocketValue W F}.
Context (o0 : gset Z) (fuel : nat).
Local Abbreviation st := (app W F echo_t).
Implicit Types (s : st).
Local Abbreviation fine live := (AppProofs.fine any o0 live fuel).

(** Frames: the socket and its configuration leave the rest alone. *)
Lemma neutral_config : keeps (Resources.neutral heap) (udpecho_config : M st Z).
Proof. unfold udpecho_config, close_and_fail. frame. Qed.
Lemma neutral_echo_cleanup : keeps (Resources.neutral heap) (udpecho_cleanup : M st Z).
Proof. unfold udpecho_cleanup. frame. Qed.

(** The descriptor was closed and still is in [udp_echo_cfg]. *)
Definition dangling s : Prop :=
  (sd (glob s) ∉ o0) ∧ sd (glob s) ≠ INVALID_SOCKET ∧ ∃ t r, trace s = t ++ [(A_close (sd (glob s)), r)].

Definition configured s (rc : Z) : Prop :=
  rc = 0 ∧ (sd (glob s) ∉ o0) ∧ sd (glob s) ≠ INVALID_SOCKET ∧ fine ({[sd (glob s)]} ∪ o0) s ∨
  rc = -1 ∧ (sd (glob s) = INVALID_SOCKET ∧ fine o0 s ∨ dangling s).

(** The socket is there. *)
Definition opened s : Prop :=
  (sd (glob s) ∉ o0) ∧ sd (glob s) ≠ INVALID_SOCKET ∧ fine ({[sd (glob s)]} ∪ o0) s.

Lemma opened_after s c r w :
  opened s → api c (world s) = (r, w) → plain c = true → (∀ x, uses c = Some x → x = sd (glob s)) →
  opened (after s c r w).
Proof.
  intros (Hno & Hne & Hf) E Hp Hu. split_and!; [done..|]. eapply plain_call; [exact Hf|done..|].
  intros x ->%Hu. set_solver.
Qed.

Lemma close_and_fail_ok s : opened s → wp close_and_fail (λ rc s', configured s' rc) s.
Proof.
  intros (Hno & Hne & Hf). apply wp_bind, wp_getg, wp_bind. eapply wp_mono; [|by apply close_last].
  intros [] s' (Hf' & Hg & r & Ht). apply wp_ret. right. split; [done|]. right. unfold dangling. rewrite Hg. eauto.
Qed.

Lemma config_ok s : fine o0 s → wp udpecho_config (λ rc s', configured s' rc) s.
Proof using SocketValue0.
  intros Hf. apply wp_bind, wp_setg. set (s1 := MkApp _ _ _ _).
  assert (Hf1 : fine o0 s1) by (by apply (idle_same s)).
  apply wp_bind, wp_call_. intros r2 w2 E2. set (s2 := after s1 _ r2 w2).
  assert (Hf2 : fine o0 s2) by (by apply (idle_after s1 (A_sleep 1) r2 w2)).
  apply wp_bind, wp_callv. intros r w E. pose proof (socket_call _ _ _ _ _ _ _ _ Hf2 E) as Hs.
  pose proof (socket_value _ _ _ _ _ _ E) as Hv. set (s3 := after s2 _ r w) in *.
  apply wp_bind, wp_setg. set (s4 := MkApp _ _ _ _).
  destruct (Z.ltb_spec (r_val r) 0).
  { apply wp_ret. right. split; [done|]. left. split; [simpl; unfold INVALID_SOCKET; lia|]. by apply (idle_same s3). }
  destruct Hs as [Hno Hs].
  assert (Ho4 : opened s4).
  { split_and!; [done|simpl; unfold INVALID_SOCKET; lia|]. by apply (idle_same s3). }
  apply wp_bind, wp_callv. intros r5 w5 E5.
  pose proof (opened_after _ _ _ _ Ho4 E5 eq_refl (λ _ H, ltac:(done))) as Ho5.
  destruct (_ =? _); [by apply close_and_fail_ok|]. apply wp_bind, wp_call. intros r6 w6 E6.
  pose proof (opened_after _ _ _ _ Ho5 E6 eq_refl (λ _ H, ltac:(done))) as Ho6.
  destruct (negb _); [by apply close_and_fail_ok|]. apply wp_bind, wp_callv. intros r7 w7 E7.
  pose proof (opened_after _ _ _ _ Ho6 E7 eq_refl ltac:(by intros ? [= <-])) as Ho7.
  destruct (_ <? _); [by apply close_and_fail_ok|]. apply wp_bind, wp_callv. intros r8 w8 E8.
  pose proof (opened_after _ _ _ _ Ho7 E8 eq_refl ltac:(by intros ? [= <-])) as Ho8.
  destruct (negb _); [by apply close_and_fail_ok|]. apply wp_ret. by left.
Qed.

(** [nfp_close] was called twice for a descriptor of the program. *)
Definition closed_twice (fd : Z) (tr : list (event F)) : Prop :=
  ∃ t1 r1 t2 r2 t3, tr = t1 ++ (A_close fd, r1) :: t2 ++ (A_close fd, r2) :: t3.

Definition descriptors_left s : Prop := fine o0 s ∨ ∃ fd, (fd ∉ o0) ∧ closed_twice fd (trace s).

Lemma left_idle s s' t : descriptors_left s → idle s s' → trace s' = trace s ++ t → descriptors_left s'.
Proof.
  intros [Hf|(fd & Hno & t1 & r1 & t2 & r2 & t3 & Ht)] Hi Ht'; [left; by apply Hi|].
  right. exists fd. split; [done|]. exists t1, r1, t2, r2, (t3 ++ t). rewrite Ht', Ht. by simplify_list_eq.
Qed.

Lemma echo_cleanup_ok s rc t s1 :
  configured s rc → idle s s1 → glob s1 = glob s → trace s1 = trace s ++ t →
  wp udpecho_cleanup (λ _ s', descriptors_left s') s1.
Proof.
  intros Hc Hi Hg Ht. apply wp_bind, wp_getg. rewrite Hg.
  destruct (Z.eqb_spec (sd (glob s)) INVALID_SOCKET) as [Heq|Hne]; cbn [negb when].
  { apply wp_bind, wp_ret, wp_ret. left. destruct Hc as [(_ & _ & ? & _)|(_ & [[_ Hf]|(_ & ? & _)])]; [done| |done].
    by apply Hi. }
  apply wp_bind, wp_bind. destruct Hc as [(_ & Hno & _ & Hf)|(_ & [[? _]|(Hno & _ & t0 & r & Ht0)])]; [|done|].
  - apply Hi in Hf. eapply wp_mono; [|by apply close_last]. intros [] s2 (Hf2 & _ & _).
    apply wp_setg, wp_ret. left. by apply (idle_same s2).
  - apply wp_call_. intros r2 w2 E2. apply wp_setg, wp_ret. right. exists (sd (glob s)). split; [done|].
    exists t0, r, t, r2, []. simpl. rewrite Ht, Ht0. by simplify_list_eq.
Qed.

(** A call that concerns neither the socket nor memory. *)
Definition beside (t : list (event F)) s s' : Prop := idle s s' ∧ glob s' = glob s ∧ trace s' = trace s ++ t.

Lemma beside_call s c r w :
  api c (world s) = (r, w) → idle_call c = true → beside [(c, r)] s (after s c r w).
Proof. intros E Hc. split_and!; [by apply idle_after|done|done]. Qed.

Lemma echo_run_ok h (R : CliArgParse.state → Prop) num s0 s :
  wp parse_args_cleanup (λ _ h', R h') h → fine o0 s0 → at_work h (Z.to_nat num) s0 s →
  wp (run num) (λ rc s', rc = 0 ∧ R (heap (glob s')) ∧ moves s0 [] s' [] ∧ descriptors_left s') s.
Proof using SocketValue0.
  intros Hc Hf0 (Hh & Ht & Hi). apply wp_bind.
  eapply wp_mono; [|apply wp_keeps; [apply neutral_config|apply config_ok, Hi, Hf0]]. intros rc s1 [Hcfg Hn1].
  assert (Hh1 : heap (glob s1) = h) by (by destruct Hn1 as (_ & -> & _)).
  pose proof (threads_neutral _ _ _ _ _ Ht Hn1) as Ht1. apply wp_bind.
  eapply (wp_mono _ (λ _ s2, with_threads (Z.to_nat num) s0 s2 ∧ ∃ t, beside t s1 s2)).
  2: { destruct (negb _); cbn [when]; [|apply wp_ret; split; [done|]; exists []; split_and!; [done..|by rewrite app_nil_r]].
       apply wp_call_. intros r w E. split; [|eexists; by apply beside_call].
       eapply (threads_neutral heap); [exact Ht1|by apply neutral_after]. }
  intros [] s2 (Ht2 & t2 & Hi2 & Hg2 & Htr2). apply wp_bind, wp_call_. intros r3 w3 E3.
  pose proof (threads_join _ _ _ num r3 w3 Ht2) as Ht3. rewrite Nat.sub_diag in Ht3.
  destruct (beside_call _ _ _ _ E3 eq_refl) as (Hi3 & Hg3 & Htr3). set (s3 := after s2 _ r3 w3) in *.
  apply wp_bind. eapply wp_mono; [|apply wp_keeps; [apply neutral_echo_cleanup|
    apply (echo_cleanup_ok s1 rc (t2 ++ [(A_thread_join num, r3)]));
      [done|by etrans|by rewrite Hg3|by rewrite Htr3, Htr2, app_assoc]]].
  intros _ s4 [Hleft Hn4]. pose proof (threads_neutral _ _ _ _ _ Ht3 Hn4) as Hm4%threads_none.
  assert (Hh4 : heap (glob s4) = h) by (destruct Hn4 as (_ & -> & _); rewrite Hg3, Hg2; done).
  apply wp_bind, wp_call_. intros r5 w5 E5. apply wp_bind.
  eapply wp_mono; [|by apply (clean_ok _ h R Hc)]. intros [] s6 (Htr6 & Hw6 & HR). apply wp_ret.
  split_and!; [done|done| |].
  - eapply moves_trans; [exact Hm4|]. exists [(A_terminate, r5)]. by rewrite Htr6.
  - eapply (left_idle s4 _ [(A_terminate, r5)]); [done| |by rewrite Htr6].
    etrans; [by apply (idle_after s4 A_terminate r5 w5)|by apply idle_same].
Qed.

(** [main] of udpecho ends on every path.  It returns 0 or 1 with the
    interface list freed, or exits with 1 when the stack does not start, or
    with 0 after [-h], where the interface list stays in memory.  The threads
    that were started were joined before the stack was terminated.  The socket
    has been closed; but when its configuration fails after it was opened, it
    is closed a second time.  Each option is given at most once, and memory
    does not run out. *)
Theorem udpecho_main_releases_resources b0 opts s :
  ready b0 (heap (glob s)) → fine o0 s → Forall (opt_ok [99; 102; 105] b0 fuel) opts → NoDup opts.*1 →
  ∃ o s', main fuel opts s = (o, s') ∧ gives_back s s' ∧ descriptors_left s' ∧
    match o with
    | Ret c => (c = EXIT_SUCCESS ∨ c = EXIT_FAILURE) ∧ spare 1 b0 (heap (glob s'))
    | Exit c => c = EXIT_FAILURE ∧ spare 1 b0 (heap (glob s')) ∨ c = EXIT_SUCCESS ∧ kept 1 b0 (heap (glob s'))
    | _ => False
    end.
Proof using SocketValue0.
  intros Hready Hf Hok Hnd.
  enough (ends (main fuel opts)
    (λ c s', (gives_back s s' ∧ descriptors_left s') ∧ (c = EXIT_SUCCESS ∨ c = EXIT_FAILURE) ∧ spare 1 b0 (heap (glob s')))
    (λ c s', (gives_back s s' ∧ descriptors_left s') ∧
      (c = EXIT_FAILURE ∧ spare 1 b0 (heap (glob s')) ∨ c = EXIT_SUCCESS ∧ kept 1 b0 (heap (glob s')))) s)
    as (o & s' & Hrun & Ho).
  { exists o, s'. destruct o; [| |done..]; by destruct Ho as [[? ?] ?]. }
  assert (Hgood : ∀ s', free s s' → gives_back s s' ∧ descriptors_left s').
  { intros s' [Hm Hi]. split; [exact Hm|]. left. by apply Hi. }
  apply ends_bind, ends_wp. eapply wp_mono; [|apply wp_keeps; [apply calm_resources|apply resources_run]].
  intros _ s1 [_ Hn1]. apply ends_bind, ends_wp.
  eapply wp_mono; [|apply wp_keeps; [apply calm_signals|apply signals_run]]. intros r s2 [_ Hn2].
  pose proof (free_calm _ _ _ (free_calm _ _ _ (free_refl s) Hn1) Hn2) as Hfr.
  assert (Hready2 : ready b0 (heap (glob s2))) by (by destruct Hn2 as [(_ & -> & _) _], Hn1 as [(_ & -> & _) _]).
  destruct (negb _); [apply ends_wp, wp_ret; split; [by apply Hgood|split; [auto|exact (ready_spare _ _ _ Hready2)]]|].
  apply ends_bind, ends_on_heap. eapply ends_mono; [| |by apply (echo_args_ok b0)].
  2: { intros c h [-> Hk]. split; [apply Hgood; by eapply free_same|]. right. by split. }
  intros [prc a] h Hres. cbn [fst snd] in Hres. apply ends_bind, ends_wp, wp_setg. cbn [fst snd].
  set (s3 := MkApp _ _ _ _). assert (Hfr3 : free s s3) by (by eapply free_same).
  destruct Hres as [(-> & Hp & Hn)|[-> Hs]]; [|apply ends_wp, wp_ret; split; [by apply Hgood|auto]].
  change (EXIT_SUCCESS =? EXIT_SUCCESS) with true. cbn [negb].
  pose proof (cleanup_kept _ _ _ (options_kept _ _ _ _ _ Hp)) as Hclean.
  destruct (holds_lists _ _ _ (proj1 Hp) Hn) as [items Hl].
  eapply (launch_ok _ h); [exact Hclean|done|exact Hfr3|exact Hl| | | |].
  - eapply (parsed_readable _ _ _ _ _ 102); [exact Hp|]. set_solver.
  - intros s' Hh' Hm'. apply ends_bind, ends_wp. eapply wp_mono; [|by eapply clean_free_ok].
    intros [] s4 [HR Hfr4]. apply ends_exit. split; [by apply Hgood|]. by left.
  - intros n s' Hw. eapply wp_mono; [|by eapply echo_run_ok]. intros rc s4 (-> & HR & Hm & Hd). split_and!; auto.
  - intros s' [HR Hfr4]. split; [by apply Hgood|]. auto.
Qed.
End Main.

(** ** The callback *)

(** Packets as ODP documents them: [payload] is the data of a packet,
    [headroom] the space in front of it, and [datagram] the UDP payload of a
    received packet, to which [nfp_udp_packet_parse] moves the data pointer,
    past the IP and UDP headers; it stores the sender's address. *)
Class EchoLaws (W F : Type) `{!App W F} := {
  payload : W → Z → bytes;
  headroom : W → Z → Z;
  datagram : W → Z → bytes;
  parse_law pkt w r w' :
    api (A_udp_packet_parse pkt : acall F) w = (r, w') →
    payload w' pkt = datagram w pkt ∧ 28 ≤ headroom w' pkt ∧ length (r_data r) = Z.to_nat sizeof_sockaddr_in;
  push_law pkt n w r w' :
    api (A_packet_push_head pkt n : acall F) w = (r, w') → 0 ≤ n ≤ headroom w pkt →
    ∃ pre, length pre = Z.to_nat n ∧ payload w' pkt = pre ++ payload w pkt;
  write_law pkt data w r w' :
    api (A_packet_write pkt data : acall F) w = (r, w') → (length data ≤ length (payload w pkt))%nat →
    payload w' pkt = data ++ drop (length data) (payload w pkt);
}.

Section Echo.
Context {W F : Type} `{!App W F, !EchoLaws W F}.
Implicit Types (s : app W F echo_t).

Lemma sender_ok (r : areply F) :
  length (r_data r) = Z.to_nat sizeof_sockaddr_in → ∃ a, ∀ s, sender r s = (Ret a, s).
Proof.
  intros Hl. unfold sender. destruct (r_data r) as [|? [|? [|? [|? [|? [|? [|? [|? l]]]]]]]]; try done. eauto.
Qed.

(** [C30] For a received datagram the callback sends one back: on the same
    socket, to the address the datagram came from, with "ECHO:" in front of
    its payload, in the same packet, which it marks as taken.  For any other
    event it does nothing. *)
Theorem udpecho_answers ss s :
  let pkt := Httpd2.ss_pkt ss in
  if Httpd2.ss_event ss =? Httpd2.NFP_EVENT_RECV then
    ∃ s' w t r addr r', notify ss s =
        (Ret (Httpd2.SockSigval (Httpd2.ss_event ss) (Httpd2.ss_sockfd ss) (Httpd2.ss_sockfd2 ss)
                Httpd2.ODP_PACKET_INVALID), s') ∧
      trace s' = trace s ++ (A_udp_packet_parse pkt, r) :: t ++
                   [(A_udp_packet_sendto (Httpd2.ss_sockfd ss) pkt (Some addr), r')] ∧
      (∀ s, sender r s = (Ret addr, s)) ∧
      payload w pkt = text "ECHO:" ++ datagram (world s) pkt ∧
      api (A_udp_packet_sendto (Httpd2.ss_sockfd ss) pkt (Some addr)) w = (r', world s')
  else notify ss s = (Ret ss, s).
Proof.
  cbn zeta. unfold notify. destruct (_ =? _); cbn [negb]; [|done]. set (pkt := Httpd2.ss_pkt ss).
  set (ss' := Httpd2.SockSigval _ _ _ _).
  match goal with |- context [mbind ?f ?m s] =>
    enough (wp (mbind f m) (λ x s', x = ss' ∧ ∃ w t r addr r',
      trace s' = trace s ++ (A_udp_packet_parse pkt, r) :: t ++
                   [(A_udp_packet_sendto (Httpd2.ss_sockfd ss) pkt (Some addr), r')] ∧
      (∀ s, sender r s = (Ret addr, s)) ∧
      payload w pkt = text "ECHO:" ++ datagram (world s) pkt ∧
      api (A_udp_packet_sendto (Httpd2.ss_sockfd ss) pkt (Some addr)) w = (r', world s')) s)
      as (x & s' & Hrun & -> & w & t & r & addr & r' & H) by (by exists s', w, t, r, addr, r')
  end.
  apply wp_bind, wp_call. intros r1 w1 E1. apply wp_bind, wp_call_. intros r2 w2 E2.
  apply wp_bind, wp_call_. intros r3 w3 E3.
  destruct (parse_law _ _ _ _ E1) as (Hp1 & Hh1 & Hl1). destruct (sender_ok r1 Hl1) as [a Ha].
  destruct (push_law _ _ _ _ _ E2) as (pre & Hpre & Hp2); [simpl in *; lia|].
  pose proof (write_law _ _ _ _ _ E3) as Hp3. simpl in Hp2, Hp3. rewrite Hp2, Hp1 in Hp3.
  apply wp_bind. eexists _, _. split; [apply Ha|]. apply wp_bind, wp_call_. intros r4 w4 E4. apply wp_ret.
  split; [done|].
  exists w3, [(A_packet_push_head pkt 5, r2); (A_packet_write pkt (text "ECHO:"), r3)], r1, a, r4.
  split_and!; [|exact Ha| |done].
  - cbn [trace after]. by rewrite <- !app_assoc.
  - rewrite Hp3; [|rewrite length_app, Hpre; simpl; lia]. by rewrite drop_app_length' by (by rewrite Hpre).
Qed.
End Echo.
End UdpEchoStart.

(** ** webserver *)

Module WebserverStart.
Import Webserver.

Definition slots (a : appl_args_t) : list (Z * option positive) := [(102, cli_file a); (114, root_dir a)].
Definition port_ok (a : appl_args_t) : Prop := 0 ≤ lport a < 2 ^ 16.
Local Abbreviation parsed := (parsed slots port_ok).
Local Abbreviation result := (result slots port_ok).

(** Memory is as it was. *)
Definition restored (b0 : memory) (h : CliArgParse.state) : Prop := CliArgParse.blocks h = b0.
Definition quit (b0 : memory) (c : Z) (h : CliArgParse.state) : Prop := c = EXIT_SUCCESS ∧ restored b0 h.

Lemma web_cleanup_ok b0 a h : parsed b0 a h → wp (parse_args_cleanup a) (λ _ h', restored b0 h') h.
Proof.
  intros [Hh _].
  assert (Hw : wp (CliArgParse.nfpexpl_parse_interfaces_param_cleanup true;; free_list [root_dir a; cli_file a])
    (λ _ h', restored b0 h') h).
  { eapply cleanup_args_ok; [|done]. eapply holds_perm; [|exact Hh]. unfold copies. simpl. solve_Permutation. }
  destruct Hw as (u & h' & Hrun & Hr). exists u, h'. split; [|done]. rewrite <- Hrun.
  unfold parse_args_cleanup. apply bind_cong. intros [] h1.
  apply bind_cong. intros [] h2. symmetry. apply bind_unit.
Qed.

Lemma web_option_ok b0 fuel o a h :
  parsed b0 a h → opt_ok [99; 102; 105; 112; 114] b0 fuel o → unset slots a h o.1 →
  ends (parse_option fuel o a) (result b0 o.1 a h) (quit b0) h.
Proof.
  intros Hp Hok Hun. unfold parse_option. destruct o as [c arg]. cbn [fst snd] in *. pose proof Hp as [Hh Hport].
  assert (Hsame : ∀ a' rc, slots a' = slots a → port_ok a' → rc = 0 ∨ rc = -1 → result b0 c a h (rc, a') h).
  { intros a' rc Hs Hi Hrc. by apply plain_option. }
  destruct (Z.eqb_spec c 99) as [->|].
  { apply ends_wp, wp_bind. eapply (atoi_ok b0 fuel arg); [done|apply Hok; set_solver|]. intros t Ht.
    apply wp_ret, Hsame; auto. }
  destruct (Z.eqb_spec c 105) as [->|]; [apply ends_wp, interfaces_option_ok; [done|apply Hok; set_solver|done]|].
  destruct (Z.eqb_spec c 104) as [->|].
  { apply ends_bind, ends_wp. eapply wp_mono; [|by apply web_cleanup_ok]. intros [] h' Hc. by apply ends_exit. }
  destruct (Z.eqb_spec c 102) as [->|].
  { apply ends_wp. eapply copy_option_ok; [done|apply Hok; set_solver|done| |done].
    by exists [], (cli_file a), [(114, root_dir a)]. }
  destruct (Z.eqb_spec c 114) as [->|].
  { apply ends_wp, wp_bind. eapply strlen_ok; [done|apply Hok; set_solver|]. intros len.
    destruct (len =? 0); [apply wp_ret, Hsame; auto|]. apply wp_bind.
    eapply copy_string_ok; [done|apply Hok; set_solver|]. intros p h' Hh' Hn. apply wp_ret.
    apply (filled_ok slots port_ok b0 114 a h (λ p, ApplArgs (core_count a) (cli_file a) p (lport a) (use_epoll a)));
      [done|done| |done|done|done|auto]. by exists [(102, cli_file a)], (root_dir a), []. }
  destruct (Z.eqb_spec c 101) as [->|]; [apply ends_wp, wp_ret, Hsame; auto|].
  destruct (Z.eqb_spec c 112) as [->|]; [|apply ends_wp, wp_ret, Hsame; auto].
  apply ends_wp, wp_bind. eapply strlen_ok; [done|apply Hok; set_solver|]. intros len.
  destruct (len =? 0); [apply wp_ret, Hsame; auto|]. apply wp_bind.
  eapply (atoi_ok b0 fuel arg); [done|apply Hok; set_solver|]. intros t Ht.
  apply wp_ret, Hsame; [done| |auto]. apply wrap_range. lia.
Qed.

(** What a command line that is accepted gives: a directory to serve and a
    port. *)
Definition accepted (b0 : memory) (a : appl_args_t) (h : CliArgParse.state) : Prop :=
  parsed b0 a h ∧ CliArgParse.if_count h ≠ 0 ∧ is_Some (root_dir a) ∧ 0 < lport a.

Lemma set_defaults_ok b0 a h :
  parsed b0 a h → CliArgParse.if_count h ≠ 0 → wp (set_defaults a) (λ a' h', accepted b0 a' h') h.
Proof.
  intros [Hh Hport] Hn. unfold port_ok in Hport.
  assert (Hlp : 0 < (if lport a =? 0 then DEFAULT_BIND_PORT else lport a) < 2 ^ 16).
  { destruct (Z.eqb_spec (lport a) 0); [by unfold DEFAULT_BIND_PORT|lia]. }
  apply wp_bind. unfold copies in Hh. simpl in Hh. destruct (root_dir a) as [p|] eqn:Hr.
  - apply wp_ret, wp_ret. split; [|split_and!; [done|by eexists|simpl; lia]]. split; [done|].
    unfold port_ok. simpl. lia.
  - eapply alloc_string_ok; [exact Hh|]. intros p h' Hh' Hn'. apply wp_ret.
    split; [|split_and!; [by rewrite Hn'|by eexists|simpl; lia]]. split; [|unfold port_ok; simpl; lia].
    eapply holds_perm; [|exact Hh']. unfold copies. simpl. solve_Permutation.
Qed.

Lemma web_args_ok b0 fuel opts h :
  ready b0 h → Forall (opt_ok [99; 102; 105; 112; 114] b0 fuel) opts → NoDup opts.*1 →
  ends (parse_args fuel opts) (λ p h', p.1 = EXIT_SUCCESS ∧ accepted b0 p.2 h' ∨
    p.1 = EXIT_FAILURE ∧ restored b0 h') (quit b0) h.
Proof.
  intros Hr Hok Hnd. unfold parse_args.
  eapply (read_options_ok slots port_ok b0 (parse_option fuel) (opt_ok [99; 102; 105; 112; 114] b0 fuel));
    [|done|by repeat constructor|done..|].
  { intros. by apply web_option_ok. }
  intros [rc a] h' _ Hp. cbn [fst snd] in *. apply ends_wp.
  assert (Hfail : wp (parse_args_cleanup a;; mret (EXIT_FAILURE, a)) (λ p h',
    p.1 = EXIT_SUCCESS ∧ accepted b0 p.2 h' ∨ p.1 = EXIT_FAILURE ∧ restored b0 h') h').
  { apply wp_bind. eapply wp_mono; [|by apply web_cleanup_ok]. intros [] h2 Hc. apply wp_ret. by right. }
  destruct (rc =? -1); [done|]. apply wp_bind, wp_gets.
  destruct (Z.eqb_spec (CliArgParse.if_count h') 0); [done|]. destruct (_ <? _); [done|].
  apply wp_bind. eapply wp_mono; [|by apply set_defaults_ok]. intros a' h2 Ha. apply wp_ret. by left.
Qed.

Section Main.
Context {W F : Type} `{!App W F, !SocketLaws W F}.
Local Abbreviation st := (app W F web_t).
Implicit Types (s : st).

Lemma web_run_ok h (R : CliArgParse.state → Prop) linux_core a num s0 s :
  wp (parse_args_cleanup a) (λ _ h', R h') h → at_work h (Z.to_nat num) s0 s →
  wp (run linux_core a num) (λ rc s', (rc = EXIT_SUCCESS ∨ rc = EXIT_FAILURE) ∧ finished R s0 s') s.
Proof.
  intros Hc Hw. apply wp_bind, wp_setg. set (s1 := MkApp _ _ _ _).
  assert (Hw1 : at_work h (Z.to_nat num) s0 s1).
  { destruct Hw as (Hh & (s2 & Hm & k & Hk & Hm') & Hi). split_and!; [exact Hh| |etrans; [exact Hi|by apply idle_same]].
    exists s2. split; [done|]. by exists k. }
  eapply default_create_ok; [exact Hw1|]. intros rc s2 Hw2. destruct (Z.eqb_spec rc 1); cbn [negb].
  - eapply join_ok; [exact Hw2|]. intros s3 Hw3. eapply join_ok; [exact Hw3|]. intros s4 Hw4.
    eapply wp_mono; [|eapply (default_finish_ok (parse_args_cleanup a)); [exact Hc|exact Hw4|lia]].
    intros rc' s' [-> ?]. auto.
  - eapply wp_mono; [|by eapply default_stop_ok]. intros rc' s' [-> ?]. auto.
Qed.

(** [C20] [main] of webserver ends on every path: it returns 0 or 1, or exits
    with 0 after [-h].  On all of them memory is as it was before the command
    line was read, and the threads that were started, workers and the web
    server, were joined before the stack was terminated.  Each option is given
    at most once, and memory does not run out. *)
Theorem webserver_main_releases_resources b0 fuel linux_core opts s :
  ready b0 (heap (glob s)) → Forall (opt_ok [99; 102; 105; 112; 114] b0 fuel) opts → NoDup opts.*1 →
  ∃ o s', main fuel linux_core opts s = (o, s') ∧ gives_back s s' ∧ restored b0 (heap (glob s')) ∧
    (o = Ret EXIT_SUCCESS ∨ o = Ret EXIT_FAILURE ∨ o = Exit EXIT_SUCCESS).
Proof.
  intros Hready Hok Hnd.
  enough (ends (main fuel linux_core opts)
    (λ c s', (c = EXIT_SUCCESS ∨ c = EXIT_FAILURE) ∧ finished (restored b0) s s')
    (λ c s', c = EXIT_SUCCESS ∧ finished (restored b0) s s') s) as (o & s' & Hrun & Ho).
  { exists o, s'. split; [done|]. destruct o as [c|c| |]; [| |done..]; destruct Ho as (Hc & HR & Hm & _);
      (split_and!; [exact Hm|exact HR|]); [destruct Hc as [-> | ->]|rewrite Hc]; auto. }
  apply ends_bind, ends_wp. eapply wp_mono; [|apply wp_keeps; [apply calm_resources|apply resources_run]].
  intros _ s1 [_ Hn1]. apply ends_bind, ends_wp.
  eapply wp_mono; [|apply wp_keeps; [apply calm_signals|apply signals_run]]. intros r s2 [_ Hn2].
  pose proof (free_calm _ _ _ (free_calm _ _ _ (free_refl s) Hn1) Hn2) as Hfr.
  assert (Hready2 : ready b0 (heap (glob s2))) by (by destruct Hn2 as [(_ & -> & _) _], Hn1 as [(_ & -> & _) _]).
  destruct (negb _); [apply ends_wp, wp_ret; split; [auto|split; [apply Hready2|done]]|].
  apply ends_bind, ends_on_heap. eapply ends_mono; [| |by apply (web_args_ok b0)].
  2: { intros c h [-> Hk]. split; [done|]. split; [done|by eapply free_same]. }
  intros [prc a] h Hres. cbn [fst snd] in Hres. apply ends_bind, ends_wp, wp_setg. cbn [fst snd].
  set (s3 := MkApp _ _ _ _). assert (Hfr3 : free s s3) by (by eapply free_same).
  destruct Hres as [(-> & Hp & Hn & _)|[-> Hs]]; [|apply ends_wp, wp_ret; split; [auto|by split]].
  change (EXIT_SUCCESS =? EXIT_SUCCESS) with true. cbn [negb].
  pose proof (web_cleanup_ok _ _ _ Hp) as Hclean. destruct (holds_lists _ _ _ (proj1 Hp) Hn) as [items Hl].
  eapply (launch_ok _ h); [exact Hclean|done|exact Hfr3|exact Hl| | | |].
  - eapply (parsed_readable _ _ _ _ _ 102); [exact Hp|]. set_solver.
  - intros s' Hh' Hm'. apply ends_wp, wp_bind. eapply wp_mono; [|by eapply clean_free_ok].
    intros [] s4 Hf. apply wp_ret. auto.
  - intros n s' Hw. by apply web_run_ok with (h := h).
  - intros s' Hf. auto.
Qed.
End Main.
End WebserverStart.

(** ** Witnesses *)

(** The memory of "eth0@10.0.0.1/24,eth1". *)
Definition demo_interfaces : list item := [(text "eth0", Some (text "10.0.0.1", 24)); (text "eth1", None)].
Definition demo_listed : CliArgParse.state :=
  CliArgParse.State
    {[1%positive := CliArgParse.BArr [CliArgParse.ApplArgIf (Some 2%positive) (Some 3%positive) 24;
                                      CliArgParse.ApplArgIf (Some 4%positive) None 0];
      2%positive := CliArgParse.BStr (text "eth0" ++ [0]); 3%positive := CliArgParse.BStr (text "10.0.0.1" ++ [0]);
      4%positive := CliArgParse.BStr (text "eth1" ++ [0])]} 5 (λ _, true) 0 2 (Some 1%positive).
Definition demo_fpm : app demo (gset Z) Fpm.fpm_t :=
  MkApp (Demo 3 3) 0 [] (Fpm.MkFpm demo_listed (Fpm.ApplArgs 0 None false false)).

Lemma interfaces_follow_command_line_witness :
  (∃ r s', initialize demo_fpm = (Ret (r_val r), s') ∧
     called demo_fpm [(A_initialize 2 [text "eth0"; text "eth1"], r)] s') ∧
  ∃ rc s' t, configure_interface_addresses demo_fpm = (Ret rc, s') ∧ called demo_fpm t s' ∧
    (rc = 0 ∧ configured demo_interfaces t ∨
     rc = -1 ∧ ∃ l1 it l2 t1 t2,
       demo_interfaces = l1 ++ it :: l2 ∧ t = t1 ++ t2 ∧ configured l1 t1 ∧ refused it t2).
Proof.
  apply (interfaces_follow_command_line (W := demo) (F := gset Z) demo_interfaces demo_fpm).
  exists 1%positive. eexists. split_and!; [|done|by vm_compute|].
  2: { constructor; [|constructor; [|constructor]].
       - split; [by exists 2%positive|]. split; [done|]. by exists 3%positive.
       - split; [by exists 4%positive|]. by split. }
  done.
Defined.

(** The command line "-i eth0". *)
Definition demo_fpm_start : app demo (gset Z) Fpm.fpm_t :=
  MkApp (Demo 3 3) 0 [] (Fpm.MkFpm FpmDirectStart.demo_memory (Fpm.ApplArgs 0 None false false)).
Definition demo_echo_start : app demo (gset Z) UdpEcho.echo_t :=
  MkApp (Demo 3 3) 0 [] (UdpEcho.MkEcho FpmDirectStart.demo_memory (UdpEcho.ApplArgs 0 None) (-1)).
Definition demo_web_start : app demo (gset Z) Webserver.web_t :=
  MkApp (Demo 3 3) 0 [] (Webserver.MkWeb FpmDirectStart.demo_memory (Webserver.ApplArgs 0 None None 0 false) (None, 0, false)).

Lemma demo_options_ok l :
  Forall (opt_ok l (CliArgParse.blocks FpmDirectStart.demo_memory) 2060) FpmDirectStart.demo_opts.
Proof. apply Forall_singleton. intros _. by apply (proj1 (proj1 (Forall_singleton _ _) FpmDirectStart.demo_opts_ok)). Qed.

#[global] Instance demo_socket_value : SocketValue demo (gset Z).
Proof. intros d ty p w r w' E. simpl in E. injection E as <- <-. simpl. lia. Qed.

Lemma fpm_default_main_releases_resources_witness :
  ∃ rc s', Fpm.main 2060 0 FpmDirectStart.demo_opts demo_fpm_start = (Ret rc, s') ∧
    (rc = EXIT_SUCCESS ∨ rc = EXIT_FAILURE) ∧
    spare 1 (CliArgParse.blocks FpmDirectStart.demo_memory) (Fpm.heap (glob s')) ∧ gives_back demo_fpm_start s'.
Proof.
  apply (FpmStart.fpm_default_main_releases_resources (W := demo) (F := gset Z));
    [exact FpmDirectStart.demo_ready|apply demo_options_ok|apply NoDup_singleton].
Defined.

Lemma udpecho_main_releases_resources_witness :
  ∃ o s', UdpEcho.main 2060 FpmDirectStart.demo_opts demo_echo_start = (o, s') ∧ gives_back demo_echo_start s' ∧
    UdpEchoStart.descriptors_left ∅ 2060 s' ∧
    match o with
    | Ret c => (c = EXIT_SUCCESS ∨ c = EXIT_FAILURE) ∧
        spare 1 (CliArgParse.blocks FpmDirectStart.demo_memory) (UdpEcho.heap (glob s'))
    | Exit c => c = EXIT_FAILURE ∧ spare 1 (CliArgParse.blocks FpmDirectStart.demo_memory) (UdpEcho.heap (glob s')) ∨
        c = EXIT_SUCCESS ∧ kept 1 (CliArgParse.blocks FpmDirectStart.demo_memory) (UdpEcho.heap (glob s'))
    | _ => False
    end.
Proof.
  apply (UdpEchoStart.udpecho_main_releases_resources (W := demo) (F := gset Z) ∅ 2060).
  - exact FpmDirectStart.demo_ready.
  - split_and!; [split_and!; [done|done|done|set_solver]|unfold enough; simpl; lia| |done].
    intros t e t' Heq. by destruct t.
  - apply demo_options_ok.
  - apply NoDup_singleton.
Defined.

Lemma webserver_main_releases_resources_witness :
  ∃ o s', Webserver.main 2060 0 FpmDirectStart.demo_opts demo_web_start = (o, s') ∧ gives_back demo_web_start s' ∧
    WebserverStart.restored (CliArgParse.blocks FpmDirectStart.demo_memory) (Webserver.heap (glob s')) ∧
    (o = Ret EXIT_SUCCESS ∨ o = Ret EXIT_FAILURE ∨ o = Exit EXIT_SUCCESS).
Proof.
  apply (WebserverStart.webserver_main_releases_resources (W := demo) (F := gset Z));
    [exact FpmDirectStart.demo_ready|apply demo_options_ok|apply NoDup_singleton].
Defined.

(** A packet with its data, the space in front of it and the datagram in it. *)
Record wire := Wire { w_data : bytes; w_room : Z; w_datagram : bytes }.

Definition wire_api (c : acall (gset Z)) (w : wire) : areply (gset Z) * wire :=
  match c with
  | A_udp_packet_parse _ =>
      (rep 1 (16 :: 2 :: replicate 14 1) ∅, Wire (w_datagram w) 42 (w_datagram w))
  | A_packet_push_head _ n =>
      if n <=? w_room w then
        (rep 1 [] ∅, Wire (replicate (Z.to_nat n) 0 ++ w_data w) (w_room w - n) (w_datagram w))
      else (rep 0 [] ∅, w)
  | A_packet_write _ data =>
      (rep 0 [] ∅, Wire (data ++ drop (length data) (w_data w)) (w_room w) (w_datagram w))
  | _ => (rep 0 [] ∅, w)
  end.

#[global] Instance wire_app : App wire (gset Z) := {
  api := wire_api;
  NFP_FD_ZERO := ∅;
  NFP_FD_SET x set := {[x]} ∪ set;
  NFP_FD_CLR x set := set ∖ {[x]};
  NFP_FD_ISSET x set := bool_decide (x ∈ set);
}.

#[global] Program Instance wire_laws : UdpEchoStart.EchoLaws wire (gset Z) := {
  payload w _ := w_data w;
  headroom w _ := w_room w;
  datagram w _ := w_datagram w;
}.
Next Obligation. intros pkt w r w' [= <- <-]. simpl. split_and!; [done|lia|done]. Qed.
Next Obligation.
  intros pkt n w r w' E Hn. simpl in E. destruct (Z.leb_spec n (w_room w)); [|lia]. injection E as <- <-.
  exists (replicate (Z.to_nat n) 0). by rewrite length_replicate.
Qed.
Next Obligation. by intros pkt data w r w' [= <- <-] _. Qed.

Definition demo_sigval : Httpd2.sock_sigval := Httpd2.SockSigval Httpd2.NFP_EVENT_RECV 3 0 7.
Definition demo_wire : app wire (gset Z) UdpEcho.echo_t :=
  MkApp (Wire [] 0 (text "hi")) 0 [] (UdpEcho.MkEcho demo_listed (UdpEcho.ApplArgs 0 None) 3).

Lemma udpecho_answers_witness :
  ∃ s' w t r addr r', UdpEcho.notify demo_sigval demo_wire =
      (Ret (Httpd2.SockSigval Httpd2.NFP_EVENT_RECV 3 0 Httpd2.ODP_PACKET_INVALID), s') ∧
    trace s' = trace demo_wire ++ (A_udp_packet_parse 7, r) :: t ++ [(A_udp_packet_sendto 3 7 (Some addr), r')] ∧
    (∀ s : app wire (gset Z) UdpEcho.echo_t, UdpEcho.sender r s = (Ret addr, s)) ∧
    UdpEchoStart.payload w 7 = text "ECHO:" ++ UdpEchoStart.datagram (world demo_wire) 7 ∧
    api (A_udp_packet_sendto 3 7 (Some addr)) w = (r', world s').
Proof. exact (UdpEchoStart.udpecho_answers (W := wire) (F := gset Z) demo_sigval demo_wire). Defined.

End DefaultAppStart.
