(* ===== verification/Web2App.v ===== *)
(** * The event-driven web server: start-up (example/webserver2/app_main.c)

    The program that runs the server of [Httpd2].  Packets reach the stack in
    one of three ways: through the scheduler, through the scheduler with
    several input queues, or by workers that poll one input queue of every
    interface each; these workers are the ones of fpm_direct, where the first
    worker also serves the scheduler.  Printed information and the contents of
    the ODP parameter records are left out. *)

From S2P Require Import Prelude App AppHeap CliArgParse ArgOptions Httpd2 FpmDirect DefaultApp.
Import App AppHeap.

Module Web2App.

Definition MAX_WORKERS : Z := 32.
Definition PKT_BURST_SIZE : Z := 32.
Definition NFP_FP_INTERFACE_MAX : Z := FpmDirect.NFP_FP_INTERFACE_MAX.
Definition EXIT_SUCCESS : Z := 0.
Definition EXIT_FAILURE : Z := 1.

(** [enum execution_mode] *)
Definition EXEC_MODE_SCHEDULER : Z := 0.
Definition EXEC_MODE_DIRECT_RSS : Z := 1.
Definition EXEC_MODE_SCHEDULER_RSS : Z := 2.
Definition EXEC_MODE_MAX : Z := EXEC_MODE_SCHEDULER_RSS.

(** The thread functions. *)
Definition THREAD_pkt_io_direct_mode_recv : Z := 40.
Definition THREAD_pkt_io_direct_mode_recv_single : Z := 41.

Record appl_args_t := ApplArgs {
  mode : Z;
  core_count : Z;
  core_start : Z;
  cli_file : option positive;
  root_dir : option positive;
  laddr : option positive;
  lport : Z;
  single_pkt_API : bool;
}.

(** [process_timers] of fpm_direct is called [sched_process] here. *)
Abbreviation worker_arg := FpmDirect.worker_arg.

(** Memory, [params], and the globals of httpd2.c. *)
Record web2_t := MkWeb2 {
  heap : CliArgParse.state;
  params : appl_args_t;
  server : Httpd2.httpd2;
}.
Definition set_params (x : appl_args_t) (g : web2_t) : web2_t := MkWeb2 (heap g) x (server g).
Definition set_server (x : Httpd2.httpd2) (g : web2_t) : web2_t := MkWeb2 (heap g) (params g) x.

#[global] Program Instance web2_heap : HasHeap web2_t :=
  {| heap_of := heap; put_heap h g := MkWeb2 h (params g) (server g) |}.
Next Obligation. done. Qed.
Next Obligation. by intros []. Qed.

(** ** Workers *)

Section Workers.
Context {W F G : Type} `{!App W F}.
Local Abbreviation MW := (M (app W F G)).

Definition handle_sched_events : MW Z := FpmDirect.process_events;; mret 0.
Definition pkt_io_direct_mode_recv (fuel : nat) (arg : worker_arg) : MW Z :=
  FpmDirect.pkt_io_recv fuel arg.
Definition pkt_io_direct_mode_recv_single (fuel : nat) (arg : worker_arg) : MW Z :=
  FpmDirect.pkt_io_recv_single fuel arg.
End Workers.

(** ** The command line *)

Section Options.
Local Abbreviation MC := (M CliArgParse.state).

(** [cli_file], [root_dir] and [laddr] are not freed. *)
Definition parse_args_cleanup : MC unit :=
  CliArgParse.nfpexpl_parse_interfaces_param_cleanup true.

(** One option: [res] and the new arguments. *)
Definition parse_option (fuel : nat) (opt : Z * CliArgParse.ptr) (a : appl_args_t)
    : MC (Z * appl_args_t) :=
  let '(c, optarg) := opt in
  if c =? 109 (* m *) then
    mode_arg ← CliArgParse.atoi optarg;
    if (mode_arg <? 0) || (EXEC_MODE_MAX <? mode_arg) then mret (-1, a)
    else mret (0, ApplArgs mode_arg (core_count a) (core_start a) (cli_file a) (root_dir a) (laddr a)
                    (lport a) (single_pkt_API a))
  else if c =? 99 (* c *) then
    n ← CliArgParse.atoi optarg;
    mret (0, ApplArgs (mode a) n (core_start a) (cli_file a) (root_dir a) (laddr a)
               (lport a) (single_pkt_API a))
  else if c =? 115 (* s *) then
    n ← CliArgParse.atoi optarg;
    mret (0, ApplArgs (mode a) (core_count a) n (cli_file a) (root_dir a) (laddr a)
               (lport a) (single_pkt_API a))
  else if c =? 105 (* i *) then ArgOptions.interfaces_option fuel optarg a
  else if c =? 104 (* h *) then parse_args_cleanup;; exit EXIT_SUCCESS
  else if c =? 102 (* f *) then
    ArgOptions.copy_option optarg a (λ p,
      ApplArgs (mode a) (core_count a) (core_start a) p (root_dir a) (laddr a)
        (lport a) (single_pkt_API a))
  else if c =? 114 (* r *) then
    ArgOptions.copy_option optarg a (λ p,
      ApplArgs (mode a) (core_count a) (core_start a) (cli_file a) p (laddr a)
        (lport a) (single_pkt_API a))
  else if c =? 108 (* l *) then
    ArgOptions.copy_option optarg a (λ p,
      ApplArgs (mode a) (core_count a) (core_start a) (cli_file a) (root_dir a) p
        (lport a) (single_pkt_API a))
  else if c =? 112 (* p *) then
    len ← CliArgParse.strlen optarg;
    if len =? 0 then mret (-1, a)
    else
      n ← CliArgParse.atoi optarg;
      mret (0, ApplArgs (mode a) (core_count a) (core_start a) (cli_file a) (root_dir a) (laddr a)
                 (u16 (u64 n)) (single_pkt_API a))
  else if c =? 103 (* g *) then
    mret (0, ApplArgs (mode a) (core_count a) (core_start a) (cli_file a) (root_dir a) (laddr a)
               (lport a) true)
  else mret (0, a).

Definition parse_args (fuel : nat) (opts : DefaultApp.options) : MC (Z * appl_args_t) :=
  modify (CliArgParse.set_if_count 0);;
  modify (CliArgParse.set_if_array None);;
  r ← ArgOptions.parse_options (parse_option fuel) opts
        (ApplArgs EXEC_MODE_SCHEDULER 0 1 None None None 0 false);
  if r.1 =? -1 then parse_args_cleanup;; mret (EXIT_FAILURE, r.2)
  else
    n ← gets CliArgParse.if_count;
    if n =? 0 then parse_args_cleanup;; mret (EXIT_FAILURE, r.2)
    else if NFP_FP_INTERFACE_MAX <? n then parse_args_cleanup;; mret (EXIT_FAILURE, r.2)
    else mret (EXIT_SUCCESS, r.2).
End Options.

(** ** Interfaces and workers *)

Section Main.
Context {W F : Type} `{!App W F}.
Local Abbreviation MW := (M (app W F web2_t)).

(** The result and [itf_id]; the two differ in the parameters of the queues. *)
Definition create_interfaces_direct_rss (tx_queues rx_queues : Z) (itf_id : list (Z * Z))
    : MW (Z * list (Z * Z)) :=
  FpmDirect.configure_interfaces tx_queues rx_queues itf_id.
Definition create_interfaces_sched_rss (tx_queues rx_queues : Z) (itf_id : list (Z * Z))
    : MW (Z * list (Z * Z)) :=
  FpmDirect.configure_interfaces tx_queues rx_queues itf_id.

(** The queues of interface [i]: [inr] is [return -1]. *)
Definition share_queues (num_workers i : Z) (workers : list worker_arg)
    : MW (list worker_arg + list worker_arg) :=
  name ← FpmDirect.interface_name i;
  pktio ← callv (A_pktio_lookup name);
  if pktio =? 0 then mret (inr workers)
  else
    q ← call (A_pktin_queue pktio num_workers);
    if negb (r_val q =? num_workers) then mret (inr workers)
    else
      workers ← for_acc 0 (Z.to_nat num_workers) (λ j workers,
                  h ← FpmDirect.entry_at q j;
                  if j <? MAX_WORKERS then FpmDirect.store_pktin workers j i h else stuck) workers;
      mret (inl workers).

(** The result and [workers_arg]. *)
Definition configure_workers_arg_direct_rss (num_workers : Z) (workers : list worker_arg)
    : MW (Z * list worker_arg) :=
  n ← FpmDirect.if_count;
  workers ← for_acc 0 (Z.to_nat num_workers) (λ i workers,
              w ← of_option (workers !! Z.to_nat i);
              FpmDirect.store workers i (FpmDirect.WorkerArg n (FpmDirect.pktin w) (i =? 0))) workers;
  r ← for_ret 0 (Z.to_nat n) (share_queues num_workers) workers;
  match r with inl workers => mret (0, workers) | inr workers => mret (-1, workers) end.

(** One interface: [inr] leaves the loop with [ret = -1]. *)
Definition get_interface_id (i : Z) (itf_id : list (Z * Z)) : MW (list (Z * Z) + list (Z * Z)) :=
  itf ← on_heap (CliArgParse.read_entry (Z.to_nat i));
  name ← arg_string (CliArgParse.if_name itf);
  match name with
  | None => mret (inr itf_id)
  | Some name =>
      match CliArgParse.if_address itf with
      | None => mret (inl itf_id)
      | Some _ =>
          ifnet ← callv (A_ifnet_get_by_name name);
          if ifnet =? DefaultApp.NFP_IFNET_INVALID then mret (inr itf_id)
          else
            port ← call (A_ifnet_port_get ifnet);
            itf_id ← FpmDirect.store itf_id i (r_out port, r_out2 port);
            if negb (r_val port =? 0) then mret (inr itf_id) else mret (inl itf_id)
      end
  end.

Definition get_interfaces_id (itf_id : list (Z * Z)) : MW (Z * list (Z * Z)) :=
  n ← FpmDirect.if_count;
  r ← for_ret 0 (Z.to_nat n) get_interface_id itf_id;
  match r with inl itf_id => mret (0, itf_id) | inr itf_id => mret (-1, itf_id) end.

(** Functions of fpm_direct, line by line; at most 32 workers. *)
Definition configure_interface_addresses (itf_id : list (Z * Z)) : MW Z :=
  FpmDirect.configure_interface_addresses itf_id.
Definition validate_cores_settings (req_core_start req_core_count : Z) : MW (option (Z * Z)) :=
  FpmDirect.validate_cores MAX_WORKERS req_core_start req_core_count.

(** ** [main] *)

(** [nfp_terminate(); parse_args_cleanup(&params);] *)
Definition terminate : MW unit := call_ A_terminate;; on_heap parse_args_cleanup.

(** [nfp_stop_processing(); nfp_thread_join(thread_tbl, n); ...]; the join is
    left out when not [some]. *)
Definition stop_workers (some : bool) (n : Z) : MW unit :=
  call_ A_stop_processing;;
  when some (call_ (A_thread_join n));;
  terminate.

(** Interfaces and arguments of the workers, by mode; [None] is a failure,
    after which [main] gives up. *)
Definition setup_mode (a : appl_args_t) (num_workers : Z) (workers : list worker_arg)
    : MW (option (list (Z * Z))) :=
  let itf_id := replicate (Z.to_nat NFP_FP_INTERFACE_MAX) (0, 0) in
  if mode a =? EXEC_MODE_DIRECT_RSS then
    c ← create_interfaces_direct_rss (num_workers + 1) num_workers itf_id;
    if negb (c.1 =? 0) then mret None
    else
      w ← configure_workers_arg_direct_rss num_workers workers;
      if negb (w.1 =? 0) then mret None else mret (Some c.2)
  else if mode a =? EXEC_MODE_SCHEDULER_RSS then
    c ← create_interfaces_sched_rss (num_workers + 1) num_workers itf_id;
    if negb (c.1 =? 0) then mret None else mret (Some c.2)
  else if mode a =? EXEC_MODE_SCHEDULER then
    c ← get_interfaces_id itf_id;
    if negb (c.1 =? 0) then mret None else mret (Some c.2)
  else mret None.

Definition worker_func (a : appl_args_t) : Z :=
  if mode a =? EXEC_MODE_DIRECT_RSS then
    if single_pkt_API a then THREAD_pkt_io_direct_mode_recv_single
    else THREAD_pkt_io_direct_mode_recv
  else
    if single_pkt_API a then DefaultApp.THREAD_default_event_dispatcher
    else DefaultApp.THREAD_default_event_dispatcher_multi.

(** The loop that starts the workers: [inr i] is a failure at worker [i]. *)
Definition create_workers (func first_worker num_workers : Z) : MW (unit + Z) :=
  for_ret 0 (Z.to_nat num_workers) (λ i _,
    r ← callv (A_thread_create func (first_worker + i));
    if negb (r =? 1) then mret (inr i) else mret (inl ())) ().

(** [setup_webserver] on the globals of httpd2.c. *)
Definition setup_webserver (root_dir laddr : option bytes) (lport : Z) : MW Z :=
  zoom server set_server (Httpd2.setup_webserver root_dir laddr lport).

(** With the workers running. *)
Definition serve (num_workers : Z) (itf_id : list (Z * Z)) (a : appl_args_t) : MW Z :=
  r ← configure_interface_addresses itf_id;
  if negb (r =? 0) then stop_workers true num_workers;; mret EXIT_FAILURE
  else
    file ← arg_string (cli_file a);
    r ← callv (A_cli_process_file file);
    if negb (r =? 0) then stop_workers true num_workers;; mret EXIT_FAILURE
    else
      call_ (A_sleep 2);;
      root ← arg_string (root_dir a);
      addr ← arg_string (laddr a);
      r ← setup_webserver root addr (lport a);
      if negb (r =? 0) then stop_workers true num_workers;; exit EXIT_FAILURE
      else
        call_ (A_thread_join num_workers);;
        call_ A_terminate;;
        on_heap parse_args_cleanup;;
        mret 0.

(** [workers] is what the stack holds in [workers_arg_direct_rss];
    [linux_sp_core] is 0. *)
Definition main (fuel : nat) (opts : DefaultApp.options) (workers : list worker_arg) : MW Z :=
  _ ← DefaultApp.nfpexpl_resources_set;
  r ← FpmDirect.nfpexpl_sigaction_set;
  if negb (r =? 0) then mret EXIT_FAILURE
  else
    p ← on_heap (parse_args fuel opts);
    setg (set_params p.2);;
    if negb (p.1 =? EXIT_SUCCESS) then mret EXIT_FAILURE
    else
      r ← (if mode p.2 =? EXEC_MODE_SCHEDULER then DefaultApp.initialize
           else callv (A_initialize 0 []));
      if negb (r =? 0) then on_heap parse_args_cleanup;; exit EXIT_FAILURE
      else
        cores ← validate_cores_settings (core_start p.2) (core_count p.2);
        match cores with
        | None => terminate;; exit EXIT_FAILURE
        | Some (first_worker, num_workers) =>
            ids ← setup_mode p.2 num_workers workers;
            match ids with
            | None => terminate;; exit EXIT_FAILURE
            | Some itf_id =>
                t ← create_workers (worker_func p.2) first_worker num_workers;
                match t with
                | inr i => stop_workers (0 <? i) i;; mret EXIT_FAILURE
                | inl _ => serve num_workers itf_id p.2
                end
            end
        end.
End Main.

End Web2App.
