(* ===== verification/Web2AppStart.v ===== *)
(** * The event-driven web server: start and end

    The command line and [main] of example/webserver2/app_main.c. *)

From S2P Require Import Prelude App AppProofs AppHeap Resources Httpd HttpdTheorems Httpd2 CliArgParse CliArgParseProofs ArgHeap ArgOptions TcpPerfProofs TcpPerfTheorems FpmDirect FpmDirectProofs FpmDirectStart DefaultApp DefaultAppProofs DefaultAppStart Web2App.
Import App AppProofs AppHeap Resources HttpdTheorems ArgHeap ArgOptions TcpPerfProofs TcpPerfTheorems FpmDirectStart Web2App.

Module Web2AppStart.

(** ** Command line *)

Definition slots (a : appl_args_t) : list (Z * option positive) :=
  [(102, cli_file a); (114, root_dir a); (108, laddr a)].

Definition moderate (a : appl_args_t) : Prop :=
  - 2 ^ 30 ≤ core_start a < 2 ^ 30 ∧ - 2 ^ 30 ≤ core_count a < 2 ^ 30.

Local Abbreviation parsed := (ArgOptions.parsed slots moderate).
Local Abbreviation result := (ArgOptions.result slots moderate).

(** The arguments can be read, and core numbers are moderate. *)
Definition opt_ok (b0 : memory) (fuel : nat) (o : Z * CliArgParse.ptr) : Prop :=
  (o.1 ∈ [99; 102; 105; 108; 109; 112; 114; 115] → arg_ok b0 fuel o.2) ∧
  ∀ t, o.1 = 99 ∨ o.1 = 115 → (∃ r, CliArgParseProofs.string_at b0 o.2.1 o.2.2 t r) →
    - 2 ^ 30 ≤ CliArgParse.atoi_text t < 2 ^ 30.

(** After [-h]: the interfaces are released. *)
Definition quit (b0 : memory) (c : Z) (h : CliArgParse.state) : Prop := c = EXIT_SUCCESS ∧ spare 3 b0 h.

Lemma web2_option_ok b0 fuel o a h :
  parsed b0 a h → opt_ok b0 fuel o → ArgOptions.unset slots a h o.1 →
  ends (parse_option fuel o a) (result b0 o.1 a h) (quit b0) h.
Proof.
  intros Hp [Hok Hat] Hun. unfold parse_option. destruct o as [c arg]. cbn [fst snd] in *. pose proof Hp as [Hh Hm].
  assert (Hsame : ∀ a' rc, slots a' = slots a → moderate a' → rc = 0 ∨ rc = -1 → result b0 c a h (rc, a') h).
  { intros a' rc Hs Hi Hrc. by apply plain_option. }
  destruct (Z.eqb_spec c 109) as [->|].
  { apply ends_wp, wp_bind. eapply (atoi_ok b0 fuel arg); [done|apply Hok; set_solver|]. intros t Ht.
    destruct (_ || _); apply wp_ret, Hsame; auto. }
  destruct (Z.eqb_spec c 99) as [->|].
  { apply ends_wp, wp_bind. eapply (atoi_ok b0 fuel arg); [done|apply Hok; set_solver|]. intros t Ht.
    apply wp_ret, Hsame; [done|split; [apply Hm|apply (Hat t); auto]|auto]. }
  destruct (Z.eqb_spec c 115) as [->|].
  { apply ends_wp, wp_bind. eapply (atoi_ok b0 fuel arg); [done|apply Hok; set_solver|]. intros t Ht.
    apply wp_ret, Hsame; [done|split; [apply (Hat t); auto|apply Hm]|auto]. }
  destruct (Z.eqb_spec c 105) as [->|]; [apply ends_wp, interfaces_option_ok; [done|apply Hok; set_solver|done]|].
  destruct (Z.eqb_spec c 104) as [->|].
  { apply ends_bind, ends_wp. eapply wp_mono; [|by eapply cleanup_kept, (ArgOptions.options_kept _ _ _ a)].
    intros [] h' Hc. by apply ends_exit. }
  destruct (Z.eqb_spec c 102) as [->|].
  { apply ends_wp. eapply copy_option_ok; [done|apply Hok; set_solver|done| |done].
    by exists [], (cli_file a), [(114, root_dir a); (108, laddr a)]. }
  destruct (Z.eqb_spec c 114) as [->|].
  { apply ends_wp. eapply copy_option_ok; [done|apply Hok; set_solver|done| |done].
    by exists [(102, cli_file a)], (root_dir a), [(108, laddr a)]. }
  destruct (Z.eqb_spec c 108) as [->|].
  { apply ends_wp. eapply copy_option_ok; [done|apply Hok; set_solver|done| |done].
    by exists [(102, cli_file a); (114, root_dir a)], (laddr a), []. }
  destruct (Z.eqb_spec c 112) as [->|].
  { apply ends_wp, wp_bind. eapply strlen_ok; [done|apply Hok; set_solver|]. intros len.
    destruct (len =? 0); [apply wp_ret, Hsame; auto|]. apply wp_bind.
    eapply (atoi_ok b0 fuel arg); [done|apply Hok; set_solver|]. intros t Ht. apply wp_ret, Hsame; auto. }
  destruct (Z.eqb_spec c 103) as [->|]; apply ends_wp, wp_ret, Hsame; auto.
Qed.

(** What a command line that is accepted gives. *)
Definition accepted (b0 : memory) (a : appl_args_t) (h : CliArgParse.state) : Prop :=
  parsed b0 a h ∧ 1 ≤ CliArgParse.if_count h ≤ NFP_FP_INTERFACE_MAX.

Lemma web2_args_ok b0 fuel opts h :
  ready b0 h → Forall (opt_ok b0 fuel) opts → NoDup opts.*1 →
  ends (parse_args fuel opts) (λ p h', p.1 = EXIT_SUCCESS ∧ accepted b0 p.2 h' ∨
    p.1 = EXIT_FAILURE ∧ spare 3 b0 h') (quit b0) h.
Proof.
  intros Hr Hok Hnd. unfold parse_args.
  eapply (read_options_ok slots moderate b0 (parse_option fuel) (opt_ok b0 fuel));
    [|done|by repeat constructor|done..|].
  { intros. by apply web2_option_ok. }
  intros [rc a] h' _ Hp. cbn [fst snd] in *. apply ends_wp.
  assert (Hfail : wp (parse_args_cleanup;; mret (EXIT_FAILURE, a)) (λ p h',
    p.1 = EXIT_SUCCESS ∧ accepted b0 p.2 h' ∨ p.1 = EXIT_FAILURE ∧ spare 3 b0 h') h').
  { apply wp_bind. eapply wp_mono; [|by eapply cleanup_kept, (ArgOptions.options_kept _ _ _ a)].
    intros [] h2 Hc. apply wp_ret. by right. }
  destruct (rc =? -1); [done|]. apply wp_bind, wp_gets. pose proof (holds_count _ _ _ (proj1 Hp)) as Hnn.
  destruct (Z.eqb_spec (CliArgParse.if_count h') 0); [done|].
  destruct (Z.ltb_spec NFP_FP_INTERFACE_MAX (CliArgParse.if_count h')); [done|].
  apply wp_ret. left. split; [done|]. split; [done|lia].
Qed.

(** ** Interfaces and arguments of the workers *)

Section Start.
Context {W F : Type} `{!App W F, !SocketLaws W F, !PacketLaws W F, !CpuLaws W F}.
Context (b0 : memory).
Local Abbreviation st := (app W F web2_t).
Implicit Types (s : st).
Local Abbreviation neutral := (Resources.neutral (λ g : web2_t, g)).
Local Abbreviation working := (working 3 b0).

(** The array has 32 arguments for up to 8 queues each. *)
Definition array32 (ws : list worker_arg) : Prop :=
  Z.of_nat (length ws) = MAX_WORKERS ∧
  ∀ j w, ws !! j = Some w → Z.of_nat (length (FpmDirect.pktin w)) = NFP_FP_INTERFACE_MAX.

Lemma array32_insert ws j w :
  array32 ws → Z.of_nat (length (FpmDirect.pktin w)) = NFP_FP_INTERFACE_MAX → array32 (<[j := w]> ws).
Proof.
  intros [Hl Hw] Hlen. split; [by rewrite length_insert|].
  intros j' w' [(-> & -> & _)|[_ ?]]%list_lookup_insert_Some; [done|by eapply Hw].
Qed.

Lemma array32_lookup ws j :
  array32 ws → 0 ≤ j < MAX_WORKERS →
  ∃ w, ws !! Z.to_nat j = Some w ∧ Z.of_nat (length (FpmDirect.pktin w)) = NFP_FP_INTERFACE_MAX.
Proof.
  intros [Hl Hw] Hj. destruct (lookup_lt_is_Some_2 ws (Z.to_nat j)) as [w Hj']; [lia|]. eauto.
Qed.

Lemma share_queues_run es num i ws s :
  listed (heap_of (glob s)) es → 0 ≤ i < Z.of_nat (length es) → i < NFP_FP_INTERFACE_MAX →
  num ≤ MAX_WORKERS → array32 ws →
  wp (share_queues num i ws) (λ r _, match r with inl ws' => array32 ws' | inr _ => True end) s.
Proof.
  intros Hl Hi Hmax Hnum Hf. unfold share_queues.
  apply wp_bind. eapply (interface_name_ok s es); [done..|]. intros name.
  apply wp_bind, wp_callv. intros r2 w2 E2. destruct (_ =? 0); [by apply wp_ret|].
  apply wp_bind, wp_call. intros q w3 E3. destruct (Z.eqb_spec (r_val q) num) as [Hq|Hq]; cbn [negb]; [|by apply wp_ret].
  pose proof (FpmDirectProofs.length_entries q (queue_table _ _ _ _ _ E3)) as Hlen. rewrite Hq in Hlen.
  apply wp_bind. eapply wp_mono; [|apply (wp_for_acc _ (λ _ ws' _, array32 ws'))]; [|done|].
  { intros ws' s' Hf'. by apply wp_ret. }
  intros j ws' s' Hj Hf'.
  destruct (lookup_lt_is_Some_2 (FpmDirectProofs.entries q) (Z.to_nat j)) as [x Hx]; [lia|].
  apply wp_bind. eapply FpmDirectProofs.wp_entry; [exact Hx|]. destruct (Z.ltb_spec j MAX_WORKERS); [|lia].
  destruct (array32_lookup ws' j Hf') as (w & Hw & Hlw); [lia|].
  apply wp_bind. eapply wp_of_option; [exact Hw|]. apply wp_bind, store_ok; [lia|].
  apply store_ok; [by eapply lookup_lt_Some|]. apply array32_insert; [done|]. simpl. by rewrite length_insert.
Qed.

Lemma neutral_share num i ws : keeps neutral (share_queues num i ws : M st _).
Proof.
  unfold share_queues, FpmDirect.interface_name, FpmDirect.entry_at, FpmDirect.store_pktin, FpmDirect.store. frame.
Qed.
Hint Resolve neutral_share : keeps.

Lemma workers_run es num ws s :
  listed (heap_of (glob s)) es → Z.of_nat (length es) ≤ NFP_FP_INTERFACE_MAX →
  num ≤ MAX_WORKERS → array32 ws →
  wp (configure_workers_arg_direct_rss num ws) (λ _ _, True) s.
Proof.
  intros Hl Hmax Hnum Hf. apply wp_bind, wp_getg. cbn beta. rewrite (proj1 Hl).
  apply wp_bind. eapply wp_mono; [|apply (wp_for_acc _ (λ _ ws' s', s' = s ∧ array32 ws'))].
  - intros ws' s' [-> Hf']. apply wp_bind.
    eapply wp_mono; [|eapply (wp_for_ret _ (λ _ ws2 s2, neutral s s2 ∧ array32 ws2) (λ _ _, True))].
    + intros [ws2|ws2] s2 _; by apply wp_ret.
    + done.
    + intros i ws2 s2 Hi [Hn2 Hf2].
      eapply wp_mono; [|apply wp_keeps; [apply neutral_share|apply (share_queues_run es)]].
      * intros [ws3|ws3] s3 [H3 Hn3]; [split; [by etrans|done]|done].
      * by rewrite (neutral_heap _ _ Hn2).
      * lia.
      * lia.
      * done.
      * done.
  - done.
  - intros i ws' s' Hi [-> Hf']. destruct (array32_lookup ws' i Hf') as (w & Hw & Hlw); [lia|].
    apply wp_bind. eapply wp_of_option; [exact Hw|]. apply store_ok; [by eapply lookup_lt_Some|].
    split; [done|]. by apply array32_insert.
Qed.

Lemma neutral_id i ids : keeps neutral (get_interface_id i ids : M st _).
Proof. unfold get_interface_id, FpmDirect.store. frame. Qed.
Hint Resolve neutral_id : keeps.

(** Its address is looked at by the code only to see whether there is one. *)
Lemma ids_run es ids s :
  listed (heap_of (glob s)) es → (length es ≤ length ids)%nat →
  wp (get_interfaces_id ids) (λ r _, length r.2 = length ids) s.
Proof.
  intros Hl Hle. apply wp_bind, wp_getg. cbn beta. rewrite (proj1 Hl).
  apply wp_bind. eapply wp_mono; [|eapply (wp_for_ret _ (λ _ ids' s', neutral s s' ∧ length ids' = length ids)
    (λ ids' _, length ids' = length ids))].
  - intros [ids'|ids'] s' H; apply wp_ret; simpl; [apply H|done].
  - done.
  - intros i ids' s1 Hi [Hn1 Hlen]. destruct (lookup_lt_is_Some_2 es (Z.to_nat i)) as [e He]; [lia|].
    assert (Hl1 : listed (heap_of (glob s1)) es) by (rewrite (neutral_heap _ _ Hn1); done).
    destruct (Forall_lookup_1 _ _ _ _ (proj2 (proj2 Hl1)) He) as (Hname & Hrn & _).
    apply wp_bind. eapply read_entry_wp; [done..|].
    eapply (wp_neutral (λ g, g)); [frame|by apply arg_string_ok|]. intros o s2 Ho Hn2.
    pose proof (transitivity Hn1 Hn2) as Hn. destruct (Ho Hname) as [name ->].
    destruct (CliArgParse.if_address e); [|by apply wp_ret].
    eapply (wp_neutral (λ g, g)); [frame|apply any_callv|]. intros ifnet s3 _ Hn3.
    destruct (_ =? _); [by apply wp_ret|].
    eapply (wp_neutral (λ g, g)); [frame|apply any_call|]. intros port s4 _ Hn4.
    apply wp_bind, store_ok; [lia|]. destruct (negb _); apply wp_ret; rewrite length_insert; [done|].
    split; [|done]. etrans; [exact Hn|]. by etrans.
Qed.

Lemma neutral_setup a num ws : keeps neutral (setup_mode a num ws : M st _).
Proof.
  unfold setup_mode, create_interfaces_direct_rss, create_interfaces_sched_rss, configure_workers_arg_direct_rss,
    get_interfaces_id, FpmDirect.if_count, FpmDirect.store. frame; apply neutral_interfaces.
Qed.

Lemma setup_run a es num ws s :
  listed (heap_of (glob s)) es → Z.of_nat (length es) ≤ NFP_FP_INTERFACE_MAX →
  num ≤ MAX_WORKERS → array32 ws →
  wp (setup_mode a num ws) (λ o _, match o with Some ids => (length es ≤ length ids)%nat | None => True end) s.
Proof.
  intros Hl Hmax Hnum Hf. unfold setup_mode. set (ids := replicate _ _).
  assert (Hle : (length es ≤ length ids)%nat) by (unfold ids; rewrite length_replicate; lia).
  destruct (_ =? _).
  { eapply (wp_neutral (λ g, g)); [apply neutral_interfaces|by apply (interfaces_created s es)|]. intros c s1 Hc Hn1.
    destruct (negb _); [by apply wp_ret|]. apply wp_bind.
    eapply wp_mono; [|apply (workers_run es); [by rewrite (neutral_heap _ _ Hn1)|done..]]. intros w s2 _.
    destruct (negb _); apply wp_ret; [done|]. by rewrite Hc. }
  destruct (_ =? _).
  { apply wp_bind. eapply wp_mono; [|by apply (interfaces_created s es)]. intros c s1 Hc.
    destruct (negb _); apply wp_ret; [done|]. by rewrite Hc. }
  destruct (_ =? _); [|by apply wp_ret].
  apply wp_bind. eapply wp_mono; [|by apply (ids_run es)]. intros c s1 Hc.
  destruct (negb _); apply wp_ret; [done|]. by rewrite Hc.
Qed.

(** ** [main] *)

Definition returned s0 (rc : Z) s : Prop := (rc = EXIT_SUCCESS ∨ rc = EXIT_FAILURE) ∧ ended 3 b0 s0 s.

Lemma web2_give_up_ok s0 s (A : Type) (Q : A → st → Prop) :
  working 0 s0 s → ends (terminate;; exit EXIT_FAILURE) Q (returned s0) s.
Proof.
  intros Hr. apply ends_bind, ends_wp. eapply wp_mono; [|by apply (terminate_ok 3 b0)].
  intros [] s' He. apply ends_exit. split; [by right|done].
Qed.

Lemma web2_stop_ok n m (some : bool) s0 s :
  working n s0 s → (n ≤ if some then Z.to_nat m else 0)%nat →
  wp (stop_workers some m) (λ _ s', ended 3 b0 s0 s') s.
Proof.
  intros Hw Hle. eapply (wp_neutral (λ g, g)); [frame|apply any_call_|]. intros [] s1 _ Hn1.
  pose proof (working_neutral _ _ _ _ _ _ Hw Hn1) as Hw1. apply wp_bind. destruct some; cbn [when].
  - apply wp_call_. intros r w E. pose proof (working_join _ _ _ _ _ m r w Hw1) as Hw2.
    replace (n - Z.to_nat m)%nat with 0%nat in Hw2 by lia. by apply (terminate_ok 3 b0).
  - apply wp_ret. replace n with 0%nat in Hw1 by lia. by apply (terminate_ok 3 b0).
Qed.

(** The server uses its own part of the globals. *)
Lemma neutral_server root addr port : keeps (Resources.neutral heap) (setup_webserver root addr port : M st Z).
Proof. apply neutral_zoom; [done|]. unfold Httpd2.setup_webserver. frame. Qed.

Lemma server_run root addr port s : wp (setup_webserver root addr port : M st Z) (λ _ _, True) s.
Proof. apply wp_zoom. unfold Httpd2.setup_webserver. runs. Qed.

Lemma working_heap n s0 s s' : working n s0 s → Resources.neutral heap s s' → working n s0 s'.
Proof.
  intros [Hk Ht] Hn. split; [|by eapply threads_neutral]. cbn in *. by destruct Hn as (_ & -> & _).
Qed.

Lemma serve_ok s0 s num ids a es :
  working (Z.to_nat num) s0 s → listed (heap (glob s)) es → (length es ≤ length ids)%nat →
  readable (heap (glob s)) (cli_file a) → readable (heap (glob s)) (root_dir a) → readable (heap (glob s)) (laddr a) →
  ends (serve num ids a) (returned s0) (returned s0) s.
Proof.
  intros Hw Hl Hle Hc Hr Ha.
  assert (Hstop : ∀ s', working (Z.to_nat num) s0 s' → wp (stop_workers true num;; mret EXIT_FAILURE) (returned s0) s').
  { intros s' Hw'. apply wp_bind. eapply wp_mono; [|by eapply web2_stop_ok]. intros [] s2 He. apply wp_ret.
    split; [by right|done]. }
  eapply (ends_neutral (λ g, g)); [apply neutral_addresses|by eapply (addresses_ok s)|]. intros rc s1 _ Hn1.
  pose proof (working_neutral _ _ _ _ _ _ Hw Hn1) as Hw1. destruct (negb _); [by apply ends_wp, Hstop|].
  eapply (ends_neutral (λ g, g)); [frame|apply arg_string_ok; cbn; by destruct Hn1 as (_ & -> & _)|]. intros file s2 _ Hn2.
  eapply (ends_neutral (λ g, g)); [frame|apply any_callv|]. intros rc2 s3 _ Hn3.
  pose proof (transitivity Hn1 (transitivity Hn2 Hn3)) as Hn. pose proof (working_neutral _ _ _ _ _ _ Hw Hn) as Hw3.
  destruct (negb _); [by apply ends_wp, Hstop|].
  eapply (ends_neutral (λ g, g)); [frame|apply any_call_|]. intros [] s4 _ Hn4. pose proof (transitivity Hn Hn4) as Hn'.
  eapply (ends_neutral (λ g, g)); [frame|apply arg_string_ok; cbn; by destruct Hn' as (_ & -> & _)|]. intros root s5 _ Hn5.
  pose proof (transitivity Hn' Hn5) as Hn''.
  eapply (ends_neutral (λ g, g)); [frame|apply arg_string_ok; cbn; by destruct Hn'' as (_ & -> & _)|]. intros addr s6 _ Hn6.
  pose proof (working_neutral _ _ _ _ _ _ Hw (transitivity Hn'' Hn6)) as Hw6.
  apply ends_bind, ends_wp. eapply wp_mono; [|apply wp_keeps; [apply neutral_server|apply server_run]].
  intros rc7 s7 [_ Hn7]. pose proof (working_heap _ _ _ _ Hw6 Hn7) as Hw7. destruct (negb _).
  { apply ends_bind, ends_wp. eapply wp_mono; [|by eapply web2_stop_ok]. intros [] s8 He. apply ends_exit.
    split; [by right|done]. }
  apply ends_wp, wp_bind, wp_call_. intros r w E. pose proof (working_join _ _ _ _ _ num r w Hw7) as Hw8.
  rewrite Nat.sub_diag in Hw8. apply wp_assoc, wp_bind. eapply wp_mono; [|by apply (terminate_ok 3 b0 s0)].
  intros [] s9 He. apply wp_ret. split; [by left|done].
Qed.

(** With the stack running. *)
Lemma web2_run_ok s0 s a ws :
  working 0 s0 s → accepted b0 a (heap (glob s)) → array32 ws →
  ends (cores ← validate_cores_settings (core_start a) (core_count a);
        match cores with
        | None => terminate;; exit EXIT_FAILURE
        | Some (first_worker, num_workers) =>
            ids ← setup_mode a num_workers ws;
            match ids with
            | None => terminate;; exit EXIT_FAILURE
            | Some itf_id =>
                t ← create_workers (worker_func a) first_worker num_workers;
                match t with
                | inr i => stop_workers (0 <? i) i;; mret EXIT_FAILURE
                | inl _ => serve num_workers itf_id a
                end
            end
        end) (returned s0) (returned s0) s.
Proof.
  intros Hw ([Hh Hm] & Hcnt) Hf.
  assert (Hcores : wp (validate_cores_settings (core_start a) (core_count a) : M st _) (λ o _,
    match o with Some (_, num) => 0 ≤ num ≤ MAX_WORKERS | None => True end) s).
  { destruct Hm as [? ?]. eapply wp_mono; [|apply cores_ok; [apply cpu_count_range|done|done]].
    intros o s4 (r4 & w4 & _ & _ & ->). unfold cores_of. case_decide; [lia|done]. }
  eapply (ends_neutral (λ g, g)); [apply neutral_cores|exact Hcores|]. intros o s1 Ho Hn1.
  pose proof (working_neutral _ _ _ _ _ _ Hw Hn1) as Hw1.
  destruct o as [[first num]|]; [|by apply web2_give_up_ok].
  destruct (holds_listed _ _ _ Hh) as [es Hl]; [lia|]. pose proof (proj1 Hl) as Hn.
  eapply (ends_neutral (λ g, g)); [apply neutral_setup| |].
  { apply (setup_run a es); [rewrite (neutral_heap _ _ Hn1); exact Hl|unfold NFP_FP_INTERFACE_MAX in *; lia|lia|done]. }
  intros ids s2 Hids Hn2. pose proof (working_neutral _ _ _ _ _ _ Hw1 Hn2) as Hw2.
  destruct ids as [ids|]; [|by apply web2_give_up_ok].
  apply ends_bind, ends_wp. eapply wp_mono; [|apply (create_loop_ok 3 b0); [lia|exact Hw2]].
  intros t s3 [Hg3 Ht]. destruct t as [[]|i].
  - assert (Hheap : heap (glob s3) = heap (glob s)).
    { rewrite Hg3. destruct Hn2 as (_ & -> & _), Hn1 as (_ & -> & _). done. }
    assert (Hp : ArgOptions.parsed slots moderate b0 a (heap (glob s))) by (by split).
    apply (serve_ok s0 s3 num ids a es); rewrite ?Hheap; [done..| | |].
    + eapply (parsed_readable slots moderate b0 a _ 102); [exact Hp|set_solver].
    + eapply (parsed_readable slots moderate b0 a _ 114); [exact Hp|set_solver].
    + eapply (parsed_readable slots moderate b0 a _ 108); [exact Hp|set_solver].
  - destruct Ht as [Hi Ht]. apply ends_wp, wp_bind. eapply wp_mono; [|eapply (web2_stop_ok (Z.to_nat i)); [exact Ht|]].
    + intros [] s4 He. apply wp_ret. split; [by right|done].
    + destruct (Z.ltb_spec 0 i); lia.
Qed.

(** The stack is started, with or without the interfaces. *)
Lemma web2_initialize_ok a items s0 s :
  lists (heap (glob s)) items → moves s0 [] s [] →
  wp (if mode a =? EXEC_MODE_SCHEDULER then DefaultApp.initialize else callv (A_initialize 0 []))
    (λ rc s', glob s' = glob s ∧ moves s0 [] s' (if rc =? 0 then [R_nfp] else [])) s.
Proof.
  intros Hl Hm.
  assert (Hcall : ∀ n names, wp (callv (A_initialize n names) : M st Z)
    (λ rc s', glob s' = glob s ∧ moves s0 [] s' (if rc =? 0 then [R_nfp] else [])) s).
  { intros n names. apply wp_callv. intros r w E. split; [done|]. eapply moves_trans; [exact Hm|].
    apply moves_after. unfold hold. cbn [fst snd]. by destruct (r_val r =? 0). }
  destruct (_ =? _); [|done]. apply wp_bind, wp_getg, wp_bind.
  eapply wp_mono; [|by apply (DefaultAppProofs.init_names_ok items)]. intros names s' [-> _]. apply Hcall.
Qed.

(** [C18] [main] of webserver2 ends on every path and in every mode, by
    returning or by [exit], with 0 or 1.  Whatever fails on the way, the
    workers that were started were joined before the stack was terminated, and
    the interface list has been freed; the copies of three option arguments are
    all that may be left in memory.  Each option is given at most once, core
    numbers are below 2^30, and memory does not run out. *)
Theorem web2_main_releases_resources fuel opts ws s :
  ready b0 (heap (glob s)) → Forall (opt_ok b0 fuel) opts → NoDup opts.*1 → array32 ws →
  ∃ o s' t, main fuel opts ws s = (o, s') ∧ trace s' = trace s ++ t ∧
    match o with Ret c | Exit c => c = EXIT_SUCCESS ∨ c = EXIT_FAILURE | _ => False end ∧
    spare 3 b0 (heap (glob s')) ∧ held [] t = Some [].
Proof.
  intros Hready Hok Hnd Hf.
  enough (ends (main fuel opts ws) (returned s) (returned s) s) as (o & s' & Hrun & Ho).
  { destruct o as [c|c| |]; [| |done..]; destruct Ho as (Hc & He & t & Ht & Hheld); by eexists _, s', t. }
  apply ends_bind, ends_wp. eapply wp_mono; [|apply wp_keeps; [apply DefaultAppProofs.calm_resources|apply DefaultAppProofs.resources_run]].
  intros _ s1 [_ [Hn1 _]].
  eapply (ends_neutral (λ g, g)); [unfold FpmDirect.nfpexpl_sigaction_set, FpmDirect.linux_sigaction; frame|apply DefaultAppProofs.signals_run|].
  intros r0 s2 _ Hn2. pose proof (transitivity Hn1 Hn2) as Hn.
  assert (Hready2 : ready b0 (heap (glob s2))) by (by destruct Hn as (_ & -> & _)).
  assert (Hm2 : moves s [] s2 []) by apply Hn. pose proof (ready_spare 3 _ _ Hready2) as Hspare.
  destruct (negb _); [apply ends_wp, wp_ret; by split; [right|]|].
  apply ends_bind, ends_on_heap. eapply ends_mono; [| |by apply (web2_args_ok b0)].
  2: { intros c h [-> Hs]. split; [by left|]. by split. }
  intros [prc a] h Hres. cbn [fst snd] in Hres. apply ends_bind, ends_wp, wp_setg. cbn [fst snd].
  set (s3 := MkApp _ _ _ _). assert (Hm3 : moves s [] s3 []) by exact Hm2.
  destruct Hres as [[-> Hacc]|[-> Hs]]; [|apply ends_wp, wp_ret; by split; [right|]].
  change (EXIT_SUCCESS =? EXIT_SUCCESS) with true. cbn [negb].
  destruct (holds_lists _ _ _ (proj1 (proj1 Hacc))) as [items Hl]; [destruct Hacc as [_ ?]; lia|].
  apply ends_bind, ends_wp. eapply wp_mono; [|by apply (web2_initialize_ok a items s)].
  intros rc s4 [Hg4 Hm4]. assert (Hk : kept 3 b0 (heap (glob s4))).
  { rewrite Hg4. exact (ArgOptions.options_kept _ _ _ _ _ (proj1 Hacc)). }
  destruct (rc =? 0); cbn [negb].
  - apply web2_run_ok; [|by rewrite Hg4|done]. split; [done|]. by apply threads_none.
  - apply ends_bind, ends_wp. eapply wp_mono; [|by apply release_ok]. intros [] s5 (Ht & _ & Hs). apply ends_exit.
    split; [by right|]. split; [done|]. destruct Hm4 as (t & Ht4 & Hh4). exists t. by rewrite Ht.
Qed.
End Start.

(** ** Witness *)

(** The command line "-i eth0". *)
Definition demo_workers : list worker_arg := replicate 32 (FpmDirect.WorkerArg 0 (replicate 8 0) false).
Definition demo_web2 : app demo (gset Z) web2_t :=
  MkApp (Demo 3 3) 0 [] (MkWeb2 demo_memory (ApplArgs 0 0 0 None None None 0 false) (Httpd2.MkHttpd2 [])).

Lemma web2_main_releases_resources_witness :
  ∃ o s' t, main 2060 demo_opts demo_workers demo_web2 = (o, s') ∧ trace s' = trace demo_web2 ++ t ∧
    match o with Ret c | Exit c => c = EXIT_SUCCESS ∨ c = EXIT_FAILURE | _ => False end ∧
    spare 3 (CliArgParse.blocks demo_memory) (heap (glob s')) ∧ held [] t = Some [].
Proof.
  apply (web2_main_releases_resources (W := demo) (F := gset Z) (CliArgParse.blocks demo_memory)).
  - exact demo_ready.
  - apply Forall_singleton. split; [|intros t [Hx|Hx]; discriminate]. intros _.
    by apply (proj1 (proj1 (Forall_singleton _ _) demo_opts_ok)).
  - apply NoDup_singleton.
  - split; [done|]. by intros j w [-> _]%lookup_replicate.
Defined.

End Web2AppStart.
