(* ===== verification/UdpTerm.v ===== *)
(** * UDP termination (example/udp_term_socket)

    A program that receives UDP datagrams and counts them.  The stack hands
    them to a callback that puts them on a channel, or they are read with
    [nfp_recv]; in both cases by a thread that counts bytes and packets, which
    the main thread reports.  Packets reach the stack through workers and a
    dispatcher of events, the ones of udp_fwd_socket.  Printed information and
    the contents of the ODP parameter records are left out. *)

From S2P Require Import Prelude App AppHeap CliArgParse ArgOptions Httpd2 TcpPerf FpmDirect UdpFwd DefaultApp.
Import App AppHeap.

Module UdpTerm.

(** ** Constants *)

Definition MAX_WORKERS : Z := 64.
Definition NFP_FP_INTERFACE_MAX : Z := FpmDirect.NFP_FP_INTERFACE_MAX.
Definition TEST_LPORT : Z := 5001.
Definition METHOD_CHANNEL : Z := 0.
Definition METHOD_POSIX : Z := 1.
Definition METHOD_MAX : Z := 2.
Definition NFP_CHANNEL_INVALID : Z := 2 ^ 32 - 1.
Definition TERMINATION_BUFF_SIZE : Z := 1500.
Definition CHANNEL_RECV_MAX : Z := 32.
Definition NFP_SOCK_DGRAM : Z := 2.
Definition NFP_IPPROTO_UDP : Z := 17.
(** [sizeof(struct nfp_udphdr)] *)
Definition sizeof_udphdr : Z := 8.
Definition EXIT_SUCCESS : Z := 0.
Definition EXIT_FAILURE : Z := 1.
(** The thread functions, and the counters another thread reads. *)
Definition THREAD_pkt_io_recv : Z := 50.
Definition THREAD_pkt_io_recv_single : Z := 51.
Definition THREAD_event_dispatcher : Z := 52.
Definition THREAD_termination_channel : Z := 53.
Definition THREAD_termination_posix : Z := 54.
Definition FIELD_received_total : Z := 60.
Definition FIELD_received_pkt_total : Z := 61.

(** ** Data *)

Record appl_args_t := ApplArgs {
  core_count : Z;
  cli_file : option positive;
  laddr : option positive;
  lport : Z;
  method : Z;
  single_pkt_API : bool;
}.

Abbreviation pktio_thr_arg := UdpFwd.pktio_thr_arg.

Record term_t := MkTerm {
  heap : CliArgParse.state;
  params : appl_args_t;
  received_total : Z;
  received_pkt_total : Z;
}.
Definition set_params (x : appl_args_t) (g : term_t) : term_t :=
  MkTerm (heap g) x (received_total g) (received_pkt_total g).

(** [received_total += n; received_pkt_total++;] on [uint64_t] *)
Definition count (n : Z) (g : term_t) : term_t :=
  MkTerm (heap g) (params g) (u64 (received_total g + n)) (u64 (received_pkt_total g + 1)).

(** Programs with such counters. *)
Class Counters (G : Type) := {
  bytes_total : G → Z;
  pkts_total : G → Z;
  counted : Z → G → G;
  bytes_counted n g : bytes_total (counted n g) = u64 (bytes_total g + n);
  pkts_counted n g : pkts_total (counted n g) = u64 (pkts_total g + 1);
}.
#[global] Program Instance term_counters : Counters term_t :=
  {| bytes_total := received_total; pkts_total := received_pkt_total; counted := count |}.
Solve Obligations with done.

#[global] Program Instance term_heap : HasHeap term_t :=
  {| heap_of := heap; put_heap h g := MkTerm h (params g) (received_total g) (received_pkt_total g) |}.
Next Obligation. done. Qed.
Next Obligation. by intros []. Qed.

(** ** Packets *)

Section Packets.
Context {W F G : Type} `{!App W F}.
Local Abbreviation MW := (M (app W F G)).

(** The length of the payload, from the UDP header at the start of [l]: a
    [uint16_t]. *)
Definition udp_size (l : bytes) : MW Z :=
  hi ← of_option (l !! 4%nat);
  lo ← of_option (l !! 5%nat);
  mret (u16 (hi * 256 + lo - sizeof_udphdr)).

(** The packet is cut to the payload.  [A_packet_l4] answers with the bytes from
    the UDP header on and, in [r_out], where they are in the data of the packet. *)
Definition trim (pkt : Z) : MW unit :=
  uh ← call (A_packet_l4 pkt);
  size ← udp_size (r_data uh);
  call_ (A_packet_pull_head pkt (u32 (r_out uh + sizeof_udphdr)));;
  len ← callv (A_packet_len pkt);
  call_ (A_packet_pull_tail pkt (u32 (len - size))).

Context `{!Counters G}.

(** One packet of the channel. *)
Definition count_packet (r : areply F) (i : Z) : MW unit :=
  p ← FpmDirect.entry_at r i;
  len ← callv (A_packet_len p);
  setg (counted (u32 len));;
  call_ (A_packet_free p).

Definition channel_step (chn : Z) (_ : unit) : MW (unit + unit) :=
  running ← callv A_is_running;
  if running =? 0 then mret (inr ())
  else
    r ← call (A_channel_recv chn CHANNEL_RECV_MAX);
    when (0 <? r_val r) (for_from 0 (Z.to_nat (r_val r)) (count_packet r));;
    mret (inl ()).
End Packets.

(** ** Sockets and channels (udp_term_socket.c) *)

Section Sockets.
Context {W F : Type} `{!App W F}.
Local Abbreviation MT := (M (app W F term_t)).

(** [chn] is what the pointer points to; it is never NULL. *)
Definition udp_socket_cfg (laddr : option bytes) (lport chn : Z) : MT Z :=
  match laddr with
  | None => mret (-1)
  | Some l =>
      sd ← callv (A_socket NFP_AF_INET NFP_SOCK_DGRAM NFP_IPPROTO_UDP);
      if sd =? -1 then mret (-1)
      else
        p ← call (A_parse_ip_addr l);
        if negb (r_val p =? 1) then mret (-1)
        else
          b ← callv (A_bind sd (Sin sizeof_sockaddr_in NFP_AF_INET (odp_cpu_to_be_16 lport)
                                  (r_out p) sizeof_sockaddr));
          if b <? 0 then call_ (A_close sd);; mret (-1)
          else if negb (chn =? NFP_CHANNEL_INVALID) then
            e ← callv (A_socket_sigevent sd);
            if e =? -1 then call_ (A_close sd);; mret (-1) else mret sd
          else mret sd
  end.

(** The callback; the result is what [*ss] holds afterwards. *)
Definition notify (chn : Z) (ss : Httpd2.sock_sigval) : MT Httpd2.sock_sigval :=
  if negb (Httpd2.ss_event ss =? Httpd2.NFP_EVENT_RECV) then mret ss
  else
    let pkt := Httpd2.ss_pkt ss in
    trim pkt;;
    sent ← callv (A_channel_send chn pkt);
    when (negb (sent =? 1)) (call_ (A_packet_free pkt));;
    mret (Httpd2.SockSigval (Httpd2.ss_event ss) (Httpd2.ss_sockfd ss) (Httpd2.ss_sockfd2 ss)
            Httpd2.ODP_PACKET_INVALID).

Definition udp_socket_cleanup (sd : Z) : MT Z :=
  if sd =? -1 then mret 0 else callv (A_close sd).

Definition udp_channel_config : MT Z := callv A_channel_create.

Definition udp_channel_cleanup (chn : Z) : MT Z :=
  if chn =? NFP_CHANNEL_INVALID then mret 0 else callv (A_channel_destroy chn).

(** ** Counting *)

Definition posix_step (sd : Z) (_ : unit) : MT (unit + unit) :=
  running ← callv A_is_running;
  if running =? 0 then mret (inr ())
  else
    recv ← callv (A_recv sd TERMINATION_BUFF_SIZE 0);
    when (0 <? recv) (setg (count recv));;
    mret (inl ()).

(** [sd] is the [int] that [arg] points to. *)
Definition termination_posix (fuel : nat) (sd : Z) : MT Z :=
  state ← callv A_get_processing_state;
  if state =? 0 then mret (-1)
  else loop fuel (posix_step sd) ();; mret 0.

Definition termination_channel (fuel : nat) (chn : Z) : MT Z :=
  state ← callv A_get_processing_state;
  if state =? 0 then mret (-1)
  else loop fuel (channel_step chn) ();; mret 0.
End Sockets.

(** ** Threads (app_main.c) *)

Section Threads.
Context {W F G : Type} `{!App W F}.
Local Abbreviation MW := (M (app W F G)).

(** The dispatchers of udp_fwd_socket, line by line. *)
Definition pkt_io_recv_single (fuel : nat) (arg : pktio_thr_arg) : MW Z :=
  UdpFwd.pkt_io_recv_single fuel arg.
Definition pkt_io_recv (fuel : nat) (arg : pktio_thr_arg) : MW Z := UdpFwd.pkt_io_recv fuel arg.
Definition event_dispatcher (fuel : nat) : MW Z := UdpFwd.event_dispatcher fuel.

(** The main thread reads the counters while another one changes them. *)
Definition load (field : Z) : MW Z := callv (A_load field).

(** The loop state: [idx] and the last counters. *)
Definition stats_step (st : Z * Z * Z) : MW (Z * Z * Z + unit) :=
  let '(idx, last_total, last_pkt) := st in
  running ← callv A_is_running;
  if running =? 0 then mret (inr ())
  else
    call_ (A_sleep 1);;
    let idx := idx + 1 in
    if idx <? 10 then mret (inl (idx, last_total, last_pkt))
    else
      total ← load FIELD_received_total;
      pkts ← load FIELD_received_pkt_total;
      call_ (A_report [u64 (total - last_total) / 10; u64 (pkts - last_pkt) / 10]);;
      total ← load FIELD_received_total;
      pkts ← load FIELD_received_pkt_total;
      mret (inl (0, total, pkts)).

Definition print_global_stats (fuel : nat) : MW unit :=
  state ← callv A_get_processing_state;
  if state =? 0 then mret ()
  else loop fuel stats_step (0, 0, 0).
End Threads.

(** ** The command line *)

Section Options.
Local Abbreviation MC := (M CliArgParse.state).

(** [cli_file] and [laddr] are not freed. *)
Definition parse_args_cleanup : MC unit :=
  CliArgParse.nfpexpl_parse_interfaces_param_cleanup true.

(** [len == 0 || atoi(optarg) < least]: the number, unless it is refused. *)
Definition number_option (least : Z) (optarg : CliArgParse.ptr) : MC (option Z) :=
  len ← CliArgParse.strlen optarg;
  if len =? 0 then mret None
  else
    n ← CliArgParse.atoi optarg;
    if n <? least then mret None else mret (Some n).

(** One option: [res] and the new arguments. *)
Definition parse_option (fuel : nat) (opt : Z * CliArgParse.ptr) (a : appl_args_t)
    : MC (Z * appl_args_t) :=
  let '(c, optarg) := opt in
  if c =? 99 (* c *) then
    n ← CliArgParse.atoi optarg;
    mret (0, ApplArgs n (cli_file a) (laddr a) (lport a) (method a) (single_pkt_API a))
  else if c =? 105 (* i *) then ArgOptions.interfaces_option fuel optarg a
  else if c =? 104 (* h *) then parse_args_cleanup;; exit EXIT_SUCCESS
  else if c =? 102 (* f *) then
    ArgOptions.copy_option optarg a
      (λ p, ApplArgs (core_count a) p (laddr a) (lport a) (method a) (single_pkt_API a))
  else if c =? 108 (* l *) then
    ArgOptions.copy_option optarg a
      (λ p, ApplArgs (core_count a) (cli_file a) p (lport a) (method a) (single_pkt_API a))
  else if c =? 112 (* p *) then
    n ← number_option 1 optarg;
    match n with
    | None => mret (-1, a)
    | Some n => mret (0, ApplArgs (core_count a) (cli_file a) (laddr a) (u16 n) (method a) (single_pkt_API a))
    end
  else if c =? 109 (* m *) then
    n ← number_option 0 optarg;
    match n with
    | None => mret (-1, a)
    | Some n =>
        mret (if METHOD_MAX <=? n then -1 else 0,
              ApplArgs (core_count a) (cli_file a) (laddr a) (lport a) n (single_pkt_API a))
    end
  else if c =? 103 (* g *) then
    mret (0, ApplArgs (core_count a) (cli_file a) (laddr a) (lport a) (method a) true)
  else mret (0, a).

Definition parse_args (fuel : nat) (opts : DefaultApp.options) : MC (Z * appl_args_t) :=
  modify (CliArgParse.set_if_count 0);;
  modify (CliArgParse.set_if_array None);;
  r ← ArgOptions.parse_options (parse_option fuel) opts
        (ApplArgs 0 None None TEST_LPORT METHOD_CHANNEL false);
  let fail := parse_args_cleanup;; mret (EXIT_FAILURE, r.2) in
  if r.1 =? -1 then fail
  else
    n ← gets CliArgParse.if_count;
    if n =? 0 then fail
    else if NFP_FP_INTERFACE_MAX <? n then fail
    else if bool_decide (laddr r.2 = None) then fail
    else mret (EXIT_SUCCESS, r.2).
End Options.

(** ** [main] *)

Section Main.
Context {W F : Type} `{!App W F}.
Local Abbreviation MT := (M (app W F term_t)).

(** The function of fpm_direct, line by line. *)
Definition configure_interface_addresses (itf_id : list (Z * Z)) : MT Z :=
  FpmDirect.configure_interface_addresses itf_id.

(** The number of workers. *)
Definition workers_of (cpus core_count : Z) : Z :=
  let num_workers := cpus - 2 in
  let num_workers := if negb (core_count =? 0) && (core_count <? num_workers) then core_count
                     else num_workers in
  if MAX_WORKERS <? num_workers then MAX_WORKERS else num_workers.

(** The body of the loop over the interfaces: [inr] is [goto end]. *)
Definition open_interface (num_workers i : Z) (st : list (Z * Z) * list pktio_thr_arg)
    : MT (list (Z * Z) * list pktio_thr_arg + unit) :=
  let '(itf_id, args) := st in
  let tx_queues := num_workers + 2 in
  name ← FpmDirect.interface_name i;
  c ← call (A_ifport_net_create name num_workers tx_queues);
  itf_id ← FpmDirect.store itf_id i (r_out c, r_out2 c);
  if r_val c <? 0 then mret (inr ())
  else
    pktio ← callv (A_pktio_lookup name);
    if pktio =? 0 then mret (inr ())
    else
      q ← call (A_pktin_queue pktio num_workers);
      if negb (r_val q =? num_workers) then mret (inr ())
      else
        o ← callv (A_pktout_queue pktio);
        if negb (o =? tx_queues) then mret (inr ())
        else
          args ← for_acc 0 (Z.to_nat num_workers) (λ j args,
                   h ← FpmDirect.entry_at q j; UdpFwd.store_pktin args j i h) args;
          mret (inl (itf_id, args)).

(** The loop that starts the workers: [inr i] is a failure at worker [i]. *)
Definition create_workers (single : bool) (num_workers : Z) (args : list pktio_thr_arg)
    : MT (list pktio_thr_arg + Z) :=
  for_ret 0 (Z.to_nat num_workers) (λ i args,
    n ← FpmDirect.if_count;
    w ← of_option (args !! Z.to_nat i);
    args ← FpmDirect.store args i (UdpFwd.PktioThrArg n (UdpFwd.pktin w));
    r ← callv (A_thread_create
          (if single then THREAD_pkt_io_recv_single else THREAD_pkt_io_recv) (2 + i));
    if negb (r =? 1) then mret (inr i) else mret (inl args)) args.

(** From the label [end] on. *)
Definition finish (sd chn : Z) : MT Z :=
  _ ← udp_socket_cleanup sd;
  _ ← udp_channel_cleanup chn;
  call_ A_terminate;;
  on_heap parse_args_cleanup;;
  mret 0.

(** With the channel, if there is one: the socket and the thread that counts.
    [sd] is -1 or what it was before the configuration failed, which is -1. *)
Definition terminate_traffic (fuel : nat) (num_workers chn : Z) (a : appl_args_t) : MT Z :=
  l ← arg_string (laddr a);
  sd ← udp_socket_cfg l (lport a) chn;
  if sd =? -1 then
    call_ A_stop_processing;;
    call_ (A_thread_join 1);;
    call_ (A_thread_join num_workers);;
    finish sd chn
  else
    t ← callv (A_thread_create
          (if method a =? METHOD_CHANNEL then THREAD_termination_channel
           else THREAD_termination_posix) 1);
    if negb (t =? 1) then
      call_ A_stop_processing;;
      call_ (A_thread_join 1);;
      call_ (A_thread_join num_workers);;
      finish sd chn
    else
      print_global_stats fuel;;
      call_ (A_thread_join num_workers);;
      call_ (A_thread_join 1);;
      call_ (A_thread_join 1);;
      finish sd chn.

(** With the workers running: the dispatcher, addresses, the CLI file and the
    channel.  A channel that cannot be created leads to [end] with all threads
    running. *)
Definition run_events (fuel : nat) (num_workers : Z) (itf_id : list (Z * Z)) (a : appl_args_t) : MT Z :=
  let stop (dispatcher : bool) :=
    call_ A_stop_processing;;
    call_ (A_thread_join num_workers);;
    when dispatcher (call_ (A_thread_join 1));;
    finish (-1) NFP_CHANNEL_INVALID in
  d ← callv (A_thread_create THREAD_event_dispatcher 0);
  if negb (d =? 1) then stop false
  else
    r ← configure_interface_addresses itf_id;
    if negb (r =? 0) then stop true
    else
      file ← arg_string (cli_file a);
      r ← callv (A_cli_process_file file);
      if negb (r =? 0) then stop true
      else
        call_ (A_sleep 1);;
        if method a =? METHOD_CHANNEL then
          chn ← udp_channel_config;
          if chn =? NFP_CHANNEL_INVALID then finish (-1) NFP_CHANNEL_INVALID
          else terminate_traffic fuel num_workers chn a
        else terminate_traffic fuel num_workers NFP_CHANNEL_INVALID a.

(** With the stack running. *)
Definition run (fuel : nat) (a : appl_args_t) : MT Z :=
  cpus ← callv A_cpu_count;
  let num_workers := workers_of cpus (core_count a) in
  if num_workers <? 1 then finish (-1) NFP_CHANNEL_INVALID
  else
    n ← FpmDirect.if_count;
    o ← for_ret 0 (Z.to_nat n) (open_interface num_workers)
          (replicate (Z.to_nat NFP_FP_INTERFACE_MAX) (0, 0),
           replicate (Z.to_nat MAX_WORKERS)
             (UdpFwd.PktioThrArg 0 (replicate (Z.to_nat NFP_FP_INTERFACE_MAX) 0)));
    match o with
    | inr _ => finish (-1) NFP_CHANNEL_INVALID
    | inl (itf_id, args) =>
        t ← create_workers (single_pkt_API a) num_workers args;
        match t with
        | inr i =>
            call_ A_stop_processing;;
            when (0 <? i) (call_ (A_thread_join i));;
            finish (-1) NFP_CHANNEL_INVALID
        | inl _ => run_events fuel num_workers itf_id a
        end
    end.

Definition main (fuel : nat) (opts : DefaultApp.options) : MT Z :=
  r ← FpmDirect.nfpexpl_sigaction_set;
  if negb (r =? 0) then mret EXIT_FAILURE
  else
    p ← on_heap (parse_args fuel opts);
    setg (set_params p.2);;
    if negb (p.1 =? EXIT_SUCCESS) then mret EXIT_FAILURE
    else
      r ← callv (A_initialize 0 []);
      if negb (r =? 0) then on_heap parse_args_cleanup;; exit EXIT_FAILURE
      else run fuel p.2.
End Main.

End UdpTerm.
