(* ===== verification/UdpTermProofs.v ===== *)
(** * UDP termination: the callback and the threads that count *)

From S2P Require Import Prelude App AppProofs AppHeap Resources HttpdTheorems CliArgParse TcpPerfProofs TcpPerfTheorems Httpd Httpd2 FpmDirect FpmDirectProofs FpmDirectStart UdpTerm.
Import App AppProofs HttpdTheorems TcpPerfProofs TcpPerfTheorems UdpTerm.

Module UdpTermProofs.

(** ** Readings of the record *)

Section Readings.
Context {F : Type}.
Implicit Types (e : event F) (t : list (event F)).

(** The sizes to be counted: the answers of [nfp_recv] that stand for a datagram,
    as [received] tells, and the answers of [odp_packet_len]; [measured] are the
    packets asked for their length, one for each of these answers. *)
Definition sizes_by (received : Z → bool) e : list Z :=
  match e.1 with
  | A_recv _ _ _ => if received (r_val e.2) then [r_val e.2] else []
  | A_packet_len _ => [u32 (r_val e.2)]
  | _ => []
  end.
Definition sizes_of (received : Z → bool) t : list Z := t ≫= sizes_by received.
Definition sizes t : list Z := sizes_of (Z.ltb 0) t.

(** The packets taken from a channel, and those freed. *)
Definition taken_by e : list Z :=
  match e.1 with A_channel_recv _ _ => FpmDirectProofs.entries e.2 | _ => [] end.
Definition taken t : list Z := t ≫= taken_by.
Definition freed_by e : list Z := match e.1 with A_packet_free p => [p] | _ => [] end.
Definition freed t : list Z := t ≫= freed_by.
Definition measured_by e : list Z := match e.1 with A_packet_len p => [p] | _ => [] end.
Definition measured t : list Z := t ≫= measured_by.

Definition sum (l : list Z) : Z := foldr Z.add 0 l.

Lemma sum_sizes_app l k : sum (l ++ k) = sum l + sum k.
Proof. induction l as [|x l IH]; simpl; [done|]. rewrite IH. lia. Qed.
End Readings.

(** A channel gives as many packets as it says. *)
Class ChannelLaws (W F : Type) `{!App W F} :=
  channel_table chn n w r w' :
    api (A_channel_recv chn n : acall F) w = (r, w') → r_val r ≤ Z.of_nat (length (r_list r)).

Section Counting.
Context {W F G : Type} `{!App W F, !SocketLaws W F, !ChannelLaws W F, !Counters G} (received : Z → bool).
Local Abbreviation st := (app W F G).
Local Abbreviation sizes_by := (sizes_by received).
Local Abbreviation sizes_of := (sizes_of received).
Implicit Types (s : st).

(** From [s] with the packets [p] in hand to [s'] with [p']: the counters grew
    by what was received, and every packet taken was asked for its length and
    freed, in order. *)
Definition tally s (p : list Z) s' (p' : list Z) : Prop :=
  (budget (world s') ≤ budget (world s))%nat ∧
  ∃ t, trace s' = trace s ++ t ∧ p ++ taken t = freed t ++ p' ∧ measured t = freed t ∧
    u64 (bytes_total (glob s')) = u64 (bytes_total (glob s) + sum (sizes_of t)) ∧
    u64 (pkts_total (glob s')) = u64 (pkts_total (glob s) + Z.of_nat (length (sizes_of t))).

Lemma tally_refl s p : tally s p s p.
Proof. split; [done|]. exists []. simpl. rewrite !app_nil_r, !Z.add_0_r. done. Qed.

Lemma tally_trans s1 p1 s2 p2 s3 p3 : tally s1 p1 s2 p2 → tally s2 p2 s3 p3 → tally s1 p1 s3 p3.
Proof.
  intros (Hb & t & Ht & Hf & Hm & Hr & Hn) (Hb' & t' & Ht' & Hf' & Hm' & Hr' & Hn').
  split; [lia|]. exists (t ++ t').
  assert (Hs : sizes_of (t ++ t') = sizes_of t ++ sizes_of t') by apply bind_app.
  assert (Hk : taken (t ++ t') = taken t ++ taken t') by apply bind_app.
  assert (Hfr : freed (t ++ t') = freed t ++ freed t') by apply bind_app.
  assert (Hms : measured (t ++ t') = measured t ++ measured t') by apply bind_app.
  rewrite Hs, Hk, Hfr, Hms, sum_sizes_app, length_app, Nat2Z.inj_add, !Z.add_assoc.
  split_and!; [by rewrite Ht', Ht, app_assoc| | | |].
  - by rewrite app_assoc, Hf, <- !app_assoc, Hf'.
  - by rewrite Hm, Hm'.
  - by rewrite Hr', (wrap_cong _ _ _ _ Hr).
  - by rewrite Hn', (wrap_cong _ _ _ _ Hn).
Qed.

(** A call, followed by counting [n] bytes if it received that many. *)
Definition counting (l : list Z) (g : G) : G := foldr (λ n g, counted n g) g l.

Lemma tally_call s c r w p p' :
  api c (world s) = (r, w) → p ++ taken_by (c, r) = freed_by (c, r) ++ p' →
  measured_by (c, r) = freed_by (c, r) → (length (sizes_by (c, r)) ≤ 1)%nat →
  tally s p (MkApp w (r_errno r) (trace s ++ [(c, r)]) (counting (sizes_by (c, r)) (glob s))) p'.
Proof.
  intros E Hp Hm Hl. split; [by eapply budget_le|].
  exists [(c, r)]. unfold taken, freed, measured, UdpTermProofs.sizes_of. simpl. rewrite !app_nil_r.
  split_and!; [done|done|done|..];
    destruct (sizes_by (c, r)) as [|n [|? ?]]; simpl in *; try lia;
    by rewrite ?bytes_counted, ?pkts_counted, ?wrap_wrap, ?Z.add_0_r.
Qed.

(** The same when nothing is received. *)
Lemma tally_after s c r w p p' :
  api c (world s) = (r, w) → p ++ taken_by (c, r) = freed_by (c, r) ++ p' →
  measured_by (c, r) = freed_by (c, r) → sizes_by (c, r) = [] →
  tally s p (after s c r w) p'.
Proof. intros E Hp Hm Hs. pose proof (tally_call s c r w p p' E Hp Hm) as H. rewrite Hs in H. apply H. simpl. lia. Qed.

(** [while ( *is_running )] around a body that counts; the body may leave it. *)
Lemma counting_loop fuel (body : unit → M st (unit + unit)) s0 s :
  (∀ s, wp (body ()) (λ _ s', tally s [] s' []) s) →
  tally s0 [] s [] → (budget (world s) < fuel)%nat →
  wp (loop fuel (λ _, running ← callv A_is_running; if running =? 0 then mret (inr ()) else body ()) ())
    (λ _ s', tally s0 [] s' []) s.
Proof.
  intros Hbody Hs Hfuel. apply (wp_loop _ (λ _ s', tally s0 [] s' []) (λ _ s', budget (world s'))); [|done|done].
  intros [] s1 Hs1. apply wp_bind, wp_callv. intros r w E.
  pose proof (tally_after s1 A_is_running r w [] [] E eq_refl eq_refl eq_refl) as Hs2.
  destruct (Z.eqb_spec (r_val r) 0); [apply wp_ret; by eapply tally_trans|].
  eapply wp_mono; [|apply Hbody]. intros o s3 Hs3.
  assert (Hs4 : tally s0 [] s3 []) by (eapply tally_trans; [exact Hs1|]; by eapply tally_trans).
  destruct o; [split; [done|]|done].
  pose proof (budget_step _ _ _ _ E) as Hb. unfold again in Hb. cbn [fst snd] in Hb.
  rewrite (proj2 (Z.eqb_neq _ _)) in Hb by done. destruct Hs3 as [Hle _]. simpl in *. lia.
Qed.

(** The function of a thread. *)
Lemma counting_thread fuel (body : unit → M st (unit + unit)) s :
  (∀ s, wp (body ()) (λ _ s', tally s [] s' []) s) → (budget (world s) < fuel)%nat →
  wp (state ← callv A_get_processing_state;
      if state =? 0 then mret (-1)
      else loop fuel (λ _, running ← callv A_is_running; if running =? 0 then mret (inr ()) else body ()) ();; mret 0)
    (λ rc s', (rc = 0 ∨ rc = -1) ∧ tally s [] s' []) s.
Proof.
  intros Hbody Hfuel. apply wp_bind, wp_callv. intros r w E.
  pose proof (tally_after s A_get_processing_state r w [] [] E eq_refl eq_refl eq_refl) as Hs1.
  destruct (_ =? 0); [apply wp_ret; auto|]. apply wp_bind.
  eapply wp_mono; [|apply (counting_loop fuel body s); [done|done|destruct Hs1; simpl in *; lia]].
  intros [] s' Hs'. apply wp_ret. auto.
Qed.

Lemma count_packet_ok (r : areply F) i x p s :
  FpmDirectProofs.entries r !! Z.to_nat i = Some x →
  wp (count_packet r i) (λ _ s', tally s (x :: p) s' p) s.
Proof.
  intros Hx. apply wp_bind. eapply FpmDirectProofs.wp_entry; [exact Hx|].
  apply wp_bind, wp_callv. intros r1 w1 E1. pose proof (budget_le _ _ _ _ E1) as Hb1.
  apply wp_bind, wp_setg, wp_call_. intros r2 w2 E2. pose proof (budget_le _ _ _ _ E2) as Hb2.
  cbn [world] in *. split; [simpl in *; lia|]. exists [(A_packet_len x, r1); (A_packet_free x, r2)].
  cbn [trace glob after]. split_and!; [by rewrite <- app_assoc|cbn; by rewrite app_nil_r|done|..]; cbn.
  - by rewrite bytes_counted, wrap_wrap, Z.add_0_r.
  - by rewrite pkts_counted, wrap_wrap.
Qed.

Lemma channel_body chn s :
  wp (r ← call (A_channel_recv chn CHANNEL_RECV_MAX);
      when (0 <? r_val r) (for_from 0 (Z.to_nat (r_val r)) (count_packet r));; mret (inl ()) : M st (unit + unit))
    (λ _ s', tally s [] s' []) s.
Proof using ChannelLaws0.
  apply wp_bind, wp_call. intros r w E. pose proof (channel_table _ _ _ _ _ E) as Htab.
  pose proof (FpmDirectProofs.length_entries r Htab) as Hlen.
  assert (Hs : tally s [] (after s (A_channel_recv chn CHANNEL_RECV_MAX) r w) (FpmDirectProofs.entries r)).
  { by apply tally_after. }
  set (s1 := after s _ r w) in *. apply wp_bind. destruct (Z.ltb_spec 0 (r_val r)); cbn [when].
  - eapply wp_mono; [|apply (wp_for_from _ (λ i s', tally s [] s' (drop (Z.to_nat i) (FpmDirectProofs.entries r))))].
    + intros [] s2 Hs2. apply wp_ret. rewrite drop_ge in Hs2 by lia. done.
    + by rewrite drop_0.
    + intros i s2 Hi Hs2.
      destruct (lookup_lt_is_Some_2 (FpmDirectProofs.entries r) (Z.to_nat i)) as [x Hx]; [lia|].
      rewrite (drop_S _ _ _ Hx) in Hs2. eapply wp_mono; [|by apply (count_packet_ok r i x (drop (S (Z.to_nat i)) (FpmDirectProofs.entries r)))].
      intros [] s3 Hs3. replace (Z.to_nat (i + 1)) with (S (Z.to_nat i)) by lia. by eapply tally_trans.
  - apply wp_ret, wp_ret. destruct (FpmDirectProofs.entries r); [done|simpl in Hlen; lia].
Qed.
End Counting.

Section Termination.
Context {W F : Type} `{!App W F, !SocketLaws W F, !ChannelLaws W F}.
Local Abbreviation st := (app W F term_t).
Implicit Types (s : st).

Lemma posix_body sd s :
  wp (recv ← callv (A_recv sd TERMINATION_BUFF_SIZE 0);
      when (0 <? recv) (setg (count recv));; mret (inl ()) : M st (unit + unit))
    (λ _ s', tally (Z.ltb 0) s [] s' []) s.
Proof.
  apply wp_bind, wp_callv. intros r w E.
  pose proof (tally_call (Z.ltb 0) s (A_recv sd TERMINATION_BUFF_SIZE 0) r w [] [] E eq_refl eq_refl) as H.
  unfold sizes_by in H. cbn [fst snd] in H. apply wp_bind.
  destruct (0 <? r_val r); cbn [when]; [apply wp_setg|apply wp_ret]; apply wp_ret; apply H; simpl; lia.
Qed.

(** [C17] A thread that terminates traffic, by socket or by channel, ends when
    the outside stops answering "again".  Up to then [received_pkt_total] grew
    by the number of datagrams received and [received_total] by their lengths,
    both modulo 2^64.  Every packet taken from the channel was asked for its
    length and freed, each once and in order, so that what is counted for a
    channel are the lengths of exactly the packets taken. *)
Theorem termination_counts_traffic (posix : bool) fuel x s :
  (budget (world s) < fuel)%nat →
  ∃ rc s' t, (if posix then termination_posix fuel x s else termination_channel fuel x s) = (Ret rc, s') ∧
    (rc = 0 ∨ rc = -1) ∧ trace s' = trace s ++ t ∧ measured t = taken t ∧ freed t = taken t ∧
    u64 (received_total (glob s')) = u64 (received_total (glob s) + sum (sizes t)) ∧
    u64 (received_pkt_total (glob s')) = u64 (received_pkt_total (glob s) + Z.of_nat (length (sizes t))).
Proof using ChannelLaws0 SocketLaws0.
  intros Hfuel.
  assert (Hgoal : ∀ c : M st Z, wp c (λ rc s', (rc = 0 ∨ rc = -1) ∧ tally (Z.ltb 0) s [] s' []) s →
    ∃ rc s' t, c s = (Ret rc, s') ∧ (rc = 0 ∨ rc = -1) ∧ trace s' = trace s ++ t ∧ measured t = taken t ∧ freed t = taken t ∧
      u64 (received_total (glob s')) = u64 (received_total (glob s) + sum (sizes t)) ∧
      u64 (received_pkt_total (glob s')) = u64 (received_pkt_total (glob s) + Z.of_nat (length (sizes t)))).
  { intros c (rc & s' & Hrun & Hrc & _ & t & Ht & Hf & Hm & Hr & Hn). exists rc, s', t.
    rewrite app_nil_r in Hf. split_and!; try done. by rewrite Hm. }
  destruct posix; [apply (Hgoal (termination_posix fuel x))|apply (Hgoal (termination_channel fuel x))].
  - apply (counting_thread (Z.ltb 0) fuel (λ _, recv ← callv (A_recv x TERMINATION_BUFF_SIZE 0);
      when (0 <? recv) (setg (count recv));; mret (inl ()))); [|done]. apply posix_body.
  - apply (counting_thread (Z.ltb 0) fuel (λ _, r ← call (A_channel_recv x CHANNEL_RECV_MAX);
      when (0 <? r_val r) (for_from 0 (Z.to_nat (r_val r)) (count_packet r));; mret (inl ()))); [|done].
    apply channel_body.
Qed.
End Termination.

(** ** The callback *)

(** Packets as ODP documents them: [data] is the data of a packet; [l4] is where
    its UDP header is; a pull that is longer than the packet changes nothing. *)
Class TrimLaws (W F : Type) `{!App W F} := {
  data : W → Z → bytes;
  l4 : W → Z → Z;
  l4_law pkt w r w' :
    api (A_packet_l4 pkt : acall F) w = (r, w') →
    data w' pkt = data w pkt ∧ r_out r = l4 w pkt ∧ r_data r = drop (Z.to_nat (l4 w pkt)) (data w pkt);
  len_law pkt w r w' :
    api (A_packet_len pkt : acall F) w = (r, w') →
    data w' pkt = data w pkt ∧ r_val r = Z.of_nat (length (data w pkt));
  pull_head_law pkt n w r w' :
    api (A_packet_pull_head pkt n : acall F) w = (r, w') → 0 ≤ n ≤ Z.of_nat (length (data w pkt)) →
    data w' pkt = drop (Z.to_nat n) (data w pkt);
  pull_tail_law pkt n w r w' :
    api (A_packet_pull_tail pkt n : acall F) w = (r, w') → 0 ≤ n ≤ Z.of_nat (length (data w pkt)) →
    data w' pkt = take (length (data w pkt) - Z.to_nat n) (data w pkt);
}.

Section Trim.
Context {W F : Type} `{!App W F, !TrimLaws W F}.
Implicit Types (s : app W F term_t).

(** A UDP datagram of length [n] starts at [off], within the packet. *)
Definition datagram_at (l : bytes) (off n : Z) : Prop :=
  0 ≤ off ∧ sizeof_udphdr ≤ n < 2 ^ 16 ∧ off + n ≤ Z.of_nat (length l) < 2 ^ 32 ∧
  ∃ hi lo, l !! Z.to_nat (off + 4) = Some hi ∧ l !! Z.to_nat (off + 5) = Some lo ∧ n = hi * 256 + lo.

(** Its payload. *)
Definition payload_at (l : bytes) (off n : Z) : bytes :=
  take (Z.to_nat (n - sizeof_udphdr)) (drop (Z.to_nat (off + sizeof_udphdr)) l).

(** The calls that cut packet [pkt]. *)
Definition cutting (pkt : Z) (c : acall F) : Prop :=
  match c with
  | A_packet_l4 p | A_packet_len p | A_packet_pull_head p _ | A_packet_pull_tail p _ => p = pkt
  | _ => False
  end.

Lemma trim_ok {G} pkt n (s : app W F G) :
  datagram_at (data (world s) pkt) (l4 (world s) pkt) n →
  wp (trim pkt) (λ _ (s' : app W F G), glob s' = glob s ∧
    data (world s') pkt = payload_at (data (world s) pkt) (l4 (world s) pkt) n ∧
    ∃ t, trace s' = trace s ++ t ∧ Forall (λ e : event F, cutting pkt e.1) t) s.
Proof.
  intros (H0 & Hn & Hfit & hi & lo & Hhi & Hlo & Hlen). unfold payload_at, sizeof_udphdr in *.
  apply wp_bind, wp_call. intros r1 w1 E1. destruct (l4_law _ _ _ _ E1) as (Hd1 & Ho1 & Hb1).
  apply wp_bind. unfold udp_size. rewrite Hb1, Ho1. apply wp_bind.
  eapply wp_of_option; [rewrite lookup_drop, <- Hhi; f_equal; lia|]. apply wp_bind.
  eapply wp_of_option; [rewrite lookup_drop, <- Hlo; f_equal; lia|]. apply wp_ret.
  unfold sizeof_udphdr. rewrite <- Hlen, (wrap_small 16), (wrap_small 32) by (unfold in_uint; lia).
  apply wp_bind, wp_call_. intros r2 w2 E2. pose proof (pull_head_law _ _ _ _ _ E2) as Hd2. cbn [world after] in *.
  rewrite Hd1 in Hd2. specialize (Hd2 ltac:(lia)).
  apply wp_bind, wp_callv. intros r3 w3 E3. destruct (len_law _ _ _ _ E3) as (Hd3 & Hl3). cbn [world after] in *.
  rewrite Hd2 in Hd3, Hl3. rewrite length_drop in Hl3. rewrite Hl3, (wrap_small 32) by (unfold in_uint; lia).
  apply wp_call_. intros r4 w4 E4. pose proof (pull_tail_law _ _ _ _ _ E4) as Hd4. cbn [world after] in *.
  rewrite Hd3, length_drop in Hd4. specialize (Hd4 ltac:(lia)). split; [done|]. split; [rewrite Hd4; f_equal; lia|].
  eexists. split; [cbn [trace after]; by rewrite <- !app_assoc|]. by repeat constructor.
Qed.

End Trim.

(** ** Witnesses *)

#[global] Instance demo_channels : ChannelLaws demo (gset Z).
Proof. intros chn n w r w' E. injection E as <- _. done. Qed.

(** One packet, cut as it is told. *)
Definition cut_api (c : acall (gset Z)) (l : bytes) : areply (gset Z) * bytes :=
  match c with
  | A_packet_l4 _ => (Reply 1 0 4 0 (drop 4 l) ∅ [], l)
  | A_packet_len _ => (rep (Z.of_nat (length l)) [] ∅, l)
  | A_packet_pull_head _ n => (rep 1 [] ∅, drop (Z.to_nat n) l)
  | A_packet_pull_tail _ n => (rep 1 [] ∅, take (length l - Z.to_nat n) l)
  | _ => (rep 1 [] ∅, l)
  end.

#[global] Instance cut_app : App bytes (gset Z) := {
  api := cut_api;
  NFP_FD_ZERO := ∅;
  NFP_FD_SET fd x := {[fd]} ∪ x;
  NFP_FD_CLR fd x := x ∖ {[fd]};
  NFP_FD_ISSET fd x := bool_decide (fd ∈ x);
}.

#[global] Program Instance cut_laws : TrimLaws bytes (gset Z) := {
  data l _ := l;
  l4 _ _ := 4;
}.
Next Obligation. by intros pkt w r w' [= <- <-]. Qed.
Next Obligation. by intros pkt w r w' [= <- <-]. Qed.
Next Obligation. by intros pkt n w r w' [= <- <-]. Qed.
Next Obligation. by intros pkt n w r w' [= <- <-]. Qed.

Definition demo_count : app demo (gset Z) term_t :=
  MkApp (Demo 3 3) 0 [] (MkTerm FpmDirectStart.demo_memory (ApplArgs 0 None None 0 0 false) 0 0).

Lemma termination_counts_traffic_witness :
  ∃ rc s' t, termination_posix 10 5 demo_count = (Ret rc, s') ∧
    (rc = 0 ∨ rc = -1) ∧ trace s' = trace demo_count ++ t ∧ measured t = taken t ∧ freed t = taken t ∧
    u64 (received_total (glob s')) = u64 (0 + sum (sizes t)) ∧
    u64 (received_pkt_total (glob s')) = u64 (0 + Z.of_nat (length (sizes t))).
Proof. apply (termination_counts_traffic (W := demo) (F := gset Z) true 10 5 demo_count). simpl. lia. Defined.

(** A header of four bytes, the UDP header of a payload of three bytes, the
    payload, and two bytes of padding. *)
Definition demo_datagram : app bytes (gset Z) term_t :=
  MkApp ([1; 2; 3; 4] ++ [0; 9; 19; 137; 0; 11; 0; 0] ++ text "abc" ++ [0; 0]) 0 []
    (MkTerm FpmDirectStart.demo_memory (ApplArgs 0 None None 0 0 false) 0 0).


End UdpTermProofs.
