(* ===== verification/UdpTermStart.v ===== *)
(** * UDP termination: start and end

    The command line and [main] of example/udp_term_socket/app_main.c. *)

From S2P Require Import Prelude App AppProofs AppHeap Resources HttpdTheorems CliArgParse CliArgParseProofs ArgHeap ArgOptions TcpPerfProofs TcpPerfTheorems Httpd Httpd2 FpmDirect FpmDirectProofs FpmDirectStart UdpFwd UdpFwdProofs UdpFwdStart DefaultApp DefaultAppProofs DefaultAppStart UdpTerm UdpTermProofs.
Import App AppProofs AppHeap Resources HttpdTheorems ArgHeap ArgOptions TcpPerfProofs TcpPerfTheorems UdpTerm.
Import DefaultAppProofs(calm, calm_keeps).

Module UdpTermStart.

(** ** Command line *)

Definition slots (a : appl_args_t) : list (Z * option positive) := [(102, cli_file a); (108, laddr a)].
Local Abbreviation parsed := (ArgOptions.parsed slots (λ _, True)).
Local Abbreviation result := (ArgOptions.result slots (λ _, True)).
Local Abbreviation opt_ok := (DefaultAppStart.opt_ok [99; 102; 105; 108; 109; 112]).

(** After [-h]: the interfaces are released. *)
Definition quit (b0 : memory) (c : Z) (h : CliArgParse.state) : Prop := c = EXIT_SUCCESS ∧ spare 2 b0 h.

Lemma number_option_ok b0 fuel arg ps h least (Q : option Z → CliArgParse.state → Prop) :
  holds b0 ps h → arg_ok b0 fuel arg → (∀ n, Q n h) → wp (number_option least arg) Q h.
Proof.
  intros Hh Hok HQ. apply wp_bind. eapply strlen_ok; [done..|]. intros len.
  destruct (len =? 0); [by apply wp_ret|]. apply wp_bind. eapply (atoi_ok b0 fuel arg); [done..|]. intros t Ht.
  destruct (_ <? _); by apply wp_ret.
Qed.

Lemma term_option_ok b0 fuel o a h :
  parsed b0 a h → opt_ok b0 fuel o → unset slots a h o.1 →
  ends (parse_option fuel o a) (result b0 o.1 a h) (quit b0) h.
Proof.
  intros Hp Hok Hun. unfold parse_option. destruct o as [c arg]. cbn [fst snd] in *. pose proof Hp as [Hh _].
  assert (Hsame : ∀ a' rc, slots a' = slots a → rc = 0 ∨ rc = -1 → result b0 c a h (rc, a') h).
  { intros a' rc Hs Hrc. by apply plain_option. }
  destruct (Z.eqb_spec c 99) as [->|].
  { apply ends_wp, wp_bind. eapply (atoi_ok b0 fuel arg); [done|apply Hok; set_solver|]. intros t Ht.
    apply wp_ret, Hsame; auto. }
  destruct (Z.eqb_spec c 105) as [->|]; [apply ends_wp, interfaces_option_ok; [done|apply Hok; set_solver|done]|].
  destruct (Z.eqb_spec c 104) as [->|].
  { apply ends_bind, ends_wp. eapply wp_mono; [|by eapply cleanup_kept, (ArgOptions.options_kept _ _ _ a)].
    intros [] h' Hc. by apply ends_exit. }
  destruct (Z.eqb_spec c 102) as [->|].
  { apply ends_wp. eapply copy_option_ok; [done|apply Hok; set_solver|done| |done].
    by exists [], (cli_file a), [(108, laddr a)]. }
  destruct (Z.eqb_spec c 108) as [->|].
  { apply ends_wp. eapply copy_option_ok; [done|apply Hok; set_solver|done| |done].
    by exists [(102, cli_file a)], (laddr a), []. }
  destruct (Z.eqb_spec c 112) as [->|].
  { apply ends_wp, wp_bind. eapply number_option_ok; [done|apply Hok; set_solver|].
    intros [?|]; apply wp_ret, Hsame; auto. }
  destruct (Z.eqb_spec c 109) as [->|].
  { apply ends_wp, wp_bind. eapply number_option_ok; [done|apply Hok; set_solver|].
    intros [?|]; apply wp_ret, Hsame; auto. destruct (_ <=? _); auto. }
  destruct (Z.eqb_spec c 103) as [->|]; apply ends_wp, wp_ret, Hsame; auto.
Qed.

(** What a command line that is accepted gives. *)
Definition accepted (b0 : memory) (a : appl_args_t) (h : CliArgParse.state) : Prop :=
  parsed b0 a h ∧ 1 ≤ CliArgParse.if_count h ≤ NFP_FP_INTERFACE_MAX.

Lemma term_args_ok b0 fuel opts h :
  ready b0 h → Forall (opt_ok b0 fuel) opts → NoDup opts.*1 →
  ends (parse_args fuel opts) (λ p h', p.1 = EXIT_SUCCESS ∧ accepted b0 p.2 h' ∨
    p.1 = EXIT_FAILURE ∧ spare 2 b0 h') (quit b0) h.
Proof.
  intros Hr Hok Hnd. unfold parse_args.
  eapply (read_options_ok slots (λ _, True) b0 (parse_option fuel) (opt_ok b0 fuel));
    [|done|by repeat constructor|done..|].
  { intros. by apply term_option_ok. }
  intros [rc a] h' _ Hp. cbn [fst snd] in *. apply ends_wp.
  assert (Hfail : wp (parse_args_cleanup;; mret (EXIT_FAILURE, a)) (λ p h',
    p.1 = EXIT_SUCCESS ∧ accepted b0 p.2 h' ∨ p.1 = EXIT_FAILURE ∧ spare 2 b0 h') h').
  { apply wp_bind. eapply wp_mono; [|by eapply cleanup_kept, (ArgOptions.options_kept _ _ _ a)].
    intros [] h2 Hc. apply wp_ret. by right. }
  destruct (rc =? -1); [done|]. apply wp_bind, wp_gets. pose proof (holds_count _ _ _ (proj1 Hp)) as Hnn.
  destruct (Z.eqb_spec (CliArgParse.if_count h') 0); [done|].
  destruct (Z.ltb_spec NFP_FP_INTERFACE_MAX (CliArgParse.if_count h')); [done|].
  case_bool_decide; [done|]. apply wp_ret. left. split; [done|]. split; [done|lia].
Qed.

(** ** Channels *)

(** The channels created and not destroyed. *)
Definition chan_step {F} (o : gset Z) (e : event F) : gset Z :=
  match e.1 with
  | A_channel_create => if r_val e.2 =? NFP_CHANNEL_INVALID then o else {[r_val e.2]} ∪ o
  | A_channel_destroy c => o ∖ {[c]}
  | _ => o
  end.
Definition channels {F} (tr : list (event F)) : gset Z := foldl chan_step ∅ tr.

Lemma channels_snoc {F} (tr : list (event F)) e : channels (tr ++ [e]) = chan_step (channels tr) e.
Proof. unfold channels. by rewrite foldl_app. Qed.

Definition chan_call {F} (c : acall F) : bool :=
  match c with A_channel_create | A_channel_destroy _ => true | _ => false end.

Section Frames.
Context {W F : Type} `{!App W F, !SocketLaws W F}.
Local Abbreviation st := (app W F term_t).
Implicit Types (s : st).

Definition same_channels s s' : Prop := channels (trace s') = channels (trace s).

#[export] Instance same_channels_preorder : PreOrder same_channels.
Proof. unfold same_channels. split; [by intros s|]. intros s1 s2 s3. congruence. Qed.

Lemma channels_after s c r w : chan_call c = false → same_channels s (after s c r w).
Proof. intros Hc. unfold same_channels. simpl. rewrite channels_snoc. by destruct c. Qed.

Lemma channels_call c : chan_call c = false → keeps same_channels (call c : M st _).
Proof.
  intros Hc s a s' H. unfold call in H. destruct (api c (world s)) as [r w]. injection H as <- <-. by apply channels_after.
Qed.
Lemma channels_callv c : chan_call c = false → keeps same_channels (callv c : M st Z).
Proof. intros. apply keeps_bind; [apply _|by apply channels_call|intros; apply keeps_ret, _]. Qed.
Lemma channels_call_ c : chan_call c = false → keeps same_channels (call_ c : M st unit).
Proof. intros. apply keeps_bind; [apply _|by apply channels_call|intros; apply keeps_ret, _]. Qed.
Lemma channels_getg {A} (f : term_t → A) : keeps same_channels (getg f : M st A).
Proof. apply keeps_gets, _. Qed.
Lemma channels_on_heap {A} (c : M CliArgParse.state A) : keeps same_channels (on_heap c : M st A).
Proof.
  intros s a s' H. unfold on_heap in H. destruct (c (heap_of (glob s))) as [o h]. by injection H as -> <-.
Qed.
Hint Resolve channels_getg channels_on_heap : keeps.
Lemma channels_arg p : keeps same_channels (arg_string p : M st _).
Proof. destruct p; simpl; frame. Qed.
Hint Resolve channels_arg : keeps.
Hint Extern 1 (keeps same_channels (call _)) => apply channels_call; reflexivity : keeps.
Hint Extern 1 (keeps same_channels (callv _)) => apply channels_callv; reflexivity : keeps.
Hint Extern 1 (keeps same_channels (call_ _)) => apply channels_call_; reflexivity : keeps.

(** Steps that touch nothing that [main] has to give back. *)
Definition quiet s s' : Prop := calm s s' ∧ same_channels s s'.

#[export] Instance quiet_preorder : PreOrder quiet.
Proof. split; [by intros s|]. intros s1 s2 s3 [? ?] [? ?]. split; by etrans. Qed.

Lemma quiet_keeps {A} (c : M st A) :
  keeps (Resources.neutral (λ g : term_t, g)) c → keeps idle c → keeps same_channels c → keeps quiet c.
Proof. intros Hn Hi Hc s a s' H. split; [by eapply calm_keeps|by eapply Hc]. Qed.

Lemma quiet_call c :
  neutral_call c = true → idle_call c = true → chan_call c = false → keeps quiet (call c : M st _).
Proof. intros. apply quiet_keeps; [by apply neutral_call_keeps|by apply idle_call_keeps|by apply channels_call]. Qed.
Lemma quiet_callv c :
  neutral_call c = true → idle_call c = true → chan_call c = false → keeps quiet (callv c : M st Z).
Proof. intros. apply quiet_keeps; [by apply neutral_callv|by apply idle_callv|by apply channels_callv]. Qed.
Lemma quiet_call_ c :
  neutral_call c = true → idle_call c = true → chan_call c = false → keeps quiet (call_ c : M st unit).
Proof. intros. apply quiet_keeps; [by apply neutral_call_|by apply idle_call_|by apply channels_call_]. Qed.
Lemma quiet_arg p : keeps quiet (arg_string p : M st _).
Proof. apply quiet_keeps; frame. Qed.
Lemma quiet_name i : keeps quiet (FpmDirect.interface_name i : M st _).
Proof. apply quiet_keeps; unfold FpmDirect.interface_name; frame. Qed.
Lemma quiet_addresses ids : keeps quiet (configure_interface_addresses ids : M st _).
Proof.
  apply quiet_keeps; unfold configure_interface_addresses, FpmDirect.configure_interface_addresses, FpmDirect.if_count; frame.
Qed.
Lemma quiet_signals : keeps quiet (FpmDirect.nfpexpl_sigaction_set : M st Z).
Proof. apply quiet_keeps; unfold FpmDirect.nfpexpl_sigaction_set, FpmDirect.linux_sigaction; frame. Qed.
Lemma quiet_stats fuel : keeps quiet (print_global_stats fuel : M st unit).
Proof. apply quiet_keeps; unfold print_global_stats, stats_step, load; frame. Qed.
End Frames.

(** The main thread reports until it is told to stop. *)
Lemma stats_run {W F G} `{!App W F, !SocketLaws W F} fuel (s : app W F G) :
  (budget (world s) < fuel)%nat → wp (print_global_stats fuel) (λ _ _, True) s.
Proof.
  intros Hfuel. apply wp_bind, wp_callv. intros r w E. pose proof (budget_le _ _ _ _ E) as Hb.
  destruct (_ =? 0); [by apply wp_ret|].
  eapply (wp_loop _ (λ _ _, True) (λ _ s', budget (world s'))); [|done|simpl; lia].
  intros [[idx lt] lp] s1 _. apply wp_bind, wp_callv. intros r1 w1 E1. destruct (Z.eqb_spec (r_val r1) 0); [by apply wp_ret|].
  pose proof (budget_lt _ _ _ _ E1) as H1. unfold again in H1. cbn [fst snd] in H1.
  rewrite (proj2 (Z.eqb_neq _ _)) in H1 by done. specialize (H1 eq_refl).
  apply wp_bind, wp_call_. intros r2 w2 E2. pose proof (budget_le _ _ _ _ E2) as H2. cbn [world after] in *.
  destruct (_ <? 10); [apply wp_ret; split; [done|simpl in *; lia]|].
  apply wp_bind, wp_callv. intros r3 w3 E3. pose proof (budget_le _ _ _ _ E3) as H3.
  apply wp_bind, wp_callv. intros r4 w4 E4. pose proof (budget_le _ _ _ _ E4) as H4.
  apply wp_bind, wp_call_. intros r5 w5 E5. pose proof (budget_le _ _ _ _ E5) as H5.
  apply wp_bind, wp_callv. intros r6 w6 E6. pose proof (budget_le _ _ _ _ E6) as H6.
  apply wp_bind, wp_callv. intros r7 w7 E7. pose proof (budget_le _ _ _ _ E7) as H7.
  apply wp_ret. split; [done|]. simpl in *. lia.
Qed.

(** ** [main] *)

Section Main.
Context {W F : Type} `{!App W F, !SocketLaws W F}.
Context (b0 : memory) (o0 : gset Z) (fuel : nat).
Local Abbreviation st := (app W F term_t).
Implicit Types (s : st).
Local Abbreviation fine live := (AppProofs.fine any o0 live fuel).

Context (s0 : st) (g : term_t).

(** Since [s0], the local address could not be parsed. *)
Definition bad_address s : Prop :=
  ∃ t1 l r t2, trace s = trace s0 ++ t1 ++ (A_parse_ip_addr l, r) :: t2 ∧ r_val r ≠ 1.

Lemma bad_address_app s s' t : bad_address s → trace s' = trace s ++ t → bad_address s'.
Proof.
  intros (t1 & l & r & t2 & Hs & Hr) Ht. exists t1, l, r, (t2 ++ t). split; [|done].
  rewrite Ht, Hs, <- app_assoc. by simplify_list_eq.
Qed.

(** With the globals [g], the stack, exactly [n] threads, the descriptors
    [live] and the channels [C]. *)
Definition stage (n : nat) (live C : gset Z) (bad : bool) s : Prop :=
  moves s0 [] s (replicate n R_thread ++ [R_nfp]) ∧ fine live s ∧ glob s = g ∧ channels (trace s) = C ∧
  (bad = true → bad_address s).

Lemma bad_moves (bad : bool) s rs s' rs' :
  (bad = true → bad_address s) → moves s rs s' rs' → bad = true → bad_address s'.
Proof. intros Hb (t & Ht & _) ?. by eapply bad_address_app; [apply Hb|]. Qed.

Lemma stage_quiet n live C bad s s' : stage n live C bad s → quiet s s' → stage n live C bad s'.
Proof.
  intros (Hm & Hf & Hg & Hc & Hb) [[Hn Hi] Hs]. destruct Hn as (_ & Hgl & Hm'). split_and!.
  - by eapply moves_trans.
  - by apply Hi.
  - by rewrite Hgl.
  - by rewrite Hs.
  - by eapply (bad_moves bad s [] s' []).
Qed.

Lemma wp_quiet {A B} (c : M st A) (f : A → M st B) (R : A → Prop) Q n live C bad s :
  stage n live C bad s → keeps quiet c → wp c (λ a _, R a) s →
  (∀ a s', R a → stage n live C bad s' → wp (f a) Q s') → wp (c ≫= f) Q s.
Proof.
  intros Hs Hk Hw Hf. apply wp_bind. eapply wp_mono; [|by apply wp_keeps; [exact Hk|exact Hw]].
  intros a s' [Ha Hq]. apply Hf; [done|]. by eapply stage_quiet.
Qed.

(** A call that changes the threads. *)
Lemma stage_call n live C bad s c r w n' :
  stage n live C bad s → api c (world s) = (r, w) → idle_call c = true → chan_call c = false →
  hold (replicate n R_thread ++ [R_nfp]) (c, r) = Some (replicate n' R_thread ++ [R_nfp]) →
  stage n' live C bad (after s c r w).
Proof.
  intros (Hm & Hf & Hg & Hc & Hb) E Hi Hch Hh. pose proof (moves_after s _ c r w _ Hh) as Hm'.
  split_and!; [by eapply moves_trans|by apply (idle_after s c r w)|done| |by eapply bad_moves].
  by rewrite (channels_after s c r w Hch).
Qed.

Lemma term_join {B} n live C bad s m (k : M st B) Q :
  stage n live C bad s → (∀ s', stage (n - Z.to_nat m) live C bad s' → wp k Q s') →
  wp (call_ (A_thread_join m);; k) Q s.
Proof.
  intros Hs Hk. apply wp_bind, wp_call_. intros r w E. apply Hk. eapply stage_call; [exact Hs|done..|].
  unfold hold. cbn [fst snd]. by rewrite join_replicate.
Qed.

Lemma term_create {B} n live C bad s f i (k : Z → M st B) Q :
  stage n live C bad s →
  (∀ rc s', stage (if rc =? 1 then S n else n) live C bad s' → wp (k rc) Q s') →
  wp (rc ← callv (A_thread_create f i); k rc) Q s.
Proof.
  intros Hs Hk. apply wp_bind, wp_callv. intros r w E. apply Hk. eapply stage_call; [exact Hs|done..|].
  unfold hold. cbn [fst snd]. by destruct (r_val r =? 1).
Qed.

Lemma stage_stop {B} n live C bad s (k : M st B) Q :
  stage n live C bad s → (∀ s', stage n live C bad s' → wp k Q s') → wp (call_ A_stop_processing;; k) Q s.
Proof. intros Hs Hk. eapply wp_quiet; [exact Hs|by apply quiet_call_|apply any_call_|]. auto. Qed.

(** ** The end *)

Context (kept_g : kept 2 b0 (heap g)).

(** The threads that are left when the channel could not be created. *)
Definition abandoned s : Prop :=
  ∃ t r r' k, trace s = trace s0 ++ t ++ [(A_channel_create, r); (A_terminate, r')] ∧
    r_val r = NFP_CHANNEL_INVALID ∧ held [] t = Some (replicate (S k) R_thread ++ [R_nfp]).

Definition over s : Prop :=
  spare 2 b0 (heap (glob s)) ∧ channels (trace s) ⊆ channels (trace s0) ∧
  (fine o0 s ∨ bad_address s ∧ ∃ fd, (fd ∉ o0) ∧ fine ({[fd]} ∪ o0) s) ∧
  (moves s0 [] s [] ∨ abandoned s).

Lemma socket_cleanup_ok sd n live C bad s :
  stage n live C bad s → (sd ≠ -1 → sd ∈ live) →
  wp (udp_socket_cleanup sd) (λ _ s', stage n (if sd =? -1 then live else live ∖ {[sd]}) C bad s' ∧
    (sd = -1 → s' = s)) s.
Proof.
  intros Hs Hin. unfold udp_socket_cleanup. destruct (Z.eqb_spec sd (-1)); [by apply wp_ret|].
  apply wp_callv. intros r w E. split; [|done]. destruct Hs as (Hm & Hf & Hg & Hc & Hb).
  destruct (fine_close _ _ _ _ _ _ _ _ any_lenient Hf (Hin ltac:(done)) E) as [Hf1 _].
  assert (Hm' : moves s (replicate n R_thread ++ [R_nfp]) (after s (A_close sd) r w) (replicate n R_thread ++ [R_nfp]))
    by (by apply moves_after).
  split_and!; [by eapply moves_trans|done|done|by rewrite channels_after|by eapply bad_moves].
Qed.

Lemma channel_cleanup_ok chn n live C bad s :
  stage n live C bad s →
  wp (udp_channel_cleanup chn) (λ _ s', stage n live (if chn =? NFP_CHANNEL_INVALID then C else C ∖ {[chn]}) bad s' ∧
    (chn = NFP_CHANNEL_INVALID → s' = s)) s.
Proof.
  intros Hs. unfold udp_channel_cleanup. destruct (Z.eqb_spec chn NFP_CHANNEL_INVALID); [by apply wp_ret|].
  apply wp_callv. intros r w E. split; [|done]. destruct Hs as (Hm & Hf & Hg & Hc & Hb).
  assert (Hm' : moves s (replicate n R_thread ++ [R_nfp]) (after s (A_channel_destroy chn) r w)
    (replicate n R_thread ++ [R_nfp])) by (by apply moves_after).
  split_and!; [by eapply moves_trans|by apply (idle_after s (A_channel_destroy chn) r w)|done| |by eapply bad_moves].
  simpl. by rewrite channels_snoc, Hc.
Qed.

Lemma term_finish_ok sd chn n live C bad s :
  stage n live C bad s → (sd ≠ -1 → sd ∈ live) →
  wp (finish sd chn) (λ rc s', rc = 0 ∧ spare 2 b0 (heap (glob s')) ∧
    fine (if sd =? -1 then live else live ∖ {[sd]}) s' ∧
    channels (trace s') = (if chn =? NFP_CHANNEL_INVALID then C else C ∖ {[chn]}) ∧
    (bad = true → bad_address s') ∧
    ∃ s1 r, moves s0 [] s1 (replicate n R_thread ++ [R_nfp]) ∧ trace s' = trace s1 ++ [(A_terminate, r)] ∧
      (sd = -1 → chn = NFP_CHANNEL_INVALID → s1 = s)) s.
Proof using kept_g SocketLaws0.
  intros Hs Hin. apply wp_bind. eapply wp_mono; [|by apply socket_cleanup_ok]. intros _ s1 [Hs1 He1].
  apply wp_bind. eapply wp_mono; [|by apply channel_cleanup_ok]. intros _ s2 [Hs2 He2].
  destruct Hs2 as (Hm & Hf & Hg & Hc & Hb). apply wp_bind, wp_call_. intros r w E. apply wp_bind.
  eapply wp_mono; [|apply (release_ok 2 b0); cbn; by rewrite Hg]. intros [] s4 (Ht & Hw & Hsp). apply wp_ret.
  cbn [trace after] in Ht. split_and!; [done|done| | | |].
  - apply (idle_same (after s2 A_terminate r w)); [done|done|]. by apply (idle_after s2 A_terminate r w).
  - by rewrite Ht, channels_snoc.
  - intros Hbad. by eapply bad_address_app; [apply Hb|].
  - exists s2, r. split_and!; [done|done|]. intros Hsd Hch. by rewrite He2, He1.
Qed.

(** When all threads have been joined. *)
Lemma term_end_ok sd chn live C bad s :
  stage 0 live C bad s → (sd ≠ -1 → live = {[sd]} ∪ o0 ∧ (sd ∉ o0)) →
  (sd = -1 → live = o0 ∨ bad = true ∧ ∃ fd, (fd ∉ o0) ∧ live = {[fd]} ∪ o0) →
  C ⊆ {[chn]} ∪ channels (trace s0) → (chn = NFP_CHANNEL_INVALID → C ⊆ channels (trace s0)) →
  wp (finish sd chn) (λ rc s', rc = 0 ∧ over s') s.
Proof using kept_g SocketLaws0.
  intros Hs Hin Hno HC HC0. eapply wp_mono; [|apply (term_finish_ok sd chn 0 live C bad s Hs)].
  2: { intros Hne. destruct (Hin Hne) as [-> _]. set_solver. }
  intros rc s' (-> & Hsp & Hf & Hch & Hb & s1 & r & Hm & Ht & _). split; [done|]. split_and!; [done| | |left].
  - rewrite Hch. destruct (Z.eqb_spec chn NFP_CHANNEL_INVALID); [auto|set_solver].
  - destruct (Z.eqb_spec sd (-1)) as [Hsd|Hsd].
    + destruct (Hno Hsd) as [-> |[Hbad (fd & Hfd & ->)]]; [by left|right]. split; [by apply Hb|]. by exists fd.
    + destruct (Hin Hsd) as [-> Hsd']. left. replace (({[sd]} ∪ o0) ∖ {[sd]}) with o0 in Hf; [done|]. set_solver.
  - eapply moves_trans; [exact Hm|]. exists [(A_terminate, r)]. by rewrite Ht.
Qed.
(** ** The socket *)

Context (SocketValue0 : DefaultAppStart.SocketValue W F).

(** A call on descriptors of the program. *)
Lemma stage_plain n live C bad s c r w :
  stage n live C bad s → api c (world s) = (r, w) → plain c = true → neutral_call c = true → chan_call c = false →
  (∀ fd, uses c = Some fd → fd ∈ live) → stage n live C bad (after s c r w).
Proof.
  intros (Hm & Hf & Hg & Hc & Hb) E Hp Hn Hch Hu. pose proof (neutral_after (λ g, g) s c r w E Hn) as (_ & _ & Hm').
  split_and!; [by eapply moves_trans|by apply plain_call|done| |by eapply (bad_moves bad s [] _ [])].
  by rewrite (channels_after s c r w Hch).
Qed.

Lemma stage_close {B} n C bad s x (k : M st B) Q :
  stage n ({[x]} ∪ o0) C bad s → (x ∉ o0) → (∀ s', stage n o0 C bad s' → wp k Q s') →
  wp (call_ (A_close x);; k) Q s.
Proof using SocketLaws0.
  intros (Hm & Hf & Hg & Hc & Hb) Hx Hk. apply wp_bind, wp_call_. intros r w E. apply Hk.
  assert (Hin : x ∈ {[x]} ∪ o0) by (clear; set_solver).
  destruct (fine_close _ _ _ _ _ _ _ _ any_lenient Hf Hin E) as [Hf1 _].
  replace (({[x]} ∪ o0) ∖ {[x]}) with o0 in Hf1 by (clear -Hx; set_solver).
  assert (Hm' : moves s (replicate n R_thread ++ [R_nfp]) (after s (A_close x) r w) (replicate n R_thread ++ [R_nfp]))
    by (by apply moves_after).
  split_and!; [by eapply moves_trans|done|done|by rewrite channels_after|by eapply bad_moves].
Qed.

(** What the configuration leaves: no socket, or the one it returns, or one
    that nobody closes. *)
Definition configured n C (sd : Z) s : Prop :=
  (sd = -1 ∧ (stage n o0 C false s ∨ ∃ fd, (fd ∉ o0) ∧ stage n ({[fd]} ∪ o0) C true s)) ∨
  (sd ≠ -1 ∧ (sd ∉ o0) ∧ stage n ({[sd]} ∪ o0) C false s).

Lemma socket_cfg_ok n C l port chn s :
  stage n o0 C false s → wp (udp_socket_cfg l port chn) (configured n C) s.
Proof using SocketLaws0 SocketValue0.
  intros Hs. destruct l as [l|]; [|apply wp_ret; left; auto].
  apply wp_bind, wp_callv. intros r w E. pose proof (SocketValue0 _ _ _ _ _ _ E) as Hv.
  set (s1 := after s _ r w). destruct Hs as (Hm & Hf & Hg & Hc & Hb).
  pose proof (socket_call _ _ _ _ _ _ _ _ Hf E) as Hso.
  assert (Hs1 : ∀ live, fine live s1 → stage n live C false s1).
  { intros live Hl. pose proof (neutral_after (λ g, g) s _ r w E eq_refl) as (_ & _ & Hm').
    split_and!; [by eapply moves_trans|done|done| |done]. unfold s1. by rewrite channels_after. }
  destruct (Z.eqb_spec (r_val r) (-1)) as [Hr|Hr].
  { rewrite Hr in Hso. apply wp_ret. left. split; [done|]. left. by apply Hs1. }
  destruct (Z.ltb_spec (r_val r) 0); [lia|]. destruct Hso as [Hno Hf1%Hs1]. set (sd := r_val r) in *.
  apply wp_bind, wp_call. intros p w2 E2.
  assert (Hs2 : stage n ({[sd]} ∪ o0) C false (after s1 (A_parse_ip_addr l) p w2)) by (by eapply stage_plain).
  destruct (Z.eqb_spec (r_val p) 1) as [Hp|Hp]; cbn [negb].
  2: { apply wp_ret. left. split; [done|]. right. exists sd. split; [done|].
       destruct Hs2 as (? & ? & ? & ? & _). split_and!; [done..|]. intros _. destruct Hf1 as ((t & Ht & _) & _).
       exists t, l, p, []. cbn [trace after]. by rewrite Ht, <- app_assoc. }
  apply wp_bind, wp_callv. intros b w3 E3. eapply stage_plain in Hs2; [|exact E3|done|done|done|]; [|by intros ? [= <-]; clear; set_solver].
  destruct (_ <? 0).
  { eapply stage_close; [exact Hs2|done|]. intros s4 Hs4. apply wp_ret. left. auto. }
  destruct (negb (chn =? NFP_CHANNEL_INVALID)); [|apply wp_ret; by right].
  apply wp_bind, wp_callv. intros e w4 E4. eapply stage_plain in Hs2; [|exact E4|done|done|done|]; [|by intros ? [= <-]; clear; set_solver].
  destruct (_ =? -1); [|apply wp_ret; by right].
  eapply stage_close; [exact Hs2|done|]. intros s4 Hs4. apply wp_ret. left. auto.
Qed.

(** ** Traffic *)

Context (parsed_g : parsed b0 (params g) (heap g)).

Lemma stage_fuel n live C bad s : stage n live C bad s → (budget (world s) < fuel)%nat.
Proof. intros (_ & (_ & He & _) & _). unfold enough in He. lia. Qed.

Lemma string_ok n live C bad s p :
  stage n live C bad s → p = cli_file (params g) ∨ p = laddr (params g) →
  wp (arg_string p : M st _) (λ _ _, True) s.
Proof using parsed_g.
  intros (_ & _ & Hg & _) Hp. eapply wp_mono; [|apply arg_string_ok]; [done|]. cbn. rewrite Hg.
  assert (Hin : (102, p) ∈ slots (params g) ∨ (108, p) ∈ slots (params g)).
  { unfold slots. destruct Hp as [-> | ->]; [left|right; right]; left. }
  destruct Hin; by eapply (ArgOptions.parsed_readable slots _ b0 (params g)).
Qed.

Local Abbreviation C0 := (channels (trace s0)).

(** The channel [chn] may be there. *)
Definition channel_at (chn : Z) (C : gset Z) : Prop :=
  C ⊆ {[chn]} ∪ C0 ∧ (chn = NFP_CHANNEL_INVALID → C ⊆ C0).

Lemma term_traffic_ok num chn C s :
  stage (S (Z.to_nat num)) o0 C false s → channel_at chn C →
  wp (terminate_traffic fuel num chn (params g)) (λ rc s', rc = 0 ∧ over s') s.
Proof using parsed_g kept_g SocketLaws0 SocketValue0.
  intros Hs [HC HC0]. eapply (wp_quiet _ _ (λ _, True)); [exact Hs|apply quiet_arg|eapply string_ok; eauto|]. intros l s1 _ Hs1.
  apply wp_bind. eapply wp_mono; [|by apply socket_cfg_ok]. intros sd s2 [[-> Hs2]|(Hsd & Hno & Hs2)].
  - assert (Hgo : ∀ live bad, stage (S (Z.to_nat num)) live C bad s2 →
      live = o0 ∨ bad = true ∧ (∃ fd, (fd ∉ o0) ∧ live = {[fd]} ∪ o0) →
      wp (call_ A_stop_processing;; call_ (A_thread_join 1);; call_ (A_thread_join num);; finish (-1) chn)
        (λ rc s', rc = 0 ∧ over s') s2).
    { intros live bad Hst Hlive. eapply stage_stop; [exact Hst|]. intros s3 H3.
      eapply term_join; [exact H3|]. intros s4 H4. eapply term_join; [exact H4|]. intros s5 H5.
      replace (_ - _)%nat with 0%nat in H5 by lia. by eapply (term_end_ok (-1) chn). }
    destruct Hs2 as [Hs2|(fd & Hfd & Hs2)]; [by apply (Hgo o0 false); [|left]|].
    apply (Hgo ({[fd]} ∪ o0) true); [done|]. right. split; [done|]. by exists fd.
  - rewrite (proj2 (Z.eqb_neq _ _) Hsd).
    assert (Hend : ∀ s3, stage 0 ({[sd]} ∪ o0) C false s3 → wp (finish sd chn) (λ rc s', rc = 0 ∧ over s') s3).
    { intros s3 H3. by eapply (term_end_ok sd chn). }
    eapply term_create; [exact Hs2|]. intros t s3 H3. destruct (Z.eqb_spec t 1); cbn [negb].
    + eapply (wp_quiet _ _ (λ _, True)); [exact H3|apply quiet_stats|by eapply stats_run, stage_fuel|]. intros [] s4 _ H4.
      eapply term_join; [exact H4|]. intros s5 H5. eapply term_join; [exact H5|]. intros s6 H6.
      eapply term_join; [exact H6|]. intros s7 H7. apply Hend. by replace (_ - _)%nat with 0%nat in H7 by lia.
    + eapply stage_stop; [exact H3|]. intros s4 H4. eapply term_join; [exact H4|]. intros s5 H5.
      eapply term_join; [exact H5|]. intros s6 H6. apply Hend. by replace (_ - _)%nat with 0%nat in H6 by lia.
Qed.

(** The end without a channel or a socket. *)
Lemma stop_here_ok s :
  stage 0 o0 C0 false s → wp (finish (-1) NFP_CHANNEL_INVALID) (λ rc s', rc = 0 ∧ over s') s.
Proof using kept_g SocketLaws0.
  intros Hs. eapply (term_end_ok (-1)); [exact Hs|done|by left|by apply union_subseteq_r|done].
Qed.

Lemma no_channel_ok n s r w :
  stage (S n) o0 C0 false s → api A_channel_create (world s) = (r, w) → r_val r = NFP_CHANNEL_INVALID →
  wp (finish (-1) NFP_CHANNEL_INVALID) (λ rc s', rc = 0 ∧ over s') (after s A_channel_create r w).
Proof using kept_g SocketLaws0.
  intros (Hm & Hf & Hg & Hc & Hb) E Hr. set (s1 := after s _ r w).
  assert (Hs1 : stage (S n) o0 C0 false s1).
  { split_and!; [eapply moves_trans; [exact Hm|by apply moves_after]|by apply (idle_after s A_channel_create r w)|done| |done].
    simpl. rewrite channels_snoc. unfold chan_step. cbn [fst snd]. by rewrite Hr, Z.eqb_refl. }
  eapply wp_mono; [|by apply (term_finish_ok (-1) _ _ _ _ _ _ Hs1)].
  intros rc s' (-> & Hsp & Hf' & Hch & _ & s2 & r' & _ & Ht & He). split; [done|]. rewrite (He eq_refl eq_refl) in Ht.
  split_and!; [done|by rewrite Hch|by left|right]. destruct Hm as (t & Htr & Hheld).
  exists t, r, r', n. split_and!; [|done..]. rewrite Ht. simpl. by rewrite Htr, <- !app_assoc.
Qed.

Lemma stage_channel {B} n s (k : Z → M st B) Q :
  stage n o0 C0 false s →
  (∀ r w, api A_channel_create (world s) = (r, w) → r_val r = NFP_CHANNEL_INVALID →
     wp (k NFP_CHANNEL_INVALID) Q (after s A_channel_create r w)) →
  (∀ chn s', chn ≠ NFP_CHANNEL_INVALID → stage n o0 ({[chn]} ∪ C0) false s' → wp (k chn) Q s') →
  wp (chn ← udp_channel_config; k chn) Q s.
Proof.
  intros (Hm & Hf & Hg & Hc & Hb) Hbad Hok. apply wp_bind, wp_callv. intros r w E.
  destruct (Z.eqb_spec (r_val r) NFP_CHANNEL_INVALID) as [Hr|Hr]; [rewrite Hr; by apply Hbad|].
  apply Hok; [done|].
  split_and!; [eapply moves_trans; [exact Hm|by apply moves_after]|by apply (idle_after s A_channel_create r w)|done| |done].
  simpl. rewrite channels_snoc, Hc. unfold chan_step. cbn [fst snd]. by rewrite (proj2 (Z.eqb_neq _ _) Hr).
Qed.

(** ** The stack *)

Context (es : list CliArgParse.appl_arg_if) (listed_g : listed (heap g) es).

Lemma term_events_ok num ids s :
  stage (Z.to_nat num) o0 C0 false s → (length es ≤ length ids)%nat →
  wp (run_events fuel num ids (params g)) (λ rc s', rc = 0 ∧ over s') s.
Proof using parsed_g kept_g listed_g SocketLaws0 SocketValue0.
  intros Hs Hle. unfold run_events.
  assert (Hstop : ∀ (b : bool) s1, stage (if b then S (Z.to_nat num) else Z.to_nat num) o0 C0 false s1 →
    wp (call_ A_stop_processing;; call_ (A_thread_join num);; when b (call_ (A_thread_join 1));;
        finish (-1) NFP_CHANNEL_INVALID) (λ rc s', rc = 0 ∧ over s') s1).
  { intros b s1 H1. eapply stage_stop; [exact H1|]. intros s2 H2. eapply term_join; [exact H2|]. intros s3 H3.
    destruct b; cbn [when].
    - eapply term_join; [exact H3|]. intros s4 H4. apply stop_here_ok. by replace (_ - _)%nat with 0%nat in H4 by lia.
    - apply wp_bind, wp_ret, stop_here_ok. by replace (_ - _)%nat with 0%nat in H3 by lia. }
  eapply term_create; [exact Hs|]. intros d s1 H1.
  destruct (Z.eqb_spec d 1); cbn [negb]; [|by apply (Hstop false)].
  eapply (wp_quiet _ _ (λ _, True)); [exact H1|apply quiet_addresses| |].
  { eapply FpmDirectStart.addresses_ok; [|exact Hle]. destruct H1 as (_ & _ & Hg & _). cbn. by rewrite Hg. }
  intros r s2 _ H2. destruct (negb _); [by apply (Hstop true)|].
  eapply (wp_quiet _ _ (λ _, True)); [exact H2|apply quiet_arg|eapply string_ok; eauto|]. intros file s3 _ H3.
  eapply (wp_quiet _ _ (λ _, True)); [exact H3|by apply quiet_callv|apply any_callv|]. intros r3 s4 _ H4.
  destruct (negb _); [by apply (Hstop true)|].
  eapply (wp_quiet _ _ (λ _, True)); [exact H4|by apply quiet_call_|apply any_call_|]. intros [] s5 _ H5.
  destruct (_ =? METHOD_CHANNEL); [|apply (term_traffic_ok num _ C0); [done|by split; [apply union_subseteq_r|]]].
  eapply stage_channel; [exact H5|..].
  - intros rc w E Hr. rewrite Z.eqb_refl. by eapply no_channel_ok.
  - intros chn s6 Hc H6. rewrite (proj2 (Z.eqb_neq _ _) Hc). by eapply term_traffic_ok; [exact H6|].
Qed.

Definition opened (x : list (Z * Z) * list pktio_thr_arg) s : Prop :=
  stage 0 o0 C0 false s ∧ Z.of_nat (length x.1) = NFP_FP_INTERFACE_MAX ∧ UdpFwdStart.args_fine x.2.

Context `{!PacketLaws W F}.

Lemma term_open_ok num i x s :
  0 ≤ i < Z.of_nat (length es) → i < NFP_FP_INTERFACE_MAX → num ≤ MAX_WORKERS → opened x s →
  wp (open_interface num i x) (λ r s', match r with inl x' => opened x' s' | inr _ => stage 0 o0 C0 false s' end) s.
Proof using listed_g SocketLaws0 PacketLaws0.
  intros Hi Hmax Hnum (Hs & Hids & Hf). destruct x as [ids args]. simpl in Hids, Hf. unfold open_interface.
  assert (Hname : wp (FpmDirect.interface_name i : M st _) (λ _ _, True) s).
  { eapply FpmDirectStart.interface_name_ok; [|exact Hi|done]. destruct Hs as (_ & _ & Hg & _). cbn. by rewrite Hg. }
  eapply (wp_quiet _ _ (λ _, True)); [exact Hs|apply quiet_name|exact Hname|]. intros name s1 _ Hs1.
  eapply (wp_quiet _ _ (λ _, True)); [exact Hs1|by apply quiet_call|apply any_call|]. intros c s2 _ Hs2.
  apply wp_bind, FpmDirectStart.store_ok; [lia|].
  destruct (_ <? 0); [by apply wp_ret|].
  eapply (wp_quiet _ _ (λ _, True)); [exact Hs2|by apply quiet_callv|apply any_callv|]. intros io s3 _ Hs3.
  destruct (_ =? 0); [by apply wp_ret|].
  apply wp_bind, wp_call. intros q w E. set (s4 := after s3 _ q w).
  assert (Hs4 : stage 0 o0 C0 false s4) by (by eapply stage_plain).
  destruct (Z.eqb_spec (r_val q) num) as [Hq|Hq]; cbn [negb]; [|by apply wp_ret].
  pose proof (FpmDirectProofs.length_entries q (queue_table _ _ _ _ _ E)) as Hlen. rewrite Hq in Hlen.
  eapply (wp_quiet _ _ (λ _, True)); [exact Hs4|by apply quiet_callv|apply any_callv|]. intros o s5 _ Hs5.
  destruct (negb _); [by apply wp_ret|]. apply wp_bind.
  eapply wp_mono; [|apply (UdpFwdStart.queues_stored q num i); [done|by split; [apply Hi|]|done|done]].
  intros args' s' [-> Hf']. apply wp_ret. split_and!; [done| |done]. simpl. by rewrite length_insert.
Qed.

Lemma term_workers_ok single num args s :
  stage 0 o0 C0 false s → UdpFwdStart.args_fine args → num ≤ MAX_WORKERS →
  wp (create_workers single num args) (λ r s', match r with
    | inl _ => stage (Z.to_nat num) o0 C0 false s'
    | inr i => 0 ≤ i ∧ stage (Z.to_nat i) o0 C0 false s'
    end) s.
Proof using SocketLaws0.
  intros Hs Hf Hnum.
  eapply wp_mono; [|eapply (wp_for_ret _ (λ i args' s', UdpFwdStart.args_fine args' ∧ stage (Z.to_nat i) o0 C0 false s')
    (λ i s', 0 ≤ i ∧ stage (Z.to_nat i) o0 C0 false s'))].
  - intros [args'|i] s' H; [|done]. rewrite Z.add_0_l in H. rewrite Nat2Z.id in H. by destruct H.
  - done.
  - intros i args' s1 Hi [Hf' Hs1]. apply wp_bind, wp_getg.
    destruct (UdpFwdStart.args_lookup args' i Hf') as [w0 Hw0]; [unfold UdpFwd.MAX_WORKERS, MAX_WORKERS in *; lia..|].
    pose proof (proj2 Hf' _ _ Hw0) as Hlw.
    apply wp_bind. eapply wp_of_option; [exact Hw0|].
    apply wp_bind, FpmDirectStart.store_ok; [by eapply lookup_lt_Some|].
    eapply term_create; [exact Hs1|]. intros r s2 Hs2.
    destruct (Z.eqb_spec r 1); cbn [negb]; apply wp_ret; [|split; [lia|done]].
    split; [by apply UdpFwdStart.args_insert|]. by replace (Z.to_nat (i + 1)) with (S (Z.to_nat i)) by lia.
Qed.

Lemma term_run_ok s :
  stage 0 o0 C0 false s → 1 ≤ CliArgParse.if_count (heap g) ≤ NFP_FP_INTERFACE_MAX →
  wp (run fuel (params g)) (λ rc s', rc = 0 ∧ over s') s.
Proof using All.
  intros Hs Hcnt. pose proof (proj1 listed_g) as Hn. unfold run.
  eapply (wp_quiet _ _ (λ _, True)); [exact Hs|by apply quiet_callv|apply any_callv|]. intros cpus s1 _ Hs1.
  cbv zeta. set (num := workers_of cpus (core_count (params g))).
  assert (Hmax : num ≤ MAX_WORKERS).
  { unfold num, workers_of. set (m := if _ && _ then _ else _). destruct (Z.ltb_spec MAX_WORKERS m); lia. }
  destruct (Z.ltb_spec num 1); [by apply stop_here_ok|].
  apply wp_bind, wp_getg. pose proof Hs1 as (_ & _ & Hg1 & _). cbn [heap_of term_heap]. rewrite Hg1, Hn.
  apply wp_bind. eapply wp_mono; [|eapply (wp_for_ret _ (λ _, opened) (λ _ s', stage 0 o0 C0 false s'))].
  - intros [[ids args]|[]] s2 Hr; cbn beta in Hr; [|by apply stop_here_ok]. destruct Hr as (Hs2 & Hids & Hf).
    apply wp_bind. eapply wp_mono; [|by apply (term_workers_ok _ num args)].
    intros [args'|i] s3 Hr; [apply term_events_ok; [done|simpl in Hids; lia]|]. destruct Hr as [Hi Hs3].
    eapply stage_stop; [exact Hs3|]. intros s4 Hs4. destruct (Z.ltb_spec 0 i); cbn [when].
    + eapply term_join; [exact Hs4|]. intros s5 Hs5. apply stop_here_ok. by rewrite Nat.sub_diag in Hs5.
    + apply wp_bind, wp_ret, stop_here_ok. by replace (Z.to_nat i) with 0%nat in Hs4 by lia.
  - split_and!; [done|done|apply UdpFwdStart.no_queues_fine].
  - intros i x s2 Hi Hop. apply term_open_ok; [lia|lia|done|done].
Qed.
End Main.

(** ** Start to end *)

Section Start.
Context {W F : Type} `{!App W F, !SocketLaws W F, !PacketLaws W F, SocketValue0 : !DefaultAppStart.SocketValue W F}.
Context (b0 : memory) (o0 : gset Z) (fuel : nat).
Local Abbreviation st := (app W F term_t).
Implicit Types (s : st).
Local Abbreviation fine := (AppProofs.fine any o0 o0 fuel).

Definition returned s0 (c : Z) s : Prop := (c = EXIT_SUCCESS ∨ c = EXIT_FAILURE) ∧ over b0 o0 fuel s0 s.

(** Nothing has been started. *)
Lemma early s0 s c :
  (c = EXIT_SUCCESS ∨ c = EXIT_FAILURE) → moves s0 [] s [] → fine s → same_channels s0 s →
  spare 2 b0 (heap (glob s)) → returned s0 c s.
Proof. intros Hc Hm Hf Hs Hsp. split; [done|]. split_and!; [done|by rewrite Hs|by left|by left]. Qed.

Lemma term_initialize_ok s0 s a :
  moves s0 [] s [] → fine s → same_channels s0 s → accepted b0 a (heap (glob s)) → params (glob s) = a →
  ends (r ← callv (A_initialize 0 []);
        if negb (r =? 0) then on_heap parse_args_cleanup;; exit EXIT_FAILURE
        else run fuel a) (returned s0) (returned s0) s.
Proof using All.
  intros Hm Hf Hsame Hacc <-. apply ends_bind, ends_wp, wp_callv. intros r w E. set (s1 := after s _ r w).
  assert (Hf1 : fine s1) by (by apply (idle_after s (A_initialize 0 []) r w)).
  assert (Hsame1 : same_channels s0 s1) by (etrans; [exact Hsame|by apply channels_after]).
  pose proof (ArgOptions.options_kept _ _ _ _ _ (proj1 Hacc)) as Hk.
  destruct (Z.eqb_spec (r_val r) 0) as [Hr|Hr]; cbn [negb].
  - destruct (holds_listed _ _ _ (proj1 (proj1 Hacc))) as [es Hl]; [destruct Hacc as [_ ?]; lia|].
    apply ends_wp. eapply wp_mono; [|eapply (term_run_ok b0 o0 fuel s0 (glob s) Hk _ (proj1 Hacc) es Hl s1); [|apply Hacc]].
    { intros rc s' [-> Ho]. split; [by left|done]. }
    split_and!; [|done|done|done|done]. eapply moves_trans; [exact Hm|]. apply moves_after. unfold hold. cbn [fst snd].
    by rewrite (proj2 (Z.eqb_eq _ _) Hr).
  - apply ends_bind, ends_wp. eapply wp_mono; [|by apply (release_ok 2 b0 s1)].
    intros [] s2 (Ht & Hw & Hs). apply ends_exit, early; [by right| |by apply (idle_same s1)| |done].
    + eapply moves_trans; [exact Hm|]. exists [(A_initialize 0 [], r)]. split; [by rewrite Ht|].
      cbn -[Z.eqb]. by rewrite (proj2 (Z.eqb_neq _ _) Hr).
    + unfold same_channels. by rewrite Ht.
Qed.

(** [C16] [main] of udp_term_socket ends on every path, by returning or by
    [exit], with 0 or 1, when each option is given at most once and memory does
    not run out while options are read.  Every channel it creates is destroyed, only the two
    copied options may be left of the memory it allocates, and, but for two
    exceptions, its socket has been closed and its threads were joined before
    the stack was terminated.  The exceptions: when the local address cannot be
    parsed, one socket stays open; and when the channel cannot be created the
    stack is terminated while the workers and the dispatcher run. *)
Theorem udp_term_main_releases_resources opts s :
  ready b0 (heap (glob s)) → fine s → Forall (opt_ok b0 fuel) opts → NoDup opts.*1 →
  ∃ o s', main fuel opts s = (o, s') ∧
    match o with Ret c | Exit c => c = EXIT_SUCCESS ∨ c = EXIT_FAILURE | _ => False end ∧
    spare 2 b0 (heap (glob s')) ∧ channels (trace s') ⊆ channels (trace s) ∧
    (fine s' ∨ bad_address s s' ∧ ∃ fd, (fd ∉ o0) ∧ AppProofs.fine any o0 ({[fd]} ∪ o0) fuel s') ∧
    (moves s [] s' [] ∨ abandoned s s').
Proof using All.
  intros Hready Hf Hok Hnd.
  enough (ends (main fuel opts) (returned s) (returned s) s) as (o & s' & Hrun & Ho).
  { exists o, s'. split; [done|]. by destruct o as [c|c| |]; [| |done..]; destruct Ho as (Hc & Hs & Hch & Hfd & Hm). }
  apply ends_bind, ends_wp. eapply wp_mono; [|apply wp_keeps; [apply quiet_signals|apply DefaultAppProofs.signals_run]].
  intros r0 s1 [_ [[Hn1 Hi1] Hc1]]. assert (Hf1 : fine s1) by (by apply Hi1).
  assert (Hready1 : ready b0 (heap (glob s1))) by (by destruct Hn1 as (_ & -> & _)).
  assert (Hm1 : moves s [] s1 []) by apply Hn1. pose proof (ready_spare 2 _ _ Hready1) as Hspare.
  destruct (negb _); [apply ends_wp, wp_ret, early; auto|].
  apply ends_bind, ends_on_heap. eapply ends_mono; [| |by apply (term_args_ok b0)].
  2: { intros c h [-> Hs]. apply early; [by left|done|by apply (idle_same s1)|done|done]. }
  intros [prc a] h Hres. cbn [fst snd] in Hres. apply ends_bind, ends_wp, wp_setg. cbn [fst snd].
  set (s2 := MkApp _ _ _ _). assert (Hf2 : fine s2) by (by apply (idle_same s1)).
  destruct Hres as [[-> Hacc]|[-> Hs]]; [|apply ends_wp, wp_ret, early; auto].
  change (EXIT_SUCCESS =? EXIT_SUCCESS) with true. cbn [negb]. by apply term_initialize_ok.
Qed.
End Start.

(** ** Witness *)

(** The command line "-i eth0 -l eth0". *)
Definition demo_command : DefaultApp.options := [(105, (1%positive, 0%nat)); (108, (1%positive, 0%nat))].
Definition demo_term : app demo (gset Z) term_t :=
  MkApp (Demo 3 3) 0 [] (MkTerm FpmDirectStart.demo_memory (ApplArgs 0 None None 0 0 false) 0 0).

Lemma udp_term_main_releases_resources_witness :
  ∃ o s', main 2060 demo_command demo_term = (o, s') ∧
    match o with Ret c | Exit c => c = EXIT_SUCCESS ∨ c = EXIT_FAILURE | _ => False end ∧
    spare 2 (CliArgParse.blocks FpmDirectStart.demo_memory) (heap (glob s')) ∧ channels (trace s') ⊆ channels (trace demo_term) ∧
    (fine any ∅ ∅ 2060 s' ∨ bad_address demo_term s' ∧ ∃ fd, (fd ∉ (∅ : gset Z)) ∧ AppProofs.fine any ∅ ({[fd]} ∪ ∅) 2060 s') ∧
    (moves demo_term [] s' [] ∨ abandoned demo_term s').
Proof.
  apply (udp_term_main_releases_resources (W := demo) (F := gset Z) (CliArgParse.blocks FpmDirectStart.demo_memory) ∅ 2060).
  - exact FpmDirectStart.demo_ready.
  - split_and!; [split_and!; [done|done|done|set_solver]|unfold enough; simpl; lia| |done].
    intros t e t' Heq. by destruct t.
  - pose proof (proj1 (proj1 (Forall_singleton _ _) FpmDirectStart.demo_opts_ok)) as Hok.
    repeat constructor; intros _; by apply Hok.
  - apply (bool_decide_unpack _). by vm_compute.
Defined.

End UdpTermStart.
