(* ===== verification/NetwrapProc.v ===== *)
(** * Processing for wrapped programs (example/netwrap_proc/app_main.c)

    A library that is loaded in front of a program and starts the stack for it:
    the constructor reads options from the environment and starts ODP, the
    stack and the workers; the destructor stops what [netwrap_state] says has
    been started.  The dynamic linker runs the constructor before [main] of the
    program and the destructor after it, whatever the constructor did. *)

From S2P Require Import Prelude App AppHeap Getopt CliArgParse Strtok ArgOptions FpmDirect DefaultApp.
Import App AppHeap.

Module NetwrapProc.

Definition MAX_WORKERS : Z := 32.
Definition ENV_ARG_TKN_NUMBER_MAX : Z := 101.
Definition NETWRAP_APP_NAME : bytes := text "nfp_netwrap".
Definition EXIT_SUCCESS : Z := 0.
Definition EXIT_FAILURE : Z := 1.

Record appl_args_t := ApplArgs { core_count : Z; cli_file : option positive }.

Inductive netwrap_state_enum :=
| NETWRAP_UNINT
| NETWRAP_ODP_INIT_GLOBAL
| NETWRAP_ODP_INIT_LOCAL
| NETWRAP_NFP_INIT_GLOBAL
| NETWRAP_WORKERS_STARTED.

#[global] Instance netwrap_state_eq_dec : EqDecision netwrap_state_enum.
Proof. solve_decision. Defined.

(** Memory and the variables of the library. *)
Record proc_t := MkProc {
  heap : CliArgParse.state;
  netwrap_state : netwrap_state_enum;
  num_workers : Z;
}.
Definition set_state (x : netwrap_state_enum) (g : proc_t) : proc_t := MkProc (heap g) x (num_workers g).
Definition set_num_workers (x : Z) (g : proc_t) : proc_t := MkProc (heap g) (netwrap_state g) x.

#[global] Program Instance proc_heap : HasHeap proc_t :=
  {| heap_of := heap; put_heap h g := MkProc h (netwrap_state g) (num_workers g) |}.
Next Obligation. done. Qed.
Next Obligation. by intros []. Qed.

(** ** Options *)

Section Options.
Local Abbreviation MC := (M CliArgParse.state).

(** "+c:i:hpf:" and [longopts] *)
Definition optdef : Getopt.optdef :=
  Getopt.OptDef [(99, true); (105, true); (104, false); (112, false); (102, true)]
    [(text "count", true, 99); (text "interface", true, 105); (text "help", false, 104);
     (text "cli-file", true, 102)].

(** [cli_file] is not freed. *)
Definition parse_args_cleanup : MC unit :=
  CliArgParse.nfpexpl_parse_interfaces_param_cleanup true.

(** One option: -1 is [parse_args_cleanup(appl_args); return EXIT_FAILURE;]. *)
Definition parse_option (fuel : nat) (opt : Z * CliArgParse.ptr) (a : appl_args_t)
    : MC (Z * appl_args_t) :=
  let '(c, optarg) := opt in
  if c =? 99 (* c *) then
    n ← CliArgParse.atoi optarg;
    mret (0, ApplArgs n (cli_file a))
  else if c =? 105 (* i *) then ArgOptions.interfaces_option fuel optarg a
  else if c =? 104 (* h *) then mret (-1, a)
  else if c =? 102 (* f *) then
    ArgOptions.copy_option optarg a (λ p, ApplArgs (core_count a) p)
  else mret (0, a).

Definition parse_args (fuel : nat) (opts : DefaultApp.options) : MC (Z * appl_args_t) :=
  modify (CliArgParse.set_if_count 0);;
  modify (CliArgParse.set_if_array None);;
  r ← ArgOptions.parse_options (parse_option fuel) opts (ApplArgs 0 None);
  if r.1 =? -1 then parse_args_cleanup;; mret (EXIT_FAILURE, r.2)
  else
    n ← gets CliArgParse.if_count;
    if n =? 0 then parse_args_cleanup;; mret (EXIT_FAILURE, r.2)
    else mret (EXIT_SUCCESS, r.2).

(** ** The environment *)

Definition ch_space : Z := 32.

(** [strtok] with the delimiter " ". *)
Definition strtok : CliArgParse.ptr → MC (option CliArgParse.ptr * CliArgParse.ptr) :=
  Strtok.strtok ch_space.

(** The loop that fills [argv]; [n] entries are left. *)
Fixpoint fill_argv (n : nat) (temp : option CliArgParse.ptr) (save : CliArgParse.ptr)
    : MC (list CliArgParse.ptr) :=
  match temp, n with
  | Some p, S n' =>
      t ← strtok save;
      r ← fill_argv n' t.1 t.2;
      mret (p :: r)
  | _, _ => mret []
  end.

Fixpoint read_strings (ps : list CliArgParse.ptr) : MC (list bytes) :=
  match ps with
  | [] => mret []
  | p :: ps' => t ← CliArgParse.read_string p; r ← read_strings ps'; mret (t :: r)
  end.

(** [optarg], a pointer into [argv]; [ps] is [argv] from word 1 on.  Where
    there is no argument it is not used. *)
Definition optarg_of (ps : list CliArgParse.ptr) (o : Z * option (nat * nat)) : Z * CliArgParse.ptr :=
  (o.1, match o.2 with
        | Some (S i, k) => match ps !! i with Some p => (p.1, (p.2 + k)%nat) | None => (1%positive, 0%nat) end
        | _ => (1%positive, 0%nat)
        end).

(** [parse_args(argc, argv, appl_args)] with the options [getopt_long] finds. *)
Definition parse_argv (fuel : nat) (ps : list CliArgParse.ptr) : MC (Z * appl_args_t) :=
  words ← read_strings ps;
  parse_args fuel (optarg_of ps <$> Getopt.getopt_long optdef (NETWRAP_APP_NAME :: words)).

(** [env] is what [getenv] gives. *)
Definition parse_env (fuel : nat) (env : option CliArgParse.ptr) : MC (Z * appl_args_t) :=
  match env with
  | None => mret (EXIT_FAILURE, ApplArgs 0 None)
  | Some env =>
      netwrap_env ← CliArgParse.strdup env;
      start ← of_option netwrap_env;
      t ← strtok (start, 0%nat);
      argv ← fill_argv (Z.to_nat (ENV_ARG_TKN_NUMBER_MAX - 1)) t.1 t.2;
      r ← parse_argv fuel argv;
      if negb (r.1 =? EXIT_SUCCESS) then mret (EXIT_FAILURE, r.2)
      else CliArgParse.free netwrap_env;; mret (EXIT_SUCCESS, r.2)
  end.
End Options.

(** ** Start and end *)

Section Process.
Context {W F : Type} `{!App W F}.
Local Abbreviation MP := (M (app W F proc_t)).

Definition configure_interface_addresses : MP Z := DefaultApp.configure_interface_addresses.

(** The cases of the destructor, each falling through to the next. *)
Definition case_odp_init_global : MP unit := call_ A_odp_term_global.
Definition case_odp_init_local : MP unit := call_ A_odp_term_local;; case_odp_init_global.
Definition case_nfp_init_global : MP unit := call_ A_terminate;; case_odp_init_local.
Definition case_workers_started : MP unit :=
  n ← getg num_workers; call_ (A_thread_join n);; case_nfp_init_global.

Definition nfp_netwrap_main_dtor : MP unit :=
  call_ A_stop_processing;;
  state ← getg netwrap_state;
  match state with
  | NETWRAP_WORKERS_STARTED => case_workers_started
  | NETWRAP_NFP_INIT_GLOBAL => case_nfp_init_global
  | NETWRAP_ODP_INIT_LOCAL => case_odp_init_local
  | NETWRAP_ODP_INIT_GLOBAL => case_odp_init_global
  | NETWRAP_UNINT => mret ()
  end.

(** [parse_args_cleanup(&params); nfp_netwrap_main_dtor(); return;] *)
Definition abandon : MP unit := on_heap parse_args_cleanup;; nfp_netwrap_main_dtor.

(** With the workers running. *)
Definition finish_start (a : appl_args_t) : MP unit :=
  let stop := n ← getg num_workers; call_ A_stop_processing;; call_ (A_thread_join n);; abandon in
  r ← configure_interface_addresses;
  if negb (r =? 0) then stop
  else
    file ← arg_string (cli_file a);
    r ← callv (A_cli_process_file file);
    if negb (r =? 0) then stop
    else on_heap parse_args_cleanup;; call_ (A_sleep 1).

(** With ODP running. *)
Definition start_stack (a : appl_args_t) : MP unit :=
  r ← DefaultApp.initialize;
  if negb (r =? 0) then abandon
  else
    mask ← call (A_default_worker_cpumask (core_count a) MAX_WORKERS);
    if negb (r_val mask =? 0) then abandon
    else
      setg (set_num_workers (r_out mask));;
      setg (set_state NETWRAP_NFP_INIT_GLOBAL);;
      n ← getg num_workers;
      ret_val ← callv (A_threads_create DefaultApp.THREAD_default_event_dispatcher n);
      if negb (ret_val =? n) then
        call_ A_stop_processing;;
        when (negb (ret_val =? -1)) (call_ (A_thread_join ret_val));;
        abandon
      else
        setg (set_state NETWRAP_WORKERS_STARTED);;
        finish_start a.

Definition nfp_netwrap_main_ctor (fuel : nat) (env : option CliArgParse.ptr) : MP unit :=
  setg (set_state NETWRAP_UNINT);;
  p ← on_heap (parse_env fuel env);
  if negb (p.1 =? EXIT_SUCCESS) then mret ()
  else
    r ← callv A_odp_init_global;
    if negb (r =? 0) then on_heap parse_args_cleanup
    else
      setg (set_state NETWRAP_ODP_INIT_GLOBAL);;
      r ← callv A_odp_init_local;
      if negb (r =? 0) then abandon
      else
        setg (set_state NETWRAP_ODP_INIT_LOCAL);;
        start_stack p.2.

(** The life of the library, around the program. *)
Definition library_lifetime (fuel : nat) (env : option CliArgParse.ptr) : MP unit :=
  nfp_netwrap_main_ctor fuel env;; nfp_netwrap_main_dtor.
End Process.

End NetwrapProc.
