(* ===== verification/NetwrapProcProofs.v ===== *)
(** * Processing for wrapped programs: the environment

    [parse_env] finds the words of the environment variable, as the reference
    function [words] splits them at spaces, and the options in them. *)

From S2P Require Import Prelude App AppHeap Getopt CliArgParse CliArgParseProofs Strtok ArgHeap ArgOptions DefaultApp DefaultAppStart NetwrapProc.
Import CliArgParse Strtok ArgHeap ArgOptions NetwrapProc.
Import CliArgParseProofs(string_at, string_at_inj, whole_string, chars_at, read_string_at, scan_found, scan_not_found, split_first, split_first_spec, good, alloc_state, Inv, rep_ext, eptrs_ne).

Module NetwrapProcProofs.

Local Abbreviation words := (words ch_space).

(** ** [argv] *)

Lemma fill_argv_ok c n : ∀ temp k rest ws h,
  string_at (blocks h) c k rest [] →
  match temp with
  | None => ws = []
  | Some p => ∃ w, p.1 = c ∧ str_at h p w ∧ ws = w :: words rest ∧ (p.2 + length w < k ∨ rest = [])%nat
  end →
  wp (fill_argv n temp (c, k)) (λ ps h', recut c h h' ∧ Forall2 (str_at h') ps (take n ws) ∧
    (∃ k' rest', string_at (blocks h') c k' rest' []) ∧
    ∀ q u, str_at h q u → (q.1 ≠ c ∨ q.2 + length u < k ∨ rest = [])%nat → str_at h' q u) h.
Proof.
  induction n as [|n IH]; intros temp k rest ws h Hs Htemp.
  { assert (Hnil : fill_argv 0 temp (c, k) = mret []) by (by destruct temp). rewrite Hnil. apply wp_ret.
    pose proof Hs as (_ & l & Hl & _). split; [by eapply recut_refl|]. split; [constructor|]. eauto. }
  destruct temp as [p|]; cbn [fill_argv].
  2: { subst ws. apply wp_ret. pose proof Hs as (_ & l & Hl & _). split; [by eapply recut_refl|]. split; [constructor|]. eauto. }
  destruct Htemp as (w & Hp & Hw & -> & Hlt). apply wp_bind. eapply wp_mono; [|by apply strtok_ok].
  intros [o save] h1 (Hr1 & Hk1 & k1 & rest1 & -> & Hs1 & Hle1 & Hnil1 & Ho). cbn [fst snd] in *.
  apply wp_bind. eapply wp_mono; [|apply (IH o k1 rest1 (words rest) h1 Hs1)].
  2: { destruct o as [p'|]; [|done]. destruct Ho as (w' & ? & ? & ? & ?). exists w'. by split_and!. }
  intros ps h2 (Hr2 & Hps & Hend & Hk2). apply wp_ret.
  (* strings before the place stay through both steps *)
  assert (Hkeep : ∀ q u, str_at h q u → (q.1 ≠ c ∨ q.2 + length u < k ∨ rest = [])%nat → str_at h2 q u).
  { intros q u Hq Hlt'. apply Hk2; [by apply Hk1|]. destruct (decide (q.1 = c)) as [|?]; [|by left]. right.
    destruct Hlt' as [?|[?|?]]; [done|left; lia|right; auto]. }
  split_and!; [by eapply recut_trans| |done|done]. cbn [take]. constructor; [|done]. apply Hkeep; [done|]. by right.
Qed.

(** ** From the variable to the options *)

Lemma read_strings_ok h ps ws : Forall2 (str_at h) ps ws → read_strings ps h = (Ret ws, h).
Proof.
  induction 1 as [|[b k] w ps ws [r Hr] _ IH]; [done|]. simpl.
  rewrite (bind_Ret _ _ _ _ _ (read_string_at _ _ _ _ _ Hr)). by rewrite (bind_Ret _ _ _ _ _ IH).
Qed.

(** The argument of an option is the rest of a word. *)
Lemma optarg_ok m fuel (ps : list ptr) ws o :
  Forall2 (λ p w, ∃ r, string_at m p.1 p.2 w r) ps ws →
  Forall (λ w, Z.of_nat (length w) < 2 ^ 31 - 1 ∧ (S (length w) < fuel)%nat) ws →
  Getopt.place_ok 1 ws o → is_Some o.2 → arg_ok m fuel (optarg_of ps o).2.
Proof.
  intros Hps Hws Hp [[j k] Ho]. unfold Getopt.place_ok in Hp. unfold optarg_of. cbn [fst snd]. rewrite Ho in *.
  destruct Hp as (Hj & w & Hw & Hk). destruct j as [|j]; [lia|]. replace (S j - 1)%nat with j in Hw by lia.
  destruct (Forall2_lookup_r _ _ _ _ _ Hps Hw) as (p & Hp & r & Hr).
  replace (match ps !! j with Some p => (p.1, (p.2 + k)%nat) | None => (1%positive, 0%nat) end)
    with (p.1, (p.2 + k)%nat) by (change ptr with (positive * nat)%type; by rewrite Hp).
  destruct p as [b n]. cbn [fst snd] in *.
  destruct (Forall_lookup_1 _ _ _ _ Hws Hw) as [Hlen Hfuel].
  exists (drop k w), r. rewrite length_drop. split_and!; [|lia|lia].
  rewrite <- (take_drop k w) in Hr. apply string_drop in Hr. by rewrite length_take_le in Hr.
Qed.

(** The options that take an argument have one. *)
Lemma env_opts_ok m fuel (ps : list ptr) ws :
  Forall2 (λ p w, ∃ r, string_at m p.1 p.2 w r) ps ws →
  Forall (λ w, Z.of_nat (length w) < 2 ^ 31 - 1 ∧ (S (length w) < fuel)%nat) ws →
  Forall (DefaultAppStart.opt_ok [99; 102; 105] m fuel)
    (optarg_of ps <$> Getopt.getopt_long optdef (NETWRAP_APP_NAME :: ws)).
Proof.
  intros Hps Hws. apply Forall_fmap, Forall_forall. intros o Ho Hc. simpl in Hc.
  pose proof (Getopt.places_ok optdef 1 ws) as Hp. pose proof (Getopt.options_kind optdef 1 ws) as Hk.
  rewrite Forall_forall in Hp, Hk. specialize (Hp _ Ho). specialize (Hk _ Ho).
  eapply optarg_ok; [done..|]. destruct o.2 eqn:E; [by eexists|]. exfalso.
  destruct (Hk E) as [Hq|[Hs|[name Hn]]].
  - rewrite Hq in Hc. clear -Hc. set_solver.
  - clear -Hc Hs. rewrite !elem_of_cons, elem_of_nil in Hc. destruct Hc as [Hc|[Hc|[Hc|[]]]]; by rewrite Hc in Hs.
  - clear -Hc Hn. apply list_elem_of_In in Hn. cbn [optdef Getopt.longopts In] in Hn. rewrite !elem_of_cons, elem_of_nil in Hc.
    destruct Hc as [Hc|[Hc|[Hc|[]]]]; rewrite Hc in Hn; destruct Hn as [Hn|[Hn|[Hn|[Hn|[]]]]]; congruence.
Qed.

(** ** A string below the arguments *)

(** The string at [c] is freed. *)
Lemma holds_free_base b0 c blk ps h :
  b0 !! c = None → holds (<[c := blk]> b0) ps h →
  wp (free (Some c)) (λ _ h', holds b0 ps h' ∧ if_count h' = if_count h) h.
Proof.
  intros Hc Hh. assert (Hbc : blocks h !! c = Some blk) by (eapply holds_base; [done|apply lookup_insert_eq]).
  eexists _, _. split; [by eapply CliArgParseProofs.free_step|]. split; [|done].
  destruct Hh as (b1 & [Hb Hcp Hnd] & Hi & Hg & Ho).
  assert (Hno : c ∉ ps) by (intros [Hn _]%Hcp; by rewrite lookup_insert_eq in Hn).
  exists (delete c b1). split_and!; [constructor; [..|done]| | |done].
  - intros p Hp. destruct (decide (p = c)) as [->|]; [by rewrite lookup_delete_eq|].
    rewrite lookup_delete_ne, Hb by done. by rewrite lookup_insert_ne.
  - intros p Hp. assert (c ≠ p) by congruence. destruct (Hcp p Hp) as [Hn Ht].
    rewrite lookup_insert_ne in Hn by done. by rewrite lookup_delete_ne.
  - destruct Hi as [[Hn Hbl]|(specs & arr & es & [H1 H2 H3 H4 H5 H6 H7] & Hne & Hrep)]; [left; simpl; by rewrite Hbl|right].
    assert (Hout : c ∉ CliArgParseProofs.own arr [] es).
    { intros [Hn _]%H5. rewrite Hb, lookup_insert_eq in Hn by done. done. }
    assert (Hsame : ∀ p, p ∈ CliArgParseProofs.own arr [] es → delete c (blocks h) !! p = blocks h !! p).
    { intros p Hp. apply lookup_delete_ne. by intros ->. }
    exists specs, arr, es. split_and!; [constructor; simpl; try done|done|].
    + intros p [? Hp]%lookup_delete_is_Some. by apply H1.
    + rewrite Hsame; [done|]. by left.
    + intros p Hp. rewrite Hsame by done. rewrite lookup_delete_ne by (by intros ->). by apply H5.
    + intros p Hp. destruct (decide (p = c)) as [->|]; [by rewrite !lookup_delete_eq|].
      rewrite !lookup_delete_ne by done. by apply H6.
    + apply Forall2_same_length_lookup_2; [by eapply Forall2_length|]. intros i e it He Hit.
      eapply rep_ext; [|by eapply Forall2_lookup_lr]. intros p Hp. apply Hsame. right. simpl.
      apply list_elem_of_bind. exists e. split; [done|]. by eapply list_elem_of_lookup_2.
  - intros p Hp. simpl in *. apply lookup_delete_is_Some in Hp as [_ Hp]. by apply Hg.
Qed.

(** The string at [c] is left. *)
Lemma spare_base b0 c u k h : b0 !! c = None → spare k (<[c := BStr (u ++ [0])]> b0) h → spare (S k) b0 h.
Proof.
  intros Hc (ps & Hlen & [Hb Hcp Hnd]).
  assert (Hno : c ∉ ps) by (intros [Hn _]%Hcp; by rewrite lookup_insert_eq in Hn).
  exists (c :: ps). split; [simpl; lia|]. constructor; [| |by constructor].
  - intros p [Hpc Hp]%not_elem_of_cons. rewrite Hb by done. by rewrite lookup_insert_ne.
  - intros p [->|Hp]%elem_of_cons.
    + split; [done|]. exists u. rewrite Hb by done. apply lookup_insert_eq.
    + destruct (Hcp p Hp) as [Hn Ht]. rewrite lookup_insert_ne in Hn by congruence. done.
Qed.

(** ** Options *)

Definition slots (a : appl_args_t) : list (Z * option positive) := [(102, cli_file a)].
Local Abbreviation parsed := (parsed slots (λ _, True)).
Local Abbreviation result := (result slots (λ _, True)).

Lemma proc_option_ok b0 fuel o a h :
  parsed b0 a h → DefaultAppStart.opt_ok [99; 102; 105] b0 fuel o → unset slots a h o.1 →
  wp (parse_option fuel o a) (result b0 o.1 a h) h.
Proof.
  intros Hp Hok Hun. unfold parse_option. destruct o as [c arg]. cbn [fst snd] in *.
  assert (Hsame : ∀ a' rc, slots a' = slots a → rc = 0 ∨ rc = -1 → result b0 c a h (rc, a') h).
  { intros a' rc Hs Hrc. by apply plain_option. }
  destruct (Z.eqb_spec c 99) as [->|].
  { apply wp_bind. eapply (atoi_ok b0 fuel arg); [apply Hp|apply Hok; set_solver|]. intros t Ht.
    apply wp_ret, Hsame; auto. }
  destruct (Z.eqb_spec c 105) as [->|]; [apply interfaces_option_ok; [done|apply Hok; set_solver|done]|].
  destruct (Z.eqb_spec c 104) as [->|]; [apply wp_ret, Hsame; auto|].
  destruct (Z.eqb_spec c 102) as [->|]; [|apply wp_ret, Hsame; auto].
  eapply copy_option_ok; [done|apply Hok; set_solver|done| |done]. by exists [], (cli_file a), [].
Qed.

Lemma proc_args_ok b0 fuel opts h :
  ready b0 h → Forall (DefaultAppStart.opt_ok [99; 102; 105] b0 fuel) opts → NoDup opts.*1 →
  wp (parse_args fuel opts) (λ p h', p.1 = EXIT_SUCCESS ∧ parsed b0 p.2 h' ∧ if_count h' ≠ 0 ∨
    p.1 = EXIT_FAILURE ∧ spare 1 b0 h') h.
Proof.
  intros Hr Hok Hnd. unfold parse_args. apply wp_ends.
  eapply (read_options_ok slots (λ _, True) b0 (parse_option fuel) (DefaultAppStart.opt_ok [99; 102; 105] b0 fuel));
    [|done|by repeat constructor|done..|].
  { intros. by apply ends_wp, proc_option_ok. }
  intros [rc a] h' _ Hp. cbn [fst snd] in *. apply ends_wp.
  assert (Hfail : wp (parse_args_cleanup;; mret (EXIT_FAILURE, a)) (λ p h',
    p.1 = EXIT_SUCCESS ∧ parsed b0 p.2 h' ∧ if_count h' ≠ 0 ∨ p.1 = EXIT_FAILURE ∧ spare 1 b0 h') h').
  { apply wp_bind. eapply wp_mono; [|by eapply cleanup_kept, (options_kept _ _ _ a)].
    intros [] h2 Hc. apply wp_ret. by right. }
  destruct (rc =? -1); [done|]. apply wp_bind, wp_gets.
  destruct (Z.eqb_spec (if_count h') 0); [done|]. apply wp_ret. by left.
Qed.

(** ** The environment *)

(** The options in the text of the variable: the first 100 words. *)
Definition env_options (t : bytes) : list (Z * option (nat * nat)) :=
  Getopt.getopt_long optdef (NETWRAP_APP_NAME :: take 100 (words t)).

(** The variable is not set, or its text fits the fuel and no option is given
    twice. *)
Definition env_ok (b0 : memory) (fuel : nat) (env : option ptr) : Prop :=
  match env with
  | None => True
  | Some p => ∃ t r, string_at b0 p.1 p.2 t r ∧ NoDup (env_options t).*1 ∧
                     Z.of_nat (length t) < 2 ^ 31 - 1 ∧ (S (length t) < fuel)%nat
  end.

(** The copy of the text, cut into words. *)
Lemma env_words_ok {B} b0 h t (f : option positive → list ptr → M state B) Q :
  ready b0 h → (0 ∉ t) →
  (∀ c u argv h', b0 !! c = None → ready (<[c := BStr (u ++ [0])]> b0) h' →
     Forall2 (str_at h') argv (take 100 (words t)) → wp (f (Some c) argv) Q h') →
  wp (netwrap_env ← alloc (BStr (t ++ [0]));
      start ← of_option netwrap_env;
      w ← strtok (start, 0%nat);
      argv ← fill_argv (Z.to_nat (ENV_ARG_TKN_NUMBER_MAX - 1)) w.1 w.2;
      f netwrap_env argv) Q h.
Proof.
  intros (Hb & Hg & Ho) H0 Hf. set (c := fresh_ptr h). set (h1 := alloc_state (BStr (t ++ [0])) h).
  assert (Hnone : b0 !! c = None) by (rewrite <- Hb; apply eq_None_not_Some; intros ?%Hg; lia).
  apply wp_bind. exists (Some c), h1. split; [unfold alloc; by rewrite Ho|]. apply wp_bind, wp_ret, wp_bind.
  assert (Hc1 : string_at (blocks h1) c 0 t []) by (apply whole_string; [apply lookup_insert_eq|done]).
  eapply wp_mono; [|by apply strtok_ok]. intros [o save] h2 (Hr2 & _ & k2 & rest & -> & Hs2 & _ & _ & Hw). cbn [fst snd] in *.
  apply wp_bind. eapply wp_mono; [|by apply (fill_argv_ok c _ o k2 rest (words t) h2 Hs2); destruct o].
  intros ps h3 (Hr3 & Hps & (k3 & rest3 & _ & l & Hl & Hd) & _).
  pose proof (recut_trans _ _ _ _ Hr2 Hr3) as (l' & -> & _). simpl in Hl. rewrite lookup_insert_eq in Hl. injection Hl as ->.
  apply (Hf c (take k3 l ++ rest3)); [done| |done].
  rewrite <- app_assoc. cbn [app] in Hd. rewrite <- Hd, take_drop. split_and!; [| |done].
  2: { intros p Hp. simpl in Hp. rewrite insert_insert_eq in Hp. by apply (good_alloc h (BStr l) Hg). }
  simpl. by rewrite Hb, insert_insert_eq.
Qed.

(** The options are those of the reference, and memory is given back but for
    the name of the CLI file and, after a failure, the copy of the text. *)
Lemma parse_env_ok b0 fuel env h :
  ready b0 h → env_ok b0 fuel env →
  wp (parse_env fuel env) (λ p h', p.1 = EXIT_SUCCESS ∧ parsed b0 p.2 h' ∧ if_count h' ≠ 0 ∨
    p.1 = EXIT_FAILURE ∧ spare 2 b0 h') h.
Proof.
  intros Hr He. destruct env as [[b k]|]; cbn [parse_env].
  2: { apply wp_ret. right. split; [done|]. by apply ready_spare. }
  destruct He as (t & r & Hs & Hnd & Hlen & Hfuel). cbn [fst snd] in Hs.
  assert (Hread : read_string (b, k) h = (Ret t, h)) by (apply (read_string_at _ _ _ _ r); by rewrite (proj1 Hr)).
  unfold strdup, wp. rewrite bind_assoc, (bind_Ret _ _ _ _ _ Hread). apply env_words_ok with (b0 := b0); [done|apply Hs|].
  intros c u argv h1 Hc Hr1 Hargv. apply wp_bind. eapply wp_mono.
  2: { apply wp_bind. eexists _, _. split; [by apply read_strings_ok|]. apply proc_args_ok; [exact Hr1| |].
       - apply env_opts_ok.
         + eapply Forall2_impl; [exact Hargv|]. intros p w [r' Hp]. exists r'. by rewrite (proj1 Hr1) in Hp.
         + apply Forall_forall. intros w Hw%elem_of_take. destruct Hw as (i & Hw%list_elem_of_lookup_2 & _).
           apply words_length in Hw. lia.
       - by rewrite <- list_fmap_compose. }
  intros [rc a] h2 [(Hrc & [Hh _] & Hn)|[Hrc Hsp]]; cbn [fst snd] in *; rewrite Hrc.
  - apply wp_bind. eapply wp_mono; [|by eapply holds_free_base]. intros [] h3 [Hh3 Hn3]. apply wp_ret. left.
    rewrite Hn3. by split_and!.
  - apply wp_ret. right. split; [done|]. by eapply spare_base.
Qed.

End NetwrapProcProofs.
