(* ===== verification/NetwrapProcStart.v ===== *)
(** * Processing for wrapped programs: the constructor and the destructor

    What the library starts and stops around a program, on every path of the
    constructor. *)

From S2P Require Import Prelude App AppProofs AppHeap Resources HttpdTheorems CliArgParse CliArgParseProofs ArgHeap ArgOptions FpmDirect DefaultApp DefaultAppProofs Getopt NetwrapProc NetwrapProcProofs.
Import App AppProofs AppHeap Resources HttpdTheorems ArgHeap ArgOptions DefaultAppProofs NetwrapProc NetwrapProcProofs.

Module NetwrapProcStart.

(** What the destructor does to the resources [rs], by the state the library
    is in. *)
Definition undo (g : proc_t) (rs : list resource) : option (list resource) :=
  match netwrap_state g with
  | NETWRAP_UNINT => Some rs
  | NETWRAP_ODP_INIT_GLOBAL | NETWRAP_ODP_INIT_LOCAL =>
      match rs with R_odp :: rs' => Some rs' | _ => None end
  | NETWRAP_NFP_INIT_GLOBAL =>
      match rs with R_nfp :: R_odp :: rs' => Some rs' | _ => None end
  | NETWRAP_WORKERS_STARTED =>
      match join (Z.to_nat (num_workers g)) rs with R_nfp :: R_odp :: rs' => Some rs' | _ => None end
  end.

Section Process.
Context {W F : Type} `{!App W F, !SocketLaws W F}.
Local Abbreviation st := (app W F proc_t).
Implicit Types (s : st).

(** From [s] to [s'] the calls do [f] to the resources. *)
Definition acts s (f : list resource → option (list resource)) s' : Prop :=
  ∃ t, trace s' = trace s ++ t ∧ ∀ rs, held rs t = f rs.

Lemma dtor_acts s : wp nfp_netwrap_main_dtor (λ _ s', glob s' = glob s ∧ acts s (undo (glob s)) s') s.
Proof.
  unfold nfp_netwrap_main_dtor, undo. apply wp_bind, wp_call_. intros r w E. apply wp_bind, wp_getg. cbn beta.
  change (glob (after s A_stop_processing r w)) with (glob s).
  destruct (netwrap_state (glob s)); unfold case_workers_started, case_nfp_init_global, case_odp_init_local, case_odp_init_global.
  - apply wp_ret. split; [done|]. by exists [(A_stop_processing, r)].
  - apply wp_call_. intros r1 w1 E1. split; [done|]. exists [(A_stop_processing, r); (A_odp_term_global, r1)].
    split; [simpl; by rewrite <- app_assoc|]. intros [|[] rs]; done.
  - apply wp_bind, wp_call_. intros r1 w1 E1. apply wp_call_. intros r2 w2 E2. split; [done|].
    exists [(A_stop_processing, r); (A_odp_term_local, r1); (A_odp_term_global, r2)].
    split; [simpl; by rewrite <- !app_assoc|]. intros [|[] rs]; done.
  - apply wp_bind, wp_call_. intros r1 w1 E1. apply wp_bind, wp_call_. intros r2 w2 E2. apply wp_call_. intros r3 w3 E3.
    split; [done|]. exists [(A_stop_processing, r); (A_terminate, r1); (A_odp_term_local, r2); (A_odp_term_global, r3)].
    split; [simpl; by rewrite <- !app_assoc|]. intros [|[] [|[] rs]]; done.
  - apply wp_bind, wp_getg, wp_bind, wp_call_. intros r0 w0 E0. cbn beta.
    apply wp_bind, wp_call_. intros r1 w1 E1. apply wp_bind, wp_call_. intros r2 w2 E2. apply wp_call_. intros r3 w3 E3.
    split; [done|]. eexists [(A_stop_processing, r); (A_thread_join _, r0); (A_terminate, r1); (A_odp_term_local, r2); (A_odp_term_global, r3)].
    split; [simpl; by rewrite <- !app_assoc|]. intros rs. simpl.
    destruct (join (Z.to_nat (num_workers (glob s))) rs) as [|[] [|[] rs']]; done.
Qed.

(** ** The constructor *)

Context (b0 : memory) (s0 : st).

(** Resources are [rs] and memory is [h]. *)
Definition now (h : CliArgParse.state) (rs : list resource) s : Prop := heap (glob s) = h ∧ moves s0 [] s rs.

(** How the constructor ends: the library is running; nothing was started; or
    a step failed after ODP was started, and then [netwrap_state] still says
    what had been started although the destructor has been called. *)
Definition constructed s : Prop :=
  spare 2 b0 (heap (glob s)) ∧ ∃ t, trace s = trace s0 ++ t ∧
    match netwrap_state (glob s), held [] t with
    | NETWRAP_UNINT, Some rs => rs = []
    | NETWRAP_UNINT, None => False
    | NETWRAP_WORKERS_STARTED, Some rs =>
        rs = [] ∨ rs = replicate (Z.to_nat (num_workers (glob s))) R_thread ++ [R_nfp; R_odp] ∧
                  ∃ t0 r, t = t0 ++ [(A_sleep 1, r)]
    | NETWRAP_WORKERS_STARTED, None => False
    | NETWRAP_ODP_INIT_LOCAL, None => True
    | _, Some rs => rs = []
    | _, None => False
    end.

Lemma now_calm h rs s s' : now h rs s → calm s s' → now h rs s' ∧ glob s' = glob s.
Proof.
  intros [Hh Hm] [(_ & Hg & Hm') _]. cbn beta in Hg. rewrite <- Hh, <- Hg. split; [|done].
  split; [done|]. by eapply moves_trans.
Qed.

Lemma now_set h rs s f : heap (f (glob s)) = heap (glob s) →
  now h rs s → now h rs (MkApp (world s) (nfp_errno s) (trace s) (f (glob s))).
Proof. intros Hf [Hh (t & Ht & Hr)]. split; [simpl; congruence|]. by exists t. Qed.

Context (h : CliArgParse.state) (a : appl_args_t).
Context (Hparsed : parsed slots (λ _, True) b0 a h) (Hcount : CliArgParse.if_count h ≠ 0).

Lemma proc_release_ok s :
  heap (glob s) = h →
  wp (on_heap parse_args_cleanup) (λ _ s', trace s' = trace s ∧ netwrap_state (glob s') = netwrap_state (glob s) ∧
    num_workers (glob s') = num_workers (glob s) ∧ spare 2 b0 (heap (glob s'))) s.
Proof using Hparsed.
  intros Hh. apply wp_on_heap. change (heap_of (glob s)) with (heap (glob s)). rewrite Hh.
  eapply wp_mono; [|by eapply cleanup_kept, (options_kept _ _ _ a)]. intros [] h' (ps & Hlen & Hw). split_and!; [done..|].
  exists ps. split; [simpl in Hlen; lia|done].
Qed.

(** After a failure. *)
Lemma proc_give_up_ok rs s :
  now h rs s → netwrap_state (glob s) ≠ NETWRAP_UNINT →
  undo (glob s) rs = Some [] ∨ undo (glob s) rs = None ∧ netwrap_state (glob s) = NETWRAP_ODP_INIT_LOCAL →
  wp abandon (λ _ s', constructed s') s.
Proof using Hparsed.
  intros [Hh (t & Ht & Hr)] Hst Hu. apply wp_bind. eapply wp_mono; [|by apply proc_release_ok].
  intros [] s1 (Ht1 & Hs1 & Hn1 & Hsp). eapply wp_mono; [|apply dtor_acts].
  intros [] s2 (Hg & t2 & Ht2 & Hr2). split; [by rewrite Hg|]. exists (t ++ t2).
  split; [by rewrite Ht2, Ht1, Ht, app_assoc|]. rewrite held_app, Hr. simpl. rewrite Hr2, Hg, Hs1.
  assert (Hsame : undo (glob s1) rs = undo (glob s) rs) by (unfold undo; by rewrite Hs1, Hn1). rewrite Hsame.
  destruct Hu as [-> |[-> ->]]; [|done]. destruct (netwrap_state (glob s)); by auto.
Qed.

Lemma proc_finish_ok s :
  now h (replicate (Z.to_nat (num_workers (glob s))) R_thread ++ [R_nfp; R_odp]) s →
  netwrap_state (glob s) = NETWRAP_WORKERS_STARTED → wp (finish_start a) (λ _ s', constructed s') s.
Proof using SocketLaws0 Hparsed Hcount.
  intros Hnow Hst. destruct (holds_lists _ _ _ (proj1 Hparsed) Hcount) as [items Hl].
  unfold finish_start. cbv zeta. set (stop := (n ← getg num_workers; _ : M st unit)).
  assert (Hstop : ∀ s', now h (replicate (Z.to_nat (num_workers (glob s))) R_thread ++ [R_nfp; R_odp]) s' ∧
    glob s' = glob s → wp stop (λ _ s', constructed s') s').
  { clear -Hparsed Hst SocketLaws0. intros s' [[Hh Hm] Hg]. apply wp_bind, wp_getg, wp_bind, wp_call_. intros r1 w1 E1. apply wp_bind, wp_call_. intros r2 w2 E2.
    cbn beta. rewrite Hg. apply (proc_give_up_ok [R_nfp; R_odp]); [|simpl; by rewrite Hg, Hst|].
    - split; [done|]. eapply moves_trans; [exact Hm|]. eexists [(_, r1); (_, r2)].
      split; [simpl; by rewrite <- app_assoc|]. simpl. by rewrite join_replicate, Nat.sub_diag.
    - left. unfold undo. simpl. rewrite Hg, Hst. pose proof (join_replicate (Z.to_nat (num_workers (glob s))) 0 [R_odp]) as Hj.
      simpl in Hj. by rewrite Hj. }
  eapply (wp_calm_step _ _ (λ _, True)); [apply calm_configure| |].
  { eapply wp_mono; [|apply (configure_ok items)]; [done|]. change (heap_of (glob s)) with (heap (glob s)). by rewrite (proj1 Hnow). }
  intros rc s1 _ Hn1. pose proof (now_calm _ _ _ _ Hnow Hn1) as [H1 Hg1].
  destruct (negb _); [by apply Hstop|].
  eapply wp_calm_step; [apply calm_arg|apply arg_string_ok|].
  { change (heap_of (glob s1)) with (heap (glob s1)). rewrite (proj1 H1). eapply (parsed_readable slots); [exact Hparsed|]. by left. }
  intros file s2 _ Hn2. pose proof (now_calm _ _ _ _ H1 Hn2) as [H2 Hg2].
  eapply wp_calm_step; [by apply calm_of_callv|apply any_callv|]. intros rc2 s3 _ Hn3.
  pose proof (now_calm _ _ _ _ H2 Hn3) as [H3 Hg3]. destruct (negb _); [apply Hstop; split; [done|congruence]|].
  destruct H3 as [Hh3 (t & Ht & Hr)]. apply wp_bind. eapply wp_mono; [|by apply proc_release_ok].
  intros [] s4 (Ht4 & Hs4 & Hm4 & Hsp). apply wp_call_. intros r w E. split; [done|]. exists (t ++ [(A_sleep 1, r)]).
  split; [simpl; by rewrite Ht4, Ht, app_assoc|]. simpl. rewrite Hs4, Hg3, Hg2, Hg1, Hst, held_app, Hr. simpl. right.
  split; [congruence|]. eauto.
Qed.

Lemma proc_start_ok s :
  now h [R_odp] s → netwrap_state (glob s) = NETWRAP_ODP_INIT_LOCAL → wp (start_stack a) (λ _ s', constructed s') s.
Proof using SocketLaws0 Hparsed Hcount.
  intros [Hh Hm] Hst. destruct (holds_lists _ _ _ (proj1 Hparsed) Hcount) as [items Hl].
  apply wp_bind, wp_bind, wp_getg, wp_bind. change (heap_of (glob s)) with (heap (glob s)).
  eapply wp_mono; [|apply (init_names_ok items); change (heap_of (glob s)) with (heap (glob s)); by rewrite Hh].
  intros names s' [-> _]. apply wp_callv. intros r w E. set (s1 := after s _ r w). cbn beta.
  assert (H1 : now h (if r_val r =? 0 then [R_nfp; R_odp] else [R_odp]) s1).
  { split; [done|]. eapply moves_trans; [exact Hm|]. apply moves_after. unfold hold. cbn [fst snd]. by destruct (r_val r =? 0). }
  destruct (r_val r =? 0); cbn [negb].
  2: { apply (proc_give_up_ok [R_odp]); [done|simpl; by rewrite Hst|]. left. unfold undo. simpl. by rewrite Hst. }
  eapply wp_calm_step; [by apply calm_of_call|apply any_call|]. intros mask s2 _ Hn2.
  destruct (now_calm _ _ _ _ H1 Hn2) as [H2 Hg2].
  assert (Hst2 : netwrap_state (glob s2) = NETWRAP_ODP_INIT_LOCAL) by (by rewrite Hg2).
  destruct (negb _). { apply (proc_give_up_ok [R_nfp; R_odp]); [done|by rewrite Hst2|]. right. unfold undo. by rewrite Hst2. }
  apply wp_bind, wp_setg, wp_bind, wp_setg, wp_bind, wp_getg, wp_bind, wp_callv. intros r3 w3 E3. cbn beta.
  set (s3 := after _ _ r3 w3). change (num_workers (glob _)) with (r_out mask).
  assert (H3 : now h (replicate (Z.to_nat (r_val r3)) R_thread ++ [R_nfp; R_odp]) s3).
  { destruct H2 as [Hh2 Hm2]. split; [done|]. eapply moves_trans; [exact Hm2|]. by apply (moves_after (MkApp _ _ (trace s2) _)). }
  destruct (Z.eqb_spec (r_val r3) (r_out mask)) as [Hr3|_]; cbn [negb].
  - apply wp_bind, wp_setg. rewrite Hr3 in H3. by apply proc_finish_ok; [apply (now_set h _ s3 (set_state NETWRAP_WORKERS_STARTED))|].
  - assert (Hend : ∀ s', now h [R_nfp; R_odp] s' ∧ glob s' = glob s3 → wp abandon (λ _ s', constructed s') s').
    { clear -Hparsed SocketLaws0. intros s' [Hn Hg]. apply (proc_give_up_ok [R_nfp; R_odp]); [done|by rewrite Hg|].
      left. unfold undo. by rewrite Hg. }
    eapply wp_calm_step; [by apply calm_of_call_|apply any_call_|]. intros [] s4 _ Hn4.
    destruct (now_calm _ _ _ _ H3 Hn4) as [H4 Hg4].
    destruct (Z.eqb_spec (r_val r3) (-1)) as [Hr3|]; cbn [negb when].
    + apply wp_bind, wp_ret, Hend. by rewrite Hr3 in H4.
    + apply wp_bind, wp_call_. intros r5 w5 E5. apply Hend. split; [|done]. destruct H4 as [Hh4 Hm4]. split; [done|].
      eapply moves_trans; [exact Hm4|]. apply moves_after. unfold hold. cbn [fst snd]. by rewrite join_replicate, Nat.sub_diag.
Qed.
End Process.

Section Lifetime.
Context {W F : Type} `{!App W F, !SocketLaws W F}.
Local Abbreviation st := (app W F proc_t).
Implicit Types (s : st).

Lemma ctor_ok b0 fuel env s :
  ready b0 (heap (glob s)) → env_ok b0 fuel env →
  wp (nfp_netwrap_main_ctor fuel env) (λ _ s', constructed b0 s s') s.
Proof using SocketLaws0.
  intros Hr He. apply wp_bind, wp_setg, wp_bind, wp_on_heap. eapply wp_mono; [|by apply parse_env_ok].
  intros [rc a] h Hres. cbn [fst snd] in Hres. set (s1 := MkApp _ _ _ _). cbn [fst snd].
  destruct Hres as [(Hrc & Hp & Hn)|[Hrc Hsp]]; rewrite Hrc; cbn [negb].
  2: { apply wp_ret. split; [done|]. exists []. by rewrite app_nil_r. }
  apply wp_bind, wp_callv. intros r w E. set (s2 := after s1 _ r w).
  assert (H2 : now s h (if r_val r =? 0 then [R_odp] else []) s2).
  { split; [done|]. apply (moves_after (MkApp (world s) (nfp_errno s) (trace s) (glob s2))). unfold hold. cbn [fst snd].
    by destruct (r_val r =? 0). }
  change (negb (EXIT_SUCCESS =? EXIT_SUCCESS)) with false. cbn iota.
  destruct (r_val r =? 0); cbn [negb].
  2: { destruct H2 as [Hh (t & Ht & Hheld)]. eapply wp_mono; [|by eapply proc_release_ok].
       intros [] s3 (Ht3 & Hs3 & _ & Hsp). split; [done|]. exists t. split; [congruence|]. by rewrite Hs3, Hheld. }
  apply wp_bind, wp_setg. set (s3 := MkApp _ _ _ _).
  assert (H3 : now s h [R_odp] s3) by (by apply (now_set s h _ s2 (set_state NETWRAP_ODP_INIT_GLOBAL))).
  eapply wp_calm_step; [by apply calm_of_callv|apply any_callv|]. intros rc4 s4 _ Hn4.
  destruct (now_calm _ _ _ _ _ H3 Hn4) as [H4 Hg4].
  destruct (negb _).
  - eapply (proc_give_up_ok b0 s h a Hp [R_odp]); [done|by rewrite Hg4|]. left. unfold undo. by rewrite Hg4.
  - apply wp_bind, wp_setg. eapply (proc_start_ok b0 s h a Hp Hn); [|done].
    by apply (now_set s h _ s4 (set_state NETWRAP_ODP_INIT_LOCAL)).
Qed.

(** [C29] The constructor of netwrap_proc returns on every path, whatever the
    environment variable NFP_NETWRAP_ENV says and whatever fails, and so does the destructor
    that runs after the program.  When the constructor started everything, or
    nothing, the destructor gives back exactly what is held: it joins the
    workers, then terminates the stack and ODP.  When a step failed after ODP
    was started, the constructor has already called the destructor, and as
    [netwrap_state] is not reset the second run releases again what is no
    longer held; and when it was the choice of the cores that failed, the first
    run terminated ODP below the stack.  At most two strings are left in
    memory.  No option is given twice, and memory does not run out. *)
Theorem netwrap_proc_lifetime b0 fuel env s :
  ready b0 (heap (glob s)) → env_ok b0 fuel env →
  ∃ s1 t1 s2 t2, nfp_netwrap_main_ctor fuel env s = (Ret (), s1) ∧ trace s1 = trace s ++ t1 ∧
    library_lifetime fuel env s = (Ret (), s2) ∧ trace s2 = trace s1 ++ t2 ∧
    spare 2 b0 (heap (glob s2)) ∧
    ((∃ t r n, t1 = t ++ [(A_sleep 1, r)] ∧ held [] t1 = Some (replicate n R_thread ++ [R_nfp; R_odp]) ∧
        held [] (t1 ++ t2) = Some []) ∨
     netwrap_state (glob s1) = NETWRAP_UNINT ∧ held [] t1 = Some [] ∧ held [] (t1 ++ t2) = Some [] ∨
     netwrap_state (glob s1) ≠ NETWRAP_UNINT ∧ held [] (t1 ++ t2) = None ∧
       (held [] t1 = Some [] ∨ netwrap_state (glob s1) = NETWRAP_ODP_INIT_LOCAL ∧ held [] t1 = None)).
Proof using SocketLaws0.
  intros Hr He. destruct (ctor_ok b0 fuel env s Hr He) as ([] & s1 & Hrun & Hsp & t1 & Ht1 & Hout).
  destruct (dtor_acts s1) as ([] & s2 & Hrun2 & Hg & t2 & Ht2 & Hact).
  exists s1, t1, s2, t2. split_and!; [done..| |done|by rewrite Hg|].
  { unfold library_lifetime. by rewrite (bind_Ret _ _ _ _ _ Hrun). }
  rewrite held_app. destruct (held [] t1) as [rs|]; cbn [mbind option_bind].
  2: { right. right. destruct (netwrap_state (glob s1)); try done. auto. }
  rewrite Hact. unfold undo. destruct (netwrap_state (glob s1)) eqn:Est; cbn iota in Hout.
  1: subst rs; auto. 1-3: subst rs; right; right; by auto.
  destruct Hout as [->|(-> & t & r & ->)].
  - right. right. split_and!; [done| |by left]. by destruct (Z.to_nat (num_workers (glob s1))).
  - left. eexists t, r, _. split_and!; [done..|]. by rewrite join_replicate, Nat.sub_diag.
Qed.
End Lifetime.

(** ** Example *)

(** NFP_NETWRAP_ENV is "-i eth0 -c 2". *)
Definition demo_variable : bytes := text "-i eth0 -c 2".
Definition demo_env_memory : CliArgParse.state := CliArgParseProofs.sample "-i eth0 -c 2".
Definition demo_proc : app demo (gset Z) proc_t :=
  MkApp (Demo 3 3) 0 [] (MkProc demo_env_memory NETWRAP_UNINT 0).

Lemma demo_env_ok : env_ok (CliArgParse.blocks demo_env_memory) 20 (Some (1%positive, 0%nat)).
Proof.
  exists demo_variable, []. split_and!; [|by apply (bool_decide_unpack _); vm_compute|by vm_compute|by vm_compute; lia].
  apply CliArgParseProofs.whole_string; [done|]. by apply (bool_decide_unpack _); vm_compute.
Qed.

Lemma netwrap_proc_lifetime_witness :
  ∃ s1 t1 s2 t2, nfp_netwrap_main_ctor 20 (Some (1%positive, 0%nat)) demo_proc = (Ret (), s1) ∧
    trace s1 = trace demo_proc ++ t1 ∧
    library_lifetime 20 (Some (1%positive, 0%nat)) demo_proc = (Ret (), s2) ∧ trace s2 = trace s1 ++ t2 ∧
    spare 2 (CliArgParse.blocks demo_env_memory) (heap (glob s2)) ∧
    ((∃ t r n, t1 = t ++ [(A_sleep 1, r)] ∧ held [] t1 = Some (replicate n R_thread ++ [R_nfp; R_odp]) ∧
        held [] (t1 ++ t2) = Some []) ∨
     netwrap_state (glob s1) = NETWRAP_UNINT ∧ held [] t1 = Some [] ∧ held [] (t1 ++ t2) = Some [] ∨
     netwrap_state (glob s1) ≠ NETWRAP_UNINT ∧ held [] (t1 ++ t2) = None ∧
       (held [] t1 = Some [] ∨ netwrap_state (glob s1) = NETWRAP_ODP_INIT_LOCAL ∧ held [] t1 = None)).
Proof.
  apply (netwrap_proc_lifetime (W := demo) (F := gset Z)); [|exact demo_env_ok].
  split_and!; [done|apply CliArgParseProofs.sample_good|done].
Defined.

(** A world in which [odp_init_local] fails: ODP is terminated twice. *)
Definition refusing : App demo (gset Z) := {|
  api c w := match c with A_odp_init_local => (rep (-1) [] ∅, w) | _ => demo_api c w end;
  NFP_FD_ZERO := ∅;
  NFP_FD_SET x set := {[x]} ∪ set;
  NFP_FD_CLR x set := set ∖ {[x]};
  NFP_FD_ISSET x set := bool_decide (x ∈ set);
|}.

Example odp_terminated_twice :
  (trace (@library_lifetime _ _ refusing 20 (Some (1%positive, 0%nat)) demo_proc).2).*1 =
    [A_odp_init_global; A_odp_init_local; A_stop_processing; A_odp_term_global;
     A_stop_processing; A_odp_term_global].
Proof. by vm_compute. Qed.

End NetwrapProcStart.
