(* ===== verification/NameArgs.v ===== *)
(** * Programs that take a list of interface names

    multicast (example/multicast/app_main.c) and ioctl_test
    (example/ioctl_test/app_main.c) have their own parser of the command line:
    "-i" takes names separated by commas, which stay in one copy of the argument
    that [strtok_r] has cut; [if_names] is an array of pointers into it.  They
    start in the same way, with one thread of their own besides the workers.
    Nothing is freed before the end of the process.  Printed information is left
    out. *)

From S2P Require Import Prelude App AppHeap CliArgParse Strtok FpmDirect DefaultApp.
Import App AppHeap.

Module NameArgs.

Definition MAX_WORKERS : Z := 32.
Definition NFP_FP_INTERFACE_MAX : Z := FpmDirect.NFP_FP_INTERFACE_MAX.
Definition NFP_IFNAMSIZ : Z := DefaultApp.NFP_IFNAMSIZ.
Definition EXIT_SUCCESS : Z := 0.
Definition EXIT_FAILURE : Z := 1.

Record appl_args_t := ApplArgs {
  core_count : Z;
  if_count : Z;
  if_names : option positive;
  cli_file : option positive;
}.

Section Options.
Local Abbreviation MC := (M CliArgParse.state).

(** [malloc]; the contents are set before they are read. *)
Definition malloc (len : Z) : MC (option positive) := CliArgParse.alloc (CliArgParse.BStr (replicate (Z.to_nat len) 0)).

Definition strcpy (dst : positive) (src : CliArgParse.ptr) : MC unit :=
  t ← CliArgParse.read_string src;
  b ← gets (λ s, CliArgParse.blocks s !! dst);
  match b with
  | Some (CliArgParse.BStr l) =>
      if decide (length t < length l)%nat
      then modify (CliArgParse.set_blocks (<[dst := CliArgParse.BStr (t ++ 0 :: drop (S (length t)) l)]>)) else stuck
  | _ => stuck
  end.

(** [if_names[i] = token;] *)
Definition store_name (arr : option positive) (i : Z) (token : CliArgParse.ptr) : MC unit :=
  a ← of_option arr;
  b ← gets (λ s, CliArgParse.blocks s !! a);
  match b with
  | Some (CliArgParse.BPtrs l) =>
      if decide (Z.to_nat i < length l)%nat
      then modify (CliArgParse.set_blocks (<[a := CliArgParse.BPtrs (<[Z.to_nat i := Some token]> l)]>)) else stuck
  | _ => stuck
  end.

(** [for (str = names, i = 0;; str = NULL, i++) { token = strtok_r(..); ... }]:
    [save] is where the next call goes on; the result is [i]. *)
Definition token_step (use : Z → CliArgParse.ptr → MC unit) (x : CliArgParse.ptr * Z) : MC ((CliArgParse.ptr * Z) + Z) :=
  t ← Strtok.strtok CliArgParse.ch_comma x.1;
  match t.1 with
  | None => mret (inr x.2)
  | Some token => use x.2 token;; mret (inl (t.2, x.2 + 1))
  end.
Definition each_token (fuel : nat) (names : positive) (use : Z → CliArgParse.ptr → MC unit) : MC Z :=
  loop fuel (token_step use) ((names, 0%nat), 0).

(** [case 'i'] *)
Definition names_option (fuel : nat) (optarg : CliArgParse.ptr) (a : appl_args_t) : MC appl_args_t :=
  len ← CliArgParse.strlen optarg;
  if len =? 0 then exit EXIT_FAILURE
  else
    names ← malloc (len + 1);
    match names with
    | None => exit EXIT_FAILURE
    | Some names =>
        strcpy names optarg;;
        n ← each_token fuel names (λ _ _, mret ());
        if n =? 0 then exit EXIT_FAILURE
        else
          arr ← CliArgParse.alloc (CliArgParse.BPtrs (replicate (Z.to_nat n) None));
          strcpy names optarg;;
          each_token fuel names (store_name arr);;
          mret (ApplArgs (core_count a) n arr (cli_file a))
    end.

(** [case 'f'] *)
Definition file_option (optarg : CliArgParse.ptr) (a : appl_args_t) : MC appl_args_t :=
  len ← CliArgParse.strlen optarg;
  if len =? 0 then exit EXIT_FAILURE
  else
    file ← malloc (len + 1);
    match file with
    | None => exit EXIT_FAILURE
    | Some f => strcpy f optarg;; mret (ApplArgs (core_count a) (if_count a) (if_names a) file)
    end.

Definition parse_option (fuel : nat) (opt : Z * CliArgParse.ptr) (a : appl_args_t) : MC appl_args_t :=
  let '(c, optarg) := opt in
  if c =? 99 (* c *) then
    n ← CliArgParse.atoi optarg; mret (ApplArgs n (if_count a) (if_names a) (cli_file a))
  else if c =? 105 (* i *) then names_option fuel optarg a
  else if c =? 104 (* h *) then exit EXIT_SUCCESS
  else if c =? 102 (* f *) then file_option optarg a
  else mret a.

Fixpoint parse_options (fuel : nat) (opts : DefaultApp.options) (a : appl_args_t) : MC appl_args_t :=
  match opts with
  | [] => mret a
  | o :: opts' => a' ← parse_option fuel o a; parse_options fuel opts' a'
  end.

Definition parse_args (fuel : nat) (opts : DefaultApp.options) : MC appl_args_t :=
  a ← parse_options fuel opts (ApplArgs 0 0 None None);
  if if_count a =? 0 then exit EXIT_FAILURE else mret a.

(** [params.if_names[i]], as a string. *)
Definition interface_name (a : appl_args_t) (i : Z) : MC bytes :=
  arr ← of_option (if_names a);
  b ← gets (λ s, CliArgParse.blocks s !! arr);
  match b with
  | Some (CliArgParse.BPtrs l) =>
      p ← of_option (l !! Z.to_nat i);
      p ← of_option p;
      CliArgParse.read_string p
  | _ => stuck
  end.
End Options.

(** ** [main] *)

(** The globals: memory. *)
Record names_t := MkNames { heap : CliArgParse.state }.

#[global] Program Instance names_heap : HasHeap names_t :=
  {| heap_of := heap; put_heap h _ := MkNames h |}.
Next Obligation. done. Qed.
Next Obligation. by intros []. Qed.

Section Main.
Context {W F : Type} `{!App W F}.
Local Abbreviation MN := (M (app W F names_t)).

Definition init_names (a : appl_args_t) : MN (list bytes) :=
  for_acc 0 (Z.to_nat (Z.min (if_count a) NFP_FP_INTERFACE_MAX)) (λ i names,
    name ← on_heap (interface_name a i);
    mret (names ++ [take (Z.to_nat (NFP_IFNAMSIZ - 1)) name])) [].

(** From the command line on: the stack, workers that run [worker] and a thread
    that runs [own]. *)
Definition run (fuel : nat) (worker own linux_core : Z) (opts : DefaultApp.options) : MN Z :=
  a ← on_heap (parse_args fuel opts);
  names ← init_names a;
  r ← callv (A_initialize (if_count a) names);
  if negb (r =? 0) then exit EXIT_FAILURE
  else
    mask ← call (A_default_worker_cpumask (core_count a) MAX_WORKERS);
    if negb (r_val mask =? 0) then call_ A_terminate;; mret EXIT_FAILURE
    else
      let num_workers := r_out mask in
      ret_val ← callv (A_threads_create worker num_workers);
      if negb (ret_val =? num_workers) then
        call_ A_stop_processing;;
        when (negb (ret_val =? -1)) (call_ (A_thread_join ret_val));;
        call_ A_terminate;;
        mret EXIT_FAILURE
      else
        file ← arg_string (cli_file a);
        call_ (A_cli_process_file file);;
        call_ (A_thread_create own linux_core);;
        call_ (A_thread_join num_workers);;
        call_ (A_thread_join 1);;
        call_ A_terminate;;
        mret 0.
End Main.

End NameArgs.
