(* ===== verification/NameArgsProofs.v ===== *)
(** * Programs that take a list of interface names: the command line

    What [parse_args] makes of the options, against a reference that works on
    their texts. *)

From S2P Require Import Prelude App AppHeap CliArgParse CliArgParseProofs Strtok ArgHeap DefaultApp NameArgs.
Import CliArgParse(state, ptr, block, BStr, BPtrs, blocks, set_blocks, fresh_ptr, oracle, read_string, ch_comma, atoi_text).
Import CliArgParseProofs(string_at, read_string_at, whole_string, good, alloc_state).
Import Strtok ArgHeap NameArgs.

Module NameArgsProofs.

(** ** Reference *)

(** The names in an argument. *)
Definition names_of (t : bytes) : list bytes := words ch_comma t.

Record ref_args := RefArgs { ra_core : Z; ra_names : list bytes; ra_cli : option bytes }.

(** One option with its text; [inr] is the code of [exit]. *)
Definition ref_option (o : Z * bytes) (a : ref_args) : ref_args + Z :=
  let '(c, t) := o in
  if c =? 99 then inl (RefArgs (atoi_text t) (ra_names a) (ra_cli a))
  else if c =? 105 then
    match names_of t with [] => inr EXIT_FAILURE | l => inl (RefArgs (ra_core a) l (ra_cli a)) end
  else if c =? 104 then inr EXIT_SUCCESS
  else if c =? 102 then
    match t with [] => inr EXIT_FAILURE | _ => inl (RefArgs (ra_core a) (ra_names a) (Some t)) end
  else inl a.

Fixpoint ref_options (os : list (Z * bytes)) (a : ref_args) : ref_args + Z :=
  match os with
  | [] => inl a
  | o :: os' => match ref_option o a with inl a' => ref_options os' a' | inr c => inr c end
  end.

Definition ref_parse (os : list (Z * bytes)) : ref_args + Z :=
  match ref_options os (RefArgs 0 [] None) with
  | inl a => match ra_names a with [] => inr EXIT_FAILURE | _ => inl a end
  | inr c => inr c
  end.

(** ** Memory *)

(** Memory only grows. *)
Definition grows (h h' : state) : Prop :=
  blocks h ⊆ blocks h' ∧ good h' ∧ ∀ i, oracle h' i = true.

Lemma grows_trans h1 h2 h3 : grows h1 h2 → grows h2 h3 → grows h1 h3.
Proof. intros (H1 & _) (H2 & ? & ?). split_and!; [by etrans|done..]. Qed.

Lemma grows_alloc h h' b : grows h h' → grows h (alloc_state b h').
Proof.
  intros (Hs & Hg & Ho). split_and!; [|by apply good_alloc|done]. simpl. etrans; [exact Hs|].
  apply insert_subseteq. apply eq_None_not_Some. intros ?%Hg. lia.
Qed.

(** A block that is not of [h] is written. *)
Lemma grows_write h h' c b : grows h h' → blocks h !! c = None → is_Some (blocks h' !! c) →
  grows h (set_blocks (<[c := b]>) h').
Proof.
  intros (Hs & Hg & Ho) Hc Hs'. split_and!; [| |done].
  - simpl. by apply insert_subseteq_r.
  - intros p Hp. simpl in *. apply Hg. destruct (decide (p = c)) as [->|]; [done|]. by rewrite lookup_insert_ne in Hp.
Qed.

Lemma grows_recut h h' c h'' : grows h h' → blocks h !! c = None → is_Some (blocks h' !! c) → recut c h' h'' → grows h h''.
Proof. intros Hg Hc Hs (l & -> & _). by apply grows_write. Qed.

(** ** The loop over the names *)

(** [ptrs] point to the words before [pos]; [rest] is the text from there on. *)
Definition cut (c : positive) (ws : list bytes) (h : state) (pos : nat) (rest : bytes) (ptrs : list ptr) : Prop :=
  string_at (blocks h) c pos rest [] ∧ ∃ done, ws = done ++ words ch_comma rest ∧
    Forall2 (λ (p : ptr) w, p.1 = c ∧ str_at h p w ∧ (p.2 + length w < pos ∨ rest = [])%nat) ptrs done.

Lemma cut_same c ws h h' pos rest ptrs :
  blocks h' !! c = blocks h !! c → cut c ws h pos rest ptrs → cut c ws h' pos rest ptrs.
Proof.
  intros Hc ((H0 & l & Hl & Hd) & done & -> & Hp). split; [split; [done|]; exists l; by rewrite Hc|].
  exists done. split; [done|]. eapply Forall2_impl; [exact Hp|]. intros [b k] w (Hb & (r & Hr0 & l' & Hl' & Hd') & Hlt). simpl in *. subst b.
  split_and!; [done| |done]. exists r. split; [done|]. exists l'. simpl. by rewrite Hc.
Qed.

Lemma cut_strtok c ws h pos rest ptrs :
  cut c ws h pos rest ptrs →
  wp (Strtok.strtok ch_comma (c, pos)) (λ x h', recut c h h' ∧
    match x.1 with
    | None => Forall2 (str_at h') ptrs ws
    | Some p => ∃ pos' rest', x.2 = (c, pos') ∧ cut c ws h' pos' rest' (ptrs ++ [p])
    end) h.
Proof.
  intros (Hs & done & -> & Hp). eapply wp_mono; [|by apply strtok_ok].
  intros [o save] h' (Hr & Hk & pos' & rest' & Hsave & Hs' & Hle & Hnil & Ho). cbn [fst snd] in *. split; [done|].
  assert (Hp' : Forall2 (λ (p : ptr) w, p.1 = c ∧ str_at h' p w ∧ (p.2 + length w < pos' ∨ rest' = [])%nat) ptrs done).
  { eapply Forall2_impl; [exact Hp|]. intros p w (Hpc & Hw & Hlt). split_and!; [done|apply Hk; [done|by right]|].
    destruct Hlt as [?|Hr0]; [left; lia|right; auto]. }
  destruct o as [p|].
  - destruct Ho as (w & Hpc & Hw & Hws & Hlt). exists pos', rest'. split; [done|]. split; [done|].
    exists (done ++ [w]). rewrite Hws, <- app_assoc. split; [done|]. apply Forall2_app; [done|]. constructor; [by split_and!|constructor].
  - rewrite Ho, app_nil_r. eapply Forall2_impl; [exact Hp'|]. by intros p w (_ & ? & _).
Qed.

Lemma each_token_ok fuel c t h (use : Z → ptr → M state unit) (R : list ptr → state → Prop) :
  string_at (blocks h) c 0 t [] → (length (names_of t) < fuel)%nat → R [] h →
  (∀ ptrs h1 h2, R ptrs h1 → recut c h1 h2 → R ptrs h2) →
  (∀ ptrs p h1, R ptrs h1 → (length ptrs < length (names_of t))%nat →
     wp (use (Z.of_nat (length ptrs)) p) (λ _ h2, R (ptrs ++ [p]) h2 ∧ blocks h2 !! c = blocks h1 !! c) h1) →
  wp (each_token fuel c use) (λ n h', ∃ ptrs, n = Z.of_nat (length ptrs) ∧ R ptrs h' ∧
    Forall2 (str_at h') ptrs (names_of t)) h.
Proof.
  intros Hs Hf HR Hcut Huse. unfold each_token.
  enough (Hloop : ∀ k pos rest ptrs h1, cut c (names_of t) h1 pos rest ptrs → R ptrs h1 →
    (length (names_of t) - length ptrs < k)%nat →
    wp (loop k (token_step use) ((c, pos), Z.of_nat (length ptrs))) (λ n h', ∃ ptrs, n = Z.of_nat (length ptrs) ∧
      R ptrs h' ∧ Forall2 (str_at h') ptrs (names_of t)) h1).
  { apply (Hloop fuel 0%nat t [] h); [|done|simpl; lia]. split; [done|]. exists []. by split. }
  induction k as [|k IH]; intros pos rest ptrs h1 Hc HR1 Hk; [lia|]. cbn [loop]. apply wp_bind.
  apply wp_bind. eapply wp_mono; [|eapply cut_strtok, Hc]. intros [o save] h2 [Hr2 Ho]. cbn [fst snd] in *.
  pose proof (Hcut _ _ _ HR1 Hr2) as HR2. destruct o as [p|].
  2: { apply wp_ret, wp_ret. eauto. }
  destruct Ho as (pos' & rest' & -> & Hc2).
  assert (Hlen : (length ptrs < length (names_of t))%nat).
  { destruct Hc2 as (_ & done & Hd & Hp). apply Forall2_length in Hp. rewrite length_app in Hp. simpl in Hp.
    rewrite Hd, length_app. lia. }
  apply wp_bind. eapply wp_mono; [|by apply Huse]. intros [] h3 [HR3 Hsame]. apply wp_ret.
  replace (Z.of_nat (length ptrs) + 1) with (Z.of_nat (length (ptrs ++ [p]))) by (rewrite length_app; simpl; lia).
  eapply IH; [by eapply cut_same|done|]. rewrite length_app. simpl. lia.
Qed.

(** ** Options *)

Lemma string_mono m m' b k t r : m ⊆ m' → string_at m b k t r → string_at m' b k t r.
Proof. intros Hm (H0 & l & Hl & Hd). split; [done|]. exists l. split; [by eapply lookup_weaken|done]. Qed.

Lemma str_mono h h' p u : blocks h ⊆ blocks h' → str_at h p u → str_at h' p u.
Proof. intros Hm [r Hr]. exists r. by eapply string_mono. Qed.

Lemma strcpy_ok h dst (src : ptr) t r l :
  string_at (blocks h) src.1 src.2 t r → blocks h !! dst = Some (BStr l) → length l = S (length t) →
  strcpy dst src h = (Ret (), set_blocks (<[dst := BStr (t ++ [0])]>) h).
Proof.
  intros Hs Hd Hl. destruct src as [b k]. unfold strcpy. rewrite (bind_Ret _ _ _ _ _ (read_string_at _ _ _ _ _ Hs)).
  rewrite bind_gets. simpl. rewrite Hd. destruct (decide _) as [_|Hn]; [|lia]. by rewrite drop_ge by lia.
Qed.

(** Memory is in order. *)
Definition sound (h : state) : Prop := good h ∧ ∀ i, oracle h i = true.

(** [a] has the names [ws]. *)
Definition has_names (h : state) (a : appl_args_t) (ws : list bytes) : Prop :=
  if_count a = Z.of_nat (length ws) ∧ ∃ arr ptrs, if_names a = Some arr ∧
    blocks h !! arr = Some (BPtrs (Some <$> ptrs)) ∧ Forall2 (str_at h) ptrs ws.

Lemma names_mono h h' a ws : blocks h ⊆ blocks h' → has_names h a ws → has_names h' a ws.
Proof.
  intros Hm (Hn & arr & ptrs & Ha & Hb & Hp). split; [done|]. exists arr, ptrs. split_and!; [done|by eapply lookup_weaken|].
  eapply Forall2_impl; [exact Hp|]. intros p w. by apply str_mono.
Qed.

Lemma sound_grows h : sound h → grows h h.
Proof. intros [? ?]. by split_and!. Qed.

(** [if_names[i] = token;] in a loop over the tokens. *)
Lemma store_name_ok arr n ptrs p h :
  blocks h !! arr = Some (BPtrs ((Some <$> ptrs) ++ replicate n None)) → (0 < n)%nat →
  store_name (Some arr) (Z.of_nat (length ptrs)) p h =
    (Ret (), set_blocks (<[arr := BPtrs ((Some <$> ptrs ++ [p]) ++ replicate (n - 1) None)]>) h).
Proof.
  intros Hb Hn. unfold store_name. cbn [of_option]. rewrite bind_ret, bind_gets. simpl. rewrite Hb, Nat2Z.id.
  destruct (decide _) as [_|Hx]; [|rewrite length_app, length_fmap, length_replicate in Hx; lia].
  destruct n as [|n]; [lia|]. do 4 f_equal. rewrite insert_app_r_alt by (by rewrite length_fmap).
  rewrite length_fmap, Nat.sub_diag. simpl. by rewrite fmap_app, <- app_assoc, Nat.sub_0_r.
Qed.

(** The copy of the argument that is cut. *)
Lemma names_copy_ok h h1 c (arg : ptr) t r l :
  grows h h1 → string_at (blocks h) arg.1 arg.2 t r → blocks h !! c = None → blocks h1 !! c = Some (BStr l) →
  length l = S (length t) →
  wp (strcpy c arg) (λ _ h2, grows h h2 ∧ string_at (blocks h2) c 0 t [] ∧ h2 = set_blocks (<[c := BStr (t ++ [0])]>) h1) h1.
Proof.
  intros Hg Hs Hc Hl Hlen. eexists _, _. split; [eapply strcpy_ok; [eapply string_mono; [apply Hg|exact Hs]|exact Hl|done]|].
  split_and!; [by apply grows_write|apply whole_string; [apply lookup_insert_eq|apply Hs]|done].
Qed.

(** The first pass counts the names. *)
Lemma count_names_ok fuel c t h1 :
  blocks h1 !! c = Some (BStr (t ++ [0])) → (0 ∉ t) → (length t < fuel)%nat →
  wp (each_token fuel c (λ _ _, mret ())) (λ n h2, n = Z.of_nat (length (names_of t)) ∧ recut c h1 h2) h1.
Proof.
  intros Hc H0 Hf. eapply wp_mono; [|apply (each_token_ok fuel c t h1 (λ _ _, mret ()) (λ _ h', recut c h1 h'))].
  - intros n h2 (ptrs & -> & Hr & Hp). by rewrite (Forall2_length _ _ _ Hp).
  - by apply whole_string.
  - pose proof (words_count ch_comma t). unfold names_of. lia.
  - by eapply recut_refl.
  - intros _ h2 h3. apply recut_trans.
  - intros _ _ h2 ? _. by apply wp_ret.
Qed.

(** The second pass stores them. *)
Lemma store_names_ok fuel c arr t h h1 :
  grows h h1 → blocks h !! c = None → blocks h !! arr = None → arr ≠ c →
  blocks h1 !! c = Some (BStr (t ++ [0])) → (0 ∉ t) → (length t < fuel)%nat →
  blocks h1 !! arr = Some (BPtrs (replicate (length (names_of t)) None)) →
  wp (each_token fuel c (store_name (Some arr))) (λ _ h2, grows h h2 ∧ ∃ ptrs,
    blocks h2 !! arr = Some (BPtrs (Some <$> ptrs)) ∧ Forall2 (str_at h2) ptrs (names_of t)) h1.
Proof.
  intros Hg Hc Ha Hac Hc1 H0 Hf Ha1.
  eapply wp_mono; [|apply (each_token_ok fuel c t h1 (store_name (Some arr)) (λ ptrs h', grows h h' ∧
    is_Some (blocks h' !! c) ∧
    blocks h' !! arr = Some (BPtrs ((Some <$> ptrs) ++ replicate (length (names_of t) - length ptrs) None))))].
  - intros n h2 (ptrs & _ & (Hg2 & _ & Ha2) & Hp). split; [done|]. exists ptrs. split; [|done].
    by rewrite Ha2, (Forall2_length _ _ _ Hp), Nat.sub_diag, app_nil_r.
  - by apply whole_string.
  - pose proof (words_count ch_comma t). unfold names_of. lia.
  - simpl. rewrite Nat.sub_0_r. eauto.
  - intros ptrs h2 h3 (Hg2 & Hs2 & Ha2) Hr. split_and!; [exact (grows_recut _ _ _ _ Hg2 Hc Hs2 Hr)| |];
      destruct Hr as (l & -> & _); simpl; [rewrite lookup_insert_eq; eauto|by rewrite lookup_insert_ne].
  - intros ptrs p h2 (Hg2 & Hs2 & Ha2) Hlen. eexists _, _. split; [eapply store_name_ok; [exact Ha2|lia]|].
    split_and!.
    + apply grows_write; [done..|]. rewrite Ha2. eauto.
    + simpl. by rewrite lookup_insert_ne.
    + simpl. by rewrite lookup_insert_eq, length_app, Nat.sub_add_distr.
    + simpl. by rewrite lookup_insert_ne.
Qed.

Lemma names_option_ok fuel (arg : ptr) a h t r :
  sound h → string_at (blocks h) arg.1 arg.2 t r → (length t < fuel)%nat →
  ends (names_option fuel arg a) (λ a' h', grows h h' ∧ has_names h' a' (names_of t) ∧ names_of t ≠ [] ∧
      core_count a' = core_count a ∧ cli_file a' = cli_file a)
    (λ c _, c = EXIT_FAILURE ∧ names_of t = []) h.
Proof.
  intros Hh Hs Hf. destruct arg as [b k]. cbn [fst snd] in Hs. unfold names_option, CliArgParse.strlen.
  apply ends_bind, ends_wp, wp_bind. exists t, h. split; [by eapply read_string_at|]. apply wp_ret.
  destruct (Z.eqb_spec (Z.of_nat (length t)) 0) as [Hz|Hz].
  { apply ends_exit. split; [done|]. destruct t; [done|simpl in Hz; lia]. }
  set (c := fresh_ptr h). set (l1 := replicate (Z.to_nat (Z.of_nat (length t) + 1)) 0). set (h1 := alloc_state (BStr l1) h).
  assert (Hc : blocks h !! c = None) by (apply eq_None_not_Some; intros ?%(proj1 Hh); lia).
  apply ends_bind, ends_wp. exists (Some c), h1. split; [unfold malloc, CliArgParse.alloc; by rewrite (proj2 Hh)|].
  apply ends_bind, ends_wp. eapply wp_mono; [|eapply (names_copy_ok h h1 c (b, k) t r l1);
    [by apply grows_alloc, sound_grows|done|done|apply lookup_insert_eq|unfold l1; rewrite length_replicate; lia]].
  intros [] h2 (Hg2 & Hs2 & Hh2). apply ends_bind, ends_wp.
  assert (Hc2 : blocks h2 !! c = Some (BStr (t ++ [0]))) by (rewrite Hh2; apply lookup_insert_eq).
  eapply wp_mono; [|by apply (count_names_ok fuel c t h2); [|apply Hs|]]. intros n h3 [-> Hr3].
  destruct (Z.eqb_spec (Z.of_nat (length (names_of t))) 0) as [Hn|Hn].
  { apply ends_exit. split; [done|]. destruct (names_of t); [done|simpl in Hn; lia]. }
  pose proof Hr3 as (l3 & Hh3 & Hl3). assert (Hc3 : blocks h3 !! c = Some (BStr l3)) by (rewrite Hh3; apply lookup_insert_eq).
  assert (Hg3 : grows h h3) by (eapply grows_recut; [exact Hg2|done|by eexists|exact Hr3]).
  rewrite Nat2Z.id. set (arr := fresh_ptr h3). set (h4 := alloc_state (BPtrs (replicate (length (names_of t)) None)) h3).
  assert (Ha3 : blocks h3 !! arr = None) by (apply eq_None_not_Some; intros ?%(proj1 (proj2 Hg3)); lia).
  assert (Hac : arr ≠ c) by congruence.
  apply ends_bind, ends_wp. exists (Some arr), h4. split; [unfold CliArgParse.alloc; by rewrite (proj2 (proj2 Hg3))|].
  apply ends_bind, ends_wp. eapply wp_mono; [|eapply (names_copy_ok h h4 c (b, k) t r l3);
    [by apply grows_alloc|done|done|simpl; by rewrite lookup_insert_ne|rewrite (Hl3 _ Hc2), length_app; simpl; lia]].
  intros [] h5 (Hg5 & Hs5 & Hh5). apply ends_bind, ends_wp.
  eapply wp_mono; [|apply (store_names_ok fuel c arr t h h5); rewrite ?Hh5; simpl; try done].
  - intros n h6 (Hg6 & ptrs & Ha6 & Hp6). apply ends_wp, wp_ret. split_and!; [done| |intros Hx; by rewrite Hx in Hn|done|done].
    split; [done|]. by exists arr, ptrs.
  - by rewrite <- Hh5.
  - by eapply lookup_weaken_None; [exact Ha3|apply Hg3].
  - apply lookup_insert_eq.
  - apply Hs.
  - by rewrite lookup_insert_ne, lookup_insert_eq.
Qed.

Lemma file_option_ok (arg : ptr) a h t r :
  sound h → string_at (blocks h) arg.1 arg.2 t r →
  ends (file_option arg a) (λ a' h', grows h h' ∧ t ≠ [] ∧
      ∃ p, a' = ApplArgs (core_count a) (if_count a) (if_names a) (Some p) ∧ blocks h' !! p = Some (BStr (t ++ [0])))
    (λ c _, c = EXIT_FAILURE ∧ t = []) h.
Proof.
  intros Hh Hs. destruct arg as [b k]. cbn [fst snd] in Hs. unfold file_option, CliArgParse.strlen.
  apply ends_bind, ends_wp, wp_bind. exists t, h. split; [by eapply read_string_at|]. apply wp_ret.
  destruct (Z.eqb_spec (Z.of_nat (length t)) 0) as [Hz|Hz].
  { apply ends_exit. split; [done|]. destruct t; [done|simpl in Hz; lia]. }
  set (c := fresh_ptr h). set (l1 := replicate (Z.to_nat (Z.of_nat (length t) + 1)) 0). set (h1 := alloc_state (BStr l1) h).
  assert (Hc : blocks h !! c = None) by (apply eq_None_not_Some; intros ?%(proj1 Hh); lia).
  apply ends_bind, ends_wp. exists (Some c), h1. split; [unfold malloc, CliArgParse.alloc; by rewrite (proj2 Hh)|].
  apply ends_bind, ends_wp. eapply wp_mono; [|eapply (names_copy_ok h h1 c (b, k) t r l1);
    [by apply grows_alloc, sound_grows|done|done|apply lookup_insert_eq|unfold l1; rewrite length_replicate; lia]].
  intros [] h2 (Hg2 & _ & ->). apply ends_wp, wp_ret. split_and!; [done|by intros ->|].
  exists c. split; [done|]. apply lookup_insert_eq.
Qed.

(** The arguments in memory are those of the reference. *)
Definition represents (h : state) (a : appl_args_t) (x : ref_args) : Prop :=
  core_count a = ra_core x ∧
  (ra_names x = [] ∧ if_count a = 0 ∨ ra_names x ≠ [] ∧ has_names h a (ra_names x)) ∧
  match ra_cli x with
  | None => cli_file a = None
  | Some t => ∃ p, cli_file a = Some p ∧ blocks h !! p = Some (BStr (t ++ [0]))
  end.

(** [x] is option [o] with its text, where it has one. *)
Definition option_text (m : memory) (fuel : nat) (o : Z * ptr) (x : Z * bytes) : Prop :=
  o.1 = x.1 ∧ (o.1 ∈ [99; 102; 105] → (∃ r, string_at m o.2.1 o.2.2 x.2 r) ∧ (length x.2 < fuel)%nat).

(** Changes of one field. *)
Lemma names_field h a ws a' : has_names h a ws → if_count a' = if_count a → if_names a' = if_names a → has_names h a' ws.
Proof. unfold has_names. by intros H -> ->. Qed.

Lemma represents_grows h h' a x : grows h h' → represents h a x → represents h' a x.
Proof.
  intros (Hm & _) (Hc & Hn & Hf). split_and!; [done| |].
  - destruct Hn as [?|[? Hn]]; [by left|right]. split; [done|]. by eapply names_mono.
  - destruct (ra_cli x); [|done]. destruct Hf as (p & ? & Hp). exists p. split; [done|]. by eapply lookup_weaken.
Qed.

Lemma list_option_ok fuel o x a r m h :
  m ⊆ blocks h → sound h → option_text m fuel o x → represents h a r →
  ends (parse_option fuel o a) (λ a' h', ∃ r', ref_option x r = inl r' ∧ grows h h' ∧ represents h' a' r')
    (λ c _, ref_option x r = inr c) h.
Proof.
  intros Hm Hh [Heq Htext] Hr. destruct o as [c arg], x as [c' t]. cbn [fst snd] in *. subst c'.
  unfold parse_option, ref_option. pose proof (sound_grows _ Hh) as Hg. pose proof Hr as (Hc & Hn & Hf).
  destruct (Z.eqb_spec c 99) as [->|].
  { destruct Htext as [[rr Hs] _]; [by left|]. destruct arg as [b k]. apply ends_wp, wp_bind, wp_bind. exists t, h.
    split; [eapply read_string_at, string_mono; [exact Hm|exact Hs]|]. apply wp_ret, wp_ret.
    eexists. split_and!; [done|done|]. by split_and!. }
  destruct (Z.eqb_spec c 105) as [->|].
  { destruct Htext as [[rr Hs] Hlen]; [set_solver|].
    eapply ends_mono; [| |eapply names_option_ok; [done|eapply string_mono; [exact Hm|exact Hs]|done]].
    - intros a' h' (Hg' & Hnames & Hne & Hc' & Hf'). destruct (names_of t) as [|w ws] eqn:E; [done|].
      eexists. split_and!; [done|done|]. apply (represents_grows _ _ _ _ Hg') in Hr as (_ & _ & Hf2).
      split_and!; [by rewrite Hc'|by right|]. by rewrite Hf'.
    - intros c' _ [-> ->]. done. }
  destruct (Z.eqb_spec c 104) as [->|]; [by apply ends_exit|].
  destruct (Z.eqb_spec c 102) as [->|].
  { destruct Htext as [[rr Hs] Hlen]; [set_solver|].
    eapply ends_mono; [| |eapply file_option_ok; [done|eapply string_mono; [exact Hm|exact Hs]]].
    - intros a' h' (Hg' & Hne & p & -> & Hp). destruct t as [|y t]; [done|].
      eexists. split_and!; [done|done|]. apply (represents_grows _ _ _ _ Hg') in Hr as (_ & Hn2 & _).
      split_and!; [done| |by exists p]. destruct Hn2 as [?|[? Hn2]]; [by left|right]. split; [done|]. by eapply names_field.
    - intros c' _ [-> ->]. done. }
  apply ends_wp, wp_ret. by eexists.
Qed.

Lemma names_options_ok fuel opts xs m : ∀ a r h,
  Forall2 (option_text m fuel) opts xs → m ⊆ blocks h → sound h → represents h a r →
  ends (parse_options fuel opts a) (λ a' h', ∃ r', ref_options xs r = inl r' ∧ grows h h' ∧ represents h' a' r')
    (λ c _, ref_options xs r = inr c) h.
Proof.
  intros a r h Hxs. revert a r h. induction Hxs as [|o x opts xs Ho _ IH]; intros a r h Hm Hh Hr; simpl.
  { apply ends_wp, wp_ret. exists r. split_and!; [done|by apply sound_grows|done]. }
  apply ends_bind. eapply ends_mono; [| |by eapply list_option_ok].
  - intros a' h' (r' & -> & Hg & Hr'). eapply ends_mono; [| |apply (IH a' r' h'); [|by destruct Hg as (_ & ?)|done]].
    + intros a2 h2 (r2 & ? & Hg2 & ?). exists r2. split_and!; [done|by eapply grows_trans|done].
    + done.
    + etrans; [exact Hm|apply Hg].
  - by intros c h' ->.
Qed.

(** The whole command line. *)
Lemma names_args_ok fuel opts xs h :
  sound h → Forall2 (option_text (blocks h) fuel) opts xs →
  ends (parse_args fuel opts) (λ a h', ∃ r, ref_parse xs = inl r ∧ ra_names r ≠ [] ∧ grows h h' ∧ represents h' a r)
    (λ c _, ref_parse xs = inr c) h.
Proof.
  intros Hh Hxs. unfold parse_args, ref_parse. apply ends_bind. eapply ends_mono; [| |eapply (names_options_ok fuel opts xs (blocks h) (ApplArgs 0 0 None None) (RefArgs 0 [] None)); [done..|]].
  - intros a h' (r & -> & Hg & Hc & Hn & Hf). destruct Hn as [[Hn ->]|[Hne (Hn & Hrest)]].
    + rewrite Hn. by apply ends_exit.
    + rewrite Hn. destruct (ra_names r) as [|w ws] eqn:E; [done|]. apply ends_wp, wp_ret. exists r. rewrite E.
      split_and!; [done|done|done|]. split_and!; [done| |done]. right. rewrite E. by split.
  - by intros c h' ->.
  - split_and!; [done|by left|done].
Qed.

End NameArgsProofs.
