(* ===== verification/NameArgsStart.v ===== *)
(** * Programs that take a list of interface names: from the command line to the end

    The stack is started with the names of the reference parser, and whatever
    fails, the threads are joined before the stack is terminated. *)

From S2P Require Import Prelude App AppProofs AppHeap Resources HttpdTheorems CliArgParse CliArgParseProofs Strtok ArgHeap DefaultApp NameArgs NameArgsProofs.
Import CliArgParse(BStr, blocks).
Import App AppProofs AppHeap Resources HttpdTheorems Strtok ArgHeap NameArgs NameArgsProofs.

Module NameArgsStart.

Lemma names_interface_ok h a ws i w :
  has_names h a ws → ws !! i = Some w → interface_name a (Z.of_nat i) h = (Ret w, h).
Proof.
  intros (_ & arr & ptrs & Ha & Hb & Hp) Hw. destruct (Forall2_lookup_r _ _ _ _ _ Hp Hw) as ([b k] & Hi & r & Hr).
  unfold interface_name. rewrite Ha. cbn [of_option]. rewrite bind_ret, bind_gets. cbn beta. rewrite Hb, Nat2Z.id.
  rewrite list_lookup_fmap, Hi. cbn [fmap option_fmap option_map of_option]. rewrite !bind_ret.
  by apply (CliArgParseProofs.read_string_at _ _ _ _ r).
Qed.

(** The names that are given to the stack. *)
Definition stack_names (ws : list bytes) : list bytes := take 31 <$> take 8 ws.

Section Run.
Context {W F : Type} `{!App W F}.
Local Abbreviation st := (app W F names_t).
Implicit Types (s : st).

Lemma names_init_ok a ws s :
  has_names (heap (glob s)) a ws → wp (init_names a) (λ names s', s' = s ∧ names = stack_names ws) s.
Proof.
  intros Hn. pose proof Hn as (Hcount & _). unfold init_names. rewrite Hcount.
  eapply wp_mono; [|apply (wp_for_acc _ (λ i names s', s' = s ∧ names = take 31 <$> take (Z.to_nat i) ws))]; [|done|].
  - intros names s' [-> ->]. split; [done|]. unfold stack_names. f_equal. rewrite Z.add_0_l, Nat2Z.id.
    change NFP_FP_INTERFACE_MAX with 8. destruct (decide (Z.of_nat (length ws) ≤ 8)).
    + rewrite Z.min_l by done. rewrite !take_ge; [done|lia|lia].
    + by rewrite Z.min_r by lia.
  - intros i names s' Hi [-> ->]. destruct (lookup_lt_is_Some_2 ws (Z.to_nat i)) as [w Hw]; [lia|].
    apply wp_bind, wp_on_heap. eexists _, _. split; [|apply wp_ret; split].
    + pose proof (names_interface_ok _ _ _ _ _ Hn Hw) as H. rewrite Z2Nat.id in H by lia. exact H.
    + by destruct s as [? ? ? []].
    + replace (Z.to_nat (i + 1)) with (S (Z.to_nat i)) by lia. by rewrite (take_S_r _ _ _ Hw), fmap_app.
Qed.

Context `{!SocketLaws W F}.

(** With the stack running since [s0]. *)
Definition ended_from s0 (rc : Z) s : Prop := (rc = EXIT_SUCCESS ∨ rc = EXIT_FAILURE) ∧ moves s0 [R_nfp] s [].

Lemma names_terminate_ok rc s0 s :
  rc = EXIT_SUCCESS ∨ rc = EXIT_FAILURE → started 0 s0 [] s → wp (call_ A_terminate;; mret rc) (ended_from s0) s.
Proof.
  intros Hrc Hm%started_none. apply wp_bind, wp_call_. intros r w E. apply wp_ret. split; [done|].
  eapply moves_trans; [exact Hm|]. by apply moves_after.
Qed.

Lemma names_workers_ok worker own linux_core cores file s :
  readable (heap (glob s)) file →
  wp (mask ← call (A_default_worker_cpumask cores MAX_WORKERS);
      if negb (r_val mask =? 0) then call_ A_terminate;; mret EXIT_FAILURE
      else
        let num_workers := r_out mask in
        ret_val ← callv (A_threads_create worker num_workers);
        if negb (ret_val =? num_workers) then
          call_ A_stop_processing;;
          when (negb (ret_val =? -1)) (call_ (A_thread_join ret_val));;
          call_ A_terminate;;
          mret EXIT_FAILURE
        else
          f ← arg_string file;
          call_ (A_cli_process_file f);;
          call_ (A_thread_create own linux_core);;
          call_ (A_thread_join num_workers);;
          call_ (A_thread_join 1);;
          call_ A_terminate;;
          mret 0) (ended_from s) s.
Proof.
  intros Hread. pose proof (started_0 s []) as H0.
  eapply (wp_neutral (λ g, g)); [frame|apply any_call|]. intros mask s1 _ Hn1. pose proof (started_neutral _ _ _ _ _ _ H0 Hn1) as H1.
  destruct (negb _); [apply names_terminate_ok; [by right|done]|]. cbv zeta. apply wp_bind, wp_callv. intros r w E.
  pose proof (started_create_many 0 s [] s1 worker (r_out mask) r w H1) as H2. cbn [Nat.add] in H2. set (s2 := after s1 _ r w) in *.
  assert (Hg2 : glob s2 = glob s) by (by destruct Hn1 as (_ & Hg & _)).
  destruct (Z.eqb_spec (r_val r) (r_out mask)) as [Hr|Hr]; cbn [negb].
  - eapply (wp_neutral (λ g, g)); [frame|apply arg_string_ok; by rewrite Hg2|]. intros f s3 _ Hn3.
    eapply (wp_neutral (λ g, g)); [frame|apply any_call_|]. intros [] s4 _ Hn4.
    pose proof (started_neutral _ _ _ _ _ _ (started_neutral _ _ _ _ _ _ H2 Hn3) Hn4) as H4.
    apply wp_bind, wp_call_. intros r5 w5 E5. pose proof (started_create _ _ _ _ own linux_core r5 w5 H4) as H5.
    apply wp_bind, wp_call_. intros r6 w6 E6. pose proof (started_join _ _ _ _ (r_out mask) r6 w6 H5) as H6.
    apply wp_bind, wp_call_. intros r7 w7 E7. pose proof (started_join _ _ _ _ 1 r7 w7 H6) as H7.
    apply names_terminate_ok; [by left|]. rewrite Hr in H7.
    match type of H7 with started ?n _ _ _ => replace n with 0%nat in H7 by lia end. exact H7.
  - eapply (wp_neutral (λ g, g)); [frame|apply any_call_|]. intros [] s3 _ Hn3. pose proof (started_neutral _ _ _ _ _ _ H2 Hn3) as H3.
    destruct (Z.eqb_spec (r_val r) (-1)) as [Hr1|]; cbn [negb when].
    + apply wp_bind, wp_ret, names_terminate_ok; [by right|]. by rewrite Hr1 in H3.
    + apply wp_bind, wp_call_. intros r4 w4 E4. pose proof (started_join _ _ _ _ (r_val r) r4 w4 H3) as H4.
      rewrite Nat.sub_diag in H4. apply names_terminate_ok; [by right|done].
Qed.

(** What the options [xs] make of the program: the calls [t] and the outcome. *)
Definition ran (xs : list (Z * bytes)) (o : outcome Z) (t : list (event F)) : Prop :=
  match ref_parse xs with
  | inr c => o = Exit c ∧ t = []
  | inl x => ∃ r t',
      t = (A_initialize (Z.of_nat (length (ra_names x))) (stack_names (ra_names x)), r) :: t' ∧
      if r_val r =? 0 then o = Ret EXIT_SUCCESS ∨ o = Ret EXIT_FAILURE else o = Exit EXIT_FAILURE ∧ t' = []
  end.

Definition run_ends xs s0 (o : outcome Z) s : Prop :=
  ∃ t, trace s = trace s0 ++ t ∧ held [] t = Some [] ∧ ran xs o t.

Lemma names_run_ok fuel worker own linux_core opts xs s :
  sound (heap (glob s)) → Forall2 (option_text (blocks (heap (glob s))) fuel) opts xs →
  ends (run fuel worker own linux_core opts) (λ rc s', run_ends xs s (Ret rc) s') (λ c s', run_ends xs s (Exit c) s') s.
Proof using SocketLaws0.
  intros Hh Hxs. unfold run. apply ends_bind, ends_on_heap. eapply ends_mono; [| |by apply names_args_ok].
  2: { intros c h Hp. exists []. rewrite app_nil_r. unfold ran. by rewrite Hp. }
  intros a h (x & Hp & Hne & _ & Hc & Hn & Hf). set (s1 := MkApp _ _ _ _). destruct Hn as [[? _]|[_ Hn]]; [done|].
  assert (Hread : readable (heap (glob s1)) (cli_file a)).
  { destruct (ra_cli x) as [t|]; [|by rewrite Hf]. destruct Hf as (p & -> & Hp'). by exists t. }
  apply ends_bind, ends_wp. eapply wp_mono; [|by apply (names_init_ok a (ra_names x))].
  intros names s' [-> ->]. apply ends_bind, ends_wp, wp_callv. intros r w E. rewrite (proj1 Hn) in E |- *.
  set (c := A_initialize _ _) in *. set (s2 := after s1 c r w).
  assert (Hran : ∀ o t', (if r_val r =? 0 then o = Ret EXIT_SUCCESS ∨ o = Ret EXIT_FAILURE else o = Exit EXIT_FAILURE ∧ t' = []) →
    ran xs o ((c, r) :: t')) by (intros o t' Ho; unfold ran; rewrite Hp; exists r, t'; split; [reflexivity|exact Ho]).
  destruct (r_val r =? 0) eqn:Hr; cbn [negb].
  2: { apply ends_exit. exists [(c, r)]. split; [done|]. split; [|by apply Hran]. cbn -[Z.eqb]. by rewrite Hr. }
  apply ends_wp. eapply wp_mono; [|by apply (names_workers_ok worker own linux_core (core_count a) (cli_file a) s2)].
  intros rc s3 (Hrc & t & Ht & Hheld). exists ((c, r) :: t). split; [rewrite Ht; simpl; by rewrite <- app_assoc|].
  split; [cbn -[Z.eqb]; by rewrite Hr|]. apply Hran. destruct Hrc as [-> | ->]; auto.
Qed.

(** [C23] The programs that take a list of interface names agree with a
    reference parser that works on the texts of the options: where it stops with
    an exit code, so do they, having called nothing; otherwise the first call
    starts the stack with the number of the names and the first eight of them,
    cut to 31 characters.  They end on every path, and whatever fails, the
    workers and the program's own thread are joined before the stack is
    terminated.  Memory does not run out. *)
Theorem name_list_programs fuel worker own linux_core opts xs s :
  sound (heap (glob s)) → Forall2 (option_text (blocks (heap (glob s))) fuel) opts xs →
  ∃ o s' t, run fuel worker own linux_core opts s = (o, s') ∧ trace s' = trace s ++ t ∧ held [] t = Some [] ∧ ran xs o t.
Proof using SocketLaws0.
  intros Hh Hxs. destruct (names_run_ok fuel worker own linux_core opts xs s Hh Hxs) as (o & s' & Hrun & Ho).
  assert (Hr : run_ends xs s o s') by (by destruct o). destruct Hr as (t & ?). by exists o, s', t.
Qed.
End Run.

(** ** Witness *)

(** The options "-i eth0,eth1". *)
Definition demo_names : app demo (gset Z) names_t :=
  MkApp (Demo 3 3) 0 [] (MkNames (CliArgParseProofs.sample "eth0,eth1")).

Lemma name_list_programs_witness :
  ∃ o s' t, run 2060 1 2 0 [(105, (1%positive, 0%nat))] demo_names = (o, s') ∧ trace s' = trace demo_names ++ t ∧
    held [] t = Some [] ∧ ran [(105, text "eth0,eth1")] o t.
Proof.
  apply (name_list_programs (W := demo) (F := gset Z)).
  - split; [apply CliArgParseProofs.sample_good|done].
  - constructor; [|constructor]. split; [done|]. intros _. split; [|simpl; lia].
    exists []. apply CliArgParseProofs.whole_string; [done|]. apply (bool_decide_unpack _). by vm_compute.
Defined.

End NameArgsStart.
