(* ===== verification/Multicast.v ===== *)
(** * Multicast echo (example/multicast)

    A thread joins a multicast group on the first interface and answers every
    datagram with the number of bytes it had (mcast.c); the program around it
    takes a list of interface names (app_main.c).  Printed information is left
    out. *)

From S2P Require Import Prelude App AppHeap CliArgParse CliArgParseProofs FpmDirect DefaultApp NameArgs.
Import App AppHeap.

Module Multicast.

Definition APP_PORT : Z := 2048.
Definition APP_ADDR_MCAST : bytes := text "234.5.5.5".
Definition NFP_IPPROTO_IP : Z := 0.
Definition NFP_IPPROTO_UDP : Z := 17.
Definition NFP_SOCK_DGRAM : Z := 2.
Definition NFP_IP_ADD_MEMBERSHIP : Z := 12.
Definition NFP_IP_DROP_MEMBERSHIP : Z := 13.
Definition EXIT_FAILURE : Z := 1.
(** [sizeof(buf)] *)
Definition BUF_LEN : Z := 1024.
Definition THREAD_mcasttest : Z := 62.

(** The address [nfp_recvfrom] stores. *)
Definition source {F} (r : areply F) : option sin :=
  match r_list r with
  | (len, family) :: (port, addr) :: _ => Some (Sin len family port addr sizeof_sockaddr_in)
  | _ => None
  end.

(** [buf] with other bytes at its beginning. *)
Definition overwrite (buf data : bytes) : bytes := data ++ drop (length data) buf.

Section Thread.
Context {W F G : Type} `{!App W F}.
Local Abbreviation MG := (M (app W F G)).

(** [while (addr_local == 0)]: [None] when the address cannot be got. *)
Definition wait_step (ifnet addr_local : Z) : MG (Z + option Z) :=
  if negb (addr_local =? 0) then mret (inr (Some addr_local))
  else
    r ← call (A_ifnet_ipv4_addr_get ifnet NFP_IFNET_IP_TYPE_IP_ADDR);
    if negb (r_val r =? 0) then mret (inr None)
    else call_ (A_sleep 1);; mret (inl (r_out r)).

(** [buf[len] = 0;] *)
Definition terminate_at (buf : bytes) (len : Z) : MG bytes :=
  if bool_decide (0 ≤ len < Z.of_nat (length buf)) then mret (<[Z.to_nat len := 0]> buf) else stuck.

(** [sprintf(buf, ...)] of a text. *)
Definition sprintf (buf t : bytes) : MG bytes :=
  if bool_decide (length t < length buf)%nat then mret (overwrite buf (t ++ [0])) else stuck.

(** The body of [while ( *is_running)]. *)
Definition echo_step (fd : Z) (buf : bytes) : MG (bytes + unit) :=
  running ← callv A_is_running;
  if running =? 0 then mret (inr ())
  else
    r ← call (A_recvfrom fd (BUF_LEN - 1) 0 sizeof_sockaddr_in);
    let len := r_val r in
    if len =? -1 then mret (inl buf)
    else
      buf ← terminate_at (overwrite buf (r_data r)) len;
      if negb (r_out r =? sizeof_sockaddr_in) then mret (inl buf)
      else
        addr ← of_option (source r);
        buf ← sprintf buf (CliArgParseProofs.dec (s32 len) ++ text " bytes");
        data ← of_option (CliArgParse.cstring buf);
        call_ (A_sendto fd data 0 addr);;
        mret (inl buf).

(** The thread; [buf] is what the array holds at the beginning. *)
Definition mcasttest (fuel : nat) (buf : bytes) : MG Z :=
  is_running ← callv A_get_processing_state;
  if is_running =? 0 then mret (-1)
  else
    ifnet ← callv (A_ifport_ifnet_get 0 NFP_IFPORT_NET_SUBPORT_ITF);
    if ifnet =? DefaultApp.NFP_IFNET_INVALID then mret (-1)
    else
      local ← loop fuel (wait_step ifnet) 0;
      match local with
      | None => mret (-1)
      | Some addr_local =>
          mc ← call (A_parse_ip_addr APP_ADDR_MCAST);
          if r_val mc =? 0 then mret (-1)
          else
            fd ← callv (A_socket NFP_AF_INET NFP_SOCK_DGRAM NFP_IPPROTO_UDP);
            if fd <? 0 then mret (-1)
            else
              b ← callv (A_bind fd (Sin sizeof_sockaddr_in NFP_AF_INET (odp_cpu_to_be_16 APP_PORT) 0 sizeof_sockaddr));
              if b <? 0 then call_ (A_close fd);; mret (-1)
              else
                let mreq := [r_out mc; addr_local] in
                j ← callv (A_setsockopt fd NFP_IPPROTO_IP NFP_IP_ADD_MEMBERSHIP mreq);
                if j =? -1 then call_ (A_close fd);; mret (-1)
                else
                  loop fuel (echo_step fd) buf;;
                  call_ (A_setsockopt fd NFP_IPPROTO_IP NFP_IP_DROP_MEMBERSHIP mreq);;
                  call_ (A_close fd);;
                  mret 0
      end.
End Thread.

Section Main.
Context {W F : Type} `{!App W F}.

Definition main (fuel : nat) (linux_core : Z) (opts : DefaultApp.options) : M (app W F NameArgs.names_t) Z :=
  DefaultApp.nfpexpl_resources_set;;
  r ← FpmDirect.nfpexpl_sigaction_set;
  if negb (r =? 0) then mret EXIT_FAILURE
  else NameArgs.run fuel DefaultApp.THREAD_default_event_dispatcher THREAD_mcasttest linux_core opts.
End Main.

End Multicast.
