(* ===== verification/MulticastProofs.v ===== *)
(** * Multicast echo: the thread and the program

    The thread answers every datagram once, with its size, and is a member of
    the group exactly while it does; the program ends on every path, with the
    stack terminated after its threads. *)

From S2P Require Import Prelude App AppProofs AppHeap Resources HttpdTheorems CliArgParse CliArgParseProofs Strtok ArgHeap FpmDirect DefaultApp DefaultAppProofs NameArgs NameArgsProofs Multicast.
Import App AppProofs AppHeap Resources HttpdTheorems ArgHeap DefaultAppProofs Multicast.

Module MulticastProofs.

(** ** The thread *)

(** The answer to a datagram. *)
Definition size_text (len : Z) : bytes := CliArgParseProofs.dec len ++ text " bytes".

(** An interface without an address. *)
Definition no_address {F} (e : event F) : bool :=
  match e.1 with A_ifnet_ipv4_addr_get _ _ => (r_val e.2 =? 0) && (r_out e.2 =? 0) | _ => false end.

(** What the thread relies on: [nfp_recvfrom] fails with -1 or gives data that
    fit the buffer, with a whole address when it says so; and an interface is
    without an address only for some time. *)
Class McastLaws (W F : Type) `{!App W F} := {
  recvfrom_fits fd len flags w r w' :
    api (A_recvfrom fd len flags sizeof_sockaddr_in : acall F) w = (r, w') → 0 ≤ len →
    r_val r = -1 ∨ 0 ≤ r_val r ≤ len ∧ r_val r = Z.of_nat (length (r_data r)) ∧
      (r_out r = sizeof_sockaddr_in → is_Some (source r));
  address_wait : W → nat;
  address_step (c : acall F) w r w' :
    api c w = (r, w') → (address_wait w' + (if no_address (c, r) then 1 else 0) ≤ address_wait w)%nat;
}.

(** The record of the loop: every datagram with an address is answered at once,
    with its size, to its sender. *)
Inductive echoes {F} (fd : Z) : list (event F) → Prop :=
| echoes_nil : echoes fd []
| echoes_check t r : echoes fd t → echoes fd (t ++ [(A_is_running, r)])
| echoes_failed t r :
    echoes fd t → r_val r = -1 → echoes fd (t ++ [(A_recvfrom fd 1023 0 16, r)])
| echoes_unknown t r :
    echoes fd t → r_val r ≠ -1 → r_out r ≠ 16 → echoes fd (t ++ [(A_recvfrom fd 1023 0 16, r)])
| echoes_answer t r addr r' :
    echoes fd t → r_val r ≠ -1 → r_out r = 16 → source r = Some addr →
    echoes fd (t ++ [(A_recvfrom fd 1023 0 16, r); (A_sendto fd (size_text (r_val r)) 0 addr, r')]).

Lemma dec_short n : 0 ≤ n < 10000 → (length (CliArgParseProofs.dec n) ≤ 4)%nat ∧ (0 ∉ CliArgParseProofs.dec n).
Proof.
  intros Hn. split.
  - assert (H1 : n / 10 < 1000) by (apply Z.div_lt_upper_bound; lia). assert (H2 : n / 10 / 10 < 100) by (apply Z.div_lt_upper_bound; lia).
    assert (H3 : n / 10 / 10 / 10 < 10) by (apply Z.div_lt_upper_bound; lia).
    unfold CliArgParseProofs.dec, CliArgParseProofs.dec_aux.
    destruct (n <? 10); [simpl; lia|]. destruct (n / 10 <? 10); [simpl; lia|]. destruct (n / 10 / 10 <? 10); [simpl; lia|].
    rewrite (proj2 (Z.ltb_lt _ _) H3). simpl. lia.
  - intros [Hx|Hx%not_elem_of_nil]%CliArgParseProofs.dec_digit; [lia|done|lia].
Qed.

Lemma size_text_ok n : 0 ≤ n < 1024 → (length (size_text n) ≤ 10)%nat ∧ (0 ∉ size_text n).
Proof.
  intros Hn. destruct (dec_short n) as [Hl H0]; [lia|]. unfold size_text. split; [rewrite length_app; simpl; lia|].
  rewrite not_elem_of_app. split; [done|]. by apply (bool_decide_unpack _); vm_compute.
Qed.

Section Thread.
Context {W F G : Type} `{!App W F, !SocketLaws W F, !McastLaws W F}.
Context (o0 : gset Z) (fuel : nat).
Local Abbreviation st := (app W F G).
Implicit Types (s : st).
Local Abbreviation fine live := (AppProofs.fine any o0 live fuel).

Lemma overwrite_length buf data : (length data ≤ length buf)%nat → length (overwrite buf data) = length buf.
Proof. intros H. unfold overwrite. rewrite length_app, length_drop. lia. Qed.

(** Socket [fd] is open; [tl] are the calls since [s0]. *)
Local Abbreviation open_since fd := (acts o0 fuel ({[fd]} ∪ o0)).

Lemma open_since_after fd s0 tl s c r w :
  open_since fd s0 tl s → api c (world s) = (r, w) → plain c = true → (∀ x, uses c = Some x → x = fd) →
  open_since fd s0 (tl ++ [(c, r)]) (after s c r w) ∧ (budget w ≤ budget (world s))%nat.
Proof.
  intros Hop E Hp Hu. split; [|by eapply budget_le]. apply acts_call; [done..|]. intros x ->%Hu. set_solver.
Qed.

(** One turn. *)
Definition turned (fd : Z) s0 s (x : bytes + unit) s' : Prop :=
  (∃ tl, open_since fd s0 tl s' ∧ echoes fd tl) ∧
  match x with
  | inl buf => length buf = 1024%nat ∧ (budget (world s') < budget (world s))%nat
  | inr _ => True
  end.

(** A datagram with an address, which is in [buf]. *)
Lemma answer_ok fd buf s0 tl s s1 r addr :
  length buf = 1024%nat → 0 ≤ r_val r < 1024 → source r = Some addr → r_out r = 16 →
  echoes fd tl → open_since fd s0 (tl ++ [(A_recvfrom fd 1023 0 16, r)]) s →
  (budget (world s) < budget (world s1))%nat →
  wp (addr ← of_option (source r);
      buf ← sprintf buf (CliArgParseProofs.dec (s32 (r_val r)) ++ text " bytes");
      data ← of_option (CliArgParse.cstring buf);
      call_ (A_sendto fd data 0 addr);;
      mret (inl buf)) (turned fd s0 s1) s.
Proof.
  intros Hlen Hv Haddr Ho He Hop Hb. apply wp_bind. eapply wp_of_option; [exact Haddr|].
  assert (Hs32 : s32 (r_val r) = r_val r) by (apply swrap_small; unfold in_int; lia). rewrite Hs32.
  destruct (size_text_ok (r_val r)) as [Hl10 H0]; [lia|]. unfold size_text in Hl10, H0. apply wp_bind. unfold sprintf.
  rewrite bool_decide_true by lia. apply wp_ret, wp_bind.
  assert (Hdata : CliArgParse.cstring (overwrite buf ((CliArgParseProofs.dec (r_val r) ++ text " bytes") ++ [0])) = Some (size_text (r_val r))).
  { unfold overwrite. rewrite <- app_assoc. by apply CliArgParseProofs.cstring_app. }
  eapply wp_of_option; [exact Hdata|]. apply wp_bind, wp_call_. intros r3 w3 E3. apply wp_ret.
  destruct (open_since_after _ _ _ _ _ _ _ Hop E3 eq_refl ltac:(by intros ? [= <-])) as [Hop3 Hb3]. split.
  - eexists. split; [exact Hop3|]. rewrite <- app_assoc. apply echoes_answer; [done|lia|done|done].
  - split; [|simpl; lia]. rewrite overwrite_length; [done|]. rewrite length_app. simpl. lia.
Qed.

Lemma echo_step_ok fd buf tl s0 s :
  length buf = 1024%nat → open_since fd s0 tl s → echoes fd tl → wp (echo_step fd buf) (turned fd s0 s) s.
Proof.
  intros Hlen Hop He. apply wp_bind, wp_callv. intros r w E.
  destruct (open_since_after _ _ _ _ _ _ _ Hop E eq_refl ltac:(by intros ?)) as [Hop1 _].
  apply (echoes_check _ _ r) in He. pose proof (budget_step _ _ _ _ E) as Hb. unfold again in Hb. cbn [fst snd] in Hb.
  destruct (Z.eqb_spec (r_val r) 0) as [Hr|Hr]; cbn [negb] in Hb.
  { apply wp_ret. split; [by eexists|done]. }
  apply wp_bind, wp_call. intros r2 w2 E2. change (BUF_LEN - 1) with 1023 in *. change sizeof_sockaddr_in with 16 in *.
  destruct (open_since_after _ _ _ _ _ _ _ Hop1 E2 eq_refl ltac:(by intros ? [= <-])) as [Hop2 Hb2].
  cbn [world after] in Hb2. cbv zeta.
  destruct (recvfrom_fits _ _ _ _ _ _ E2) as [Hv|(Hv & Hdata & Hsrc)]; [done| |].
  { rewrite Hv. apply wp_ret. split; [eexists; split; [exact Hop2|]; by apply echoes_failed|]. split; [done|simpl; lia]. }
  rewrite (proj2 (Z.eqb_neq (r_val r2) (-1))) by lia. apply wp_bind. unfold terminate_at.
  rewrite overwrite_length by lia. rewrite bool_decide_true by lia. apply wp_ret.
  set (buf2 := <[_ := 0]> _). assert (Hlen2 : length buf2 = 1024%nat) by (unfold buf2; by rewrite length_insert, overwrite_length by lia).
  destruct (Z.eqb_spec (r_out r2) 16) as [Ho|Ho]; cbn [negb].
  - destruct (Hsrc Ho) as [addr Haddr]. eapply answer_ok; [done|lia|done|done|exact He|exact Hop2|simpl; lia].
  - apply wp_ret. split; [eexists; split; [exact Hop2|]; apply echoes_unknown; [done|lia|done]|]. split; [done|simpl; lia].
Qed.

Lemma echo_loop_ok fd buf s :
  length buf = 1024%nat → fine ({[fd]} ∪ o0) s →
  wp (loop fuel (echo_step fd) buf) (λ _ s', ∃ tl, open_since fd s tl s' ∧ echoes fd tl) s.
Proof.
  intros Hlen Hf. apply (wp_loop _ (λ buf s', length buf = 1024%nat ∧ ∃ tl, open_since fd s tl s' ∧ echoes fd tl)
    (λ _ s', budget (world s'))).
  - intros b s1 (Hlb & tl & Hop & He). eapply wp_mono; [|by eapply echo_step_ok]. intros [b'|[]] s2 [Htl Hx]; [|done].
    destruct Hx as [Hx Hb]. by split.
  - split; [done|]. exists []. split; [split; [done|by rewrite app_nil_r]|constructor].
  - destruct Hf as (_ & He & _). unfold enough in He. lia.
Qed.

(** Waiting for an address. *)
Lemma waiting_ok ifnet s :
  fine o0 s → (address_wait (world s) + 1 < fuel)%nat →
  wp (loop fuel (wait_step ifnet) 0) (λ x s', fine o0 s' ∧
    (∃ t, trace s' = trace s ++ t ∧ Forall (λ e : event F, idle_call e.1 = true) t) ∧ ∀ a, x = Some a → a ≠ 0) s.
Proof.
  intros Hf Hfuel. apply (wp_loop _ (λ a s', fine o0 s' ∧
    (∃ t, trace s' = trace s ++ t ∧ Forall (λ e : event F, idle_call e.1 = true) t))
    (λ a s', if a =? 0 then S (address_wait (world s')) else O)); [|split; [done|exists []; by rewrite app_nil_r]|simpl; lia].
  intros a s1 (Hf1 & t & Ht & Hq). unfold wait_step. destruct (Z.eqb_spec a 0) as [->|Ha]; cbn [negb].
  2: { apply wp_ret. split_and!; [done|by exists t|by intros ? [= <-]]. }
  apply wp_bind, wp_call. intros r w E. pose proof (address_step _ _ _ _ E) as Hw. unfold no_address in Hw. cbn [fst snd] in Hw.
  pose proof (idle_after _ _ _ _ E eq_refl _ _ _ Hf1) as Hf2. set (c := A_ifnet_ipv4_addr_get _ _) in *.
  destruct (Z.eqb_spec (r_val r) 0) as [Hr|Hr]; cbn [negb andb] in *.
  2: { apply wp_ret. split_and!; [done| |done]. exists (t ++ [(c, r)]). split; [simpl; by rewrite Ht, app_assoc|].
       apply Forall_app. split; [done|]. by repeat constructor. }
  apply wp_bind, wp_call_. intros r3 w3 E3. pose proof (address_step _ _ _ _ E3) as Hw3. cbn [no_address fst] in Hw3.
  apply wp_ret. pose proof (idle_after _ _ _ _ E3 eq_refl _ _ _ Hf2) as Hf3. split; [split; [done|]|].
  - exists (t ++ [(c, r); (A_sleep 1, r3)]). split; [simpl; by rewrite Ht, <- !app_assoc|].
    apply Forall_app. split; [done|]. by repeat constructor.
  - simpl in *. destruct (r_out r =? 0); lia.
Qed.

(** Before the group is joined: no datagram, no membership. *)
Definition apart (e : event F) : bool :=
  match e.1 with
  | A_recvfrom _ _ _ _ | A_sendto _ _ _ _ => false
  | A_setsockopt _ _ _ _ => r_val e.2 =? -1
  | _ => true
  end.

Lemma idle_apart (e : event F) : idle_call e.1 = true → apart e = true.
Proof. destruct e as [[] r]; try done. Qed.

Definition before s0 s : Prop := fine o0 s ∧ ∃ t, trace s = trace s0 ++ t ∧ Forall (λ e, apart e = true) t.

Lemma before_idle s0 s c r w :
  before s0 s → api c (world s) = (r, w) → idle_call c = true → before s0 (after s c r w).
Proof.
  intros (Hf & t & Ht & Ha) E Hi. split; [by eapply idle_after|]. exists (t ++ [(c, r)]).
  split; [simpl; by rewrite Ht, app_assoc|]. apply Forall_app. split; [done|]. constructor; [by apply idle_apart|done].
Qed.

Lemma before_call {B} s0 s c (k : Z → M st B) Q :
  before s0 s → idle_call c = true → (∀ r s', before s0 s' → wp (k r) Q s') → wp (r ← callv c; k r) Q s.
Proof. intros Hb Hc Hk. apply wp_bind, wp_callv. intros r w E. by apply Hk, before_idle. Qed.

(** The end of the thread. *)
Definition echoed s0 (rc : Z) s : Prop :=
  fine o0 s ∧ ∃ t, trace s = trace s0 ++ t ∧
    (rc = -1 ∧ Forall (λ e, apart e = true) t ∨
     rc = 0 ∧ ∃ fd group local t1 r1 tl r2 r3,
       (fd ∉ o0) ∧ local ≠ 0 ∧ Forall (λ e, apart e = true) t1 ∧ echoes fd tl ∧
       t = t1 ++ (A_setsockopt fd NFP_IPPROTO_IP NFP_IP_ADD_MEMBERSHIP [group; local], r1) :: tl ++
           [(A_setsockopt fd NFP_IPPROTO_IP NFP_IP_DROP_MEMBERSHIP [group; local], r2); (A_close fd, r3)]).

Lemma before_end s0 s : before s0 s → echoed s0 (-1) s.
Proof. intros (Hf & t & Ht & Ha). split; [done|]. exists t. split; [done|]. by left. Qed.

(** With the socket open. *)
Definition joining fd s0 s : Prop := ∃ t, open_since fd s0 t s ∧ Forall (λ e, apart e = true) t.

Lemma joining_call fd s0 s c r w :
  joining fd s0 s → api c (world s) = (r, w) → plain c = true → (∀ x, uses c = Some x → x = fd) →
  apart (c, r) = true → joining fd s0 (after s c r w).
Proof.
  intros (t & Hop & Ha) E Hp Hu He. exists (t ++ [(c, r)]). split; [by eapply open_since_after|].
  apply Forall_app. split; [done|]. by constructor.
Qed.

Lemma joining_fail fd s0 s :
  (fd ∉ o0) → joining fd s0 s → wp (call_ (A_close fd);; mret (-1)) (λ rc s', echoed s0 rc s') s.
Proof.
  intros Hfd (t & [Hf Ht] & Ha). apply wp_bind. eapply wp_mono; [|by apply close_last].
  intros [] s' (Hf' & _ & r & Ht'). apply wp_ret. apply before_end. split; [done|].
  exists (t ++ [(A_close fd, r)]). split; [by rewrite Ht', Ht, app_assoc|]. apply Forall_app. split; [done|]. by repeat constructor.
Qed.

(** From the membership on. *)
Lemma group_ok fd buf group local s0 s :
  (fd ∉ o0) → local ≠ 0 → length buf = 1024%nat → joining fd s0 s →
  wp (j ← callv (A_setsockopt fd NFP_IPPROTO_IP NFP_IP_ADD_MEMBERSHIP [group; local]);
      if j =? -1 then call_ (A_close fd);; mret (-1)
      else
        loop fuel (echo_step fd) buf;;
        call_ (A_setsockopt fd NFP_IPPROTO_IP NFP_IP_DROP_MEMBERSHIP [group; local]);;
        call_ (A_close fd);;
        mret 0) (λ rc s', echoed s0 rc s') s.
Proof.
  intros Hfd Hlocal Hlen Hj. apply wp_bind, wp_callv. intros r w E. destruct (Z.eqb_spec (r_val r) (-1)) as [Hr|Hr].
  { apply joining_fail; [done|]. eapply joining_call; [done..|by intros ? [= <-]|]. by apply Z.eqb_eq. }
  destruct Hj as (t & Hop & Ha).
  destruct (open_since_after _ _ _ _ _ _ _ Hop E eq_refl ltac:(by intros ? [= <-])) as [[Hf1 Ht1] _].
  apply wp_bind. eapply wp_mono; [|by apply echo_loop_ok]. intros [] s2 (tl & [Hf2 Ht2] & He).
  apply wp_bind, wp_call_. intros r3 w3 E3. set (s3 := after s2 _ r3 w3).
  assert (Hf3 : fine ({[fd]} ∪ o0) s3) by (eapply plain_call; [exact Hf2|exact E3|done|intros ? [= <-]; set_solver]).
  apply wp_bind. eapply wp_mono; [|by apply close_last]. intros [] s4 (Hf4 & _ & r4 & Ht4). apply wp_ret.
  split; [done|]. eexists. split.
  2: { right. split; [done|]. exists fd, group, local, t, r, tl, r3, r4. split_and!; [done..|reflexivity]. }
  rewrite Ht4. simpl. rewrite Ht2, Ht1. by rewrite <- !app_assoc.
Qed.

(** [C21] The multicast thread ends, within the time its interface needs to get
    an address, and returns 0 or -1.  It answers every datagram that comes with
    an address, at once and once, to its sender, with the number of its bytes;
    it receives and answers only as a member of the group, leaves the group it
    joined before it returns 0, and its socket is closed on every path. *)
Theorem multicast_echoes buf s :
  length buf = 1024%nat → fine o0 s → (address_wait (world s) + 1 < fuel)%nat →
  ∃ rc s', mcasttest fuel buf s = (Ret rc, s') ∧ echoed s rc s'.
Proof.
  intros Hlen Hf Hfuel. enough (wp (mcasttest fuel buf) (λ rc s', echoed s rc s') s) as (rc & s' & ? & ?) by eauto.
  assert (Hend : ∀ s', before s s' → wp (mret (-1)) (λ rc s', echoed s rc s') s') by (intros; by apply wp_ret, before_end).
  assert (Hb : before s s) by (split; [done|]; exists []; by rewrite app_nil_r).
  apply wp_bind, wp_callv. intros r0 w0 E0. pose proof (before_idle _ _ _ _ _ Hb E0 eq_refl) as Hb1.
  pose proof (address_step _ _ _ _ E0) as Hw0. destruct (_ =? _); [by apply Hend|].
  apply wp_bind, wp_callv. intros r1 w1 E1. pose proof (before_idle _ _ _ _ _ Hb1 E1 eq_refl) as Hb2.
  pose proof (address_step _ _ _ _ E1) as Hw1. destruct (_ =? _); [by apply Hend|].
  apply wp_bind. eapply wp_mono; [|apply waiting_ok; [apply Hb2|simpl in *; lia]].
  intros x s3 (Hf3 & (t & Ht & Hi) & Hx).
  assert (Hb3 : before s s3).
  { destruct Hb2 as (_ & t0 & Ht0 & Ha). split; [done|]. exists (t0 ++ t). split; [by rewrite Ht, Ht0, app_assoc|].
    apply Forall_app. split; [done|]. eapply Forall_impl; [exact Hi|]. apply idle_apart. }
  destruct x as [local|]; [|by apply Hend]. specialize (Hx _ eq_refl).
  apply wp_bind, wp_call. intros mc w4 E4. pose proof (before_idle _ _ _ _ _ Hb3 E4 eq_refl) as Hb4.
  destruct (_ =? _); [by apply Hend|]. apply wp_bind, wp_callv. intros r5 w5 E5.
  destruct Hb4 as (Hf4 & t4 & Ht4 & Ha4). pose proof (socket_call _ _ _ _ _ _ _ _ Hf4 E5) as Hs.
  assert (Ha5 : Forall (λ e, apart e = true) (t4 ++ [(A_socket NFP_AF_INET NFP_SOCK_DGRAM NFP_IPPROTO_UDP, r5)])).
  { apply Forall_app. split; [done|]. by repeat constructor. }
  set (s5 := after _ _ r5 w5) in *. assert (Ht5 : trace s5 = trace s ++ t4 ++ [(A_socket NFP_AF_INET NFP_SOCK_DGRAM NFP_IPPROTO_UDP, r5)]).
  { simpl in *. by rewrite Ht4, <- app_assoc. }
  destruct (r_val r5 <? 0); [apply Hend; split; [done|]; eauto|]. destruct Hs as [Hfd Hf5].
  assert (Hj5 : joining (r_val r5) s s5) by (eexists; split; [by split|done]).
  apply wp_bind, wp_callv. intros r6 w6 E6.
  assert (Hj6 : joining (r_val r5) s (after s5 _ r6 w6)) by (eapply joining_call; [done|exact E6|done|by intros ? [= <-]|done]).
  destruct (_ <? _); [by apply joining_fail|]. by apply group_ok.
Qed.
End Thread.

(** ** Witness *)

#[global] Program Instance demo_mcast : McastLaws demo (gset Z) := { address_wait _ := O }.
Next Obligation.
  intros fd len flags w r w' E Hlen. right. cbn [api demo_app demo_api] in E. injection E as <- <-.
  cbn [r_val r_data r_out source r_list]. rewrite length_take. split_and!; [lia|lia|done|by eexists].
Qed.
Next Obligation.
  intros c w r w' E. unfold no_address. destruct c; try done. cbn [api demo_app demo_api] in E. by injection E as <- <-.
Qed.

Definition demo_mcaster : app demo (gset Z) NameArgs.names_t :=
  MkApp (Demo 3 3) 0 [] (NameArgs.MkNames (CliArgParseProofs.sample "eth0,eth1")).

Lemma multicast_echoes_witness :
  ∃ rc s', mcasttest 2060 (replicate 1024 0) demo_mcaster = (Ret rc, s') ∧ echoed ∅ 2060 demo_mcaster rc s'.
Proof.
  apply (multicast_echoes (W := demo) (F := gset Z)); [done| |simpl; lia].
  split_and!; [split_and!; [done|done|done|set_solver]|unfold enough; simpl; lia| |done].
  intros t e t' Heq. by destruct t.
Defined.

End MulticastProofs.
