(* ===== verification/IoctlTest.v ===== *)
(** * ioctl test (example/ioctl_test)

    A thread that puts the requests of nfp_ioctl.h to the stack (ioctl_test.c),
    in a program that takes a list of interface names and dispatches events with
    a dispatcher of its own (app_main.c).  What is only printed is left out,
    with it the call of [system] that prints the log file. *)

From S2P Require Import Prelude App AppHeap NfpHeaders CliArgParse TcpPerf FpmDirect UdpFwd DefaultApp NameArgs.
Import App AppHeap Ioctl.

Module IoctlTest.

Definition logfilename : bytes := text "/tmp/iocrl-test.log".
Definition IFNAME : bytes := text "fp0".
Definition GRENAME : bytes := text "gre1".
Definition NFP_SOCK_DGRAM : Z := 2.
Definition NFP_IPPROTO_UDP : Z := 17.
(** [sizeof(data)] *)
Definition DATA_LEN : Z := 1024.
(** The offset in a [struct nfp_ifreq] of the end of [ifr_addr.sa_family]. *)
Definition sa_family_end : Z := 34.
Definition THREAD_app_dispatcher_thread : Z := 63.
Definition THREAD_ioctl_test : Z := 64.

Definition IP4 (a b c d : Z) : Z :=
  u32 (Z.lor (Z.lor (Z.lor a (Z.shiftl b 8)) (Z.shiftl c 16)) (Z.shiftl d 24)).

(** [odp_cpu_to_be_32] on a little-endian processor. *)
Definition odp_cpu_to_be_32 (x : Z) : Z :=
  x mod 256 * 2 ^ 24 + x / 256 mod 256 * 2 ^ 16 + x / 2 ^ 16 mod 256 * 2 ^ 8 + x / 2 ^ 24.

Section Thread.
Context {W F G : Type} `{!App W F}.
Local Abbreviation MG := (M (app W F G)).
(** The sizes of the argument types; the second is that of [struct
    nfp_in_aliasreq]. *)
Context (sizeof : ioc_type → Z) (sizeof_in_aliasreq : Z).

(** [nfp_ioctl] on a [struct nfp_ifreq] that gets an address. *)
Definition get_address (request fd : Z) (name : bytes) : MG Z :=
  r ← call (A_ioctl_ptr fd request (sizeof Tifreq) name []);
  mret (if r_val r <? 0 then 0 else r_out r).
Definition get_ip_address : Z → bytes → MG Z := get_address (NFP_SIOCGIFADDR sizeof).
Definition get_netmask : Z → bytes → MG Z := get_address (NFP_SIOCGIFNETMASK sizeof).
Definition get_broadcast_address : Z → bytes → MG Z := get_address (NFP_SIOCGIFBRDADDR sizeof).

Definition set_ip_address_and_mask (fd : Z) (name : bytes) (addr mask : Z) : MG unit :=
  call_ (A_ioctl_ptr fd (NFP_SIOCSIFADDR sizeof) sizeof_in_aliasreq name [NFP_AF_INET; addr; mask]).

Definition delete_if_address (fd : Z) (name : bytes) : MG unit :=
  call_ (A_ioctl_ptr fd (NFP_SIOCDIFADDR sizeof) sizeof_in_aliasreq name [NFP_AF_INET]).

Definition receive_non_blocking : MG unit :=
  s ← callv (A_socket NFP_AF_INET NFP_SOCK_DGRAM NFP_IPPROTO_UDP);
  call_ (A_bind s (Sin sizeof_sockaddr_in NFP_AF_INET (odp_cpu_to_be_16 2048) 0 sizeof_sockaddr_in));;
  call_ (A_ioctl_ptr s (NFP_FIONBIO sizeof) (sizeof Tint) [] [1]);;
  call_ (A_recvfrom s 64 0 sizeof_sockaddr_in);;
  call_ (A_close s).

(** [junk] is what [val] holds when the request fails. *)
Definition get_sockbuf_data (junk fd cmd : Z) : MG Z :=
  r ← call (A_ioctl_ptr fd cmd (sizeof Tint) [] []);
  mret (if r_val r <? 0 then junk else r_out r).

(** [conf->ifc_len] afterwards. *)
Definition get_if_conf (fd ifc_len : Z) : MG Z :=
  r ← call (A_ioctl_ptr fd (NFP_SIOCGIFCONF sizeof) (sizeof Tifconf) [] [ifc_len]);
  mret (if r_val r <? 0 then ifc_len else r_out r).

Definition set_gre_tunnel (fd : Z) (name : bytes) (addr p2p local remote vrf : Z) : MG unit :=
  call_ (A_ioctl_ptr fd (NFP_SIOCSIFTUN sizeof) (sizeof Tin_tunreq) name [addr; p2p; local; remote; vrf; 1]).

Definition set_vrf (fd : Z) (name : bytes) (vrf : Z) : MG unit :=
  call_ (A_ioctl_ptr fd (NFP_SIOCSIFFIB sizeof) (sizeof Tifreq) name [vrf]).

(** [dev] is empty for NULL. *)
Definition set_route (fd : Z) (dev : bytes) (vrf dst mask gw : Z) : MG unit :=
  call_ (A_ioctl_ptr fd (NFP_SIOCADDRT sizeof) (sizeof Trtentry) dev [vrf; dst; mask; gw]).

(** The body of the loop over the interfaces: the family of entry [i] is read;
    beyond [data] that is undefined. *)
Definition ifreq_step (ifc_len i : Z) : MG (Z + unit) :=
  if negb (i * sizeof Tifreq <? ifc_len) then mret (inr ())
  else if i * sizeof Tifreq + sa_family_end <=? DATA_LEN then mret (inl (i + 1))
  else stuck.

Definition ioctl_test (fuel : nat) (junk : Z) : MG Z :=
  logfile ← callv (A_fopen logfilename);
  call_ (A_sleep 2);;
  fd ← callv (A_socket NFP_AF_INET NFP_SOCK_DGRAM NFP_IPPROTO_UDP);
  if fd <? 0 then mret (-1)
  else
    origaddr ← get_ip_address fd IFNAME;
    origmask ← get_netmask fd IFNAME;
    get_broadcast_address fd IFNAME;;
    delete_if_address fd IFNAME;;
    let addr := IP4 192 168 156 111 in
    set_ip_address_and_mask fd IFNAME addr (odp_cpu_to_be_32 0xffffff80);;
    set_ip_address_and_mask fd IFNAME origaddr origmask;;
    receive_non_blocking;;
    get_sockbuf_data junk fd (NFP_FIONREAD sizeof);;
    get_sockbuf_data junk fd (NFP_FIONWRITE sizeof);;
    get_sockbuf_data junk fd (NFP_FIONSPACE sizeof);;
    set_gre_tunnel fd GRENAME (IP4 10 3 4 1) (IP4 10 3 4 2) origaddr (IP4 192 168 56 104) 0;;
    set_vrf fd GRENAME 7;;
    ifc_len ← get_if_conf fd DATA_LEN;
    loop fuel (ifreq_step ifc_len) 0;;
    set_route fd GRENAME 0 (IP4 10 1 1 0) (IP4 255 255 255 0) (IP4 10 3 4 2);;
    set_route fd [] 0 (IP4 10 7 0 0) (IP4 255 255 0 0) (IP4 192 168 56 254);;
    call_ (A_close fd);;
    (* [fclose(NULL)] is undefined *)
    (if logfile =? 0 then stuck else call_ (A_fclose logfile));;
    call_ A_stop_processing;;
    mret 0.

(** The dispatcher is, line for line, the one of udp_fwd_socket, and the parser the
    one of multicast. *)
Definition app_dispatcher_thread (fuel : nat) : MG Z := UdpFwd.event_dispatcher fuel.
End Thread.

Definition parse_args : nat → DefaultApp.options → M CliArgParse.state NameArgs.appl_args_t := NameArgs.parse_args.

Section Main.
Context {W F : Type} `{!App W F}.

Definition main (fuel : nat) (linux_core : Z) (opts : DefaultApp.options) : M (app W F NameArgs.names_t) Z :=
  DefaultApp.nfpexpl_resources_set;;
  NameArgs.run fuel THREAD_app_dispatcher_thread THREAD_ioctl_test linux_core opts.
End Main.

End IoctlTest.
