(* ===== verification/IoctlTestProofs.v ===== *)
(** * ioctl test: arguments and interface list

    The requests of the thread are put with arguments of the types they encode,
    but for two; and what happens when the list of interfaces does not fit. *)

From S2P Require Import Prelude NfpHeaders App AppProofs AppHeap Resources HttpdTheorems CliArgParse ArgHeap DefaultApp DefaultAppProofs NameArgs NameArgsProofs NameArgsStart UdpFwd IoctlTest.
Import App AppProofs AppHeap Resources HttpdTheorems ArgHeap DefaultAppProofs Ioctl IoctlTest.

Module IoctlTestProofs.

Section Thread.
Context {W F G : Type} `{!App W F}.
Context (sizeof : ioc_type → Z) (sizeof_in_aliasreq : Z).
Context (Hsize : ∀ t, 0 ≤ sizeof t < NFP_IOCPARM_MAX).
Local Abbreviation st := (app W F G).
Implicit Types (s : st).

(** The size of the argument is the one in the request, or this is a request
    for a [struct nfp_ifreq] with a [struct nfp_in_aliasreq]. *)
Definition typed (e : event F) : Prop :=
  match e.1 with
  | A_ioctl_ptr _ request size _ _ =>
      size = NFP_IOCPARM_LEN request ∨
      (request = NFP_SIOCSIFADDR sizeof ∨ request = NFP_SIOCDIFADDR sizeof) ∧ size = sizeof_in_aliasreq
  | _ => True
  end.

Definition since s0 (t : list (event F)) s : Prop := trace s = trace s0 ++ t ∧ Forall typed t.

(** A computation that adds typed calls to the record. *)
Definition types {A} (c : M st A) : Prop :=
  ∀ s, wp c (λ _ s', ∃ t, since s t s') s.

Lemma types_ret {A} (a : A) : types (mret a).
Proof. intros s. apply wp_ret. exists []. split; [by rewrite app_nil_r|done]. Qed.

Lemma since_trans s0 t s t' s' : since s0 t s → since s t' s' → since s0 (t ++ t') s'.
Proof. intros [Ht Ha] [Ht' Ha']. split; [by rewrite Ht', Ht, app_assoc|]. by apply Forall_app. Qed.

Lemma types_bind {A B} (c : M st A) (f : A → M st B) : types c → (∀ a, types (f a)) → types (c ≫= f).
Proof.
  intros Hc Hf s. apply wp_bind. eapply wp_mono; [|apply Hc]. intros a s1 [t Ht].
  eapply wp_mono; [|apply Hf]. intros b s2 [t' Ht']. exists (t ++ t'). by eapply since_trans.
Qed.

Lemma since_call s0 t s c r w : since s0 t s → (∀ r, typed (c, r)) → since s0 (t ++ [(c, r)]) (after s c r w).
Proof. intros Hs Hc. eapply since_trans; [exact Hs|]. split; [done|]. by constructor. Qed.

Lemma types_call c : (∀ r, typed (c, r)) → types (call c : M st _).
Proof.
  intros Hc s. apply wp_call. intros r w E. exists [(c, r)]. split; [done|]. by constructor.
Qed.
Lemma types_callv c : (∀ r, typed (c, r)) → types (callv c : M st Z).
Proof. intros Hc. apply types_bind; [by apply types_call|intros; apply types_ret]. Qed.
Lemma types_call_ c : (∀ r, typed (c, r)) → types (call_ c : M st unit).
Proof. intros Hc. apply types_bind; [by apply types_call|intros; apply types_ret]. Qed.

Lemma len_of d g n t : dir_ok d → in_uint 8 g → in_uint 8 n → sizeof t = NFP_IOCPARM_LEN (_NFP_IOC d g n (sizeof t)).
Proof using Hsize. intros Hd Hg Hn. destruct (ioc_decode d g n (sizeof t) Hd Hg Hn (Hsize t)) as [H _]. by rewrite H. Qed.

Lemma types_one {A} c (f : areply F → A) :
  (∀ r, typed (c, r)) → types (r ← call c; mret (f r) : M st A).
Proof. intros Hc. apply types_bind; [by apply types_call|intros; apply types_ret]. Qed.

(** The requests that are put with the size they encode. *)
Lemma sized d g n t fd name vals r :
  dir_ok d → in_uint 8 g → in_uint 8 n → typed (A_ioctl_ptr fd (_NFP_IOC d g n (sizeof t)) (sizeof t) name vals, r).
Proof using Hsize. intros. left. by apply len_of. Qed.

Lemma dirs : dir_ok NFP_IOC_OUT ∧ dir_ok NFP_IOC_IN ∧ dir_ok NFP_IOC_INOUT.
Proof. unfold dir_ok. auto 10. Qed.
Local Hint Extern 1 (dir_ok _) => (apply dirs) : core.
Local Hint Extern 1 (in_uint 8 _) => (by vm_compute) : core.

Lemma types_get_ip_address fd name : types (get_ip_address sizeof fd name : M st Z).
Proof using Hsize. apply types_one. intros r. apply sized; auto. Qed.
Lemma types_get_netmask fd name : types (get_netmask sizeof fd name : M st Z).
Proof using Hsize. apply types_one. intros r. apply sized; auto. Qed.
Lemma types_get_broadcast_address fd name : types (get_broadcast_address sizeof fd name : M st Z).
Proof using Hsize. apply types_one. intros r. apply sized; auto. Qed.
Lemma types_set_ip fd name addr mask : types (set_ip_address_and_mask sizeof sizeof_in_aliasreq fd name addr mask : M st unit).
Proof. apply types_call_. intros r. right. auto. Qed.
Lemma types_delete fd name : types (delete_if_address sizeof sizeof_in_aliasreq fd name : M st unit).
Proof. apply types_call_. intros r. right. auto. Qed.
Lemma types_receive : types (receive_non_blocking sizeof : M st unit).
Proof using Hsize.
  apply types_bind; [by apply types_callv|]. intros fd. apply types_bind; [by apply types_call_|]. intros [].
  apply types_bind; [apply types_call_; intros r; apply sized; auto|]. intros [].
  apply types_bind; [by apply types_call_|]. intros []. by apply types_call_.
Qed.
Lemma types_sockbuf junk fd g n : in_uint 8 g → in_uint 8 n → types (get_sockbuf_data sizeof junk fd (_NFP_IOR sizeof g n Tint) : M st Z).
Proof using Hsize. intros Hg Hn. apply types_one. intros r. apply sized; auto. Qed.
Lemma types_gre fd name a b c d vrf : types (set_gre_tunnel sizeof fd name a b c d vrf : M st unit).
Proof using Hsize. apply types_call_. intros r. apply sized; auto. Qed.
Lemma types_vrf fd name vrf : types (set_vrf sizeof fd name vrf : M st unit).
Proof using Hsize. apply types_call_. intros r. apply sized; auto. Qed.
Lemma types_route fd dev vrf a b c : types (set_route sizeof fd dev vrf a b c : M st unit).
Proof using Hsize. apply types_call_. intros r. apply sized; auto. Qed.

(** ** The list of interfaces *)

Context (Hifreq : sizeof Tifreq = 48).

Lemma entry_inside ifc_len i s : i * 48 < ifc_len → i ≤ 20 → ifreq_step sizeof ifc_len i s = (Ret (inl (i + 1)), s).
Proof using Hifreq.
  intros Hi Hle. unfold ifreq_step. rewrite Hifreq, (proj2 (Z.ltb_lt _ _)) by done. cbn [negb].
  by rewrite (proj2 (Z.leb_le _ _)) by (change (i * 48 + 34 ≤ 1024); lia).
Qed.

(** Every entry that is read lies in [data]. *)
Lemma list_fits fuel ifc_len s :
  (22 < fuel)%nat → ifc_len ≤ 1008 → loop fuel (ifreq_step sizeof ifc_len) 0 s = (Ret (), s).
Proof using Hifreq.
  intros Hfuel Hle. enough (wp (loop fuel (ifreq_step sizeof ifc_len) 0) (λ _ s', s' = s) s) as ([] & s' & H & ->) by exact H.
  apply (wp_loop _ (λ i s', s' = s ∧ 0 ≤ i) (λ i _, Z.to_nat (22 - i))); [|done|lia].
  intros i s' [-> Hi]. destruct (Z.ltb_spec (i * 48) ifc_len).
  - exists (inl (i + 1)), s. split; [apply entry_inside; lia|]. split; [split; [done|]|]; lia.
  - exists (inr ()), s. split; [|done]. unfold ifreq_step. by rewrite Hifreq, (proj2 (Z.ltb_ge _ _)).
Qed.

(** The entry at 1008 does not. *)
Lemma list_beyond n fuel ifc_len s :
  (n ≤ 21 < fuel)%nat → 1008 < ifc_len →
  loop (n + (fuel - 21)) (ifreq_step sizeof ifc_len) (21 - Z.of_nat n) s = (Stuck, s).
Proof using Hifreq.
  intros Hn Hgt. induction n as [|n IH].
  - replace (0 + (fuel - 21))%nat with (S (fuel - 22)) by lia. cbn [loop]. unfold ifreq_step. rewrite Hifreq.
    by rewrite (proj2 (Z.ltb_lt _ _)) by lia.
  - cbn [Nat.add loop]. rewrite (bind_Ret _ _ _ _ _ (entry_inside ifc_len (21 - Z.of_nat (S n)) s ltac:(lia) ltac:(lia))).
    replace (21 - Z.of_nat (S n) + 1) with (21 - Z.of_nat n) by lia. apply IH. lia.
Qed.

(** ** The thread *)

(** How a computation ends, whatever the outcome. *)
Definition goes {A} (c : M st A) (P : outcome A → st → Prop) s : Prop := P (c s).1 (c s).2.

Lemma goes_wp {A} (c : M st A) (P : outcome A → st → Prop) s : wp c (λ a, P (Ret a)) s → goes c P s.
Proof. intros (a & s' & E & HP). unfold goes. by rewrite E. Qed.

Lemma goes_bind {A B} (c : M st A) (f : A → M st B) P s : wp c (λ a, goes (f a) P) s → goes (c ≫= f) P s.
Proof. intros (a & s' & E & HP). unfold goes. by rewrite (bind_Ret _ _ _ _ _ E). Qed.

Lemma goes_stuck {A B} (c : M st A) (f : A → M st B) (P : outcome B → st → Prop) s s' :
  c s = (Stuck, s') → P Stuck s' → goes (c ≫= f) P s.
Proof. intros E HP. unfold goes, mbind, M_bind. by rewrite E. Qed.

(** [p] is the beginning of what was recorded since [s0]. *)
Definition past s0 (p : list (event F)) s : Prop := ∃ t, since s0 (p ++ t) s.

Lemma past_step {A B} s0 p s (c : M st A) (f : A → M st B) P :
  past s0 p s → types c → (∀ a s', past s0 p s' → goes (f a) P s') → goes (c ≫= f) P s.
Proof.
  intros [t Ht] Hc Hf. apply goes_bind. eapply wp_mono; [|apply Hc]. intros a s' [t' Ht']. apply Hf.
  exists (t ++ t'). rewrite app_assoc. by eapply since_trans.
Qed.

(** The list was got, and every entry that is read lies in [data]. *)
Definition list_ok (r : areply F) : bool := (0 <=? r_val r) && (r_out r <=? 1008).

Definition tested s0 (o : outcome Z) s : Prop :=
  ∃ t, since s0 t s ∧
    (o = Ret (-1) ∨
     ∃ r0 t1 fd rc t2,
       t = (A_fopen logfilename, r0) :: t1 ++
           (A_ioctl_ptr fd (NFP_SIOCGIFCONF sizeof) (sizeof Tifconf) [] [DATA_LEN], rc) :: t2 ∧
       o = if negb (r_val r0 =? 0) && list_ok rc then Ret 0 else Stuck).

(** After the list. *)
Lemma rest_ok fd logfile s0 p s P :
  past s0 p s → (∀ o s', past s0 p s' → o = (if negb (logfile =? 0) then Ret 0 else Stuck) → P o s') →
  goes (set_route sizeof fd GRENAME 0 (IP4 10 1 1 0) (IP4 255 255 255 0) (IP4 10 3 4 2);;
        set_route sizeof fd [] 0 (IP4 10 7 0 0) (IP4 255 255 0 0) (IP4 192 168 56 254);;
        call_ (A_close fd);;
        (if logfile =? 0 then stuck else call_ (A_fclose logfile));;
        call_ A_stop_processing;;
        mret 0 : M st Z) P s.
Proof using Hsize.
  intros Hp HP. eapply past_step; [exact Hp|apply types_route|]. intros [] s1 H1.
  eapply past_step; [exact H1|apply types_route|]. intros [] s2 H2.
  eapply past_step; [exact H2|by apply types_call_|]. intros [] s3 H3.
  destruct (logfile =? 0); [by eapply goes_stuck, HP; [reflexivity| |]|].
  eapply past_step; [exact H3|by apply types_call_|]. intros [] s4 H4.
  eapply past_step; [exact H4|by apply types_call_|]. intros [] s5 H5. by apply HP.
Qed.

(** The list. *)
Lemma list_step {B} fuel fd s0 p s (k : M st B) P :
  (22 < fuel)%nat → past s0 p s →
  (∀ rc t s', since s0 (p ++ t ++ [(A_ioctl_ptr fd (NFP_SIOCGIFCONF sizeof) (sizeof Tifconf) [] [DATA_LEN], rc)]) s' →
     if list_ok rc then goes k P s' else P Stuck s') →
  goes (ifc_len ← get_if_conf sizeof fd DATA_LEN; loop fuel (ifreq_step sizeof ifc_len) 0;; k) P s.
Proof using Hsize Hifreq.
  intros Hfuel [t Ht] HP. apply goes_bind, wp_bind, wp_call. intros rc w E. apply wp_ret.
  set (len := if r_val rc <? 0 then DATA_LEN else r_out rc).
  set (s1 := after s _ rc w). specialize (HP rc t s1). rewrite app_assoc in HP.
  assert (HP' : if list_ok rc then goes k P s1 else P Stuck s1).
  { apply HP, since_call; [done|]. intros r. apply sized; auto. }
  assert (Hlen : list_ok rc = (len <=? 1008)).
  { unfold list_ok, len. destruct (Z.leb_spec 0 (r_val rc)), (Z.ltb_spec (r_val rc) 0); try lia; done. }
  rewrite Hlen in HP'. destruct (Z.leb_spec len 1008) as [Hle|Hgt].
  - apply goes_bind. exists (), s1. split; [|exact HP']. by apply list_fits.
  - eapply goes_stuck; [|exact HP']. pose proof (list_beyond 21 fuel len s1) as H.
    replace (21 + (fuel - 21))%nat with fuel in H by lia. apply H; lia.
Qed.

(** [C22] Every argument the ioctl test hands to the stack has the size its
    request encodes, but for the addresses that are set and deleted, whose
    requests encode a [struct nfp_ifreq] and get a [struct nfp_in_aliasreq].
    The thread returns -1 when there is no socket; otherwise it returns 0 when
    the log file was opened, and the list of the interfaces was got and fits
    21 entries, and in every other case it uses memory that is not its own. *)
Theorem ioctl_arguments_typed fuel junk s :
  (22 < fuel)%nat →
  ∃ o s', ioctl_test sizeof sizeof_in_aliasreq fuel junk s = (o, s') ∧ tested s o s'.
Proof using Hsize Hifreq.
  intros Hfuel. enough (goes (ioctl_test sizeof sizeof_in_aliasreq fuel junk) (tested s) s) as H by (eexists _, _; split; [apply surjective_pairing|exact H]).
  apply goes_bind, wp_callv. intros r0 w E. set (s1 := after s _ r0 w).
  assert (H : past s [(A_fopen logfilename, r0)] s1) by (exists []; split; [done|by repeat constructor]).
  eapply past_step; [exact H|by apply types_call_|clear H; intros _ s2 H].
  eapply past_step; [exact H|by apply types_callv|clear H; intros fd s3 H].
  destruct (fd <? 0).
  { apply goes_wp, wp_ret. destruct H as [t Ht]. eexists. split; [exact Ht|]. by left. }
  eapply past_step; [exact H|apply types_get_ip_address|clear H; intros origaddr s4 H].
  eapply past_step; [exact H|apply types_get_netmask|clear H; intros origmask s5 H].
  eapply past_step; [exact H|apply types_get_broadcast_address|clear H; intros _ s6 H].
  eapply past_step; [exact H|apply types_delete|clear H; intros _ s7 H].
  eapply past_step; [exact H|apply types_set_ip|clear H; intros _ s8 H].
  eapply past_step; [exact H|apply types_set_ip|clear H; intros _ s9 H].
  eapply past_step; [exact H|apply types_receive|clear H; intros _ s10 H].
  eapply past_step; [exact H|by apply types_sockbuf|clear H; intros _ s11 H].
  eapply past_step; [exact H|by apply types_sockbuf|clear H; intros _ s12 H].
  eapply past_step; [exact H|by apply types_sockbuf|clear H; intros _ s13 H].
  eapply past_step; [exact H|apply types_gre|clear H; intros _ s14 H].
  eapply past_step; [exact H|apply types_vrf|clear H; intros _ s15 H].
  eapply list_step; [exact Hfuel|exact H|]. intros rc t1 s16 H16. destruct (list_ok rc) eqn:Hok.
  - eapply rest_ok; [exists []; rewrite app_nil_r; exact H16|]. intros o s17 [t2 H17] ->. eexists. split; [exact H17|].
    right. exists r0, t1, fd, rc, t2. rewrite Hok, andb_true_r. split; [|done]. by rewrite <- !app_assoc.
  - eexists. split; [exact H16|]. right. exists r0, t1, fd, rc, []. by rewrite Hok, andb_false_r.
Qed.
End Thread.

(** ** Witness *)

(** The sizes on a 64-bit machine of the types the test uses. *)
Definition demo_sizeof (t : ioc_type) : Z :=
  match t with
  | Tint => 4
  | Tifreq => 48
  | Tifconf => 16
  | Trtentry => 88
  | _ => 104
  end.

Definition demo_test : app demo (gset Z) unit := MkApp (Demo 3 3) 0 [] ().

Lemma ioctl_arguments_typed_witness :
  ∃ o s', ioctl_test demo_sizeof 80 30 0 demo_test = (o, s') ∧ tested demo_sizeof 80 demo_test o s'.
Proof.
  apply (ioctl_arguments_typed (W := demo) (F := gset Z) demo_sizeof 80); [|done|lia].
  intros []; by vm_compute.
Defined.

End IoctlTestProofs.
