(* ===== verification/Multiproc.v ===== *)
(** * A process per worker (example/multiprocess)

    The program forks its workers, which dispatch packets until they are told
    to stop, while the parent receives a number of datagrams, or of bytes on one
    connection, and then ends (multiprocess_main.c).  Printed information is
    left out. *)

From S2P Require Import Prelude App AppHeap CliArgParse ArgOptions FpmDirect DefaultApp.
Import App AppHeap.

Module Multiproc.

Definition MAX_WORKERS : Z := 64.
Definition LINUX_CONTROL_CPU : Z := 0.
Definition LPORT_DEFAULT : Z := 20000.
Definition RETRY_MAX : Z := 10.
Definition CNT_UDP : Z := 10.
Definition CNT_TCP : Z := 100.
Definition BUFF_SIZE : Z := 1500.
Definition NFP_FP_INTERFACE_MAX : Z := FpmDirect.NFP_FP_INTERFACE_MAX.
Definition NFP_SOCK_DGRAM : Z := 2.
Definition NFP_IPPROTO_UDP : Z := 17.
Definition EXIT_SUCCESS : Z := 0.
Definition EXIT_FAILURE : Z := 1.

Inductive app_mode := APP_MODE_UDP | APP_MODE_TCP.

(** [itf_param] is part of the heap model of CliArgParse. *)
Record appl_args_t := ApplArgs {
  core_count : Z;
  cli_file : option positive;
  laddr : option positive;
  lport : Z;
  mode : app_mode;
  recv_count : Z;
}.

(** Memory and [params]. *)
Record proc_t := MkProc { heap : CliArgParse.state; params : appl_args_t }.
Definition set_params (x : appl_args_t) (g : proc_t) : proc_t := MkProc (heap g) x.

#[global] Program Instance proc_heap : HasHeap proc_t :=
  {| heap_of := heap; put_heap h g := MkProc h (params g) |}.
Next Obligation. done. Qed.
Next Obligation. by intros []. Qed.

(** ** The command line *)

Section Options.
Local Abbreviation MC := (M CliArgParse.state).

(** [cli_file] and [laddr] are not freed. *)
Definition parse_args_cleanup : MC unit :=
  CliArgParse.nfpexpl_parse_interfaces_param_cleanup true.

(** [len = strlen(optarg); if (len == 0) { usage(..); res = -1; break; }] *)
Definition given (optarg : CliArgParse.ptr) (a : appl_args_t) (k : MC (Z * appl_args_t))
    : MC (Z * appl_args_t) :=
  len ← CliArgParse.strlen optarg;
  if len =? 0 then mret (-1, a) else k.

(** [case 'm'] *)
Definition mode_option (optarg : CliArgParse.ptr) (a : appl_args_t) : MC (Z * appl_args_t) :=
  t ← CliArgParse.read_string optarg;
  if decide (t = text "u") then
    mret (0, ApplArgs (core_count a) (cli_file a) (laddr a) (lport a) APP_MODE_UDP (recv_count a))
  else if decide (t = text "t") then
    mret (0, ApplArgs (core_count a) (cli_file a) (laddr a) (lport a) APP_MODE_TCP (recv_count a))
  else mret (-1, a).

(** One option: [res] and the new arguments. *)
Definition parse_option (fuel : nat) (opt : Z * CliArgParse.ptr) (a : appl_args_t)
    : MC (Z * appl_args_t) :=
  let '(c, optarg) := opt in
  if c =? 99 (* c *) then
    n ← CliArgParse.atoi optarg;
    mret (0, ApplArgs n (cli_file a) (laddr a) (lport a) (mode a) (recv_count a))
  else if c =? 105 (* i *) then ArgOptions.interfaces_option fuel optarg a
  else if c =? 104 (* h *) then parse_args_cleanup;; exit EXIT_SUCCESS
  else if c =? 102 (* f *) then
    ArgOptions.copy_option optarg a
      (λ p, ApplArgs (core_count a) p (laddr a) (lport a) (mode a) (recv_count a))
  else if c =? 108 (* l *) then
    ArgOptions.copy_option optarg a
      (λ p, ApplArgs (core_count a) (cli_file a) p (lport a) (mode a) (recv_count a))
  else if c =? 112 (* p *) then
    given optarg a (n ← CliArgParse.atoi optarg;
      mret (0, ApplArgs (core_count a) (cli_file a) (laddr a) n (mode a) (recv_count a)))
  else if c =? 110 (* n *) then
    given optarg a (n ← CliArgParse.atoll optarg;
      mret (0, ApplArgs (core_count a) (cli_file a) (laddr a) (lport a) (mode a) (u64 n)))
  else if c =? 109 (* m *) then given optarg a (mode_option optarg a)
  else mret (0, a).

(** What is received when [-n] was not given. *)
Definition default_count (a : appl_args_t) : appl_args_t :=
  if recv_count a =? 0 then
    ApplArgs (core_count a) (cli_file a) (laddr a) (lport a) (mode a)
      (match mode a with APP_MODE_UDP => CNT_UDP | APP_MODE_TCP => CNT_TCP end)
  else a.

Definition parse_args (fuel : nat) (opts : DefaultApp.options) : MC (Z * appl_args_t) :=
  modify (CliArgParse.set_if_count 0);;
  modify (CliArgParse.set_if_array None);;
  r ← ArgOptions.parse_options (parse_option fuel) opts
        (ApplArgs 0 None None LPORT_DEFAULT APP_MODE_UDP 0);
  if r.1 =? -1 then parse_args_cleanup;; mret (EXIT_FAILURE, r.2)
  else
    n ← gets CliArgParse.if_count;
    if n =? 0 then parse_args_cleanup;; mret (EXIT_FAILURE, r.2)
    else if NFP_FP_INTERFACE_MAX <? n then parse_args_cleanup;; mret (EXIT_FAILURE, r.2)
    else mret (EXIT_SUCCESS, default_count r.2).
End Options.

(** ** The tests *)

Section Tests.
Context {W F : Type} `{!App W F}.
Local Abbreviation MP := (M (app W F proc_t)).

(** The address to bind to: that of [-l], or of the first interface; [None] is
    [return -1]. *)
Definition local_address (a : appl_args_t) : MP (option Z) :=
  l ← arg_string (laddr a);
  match l with
  | Some l => ip ← callv (A_inet_addr l); mret (Some ip)
  | None =>
      ifnet ← callv (A_ifport_ifnet_get 0 NFP_IFPORT_NET_SUBPORT_ITF);
      if ifnet =? DefaultApp.NFP_IFNET_INVALID then mret None
      else
        r ← call (A_ifnet_ipv4_addr_get ifnet NFP_IFNET_IP_TYPE_IP_ADDR);
        if negb (r_val r =? 0) then mret None else mret (Some (r_out r))
  end.

Definition address (a : appl_args_t) (ip : Z) : sin :=
  Sin sizeof_sockaddr_in NFP_AF_INET (odp_cpu_to_be_16 (u16 (lport a))) ip sizeof_sockaddr.

(** The body of [do .. while (ret < 0)]; the argument is [retry]. *)
Definition bind_step (sd : Z) (addr : sin) (retry : Z) : MP (Z + Z) :=
  ret ← callv (A_bind sd addr);
  if ret <? 0 then
    let retry := retry + 1 in
    if RETRY_MAX <=? retry then mret (inr ret) else call_ (A_sleep 1);; mret (inl retry)
  else mret (inr ret).

(** [for (i = 0; i < cnt; i++)] *)
Definition udp_step (sd cnt i : Z) : MP (Z + unit) :=
  if negb (i <? cnt) then mret (inr ())
  else
    dgram_size ← callv (A_recv sd BUFF_SIZE 0);
    if dgram_size =? -1 then mret (inr ()) else mret (inl (u64 (i + 1))).

Definition udp_test (fuel : nat) (a : appl_args_t) : MP Z :=
  sd ← callv (A_socket NFP_AF_INET NFP_SOCK_DGRAM NFP_IPPROTO_UDP);
  if sd =? -1 then mret (-1)
  else
    ip ← local_address a;
    match ip with
    | None => mret (-1)
    | Some my_ip_addr =>
        ret ← loop fuel (bind_step sd (address a my_ip_addr)) 0;
        if ret <? 0 then call_ (A_close sd);; mret (-1)
        else
          loop fuel (udp_step sd (recv_count a)) 0;;
          call_ (A_close sd);;
          mret 0
    end.

(** The body of [do .. while (total_recv_size < arg->recv_count)]. *)
Definition tcp_step (cd cnt total_recv_size : Z) : MP (Z + unit) :=
  recv_size ← callv (A_recv cd BUFF_SIZE 0);
  if recv_size =? -1 then mret (inr ())
  else if recv_size =? 0 then mret (inr ())
  else
    let total := u64 (total_recv_size + u64 recv_size) in
    if total <? cnt then mret (inl total) else mret (inr ()).

Definition tcp_test (fuel : nat) (a : appl_args_t) : MP Z :=
  sd ← callv (A_socket NFP_AF_INET NFP_SOCK_STREAM NFP_IPPROTO_TCP);
  if sd =? -1 then mret (-1)
  else
    ip ← local_address a;
    match ip with
    | None => mret (-1)
    | Some my_ip_addr =>
        ret ← loop fuel (bind_step sd (address a my_ip_addr)) 0;
        if ret <? 0 then call_ (A_close sd);; mret (-1)
        else
          l ← callv (A_listen sd 1);
          if negb (l =? 0) then call_ (A_close sd);; mret (-1)
          else
            cd ← callv (A_accept sd);
            if cd =? -1 then call_ (A_close sd);; mret (-1)
            else
              loop fuel (tcp_step cd (recv_count a)) 0;;
              call_ (A_close cd);;
              call_ (A_close sd);;
              mret 0
    end.

(** [if (params.mode == APP_MODE_UDP) udp_test(&params); else tcp_test(&params);] *)
Definition receive (fuel : nat) (a : appl_args_t) : MP Z :=
  match mode a with APP_MODE_UDP => udp_test fuel a | APP_MODE_TCP => tcp_test fuel a end.
End Tests.

(** ** The processes *)

Section Main.
Context {W F : Type} `{!App W F}.
Local Abbreviation MP := (M (app W F proc_t)).

Definition choose_workers (a : appl_args_t) : MP Z :=
  c ← callv A_cpu_count;
  n ← (if negb (core_count a =? 0) then
         c ← callv A_cpu_count;
         if c - 1 <? core_count a then c ← callv A_cpu_count; mret (c - 1) else mret (core_count a)
       else mret (c - 1));
  mret (if MAX_WORKERS <? n then MAX_WORKERS else n).

(** [cpumask_workers] *)
Definition workers_mask (num_workers : Z) : list Z :=
  (λ i, LINUX_CONTROL_CPU + 1 + Z.of_nat i) <$> seq 0 (Z.to_nat num_workers).

Definition configure_interface_addresses : MP Z := DefaultApp.configure_interface_addresses.

(** [nfp_terminate(); parse_args_cleanup(&params);] *)
Definition terminate : MP unit := call_ A_terminate;; on_heap parse_args_cleanup.

(** [nfp_stop_processing(); nfp_process_wait_n(proc_tbl, num_workers); ..] *)
Definition stop_children (num_workers : Z) : MP Z :=
  call_ A_stop_processing;;
  call_ (A_process_wait_n num_workers);;
  terminate;;
  mret EXIT_FAILURE.

(** A worker. *)
Definition child : MP Z :=
  call_ A_default_event_dispatcher;;
  on_heap parse_args_cleanup;;
  call_ A_odp_term_local;;
  exit 0.

(** The parent, after the fork. *)
Definition parent (fuel : nat) (a : appl_args_t) (num_workers : Z) : MP Z :=
  r ← configure_interface_addresses;
  if negb (r =? 0) then stop_children num_workers
  else
    file ← arg_string (cli_file a);
    r ← callv (A_cli_process_file file);
    if negb (r =? 0) then stop_children num_workers
    else
      receive fuel a;;
      call_ A_stop_processing;;
      call_ (A_process_wait_n num_workers);;
      terminate;;
      mret 0.

(** With the stack running. *)
Definition work (fuel : nat) (a : appl_args_t) : MP Z :=
  num_workers ← choose_workers a;
  str ← callv (A_cpumask_to_str (workers_mask num_workers) 64);
  if str <? 0 then terminate;; mret EXIT_FAILURE
  else
    ret ← callv (A_process_fork_n (workers_mask num_workers));
    if ret =? -1 then
      call_ A_stop_processing;;
      terminate;;
      mret EXIT_FAILURE
    else if ret =? 0 then child
    else parent fuel a num_workers.

Definition main (fuel : nat) (opts : DefaultApp.options) : MP Z :=
  r ← FpmDirect.nfpexpl_sigaction_set;
  if negb (r =? 0) then mret EXIT_FAILURE
  else
    p ← on_heap (parse_args fuel opts);
    setg (set_params p.2);;
    if negb (p.1 =? EXIT_SUCCESS) then mret EXIT_FAILURE
    else
      r ← DefaultApp.initialize;
      if negb (r =? 0) then on_heap parse_args_cleanup;; mret EXIT_FAILURE
      else work fuel p.2.
End Main.

End Multiproc.
