(* ===== verification/MultiprocProofs.v ===== *)
(** * A process per worker: the command line and the tests

    What memory holds while options are read; and the two tests: whom they bind
    to, what they receive, and which descriptors they leave. *)

From S2P Require Import Prelude App AppProofs AppHeap Resources CliArgParse CliArgParseProofs ArgHeap ArgOptions DefaultApp DefaultAppProofs DefaultAppStart Multiproc.
Import App AppProofs AppHeap Resources ArgHeap ArgOptions DefaultAppProofs DefaultAppStart Multiproc.

Module MultiprocProofs.

(** ** The command line *)

Definition slots (a : appl_args_t) : list (Z * option positive) := [(102, cli_file a); (108, laddr a)].
Definition count_ok (a : appl_args_t) : Prop := 0 ≤ recv_count a < 2 ^ 64.
Abbreviation parsed := (ArgOptions.parsed slots count_ok).
Local Abbreviation result := (ArgOptions.result slots count_ok).
Definition with_args : list Z := [99; 102; 105; 108; 109; 110; 112].

(** After [-h]. *)
Definition quit (b0 : memory) (c : Z) (h : CliArgParse.state) : Prop := c = EXIT_SUCCESS ∧ spare 2 b0 h.

Lemma multiproc_cleanup_ok b0 a h : parsed b0 a h → wp parse_args_cleanup (λ _ h', spare 2 b0 h') h.
Proof. intros Hp. exact (cleanup_kept _ _ _ (options_kept _ _ _ _ _ Hp)). Qed.

Lemma given_ok b0 fuel c arg a h (k : M CliArgParse.state (Z * appl_args_t)) :
  parsed b0 a h → arg_ok b0 fuel arg → wp k (result b0 c a h) h → wp (given arg a k) (result b0 c a h) h.
Proof.
  intros Hp Harg Hk. apply wp_bind. eapply strlen_ok; [apply Hp|done|]. intros len.
  destruct (len =? 0); [|done]. apply wp_ret, plain_option; [done|done|apply Hp|by right].
Qed.

Lemma multiproc_option_ok b0 fuel o a h :
  parsed b0 a h → opt_ok with_args b0 fuel o → unset slots a h o.1 →
  ends (parse_option fuel o a) (result b0 o.1 a h) (quit b0) h.
Proof.
  intros Hp Hok Hun. unfold parse_option. destruct o as [c arg]. cbn [fst snd] in *. pose proof Hp as [Hh Hcount].
  assert (Hsame : ∀ a' rc, slots a' = slots a → count_ok a' → rc = 0 ∨ rc = -1 → result b0 c a h (rc, a') h).
  { intros a' rc Hs Hi Hrc. by apply plain_option. }
  destruct (Z.eqb_spec c 99) as [->|].
  { apply ends_wp, wp_bind. eapply (atoi_ok b0 fuel arg); [done|apply Hok; set_solver|]. intros t Ht.
    apply wp_ret, Hsame; auto. }
  destruct (Z.eqb_spec c 105) as [->|]; [apply ends_wp, interfaces_option_ok; [done|apply Hok; set_solver|done]|].
  destruct (Z.eqb_spec c 104) as [->|].
  { apply ends_bind, ends_wp. eapply wp_mono; [|by eapply multiproc_cleanup_ok]. intros [] h' Hc. by apply ends_exit. }
  destruct (Z.eqb_spec c 102) as [->|].
  { apply ends_wp. eapply copy_option_ok; [done|apply Hok; set_solver|done| |done].
    by exists [], (cli_file a), [(108, laddr a)]. }
  destruct (Z.eqb_spec c 108) as [->|].
  { apply ends_wp. eapply copy_option_ok; [done|apply Hok; set_solver|done| |done].
    by exists [(102, cli_file a)], (laddr a), []. }
  destruct (Z.eqb_spec c 112) as [->|].
  { apply ends_wp, (given_ok b0 fuel); [done|apply Hok; set_solver|]. apply wp_bind.
    eapply (atoi_ok b0 fuel arg); [done|apply Hok; set_solver|]. intros t Ht. apply wp_ret, Hsame; auto. }
  destruct (Z.eqb_spec c 110) as [->|].
  { apply ends_wp, (given_ok b0 fuel); [done|apply Hok; set_solver|]. apply wp_bind, wp_bind.
    eapply (read_arg_ok b0 fuel arg); [done|apply Hok; set_solver|]. intros t Ht. apply wp_ret, wp_ret.
    apply Hsame; [done|apply wrap_range; lia|auto]. }
  destruct (Z.eqb_spec c 109) as [->|]; [|apply ends_wp, wp_ret, Hsame; auto].
  apply ends_wp, (given_ok b0 fuel); [done|apply Hok; set_solver|]. apply wp_bind.
  eapply (read_arg_ok b0 fuel arg); [done|apply Hok; set_solver|]. intros t Ht.
  repeat destruct (decide _); apply wp_ret, Hsame; auto.
Qed.

(** What a command line that is accepted gives. *)
Definition accepted (b0 : memory) (a : appl_args_t) (h : CliArgParse.state) : Prop :=
  parsed b0 a h ∧ CliArgParse.if_count h ≠ 0 ∧ 0 < recv_count a.

Lemma default_count_ok b0 a h : parsed b0 a h → CliArgParse.if_count h ≠ 0 → accepted b0 (default_count a) h.
Proof.
  intros [Hh Hc] Hn. unfold accepted, default_count. unfold count_ok in Hc.
  destruct (Z.eqb_spec (recv_count a) 0); [|split_and!; [by split|done|lia]].
  split_and!; [split; [done|]|done|]; [split|]; by destruct (mode a).
Qed.

Lemma multiproc_args_ok b0 fuel opts h :
  ready b0 h → Forall (opt_ok with_args b0 fuel) opts → NoDup opts.*1 →
  ends (parse_args fuel opts) (λ p h', p.1 = EXIT_SUCCESS ∧ accepted b0 p.2 h' ∨
    p.1 = EXIT_FAILURE ∧ spare 2 b0 h') (quit b0) h.
Proof.
  intros Hr Hok Hnd. unfold parse_args.
  eapply (read_options_ok slots count_ok b0 (parse_option fuel) (opt_ok with_args b0 fuel));
    [|done|by repeat constructor|done..|].
  { intros. by apply multiproc_option_ok. }
  intros [rc a] h' _ Hp. cbn [fst snd] in *. apply ends_wp.
  assert (Hfail : wp (parse_args_cleanup;; mret (EXIT_FAILURE, a)) (λ p h',
    p.1 = EXIT_SUCCESS ∧ accepted b0 p.2 h' ∨ p.1 = EXIT_FAILURE ∧ spare 2 b0 h') h').
  { apply wp_bind. eapply wp_mono; [|by eapply multiproc_cleanup_ok]. intros [] h2 Hc. apply wp_ret. by right. }
  destruct (rc =? -1); [done|]. apply wp_bind, wp_gets.
  destruct (Z.eqb_spec (CliArgParse.if_count h') 0); [done|]. destruct (_ <? _); [done|].
  apply wp_ret. left. split; [done|]. by apply default_count_ok.
Qed.

(** ** The tests *)

(** [nfp_recv] and [nfp_accept] fail with -1. *)
Class StreamValue (W F : Type) `{!App W F} := {
  recv_value fd len flags w r w' :
    api (A_recv fd len flags : acall F) w = (r, w') → r_val r = -1 ∨ 0 ≤ r_val r;
  accept_value fd w r w' :
    api (A_accept fd : acall F) w = (r, w') → r_val r = -1 ∨ 0 ≤ r_val r;
}.

Section Record.
Context {F : Type}.
Implicit Types (t : list (event F)) (r : areply F).

(** [n] attempts to bind that failed, with a pause after each. *)
Inductive tries (sd : Z) (addr : sin) : Z → list (event F) → Prop :=
| tries_none : tries sd addr 0 []
| tries_more n t r r' :
    tries sd addr n t → r_val r < 0 → tries sd addr (n + 1) (t ++ [(A_bind sd addr, r); (A_sleep 1, r')]).

(** Ten attempts at most, the last of which tells. *)
Definition bound (sd : Z) (addr : sin) (ok : bool) t : Prop :=
  ∃ n t' r, tries sd addr n t' ∧ 0 ≤ n < RETRY_MAX ∧ t = t' ++ [(A_bind sd addr, r)] ∧
    if ok then 0 ≤ r_val r else r_val r < 0 ∧ n = RETRY_MAX - 1.

(** [cnt] datagrams, or fewer and a failure. *)
Definition datagrams (sd cnt : Z) t : Prop :=
  ∃ t', Forall (λ e, e.1 = A_recv sd BUFF_SIZE 0 ∧ r_val e.2 ≠ -1) t' ∧
    (t = t' ∧ Z.of_nat (length t') = cnt ∨
     Z.of_nat (length t') < cnt ∧ ∃ r, t = t' ++ [(A_recv sd BUFF_SIZE 0, r)] ∧ r_val r = -1).

Definition total t : Z := foldr (λ e n, r_val e.2 + n) 0 t.

(** Data until there are [cnt] bytes, or fewer and a failure or the end. *)
Definition stream (cd cnt : Z) t : Prop :=
  ∃ t', Forall (λ e, e.1 = A_recv cd BUFF_SIZE 0 ∧ 0 < r_val e.2 ≤ BUFF_SIZE) t' ∧
    (t = t' ∧ cnt ≤ total t' < cnt + BUFF_SIZE ∨
     total t' < cnt ∧ ∃ r, t = t' ++ [(A_recv cd BUFF_SIZE 0, r)] ∧ (r_val r = -1 ∨ r_val r = 0)).

Lemma total_snoc t e : total (t ++ [e]) = total t + r_val e.2.
Proof. unfold total. induction t as [|x t IH]; simpl; [lia|]. rewrite IH. lia. Qed.
End Record.

Section Tests.
Context {W F : Type} `{!App W F, !SocketLaws W F, !SocketValue W F, !StreamValue W F}.
Context (o0 : gset Z) (fuel : nat).
Local Abbreviation st := (app W F proc_t).
Implicit Types (s : st) (live : gset Z).
Local Abbreviation acts := (AppProofs.acts o0 fuel).
Local Abbreviation fine live := (AppProofs.fine any o0 live fuel).

Lemma fuel_many live s : fine live s → (2048 < fuel)%nat.
Proof. intros (_ & He & _). unfold enough in He. lia. Qed.

Lemma address_ok a live s :
  fine live s → readable (heap (glob s)) (laddr a) →
  wp (local_address a) (λ ip s', ∃ t, acts live s t s' ∧ Forall (λ e : event F, idle_call e.1 = true) t) s.
Proof.
  intros Hf Hr. apply wp_bind.
  eapply wp_mono; [|apply wp_keeps; [apply same_arg_string|by apply arg_string_ok]]. intros l s' [_ <-].
  pose proof (acts_refl o0 fuel _ _ Hf) as H0. destruct l as [l|].
  - apply wp_bind, wp_callv. intros r w E. apply wp_ret. eexists. split; [by eapply acts_call|]. by repeat constructor.
  - apply wp_bind, wp_callv. intros r w E.
    pose proof (acts_call o0 fuel _ _ _ _ _ _ _ H0 E eq_refl ltac:(by intros ?)) as H1.
    destruct (_ =? _); [apply wp_ret; eexists; split; [exact H1|by repeat constructor]|].
    apply wp_bind, wp_call. intros r2 w2 E2.
    pose proof (acts_call o0 fuel _ _ _ _ _ _ _ H1 E2 eq_refl ltac:(by intros ?)) as H2.
    destruct (negb _); apply wp_ret; (eexists; split; [exact H2|by repeat constructor]).
Qed.

Lemma retry_ok sd addr live s :
  fine live s → sd ∈ live →
  wp (loop fuel (bind_step sd addr) 0) (λ ret s', ∃ t, acts live s t s' ∧ bound sd addr (negb (ret <? 0)) t) s.
Proof.
  intros Hf Hin. pose proof (fuel_many _ _ Hf) as Hfuel.
  apply (wp_loop _ (λ n s', 0 ≤ n < RETRY_MAX ∧ ∃ t, acts live s t s' ∧ tries sd addr n t)
    (λ n _, Z.to_nat (RETRY_MAX - n))); [| |unfold RETRY_MAX; lia].
  2: { split; [done|]. exists []. split; [by apply acts_refl|constructor]. }
  intros n s1 (Hn & t & Ha & Ht). apply wp_bind, wp_callv. intros r w E.
  pose proof (acts_call o0 fuel _ _ _ _ _ _ _ Ha E eq_refl ltac:(by intros ? [= <-])) as H1.
  destruct (Z.ltb_spec (r_val r) 0) as [Hr|Hr].
  - cbv zeta. destruct (Z.leb_spec RETRY_MAX (n + 1)).
    + apply wp_ret. eexists. split; [exact H1|]. exists n, t, r. rewrite (proj2 (Z.ltb_lt _ _) Hr).
      split_and!; [done|lia|lia|done|simpl; lia].
    + apply wp_bind, wp_call_. intros r' w' E'. apply wp_ret. split; [|lia]. split; [lia|].
      eexists. split; [eapply acts_call; [exact H1|exact E'|done|by intros ?]|]. rewrite <- app_assoc. by constructor.
  - apply wp_ret. eexists. split; [exact H1|]. exists n, t, r. rewrite (proj2 (Z.ltb_ge _ _) Hr). split_and!; try done; lia.
Qed.

Lemma datagrams_ok sd cnt live s :
  fine live s → sd ∈ live → 0 ≤ cnt < 2 ^ 64 → cnt < Z.of_nat fuel →
  wp (loop fuel (udp_step sd cnt) 0) (λ _ s', ∃ t, acts live s t s' ∧ datagrams sd cnt t) s.
Proof.
  intros Hf Hin Hcnt Hfuel.
  apply (wp_loop _ (λ i s', i ≤ cnt ∧ ∃ t, acts live s t s' ∧ i = Z.of_nat (length t) ∧
    Forall (λ e : event F, e.1 = A_recv sd BUFF_SIZE 0 ∧ r_val e.2 ≠ -1) t) (λ i _, Z.to_nat (cnt - i))); [| |lia].
  2: { split; [lia|]. exists []. split_and!; [by apply acts_refl|done|constructor]. }
  intros i s1 (Hi & t & Ha & Hlen & Ht). unfold udp_step. destruct (Z.ltb_spec i cnt); cbn [negb].
  2: { apply wp_ret. exists t. split; [done|]. exists t. split; [done|]. left. split; [done|lia]. }
  apply wp_bind, wp_callv. intros r w E.
  pose proof (acts_call o0 fuel _ _ _ _ _ _ _ Ha E eq_refl ltac:(by intros ? [= <-])) as H1.
  destruct (Z.eqb_spec (r_val r) (-1)).
  - apply wp_ret. eexists. split; [exact H1|]. exists t. split; [done|]. right. split; [lia|]. by exists r.
  - apply wp_ret. assert (Hw : u64 (i + 1) = i + 1) by (apply wrap_small; unfold in_uint; lia). rewrite Hw.
    split; [|lia]. split; [lia|]. eexists. split_and!; [exact H1|rewrite length_app; simpl; lia|].
    apply Forall_app. split; [done|]. by repeat constructor.
Qed.

Lemma stream_ok cd cnt live s :
  fine live s → cd ∈ live → 0 < cnt < 2 ^ 63 → cnt < Z.of_nat fuel →
  wp (loop fuel (tcp_step cd cnt) 0) (λ _ s', ∃ t, acts live s t s' ∧ stream cd cnt t) s.
Proof.
  intros Hf Hin Hcnt Hfuel.
  apply (wp_loop _ (λ n s', 0 ≤ n < cnt ∧ ∃ t, acts live s t s' ∧ n = total t ∧
    Forall (λ e : event F, e.1 = A_recv cd BUFF_SIZE 0 ∧ 0 < r_val e.2 ≤ BUFF_SIZE) t) (λ n _, Z.to_nat (cnt - n))); [| |lia].
  2: { split; [lia|]. exists []. split_and!; [by apply acts_refl|done|constructor]. }
  intros n s1 (Hn & t & Ha & Hlen & Ht). apply wp_bind, wp_callv. intros r w E.
  pose proof (acts_call o0 fuel _ _ _ _ _ _ _ Ha E eq_refl ltac:(by intros ? [= <-])) as H1.
  destruct (recv_fits _ _ _ _ _ _ E) as [Hfit _]; [done|]. pose proof (recv_value _ _ _ _ _ _ E) as Hv.
  assert (Hstop : r_val r = -1 ∨ r_val r = 0 → ∃ t0, acts live s t0 (after s1 (A_recv cd BUFF_SIZE 0) r w) ∧ stream cd cnt t0).
  { intros Hr. eexists. split; [exact H1|]. exists t. split; [done|]. right. split; [lia|]. by exists r. }
  destruct (Z.eqb_spec (r_val r) (-1)); [by apply wp_ret, Hstop; left|].
  destruct (Z.eqb_spec (r_val r) 0); [by apply wp_ret, Hstop; right|]. cbv zeta.
  assert (Hw : u64 (n + u64 (r_val r)) = n + r_val r).
  { unfold BUFF_SIZE in *. rewrite (wrap_small 64 (r_val r)) by (unfold in_uint; lia). apply wrap_small. unfold in_uint. lia. }
  rewrite Hw. set (e := (A_recv cd BUFF_SIZE 0, r)) in *.
  assert (Ht' : Forall (λ e : event F, e.1 = A_recv cd BUFF_SIZE 0 ∧ 0 < r_val e.2 ≤ BUFF_SIZE) (t ++ [e])).
  { apply Forall_app. split; [done|]. constructor; [split; [done|simpl; lia]|done]. }
  assert (Htot : total (t ++ [e]) = n + r_val r) by (by rewrite total_snoc, Hlen).
  destruct (Z.ltb_spec (n + r_val r) cnt); apply wp_ret.
  - split; [|lia]. split; [lia|]. exists (t ++ [e]). by rewrite Htot.
  - exists (t ++ [e]). split; [done|]. exists (t ++ [e]). split; [done|]. left. split; [done|]. rewrite Htot. lia.
Qed.

(** ** From the socket on *)

(** What is done on the bound socket [sd], with result [rc]. *)
Definition udp_session (cnt sd rc : Z) (t : list (event F)) : Prop := rc = 0 ∧ datagrams sd cnt t.

Definition tcp_session (cnt sd rc : Z) (t : list (event F)) : Prop :=
  (∃ r, t = [(A_listen sd 1, r)] ∧ r_val r ≠ 0 ∧ rc = -1) ∨
  (∃ r r', t = [(A_listen sd 1, r); (A_accept sd, r')] ∧ r_val r' = -1 ∧ rc = -1) ∨
  (∃ r r' t' r'', (r_val r' ∉ {[sd]} ∪ o0) ∧ stream (r_val r') cnt t' ∧ rc = 0 ∧
     t = (A_listen sd 1, r) :: (A_accept sd, r') :: t' ++ [(A_close (r_val r'), r'')]).

(** The four ways a test goes. *)
Inductive served (ty proto : Z) (a : appl_args_t) (session : Z → Z → list (event F) → Prop)
    : Z → list (event F) → st → Prop :=
| served_no_socket r s :
    r_val r = -1 → fine o0 s → served ty proto a session (-1) [(A_socket NFP_AF_INET ty proto, r)] s
| served_no_address r t s :
    (r_val r ∉ o0) → fine ({[r_val r]} ∪ o0) s → Forall (λ e : event F, idle_call e.1 = true) t →
    served ty proto a session (-1) ((A_socket NFP_AF_INET ty proto, r) :: t) s
| served_not_bound r t ip t' r' s :
    (r_val r ∉ o0) → fine o0 s → Forall (λ e : event F, idle_call e.1 = true) t →
    bound (r_val r) (address a ip) false t' →
    served ty proto a session (-1) ((A_socket NFP_AF_INET ty proto, r) :: t ++ t' ++ [(A_close (r_val r), r')]) s
| served_all r t ip t' rc u r' s :
    (r_val r ∉ o0) → fine o0 s → Forall (λ e : event F, idle_call e.1 = true) t →
    bound (r_val r) (address a ip) true t' → session (r_val r) rc u →
    served ty proto a session rc ((A_socket NFP_AF_INET ty proto, r) :: t ++ t' ++ u ++ [(A_close (r_val r), r')]) s.

Definition tested ty proto a session s0 (rc : Z) s : Prop :=
  ∃ t, trace s = trace s0 ++ t ∧ served ty proto a session rc t s.

Lemma server_ok ty proto a session (k : Z → M st Z) s :
  fine o0 s → readable (heap (glob s)) (laddr a) →
  (∀ sd s1, (sd ∉ o0) → fine ({[sd]} ∪ o0) s1 → wp (k sd) (λ rc s2, ∃ u r,
     acts o0 s1 (u ++ [(A_close sd, r)]) s2 ∧ session sd rc u) s1) →
  wp (sd ← callv (A_socket NFP_AF_INET ty proto);
      if sd =? -1 then mret (-1)
      else
        ip ← local_address a;
        match ip with
        | None => mret (-1)
        | Some my_ip_addr =>
            ret ← loop fuel (bind_step sd (address a my_ip_addr)) 0;
            if ret <? 0 then call_ (A_close sd);; mret (-1) else k sd
        end) (tested ty proto a session s) s.
Proof using SocketValue0 StreamValue0.
  intros Hf Hr Hk. apply wp_bind, wp_callv. intros r w E. set (c := A_socket _ _ _) in *.
  pose proof (acts_open o0 fuel _ _ _ _ _ _ _ (acts_refl o0 fuel _ _ Hf) E eq_refl ltac:(by intros ?)) as Ho.
  pose proof (socket_value _ _ _ _ _ _ E) as Hv. set (s1 := after s c r w) in *.
  destruct (Z.eqb_spec (r_val r) (-1)) as [Heq|Hne].
  { apply wp_ret. exists [(c, r)]. split; [done|]. apply served_no_socket; [done|]. rewrite Heq in Ho. apply Ho. }
  rewrite (proj2 (Z.leb_le _ _)) in Ho by lia. destruct Ho as [Hno Ho]. rewrite app_nil_l in Ho.
  apply wp_bind. eapply wp_mono; [|apply (address_ok a ({[r_val r]} ∪ o0)); [apply Ho|done]].
  intros [ip|] s2 (t & Ht & Hidle); pose proof (acts_trans o0 fuel _ _ _ _ _ _ _ Ho Ht) as H2.
  2: { apply wp_ret. eexists. split; [apply H2|]. by apply served_no_address; [|apply Ht|]. }
  apply wp_bind. eapply wp_mono; [|apply (retry_ok (r_val r) (address a ip) ({[r_val r]} ∪ o0)); [apply Ht|set_solver]].
  intros ret s3 (t' & Ht' & Hb). pose proof (acts_trans o0 fuel _ _ _ _ _ _ _ H2 Ht') as H3.
  destruct (ret <? 0); cbn [negb] in Hb.
  - apply wp_bind, wp_call_. intros r' w' E'. apply wp_ret.
    pose proof (acts_close o0 fuel _ _ _ _ _ _ _ H3 Hno E') as H4. eexists. split; [apply H4|].
    rewrite <- !app_assoc. by apply (served_not_bound _ _ _ _ _ _ ip); [|apply H4| |].
  - eapply wp_mono; [|by apply Hk; [|apply Ht']]. intros rc s4 (u & r' & Hu & Hs).
    pose proof (acts_trans o0 fuel _ _ _ _ _ _ _ H3 Hu) as H4. eexists. split; [apply H4|].
    rewrite <- !app_assoc. by apply (served_all _ _ _ _ _ _ ip); [|apply H4| | |].
Qed.

Lemma udp_test_ok a s :
  fine o0 s → readable (heap (glob s)) (laddr a) → 0 ≤ recv_count a < 2 ^ 64 → recv_count a < Z.of_nat fuel →
  wp (udp_test fuel a) (tested NFP_SOCK_DGRAM NFP_IPPROTO_UDP a (udp_session (recv_count a)) s) s.
Proof using SocketValue0 StreamValue0.
  intros Hf Hr Hc Hfuel. apply server_ok; [done..|]. intros sd s1 Hno H1.
  apply wp_bind. eapply wp_mono; [|by apply (datagrams_ok sd (recv_count a) ({[sd]} ∪ o0)); [|set_solver| |]].
  intros _ s2 (u & Hu & Hd). apply wp_bind, wp_call_. intros r w E. apply wp_ret. exists u, r.
  split; [by eapply acts_close|]. by split.
Qed.

Lemma tcp_test_ok a s :
  fine o0 s → readable (heap (glob s)) (laddr a) → 0 < recv_count a < 2 ^ 63 → recv_count a < Z.of_nat fuel →
  wp (tcp_test fuel a) (tested NFP_SOCK_STREAM NFP_IPPROTO_TCP a (tcp_session (recv_count a)) s) s.
Proof using SocketValue0 StreamValue0.
  intros Hf Hr Hc Hfuel. apply server_ok; [done..|]. intros sd s1 Hno H1.
  pose proof (acts_refl o0 fuel _ _ H1) as A0. apply wp_bind, wp_callv. intros r w E.
  pose proof (acts_call o0 fuel _ _ _ _ _ _ _ A0 E eq_refl ltac:(intros ? [= <-]; set_solver)) as A1.
  destruct (Z.eqb_spec (r_val r) 0); cbn [negb].
  2: { apply wp_bind, wp_call_. intros r' w' E'. apply wp_ret. eexists _, r'. split; [by eapply acts_close|]. left. by exists r. }
  apply wp_bind, wp_callv. intros r2 w2 E2. pose proof (accept_value _ _ _ _ E2) as Hv.
  pose proof (acts_open o0 fuel _ _ _ _ _ _ _ A1 E2 eq_refl ltac:(intros ? [= <-]; set_solver)) as A2.
  set (s3 := after _ (A_accept sd) r2 w2) in *. destruct (Z.eqb_spec (r_val r2) (-1)) as [Heq|Hne].
  { rewrite Heq in A2. cbn -[AppProofs.acts] in A2. apply wp_bind, wp_call_. intros r' w' E'. apply wp_ret. eexists _, r'.
    split; [eapply acts_close; [exact A2|done|exact E']|]. right. left. by exists r, r2. }
  rewrite (proj2 (Z.leb_le _ _)) in A2 by lia. destruct A2 as [Hno2 A2].
  apply wp_bind. eapply wp_mono; [|apply (stream_ok (r_val r2) (recv_count a) ({[r_val r2]} ∪ ({[sd]} ∪ o0)));
    [apply A2|set_solver|done|done]].
  intros _ s4 (u & Hu & Hs). pose proof (acts_trans o0 fuel _ _ _ _ _ _ _ A2 Hu) as A4.
  apply wp_bind, wp_call_. intros r5 w5 E5. pose proof (acts_close o0 fuel _ _ _ _ _ _ _ A4 Hno2 E5) as A5.
  apply wp_bind, wp_call_. intros r6 w6 E6. apply wp_ret. eexists _, r6. split; [by eapply acts_close|].
  right. right. exists r, r2, u, r5. split_and!; [done..|]. by simplify_list_eq.
Qed.

Definition received a s0 (rc : Z) s : Prop :=
  match mode a with
  | APP_MODE_UDP => tested NFP_SOCK_DGRAM NFP_IPPROTO_UDP a (udp_session (recv_count a)) s0 rc s
  | APP_MODE_TCP => tested NFP_SOCK_STREAM NFP_IPPROTO_TCP a (tcp_session (recv_count a)) s0 rc s
  end.

Lemma receive_ok a s :
  fine o0 s → readable (heap (glob s)) (laddr a) → 0 < recv_count a < 2 ^ 63 → recv_count a < Z.of_nat fuel →
  wp (receive fuel a) (received a s) s.
Proof using SocketValue0 StreamValue0.
  intros Hf Hr Hc Hfuel. unfold receive, received. destruct (mode a); [apply udp_test_ok|apply tcp_test_ok]; try done; lia.
Qed.

(** [C25] The tests end and return 0 or -1, after at most ten attempts to bind
    their socket, a second apart.  The first test receives as many datagrams as
    asked for, or stops at the first failure; the other accepts one connection
    and receives from it until it has at least as many bytes as asked for, and
    fewer than 1500 more, or the connection ends or fails.  Every descriptor is
    closed again, but the socket when there is no address to bind it to.  The
    number asked for is positive, a signed 64-bit number and below the fuel. *)
Theorem multiprocess_receives a s :
  fine o0 s → readable (heap (glob s)) (laddr a) → 0 < recv_count a < 2 ^ 63 → recv_count a < Z.of_nat fuel →
  ∃ rc s', receive fuel a s = (Ret rc, s') ∧ received a s rc s'.
Proof using SocketValue0 StreamValue0. apply receive_ok. Qed.
End Tests.

End MultiprocProofs.
