(* ===== verification/MultiprocStart.v ===== *)
(** * A process per worker: start and end

    The parent gives everything back on every path, and so does a child whose
    set-up succeeded; a child whose set-up failed takes itself for the parent. *)

From S2P Require Import Prelude App AppProofs AppHeap Resources HttpdTheorems CliArgParse CliArgParseProofs ArgHeap ArgOptions FpmDirect FpmDirectStart DefaultApp DefaultAppProofs DefaultAppStart Multiproc MultiprocProofs.
Import App AppProofs AppHeap Resources HttpdTheorems ArgHeap ArgOptions DefaultAppProofs DefaultAppStart Multiproc MultiprocProofs.

Module MultiprocStart.

(** The answer of the fork to a child that could not be set up. *)
Definition bad_fork {F} (e : event F) : Prop := ∃ cpus, e.1 = A_process_fork_n cpus ∧ r_val e.2 < -1.

Section Main.
Context {W F : Type} `{!App W F, !SocketLaws W F, !SocketValue W F, !StreamValue W F}.
Context (o0 : gset Z) (fuel : nat).
Local Abbreviation st := (app W F proc_t).
Implicit Types (s : st) (live : gset Z) (ok : bool).
Local Abbreviation fine live := (AppProofs.fine any o0 live fuel).

(** Such an answer was given since [s0]. *)
Definition strayed s0 s : Prop := ∃ t, trace s = trace s0 ++ t ∧ Exists bad_fork t.

Lemma strayed_moves s0 s rs s' rs' : strayed s0 s → moves s rs s' rs' → strayed s0 s'.
Proof.
  intros (t & Ht & He) (t' & Ht' & _). exists (t ++ t'). split; [by rewrite Ht', Ht, app_assoc|]. apply Exists_app. by left.
Qed.

(** A test leaves at most its socket. *)
Definition leaves live : Prop := live = o0 ∨ ∃ fd, (fd ∉ o0) ∧ live = {[fd]} ∪ o0.

Section Parsed.
Context (h : CliArgParse.state) (R : CliArgParse.state → Prop).
Context (cleanup_ok : wp parse_args_cleanup (λ _ h', R h') h).

(** The stack has been started since [s0], then at most [n] processes, unless
    this is a stray child. *)
Definition here (ok : bool) (n : nat) s0 live s : Prop :=
  heap_of (glob s) = h ∧ (if ok then with_threads n s0 s else strayed s0 s) ∧ fine live s.

(** All has been given back but perhaps a socket. *)
Definition over (ok : bool) s0 s : Prop :=
  R (heap_of (glob s)) ∧ (if ok then moves s0 [] s [] else strayed s0 s) ∧ ∃ live, leaves live ∧ fine live s.

Lemma here_neutral ok n s0 live live' s s' :
  here ok n s0 live s → Resources.neutral (λ g, g) s s' → fine live' s' → here ok n s0 live' s'.
Proof.
  intros (Hh & Ht & _) Hn Hf. split_and!; [by destruct Hn as (_ & -> & _)| |done].
  destruct ok; [by eapply threads_neutral|]. destruct Hn as (_ & _ & Hm). eapply strayed_moves; [exact Ht|apply (Hm [])].
Qed.

Lemma here_calm ok n s0 live s s' : here ok n s0 live s → calm s s' → here ok n s0 live s'.
Proof. intros Hh [Hn Hi]. eapply here_neutral; [exact Hh|exact Hn|apply Hi, Hh]. Qed.

Lemma here_wait {B} ok n m s0 live s (k : M st B) Q :
  here ok n s0 live s → (∀ s', here ok (n - Z.to_nat m) s0 live s' → wp k Q s') →
  wp (call_ (A_process_wait_n m);; k) Q s.
Proof.
  intros (Hh & Ht & Hf) Hk. apply wp_bind, wp_call_. intros r w E. apply Hk.
  split_and!; [done| |by eapply idle_after]. destruct ok; [by apply threads_wait|].
  destruct Ht as (t & Ht & He). exists (t ++ [(A_process_wait_n m, r)]). split; [simpl; by rewrite Ht, app_assoc|].
  apply Exists_app. by left.
Qed.

Lemma over_cleanup ok s0 live s :
  leaves live → heap_of (glob s) = h → (if ok then moves s0 [] s [] else strayed s0 s) → fine live s →
  wp (on_heap parse_args_cleanup) (λ _ s', over ok s0 s') s.
Proof using cleanup_ok.
  intros Hl Hh Hm Hf. eapply wp_mono; [|by apply (clean_ok _ h R cleanup_ok)]. intros [] s' (Ht & Hw & HR).
  split; [done|]. split; [|exists live; split; [done|]; by apply (idle_same s)].
  destruct ok; destruct Hm as (t & Hm & H); exists t; by rewrite Ht.
Qed.

Lemma here_terminate ok s0 live s :
  leaves live → here ok 0 s0 live s → wp terminate (λ _ s', over ok s0 s') s.
Proof using cleanup_ok.
  intros Hl (Hh & Ht & Hf). apply wp_bind, wp_call_. intros r w E. apply (over_cleanup ok s0 live); [done|done| |by eapply idle_after].
  destruct ok.
  - apply threads_none in Ht. eapply moves_trans; [exact Ht|]. by apply moves_after.
  - destruct Ht as (t & Ht & He). exists (t ++ [(A_terminate, r)]). split; [simpl; by rewrite Ht, app_assoc|].
    apply Exists_app. by left.
Qed.

(** The result of [main]. *)
Definition ends_as ok s0 (rc : Z) s : Prop := (rc = EXIT_SUCCESS ∨ rc = EXIT_FAILURE) ∧ over ok s0 s.

Lemma terminate_as ok s0 live rc s :
  rc = EXIT_SUCCESS ∨ rc = EXIT_FAILURE → leaves live → here ok 0 s0 live s →
  wp (terminate;; mret rc) (ends_as ok s0) s.
Proof using cleanup_ok.
  intros Hrc Hl Hh. apply wp_bind. eapply wp_mono; [|by eapply here_terminate]. intros [] s' Ho. apply wp_ret. by split.
Qed.

Lemma leaves_none : leaves o0.
Proof. by left. Qed.

Lemma stop_children_ok ok num s0 s :
  here ok (Z.to_nat num) s0 o0 s → wp (stop_children num) (ends_as ok s0) s.
Proof using cleanup_ok.
  intros Hh. eapply wp_calm_step; [by apply calm_of_call_|apply any_call_|]. intros [] s1 _ Hc.
  eapply here_wait; [by eapply here_calm|]. intros s2. rewrite Nat.sub_diag. intros H2.
  by apply (terminate_as ok s0 o0); [right|apply leaves_none|].
Qed.

(** The tests start nothing and change no memory. *)
Lemma neutral_receive a : keeps (Resources.neutral (λ g, g)) (receive fuel a : M st Z).
Proof.
  unfold receive, udp_test, tcp_test, local_address, bind_step, udp_step, tcp_step.
  destruct (mode a); frame.
Qed.

Lemma served_live ty proto a session rc t s : served o0 fuel ty proto a session rc t s → ∃ live, leaves live ∧ fine live s.
Proof.
  intros [r s1 _ Hf|r t1 s1 Hno Hf _|r t1 ip t2 r' s1 Hno Hf _ _|r t1 ip t2 rc1 u r' s1 Hno Hf _ _ _];
    eauto using leaves_none. eexists. split; [|exact Hf]. right. eauto.
Qed.

Lemma received_live a s0 rc s : received o0 fuel a s0 rc s → ∃ live, leaves live ∧ fine live s.
Proof. unfold received. by destruct (mode a); intros (t & _ & Ht%served_live). Qed.

Lemma parent_ok ok num a items s0 s :
  here ok (Z.to_nat num) s0 o0 s → lists h items → readable h (cli_file a) → readable h (laddr a) →
  0 < recv_count a < 2 ^ 63 → recv_count a < Z.of_nat fuel →
  wp (parent fuel a num) (ends_as ok s0) s.
Proof using cleanup_ok SocketValue0 StreamValue0.
  intros Hh Hl Hcli Hladdr Hcount Hfuel.
  eapply (wp_calm_step _ _ (λ _, True)); [apply calm_configure| |].
  { eapply wp_mono; [|apply (configure_ok items)]; [done|]. by rewrite (proj1 Hh). }
  intros rc s1 _ Hc1. pose proof (here_calm _ _ _ _ _ _ Hh Hc1) as H1.
  destruct (negb _); [by apply stop_children_ok|].
  eapply wp_calm_step; [apply calm_arg|apply arg_string_ok; by rewrite (proj1 H1)|]. intros f s2 _ Hc2.
  eapply wp_calm_step; [by apply calm_of_callv|apply any_callv|]. intros rc2 s3 _ Hc3.
  pose proof (here_calm _ _ _ _ _ _ (here_calm _ _ _ _ _ _ H1 Hc2) Hc3) as H3.
  destruct (negb _); [by apply stop_children_ok|]. apply wp_bind.
  eapply wp_mono; [|apply wp_keeps; [apply neutral_receive|apply (receive_ok o0 fuel a); [apply H3|change (heap (glob s3)) with (heap_of (glob s3)); by rewrite (proj1 H3)|done|done]]].
  intros rc4 s4 [(live & Hlive & Hf)%received_live Hn4]. pose proof (here_neutral _ _ _ _ live _ _ H3 Hn4 Hf) as H4.
  eapply wp_calm_step; [by apply calm_of_call_|apply any_call_|]. intros [] s5 _ Hc5.
  eapply here_wait; [by eapply here_calm|]. intros s6. rewrite Nat.sub_diag. intros H6.
  apply (terminate_as ok s0 live); [by left|done|exact H6].
Qed.

(** A child ends by itself; it holds nothing. *)
Lemma child_ok s0 s :
  moves s0 [] s [] → fine o0 s → heap_of (glob s) = h →
  ends child (λ _ _, False) (λ c s', c = EXIT_SUCCESS ∧ over true s0 s') s.
Proof using cleanup_ok.
  intros Hm Hf Hh. apply ends_bind, ends_wp.
  eapply wp_mono; [|apply wp_keeps; [by apply (calm_of_call_ A_default_event_dispatcher)|apply any_call_]].
  intros [] s1 [_ [(_ & Hg & Hm1) Hi1]]. apply ends_bind, ends_wp.
  eapply wp_mono; [|apply (over_cleanup true s0 o0); [apply leaves_none|by rewrite Hg|by eapply moves_trans|by apply Hi1]].
  intros [] s2 (HR & Hm2 & live & Hl & Hf2). apply ends_bind, ends_wp, wp_call_. intros r w E. apply ends_exit.
  split; [done|]. split; [done|]. split; [|exists live; split; [done|by eapply idle_after]].
  eapply moves_trans; [exact Hm2|]. by apply moves_after.
Qed.

Lemma calm_choose a : keeps calm (choose_workers a : M st Z).
Proof. apply calm_keeps; unfold choose_workers; frame. Qed.
Lemma choose_run a s : wp (choose_workers a : M st Z) (λ _ _, True) s.
Proof. unfold choose_workers. runs. Qed.

(** The outcome of [main]. *)
Definition work_ends s0 (o : outcome Z) s : Prop :=
  match o with
  | Ret rc => ∃ ok, ends_as ok s0 rc s
  | Exit c => c = EXIT_SUCCESS ∧ over true s0 s
  | _ => False
  end.

Lemma work_ok a items s0 s :
  here true 0 s0 o0 s → lists h items → readable h (cli_file a) → readable h (laddr a) →
  0 < recv_count a < 2 ^ 63 → recv_count a < Z.of_nat fuel →
  ends (work fuel a) (λ rc s', work_ends s0 (Ret rc) s') (λ c s', work_ends s0 (Exit c) s') s.
Proof using cleanup_ok SocketValue0 StreamValue0.
  intros Hh Hl Hcli Hladdr Hcount Hfuel.
  assert (Hfail : ∀ s', here true 0 s0 o0 s' → wp (terminate;; mret EXIT_FAILURE) (λ rc s', work_ends s0 (Ret rc) s') s').
  { intros s' H. eapply wp_mono; [|by apply (terminate_as true s0 o0); [right|apply leaves_none|]]. intros rc s2 ?. by exists true. }
  apply ends_bind, ends_wp. eapply wp_mono; [|apply wp_keeps; [apply calm_choose|apply choose_run]]. intros num s1 [_ Hc1].
  apply ends_bind, ends_wp. eapply wp_mono; [|apply wp_keeps; [by apply calm_of_callv|apply any_callv]]. intros rc2 s2 [_ Hc2].
  pose proof (here_calm _ _ _ _ _ _ (here_calm _ _ _ _ _ _ Hh Hc1) Hc2) as (Hh2 & Ht2 & Hf2).
  destruct (rc2 <? 0); [by apply ends_wp, Hfail|]. apply ends_bind, ends_wp, wp_callv. intros r w E.
  set (cpus := workers_mask num) in *. set (s3 := after s2 _ r w).
  assert (Hf3 : fine o0 s3) by (by eapply idle_after).
  destruct (Z.eqb_spec (r_val r) (-1)) as [Hr|Hr].
  { apply ends_wp. eapply wp_calm_step; [by apply calm_of_call_|apply any_call_|]. intros [] s4 _ Hc4. apply Hfail.
    eapply here_calm; [|exact Hc4]. split_and!; [done|by apply threads_no_fork|done]. }
  destruct (Z.eqb_spec (r_val r) 0) as [Hr0|Hr0].
  { eapply ends_mono; [| |apply (child_ok s0); [|done|done]]; [by intros ? ? []|done|].
    apply threads_none in Ht2. eapply moves_trans; [exact Ht2|]. apply moves_after. unfold hold. cbn [fst snd]. by rewrite Hr0. }
  apply ends_wp. destruct (decide (0 < r_val r)) as [Hpos|Hneg].
  - eapply wp_mono; [|apply (parent_ok true num a items s0)]; try done; [intros rc s' ?; by exists true|].
    split_and!; [done| |done]. pose proof (threads_fork _ _ _ cpus r w Ht2 Hpos) as Ht3.
    replace (Z.to_nat num) with (0 + length cpus)%nat; [exact Ht3|]. unfold cpus, workers_mask.
    by rewrite length_fmap, length_seq.
  - eapply wp_mono; [|apply (parent_ok false num a items s0)]; try done; [intros rc s' ?; by exists false|].
    split_and!; [done| |done]. apply threads_none in Ht2 as (t & Ht & _). exists (t ++ [(A_process_fork_n cpus, r)]).
    split; [simpl; by rewrite Ht, app_assoc|]. apply Exists_app. right. constructor. exists cpus. split; [done|simpl; lia].
Qed.
End Parsed.

(** Before the stack is started. *)
Lemma free_over R s0 s : fine o0 s0 → free s0 s → R (heap_of (glob s)) → over R true s0 s.
Proof. intros Hf [Hm Hi] HR. split; [done|]. split; [done|]. exists o0. split; [by left|by apply Hi]. Qed.

(** From the options on. *)
Lemma options_work_ok b0 p h s0 s :
  accepted b0 p h → recv_count p < 2 ^ 63 → recv_count p < Z.of_nat fuel →
  fine o0 s0 → free s0 s → heap_of (glob s) = h →
  ends (r ← DefaultApp.initialize;
        if negb (r =? 0) then on_heap parse_args_cleanup;; mret EXIT_FAILURE else work fuel p)
    (λ rc s', work_ends (spare 2 b0) s0 (Ret rc) s') (λ c s', work_ends (spare 2 b0) s0 (Exit c) s') s.
Proof using SocketValue0 StreamValue0.
  intros (Hp & Hn & Hpos) H63 Hfuel Hf0 Hfree Hh. destruct (holds_lists _ _ _ (proj1 Hp) Hn) as [items Hl].
  pose proof (multiproc_cleanup_ok _ _ _ Hp) as Hclean.
  apply ends_bind, ends_wp. eapply wp_mono; [|by apply (initialize_ok h items s0)]. intros rc s1. cbn beta.
  destruct (rc =? 0); cbn [negb].
  - intros (Hh1 & Ht1 & Hi1).
    apply (work_ok h _ Hclean p items); [split_and!; [done|done|by apply Hi1]|done| | |done|done].
    + eapply (parsed_readable _ _ _ _ _ 102); [exact Hp|]. set_solver.
    + eapply (parsed_readable _ _ _ _ _ 108); [exact Hp|]. set_solver.
  - intros [Hh1 Hf1]. apply ends_wp, wp_bind. eapply wp_mono; [|by eapply (clean_free_ok _ h _ Hclean)].
    intros [] s2 [HR Hf2]. apply wp_ret. exists true. split; [by right|]. by apply free_over.
Qed.

(** [C24] [main] of multiprocess ends on every path: it returns 0 or 1, or exits
    with 0 after [-h] and in a child.  The interface list has been freed, the
    copies of two arguments are all that may be left in memory, and no
    descriptor but the socket of the test.  Where the stack was started, the
    children were waited for before it was terminated, and a child terminates
    nothing of its parent's; only when the fork reports to a child that it
    could not be set up does it go on as the parent, and then nothing is said
    of what it terminates.  Each option is given at most once, memory does not
    run out while options are read, and no more is to be received than the
    fuel allows. *)
Theorem multiprocess_main_releases_resources b0 opts s :
  ready b0 (heap (glob s)) → Forall (opt_ok with_args b0 fuel) opts → NoDup opts.*1 → fine o0 s →
  (∀ p h, parse_args fuel opts (heap (glob s)) = (Ret p, h) → recv_count p.2 < Z.min (2 ^ 63) (Z.of_nat fuel)) →
  ∃ o s' t, main fuel opts s = (o, s') ∧ trace s' = trace s ++ t ∧
    spare 2 b0 (heap (glob s')) ∧ (∃ live, leaves live ∧ fine live s') ∧
    (held [] t = Some [] ∨ Exists bad_fork t) ∧
    (o = Ret EXIT_SUCCESS ∨ o = Ret EXIT_FAILURE ∨ o = Exit EXIT_SUCCESS).
Proof using SocketValue0 StreamValue0.
  intros Hready Hok Hnd Hf Hcount.
  enough (ends (main fuel opts) (λ rc s', work_ends (spare 2 b0) s (Ret rc) s') (λ c s', work_ends (spare 2 b0) s (Exit c) s') s)
    as (o & s' & Hrun & Ho).
  { assert (Hover : ∃ ok, over (spare 2 b0) ok s s' ∧ (o = Ret EXIT_SUCCESS ∨ o = Ret EXIT_FAILURE ∨ o = Exit EXIT_SUCCESS)).
    { destruct o as [rc|c| |]; [| |done..]; [destruct Ho as (ok & [-> | ->] & ?); eauto|destruct Ho as [-> ?]; eauto 6]. }
    destruct Hover as (ok & (HR & Hm & Hl) & Hout). destruct ok; destruct Hm as (t & Ht & Hm); exists o, s', t; auto 10. }
  apply ends_bind, ends_wp. eapply wp_mono; [|apply wp_keeps; [apply calm_signals|apply signals_run]]. intros r s1 [_ Hn1].
  pose proof (free_calm _ _ _ (free_refl s) Hn1) as Hfr.
  assert (Hh1 : heap (glob s1) = heap (glob s)) by (by destruct Hn1 as [(_ & -> & _) _]).
  destruct (negb _).
  { apply ends_wp, wp_ret. exists true. split; [by right|]. apply free_over; [done..|]. change (heap_of (glob s1)) with (heap (glob s1)).
    rewrite Hh1. by apply ready_spare. }
  apply ends_bind, ends_on_heap. change (heap_of (glob s1)) with (heap (glob s1)). rewrite Hh1.
  destruct (multiproc_args_ok b0 fuel opts (heap (glob s)) Hready Hok Hnd) as (o & h & Hparse & Ho).
  exists o, h. split; [exact Hparse|]. destruct o as [[prc a]|c| |]; [| |done..].
  2: { destruct Ho as [-> Hs]. split; [done|]. apply free_over; [done|by eapply free_same|done]. }
  apply ends_bind, ends_wp, wp_setg. cbn [fst snd] in *. set (s3 := MkApp _ _ _ _).
  assert (Hfr3 : free s s3) by (by eapply free_same).
  destruct Ho as [[-> Ha]|[-> Hs]].
  - apply Hcount in Hparse. cbn [snd] in Hparse. apply (options_work_ok b0 a h); [done|lia|lia|done|done|done].
  - apply ends_wp, wp_ret. exists true. split; [by right|]. by apply free_over.
Qed.
End Main.

(** ** Witnesses *)

#[global] Instance demo_stream : StreamValue demo (gset Z).
Proof.
  split; intros until 1; simpl in *; simplify_eq; cbn [r_val rep]; lia.
Qed.

(** The options "-i eth0". *)
Definition demo_start : app demo (gset Z) proc_t :=
  MkApp (Demo 3 3) 0 [] (MkProc FpmDirectStart.demo_memory (ApplArgs 0 None None LPORT_DEFAULT APP_MODE_UDP 0)).

Lemma demo_start_fine : AppProofs.fine any ∅ ∅ 2060 demo_start.
Proof.
  split_and!; [split_and!; [done|done|done|set_solver]|unfold enough; simpl; lia| |done].
  intros t e t' Heq. by destruct t.
Qed.

Lemma multiprocess_main_releases_resources_witness :
  ∃ o s' t, main 2060 FpmDirectStart.demo_opts demo_start = (o, s') ∧ trace s' = trace demo_start ++ t ∧
    spare 2 (CliArgParse.blocks FpmDirectStart.demo_memory) (heap (glob s')) ∧
    (∃ live, leaves ∅ live ∧ AppProofs.fine any ∅ live 2060 s') ∧
    (held [] t = Some [] ∨ Exists bad_fork t) ∧
    (o = Ret EXIT_SUCCESS ∨ o = Ret EXIT_FAILURE ∨ o = Exit EXIT_SUCCESS).
Proof.
  apply (multiprocess_main_releases_resources (W := demo) (F := gset Z) ∅ 2060);
    [exact FpmDirectStart.demo_ready|apply demo_options_ok|apply NoDup_singleton|exact demo_start_fine|].
  intros p h H. assert (Hp : fst (parse_args 2060 FpmDirectStart.demo_opts (heap (glob demo_start))) =
    Ret (0, ApplArgs 0 None None LPORT_DEFAULT APP_MODE_UDP 10)) by (by vm_compute).
  rewrite H in Hp. cbn [fst] in Hp. injection Hp as ->. simpl. lia.
Defined.

Lemma multiprocess_receives_witness :
  ∃ rc s', receive 2060 (ApplArgs 0 None None LPORT_DEFAULT APP_MODE_TCP 100) demo_start = (Ret rc, s') ∧
    received ∅ 2060 (ApplArgs 0 None None LPORT_DEFAULT APP_MODE_TCP 100) demo_start rc s'.
Proof.
  apply (multiprocess_receives (W := demo) (F := gset Z)); [exact demo_start_fine|done|simpl; lia|simpl; lia].
Defined.

End MultiprocStart.
