(* ===== verification/Classifier.v ===== *)
(** * Classified traffic (example/classifier)

    ODP sorts incoming packets: UDP datagrams for one port go to a queue of
    their own and from there, by the socket API or over a channel, to a thread
    that counts them; everything else goes to the ordinary workers.  Classes,
    queues and scheduler groups are objects the program creates and has to
    destroy (classifier.c); packets are passed on and counted in
    classifier_term.c; classifier_main.c has the dispatchers and the program.
    Printed information and the contents of the ODP parameter records are left
    out. *)

From S2P Require Import Prelude Errno App AppHeap CliArgParse ArgOptions TcpPerf FpmDirect DefaultApp UdpTerm.
Import App AppHeap.

Module Classifier.

(** ** Constants *)

Definition TEST_PORT : Z := 54321.
Definition MAX_WORKERS : Z := 32.
Definition NFP_FP_INTERFACE_MAX : Z := FpmDirect.NFP_FP_INTERFACE_MAX.
Definition METHOD_CHANNEL : Z := 0.
Definition METHOD_POSIX : Z := 1.
Definition METHOD_MAX : Z := 2.
Definition CHANNEL_RECV_MAX : Z := 32.
Definition NFP_CHANNEL_INVALID : Z := UdpTerm.NFP_CHANNEL_INVALID.
Definition NFP_MSG_DONTWAIT : Z := 0x80.
Definition NFP_SOCK_DGRAM : Z := 2.
Definition NFP_IPPROTO_UDP : Z := 17.
Definition EXIT_SUCCESS : Z := 0.
Definition EXIT_FAILURE : Z := 1.
(** [sizeof(name)], and the time to wait for events: 100 ms. *)
Definition NAME_LEN : Z := 80.
Definition WAIT_NS : Z := 100000000.
(** The invalid class, rule, queue and group. *)
Definition INVALID : Z := 0.
Definition THREAD_worker_dispatcher : Z := 70.
Definition THREAD_worker_classif_dispatcher : Z := 71.
Definition THREAD_termination_posix : Z := 72.
Definition THREAD_termination_channel : Z := 73.

(** ** Data *)

Record classif_t := Classif {
  cos_udp : Z;
  pmr_udp : Z;
  cos_def : list Z;
}.

Record appl_args_t := ApplArgs {
  core_count : Z;
  cli_file : option positive;
  method : Z;
}.

(** Memory, [params] and the two counters. *)
Record cls_t := MkCls {
  heap : CliArgParse.state;
  params : appl_args_t;
  received_total : Z;
  received_pkt_total : Z;
}.
Definition set_params (x : appl_args_t) (g : cls_t) : cls_t :=
  MkCls (heap g) x (received_total g) (received_pkt_total g).

(** [received_total += n; received_pkt_total++;] on [uint64_t] *)
Definition count (n : Z) (g : cls_t) : cls_t :=
  MkCls (heap g) (params g) (u64 (received_total g + n)) (u64 (received_pkt_total g + 1)).

#[global] Program Instance cls_heap : HasHeap cls_t :=
  {| heap_of := heap; put_heap h g := MkCls h (params g) (received_total g) (received_pkt_total g) |}.
Next Obligation. done. Qed.
Next Obligation. by intros []. Qed.

(** ** The classifier (classifier.c) *)

Definition init_classifier : classif_t :=
  Classif INVALID INVALID (replicate (Z.to_nat NFP_FP_INTERFACE_MAX) INVALID).

Section Classes.
Context {W F : Type} `{!App W F}.
Local Abbreviation MK := (M (app W F cls_t)).

(** A class with a queue in scheduler group [group_cls]. *)
Definition build_cos_w_queue (name : bytes) (group_cls : Z) : MK Z :=
  queue_cos ← callv (A_queue_create name group_cls);
  if queue_cos =? INVALID then mret INVALID
  else
    pool ← callv A_pool_lookup;
    cos ← callv (A_cos_create name queue_cos pool);
    if cos =? INVALID then
      call_ (A_cos_destroy cos);;
      call_ (A_queue_destroy queue_cos);;
      mret INVALID
    else mret cos.

(** The rule for datagrams to the test port. *)
Definition build_udp_prm (cos_src cos_dst : Z) : MK Z :=
  callv (A_pmr_create (odp_cpu_to_be_16 TEST_PORT) 0xffff cos_src cos_dst).

(** [sprintf(name, "cos_default_%s", arg_if->if_name)] *)
Definition class_name (if_name : bytes) : MK bytes :=
  let name := text "cos_default_" ++ if_name in
  if Z.of_nat (length name) <? NAME_LEN then mret name else stuck.

(** The rest of the loop's body, when the class is there. *)
Definition attach_class (pktio : Z) (c : classif_t) (cos : Z) : MK (classif_t + classif_t) :=
  d ← callv (A_default_cos_set pktio cos);
  if d <? 0 then mret (inr c)
  else
    e ← callv (A_error_cos_set pktio cos);
    if e <? 0 then mret (inr c)
    else
      pmr_udp ← build_udp_prm cos (cos_udp c);
      if pmr_udp =? INVALID then mret (inr c) else mret (inl c).

(** One interface: [inr] is [return -1].  The rule is only kept in a local
    variable. *)
Definition build_interface (group_workers i : Z) (c : classif_t) : MK (classif_t + classif_t) :=
  if_name ← FpmDirect.interface_name i;
  ifnet ← callv (A_ifnet_get_by_name if_name);
  if ifnet =? DefaultApp.NFP_IFNET_INVALID then mret (inr c)
  else
    port ← call (A_ifnet_port_get ifnet);
    if negb (r_val port =? 0) then mret (inr c)
    else
      pktio ← callv (A_port_pktio (r_out port));
      if pktio =? 0 then mret (inr c)
      else
        name ← class_name if_name;
        cos ← build_cos_w_queue name group_workers;
        cos_def ← FpmDirect.store (cos_def c) i cos;
        let c := Classif (cos_udp c) (pmr_udp c) cos_def in
        if cos =? INVALID then mret (inr c) else attach_class pktio c cos.

(** The result and what [*classif] holds afterwards. *)
Definition build_classifier (group_cls group_workers : Z) (c : classif_t) : MK (Z * classif_t) :=
  cos ← build_cos_w_queue (text "cos_udp") group_cls;
  let c := Classif cos (pmr_udp c) (cos_def c) in
  if cos =? INVALID then mret (-1, c)
  else
    n ← FpmDirect.if_count;
    r ← for_ret 0 (Z.to_nat n) (build_interface group_workers) c;
    match r with inl c => mret (0, c) | inr c => mret (-1, c) end.

(** A class, with its queue. *)
Definition destroy_class (cos : Z) : MK unit :=
  cos_q ← callv (A_cos_queue cos);
  when (negb (cos_q =? INVALID)) (call_ (A_queue_destroy cos_q));;
  call_ (A_cos_destroy cos).

Definition cleanup_classifier (c : classif_t) : MK unit :=
  for_from 0 (Z.to_nat NFP_FP_INTERFACE_MAX) (λ i,
    cos ← of_option (cos_def c !! Z.to_nat i);
    when (negb (cos =? INVALID)) (destroy_class cos));;
  when (negb (cos_udp c =? INVALID))
    (when (negb (pmr_udp c =? INVALID)) (call_ (A_pmr_destroy (pmr_udp c)));;
     destroy_class (cos_udp c)).
End Classes.

(** ** Receiving and counting (classifier_term.c) *)

Section Termination.
Context {W F : Type} `{!App W F}.
Local Abbreviation MK := (M (app W F cls_t)).

(** The body of [do .. while (res == -1 && retry > 0)]. *)
Definition bind_step (fd : Z) (addr : sin) (retry : Z) : MK (Z + Z) :=
  res ← callv (A_bind fd addr);
  let retry := retry - 1 in
  when (res =? -1) (call_ (A_sleep 1));;
  if (res =? -1) && (0 <? retry) then mret (inl retry) else mret (inr res).

Definition init_posix (fuel : nat) (port : Z) : MK Z :=
  ifnet ← callv (A_ifport_ifnet_get 0 NFP_IFPORT_NET_SUBPORT_ITF);
  if ifnet =? DefaultApp.NFP_IFNET_INVALID then mret (-1)
  else
    fd_rcv ← callv (A_socket NFP_AF_INET NFP_SOCK_DGRAM NFP_IPPROTO_UDP);
    if fd_rcv =? -1 then mret (-1)
    else
      ip ← call (A_ifnet_ipv4_addr_get ifnet NFP_IFNET_IP_TYPE_IP_ADDR);
      if negb (r_val ip =? 0) then call_ (A_close fd_rcv);; mret (-1)
      else
        let addr := Sin sizeof_sockaddr_in NFP_AF_INET (odp_cpu_to_be_16 port) (r_out ip) sizeof_sockaddr_in in
        res ← loop fuel (bind_step fd_rcv addr) 10;
        if res =? -1 then call_ (A_close fd_rcv);; mret (-1) else mret fd_rcv.

Definition cleanup_posix (sd : Z) : MK Z :=
  if sd =? -1 then mret 0 else callv (A_close sd).

(** [inr] also when receiving failed. *)
Definition posix_step (fd_rcv : Z) (_ : unit) : MK (unit + unit) :=
  running ← callv A_is_running;
  if running =? 0 then mret (inr ())
  else
    r ← call (A_recv fd_rcv 1500 NFP_MSG_DONTWAIT);
    if r_val r =? -1 then
      if r_errno r =? Errno.NFP_EWOULDBLOCK then mret (inl ()) else mret (inr ())
    else setg (count (r_val r));; mret (inl ()).

Definition termination_posix (fuel : nat) (fd_rcv : Z) : MK Z :=
  state ← callv A_get_processing_state;
  if state =? 0 then mret (-1)
  else loop fuel (posix_step fd_rcv) ();; mret 0.

Definition init_channel : MK Z := callv A_channel_create.

Definition cleanup_channel (chn : Z) : MK Z :=
  if chn =? NFP_CHANNEL_INVALID then mret 0 else callv (A_channel_destroy chn).

(** The packets of [vec] from index [start_idx] on are freed. *)
Definition free_from (vec : list Z) (start_idx : Z) : MK unit :=
  for_from start_idx (Z.to_nat (Z.of_nat (length vec) - start_idx)) (λ i,
    pkt ← of_option (vec !! Z.to_nat i); call_ (A_packet_free pkt)).

(** Every packet is cut to the payload of its datagram, as in udp_term_socket. *)
Definition cut_packets (vec : list Z) : MK unit :=
  for_from 0 (length vec) (λ i, pkt ← of_option (vec !! Z.to_nat i); UdpTerm.trim pkt).

Definition channel_packet_input (vec : list Z) (chn : Z) : MK unit :=
  if chn =? NFP_CHANNEL_INVALID then mret ()
  else
    let vec_num := Z.of_nat (length vec) in
    if vec_num =? 0 then mret ()
    else
      cut_packets vec;;
      pkt_sent ← callv (A_channel_send_multi chn vec);
      when (negb (pkt_sent =? vec_num))
        (free_from vec (if pkt_sent =? -1 then 0 else u16 pkt_sent)).

Definition count_packet (r : areply F) (i : Z) : MK unit :=
  p ← FpmDirect.entry_at r i;
  len ← callv (A_packet_len p);
  setg (count (u32 len));;
  call_ (A_packet_free p).

Definition channel_step (chn : Z) (_ : unit) : MK (unit + unit) :=
  running ← callv A_is_running;
  if running =? 0 then mret (inr ())
  else
    r ← call (A_channel_recv chn CHANNEL_RECV_MAX);
    when (0 <? r_val r) (for_from 0 (Z.to_nat (r_val r)) (count_packet r));;
    mret (inl ()).

(** [arg] is never NULL. *)
Definition termination_channel (fuel : nat) (chn : Z) : MK Z :=
  state ← callv A_get_processing_state;
  if state =? 0 then mret (-1)
  else loop fuel (channel_step chn) ();; mret 0.
End Termination.

(** ** The dispatchers (classifier_main.c) *)

Section Dispatchers.
Context {W F : Type} `{!App W F}.
Local Abbreviation MK := (M (app W F cls_t)).

(** Joining the group and [rx_burst]; [None] is [return -1]. *)
Definition join_group (sched_group : Z) : MK (option Z) :=
  j ← callv (A_sched_group_join sched_group);
  if j <? 0 then mret None
  else
    p ← call A_get_parameters;
    if negb (r_val p =? 0) then mret None
    else
      state ← callv A_get_processing_state;
      if state =? 0 then mret None else mret (Some (r_out p)).

(** One event for an ordinary worker. *)
Definition dispatch_event (in_queue ev : Z) : MK unit :=
  if ev =? FpmDirect.ODP_EVENT_INVALID then mret ()
  else
    ty ← callv (A_event_type ev);
    if ty =? FpmDirect.ODP_EVENT_PACKET then call_ (A_packet_input ev in_queue)
    else if ty =? FpmDirect.ODP_EVENT_TIMEOUT then call_ (A_timer_handle ev)
    else call_ (A_event_free ev).

Definition worker_step (rx_burst : Z) (_ : unit) : MK (unit + unit) :=
  running ← callv A_is_running;
  if running =? 0 then mret (inr ())
  else
    r ← call (A_schedule_wait WAIT_NS rx_burst);
    if r_val r =? 0 then mret (inl ())
    else
      for_from 0 (Z.to_nat (r_val r)) (λ i, ev ← FpmDirect.entry_at r i; dispatch_event (r_out r) ev);;
      call_ A_send_pending_pkt;;
      mret (inl ()).

Definition worker_dispatcher (fuel : nat) (sched_group : Z) : MK Z :=
  b ← join_group sched_group;
  match b with
  | None => mret (-1)
  | Some rx_burst => loop fuel (worker_step rx_burst) ();; mret 0
  end.

(** A vector is handed to the stack or put on the channel. *)
Definition deliver (chn in_queue : Z) (vec : list Z) : MK unit :=
  if chn =? NFP_CHANNEL_INVALID then call_ (A_packet_input_multi vec in_queue)
  else channel_packet_input vec chn.

(** One event for the worker of the classified packets; the result is the
    vector afterwards. *)
Definition classify_event (chn in_queue ev : Z) (vec : list Z) : MK (list Z) :=
  if ev =? FpmDirect.ODP_EVENT_INVALID then mret vec
  else
    ty ← callv (A_event_type ev);
    if ty =? FpmDirect.ODP_EVENT_PACKET then
      added ← callv (A_pkt_vector_add vec ev);
      if negb (added =? 1) then call_ (A_packet_free ev);; mret vec
      else
        let vec := vec ++ [ev] in
        if TcpPerf.NFP_PKT_VECTOR_IS_FULL vec then deliver chn in_queue vec;; mret []
        else mret vec
    else if ty =? FpmDirect.ODP_EVENT_TIMEOUT then call_ (A_timer_handle ev);; mret vec
    else call_ (A_event_free ev);; mret vec.

Definition classif_step (chn rx_burst : Z) (vec : list Z) : MK (list Z + unit) :=
  running ← callv A_is_running;
  if running =? 0 then mret (inr ())
  else
    r ← call (A_schedule_wait WAIT_NS rx_burst);
    if r_val r =? 0 then mret (inl vec)
    else
      vec ← for_acc 0 (Z.to_nat (r_val r)) (λ i vec,
              ev ← FpmDirect.entry_at r i; classify_event chn (r_out r) ev vec) vec;
      vec ← (if TcpPerf.NFP_PKT_VECTOR_HAS_DATA vec then deliver chn (r_out r) vec;; mret []
             else mret vec);
      call_ A_send_pending_pkt;;
      mret (inl vec).

Definition worker_classif_dispatcher (fuel : nat) (sched_group chn : Z) : MK Z :=
  b ← join_group sched_group;
  match b with
  | None => mret (-1)
  | Some rx_burst => loop fuel (classif_step chn rx_burst) [];; mret 0
  end.

(** The function of udp_term_socket, line by line. *)
Definition print_global_stats (fuel : nat) : MK unit := UdpTerm.print_global_stats fuel.
End Dispatchers.

(** ** The command line *)

Section Options.
Local Abbreviation MC := (M CliArgParse.state).

(** [cli_file] is not freed. *)
Definition parse_args_cleanup : MC unit :=
  CliArgParse.nfpexpl_parse_interfaces_param_cleanup true.

(** One option: [res] and the new arguments. *)
Definition parse_option (fuel : nat) (opt : Z * CliArgParse.ptr) (a : appl_args_t)
    : MC (Z * appl_args_t) :=
  let '(c, optarg) := opt in
  if c =? 99 (* c *) then
    n ← CliArgParse.atoi optarg; mret (0, ApplArgs n (cli_file a) (method a))
  else if c =? 105 (* i *) then ArgOptions.interfaces_option fuel optarg a
  else if c =? 104 (* h *) then parse_args_cleanup;; exit EXIT_SUCCESS
  else if c =? 102 (* f *) then
    ArgOptions.copy_option optarg a (λ p, ApplArgs (core_count a) p (method a))
  else if c =? 109 (* m *) then
    n ← UdpTerm.number_option 0 optarg;
    match n with
    | None => mret (-1, a)
    | Some n => mret (if METHOD_MAX <=? n then -1 else 0, ApplArgs (core_count a) (cli_file a) n)
    end
  else mret (0, a).

Definition parse_args (fuel : nat) (opts : DefaultApp.options) : MC (Z * appl_args_t) :=
  modify (CliArgParse.set_if_count 0);;
  modify (CliArgParse.set_if_array None);;
  r ← ArgOptions.parse_options (parse_option fuel) opts (ApplArgs 0 None METHOD_CHANNEL);
  let fail := parse_args_cleanup;; mret (EXIT_FAILURE, r.2) in
  if r.1 =? -1 then fail
  else
    n ← gets CliArgParse.if_count;
    if n =? 0 then fail
    else if NFP_FP_INTERFACE_MAX <? n then fail
    else mret (EXIT_SUCCESS, r.2).
End Options.

(** ** [main] *)

Section Main.
Context {W F : Type} `{!App W F}.
Local Abbreviation MK := (M (app W F cls_t)).

Definition create_interfaces : MK Z :=
  n ← FpmDirect.if_count;
  r ← for_ret 0 (Z.to_nat (Z.min n NFP_FP_INTERFACE_MAX)) (λ i _,
        name ← FpmDirect.interface_name i;
        c ← callv (A_ifport_net_create name 1 0);
        if c <? 0 then mret (inr ()) else mret (inl ())) ();
  match r with inl _ => mret 0 | inr _ => mret (-1) end.

Definition configure_interface_addresses : MK Z := DefaultApp.configure_interface_addresses.

(** The number of workers on [core_count] cores. *)
Definition workers_of (cores wanted : Z) : Z :=
  let num_workers := cores - 3 in
  if negb (wanted =? 0) && (wanted <? num_workers) then wanted else num_workers.

(** From the label [end] on. *)
Definition finish (retcode : Z) (c : classif_t) (group_workers group_cls : Z) : MK Z :=
  cleanup_classifier c;;
  when (negb (group_workers =? INVALID)) (call_ (A_sched_group_destroy group_workers));;
  when (negb (group_cls =? INVALID)) (call_ (A_sched_group_destroy group_cls));;
  call_ A_terminate;;
  on_heap parse_args_cleanup;;
  mret retcode.

(** From the label [join_workers] on. *)
Definition join_workers (retcode : Z) (c : classif_t) (group_workers group_cls sd chn num_workers : Z) : MK Z :=
  _ ← cleanup_posix sd;
  _ ← cleanup_channel chn;
  call_ A_stop_processing;;
  call_ (A_thread_join num_workers);;
  call_ (A_thread_join 1);;
  finish retcode c group_workers group_cls.

(** With the workers and the worker of the classified packets running. *)
Definition run_traffic (fuel : nat) (a : appl_args_t) (c : classif_t) (group_workers group_cls chn num_workers : Z) : MK Z :=
  let join retcode sd := join_workers retcode c group_workers group_cls sd chn num_workers in
  r ← configure_interface_addresses;
  if negb (r =? 0) then join EXIT_FAILURE (-1)
  else
    file ← arg_string (cli_file a);
    r ← callv (A_cli_process_file file);
    if negb (r =? 0) then join EXIT_FAILURE (-1)
    else
      sd ← (if method a =? METHOD_POSIX then init_posix fuel TEST_PORT else mret (-1));
      if (method a =? METHOD_POSIX) && (sd =? -1) then join EXIT_FAILURE sd
      else
        t ← callv (A_thread_create
              (if method a =? METHOD_POSIX then THREAD_termination_posix else THREAD_termination_channel) 1);
        if negb (t =? 1) then join EXIT_FAILURE sd
        else
          print_global_stats fuel;;
          call_ (A_thread_join 1);;
          join EXIT_SUCCESS sd.

(** [thread_tbl] has room for [MAX_WORKERS]. *)
Definition start_threads (fuel : nat) (a : appl_args_t) (c : classif_t) (group_workers group_cls chn num_workers : Z) : MK Z :=
  when (MAX_WORKERS <? num_workers) stuck;;
  ret_val ← callv (A_threads_create THREAD_worker_dispatcher num_workers);
  if negb (ret_val =? num_workers) then
    call_ A_stop_processing;;
    when (negb (ret_val =? -1)) (call_ (A_thread_join ret_val));;
    finish EXIT_FAILURE c group_workers group_cls
  else
    ret_val ← callv (A_thread_create THREAD_worker_classif_dispatcher 2);
    if negb (ret_val =? 1) then
      call_ A_stop_processing;;
      call_ (A_thread_join num_workers);;
      finish EXIT_FAILURE c group_workers group_cls
    else run_traffic fuel a c group_workers group_cls chn num_workers.

(** When the interfaces cannot be created the message names the one at index
    [num_workers], which may be outside [if_array]. *)
Definition interface_at (num_workers : Z) : MK unit :=
  n ← FpmDirect.if_count;
  if Z.max 0 num_workers <? n then mret () else stuck.

(** Without a channel: the array of threads that is joined was never written. *)
Definition no_channel (c : classif_t) (group_workers group_cls num_workers : Z) : MK Z :=
  call_ A_stop_processing;;
  when (0 <? num_workers) stuck;;
  call_ (A_thread_join num_workers);;
  finish EXIT_FAILURE c group_workers group_cls.

(** With both groups. *)
Definition classify (fuel : nat) (a : appl_args_t) (group_workers group_cls num_workers : Z) : MK Z :=
  i ← create_interfaces;
  if i <? 0 then
    interface_at num_workers;;
    finish EXIT_FAILURE init_classifier group_workers group_cls
  else
    b ← build_classifier group_cls group_workers init_classifier;
    if negb (b.1 =? 0) then finish EXIT_FAILURE b.2 group_workers group_cls
    else if method a =? METHOD_CHANNEL then
      chn ← init_channel;
      if chn =? NFP_CHANNEL_INVALID then no_channel b.2 group_workers group_cls num_workers
      else start_threads fuel a b.2 group_workers group_cls chn num_workers
    else start_threads fuel a b.2 group_workers group_cls NFP_CHANNEL_INVALID num_workers.

(** With the stack running. *)
Definition work (fuel : nat) (a : appl_args_t) : MK Z :=
  cores ← callv A_cpu_count;
  if cores <? 4 then finish EXIT_FAILURE init_classifier INVALID INVALID
  else
    group_workers ← callv (A_sched_group_create (text "sched_grp_workers"));
    if group_workers =? INVALID then finish EXIT_FAILURE init_classifier INVALID INVALID
    else
      group_cls ← callv (A_sched_group_create (text "sched_grp_cls"));
      if group_cls =? INVALID then finish EXIT_FAILURE init_classifier group_workers INVALID
      else classify fuel a group_workers group_cls (workers_of cores (core_count a)).

Definition main (fuel : nat) (opts : DefaultApp.options) : MK Z :=
  r ← FpmDirect.nfpexpl_sigaction_set;
  if negb (r =? 0) then mret EXIT_FAILURE
  else
    p ← on_heap (parse_args fuel opts);
    setg (set_params p.2);;
    if negb (p.1 =? EXIT_SUCCESS) then mret EXIT_FAILURE
    else
      r ← callv (A_initialize 0 []);
      if negb (r =? 0) then on_heap parse_args_cleanup;; mret EXIT_FAILURE
      else work fuel p.2.
End Main.

End Classifier.
