(* ===== verification/ClassifierProofs.v ===== *)
(** * Classified traffic: the workers

    What the workers get from the scheduler they hand on, and what they put on
    the channel is the payload of the datagrams. *)

From S2P Require Import Prelude Errno App AppProofs AppHeap HttpdTheorems CliArgParse TcpPerf TcpPerfProofs FpmDirect FpmDirectProofs FpmDirectStart UdpTerm UdpTermProofs Classifier.
Import App AppProofs HttpdTheorems UdpTermProofs Classifier.
Import FpmDirectProofs(entries, valid, length_entries, valid_drop).

Module ClassifierProofs.

(** ** Readings of the record *)

(** What becomes of an event: it goes to the stack or to a channel, to the
    timers, is freed as a packet or as an event, or is lost. *)
Inductive fate := F_stack | F_channel | F_timer | F_free | F_event_free | F_lost.

(** The kinds of events, by the type ODP gives. *)
Inductive event_kind := K_packet | K_timeout | K_other.
Definition kind_of (ty : Z) : event_kind :=
  if ty =? FpmDirect.ODP_EVENT_PACKET then K_packet
  else if ty =? FpmDirect.ODP_EVENT_TIMEOUT then K_timeout else K_other.

(** The kind of event a fate is for. *)
Definition meant_for (f : fate) : event_kind :=
  match f with
  | F_stack | F_channel | F_free | F_lost => K_packet
  | F_timer => K_timeout
  | F_event_free => K_other
  end.

(** The packets of [vec] that are freed when the channel answers [v]: those it
    did not take when it answers with their number, all when it answers -1.
    Another negative answer is taken for an index of 16 bits: the packets
    before it are neither taken nor freed. *)
Definition untaken (v : Z) (vec : list Z) : list Z :=
  if 0 <=? v then drop (Z.to_nat v) vec
  else if v =? -1 then vec
  else drop (Z.to_nat (v mod 2 ^ 16)) vec.
Definition with_fate (f : fate) (l : list Z) : list (Z * fate) := (λ x, (x, f)) <$> l.
Definition channel_fates (v : Z) (vec : list Z) : list (Z * fate) :=
  if 0 <=? v then with_fate F_channel (take (Z.to_nat v) vec)
  else if v =? -1 then []
  else with_fate F_lost (take (Z.to_nat (v mod 2 ^ 16)) vec).

Section Readings.
Context {F : Type}.
Implicit Types (e : event F) (t : list (event F)).

(** The events obtained; those asked for their type, with the kind; and those
    dealt with, with what became of them. *)
Definition arrived_by e : list Z :=
  match e.1 with A_schedule_wait _ _ => valid (entries e.2) | _ => [] end.
Definition asked_by e : list (Z * event_kind) :=
  match e.1 with A_event_type ev => [(ev, kind_of (r_val e.2))] | _ => [] end.
Definition fates_by e : list (Z * fate) :=
  match e.1 with
  | A_packet_input pkt _ => [(pkt, F_stack)]
  | A_packet_input_multi pkts _ => with_fate F_stack pkts
  | A_channel_send_multi _ pkts => channel_fates (r_val e.2) pkts
  | A_timer_handle ev => [(ev, F_timer)]
  | A_packet_free pkt => [(pkt, F_free)]
  | A_event_free ev => [(ev, F_event_free)]
  | _ => []
  end.

(** The packets that have to be freed: refused by the vector, or not taken by
    the channel. *)
Definition due_by e : list Z :=
  match e.1 with
  | A_pkt_vector_add _ pkt => if r_val e.2 =? 1 then [] else [pkt]
  | A_channel_send_multi _ pkts => untaken (r_val e.2) pkts
  | _ => []
  end.
Definition arrived t : list Z := t ≫= arrived_by.
Definition asked t : list (Z * event_kind) := t ≫= asked_by.
Definition fates t : list (Z * fate) := t ≫= fates_by.
Definition due t : list Z := t ≫= due_by.

(** The events dealt with, each with the kind its fate is for. *)
Definition treated t : list (Z * event_kind) := prod_map id meant_for <$> fates t.

(** What the workers of channel [chn] do with vectors. *)
Definition vector_rule (chn : Z) e : Prop :=
  match e.1 with
  | A_packet_input_multi pkts _ =>
      chn = NFP_CHANNEL_INVALID ∧ 0 < Z.of_nat (length pkts) ≤ TcpPerf.NFP_PKT_VECTOR_SIZE
  | A_channel_send_multi c pkts =>
      c = chn ∧ c ≠ NFP_CHANNEL_INVALID ∧ 0 < Z.of_nat (length pkts) ≤ TcpPerf.NFP_PKT_VECTOR_SIZE
  | _ => True
  end.

(** All the readings at once, of one call after others. *)
Lemma readings_cons e t :
  arrived (e :: t) = arrived_by e ++ arrived t ∧ asked (e :: t) = asked_by e ++ asked t ∧
  treated (e :: t) = (prod_map id meant_for <$> fates_by e) ++ treated t ∧
  freed (e :: t) = freed_by e ++ freed t ∧ due (e :: t) = due_by e ++ due t.
Proof. split_and!; try done. unfold treated, fates. simpl. by rewrite fmap_app. Qed.

Lemma readings_app t t' :
  arrived (t ++ t') = arrived t ++ arrived t' ∧ asked (t ++ t') = asked t ++ asked t' ∧
  treated (t ++ t') = treated t ++ treated t' ∧
  freed (t ++ t') = freed t ++ freed t' ∧ due (t ++ t') = due t ++ due t'.
Proof.
  split_and!; [apply bind_app..| |apply bind_app|apply bind_app].
  unfold treated, fates. by rewrite bind_app, fmap_app.
Qed.

(** The packets [vec] are freed, in order. *)
Definition frees (vec : list Z) t : Prop := t.*1 = (λ p, A_packet_free p) <$> vec.

Definition packets (l : list Z) : list (Z * event_kind) := (λ x, (x, K_packet)) <$> l.

Lemma frees_read chn vec t :
  frees vec t → arrived t = [] ∧ asked t = [] ∧ treated t = packets vec ∧ freed t = vec ∧ due t = [] ∧
    Forall (vector_rule chn) t.
Proof.
  revert vec. induction t as [|[c r] t IH]; intros [|p vec] Ht; try discriminate; [done|].
  injection Ht as -> Ht. apply IH in Ht as (Ha & Hk & Hh & Hf & Hd & Hr).
  destruct (readings_cons (A_packet_free p, r) t) as (-> & -> & -> & -> & ->).
  rewrite Ha, Hk, Hh, Hf, Hd. split_and!; [done..|by constructor].
Qed.

Lemma cutting_read chn t :
  Forall (λ e : event F, ∃ x, cutting x e.1) t →
  arrived t = [] ∧ asked t = [] ∧ treated t = [] ∧ freed t = [] ∧ due t = [] ∧ Forall (vector_rule chn) t.
Proof.
  induction 1 as [|[c r] t [p Hc] _ (Ha & Hk & Hh & Hf & Hd & Hr)]; [done|].
  destruct (readings_cons (c, r) t) as (-> & -> & -> & -> & ->). rewrite Ha, Hk, Hh, Hf, Hd.
  destruct c; cbn in Hc; try done; (split_and!; [done..|by constructor]).
Qed.
End Readings.

(** Whatever the channel answers, each packet has one fate. *)
Lemma channel_parts v vec :
  (prod_map id meant_for <$> channel_fates v vec) ++ packets (untaken v vec) = packets vec.
Proof.
  assert (Hp : ∀ f l k, meant_for f = K_packet →
    (prod_map id meant_for <$> with_fate f l) ++ packets k = packets (l ++ k)).
  { intros f l k Hf. unfold with_fate, packets. rewrite <- list_fmap_compose, fmap_app. f_equal.
    apply list_fmap_ext. intros i x _. unfold prod_map. simpl. by rewrite Hf. }
  unfold channel_fates, untaken. destruct (0 <=? v); [|destruct (v =? -1); [done|]];
    by rewrite Hp, take_drop by done.
Qed.

Lemma untaken_failure v vec :
  - 2 ^ 15 ≤ v < -1 → Z.of_nat (length vec) ≤ 2 ^ 15 → untaken v vec = [].
Proof.
  intros Hv Hl. unfold untaken. destruct (Z.leb_spec 0 v); [lia|]. destruct (Z.eqb_spec v (-1)); [lia|].
  apply drop_ge. rewrite <- (Z.mod_unique v (2 ^ 16) (-1) (v + 2 ^ 16)) by lia. lia.
Qed.

(** A scheduler gives as many events as it says. *)
Class ScheduleLaws (W F : Type) `{!App W F} :=
  schedule_table ns n w r w' :
    api (A_schedule_wait ns n : acall F) w = (r, w') → r_val r ≤ Z.of_nat (length (r_list r)).

(** A channel answers with the number of packets it took, the first ones, or
    with any negative number when it fails. *)
Class SendLaws (W F : Type) `{!App W F} :=
  send_count chn vec w r w' :
    api (A_channel_send_multi chn vec : acall F) w = (r, w') →
    r_val r < 0 ∨ 0 ≤ r_val r ≤ Z.of_nat (length vec).

(** The last call asked for the UDP header of a packet that has none. *)
Definition no_header {W F G} (s : app W F G) : Prop :=
  ∃ tr pkt r, trace s = tr ++ [(A_packet_l4 pkt, r)] ∧ (length (r_data r) < 6)%nat.

(** ** On the channel *)

Section Channel.
Context {W F : Type} `{!App W F, !SocketLaws W F, !SendLaws W F}.
Local Abbreviation st := (app W F cls_t).
Implicit Types (s : st).

(** Since [s] the calls [t] were made, and nothing else happened. *)
Definition made s (t : list (event F)) s' : Prop :=
  trace s' = trace s ++ t ∧ glob s' = glob s ∧ (budget (world s') ≤ budget (world s))%nat.

Lemma made_refl s : made s [] s.
Proof. split_and!; [by rewrite app_nil_r|done..]. Qed.

Lemma made_after s t s' c r w :
  made s t s' → api c (world s') = (r, w) → made s (t ++ [(c, r)]) (after s' c r w).
Proof.
  intros (Ht & Hg & Hb) E. pose proof (budget_le _ _ _ _ E) as Hle.
  split_and!; [simpl; by rewrite Ht, app_assoc|done|simpl in *; lia].
Qed.

Lemma made_trans s1 t s2 t' s3 : made s1 t s2 → made s2 t' s3 → made s1 (t ++ t') s3.
Proof.
  intros (Ht & Hg & Hb) (Ht' & Hg' & Hb'). split_and!; [by rewrite Ht', Ht, app_assoc|congruence|lia].
Qed.

Lemma free_from_ok vec i s :
  0 ≤ i → wp (free_from vec i) (λ _ s', ∃ t, made s t s' ∧ frees (drop (Z.to_nat i) vec) t) s.
Proof.
  intros Hi0. unfold free_from. set (n := Z.to_nat (Z.of_nat (length vec) - i)).
  eapply wp_mono; [|eapply (wp_for_from _ (λ j s', ∃ t, made s t s' ∧ frees (take (Z.to_nat (j - i)) (drop (Z.to_nat i) vec)) t))].
  - intros [] s' (t & Hm & Hf). exists t. split; [done|]. rewrite take_ge in Hf; [done|]. rewrite length_drop. lia.
  - exists []. split; [apply made_refl|]. by rewrite Z.sub_diag.
  - intros j s1 Hj (t & Hm & Hf). destruct (lookup_lt_is_Some_2 vec (Z.to_nat j)) as [p Hp]; [lia|].
    apply wp_bind. eapply wp_of_option; [exact Hp|]. apply wp_call_. intros r w E. eexists. split; [by eapply made_after|].
    unfold frees in *. rewrite fmap_app, Hf. replace (Z.to_nat (j + 1 - i)) with (S (Z.to_nat (j - i))) by lia.
    rewrite (take_S_r _ _ p); [by rewrite fmap_app|]. rewrite lookup_drop, <- Hp. f_equal. lia.
Qed.

(** The vector is offered to the channel, and then [untaken] packets are freed. *)
Lemma offer_ok vec chn s :
  Z.of_nat (length vec) < 2 ^ 16 →
  wp (pkt_sent ← callv (A_channel_send_multi chn vec);
      when (negb (pkt_sent =? Z.of_nat (length vec)))
        (free_from vec (if pkt_sent =? -1 then 0 else u16 pkt_sent)))
    (λ _ s', ∃ r w rest, api (A_channel_send_multi chn vec) (world s) = (r, w) ∧
       made s ((A_channel_send_multi chn vec, r) :: rest) s' ∧ frees (untaken (r_val r) vec) rest) s.
Proof using SendLaws0 SocketLaws0.
  intros Hlen. apply wp_bind, wp_callv. intros r w E. pose proof (send_count _ _ _ _ _ E) as Hr.
  pose proof (made_after _ _ _ _ _ _ (made_refl s) E) as Hm. unfold untaken.
  destruct (Z.eqb_spec (r_val r) (Z.of_nat (length vec))) as [Heq|Hne]; cbn [negb when].
  - apply wp_ret. exists r, w, []. split_and!; [done|done|]. destruct (Z.leb_spec 0 (r_val r)); [|lia].
    unfold frees. by rewrite Heq, Nat2Z.id, drop_all.
  - eapply wp_mono; [|apply free_from_ok].
    + intros [] s' (t & Hm' & Hf). exists r, w, t. split_and!; [done|exact (made_trans _ _ _ _ _ Hm Hm')|].
      destruct (Z.leb_spec 0 (r_val r)), (Z.eqb_spec (r_val r) (-1)); try done; try lia.
      rewrite (wrap_small 16) in Hf by (unfold in_uint; lia). done.
    + case_match; [done|]. apply wrap_range. lia.
Qed.
End Channel.

(** ** The workers *)

Section Flow.
Context {W F : Type} `{!App W F, !SocketLaws W F, !SendLaws W F, !ScheduleLaws W F}.
Local Abbreviation st := (app W F cls_t).
Implicit Types (s : st) (p v q : list Z).
Context (R : relation (list (Z * event_kind))) `{!PreOrder R, !Proper (R ==> R ==> R) (@Datatypes.app (Z * event_kind))}.
Context (chn : Z) (s0 : st).

(** Since [s0], in state [s]: of the events that came in [p] were not asked for
    their type, [v] are in the vector and [q] have to be freed; all others have
    been dealt with according to their kind.  At least as many turns are left
    as in a state with budget [N]. *)
Definition flow (N : nat) s p v q : Prop :=
  (budget (world s) ≤ N)%nat ∧ ∃ t, made s0 t s ∧
    arrived t = (asked t).*1 ++ p ∧ R (asked t) (treated t ++ packets (q ++ v)) ∧
    due t = freed t ++ q ∧ Forall (vector_rule chn) t.

Lemma cls_flow_none : flow (budget (world s0)) s0 [] [] [].
Proof. split; [done|]. exists []. split_and!; [apply made_refl|done..]. Qed.

Lemma cls_flow_extend N s p v q t s' p' v' q' :
  flow N s p v q → made s t s' →
  p ++ arrived t = (asked t).*1 ++ p' → R (packets (q ++ v) ++ asked t) (treated t ++ packets (q' ++ v')) →
  q ++ due t = freed t ++ q' → Forall (vector_rule chn) t → flow N s' p' v' q'.
Proof.
  intros (HN & t0 & Hm0 & Ha0 & HR0 & Hd0 & Hr0) Hm Ha HR Hd Hr. split; [destruct Hm as (_ & _ & ?); lia|].
  exists (t0 ++ t). destruct (readings_app t0 t) as (-> & -> & -> & -> & ->).
  split_and!; [by eapply made_trans| | | |by apply Forall_app].
  - by rewrite Ha0, <- app_assoc, Ha, fmap_app, app_assoc.
  - rewrite HR0, <- !app_assoc. by rewrite HR.
  - by rewrite Hd0, <- app_assoc, Hd, app_assoc.
Qed.

Lemma cls_flow_after N s p v q c r w p' v' q' :
  flow N s p v q → api c (world s) = (r, w) →
  p ++ arrived_by (c, r) = (asked_by (c, r)).*1 ++ p' →
  R (packets (q ++ v) ++ asked_by (c, r)) ((prod_map id meant_for <$> fates_by (c, r)) ++ packets (q' ++ v')) →
  q ++ due_by (c, r) = freed_by (c, r) ++ q' →
  vector_rule chn (c, r) → flow N (after s c r w) p' v' q'.
Proof.
  intros Hf E Ha HR Hd Hr. eapply (cls_flow_extend _ _ _ _ _ [(c, r)]); [exact Hf|exact (made_after _ _ _ _ _ _ (made_refl s) E)|..].
  all: unfold arrived, asked, treated, freed, due, fates; cbn [mbind list_bind]; rewrite ?app_nil_r; try done.
  by constructor.
Qed.

(** A call that neither brings nor takes anything. *)
Definition indifferent (c : acall F) : bool :=
  match c with
  | A_send_pending_pkt | A_is_running | A_get_processing_state | A_sched_group_join _ | A_get_parameters => true
  | _ => false
  end.

Lemma cls_flow_idle N s p v q c r w :
  flow N s p v q → api c (world s) = (r, w) → indifferent c = true → flow N (after s c r w) p v q.
Proof.
  intros Hf E Hc. eapply cls_flow_after; [exact Hf|exact E|..]; destruct c; try done; cbn; by rewrite ?app_nil_r.
Qed.

Lemma flow_budget N s p v q : flow N s p v q → (budget (world s) ≤ N)%nat.
Proof. by intros [? _]. Qed.

Lemma flow_rebase N s p v q : flow N s p v q → flow (budget (world s)) s p v q.
Proof. by intros [_ H]. Qed.

(** The call deals with an event of kind [k]. *)
Definition deals (c : acall F) (x : Z) (k : event_kind) : Prop :=
  match c with
  | A_packet_input y _ => y = x ∧ k = K_packet
  | A_timer_handle y => y = x ∧ k = K_timeout
  | A_event_free y => y = x ∧ k = K_other
  | _ => False
  end.

(** An event is asked for its type, then dealt with. *)
Lemma ask_ok N s ev p v r w :
  flow N s (ev :: p) v [] → api (A_event_type ev) (world s) = (r, w) →
  ∀ c r' w', deals c ev (kind_of (r_val r)) → api c w = (r', w') →
  R (packets v ++ [(ev, kind_of (r_val r))]) ((ev, kind_of (r_val r)) :: packets v) →
  flow N (after (after s (A_event_type ev) r w) c r' w') p v [].
Proof.
  intros Hf E c r' w' Hc E' HR.
  pose proof (made_after _ _ _ _ _ _ (made_after _ _ _ _ _ _ (made_refl s) E) E') as Hm.
  eapply cls_flow_extend; [exact Hf|exact Hm|..];
    destruct c; try done; destruct Hc as [-> Hk]; cbn; rewrite ?app_nil_r; try done; try (by repeat constructor).
  all: cbn in HR; by rewrite Hk in HR |- *.
Qed.

Definition ahead (ev : Z) : list Z := if ev =? FpmDirect.ODP_EVENT_INVALID then [] else [ev].

Lemma cls_dispatch_ok N s in_queue ev p :
  flow N s (ahead ev ++ p) [] [] → wp (dispatch_event in_queue ev) (λ _ s', flow N s' p [] []) s.
Proof.
  unfold dispatch_event, ahead. intros Hf. destruct (ev =? _); [by apply wp_ret|].
  apply wp_bind, wp_callv. intros r w E. pose proof (ask_ok _ _ _ _ _ _ _ Hf E) as Hask. unfold kind_of in Hask.
  destruct (_ =? FpmDirect.ODP_EVENT_PACKET); [|destruct (_ =? FpmDirect.ODP_EVENT_TIMEOUT)];
    apply wp_call_; intros r' w' E'; by apply Hask.
Qed.

(** *** Vectors *)

Lemma trims_ok vec s :
  may (cut_packets vec) (λ _ s', ∃ t, made s t s' ∧ Forall (λ e : event F, ∃ x, cutting x e.1) t) no_header s.
Proof using SocketLaws0.
  eapply may_mono; [|apply (may_for_from _ (λ _ s', ∃ t, made s t s' ∧ Forall (λ e : event F, ∃ x, cutting x e.1) t))];
    [done|by exists []; split; [apply made_refl|]|].
  intros i s1 Hi (t & Hm & Ht). destruct (lookup_lt_is_Some_2 vec (Z.to_nat i)) as [p Hp]; [lia|].
  apply may_bind, may_wp. eapply wp_of_option; [exact Hp|]. apply may_bind, may_wp, wp_call. intros r1 w1 E1.
  assert (Hno : (length (r_data r1) < 6)%nat → no_header (after s1 (A_packet_l4 p) r1 w1)) by (by exists (trace s1), p, r1).
  apply may_bind, may_bind. destruct (r_data r1 !! 4%nat) as [hi|] eqn:Hhi.
  2: { apply may_stuck, Hno. apply lookup_ge_None in Hhi. lia. }
  apply may_wp, wp_ret, may_bind. destruct (r_data r1 !! 5%nat) as [lo|] eqn:Hlo.
  2: { apply may_stuck, Hno. apply lookup_ge_None in Hlo. lia. }
  apply may_wp, wp_ret, may_wp, wp_ret, may_wp.
  apply wp_bind, wp_call_. intros r2 w2 E2. apply wp_bind, wp_callv. intros r3 w3 E3. apply wp_call_. intros r4 w4 E4.
  eexists. split; [do 4 (eapply made_after; [|eassumption]); exact Hm|]. rewrite !Forall_app, !Forall_singleton.
  split_and!; [done|by exists p..].
Qed.

Definition small (vec : list Z) : Prop := Z.of_nat (length vec) < TcpPerf.NFP_PKT_VECTOR_SIZE.

Lemma channel_input_ok N s vec p :
  chn ≠ NFP_CHANNEL_INVALID → 0 < Z.of_nat (length vec) ≤ TcpPerf.NFP_PKT_VECTOR_SIZE → flow N s p vec [] →
  may (channel_packet_input vec chn) (λ _ s', flow N s' p [] []) no_header s.
Proof using PreOrder0 Proper0 SendLaws0 SocketLaws0.
  intros Hc Hv Hf. unfold channel_packet_input. rewrite (proj2 (Z.eqb_neq _ _) Hc).
  destruct (Z.eqb_spec (Z.of_nat (length vec)) 0); [lia|]. apply may_bind.
  eapply may_mono; [|apply trims_ok]. intros [] s1 (t & Hm & Ht).
  apply (cutting_read chn) in Ht as (Ha & Hk & Hh & Hfr & Hd & Hr). apply may_wp.
  eapply wp_mono; [|apply offer_ok; unfold TcpPerf.NFP_PKT_VECTOR_SIZE in Hv; lia].
  intros [] s2 (r & w & rest & _ & Hm2 & Hrest).
  apply (frees_read chn) in Hrest as (Ha2 & Hk2 & Hh2 & Hfr2 & Hd2 & Hr2).
  set (send := (A_channel_send_multi chn vec, r)) in *.
  destruct (readings_app t (send :: rest)) as (Ea & Ek & Eh & Ef & Ed).
  destruct (readings_cons send rest) as (Ea1 & Ek1 & Eh1 & Ef1 & Ed1).
  rewrite Ea1, Ha, Ha2 in Ea. rewrite Ek1, Hk, Hk2 in Ek. rewrite Eh1, Hh, Hh2 in Eh.
  rewrite Ef1, Hfr, Hfr2 in Ef. rewrite Ed1, Hd, Hd2 in Ed.
  eapply (cls_flow_extend _ _ _ _ _ (t ++ send :: rest)); [exact Hf|by eapply made_trans|..];
    rewrite ?Ea, ?Ek, ?Eh, ?Ef, ?Ed; cbn; rewrite ?app_nil_r; [done| |done|].
  - by rewrite channel_parts.
  - apply Forall_app. split; [done|]. by constructor.
Qed.

Lemma deliver_ok N s in_queue vec p :
  0 < Z.of_nat (length vec) ≤ TcpPerf.NFP_PKT_VECTOR_SIZE → flow N s p vec [] →
  may (deliver chn in_queue vec) (λ _ s', flow N s' p [] []) no_header s.
Proof using PreOrder0 Proper0 SendLaws0 SocketLaws0.
  intros Hv Hf. unfold deliver. destruct (Z.eqb_spec chn NFP_CHANNEL_INVALID); [|by apply channel_input_ok].
  apply may_wp, wp_call_. intros r w E. eapply cls_flow_after; [exact Hf|exact E|cbn; by rewrite ?app_nil_r| |done|done].
  cbn. unfold with_fate, packets. rewrite <- list_fmap_compose, !app_nil_r. done.
Qed.

Context (Hbag : ∀ (l k : list (Z * event_kind)) x, R (l ++ x :: k) (x :: l ++ k)).

Lemma cls_classify_ok N s in_queue ev vec p :
  small vec → flow N s (ahead ev ++ p) vec [] →
  may (classify_event chn in_queue ev vec) (λ vec' s', small vec' ∧ flow N s' p vec' []) no_header s.
Proof using Hbag PreOrder0 Proper0 SendLaws0 SocketLaws0.
  unfold classify_event, ahead. intros Hv Hf. destruct (ev =? _); [by apply may_wp, wp_ret|].
  apply may_bind, may_wp, wp_callv. intros r w E. pose proof (ask_ok _ _ _ _ _ _ _ Hf E) as Hask. unfold kind_of in Hask.
  destruct (_ =? FpmDirect.ODP_EVENT_PACKET) eqn:Ek.
  2: { destruct (_ =? FpmDirect.ODP_EVENT_TIMEOUT); apply may_wp, wp_bind, wp_call_; intros r' w' E'; apply wp_ret;
       (split; [done|]); apply Hask; try done; rewrite Hbag; by rewrite app_nil_r. }
  clear Hask. apply may_bind, may_wp, wp_callv. intros r2 w2 E2.
  pose proof (made_after _ _ _ _ _ _ (made_after _ _ _ _ _ _ (made_refl s) E) E2) as Hm.
  destruct (Z.eqb_spec (r_val r2) 1) as [Hadd|Hadd]; cbn [negb].
  2: { apply may_wp, wp_bind, wp_call_. intros r3 w3 E3. apply wp_ret. split; [done|].
       eapply cls_flow_extend; [exact Hf|exact (made_after _ _ _ _ _ _ Hm E3)|..]; cbn; unfold kind_of;
         rewrite ?Ek, ?(proj2 (Z.eqb_neq _ _) Hadd), ?app_nil_r; [done| |done|by repeat constructor].
       rewrite Hbag. by rewrite app_nil_r. }
  assert (Hf2 : flow N (after (after s (A_event_type ev) r w) (A_pkt_vector_add vec ev) r2 w2) p (vec ++ [ev]) []).
  { eapply cls_flow_extend; [exact Hf|exact Hm|..]; cbn; unfold kind_of;
      rewrite ?Ek, ?(proj2 (Z.eqb_eq _ _) Hadd), ?app_nil_r; [done| |done|by repeat constructor].
    unfold packets. by rewrite fmap_app. }
  unfold TcpPerf.NFP_PKT_VECTOR_IS_FULL, small in *. rewrite length_app. simpl length.
  unfold TcpPerf.NFP_PKT_VECTOR_SIZE in *.
  destruct (Z.eqb_spec (Z.of_nat (length vec + 1)) 32) as [Hl|Hl].
  - apply may_bind. eapply may_mono; [|eapply deliver_ok; [|exact Hf2]].
    + intros [] s' Hs'. by apply may_wp, wp_ret.
    + unfold TcpPerf.NFP_PKT_VECTOR_SIZE. rewrite length_app. simpl. lia.
  - apply may_wp, wp_ret. rewrite length_app. simpl. split; [lia|done].
Qed.

(** *** Turns *)

Lemma cls_pending_ok N s p v q :
  flow N s p v q → wp (call_ A_send_pending_pkt) (λ _ s', flow N s' p v q) s.
Proof. intros Hf. apply wp_call_. intros r w E. by eapply cls_flow_idle. Qed.

(** Between turns everything that came in has been dealt with. *)
Definition settled s : Prop := flow (budget (world s)) s [] [] [].

(** The test of a loop, then the scheduler, then the events. *)
Lemma turn_ok {A B} U rx_burst s (a : A) (f : areply F → M st (A + B)) (b : B) (I : A → Prop) :
  settled s → I a →
  (∀ N r s1, r_val r ≤ Z.of_nat (length (r_list r)) → flow N s1 (valid (entries r)) [] [] →
     may (f r) (λ o s2, ∃ a', o = inl a' ∧ I a' ∧ flow N s2 [] [] []) U s1) →
  may (running ← callv A_is_running;
       if running =? 0 then mret (inr b)
       else r ← call (A_schedule_wait WAIT_NS rx_burst);
            if r_val r =? 0 then mret (inl a) else f r)
    (λ o s', match o with
             | inl a' => (I a' ∧ settled s') ∧ (budget (world s') < budget (world s))%nat
             | inr _ => settled s'
             end) U s.
Proof using PreOrder0 Proper0 ScheduleLaws0 SocketLaws0.
  intros Hf Ha Hbody. apply may_bind, may_wp, wp_callv. intros r1 w1 E1.
  pose proof (flow_rebase _ _ _ _ _ (cls_flow_idle _ _ _ _ _ _ _ _ Hf E1 eq_refl)) as Hf1.
  destruct (Z.eqb_spec (r_val r1) 0) as [Hz|Hz]; [by apply may_wp, wp_ret|].
  pose proof (budget_lt _ _ _ _ E1) as Hlt. unfold again in Hlt. cbn [fst snd] in Hlt.
  rewrite (proj2 (Z.eqb_neq _ _) Hz) in Hlt. specialize (Hlt eq_refl).
  apply may_bind, may_wp, wp_call. intros r w E. pose proof (schedule_table _ _ _ _ _ E) as Htab.
  match type of Hf1 with flow ?n _ _ _ _ => set (N := n) in * end.
  match goal with |- may _ _ _ ?x => set (s2 := x) end.
  assert (Hf2 : flow N s2 (valid (entries r)) [] []) by (eapply cls_flow_after; [exact Hf1|exact E|done..]).
  destruct (Z.eqb_spec (r_val r) 0) as [Hr|Hr].
  - apply may_wp, wp_ret. unfold entries in Hf2. rewrite Hr in Hf2. pose proof (flow_budget _ _ _ _ _ Hf2).
    split; [split; [done|by eapply flow_rebase]|simpl in *; lia].
  - eapply may_mono; [|by eapply Hbody]. intros o s3 (a' & -> & Ha' & Hf3). pose proof (flow_budget _ _ _ _ _ Hf3).
    split; [split; [done|by eapply flow_rebase]|simpl in *; lia].
Qed.

Lemma worker_step_ok U rx_burst s :
  settled s →
  may (worker_step rx_burst ()) (λ o s', match o with
    | inl _ => (True ∧ settled s') ∧ (budget (world s') < budget (world s))%nat
    | inr _ => settled s'
    end) U s.
Proof using PreOrder0 Proper0 ScheduleLaws0 SocketLaws0.
  intros Hf. apply (turn_ok _ _ _ _ _ _ (λ _, True)); [done..|]. intros N r s1 Htab H1. apply may_bind, may_wp.
  eapply wp_mono; [|apply (wp_for_from _ (λ i s', flow N s' (valid (drop (Z.to_nat i) (entries r))) [] []))].
  - intros [] s2 H2. rewrite Z.add_0_l, Nat2Z.id, drop_ge in H2 by (by rewrite length_entries).
    apply may_wp, wp_bind. eapply wp_mono; [|by apply cls_pending_ok]. intros [] s3 H3. apply wp_ret. by exists ().
  - by rewrite drop_0.
  - intros i s2 Hi H2. destruct (lookup_lt_is_Some_2 (entries r) (Z.to_nat i)) as [x Hx].
    { rewrite length_entries by done. lia. }
    apply wp_bind. eapply FpmDirectProofs.wp_entry; [exact Hx|]. apply cls_dispatch_ok.
    rewrite (valid_drop _ _ _ Hx) in H2. by replace (Z.to_nat (i + 1)) with (S (Z.to_nat i)) by lia.
Qed.

Lemma classif_step_ok rx_burst s :
  settled s →
  may (classif_step chn rx_burst []) (λ o s', match o with
    | inl vec => (vec = [] ∧ settled s') ∧ (budget (world s') < budget (world s))%nat
    | inr _ => settled s'
    end) no_header s.
Proof using Hbag PreOrder0 Proper0 ScheduleLaws0 SendLaws0 SocketLaws0.
  intros Hf. apply (turn_ok _ _ _ _ _ _ (λ vec, vec = [])); [done..|]. intros N r s1 Htab H1. apply may_bind.
  eapply may_mono; [|apply (may_for_acc _ (λ i vec s', small vec ∧ flow N s' (valid (drop (Z.to_nat i) (entries r))) vec []))].
  - intros vec s2 [Hv H2]. rewrite Z.add_0_l, Nat2Z.id, drop_ge in H2 by (by rewrite length_entries).
    assert (Hend : ∀ s3, flow N s3 [] [] [] →
      may (call_ A_send_pending_pkt;; mret (inl []) : M st (list Z + unit))
        (λ o s4, ∃ vec', o = inl vec' ∧ vec' = [] ∧ flow N s4 [] [] []) no_header s3).
    { intros s3 H3. apply may_wp, wp_bind. eapply wp_mono; [|by apply cls_pending_ok]. intros [] s4 H4. apply wp_ret. by exists []. }
    unfold TcpPerf.NFP_PKT_VECTOR_HAS_DATA, small in *. apply may_bind. destruct vec as [|x vec].
    + apply may_wp, wp_ret. by apply Hend.
    + cbn -[TcpPerf.NFP_PKT_VECTOR_SIZE]. apply may_bind. eapply may_mono; [|eapply deliver_ok; [|exact H2]; simpl in *; lia].
      intros [] s3 H3. apply may_wp, wp_ret. by apply Hend.
  - by rewrite drop_0.
  - intros i vec s2 Hi [Hv H2]. destruct (lookup_lt_is_Some_2 (entries r) (Z.to_nat i)) as [x Hx].
    { rewrite length_entries by done. lia. }
    apply may_bind, may_wp. eapply FpmDirectProofs.wp_entry; [exact Hx|]. apply cls_classify_ok; [done|].
    rewrite (valid_drop _ _ _ Hx) in H2. by replace (Z.to_nat (i + 1)) with (S (Z.to_nat i)) by lia.
Qed.

Lemma join_group_ok g s : settled s → wp (join_group g) (λ _ s', settled s' ∧ (budget (world s') ≤ budget (world s))%nat) s.
Proof using PreOrder0 Proper0 SocketLaws0.
  intros Hf. set (N := budget (world s)). enough (wp (join_group g) (λ _ s', flow N s' [] [] []) s) as H.
  { eapply wp_mono; [|exact H]. intros o s' H'. split; [exact (flow_rebase _ _ _ _ _ H')|exact (flow_budget _ _ _ _ _ H')]. }
  apply wp_bind, wp_callv. intros r1 w1 E1. pose proof (cls_flow_idle _ _ _ _ _ _ _ _ Hf E1 eq_refl) as Hf1.
  destruct (_ <? 0); [by apply wp_ret|].
  apply wp_bind, wp_call. intros r2 w2 E2. pose proof (cls_flow_idle _ _ _ _ _ _ _ _ Hf1 E2 eq_refl) as Hf2.
  destruct (negb _); [by apply wp_ret|].
  apply wp_bind, wp_callv. intros r3 w3 E3. pose proof (cls_flow_idle _ _ _ _ _ _ _ _ Hf2 E3 eq_refl) as Hf3.
  destruct (_ =? 0); by apply wp_ret.
Qed.

(** The function of a thread: joining the group, then a loop. *)
Lemma thread_ok {A} U fuel g (step : Z → A → M st (A + unit)) (a : A) (I : A → Prop) :
  (∀ rx_burst a s', I a → settled s' → may (step rx_burst a) (λ o s2, match o with
     | inl a' => (I a' ∧ settled s2) ∧ (budget (world s2) < budget (world s'))%nat
     | inr _ => settled s2
     end) U s') →
  I a → (budget (world s0) < fuel)%nat →
  may (b ← join_group g;
       match b with None => mret (-1) | Some rx_burst => loop fuel (step rx_burst) a;; mret 0 end)
    (λ rc s', (rc = 0 ∨ rc = -1) ∧ settled s') U s0.
Proof using PreOrder0 Proper0 SocketLaws0.
  intros Hstep Ha Hfuel. apply may_bind, may_wp. eapply wp_mono; [|apply join_group_ok, cls_flow_none].
  intros [rx_burst|] s1 [H1 Hb1]; [|by apply may_wp, wp_ret; auto]. apply may_bind.
  eapply may_mono; [|apply (may_loop _ (λ a s', I a ∧ settled s') (λ _ s', budget (world s')) (λ _ s', settled s')); [|by split|lia]].
  - intros [] s2 H2. apply may_wp, wp_ret. auto.
  - intros a' s2 [Ha' H2]. by apply Hstep.
Qed.
End Flow.

(** ** Theorems *)

(** Equality for the workers that keep the order, otherwise the same bag. *)
Definition as_dealt {A} (in_order : bool) : relation (list A) := if in_order then eq else (≡ₚ).

#[global] Instance as_dealt_preorder {A} b : PreOrder (as_dealt (A := A) b).
Proof. destruct b; apply _. Qed.
#[global] Instance as_dealt_app {A} b : Proper (as_dealt b ==> as_dealt b ==> as_dealt b) (@Datatypes.app A).
Proof. destruct b; apply _. Qed.

Section Workers.
Context {W F : Type} `{!App W F, !SocketLaws W F, !SendLaws W F, !ScheduleLaws W F}.
Implicit Types (s : app W F cls_t).

(** An ordinary worker, and the worker of the classified packets with its channel. *)
Definition worker (chn : option Z) (fuel : nat) (group : Z) : M (app W F cls_t) Z :=
  match chn with None => worker_dispatcher fuel group | Some c => worker_classif_dispatcher fuel group c end.
Definition in_order (chn : option Z) : bool := match chn with None => true | Some _ => false end.

(** [C27] The workers of the classifier end when processing is stopped, and until
    then deal with every event the scheduler gives them.  Each event is asked
    for its type once, in order, and dealt with once, by its kind: a packet
    goes to the stack or to the channel or is freed, a timeout goes to the
    timers, anything else is freed as an event; the ordinary workers keep the
    order, and nothing is left over in the vector.  Packets are freed only when
    the vector refuses them or the channel does not take them, and then always.
    One fate is not in the plan: when the channel fails with a code below -1,
    packets are lost ([F_lost], see [untaken]).  Vectors have between 1 and 32
    packets, and they go to the channel exactly when there is one.  A worker
    with a channel crashes when a packet of its vector has no UDP header; no
    other worker does. *)
Theorem classifier_workers_pass_everything chn fuel group s :
  (budget (world s) < fuel)%nat →
  ∃ o s', worker chn fuel group s = (o, s') ∧
    match o with
    | Ret rc => (rc = 0 ∨ rc = -1) ∧ glob s' = glob s ∧ ∃ t, trace s' = trace s ++ t ∧
        arrived t = (asked t).*1 ∧ as_dealt (in_order chn) (asked t) (treated t) ∧
        freed t = due t ∧ Forall (vector_rule (default NFP_CHANNEL_INVALID chn)) t
    | Stuck => is_Some chn ∧ no_header s'
    | _ => False
    end.
Proof.
  intros Hfuel.
  enough (may (worker chn fuel group) (λ rc s', (rc = 0 ∨ rc = -1) ∧
    settled (as_dealt (in_order chn)) (default NFP_CHANNEL_INVALID chn) s s') (λ s', is_Some chn ∧ no_header s') s)
    as (o & s' & Hrun & Ho).
  { exists o, s'. split; [done|]. destruct o as [rc| | |]; try done.
    destruct Ho as (Hrc & _ & t & (Ht & Hg & _) & Ha & HR & Hd & Hr). rewrite app_nil_r in Ha, Hd.
    split_and!; [done|done|]. exists t. split_and!; [done|done| |done|done]. rewrite HR. simpl. by rewrite app_nil_r. }
  destruct chn as [c|].
  - apply (thread_ok _ _ _ _ fuel group (classif_step c) [] (λ vec, vec = [])); [|done|done].
    intros rx vec s1 -> H1. destruct (classif_step_ok (as_dealt false) c s) with (rx_burst := rx) (s := s1)
      as (o & s2 & Hrun & Ho); [|done|]; [intros p x q; symmetry; apply Permutation_middle|].
    exists o, s2. split; [done|]. by destruct o.
  - apply (thread_ok _ _ _ _ fuel group worker_step () (λ _, True)); [|done|done].
    intros rx [] s1 _ H1. by apply (worker_step_ok (as_dealt true)).
Qed.
End Workers.

(** *** The channel *)

(** Cutting a packet changes no other. *)
Class CutLaws (W F : Type) `{!App W F, !TrimLaws W F} :=
  cut_others pkt c w r w' :
    api (c : acall F) w = (r, w') → cutting pkt c →
    ∀ x, x ≠ pkt → data w' x = data w x ∧ l4 w' x = l4 w x.

Section Cut.
Context {W F : Type} `{!App W F, !SocketLaws W F, !SendLaws W F, !TrimLaws W F, !CutLaws W F}.
Local Abbreviation st := (app W F cls_t).
Implicit Types (s : st).

(** The packets other than [pkt] are as before. *)
Definition spares (pkt : Z) s s' : Prop :=
  ∀ x, x ≠ pkt → data (world s') x = data (world s) x ∧ l4 (world s') x = l4 (world s) x.

#[export] Instance spares_preorder pkt : PreOrder (spares pkt).
Proof.
  split; [by intros s x|]. intros s1 s2 s3 H1 H2 x Hx. destruct (H1 x Hx), (H2 x Hx). split; congruence.
Qed.

Lemma spares_call pkt c : cutting pkt c → keeps (spares pkt) (call c : M st _).
Proof.
  intros Hc s a s' H. unfold call in H. destruct (api c (world s)) as [r w] eqn:E. injection H as <- <-.
  exact (cut_others _ _ _ _ _ E Hc).
Qed.

Lemma trim_spares pkt : keeps (spares pkt) (UdpTerm.trim pkt : M st unit).
Proof.
  unfold UdpTerm.trim, UdpTerm.udp_size, callv, call_.
  repeat first [progress intros | apply spares_call; reflexivity | progress frame].
Qed.
Context (vec : list Z) (s0 : st).

(** The packets of [vec] hold UDP datagrams. *)
Definition datagrams : Prop := ∀ pkt, pkt ∈ vec → ∃ n, datagram_at (data (world s0) pkt) (l4 (world s0) pkt) n.

(** [l] is the payload of [pkt]. *)
Definition is_payload (pkt : Z) (l : bytes) : Prop :=
  ∃ n, datagram_at (data (world s0) pkt) (l4 (world s0) pkt) n ∧
    l = payload_at (data (world s0) pkt) (l4 (world s0) pkt) n.

(** The first [i] packets have been cut, the others are as before. *)
Definition cut_to (i : nat) s : Prop :=
  (∃ t, trace s = trace s0 ++ t ∧ Forall (λ e : event F, ∃ x, cutting x e.1) t) ∧
  (∀ j pkt, vec !! j = Some pkt →
     if decide (j < i)%nat then is_payload pkt (data (world s) pkt)
     else data (world s) pkt = data (world s0) pkt ∧ l4 (world s) pkt = l4 (world s0) pkt).

Lemma cuts_ok :
  NoDup vec → datagrams →
  wp (cut_packets vec) (λ _ s', cut_to (length vec) s') s0.
Proof using CutLaws0.
  intros Hnd Hdat. eapply wp_mono; [|apply (wp_for_from _ (λ i, cut_to (Z.to_nat i)))].
  - intros [] s'. by rewrite Z.add_0_l, Nat2Z.id.
  - split; [exists []; by rewrite app_nil_r|]. intros j pkt _. by rewrite decide_False by lia.
  - intros i s1 Hi [(t & Ht & Hc) Hcut]. destruct (lookup_lt_is_Some_2 vec (Z.to_nat i)) as [pkt Hp]; [lia|].
    apply wp_bind. eapply wp_of_option; [exact Hp|]. pose proof (Hcut _ _ Hp) as Hsame.
    rewrite decide_False in Hsame by lia. destruct Hsame as [Hd Hl].
    destruct (Hdat pkt) as [n Hn]; [by eapply list_elem_of_lookup_2|].
    eapply wp_mono; [|apply wp_keeps; [apply trim_spares|apply (trim_ok pkt n s1); by rewrite Hd, Hl]].
    intros [] s2 [(_ & Hpay & t' & Ht' & Hc') Hsp]. replace (Z.to_nat (i + 1)) with (S (Z.to_nat i)) by lia. split.
    + exists (t ++ t'). split; [by rewrite Ht', Ht, app_assoc|]. apply Forall_app. split; [done|].
      eapply Forall_impl; [exact Hc'|]. intros e He. by exists pkt.
    + intros j x Hx. destruct (decide (j = Z.to_nat i)) as [->|Hne].
      * rewrite decide_True by lia. simplify_eq. exists n. split; [done|]. by rewrite Hpay, Hd, Hl.
      * destruct (Hsp x) as [Hd' Hl'].
        { intros ->. apply Hne. by eapply NoDup_lookup. }
        specialize (Hcut _ _ Hx). unfold is_payload in *. do 2 case_decide; try lia; by rewrite Hd', ?Hl'.
Qed.

End Cut.

(** *** Counting *)

#[global] Program Instance cls_counters : UdpTerm.Counters cls_t :=
  {| UdpTerm.bytes_total := received_total; UdpTerm.pkts_total := received_pkt_total; UdpTerm.counted := count |}.
Solve Obligations with done.

Section Termination.
Context {W F : Type} `{!App W F, !SocketLaws W F, !ChannelLaws W F}.
Local Abbreviation st := (app W F cls_t).
Implicit Types (s : st).

(** Datagrams without data count as well. *)
Definition got (v : Z) : bool := negb (v =? -1).

Definition posix_body (fd : Z) (_ : unit) : M st (unit + unit) :=
  r ← call (A_recv fd 1500 NFP_MSG_DONTWAIT);
  if r_val r =? -1 then
    if r_errno r =? Errno.NFP_EWOULDBLOCK then mret (inl ()) else mret (inr ())
  else setg (count (r_val r));; mret (inl ()).

Lemma posix_body_ok fd s : wp (posix_body fd ()) (λ _ s', tally got s [] s' []) s.
Proof.
  apply wp_bind, wp_call. intros r w E.
  pose proof (tally_call got s (A_recv fd 1500 NFP_MSG_DONTWAIT) r w [] [] E eq_refl eq_refl) as H.
  unfold sizes_by, got in H. cbn [fst snd] in H. destruct (r_val r =? -1); cbn [negb] in H.
  - destruct (_ =? Errno.NFP_EWOULDBLOCK); apply wp_ret; apply H; simpl; lia.
  - apply wp_bind, wp_setg, wp_ret. apply H. simpl. lia.
Qed.

(** The thread of the classifier that terminates traffic, by socket or by
    channel, ends when the outside stops answering "again", or when receiving
    from the socket fails.  Up to then [received_pkt_total] grew by the number
    of datagrams received, those without data included, and [received_total]
    by their lengths, both modulo 2^64; every packet taken from the channel was
    asked for its length and freed, each once and in order. *)
Theorem classifier_counts_traffic (posix : bool) fuel x s :
  (budget (world s) < fuel)%nat →
  ∃ rc s' t, (if posix then termination_posix fuel x else termination_channel fuel x) s = (Ret rc, s') ∧
    (rc = 0 ∨ rc = -1) ∧ trace s' = trace s ++ t ∧ measured t = taken t ∧ freed t = taken t ∧
    u64 (received_total (glob s')) = u64 (received_total (glob s) + sum (sizes_of got t)) ∧
    u64 (received_pkt_total (glob s')) = u64 (received_pkt_total (glob s) + Z.of_nat (length (sizes_of got t))).
Proof using ChannelLaws0 SocketLaws0.
  intros Hfuel.
  enough (wp (if posix then termination_posix fuel x else termination_channel fuel x)
    (λ rc s', (rc = 0 ∨ rc = -1) ∧ tally got s [] s' []) s) as (rc & s' & Hrun & Hrc & _ & t & Ht & Hf & Hm & Hr & Hn).
  { exists rc, s', t. rewrite app_nil_r in Hf. split_and!; try done. by rewrite Hm. }
  destruct posix.
  - apply (counting_thread got fuel (posix_body x)); [|done]. apply posix_body_ok.
  - apply (counting_thread got fuel (λ _, r ← call (A_channel_recv x CHANNEL_RECV_MAX);
      when (0 <? r_val r) (for_from 0 (Z.to_nat (r_val r)) (count_packet r));; mret (inl ()))); [|done].
    intros s0. exact (channel_body (G := cls_t) got x s0).
Qed.
End Termination.

(** ** Witnesses *)

(** The demonstration world of the web server with the classes that exist and
    their queues; the scheduler gives two packets with a header. *)
Definition lab : Type := demo * gmap Z Z.

Definition lab_api (c : acall (gset Z)) (w : lab) : areply (gset Z) * lab :=
  let '(r, d) := demo_api c w.1 in
  match c with
  | A_schedule_wait _ _ => (Reply 2 0 9 0 [] ∅ [(105, 0); (106, 0)], w)
  | A_event_type _ => (rep FpmDirect.ODP_EVENT_PACKET [] ∅, w)
  | A_thread_create _ _ => (rep 1 [] ∅, w)
  | A_packet_l4 _ => (Reply 1 0 4 0 [0; 9; 212; 49; 0; 11; 0; 0] ∅ [], w)
  | A_channel_send_multi _ vec => (rep (Z.of_nat (length (take 1 vec))) [] ∅, w)
  | A_cos_create _ q _ =>
      match w.2 !! r_val r with
      | None => (r, (d, if r_val r =? INVALID then w.2 else <[r_val r := q]> w.2))
      | Some _ => (rep INVALID [] ∅, (d, w.2))
      end
  | A_cos_destroy k => (r, (d, delete k w.2))
  | A_cos_queue k => (rep (default INVALID (w.2 !! k)) [] ∅, w)
  | _ => (r, (d, w.2))
  end.

#[global] Instance lab_app : App lab (gset Z) := {
  api := lab_api;
  NFP_FD_ZERO := ∅;
  NFP_FD_SET x set := {[x]} ∪ set;
  NFP_FD_CLR x set := set ∖ {[x]};
  NFP_FD_ISSET x set := bool_decide (x ∈ set);
}.

(** The other calls are answered as in that world. *)
Definition lab_own (c : acall (gset Z)) : bool :=
  match c with
  | A_schedule_wait _ _ | A_event_type _ | A_thread_create _ _ | A_packet_l4 _ | A_channel_send_multi _ _
  | A_cos_create _ _ _ | A_cos_destroy _ | A_cos_queue _ => true
  | _ => false
  end.

Lemma lab_other c (w w' : lab) r :
  lab_api c w = (r, w') → lab_own c = false → demo_api c w.1 = (r, w'.1) ∧ w'.2 = w.2.
Proof. unfold lab_api. destruct (demo_api c w.1) as [r0 d] eqn:E. intros H Hc. by destruct c; simplify_eq. Qed.

Lemma lab_mono c (w w' : lab) r :
  lab_api c w = (r, w') → lab_own c = true → (d_next w.1 ≤ d_next w'.1)%nat ∧ d_life w'.1 = d_life w.1.
Proof.
  unfold lab_api. destruct (demo_api c w.1) as [r0 d] eqn:E. intros H Hc. pose proof (demo_next_mono _ _ _ _ E).
  destruct c; try discriminate; simpl in E; repeat case_match; simplify_eq; simpl in *; split; lia.
Qed.

#[global] Program Instance lab_laws : SocketLaws lab (gset Z) := {
  open_fds w := demo_open w.1;
  budget w := d_life w.1;
  interest _ := ∅;
}.
Next Obligation.
  intros c w r w' E. destruct (lab_own c) eqn:Hc.
  - destruct (lab_mono _ _ _ _ E Hc). destruct c; try discriminate; by apply demo_open_mono.
  - apply lab_other in E as [E _]; [|done]. exact (open_step (W := demo) _ _ _ _ E).
Qed.
Next Obligation.
  intros c w r w' E Ho. destruct (lab_own c) eqn:Hc; [by destruct c|].
  apply lab_other in E as [E _]; [|done]. exact (open_fresh (W := demo) _ _ _ _ E Ho).
Qed.
Next Obligation. intros fd len flags w r w' [E _]%lab_other; [|done]. exact (recv_fits (W := demo) _ _ _ _ _ _ E). Qed.
Next Obligation. intros f len w r w' [E _]%lab_other; [|done]. exact (fread_fits (W := demo) _ _ _ _ _ E). Qed.
Next Obligation.
  intros c w r w' E. destruct (lab_own c) eqn:Hc.
  - destruct (lab_mono _ _ _ _ E Hc). destruct c; try discriminate; unfold again; cbn [fst]; lia.
  - apply lab_other in E as [E _]; [|done]. exact (budget_step (W := demo) _ _ _ _ E).
Qed.
Next Obligation. set_solver. Qed.
Next Obligation. intros n w r w' [E _]%lab_other; [|done]. exact (epoll_create_val (W := demo) _ _ _ _ E). Qed.
Next Obligation. intros e m t w r w' [E _]%lab_other; [|done]. exact (epoll_events (W := demo) _ _ _ _ _ _ E). Qed.

#[global] Instance lab_schedule : ScheduleLaws lab (gset Z).
Proof. intros ns n [d m] r w' E. unfold api, lab_app, lab_api in E. simpl in E. by simplify_eq. Qed.
#[global] Instance lab_send : SendLaws lab (gset Z).
Proof. intros chn [|x vec] [d m] r w' E; unfold api, lab_app, lab_api in E; simpl in E; simplify_eq; simpl; lia. Qed.

Definition lab_start (n life : nat) : app lab (gset Z) cls_t :=
  MkApp (Demo n life, ∅) 0 [] (MkCls FpmDirectStart.demo_memory (ApplArgs 0 None METHOD_CHANNEL) 0 0).

(** Three turns with a channel that takes one packet at a time. *)
Lemma classifier_workers_pass_everything_witness :
  ∃ o s', worker (Some 1) 10 3 (lab_start 3 3) = (o, s') ∧
    match o with
    | Ret rc => (rc = 0 ∨ rc = -1) ∧ glob s' = glob (lab_start 3 3) ∧ ∃ t, trace s' = [] ++ t ∧
        arrived t = (asked t).*1 ∧ as_dealt false (asked t) (treated t) ∧ freed t = due t ∧ Forall (vector_rule 1) t
    | Stuck => is_Some (Some 1) ∧ no_header s'
    | _ => False
    end.
Proof. apply (classifier_workers_pass_everything (W := lab) (F := gset Z) (Some 1) 10 3). simpl. lia. Defined.

#[global] Instance lab_channels : ChannelLaws lab (gset Z).
Proof. intros chn n w r w' [E _]%lab_other; [|done]. exact (channel_table (W := demo) _ _ _ _ _ E). Qed.

Lemma classifier_counts_traffic_witness :
  ∃ rc s' t, termination_posix 10 5 (lab_start 3 3) = (Ret rc, s') ∧
    (rc = 0 ∨ rc = -1) ∧ trace s' = [] ++ t ∧ measured t = taken t ∧ freed t = taken t ∧
    u64 (received_total (glob s')) = u64 (0 + sum (sizes_of got t)) ∧
    u64 (received_pkt_total (glob s')) = u64 (0 + Z.of_nat (length (sizes_of got t))).
Proof. apply (classifier_counts_traffic (W := lab) (F := gset Z) true 10 5 (lab_start 3 3)). simpl. lia. Defined.

(** Packets that are cut as they are told, and a channel that takes none. *)
Definition parcels : Type := Z → bytes.
Definition cut_parcel (p : Z) (f : bytes → bytes) (w : parcels) : parcels := λ x, if x =? p then f (w x) else w x.

Definition parcel_api (c : acall (gset Z)) (w : parcels) : areply (gset Z) * parcels :=
  match c with
  | A_packet_l4 p => (Reply 1 0 4 0 (drop 4 (w p)) ∅ [], w)
  | A_packet_len p => (rep (Z.of_nat (length (w p))) [] ∅, w)
  | A_packet_pull_head p n => (rep 1 [] ∅, cut_parcel p (drop (Z.to_nat n)) w)
  | A_packet_pull_tail p n => (rep 1 [] ∅, cut_parcel p (λ l, take (length l - Z.to_nat n) l) w)
  | A_is_running | A_schedule | A_close _ | A_fread _ _ => (rep 0 [] ∅, w)
  | _ => (rep (-1) [] ∅, w)
  end.

#[global] Instance parcel_app : App parcels (gset Z) := {
  api := parcel_api;
  NFP_FD_ZERO := ∅;
  NFP_FD_SET x set := {[x]} ∪ set;
  NFP_FD_CLR x set := set ∖ {[x]};
  NFP_FD_ISSET x set := bool_decide (x ∈ set);
}.

#[global] Program Instance parcel_laws : SocketLaws parcels (gset Z) := {
  open_fds _ := ∅;
  budget _ := 0%nat;
  interest _ := ∅;
}.
Next Obligation. intros c w r w' E. destruct c; simpl in E; simplify_eq; unfold owned_step; simpl; set_solver. Qed.
Next Obligation. set_solver. Qed.
Next Obligation. intros ? ? ? w r w' [= <- <-] H. simpl. lia. Qed.
Next Obligation. intros ? ? w r w' [= <- <-] H. simpl. lia. Qed.
Next Obligation. intros c w r w' E. destruct c; simpl in E; simplify_eq; unfold again; simpl; lia. Qed.
Next Obligation. set_solver. Qed.
Next Obligation. intros ? w r w' [= <- <-]. by left. Qed.
Next Obligation. intros ? ? ? w r w' [= <- <-]. split; [simpl; lia|done]. Qed.

#[global] Program Instance parcel_trim : TrimLaws parcels (gset Z) := { data w := w; l4 _ _ := 4 }.
Next Obligation. by intros pkt w r w' [= <- <-]. Qed.
Next Obligation. by intros pkt w r w' [= <- <-]. Qed.
Next Obligation. intros pkt n w r w' [= <- <-] _. unfold cut_parcel. by rewrite Z.eqb_refl. Qed.
Next Obligation. intros pkt n w r w' [= <- <-] _. unfold cut_parcel. by rewrite Z.eqb_refl. Qed.

#[global] Instance parcel_cut : CutLaws parcels (gset Z).
Proof.
  intros pkt c w r w' E Hc x Hx. destruct c; cbn in Hc; try done; subst; simpl in E; simplify_eq; simpl; (split; [|done]);
    unfold cut_parcel; try done; by rewrite (proj2 (Z.eqb_neq _ _)).
Qed.
#[global] Instance parcel_send : SendLaws parcels (gset Z).
Proof. intros chn vec w r w' [= <- <-]. left; simpl; lia. Qed.

(** A header of four bytes, the UDP header of a payload of three bytes, the
    payload, and padding; the second packet has another payload. *)
Definition parcel (payload : string) : bytes := [1; 2; 3; 4] ++ [0; 9; 212; 49; 0; 11; 0; 0] ++ text payload ++ [0; 0].
Definition demo_parcels : app parcels (gset Z) cls_t :=
  MkApp (λ x, if x =? 7 then parcel "abc" else parcel "xyz") 0 [] (glob (lab_start 0 0)).


End ClassifierProofs.
