(* ===== verification/ClassifierObjects.v ===== *)
(** * Classified traffic: the objects of ODP

    The groups, queues, classes, rules and channels a record of calls has
    created and not destroyed, and what classifier.c does with them. *)

From S2P Require Import Prelude App AppProofs AppHeap Resources CliArgParse ArgHeap FpmDirect FpmDirectStart DefaultApp DefaultAppProofs UdpTerm Classifier.
Import App AppProofs AppHeap Resources ArgHeap Classifier.
Import DefaultAppProofs(calm, calm_keeps).

Module ClassifierObjects.

(** ** Objects *)

Inductive kind := K_group | K_queue | K_class | K_rule | K_channel.
#[global] Instance kind_eq : EqDecision kind.
Proof. solve_decision. Defined.
#[global] Instance kind_countable : Countable kind.
Proof.
  refine (inj_countable' (λ k, match k with K_group => 0 | K_queue => 1 | K_class => 2 | K_rule => 3 | K_channel => 4 end%nat)
    (λ n, match n with 0 => K_group | 1 => K_queue | 2 => K_class | 3 => K_rule | _ => K_channel end%nat) _).
  by intros [].
Defined.

Abbreviation obj := (kind * Z)%type.

Section Record.
Context {F : Type}.

(** The kind of object a call creates, and the value that says that it did not. *)
Definition creates (c : acall F) : option obj :=
  match c with
  | A_sched_group_create _ => Some (K_group, INVALID)
  | A_queue_create _ _ => Some (K_queue, INVALID)
  | A_cos_create _ _ _ => Some (K_class, INVALID)
  | A_pmr_create _ _ _ _ => Some (K_rule, INVALID)
  | A_channel_create => Some (K_channel, NFP_CHANNEL_INVALID)
  | _ => None
  end.
Definition destroys (c : acall F) : option obj :=
  match c with
  | A_sched_group_destroy x => Some (K_group, x)
  | A_queue_destroy x => Some (K_queue, x)
  | A_cos_destroy x => Some (K_class, x)
  | A_pmr_destroy x => Some (K_rule, x)
  | A_channel_destroy x => Some (K_channel, x)
  | _ => None
  end.

(** The object [x] unless it is the invalid one. *)
Definition handle (k : kind) (bad x : Z) : gset obj := if x =? bad then ∅ else {[(k, x)]}.

Definition obj_step (o : gset obj) (e : event F) : gset obj :=
  match creates e.1, destroys e.1 with
  | Some (k, bad), _ => handle k bad (r_val e.2) ∪ o
  | None, Some x => o ∖ {[x]}
  | None, None => o
  end.
Definition objects (tr : list (event F)) : gset obj := foldl obj_step ∅ tr.

Lemma objects_snoc tr e : objects (tr ++ [e]) = obj_step (objects tr) e.
Proof. unfold objects. by rewrite foldl_app. Qed.

Lemma no_invalid_queue tr : (K_queue, INVALID) ∉ objects tr.
Proof.
  induction tr as [|[c r] tr IH] using rev_ind; [apply not_elem_of_empty|]. rewrite objects_snoc. unfold obj_step, handle.
  cbn [fst snd]. destruct c; cbn [creates destroys]; try exact IH; first [case_match eqn:Heq; [set_solver|] | set_solver].
  all: apply Z.eqb_neq in Heq; set_solver.
Qed.

Definition obj_call (c : acall F) : bool :=
  match creates c, destroys c with None, None => false | _, _ => true end.
End Record.

(** Classes: a new one is not one of those there are, and answers with the
    queue it was created with. *)
Class CosLaws (W F : Type) `{!App W F} := {
  cos_live : W → gmap Z Z;
  cos_created name q pool w r w' :
    api (A_cos_create name q pool : acall F) w = (r, w') →
    if r_val r =? INVALID then cos_live w' = cos_live w
    else cos_live w !! r_val r = None ∧ cos_live w' = <[r_val r := q]> (cos_live w);
  cos_destroyed k w r w' :
    api (A_cos_destroy k : acall F) w = (r, w') → cos_live w' = delete k (cos_live w);
  cos_queue_law k w r w' q :
    api (A_cos_queue k : acall F) w = (r, w') → cos_live w !! k = Some q → r_val r = q;
  cos_other c w r w' :
    api (c : acall F) w = (r, w') →
    match c with A_cos_create _ _ _ | A_cos_destroy _ => False | _ => True end →
    cos_live w' = cos_live w;
}.

Section Objects.
Context {W F : Type} `{!App W F, !SocketLaws W F, !CosLaws W F}.
Local Abbreviation st := (app W F cls_t).
Implicit Types (s : st).

(** ** Steps that touch nothing that has to be given back *)

Definition still s s' : Prop :=
  objects (trace s') = objects (trace s) ∧ cos_live (world s') = cos_live (world s).

#[export] Instance still_preorder : PreOrder still.
Proof. split; [by intros s|]. intros s1 s2 s3 [? ?] [? ?]. split; congruence. Qed.

Lemma still_after s c r w : api c (world s) = (r, w) → obj_call c = false → still s (after s c r w).
Proof.
  intros E Hc. split.
  - simpl. rewrite objects_snoc. unfold obj_step, obj_call in *. cbn [fst]. by destruct (creates c), (destroys c).
  - apply (cos_other _ _ _ _ E). by destruct c.
Qed.

Lemma still_call c : obj_call c = false → keeps still (call c : M st _).
Proof.
  intros Hc s a s' H. unfold call in H. destruct (api c (world s)) as [r w] eqn:E. injection H as <- <-. by apply still_after.
Qed.
Lemma still_callv c : obj_call c = false → keeps still (callv c : M st Z).
Proof. intros. apply keeps_bind; [apply _|by apply still_call|intros; apply keeps_ret, _]. Qed.
Lemma still_call_ c : obj_call c = false → keeps still (call_ c : M st unit).
Proof. intros. apply keeps_bind; [apply _|by apply still_call|intros; apply keeps_ret, _]. Qed.
Lemma still_getg {A} (f : cls_t → A) : keeps still (getg f : M st A).
Proof. apply keeps_gets, _. Qed.
Lemma still_on_heap {A} (c : M CliArgParse.state A) : keeps still (on_heap c : M st A).
Proof.
  intros s a s' H. unfold on_heap in H. destruct (c (heap_of (glob s))) as [o h]. by injection H as -> <-.
Qed.
Hint Resolve still_getg still_on_heap : keeps.
Lemma still_arg p : keeps still (arg_string p : M st _).
Proof. destruct p; simpl; frame. Qed.
Hint Resolve still_arg : keeps.
Hint Extern 1 (keeps still (call _)) => apply still_call; reflexivity : keeps.
Hint Extern 1 (keeps still (callv _)) => apply still_callv; reflexivity : keeps.
Hint Extern 1 (keeps still (call_ _)) => apply still_call_; reflexivity : keeps.

Definition quiet s s' : Prop := calm s s' ∧ still s s'.

#[export] Instance quiet_preorder : PreOrder quiet.
Proof. split; [by intros s|]. intros s1 s2 s3 [? ?] [? ?]. split; by etrans. Qed.

Lemma cls_quiet_keeps {A} (c : M st A) :
  keeps (Resources.neutral (λ g : cls_t, g)) c → keeps idle c → keeps still c → keeps quiet c.
Proof. intros Hn Hi Hc s a s' H. split; [by eapply calm_keeps|by eapply Hc]. Qed.

Definition quiet_of (c : acall F) : bool := neutral_call c && idle_call c && negb (obj_call c).

Lemma quiet_after s c r w : api c (world s) = (r, w) → quiet_of c = true → quiet s (after s c r w).
Proof.
  intros E [[Hn Hi]%andb_prop Ho]%andb_prop. apply negb_true_iff in Ho.
  split; [split; [by eapply neutral_after|by eapply idle_after]|by apply still_after].
Qed.

Lemma cls_quiet_call c : quiet_of c = true → keeps quiet (call c : M st _).
Proof.
  intros Hc s a s' H. unfold call in H. destruct (api c (world s)) as [r w] eqn:E. injection H as <- <-. by apply quiet_after.
Qed.
Lemma cls_quiet_callv c : quiet_of c = true → keeps quiet (callv c : M st Z).
Proof. intros. apply keeps_bind; [apply _|by apply cls_quiet_call|intros; apply keeps_ret, _]. Qed.
Lemma cls_quiet_call_ c : quiet_of c = true → keeps quiet (call_ c : M st unit).
Proof. intros. apply keeps_bind; [apply _|by apply cls_quiet_call|intros; apply keeps_ret, _]. Qed.

Lemma cls_quiet_arg p : keeps quiet (arg_string p : M st _).
Proof. apply cls_quiet_keeps; frame. Qed.
Lemma cls_quiet_name i : keeps quiet (FpmDirect.interface_name i : M st _).
Proof. apply cls_quiet_keeps; unfold FpmDirect.interface_name; frame. Qed.
Lemma quiet_count : keeps quiet (FpmDirect.if_count : M st _).
Proof. apply cls_quiet_keeps; unfold FpmDirect.if_count; frame. Qed.
Lemma cls_quiet_addresses : keeps quiet (configure_interface_addresses : M st Z).
Proof.
  apply cls_quiet_keeps; unfold configure_interface_addresses, DefaultApp.configure_interface_addresses,
    DefaultApp.configure_address, FpmDirect.if_count; frame.
Qed.
Lemma cls_quiet_signals : keeps quiet (FpmDirect.nfpexpl_sigaction_set : M st Z).
Proof. apply cls_quiet_keeps; unfold FpmDirect.nfpexpl_sigaction_set, FpmDirect.linux_sigaction; frame. Qed.
Lemma cls_quiet_stats fuel : keeps quiet (print_global_stats fuel : M st unit).
Proof. apply cls_quiet_keeps; unfold print_global_stats, UdpTerm.print_global_stats, UdpTerm.stats_step, UdpTerm.load; frame. Qed.

(** ** What is owned *)

(** The objects there are: at most [B], rules, and the classes [ks] with their
    queues. *)
Definition owning (B : gset obj) (ks : list Z) s : Prop :=
  ∀ x, x ∈ objects (trace s) → x ∈ B ∨ x.1 = K_rule ∨
    ∃ k q, k ∈ ks ∧ k ≠ INVALID ∧ cos_live (world s) !! k = Some q ∧ (x = (K_class, k) ∨ x = (K_queue, q)).

Lemma owning_mono B ks B' ks' s :
  owning B ks s → B ⊆ B' → (∀ k, k ∈ ks → k ≠ INVALID → k ∈ ks') → owning B' ks' s.
Proof.
  intros Ho HB Hk x Hx. destruct (Ho x Hx) as [?|[?|(k & q & ? & ? & ?)]]; [left; by apply HB|by right; left|right; right].
  exists k, q. auto.
Qed.

Lemma owning_still B ks s s' : owning B ks s → still s s' → owning B ks s'.
Proof. intros Ho [Ho' Hc] x Hx. rewrite Ho' in Hx. rewrite Hc. by apply Ho. Qed.

(** Any call but the creation or destruction of a class. *)
Lemma owning_after B ks s c r w :
  owning B ks s → api c (world s) = (r, w) →
  match c with A_cos_create _ _ _ | A_cos_destroy _ => False | _ => True end →
  owning (obj_step B (c, r)) ks (after s c r w).
Proof.
  intros Ho E Hc x Hx. simpl in Hx |- *. rewrite objects_snoc in Hx. rewrite (cos_other _ _ _ _ E Hc).
  unfold obj_step in *. cbn [fst snd] in *.
  assert (Hold : x ∈ objects (trace s) → x ∈ B ∨ x.1 = K_rule ∨ ∃ k q, k ∈ ks ∧ k ≠ INVALID ∧
    cos_live (world s) !! k = Some q ∧ (x = (K_class, k) ∨ x = (K_queue, q))) by apply Ho.
  destruct (creates c) as [[k bad]|], (destroys c) as [y|].
  all: first [apply elem_of_union in Hx as [Hx|[?|?]%Hold] | apply elem_of_difference in Hx as [[?|?]%Hold Hy] | apply Hold in Hx as [?|?]];
    first [by right | left; clear -Hx; set_solver | left; set_solver].
Qed.

Lemma owning_class_created B ks s name q pool r w :
  owning ({[(K_queue, q)]} ∪ B) ks s → api (A_cos_create name q pool) (world s) = (r, w) → r_val r ≠ INVALID →
  owning B (r_val r :: ks) (after s (A_cos_create name q pool) r w).
Proof.
  intros Ho E Hr x Hx. simpl in Hx |- *. rewrite objects_snoc in Hx. pose proof (cos_created _ _ _ _ _ _ E) as Hl.
  rewrite (proj2 (Z.eqb_neq _ _) Hr) in Hl. destruct Hl as [Hnew ->]. unfold obj_step, handle in Hx. cbn [fst snd creates] in Hx.
  rewrite (proj2 (Z.eqb_neq _ _) Hr) in Hx.
  assert (Hmine : ∀ y, y = (K_class, r_val r) ∨ y = (K_queue, q) → y ∈ B ∨ y.1 = K_rule ∨ ∃ k q', k ∈ r_val r :: ks ∧
    k ≠ INVALID ∧ <[r_val r := q]> (cos_live (world s)) !! k = Some q' ∧ (y = (K_class, k) ∨ y = (K_queue, q'))).
  { intros y Hy. right. right. exists (r_val r), q. split_and!; [by left|done|apply lookup_insert_eq|done]. }
  apply elem_of_union in Hx as [->%elem_of_singleton|Hx]; [apply Hmine; by left|].
  destruct (Ho x Hx) as [[->%elem_of_singleton|?]%elem_of_union|[?|(k & q' & Hk & Hn & Hl & Hx')]];
    [apply Hmine; by right|by left|by right; left|right; right].
  exists k, q'. split_and!; [by right|done| |done]. rewrite lookup_insert_ne; [done|]. congruence.
Qed.

Lemma owning_class_refused B ks s name q pool r w :
  owning B ks s → api (A_cos_create name q pool) (world s) = (r, w) → r_val r = INVALID →
  owning B ks (after s (A_cos_create name q pool) r w).
Proof.
  intros Ho E Hr. eapply owning_still; [exact Ho|]. pose proof (cos_created _ _ _ _ _ _ E) as Hl. rewrite Hr in Hl.
  split; [|exact Hl]. simpl. rewrite objects_snoc. unfold obj_step, handle. cbn [fst snd creates]. rewrite Hr. set_solver.
Qed.

(** A class is destroyed; if it was there, its queue has been. *)
Lemma owning_class_destroyed B k ks s r w :
  owning B (k :: ks) s → api (A_cos_destroy k) (world s) = (r, w) →
  (∀ q, cos_live (world s) !! k = Some q → (K_queue, q) ∉ objects (trace s)) ∨ k = INVALID →
  owning B ks (after s (A_cos_destroy k) r w).
Proof.
  intros Ho E Hq x Hx. simpl in Hx |- *. rewrite objects_snoc in Hx. rewrite (cos_destroyed _ _ _ _ E).
  unfold obj_step in Hx. cbn [fst creates destroys] in Hx. apply elem_of_difference in Hx as [Hx Hne%not_elem_of_singleton].
  destruct (Ho x Hx) as [?|[?|(k' & q & Hk & Hn & Hl & Hx')]]; [by left|by right; left|].
  destruct (decide (k' = k)) as [->|Hkk].
  - destruct Hq as [Hq|]; [|done]. destruct Hx' as [->| ->]; [done|]. by destruct (Hq q Hl).
  - right. right. exists k', q. apply elem_of_cons in Hk as [?|?]; [done|].
    split_and!; [done|done|by rewrite lookup_delete_ne|done].
Qed.

(** ** Where [main] is *)

Context (o0 : gset Z) (fuel : nat) (s0 : st) (g : cls_t) (P : Prop).
Local Abbreviation fine live := (AppProofs.fine any o0 live fuel).

(** What may end [main] without anything being given back: a long interface
    name, an interface that cannot be created, more cores than there is room
    for threads, no channel. *)
Definition mishap (e : event F) : Prop :=
  match e.1 with
  | A_ifnet_get_by_name name => 68 ≤ Z.of_nat (length name)
  | A_ifport_net_create _ _ _ => r_val e.2 < 0
  | A_cpu_count => MAX_WORKERS + 3 < r_val e.2
  | A_channel_create => r_val e.2 = NFP_CHANNEL_INVALID
  | _ => False
  end.
Definition mishaps s : Prop := ∃ t, trace s = trace s0 ++ t ∧ Exists mishap t.

Lemma mishaps_moves s rs s' rs' : mishaps s → moves s rs s' rs' → mishaps s'.
Proof.
  intros (t & Ht & He) (t' & Ht' & _). exists (t ++ t'). split; [by rewrite Ht', Ht, app_assoc|]. apply Exists_app. by left.
Qed.

(** The globals are [g]; the stack has been started since [s0], then at most
    [n] threads; descriptors [live] are held, and of objects at most [B] and
    the classes [ks]. *)
Definition stage (n : nat) live B ks s : Prop :=
  glob s = g ∧ with_threads n s0 s ∧ fine live s ∧ owning B ks s ∧ (P → mishaps s).

Lemma stage_since n live B ks s : stage n live B ks s → ∃ t, trace s = trace s0 ++ t.
Proof.
  intros (_ & (s' & (t & Ht & _) & (k & _ & t' & Ht' & _)) & _). exists (t ++ t'). by rewrite Ht', Ht, app_assoc.
Qed.

Lemma mishaps_call n live B ks s c r w : stage n live B ks s → mishap (c, r) → mishaps (after s c r w).
Proof.
  intros [t Ht]%stage_since Hm. exists (t ++ [(c, r)]). split; [simpl; by rewrite Ht, app_assoc|].
  apply Exists_app. right. by constructor.
Qed.

Lemma stage_mono n live B ks B' ks' s :
  stage n live B ks s → B ⊆ B' → (∀ k, k ∈ ks → k ≠ INVALID → k ∈ ks') → stage n live B' ks' s.
Proof. intros (? & ? & ? & ? & ?) HB Hk. split_and!; try done. by eapply owning_mono. Qed.

Lemma cls_stage_quiet n live B ks s s' : stage n live B ks s → quiet s s' → stage n live B ks s'.
Proof.
  intros (Hg & Ht & Hf & Ho & Hp) [[Hn Hi] Hs].
  split_and!; [by destruct Hn as (_ & -> & _)|by eapply threads_neutral|by apply Hi|by eapply owning_still|].
  intros HP. eapply mishaps_moves; [by apply Hp|]. apply (proj2 (proj2 Hn) []).
Qed.

(** A quiet part of the program. *)
Lemma cls_wp_quiet {A B'} n live B ks (c : M st A) (f : A → M st B') (R : A → Prop) Q s :
  stage n live B ks s → keeps quiet c → wp c (λ a _, R a) s →
  (∀ a s', R a → stage n live B ks s' → wp (f a) Q s') → wp (c ≫= f) Q s.
Proof.
  intros Hs Hk Hw Hf. apply wp_bind. eapply wp_mono; [|by apply wp_keeps; [exact Hk|exact Hw]].
  intros a s' [? ?]. apply Hf; [done|]. by eapply cls_stage_quiet.
Qed.

(** Calls that concern objects but no class. *)
Lemma stage_obj n live B ks s c r w :
  stage n live B ks s → api c (world s) = (r, w) → neutral_call c = true → idle_call c = true →
  match c with A_cos_create _ _ _ | A_cos_destroy _ => False | _ => True end →
  stage n live (obj_step B (c, r)) ks (after s c r w).
Proof.
  intros (Hg & Ht & Hf & Ho & Hp) E Hn Hi Hc. pose proof (neutral_after (λ g, g) s c r w E Hn) as Hn'.
  split_and!; [done|by eapply threads_neutral|by eapply idle_after|by apply owning_after|].
  intros HP. eapply mishaps_moves; [by apply Hp|]. apply (proj2 (proj2 Hn') []).
Qed.

(** The same, for what is known of the objects afterwards. *)
Lemma cls_stage_call n live B ks B' ks' s c r w :
  stage n live B ks s → api c (world s) = (r, w) → neutral_call c = true → idle_call c = true →
  owning B' ks' (after s c r w) → stage n live B' ks' (after s c r w).
Proof.
  intros (Hg & Ht & Hf & Ho & Hp) E Hn Hi Ho'. pose proof (neutral_after (λ g, g) s c r w E Hn) as Hn'.
  split_and!; [done|by eapply threads_neutral|by eapply idle_after|done|].
  intros HP. eapply mishaps_moves; [by apply Hp|]. apply (proj2 (proj2 Hn') []).
Qed.

(** ** Classes (classifier.c) *)

Lemma build_cos_ok n live B ks name group s :
  stage n live B ks s → wp (build_cos_w_queue name group) (λ k s', stage n live B (k :: ks) s') s.
Proof.
  intros Hs. apply wp_bind, wp_callv. intros r w E. pose proof (stage_obj _ _ _ _ _ _ _ _ Hs E eq_refl eq_refl I) as H1.
  unfold obj_step, handle in H1. cbn [fst snd creates] in H1.
  destruct (Z.eqb_spec (r_val r) INVALID) as [Hr|Hr].
  { apply wp_ret. eapply stage_mono; [exact H1|set_solver|]. intros. by right. }
  set (q := r_val r) in *. set (s1 := after s _ r w) in *.
  eapply (cls_wp_quiet _ _ _ _ _ _ (λ _, True)); [exact H1|by apply cls_quiet_callv|apply any_callv|]. intros pool s2 _ H2.
  apply wp_bind, wp_callv. intros r3 w3 E3. set (s3 := after s2 _ r3 w3).
  destruct (Z.eqb_spec (r_val r3) INVALID) as [Hr3|Hr3].
  - assert (H3 : stage n live ({[(K_queue, q)]} ∪ B) ks s3).
    { eapply cls_stage_call; [exact H2|exact E3|done..|]. eapply owning_class_refused; [apply H2|exact E3|done]. }
    rewrite Hr3. apply wp_bind, wp_call_. intros r4 w4 E4. set (s4 := after s3 _ r4 w4).
    assert (H4 : stage n live ({[(K_queue, q)]} ∪ B) ks s4).
    { eapply cls_stage_call; [exact H3|exact E4|done..|]. eapply owning_class_destroyed; [|exact E4|by right].
      eapply owning_mono; [apply H3|done|]. intros. by right. }
    apply wp_bind, wp_call_. intros r5 w5 E5. apply wp_ret.
    pose proof (stage_obj _ _ _ _ _ _ _ _ H4 E5 eq_refl eq_refl I) as H5. unfold obj_step in H5. cbn [fst creates destroys] in H5.
    eapply stage_mono; [exact H5|set_solver|]. intros. by right.
  - apply wp_ret. eapply cls_stage_call; [exact H2|exact E3|done..|]. eapply owning_class_created; [apply H2|exact E3|done].
Qed.

Lemma destroy_class_ok n live B k ks s :
  stage n live B (k :: ks) s → wp (destroy_class k) (λ _ s', stage n live B ks s') s.
Proof.
  intros Hs. apply wp_bind, wp_callv. intros r w E. set (s1 := after s _ r w).
  assert (Hq : quiet s s1) by (by apply (quiet_after s (A_cos_queue k) r w)).
  pose proof (cls_stage_quiet _ _ _ _ _ _ Hs Hq) as H1.
  assert (Hlive : ∀ q, cos_live (world s1) !! k = Some q → r_val r = q).
  { intros q. rewrite (proj2 (proj2 Hq)). exact (cos_queue_law _ _ _ _ _ E). }
  assert (Hgo : ∀ s2, stage n live B (k :: ks) s2 → cos_live (world s2) = cos_live (world s1) →
    ((K_queue, r_val r) ∉ objects (trace s2)) → wp (call_ (A_cos_destroy k)) (λ _ s', stage n live B ks s') s2).
  { intros s2 H2 Hl Hno. apply wp_call_. intros r2 w2 E2. eapply cls_stage_call; [exact H2|exact E2|done..|].
    eapply owning_class_destroyed; [apply H2|exact E2|left]. intros q Hq'. rewrite Hl in Hq'. by rewrite <- (Hlive q Hq'). }
  apply wp_bind. destruct (Z.eqb_spec (r_val r) INVALID) as [Hr|Hr]; cbn [negb when].
  - apply wp_ret, Hgo; [done|done|]. rewrite Hr. apply no_invalid_queue.
  - apply wp_call_. intros r2 w2 E2. pose proof (stage_obj _ _ _ _ _ _ _ _ H1 E2 eq_refl eq_refl I) as H2.
    apply Hgo; [eapply stage_mono; [exact H2|unfold obj_step; cbn [fst creates destroys]; set_solver|done]|by apply (cos_other _ _ _ _ E2)|].
    cbn [trace after]. rewrite objects_snoc. unfold obj_step. cbn [fst creates destroys]. set_solver.
Qed.

(** The classes of the classifier. *)
Definition classes (c : classif_t) : list Z := cos_udp c :: cos_def c.

Lemma cleanup_classifier_ok n live B c s :
  stage n live B (classes c) s → length (cos_def c) = Z.to_nat NFP_FP_INTERFACE_MAX →
  wp (cleanup_classifier c) (λ _ s', stage n live B [] s') s.
Proof.
  intros Hs Hlen. apply wp_bind.
  eapply wp_mono; [|apply (wp_for_from _ (λ i s', stage n live B (cos_udp c :: drop (Z.to_nat i) (cos_def c)) s'))].
  - intros [] s1 H1. rewrite Z.add_0_l, Nat2Z.id, drop_ge in H1 by lia.
    destruct (Z.eqb_spec (cos_udp c) INVALID) as [Hc|Hc]; cbn [negb when].
    + apply wp_ret. eapply stage_mono; [exact H1|done|]. intros k [->|?]%elem_of_cons; done.
    + apply wp_bind. destruct (pmr_udp c =? INVALID); cbn [negb when]; [by apply wp_ret, destroy_class_ok|].
      apply wp_call_. intros r w E. pose proof (stage_obj _ _ _ _ _ _ _ _ H1 E eq_refl eq_refl I) as H2.
      apply destroy_class_ok. eapply stage_mono; [exact H2|unfold obj_step; cbn [fst creates destroys]; set_solver|done].
  - done.
  - intros i s1 Hi H1. destruct (lookup_lt_is_Some_2 (cos_def c) (Z.to_nat i)) as [k Hk]; [lia|].
    apply wp_bind. eapply wp_of_option; [exact Hk|]. rewrite (drop_S _ _ _ Hk) in H1.
    replace (Z.to_nat (i + 1)) with (S (Z.to_nat i)) by lia. destruct (Z.eqb_spec k INVALID) as [Hn|Hn]; cbn [negb when].
    + apply wp_ret. eapply stage_mono; [exact H1|done|]. intros x [->|[->|?]%elem_of_cons]%elem_of_cons ?; [by left|done|by right].
    + apply destroy_class_ok. eapply stage_mono; [exact H1|done|]. intros x [->|[->|?]%elem_of_cons]%elem_of_cons ?;
        [right; by left|by left|right; by right].
Qed.

(** From entry [i] on there are no classes yet. *)
Definition blank_from (i : Z) (c : classif_t) : Prop :=
  length (cos_def c) = Z.to_nat NFP_FP_INTERFACE_MAX ∧
  ∀ j k, i ≤ Z.of_nat j → cos_def c !! j = Some k → k = INVALID.

Lemma attach_ok n live B ks pktio c cos s :
  stage n live B ks s →
  wp (attach_class pktio c cos) (λ o s', (o = inl c ∨ o = inr c) ∧ stage n live B ks s') s.
Proof.
  intros Hs. eapply (cls_wp_quiet _ _ _ _ _ _ (λ _, True)); [exact Hs|by apply cls_quiet_callv|apply any_callv|]. intros d s1 _ H1.
  destruct (_ <? 0); [apply wp_ret; auto|].
  eapply (cls_wp_quiet _ _ _ _ _ _ (λ _, True)); [exact H1|by apply cls_quiet_callv|apply any_callv|]. intros e s2 _ H2.
  destruct (_ <? 0); [apply wp_ret; auto|]. apply wp_bind, wp_callv. intros r w E.
  assert (H3 : stage n live B ks (after s2 (A_pmr_create (odp_cpu_to_be_16 TEST_PORT) 0xffff cos (cos_udp c)) r w)).
  { eapply cls_stage_call; [exact H2|exact E|done..|]. intros x Hx.
    pose proof (owning_after _ _ _ _ _ _ (proj1 (proj2 (proj2 (proj2 H2)))) E I x Hx) as [Hb|?]; [|by right].
    unfold obj_step, handle in Hb. cbn [fst snd creates] in Hb. apply elem_of_union in Hb as [Hb|?]; [|by left].
    right. left. case_match; [set_solver|]. by apply elem_of_singleton in Hb as ->. }
  destruct (_ =? INVALID); apply wp_ret; auto.
Qed.

Context (es : list CliArgParse.appl_arg_if) (listed_g : listed (heap g) es).

Lemma stage_name {A} n live B ks i (f : bytes → M st A) Q U s :
  stage n live B ks s → 0 ≤ i < Z.of_nat (length es) →
  (∀ name s', stage n live B ks s' → may (f name) Q U s') → may (FpmDirect.interface_name i ≫= f) Q U s.
Proof using listed_g.
  intros Hs Hi Hf. apply may_bind, may_wp. eapply wp_mono; [|apply wp_keeps; [apply cls_quiet_name|]].
  - intros name s' [_ Hq]. apply Hf. by eapply cls_stage_quiet.
  - eapply (FpmDirectStart.interface_name_ok s es i (λ _ _, True)); [|done|done]. by rewrite (proj1 Hs).
Qed.

(** A quiet call, then the rest. *)
Lemma may_quiet {A B'} n live B ks (c : M st A) (f : A → M st B') Q U s :
  stage n live B ks s → keeps quiet c → wp c (λ _ _, True) s →
  (∀ a s', stage n live B ks s' → may (f a) Q U s') → may (c ≫= f) Q U s.
Proof.
  intros Hs Hk Hw Hf. apply may_bind, may_wp. eapply wp_mono; [|by apply wp_keeps; [exact Hk|exact Hw]].
  intros a s' [_ ?]. apply Hf. by eapply cls_stage_quiet.
Qed.

Lemma classes_store c i cos :
  blank_from i c → 0 ≤ i → ∀ k, k ∈ cos :: classes c → k ≠ INVALID →
  i < NFP_FP_INTERFACE_MAX → k ∈ cos_udp c :: <[Z.to_nat i := cos]> (cos_def c).
Proof.
  intros [Hlen Hb] Hi k Hk Hn Hmax. apply elem_of_cons in Hk as [->|[->|[j Hj]%list_elem_of_lookup]%elem_of_cons]; [|by left|].
  - right. apply list_elem_of_lookup. exists (Z.to_nat i). apply list_lookup_insert_eq. lia.
  - right. apply list_elem_of_lookup. exists j. rewrite list_lookup_insert_ne; [done|]. intros <-. apply Hn, (Hb (Z.to_nat i)); [lia|done].
Qed.

Lemma mishaps_quiet s s' : mishaps s → quiet s s' → mishaps s'.
Proof. intros Hm [[(_ & _ & Hn) _] _]. eapply mishaps_moves; [exact Hm|apply (Hn [])]. Qed.

(** One turn of the loop, and the loop. *)
Definition building (n : nat) live B (i : Z) (r : classif_t + classif_t) s : Prop :=
  match r with
  | inl c => blank_from i c ∧ stage n live B (classes c) s
  | inr c => length (cos_def c) = Z.to_nat NFP_FP_INTERFACE_MAX ∧ stage n live B (classes c) s
  end.

Lemma build_interface_ok n live B group i c s :
  stage n live B (classes c) s → blank_from i c → 0 ≤ i < Z.of_nat (length es) → i < NFP_FP_INTERFACE_MAX →
  may (build_interface group i c) (building n live B (i + 1)) mishaps s.
Proof using listed_g.
  intros Hs Hb Hi Hmax. eapply stage_name; [exact Hs|done|]. intros name s1 H1.
  assert (Hbad : ∀ s', quiet s1 s' → may (mret (inr c) : M st (classif_t + classif_t)) (building n live B (i + 1)) mishaps s').
  { intros s' Hq. apply may_wp, wp_ret. split; [apply Hb|by eapply cls_stage_quiet]. }
  apply may_bind, may_wp, wp_callv. intros r w E. set (s2 := after s1 _ r w).
  assert (Hq2 : quiet s1 s2) by (by apply (quiet_after s1 (A_ifnet_get_by_name name) r w)).
  destruct (_ =? DefaultApp.NFP_IFNET_INVALID); [by apply Hbad|].
  apply may_bind, may_wp, wp_call. intros port w3 E3. set (s3 := after s2 _ port w3).
  assert (Hq3 : quiet s2 s3) by (by apply (quiet_after s2 (A_ifnet_port_get (r_val r)) port w3)).
  destruct (negb _); [apply Hbad; by etrans|].
  apply may_bind, may_wp, wp_callv. intros pktio w4 E4. set (s4 := after s3 _ pktio w4).
  assert (Hq4 : quiet s3 s4) by (by apply (quiet_after s3 (A_port_pktio (r_out port)) pktio w4)).
  destruct (_ =? 0); [apply Hbad; do 2 (etrans; [eassumption|]); done|]. apply may_bind. unfold class_name.
  destruct (Z.ltb_spec (Z.of_nat (length (text "cos_default_" ++ name))) NAME_LEN) as [Hl|Hl].
  - apply may_wp, wp_ret, may_bind, may_wp.
    eapply wp_mono; [|apply build_cos_ok; eapply cls_stage_quiet; [exact H1|do 2 (etrans; [eassumption|]); exact Hq4]].
    intros cos s5 H5. apply may_bind, may_wp, FpmDirectStart.store_ok; [destruct Hb as [-> _]; lia|].
    set (c1 := Classif _ _ _).
    assert (H6 : stage n live B (classes c1) s5).
    { eapply stage_mono; [exact H5|done|]. intros k Hk Hn. exact (classes_store c i cos Hb (proj1 Hi) k Hk Hn Hmax). }
    assert (Hlen : length (cos_def c1) = Z.to_nat NFP_FP_INTERFACE_MAX) by (cbn [c1 cos_def]; rewrite length_insert; apply Hb).
    destruct (cos =? INVALID); [by apply may_wp, wp_ret|]. apply may_wp.
    eapply wp_mono; [|by apply attach_ok]. intros o s6 [[-> | ->] H7]; [|by split]. split; [|done]. split; [done|].
    intros j k Hj. cbn [c1 cos_def]. rewrite list_lookup_insert_ne by lia. apply Hb. lia.
  - apply may_stuck. eapply (mishaps_quiet s2); [|by etrans]. rewrite length_app in Hl. unfold NAME_LEN in Hl. simpl length in Hl.
    eapply mishaps_call; [exact H1|]. unfold mishap. simpl. lia.
Qed.

Lemma build_classifier_ok n live B group_cls group_workers s :
  stage n live B [] s → Z.of_nat (length es) ≤ NFP_FP_INTERFACE_MAX →
  may (build_classifier group_cls group_workers init_classifier)
    (λ r s', length (cos_def r.2) = Z.to_nat NFP_FP_INTERFACE_MAX ∧ stage n live B (classes r.2) s') mishaps s.
Proof using listed_g.
  intros Hs Hmax. apply may_bind, may_wp. eapply wp_mono; [|by apply build_cos_ok]. intros cos s1 H1.
  set (c := Classif _ _ _).
  assert (Hb : blank_from 0 c).
  { split; [apply length_replicate|]. intros j k _ [-> _]%lookup_replicate. done. }
  assert (H2 : stage n live B (classes c) s1).
  { eapply stage_mono; [exact H1|done|]. intros k [->|[]%not_elem_of_nil]%elem_of_cons _. by left. }
  destruct (cos =? INVALID); [apply may_wp, wp_ret; split; [apply Hb|done]|].
  apply may_bind, may_wp, wp_getg. pose proof (proj1 listed_g) as Hn. cbn [heap_of cls_heap]. rewrite (proj1 H2), Hn.
  apply may_bind. eapply may_mono; [|apply (may_for_ret _ (λ i c' s', building n live B i (inl c') s')
    (λ c' s', building n live B 0 (inr c') s'))].
  - intros [c'|c'] s' Hr; apply may_wp, wp_ret; [|done]. destruct Hr as [[? _] ?]. by split.
  - by split.
  - intros i c' s' Hi [Hb' H']. eapply may_mono; [|apply build_interface_ok; [exact H'|done|lia|lia]]. by intros [?|?] ? ?.
Qed.
End Objects.

End ClassifierObjects.
