(* ===== verification/ClassifierStart.v ===== *)
(** * Classified traffic: start and end

    The command line and [main] of example/classifier/classifier_main.c. *)

From S2P Require Import Prelude App AppProofs AppHeap Resources HttpdTheorems CliArgParse CliArgParseProofs ArgHeap ArgOptions TcpPerfProofs FpmDirect FpmDirectStart DefaultApp DefaultAppProofs DefaultAppStart UdpTerm UdpTermStart Classifier ClassifierProofs ClassifierObjects.
Import App AppProofs AppHeap Resources HttpdTheorems ArgHeap ArgOptions Classifier ClassifierObjects.
Import DefaultAppProofs(calm, calm_keeps).

Module ClassifierStart.

(** ** Command line *)

Definition slots (a : appl_args_t) : list (Z * option positive) := [(102, cli_file a)].
Local Abbreviation parsed := (ArgOptions.parsed slots (λ _, True)).
Local Abbreviation result := (ArgOptions.result slots (λ _, True)).
Local Abbreviation opt_ok := (DefaultAppStart.opt_ok [99; 102; 105; 109]).

(** After [-h]: the interfaces are released. *)
Definition quit (b0 : memory) (c : Z) (h : CliArgParse.state) : Prop := c = EXIT_SUCCESS ∧ spare 1 b0 h.

Lemma cls_option_ok b0 fuel o a h :
  parsed b0 a h → opt_ok b0 fuel o → unset slots a h o.1 →
  ends (parse_option fuel o a) (result b0 o.1 a h) (quit b0) h.
Proof.
  intros Hp Hok Hun. unfold parse_option. destruct o as [c arg]. cbn [fst snd] in *. pose proof Hp as [Hh _].
  assert (Hsame : ∀ a' rc, slots a' = slots a → rc = 0 ∨ rc = -1 → result b0 c a h (rc, a') h).
  { intros a' rc Hs Hrc. by apply plain_option. }
  destruct (Z.eqb_spec c 99) as [->|].
  { apply ends_wp, wp_bind. eapply (atoi_ok b0 fuel arg); [done|apply Hok; set_solver|]. intros t Ht.
    apply wp_ret, Hsame; auto. }
  destruct (Z.eqb_spec c 105) as [->|]; [apply ends_wp, interfaces_option_ok; [done|apply Hok; set_solver|done]|].
  destruct (Z.eqb_spec c 104) as [->|].
  { apply ends_bind, ends_wp. eapply wp_mono; [|by eapply cleanup_kept, (ArgOptions.options_kept _ _ _ a)].
    intros [] h' Hc. by apply ends_exit. }
  destruct (Z.eqb_spec c 102) as [->|].
  { apply ends_wp. eapply copy_option_ok; [done|apply Hok; set_solver|done| |done].
    by exists [], (cli_file a), []. }
  destruct (Z.eqb_spec c 109) as [->|]; [|apply ends_wp, wp_ret, Hsame; auto].
  apply ends_wp, wp_bind. eapply UdpTermStart.number_option_ok; [done|apply Hok; set_solver|].
  intros [?|]; apply wp_ret, Hsame; auto. destruct (_ <=? _); auto.
Qed.

(** What a command line that is accepted gives. *)
Definition accepted (b0 : memory) (a : appl_args_t) (h : CliArgParse.state) : Prop :=
  parsed b0 a h ∧ 1 ≤ CliArgParse.if_count h ≤ NFP_FP_INTERFACE_MAX.

Lemma cls_args_ok b0 fuel opts h :
  ready b0 h → Forall (opt_ok b0 fuel) opts → NoDup opts.*1 →
  ends (parse_args fuel opts) (λ p h', p.1 = EXIT_SUCCESS ∧ accepted b0 p.2 h' ∨
    p.1 = EXIT_FAILURE ∧ spare 1 b0 h') (quit b0) h.
Proof.
  intros Hr Hok Hnd. unfold parse_args.
  eapply (read_options_ok slots (λ _, True) b0 (parse_option fuel) (opt_ok b0 fuel));
    [|done|by repeat constructor|done..|].
  { intros. by apply cls_option_ok. }
  intros [rc a] h' _ Hp. cbn [fst snd] in *. apply ends_wp.
  assert (Hfail : wp (parse_args_cleanup;; mret (EXIT_FAILURE, a)) (λ p h',
    p.1 = EXIT_SUCCESS ∧ accepted b0 p.2 h' ∨ p.1 = EXIT_FAILURE ∧ spare 1 b0 h') h').
  { apply wp_bind. eapply wp_mono; [|by eapply cleanup_kept, (ArgOptions.options_kept _ _ _ a)].
    intros [] h2 Hc. apply wp_ret. by right. }
  destruct (rc =? -1); [done|]. apply wp_bind, wp_gets. pose proof (holds_count _ _ _ (proj1 Hp)) as Hnn.
  destruct (Z.eqb_spec (CliArgParse.if_count h') 0); [done|].
  destruct (Z.ltb_spec NFP_FP_INTERFACE_MAX (CliArgParse.if_count h')); [done|].
  apply wp_ret. left. split; [done|]. split; [done|lia].
Qed.

(** ** [main] *)

Section Main.
Context {W F : Type} `{!App W F, !SocketLaws W F, !CosLaws W F}.
Context (b0 : memory) (o0 : gset Z) (fuel : nat).
Local Abbreviation st := (app W F cls_t).
Implicit Types (s : st).
Local Abbreviation fine live := (AppProofs.fine any o0 live fuel).

(** A dispatcher could not be started. *)
Definition unstarted (e : event F) : Prop :=
  match e.1 with
  | A_threads_create _ n => r_val e.2 ≠ n
  | A_thread_create f _ => f = THREAD_worker_classif_dispatcher ∧ r_val e.2 ≠ 1
  | _ => False
  end.
Definition refused s0 s : Prop := ∃ t, trace s = trace s0 ++ t ∧ Exists unstarted t.

(** All has been given back but the copied option and the rules; the channel
    is left if a dispatcher could not be started. *)
Definition over s0 s : Prop :=
  spare 1 b0 (heap (glob s)) ∧ moves s0 [] s [] ∧ fine o0 s ∧
  ∀ x, x ∈ objects (trace s) → x ∈ objects (trace s0) ∨ x.1 = K_rule ∨ x.1 = K_channel ∧ refused s0 s.

(** *** The record only grows *)

Definition grows s s' : Prop := ∃ t, trace s' = trace s ++ t.

#[export] Instance grows_preorder : PreOrder grows.
Proof.
  split; [intros s; exists []; by rewrite app_nil_r|]. intros s1 s2 s3 [t Ht] [t' Ht']. exists (t ++ t').
  by rewrite Ht', Ht, app_assoc.
Qed.

Lemma grows_call c : keeps grows (call c : M st _).
Proof.
  intros s a s' H. unfold call in H. destruct (api c (world s)) as [r w]. injection H as <- <-. by eexists.
Qed.
Lemma grows_on_heap {A} (c : M CliArgParse.state A) : keeps grows (on_heap c : M st A).
Proof.
  intros s a s' H. unfold on_heap in H. destruct (c (heap_of (glob s))) as [o h]. injection H as -> <-.
  exists []. by rewrite app_nil_r.
Qed.
Hint Resolve grows_call grows_on_heap : keeps.

Lemma grows_finish rc c gw gc : keeps grows (finish rc c gw gc : M st Z).
Proof. unfold finish, cleanup_classifier, destroy_class, callv, call_. frame. Qed.

Lemma refused_grows s0 s s' : refused s0 s → grows s s' → refused s0 s'.
Proof.
  intros (t & Ht & He) [t' Ht']. exists (t ++ t'). split; [by rewrite Ht', Ht, app_assoc|]. apply Exists_app. by left.
Qed.

Section Staged.
Context (s0 : st) (g : cls_t) (P : Prop) (kept_g : kept 1 b0 (heap g)).
Local Abbreviation stage := (stage o0 fuel s0 g P).
Local Abbreviation B0 := (objects (trace s0)).
Local Abbreviation group := (handle K_group INVALID).
Local Abbreviation channel := (handle K_channel NFP_CHANNEL_INVALID).

(** What [main] may return with: [rc], all given back. *)
Definition ends_as (rc : Z) (r : Z) s : Prop := r = rc ∧ over s0 s.

(** A call about threads. *)
Lemma stage_threads n n' live B ks s c r w :
  stage n live B ks s → api c (world s) = (r, w) → idle_call c = true → obj_call c = false →
  with_threads n' s0 (after s c r w) → stage n' live B ks (after s c r w).
Proof.
  intros (Hg & Ht & Hf & Ho & Hp) E Hi Hc Ht'. split_and!; [done|done|by eapply idle_after|by eapply owning_still, still_after|].
  intros HP. destruct (Hp HP) as (t & Htr & He). exists (t ++ [(c, r)]). split; [simpl; by rewrite Htr, app_assoc|].
  apply Exists_app. by left.
Qed.

Lemma cls_stage_join {B'} n live B ks s m (k : M st B') Q :
  stage n live B ks s → (∀ s', stage (n - Z.to_nat m) live B ks s' → wp k Q s') →
  wp (call_ (A_thread_join m);; k) Q s.
Proof.
  intros Hs Hk. apply wp_bind, wp_call_. intros r w E. apply Hk. eapply stage_threads; [exact Hs|done..|].
  by apply threads_join, Hs.
Qed.

Lemma cls_stage_stop {B'} n live B ks s (k : M st B') Q :
  stage n live B ks s → (∀ s', stage n live B ks s' → wp k Q s') → wp (call_ A_stop_processing;; k) Q s.
Proof.
  intros Hs Hk. eapply (cls_wp_quiet o0 fuel s0 g P _ _ _ _ _ _ (λ _, True)); [exact Hs|by apply cls_quiet_call_|apply any_call_|]. auto.
Qed.

Lemma cls_stage_create {B'} n live B ks s f i (k : Z → M st B') Q :
  stage n live B ks s → (∀ rc s', stage (if rc =? 1 then S n else n) live B ks s' → wp (k rc) Q s') →
  wp (rc ← callv (A_thread_create f i); k rc) Q s.
Proof.
  intros Hs Hk. apply wp_bind, wp_callv. intros r w E. apply Hk. eapply stage_threads; [exact Hs|done..|].
  destruct (Z.eqb_spec (r_val r) 1); [by apply threads_create, Hs|by apply threads_failed; [apply Hs|]].
Qed.

(** A descriptor is used. *)
Lemma cls_stage_plain n live B ks s c r w :
  stage n live B ks s → api c (world s) = (r, w) → plain c = true → neutral_call c = true → obj_call c = false →
  (∀ fd, uses c = Some fd → fd ∈ live) → stage n live B ks (after s c r w).
Proof.
  intros (Hg & Ht & Hf & Ho & Hp) E Hpl Hn Hc Hu. pose proof (neutral_after (λ g, g) s c r w E Hn) as Hn'.
  split_and!; [done|by eapply threads_neutral|by apply plain_call|by eapply owning_still, still_after|].
  intros HP. destruct (Hp HP) as (t & Htr & He). exists (t ++ [(c, r)]). split; [simpl; by rewrite Htr, app_assoc|].
  apply Exists_app. by left.
Qed.

(** *** The end *)

Lemma cls_group_ok n live B ks x s :
  stage n live (group x ∪ B) ks s →
  wp (when (negb (x =? INVALID)) (call_ (A_sched_group_destroy x))) (λ _ s', stage n live B ks s') s.
Proof.
  intros Hs. unfold handle in Hs. destruct (Z.eqb_spec x INVALID); cbn [negb when].
  - apply wp_ret. eapply stage_mono; [exact Hs|set_solver|done].
  - apply wp_call_. intros r w E. pose proof (stage_obj _ _ _ _ _ _ _ _ _ _ _ _ _ Hs E eq_refl eq_refl I) as H1.
    eapply stage_mono; [exact H1|unfold obj_step; cbn [fst creates destroys]; set_solver|done].
Qed.

Lemma channel_ok n live B ks chn s :
  stage n live (channel chn ∪ B) ks s → wp (cleanup_channel chn) (λ _ s', stage n live B ks s') s.
Proof.
  intros Hs. unfold handle, cleanup_channel in *. destruct (Z.eqb_spec chn NFP_CHANNEL_INVALID).
  - apply wp_ret. eapply stage_mono; [exact Hs|set_solver|done].
  - apply wp_callv. intros r w E. pose proof (stage_obj _ _ _ _ _ _ _ _ _ _ _ _ _ Hs E eq_refl eq_refl I) as H1.
    eapply stage_mono; [exact H1|unfold obj_step; cbn [fst creates destroys]; set_solver|done].
Qed.

Lemma cls_finish_ok X rc c gw gc s :
  stage 0 o0 (group gw ∪ (group gc ∪ (X ∪ B0))) (classes c) s → length (cos_def c) = Z.to_nat NFP_FP_INTERFACE_MAX →
  (∀ x, x ∈ X → x.1 = K_channel ∧ refused s0 s) → wp (finish rc c gw gc) (ends_as rc) s.
Proof using kept_g.
  intros Hs Hlen HX.
  enough (wp (finish rc c gw gc) (λ r s', r = rc ∧ spare 1 b0 (heap (glob s')) ∧ moves s0 [] s' [] ∧ fine o0 s' ∧
    ∀ x, x ∈ objects (trace s') → x ∈ X ∪ B0 ∨ x.1 = K_rule) s) as Hw.
  { eapply wp_mono; [|apply wp_keeps; [apply grows_finish|exact Hw]]. intros r s' [(-> & Hsp & Hm & Hf & Ho) Hg].
    split; [done|]. split_and!; [done..|]. intros x [[Hx|?]%elem_of_union|?]%Ho; [right; right|by left|by right; left].
    destruct (HX x Hx) as [? Href]. split; [done|by eapply refused_grows]. }
  apply wp_bind. eapply wp_mono; [|by apply cleanup_classifier_ok]. intros [] s1 H1.
  apply wp_bind. eapply wp_mono; [|by apply cls_group_ok]. intros [] s2 H2.
  apply wp_bind. eapply wp_mono; [|by apply cls_group_ok]. intros [] s3 (Hg & Hm%threads_none & Hf & Ho & _).
  apply wp_bind, wp_call_. intros r w E. apply wp_bind.
  eapply wp_mono; [|apply (release_ok 1 b0); cbn; by rewrite Hg]. intros [] s4 (Ht & Hw & Hsp). apply wp_ret.
  split; [done|]. split_and!; [done| | |].
  - eapply moves_trans; [exact Hm|]. exists [(A_terminate, r)]. by rewrite Ht.
  - apply (idle_same (after s3 A_terminate r w)); [done|done|]. by eapply idle_after.
  - intros x Hx. rewrite Ht in Hx. cbn [trace after] in Hx. rewrite objects_snoc in Hx.
    destruct (Ho x Hx) as [?|[?|(k & q & Hk & _)]]; [by left|by right|]. by apply elem_of_nil in Hk.
Qed.

(** The socket that may be there. *)
Definition socket (sd : Z) : gset Z := if sd =? -1 then o0 else {[sd]} ∪ o0.

Lemma cls_stage_close n B ks s x r w :
  stage n ({[x]} ∪ o0) B ks s → (x ∉ o0) → api (A_close x) (world s) = (r, w) →
  stage n o0 B ks (after s (A_close x) r w).
Proof.
  intros (Hg & Ht & Hf & Ho & Hp) Hx E. pose proof (neutral_after (λ g, g) s (A_close x) r w E eq_refl) as Hn.
  split_and!; [done|by eapply threads_neutral| |by eapply owning_still, still_after|].
  - exact (proj1 (acts_close o0 fuel x o0 s [] s r w (acts_refl o0 fuel _ s Hf) Hx E)).
  - intros HP. destruct (Hp HP) as (t & Htr & He). exists (t ++ [(A_close x, r)]).
    split; [simpl; by rewrite Htr, app_assoc|]. apply Exists_app. by left.
Qed.

Lemma cleanup_posix_ok n B ks sd s :
  stage n (socket sd) B ks s → (sd ≠ -1 → sd ∉ o0) → wp (cleanup_posix sd) (λ _ s', stage n o0 B ks s') s.
Proof.
  unfold socket, cleanup_posix. intros Hs Hn. destruct (Z.eqb_spec sd (-1)); [by apply wp_ret|].
  apply wp_callv. intros r w E. apply cls_stage_close; [done|by apply Hn|done].
Qed.

Lemma join_workers_ok rc c gw gc sd chn num s :
  stage (S (Z.to_nat num)) (socket sd) (channel chn ∪ (group gw ∪ (group gc ∪ B0))) (classes c) s →
  length (cos_def c) = Z.to_nat NFP_FP_INTERFACE_MAX → (sd ≠ -1 → sd ∉ o0) →
  wp (join_workers rc c gw gc sd chn num) (ends_as rc) s.
Proof using kept_g.
  intros Hs Hlen Hsd. apply wp_bind. eapply wp_mono; [|by apply cleanup_posix_ok]. intros c1 s1 H1. cbn beta in H1.
  apply wp_bind. eapply wp_mono; [|eapply channel_ok; exact H1]. intros c2 s2 H2. cbn beta in H2.
  eapply cls_stage_stop; [exact H2|]. intros s3 H3. eapply cls_stage_join; [exact H3|]. intros s4 H4.
  eapply cls_stage_join; [exact H4|]. intros s5 H5. apply (cls_finish_ok ∅); [|done|set_solver]. rewrite (left_id_L ∅ (∪)).
  by replace (S (Z.to_nat num) - Z.to_nat num - Z.to_nat 1)%nat with 0%nat in H5 by lia.
Qed.

(** *** Traffic *)

Context (SocketValue0 : DefaultAppStart.SocketValue W F).

Lemma cls_stage_fuel n live B ks s : stage n live B ks s → 2048 + Z.of_nat (budget (world s)) < Z.of_nat fuel.
Proof. by intros (_ & _ & (_ & He & _) & _). Qed.

Lemma cls_bind_ok n B ks fd addr s :
  stage n ({[fd]} ∪ o0) B ks s →
  wp (loop fuel (bind_step fd addr) 10) (λ _ s', stage n ({[fd]} ∪ o0) B ks s') s.
Proof.
  intros Hs. pose proof (cls_stage_fuel _ _ _ _ _ Hs) as Hfuel.
  apply (wp_loop _ (λ retry s', stage n ({[fd]} ∪ o0) B ks s') (λ retry _, Z.to_nat retry)); [|done|lia].
  intros retry s1 H1. apply wp_bind, wp_callv. intros r w E.
  assert (H2 : stage n ({[fd]} ∪ o0) B ks (after s1 (A_bind fd addr) r w)).
  { eapply cls_stage_plain; [exact H1|done..|]. intros ? [= <-]. clear. set_solver. }
  eapply (cls_wp_quiet o0 fuel s0 g P _ _ _ _ _ _ (λ _, True)); [exact H2| | |].
  - apply keeps_when; [apply _|by apply cls_quiet_call_].
  - destruct (r_val r =? -1); cbn [when]; [apply any_call_|by apply wp_ret].
  - intros [] s3 _ H3. destruct ((r_val r =? -1) && (0 <? retry - 1)) eqn:Hc; apply wp_ret; [|done]. split; [done|].
    apply andb_prop in Hc as [_ Hc%Z.ltb_lt]. lia.
Qed.

Lemma init_posix_ok n B ks port s :
  stage n o0 B ks s →
  wp (init_posix fuel port) (λ sd s', stage n (socket sd) B ks s' ∧ (sd ≠ -1 → sd ∉ o0)) s.
Proof using SocketValue0.
  intros Hs.
  assert (Hnone : ∀ s', stage n o0 B ks s' →
    wp (mret (-1)) (λ sd s', stage n (socket sd) B ks s' ∧ (sd ≠ -1 → sd ∉ o0)) s') by (intros s' H'; by apply wp_ret).
  eapply (cls_wp_quiet o0 fuel s0 g P _ _ _ _ _ _ (λ _, True)); [exact Hs|by apply cls_quiet_callv|apply any_callv|]. intros ifnet s1 _ H1.
  destruct (ifnet =? _); [by apply Hnone|].
  apply wp_bind, wp_callv. intros r w E. pose proof (SocketValue0 _ _ _ _ _ _ E) as Hv. set (s2 := after s1 _ r w).
  pose proof (socket_call _ _ _ _ _ _ _ _ (proj1 (proj2 (proj2 H1))) E) as Hso.
  assert (H2 : ∀ live, fine live s2 → stage n live B ks s2).
  { intros live Hl. destruct H1 as (Hg & Ht & _ & Ho & Hp). pose proof (neutral_after (λ g, g) s1 _ r w E eq_refl) as Hn'.
    split_and!; [done|by eapply threads_neutral|done|by eapply owning_still, still_after|].
    intros HP. destruct (Hp HP) as (t & Htr & He). eexists. split; [cbn [s2 trace after]; by rewrite Htr, <- app_assoc|].
    apply Exists_app. by left. }
  destruct (Z.eqb_spec (r_val r) (-1)) as [Hr|Hr]; [rewrite Hr in Hso; by apply Hnone, H2|].
  destruct (Z.ltb_spec (r_val r) 0); [lia|]. destruct Hso as [Hno Hf2%H2]. set (sd := r_val r) in *.
  assert (Hclose : ∀ s', stage n ({[sd]} ∪ o0) B ks s' →
    wp (call_ (A_close sd);; mret (-1)) (λ sd s', stage n (socket sd) B ks s' ∧ (sd ≠ -1 → sd ∉ o0)) s').
  { intros s' H'. apply wp_bind, wp_call_. intros r2 w2 E2. by apply Hnone, cls_stage_close. }
  eapply (cls_wp_quiet o0 fuel s0 g P _ _ _ _ _ _ (λ _, True)); [exact Hf2|by apply cls_quiet_call|apply any_call|]. intros ip s3 _ H3.
  destruct (negb _); [by apply Hclose|]. apply wp_bind. eapply wp_mono; [|by apply cls_bind_ok]. intros res s4 H4.
  destruct (res =? -1); [by apply Hclose|]. apply wp_ret. unfold socket. rewrite (proj2 (Z.eqb_neq _ _) Hr). by split.
Qed.

Context (items : list CliArgParseProofs.item) (lists_g : lists (heap g) items) (parsed_g : parsed b0 (params g) (heap g)).

Lemma run_traffic_ok c gw gc chn num s :
  stage (S (Z.to_nat num)) o0 (channel chn ∪ (group gw ∪ (group gc ∪ B0))) (classes c) s →
  length (cos_def c) = Z.to_nat NFP_FP_INTERFACE_MAX →
  wp (run_traffic fuel (params g) c gw gc chn num)
    (λ rc s', (rc = EXIT_SUCCESS ∨ rc = EXIT_FAILURE) ∧ over s0 s') s.
Proof using All.
  intros Hs Hlen.
  assert (Hjoin : ∀ rc sd s', rc = EXIT_SUCCESS ∨ rc = EXIT_FAILURE →
    stage (S (Z.to_nat num)) (socket sd) (channel chn ∪ (group gw ∪ (group gc ∪ B0))) (classes c) s' →
    (sd ≠ -1 → sd ∉ o0) → wp (join_workers rc c gw gc sd chn num)
      (λ rc s', (rc = EXIT_SUCCESS ∨ rc = EXIT_FAILURE) ∧ over s0 s') s').
  { intros rc sd s' Hrc H' Hsd. eapply wp_mono; [|by apply join_workers_ok]. by intros ? ? [-> ?]. }
  eapply (cls_wp_quiet o0 fuel s0 g P _ _ _ _ _ _ (λ _, True)); [exact Hs|apply cls_quiet_addresses| |].
  { eapply wp_mono; [|apply (DefaultAppProofs.configure_ok items)]; [done|]. cbn. by rewrite (proj1 Hs). }
  intros rc s1 _ H1. destruct (negb _); [by apply (Hjoin _ (-1)); [right| |]|].
  eapply (cls_wp_quiet o0 fuel s0 g P _ _ _ _ _ _ (λ _, True)); [exact H1|apply cls_quiet_arg| |].
  { eapply wp_mono; [|apply arg_string_ok]; [done|]. cbn. rewrite (proj1 H1).
    eapply (ArgOptions.parsed_readable slots _ b0 (params g) _ 102); [done|]. by left. }
  intros file s2 _ H2.
  eapply (cls_wp_quiet o0 fuel s0 g P _ _ _ _ _ _ (λ _, True)); [exact H2|by apply cls_quiet_callv|apply any_callv|]. intros rc3 s3 _ H3.
  destruct (negb _); [by apply (Hjoin _ (-1)); [right| |]|]. apply wp_bind.
  assert (Hsd : wp (if method (params g) =? METHOD_POSIX then init_posix fuel TEST_PORT else mret (-1))
    (λ sd s', stage (S (Z.to_nat num)) (socket sd) (channel chn ∪ (group gw ∪ (group gc ∪ B0))) (classes c) s' ∧
       (sd ≠ -1 → sd ∉ o0)) s3).
  { destruct (_ =? METHOD_POSIX); [by apply init_posix_ok|by apply wp_ret]. }
  eapply wp_mono; [|exact Hsd]. intros sd s4 [H4 Hno]. cbn beta.
  destruct (_ && _); [by apply Hjoin; [right| |]|].
  eapply cls_stage_create; [exact H4|]. intros t s5 H5. destruct (Z.eqb_spec t 1); cbn [negb]; [|by apply Hjoin; [right| |]].
  eapply (cls_wp_quiet o0 fuel s0 g P _ _ _ _ _ _ (λ _, True)); [exact H5|apply cls_quiet_stats| |].
  { pose proof (cls_stage_fuel _ _ _ _ _ H5). apply (UdpTermStart.stats_run (G := cls_t)). lia. }
  intros [] s6 _ H6. eapply cls_stage_join; [exact H6|]. intros s7 H7. apply Hjoin; [by left| |done].
  by replace (S (S (Z.to_nat num)) - Z.to_nat 1)%nat with (S (Z.to_nat num)) in H7 by lia.
Qed.

(** *** Threads *)

(** [main] returns, all given back, or gets stuck after a mishap. *)
Definition main_ends (rc : Z) s : Prop := (rc = EXIT_SUCCESS ∨ rc = EXIT_FAILURE) ∧ over s0 s.

Lemma may_finish c gw gc s :
  stage 0 o0 (group gw ∪ (group gc ∪ B0)) (classes c) s → length (cos_def c) = Z.to_nat NFP_FP_INTERFACE_MAX →
  may (finish EXIT_FAILURE c gw gc) main_ends (mishaps s0) s.
Proof using kept_g.
  intros Hs Hlen. apply may_wp. eapply wp_mono; [|apply (cls_finish_ok ∅); [by rewrite (left_id_L ∅ (∪))|done|by intros ? ?%elem_of_empty]].
  intros rc s' [-> ?]. split; [by right|done].
Qed.

(** Without dispatchers the channel is not destroyed. *)
Lemma unstarted_finish c gw gc chn s :
  stage 0 o0 (channel chn ∪ (group gw ∪ (group gc ∪ B0))) (classes c) s →
  length (cos_def c) = Z.to_nat NFP_FP_INTERFACE_MAX → refused s0 s →
  wp (finish EXIT_FAILURE c gw gc) main_ends s.
Proof using kept_g.
  intros Hs Hlen Href. eapply wp_mono; [|apply (cls_finish_ok (channel chn)); [|done|]].
  - intros rc s' [-> ?]. split; [by right|done].
  - eapply stage_mono; [exact Hs|clear; set_solver|done].
  - intros x Hx. split; [|done]. unfold handle in Hx. case_match; [by apply elem_of_empty in Hx|].
    by apply elem_of_singleton in Hx as ->.
Qed.

Lemma refused_call n live B ks s c r w : stage n live B ks s → unstarted (c, r) → refused s0 (after s c r w).
Proof.
  intros [t Ht]%stage_since Hu. exists (t ++ [(c, r)]). split; [simpl; by rewrite Ht, app_assoc|].
  apply Exists_app. right. by constructor.
Qed.

Lemma refused_quiet s s' : refused s0 s → quiet s s' → refused s0 s'.
Proof. intros Hr [[(_ & _ & Hn) _] _]. destruct (Hn []) as (t & Ht & _). eapply refused_grows; [done|by exists t]. Qed.

Lemma stop_unstarted (b : bool) c gw gc chn m s :
  stage (Z.to_nat m) o0 (channel chn ∪ (group gw ∪ (group gc ∪ B0))) (classes c) s →
  length (cos_def c) = Z.to_nat NFP_FP_INTERFACE_MAX → refused s0 s → (b = false → m = -1) →
  wp (call_ A_stop_processing;; when b (call_ (A_thread_join m));; finish EXIT_FAILURE c gw gc) main_ends s.
Proof using kept_g.
  intros Hs Hlen Href Hm. apply wp_bind.
  eapply wp_mono; [|apply wp_keeps; [by apply (cls_quiet_call_ A_stop_processing)|apply any_call_]]. intros [] s2 [_ Hq].
  pose proof (cls_stage_quiet _ _ _ _ _ _ _ _ _ _ _ Hs Hq) as H2. pose proof (refused_quiet _ _ Href Hq) as Hr2.
  apply wp_bind. destruct b; cbn [when].
  - apply wp_call_. intros r3 w3 E3. apply (unstarted_finish c gw gc chn); [|done|].
    + eapply stage_threads; [exact H2|exact E3|done..|]. replace 0%nat with (Z.to_nat m - Z.to_nat m)%nat by lia.
      by apply threads_join, H2.
    + eapply refused_grows; [exact Hr2|]. by eexists.
  - rewrite (Hm eq_refl) in H2. by apply wp_ret, (unstarted_finish c gw gc chn).
Qed.

Lemma start_threads_ok c gw gc chn num s :
  stage 0 o0 (channel chn ∪ (group gw ∪ (group gc ∪ B0))) (classes c) s →
  length (cos_def c) = Z.to_nat NFP_FP_INTERFACE_MAX → (MAX_WORKERS < num → P) →
  may (start_threads fuel (params g) c gw gc chn num) main_ends (mishaps s0) s.
Proof using All.
  intros Hs Hlen HP. apply may_bind. destruct (Z.ltb_spec MAX_WORKERS num) as [Hn|Hn]; cbn [when].
  { apply may_stuck. by apply Hs, HP. }
  apply may_wp, wp_ret, may_wp, wp_bind, wp_callv. intros r w E.
  pose proof (threads_create_many 0 _ _ THREAD_worker_dispatcher num r w (proj1 (proj2 Hs))) as Ht.
  eapply (stage_threads _ _ _ _ _ _ (A_threads_create THREAD_worker_dispatcher num)) in Ht; [|exact Hs|exact E|done..].
  pose proof (refused_call _ _ _ _ _ (A_threads_create THREAD_worker_dispatcher num) r w Hs) as Href.
  set (s1 := after s _ r w) in *.
  destruct (Z.eqb_spec (r_val r) num) as [Hr|Hr]; cbn [negb].
  2: { apply (stop_unstarted _ _ _ _ chn); [exact Ht|done|by apply Href|]. intros Hb%negb_false_iff. by apply Z.eqb_eq. }
  simpl in Ht. rewrite Hr in Ht. apply wp_bind, wp_callv. intros r2 w2 E2.
  pose proof (refused_call _ _ _ _ _ (A_thread_create THREAD_worker_classif_dispatcher 2) r2 w2 Ht) as Href2.
  destruct (Z.eqb_spec (r_val r2) 1) as [Hr2|Hr2]; cbn [negb].
  - apply run_traffic_ok; [|done]. eapply stage_threads; [exact Ht|done..|]. by apply threads_create, Ht.
  - apply (stop_unstarted true _ _ _ chn num); [|done|by apply Href2|done].
    eapply stage_threads; [exact Ht|done..|]. by apply threads_failed; [apply Ht|].
Qed.

(** *** Interfaces and the channel *)

Lemma create_interfaces_ok B es s :
  listed (heap g) es → stage 0 o0 B [] s →
  wp create_interfaces (λ i s', stage 0 o0 B [] s' ∧ (i < 0 → mishaps s0 s')) s.
Proof.
  intros Hl Hs. apply wp_bind, wp_getg. cbn [heap_of cls_heap]. rewrite (proj1 Hs), (proj1 Hl).
  apply wp_bind. eapply wp_mono; [|apply (wp_for_ret _ (λ i _ s', stage 0 o0 B [] s')
    (λ _ s', stage 0 o0 B [] s' ∧ mishaps s0 s'))].
  - intros [?|?] s' Hr; apply wp_ret; [by split|]. destruct Hr. by split.
  - done.
  - intros i _ s1 Hi H1.
    eapply (cls_wp_quiet o0 fuel s0 g P _ _ _ _ _ _ (λ _, True)); [exact H1|apply cls_quiet_name| |].
    { eapply FpmDirectStart.interface_name_ok; [|idtac|done]; [cbn; by rewrite (proj1 H1)|lia]. }
    intros name s2 _ H2. apply wp_bind, wp_callv. intros r w E.
    pose proof (cls_stage_quiet _ _ _ _ _ _ _ _ _ _ _ H2 (quiet_after _ _ _ _ E eq_refl)) as H3.
    destruct (Z.ltb_spec (r_val r) 0); apply wp_ret; [|done]. split; [done|]. by eapply mishaps_call.
Qed.

Lemma cls_no_channel_ok c gw gc num s :
  stage 0 o0 (group gw ∪ (group gc ∪ B0)) (classes c) s → length (cos_def c) = Z.to_nat NFP_FP_INTERFACE_MAX →
  mishaps s0 s → may (no_channel c gw gc num) main_ends (mishaps s0) s.
Proof using kept_g.
  intros Hs Hlen Hm. apply may_bind, may_wp.
  eapply wp_mono; [|apply wp_keeps; [by apply (cls_quiet_call_ A_stop_processing)|apply any_call_]]. intros [] s1 [_ Hq].
  pose proof (cls_stage_quiet _ _ _ _ _ _ _ _ _ _ _ Hs Hq) as H1. apply may_bind. destruct (0 <? num); cbn [when].
  - apply may_stuck. by eapply mishaps_quiet.
  - apply may_wp, wp_ret, may_bind, may_wp, wp_call_. intros r w E. apply may_finish; [|done].
    eapply stage_threads; [exact H1|done..|]. by apply (threads_join 0), H1.
Qed.

Lemma cls_run_classify_ok es gw gc num s :
  listed (heap g) es → Z.of_nat (length es) ≤ NFP_FP_INTERFACE_MAX →
  stage 0 o0 (group gw ∪ (group gc ∪ B0)) [] s → (MAX_WORKERS < num → P) →
  may (classify fuel (params g) gw gc num) main_ends (mishaps s0) s.
Proof using All.
  intros Hl Hle Hs HP. apply may_bind, may_wp. eapply wp_mono; [|by eapply create_interfaces_ok]. intros i s1 [H1 Hi]. cbn beta.
  assert (Hblank : ∀ s', stage 0 o0 (group gw ∪ (group gc ∪ B0)) [] s' →
    may (finish EXIT_FAILURE init_classifier gw gc) main_ends (mishaps s0) s').
  { intros s' H'. apply may_finish; [|apply length_replicate]. eapply stage_mono; [exact H'|done|]. by intros ? ?%elem_of_nil. }
  destruct (Z.ltb_spec i 0) as [Hneg|Hpos].
  - apply may_bind. unfold interface_at. apply may_bind, may_wp, wp_getg. cbn [heap_of cls_heap].
    destruct (_ <? _); [|by apply may_stuck, Hi]. by apply may_wp, wp_ret, Hblank.
  - apply may_bind. eapply may_mono; [|by apply (build_classifier_ok o0 fuel s0 g P es Hl)]. intros [rc c] s2 [Hlen H2].
    cbn [fst snd] in *. destruct (negb _); [by apply may_finish|].
    destruct (_ =? METHOD_CHANNEL); [|apply start_threads_ok; [|done|done]; eapply stage_mono; [exact H2|apply union_subseteq_r|done]].
    apply may_bind, may_wp, wp_callv. intros r w E.
    pose proof (stage_obj _ _ _ _ _ _ _ _ _ _ _ _ _ H2 E eq_refl eq_refl I) as H3. unfold obj_step in H3. cbn [fst snd creates] in H3.
    destruct (Z.eqb_spec (r_val r) NFP_CHANNEL_INVALID) as [Hr|Hr]; [|by apply start_threads_ok].
    apply cls_no_channel_ok; [|done|by eapply mishaps_call].
    eapply stage_mono; [exact H3| |done]. unfold handle at 1. rewrite Hr, Z.eqb_refl. clear. set_solver.
Qed.
End Staged.

Context (SocketValue0 : DefaultAppStart.SocketValue W F).

Lemma cls_work_ok s0 g items es s :
  kept 1 b0 (heap g) → lists (heap g) items → listed (heap g) es → Z.of_nat (length es) ≤ NFP_FP_INTERFACE_MAX →
  parsed b0 (params g) (heap g) → stage o0 fuel s0 g False 0 o0 (objects (trace s0)) [] s →
  may (work fuel (params g)) (main_ends s0) (mishaps s0) s.
Proof using SocketValue0.
  intros Hk Hlists Hl Hle Hp Hs. apply may_bind, may_wp, wp_callv. intros r w E.
  set (num := workers_of (r_val r) (core_count (params g))). set (s1 := after s _ r w).
  assert (H1 : stage o0 fuel s0 g (MAX_WORKERS < num) 0 o0 (objects (trace s0)) [] s1).
  { pose proof (cls_stage_quiet _ _ _ _ _ _ _ _ _ _ _ Hs (quiet_after _ _ _ _ E eq_refl)) as (Hg & Ht & Hf & Ho & _).
    split_and!; [done..|]. intros Hn. eapply mishaps_call; [exact Hs|]. unfold mishap. cbn [fst snd]. unfold num, workers_of in Hn.
    destruct (_ && (_ <? _)) eqn:Hc; [|lia]. apply andb_prop in Hc as [_ Hc%Z.ltb_lt]. lia. }
  assert (Hfin : ∀ x s', stage o0 fuel s0 g (MAX_WORKERS < num) 0 o0 (handle K_group INVALID x ∪ objects (trace s0)) [] s' →
    may (finish EXIT_FAILURE init_classifier x INVALID) (main_ends s0) (mishaps s0) s').
  { intros x s' H'. eapply may_finish; [exact Hk| |apply length_replicate].
    eapply stage_mono; [exact H'|clear; set_solver|]. by intros ? ?%elem_of_nil. }
  destruct (_ <? 4); [apply Hfin; eapply stage_mono; [exact H1|apply union_subseteq_r|done]|].
  apply may_bind, may_wp, wp_callv. intros r2 w2 E2.
  pose proof (stage_obj _ _ _ _ _ _ _ _ _ _ _ _ _ H1 E2 eq_refl eq_refl I) as H2. unfold obj_step in H2. cbn [fst snd creates] in H2.
  destruct (Z.eqb_spec (r_val r2) INVALID) as [Hr2|Hr2]; [rewrite Hr2 in H2; by apply Hfin|].
  apply may_bind, may_wp, wp_callv. intros r3 w3 E3.
  pose proof (stage_obj _ _ _ _ _ _ _ _ _ _ _ _ _ H2 E3 eq_refl eq_refl I) as H3. unfold obj_step in H3. cbn [fst snd creates] in H3.
  destruct (Z.eqb_spec (r_val r3) INVALID) as [Hr3|Hr3].
  - apply Hfin. eapply stage_mono; [exact H3| |done]. unfold handle at 1. rewrite Hr3, Z.eqb_refl. clear. set_solver.
  - eapply cls_run_classify_ok; [done..| |done]. eapply stage_mono; [exact H3|clear; set_solver|done].
Qed.

(** The outcome of [main]. *)
Definition outcome_ok s0 (o : outcome Z) s : Prop :=
  match o with
  | Ret rc => (rc = EXIT_SUCCESS ∨ rc = EXIT_FAILURE) ∧ over s0 s
  | Exit c => c = EXIT_SUCCESS ∧ over s0 s
  | Stuck => mishaps s0 s
  | NoFuel => False
  end.

Definition outcomes s0 (m : M st Z) s : Prop := ∃ o s', m s = (o, s') ∧ outcome_ok s0 o s'.

Lemma outcomes_may s0 (m : M st Z) s : may m (main_ends s0) (mishaps s0) s → outcomes s0 m s.
Proof. intros (o & s' & Hrun & Ho). exists o, s'. split; [done|]. by destruct o. Qed.

Lemma outcomes_bind {A} s0 (m : M st A) (f : A → M st Z) s :
  ends m (λ a s', outcomes s0 (f a) s') (λ c s', c = EXIT_SUCCESS ∧ over s0 s') s → outcomes s0 (m ≫= f) s.
Proof.
  intros (o & s1 & Hrun & Ho). destruct o as [a|c| |]; [| |done..].
  2: { exists (Exit c), s1. split; [|done]. unfold mbind, M_bind. by rewrite Hrun. }
  destruct Ho as (o & s2 & Hrun2 & Ho). exists o, s2. by rewrite (bind_Ret _ _ _ _ _ Hrun).
Qed.

(** Nothing has been started. *)
Lemma cls_early s0 s :
  moves s0 [] s [] → fine o0 s → still s0 s → spare 1 b0 (heap (glob s)) → over s0 s.
Proof. intros Hm Hf [Ho _] Hsp. split_and!; [done..|]. intros x. rewrite Ho. by left. Qed.

Lemma cls_initialize_ok s0 s a :
  moves s0 [] s [] → fine o0 s → still s0 s → accepted b0 a (heap (glob s)) → params (glob s) = a →
  may (r ← callv (A_initialize 0 []);
       if negb (r =? 0) then on_heap parse_args_cleanup;; mret EXIT_FAILURE else work fuel a)
    (main_ends s0) (mishaps s0) s.
Proof using SocketValue0.
  intros Hm Hf Hst Hacc <-. apply may_bind, may_wp, wp_callv. intros r w E. set (s1 := after s _ r w).
  assert (Hf1 : fine o0 s1) by (by apply (idle_after s (A_initialize 0 []) r w)).
  assert (Hst1 : still s0 s1) by (etrans; [exact Hst|by apply still_after]).
  pose proof (ArgOptions.options_kept _ _ _ _ _ (proj1 Hacc)) as Hk.
  destruct (Z.eqb_spec (r_val r) 0) as [Hr|Hr]; cbn [negb].
  - destruct Hacc as [Hp Hcnt]. destruct (holds_listed _ _ _ (proj1 Hp)) as [es Hl]; [lia|].
    destruct (holds_lists _ _ _ (proj1 Hp)) as [items Hlists]; [lia|].
    apply (cls_work_ok s0 (glob s) items es s1); [done..|pose proof (proj1 Hl); lia|done|].
    split_and!; [done| |done| |done].
    + apply threads_none. eapply moves_trans; [exact Hm|]. apply moves_after. unfold hold. cbn [fst snd].
      by rewrite (proj2 (Z.eqb_eq _ _) Hr).
    + intros x Hx. left. by rewrite (proj1 Hst1) in Hx.
  - apply may_bind, may_wp. eapply wp_mono; [|by apply (release_ok 1 b0 s1)].
    intros [] s2 (Ht & Hw & Hs). apply may_wp, wp_ret. split; [by right|]. apply cls_early; [|by apply (idle_same s1)| |done].
    + eapply moves_trans; [exact Hm|]. exists [(A_initialize 0 [], r)]. split; [by rewrite Ht|].
      cbn -[Z.eqb]. by rewrite (proj2 (Z.eqb_neq _ _) Hr).
    + etrans; [exact Hst1|]. split; [by rewrite Ht|by rewrite Hw].
Qed.

(** [C26] [main] of the classifier gives back what it took, provided that each
    option is given at most once and that memory does not run out while options
    are read (a failed allocation of the interface list crashes its parser, and
    a repeated [-f] or [-i] leaves the first copy): when it returns, with
    0 or 1, or exits with 0 after [-h], its threads have been joined and the
    stack terminated, its socket is closed, only the name of the command file
    may be left in memory, and of the scheduler groups, queues and classes it
    created none is left.  The rules are never destroyed, and the channel is
    not when a dispatcher could not be started.  Under the same two conditions
    it gets stuck only after one of four mishaps: the name of an interface has 68 bytes or more, an
    interface cannot be created, there are more than 35 cores, or there is no
    channel. *)
Theorem classifier_main_releases_resources opts s :
  ready b0 (heap (glob s)) → fine o0 s → Forall (opt_ok b0 fuel) opts → NoDup opts.*1 →
  ∃ o s', main fuel opts s = (o, s') ∧
    match o with
    | Ret rc => (rc = EXIT_SUCCESS ∨ rc = EXIT_FAILURE) ∧ over s s'
    | Exit c => c = EXIT_SUCCESS ∧ over s s'
    | Stuck => mishaps s s'
    | NoFuel => False
    end.
Proof using CosLaws0 SocketValue0.
  intros Hready Hf Hok Hnd. change (outcomes s (main fuel opts) s).
  apply outcomes_bind, ends_wp. eapply wp_mono; [|apply wp_keeps; [apply cls_quiet_signals|apply DefaultAppProofs.signals_run]].
  intros r0 s1 [_ [[Hn1 Hi1] Hst1]]. assert (Hf1 : fine o0 s1) by (by apply Hi1).
  assert (Hm1 : moves s [] s1 []) by apply Hn1.
  assert (Hready1 : ready b0 (heap (glob s1))) by (by destruct Hn1 as (_ & -> & _)).
  assert (Hfail : ∀ s', moves s [] s' [] → fine o0 s' → still s s' → spare 1 b0 (heap (glob s')) →
    outcomes s (mret EXIT_FAILURE) s').
  { intros s' ? ? ? ?. apply outcomes_may, may_wp, wp_ret. split; [by right|by apply cls_early]. }
  destruct (negb _); [apply Hfail; [done..|by apply ready_spare]|].
  apply outcomes_bind, ends_on_heap. eapply ends_mono; [| |by apply (cls_args_ok b0)].
  2: { intros c h [-> Hs]. split; [done|]. apply cls_early; [done|by apply (idle_same s1)|done|done]. }
  intros [prc a] h Hres. cbn [fst snd] in Hres. apply outcomes_bind, ends_wp, wp_setg. cbn [fst snd].
  set (s2 := MkApp _ _ _ _). assert (Hf2 : fine o0 s2) by (by apply (idle_same s1)).
  destruct Hres as [[-> Hacc]|[-> Hs]]; [|by apply Hfail].
  change (EXIT_SUCCESS =? EXIT_SUCCESS) with true. cbn [negb]. by apply outcomes_may, cls_initialize_ok.
Qed.
End Main.

(** ** Witness *)

#[global] Program Instance lab_classes : CosLaws ClassifierProofs.lab (gset Z) := { cos_live w := w.2 }.
Next Obligation.
  intros name q pool [d m] r w' E. unfold api, ClassifierProofs.lab_app, ClassifierProofs.lab_api in E. cbn in E.
  case_match eqn:Hm; simplify_eq; cbn; [done|]. destruct (_ =? INVALID); done.
Qed.
Next Obligation. by intros k [d m] r w' [= <- <-]. Qed.
Next Obligation. intros k [d m] r w' q [= <- <-] H. cbn in *. by rewrite H. Qed.
Next Obligation.
  intros c w r w' E Hc. destruct (ClassifierProofs.lab_own c) eqn:Ho; [|by apply ClassifierProofs.lab_other in E as [_ ?]].
  destruct w as [d m]. unfold api, ClassifierProofs.lab_app, ClassifierProofs.lab_api in E.
  destruct c; try discriminate; cbn in E, Hc; try done; by simplify_eq.
Qed.

#[global] Instance lab_sockets : DefaultAppStart.SocketValue ClassifierProofs.lab (gset Z).
Proof. intros d t p w r w' [E _]%ClassifierProofs.lab_other; [|done]. exact (DefaultAppStart.socket_value (W := demo) _ _ _ _ _ _ E). Qed.

(** The command line "-i eth0": a rule is left. *)
Definition demo_command : DefaultApp.options := [(105, (1%positive, 0%nat))].
Lemma classifier_main_releases_resources_witness :
  ∃ o s', main 2060 demo_command (ClassifierProofs.lab_start 3 3) = (o, s') ∧
    match o with
    | Ret rc => (rc = EXIT_SUCCESS ∨ rc = EXIT_FAILURE) ∧
        over (CliArgParse.blocks FpmDirectStart.demo_memory) ∅ 2060 (ClassifierProofs.lab_start 3 3) s'
    | Exit c => c = EXIT_SUCCESS ∧
        over (CliArgParse.blocks FpmDirectStart.demo_memory) ∅ 2060 (ClassifierProofs.lab_start 3 3) s'
    | Stuck => mishaps (ClassifierProofs.lab_start 3 3) s'
    | NoFuel => False
    end.
Proof.
  apply (classifier_main_releases_resources (W := ClassifierProofs.lab) (F := gset Z)
    (CliArgParse.blocks FpmDirectStart.demo_memory) ∅ 2060 _).
  - exact FpmDirectStart.demo_ready.
  - split_and!; [split_and!; [done|done|done|set_solver]|unfold enough; simpl; lia| |done].
    intros t e t' Heq. by destruct t.
  - pose proof (proj1 (proj1 (Forall_singleton _ _) FpmDirectStart.demo_opts_ok)) as Hok.
    repeat constructor; intros _; by apply Hok.
  - apply (bool_decide_unpack _). by vm_compute.
Defined.

(** There all ends well, and exactly one rule stays. *)
Lemma lab_leaves_a_rule :
  let r := main 2060 demo_command (ClassifierProofs.lab_start 3 3) in
  r.1 = Ret EXIT_SUCCESS ∧ objects (trace r.2) = {[(K_rule, 1)]}.
Proof. split; vm_compute; reflexivity. Qed.

End ClassifierStart.
